(* ===== verification/_CoqProject ===== *)
-Q . S2P
Prelude.v
OrderedMap.v
Bytes.v
Utf8.v
RingBuffer.v
CommandHistory.v
HolderWire.v
HolderFrame.v
Environment.v
LaunchEnvironment.v
HolderMessages.v
HolderOperation.v
HolderSession.v
ShellState.v
Effects.v
ByteQueue.v
HolderReactor.v
HolderConnection.v
HolderRuntime.v
HolderServer.v
HolderRoster.v
HolderSafety.v
HolderEvents.v
HolderService.v
ClientFrame.v
ClientMessages.v
Metadata.v
Reconcile.v
MetadataTypes.v
HolderClient.v
HolderBackend.v
HolderLink.v
Migration.v
Daemon.v
DaemonThreads.v
DaemonServer.v
DaemonSamples.v
DaemonCalls.v
DaemonSafety.v
DaemonService.v
DaemonGarbage.v
DaemonTypes.v
DaemonStart.v
DaemonAnswers.v
DaemonRaces.v
PublicAttach.v
Text.v
LogFiles.v
AttachHistory.v
Config.v
DashboardWire.v
Dashboard.v
MetricFormat.v
MetricStorage.v
DashboardService.v
DashboardClient.v
ClientAttach.v
ProcFs.v
CommandLine.v
SessionCommands.v
CommandEffects.v
