(* ===== verification/Prelude.v ===== *)
(** * PersistShell verification library

    PersistShell keeps shell sessions alive when their terminals go away.  Three
    processes share the work.  The _client_ ([persist-cli]) talks to the _daemon_
    ([persistd]) over a Unix socket with the client protocol; the daemon keeps
    the metadata of all sessions in an SQLite database ([persist-metadata]) and
    talks to the _holder_ ([persist-holder]) over a second socket with the holder
    protocol ([persist-ipc/src/holder]); the holder owns the terminals, and lives
    on when the daemon is replaced.  [persist-core] has what they share.  All
    paths below are under [src/crates/].

    ** Conventions

    The model follows the code function by function and keeps its names; where
    a Rust method takes [&mut self] the Rocq function returns the new value.
    - A [Result] is [result] (this file), an [Option] is [option].  A panic is
      [None] of the monads [M] and [IO] of Effects.v, so that "returns" and "does
      not panic" are statements ([runs]).  A handler that fails keeps the changes
      it made before it failed, as in Rust.
    - Machine integers are [N] with their bounds in the statements ([is_u32], ...),
      and [wrapping], [saturating] and [checked] operations are written out.
      Bytes are [Byte.byte], a string is the list of its UTF-8 bytes (Bytes.v,
      Utf8.v, Text.v).  A [BTreeMap] and a [HashMap] are [gmap]s; where the code
      iterates in key order OrderedMap.v gives that order, and where the order of
      a [HashMap] shows, it is an argument.
    - What the kernel, SQLite, the clock and other processes answer is an argument
      or the answer of a call, and theorems quantify over it.  Code that is not in
      the repository is a class with documented laws: [SnapshotJson] and
      [EnvelopeJson] (serde_json), [TomlParser] (toml).  Each theorem that uses
      laws has a witness at a concrete instance.
    - Shared memory of the daemon's threads: a thread is a tree of calls on what is
      shared ([Thread], DaemonThreads.v), one call being one critical section or
      one system call; a pool of threads takes steps in any order ([step]), and
      safety theorems are about every trace of every pool.
    - Loops.  Loops over data are structural.  The others have fuel, which is
      proved to be enough: the frame loops and the loop of the proxy consume a
      header per turn (fuel: the length of the buffer plus one), the writing loops
      take one answer of the kernel per turn, removing samples shortens the queue
      of the history, a segment is read with its length as fuel, a rotation
      removes one name per turn, the inventory has at most as many pages as a
      summary has sessions, and the search for the owner of a process visits
      another process in every turn.  The search of the logs reads one answer of
      the kernel per turn: more fuel than each file has lines is enough
      ([log_search_exact]), and for a directory no fuel is ([log_search_hangs]).

    ** The files

    Foundations.
    - Prelude.v: results, iteration with errors, saturating arithmetic, list lemmas.
    - OrderedMap.v, Bytes.v, Utf8.v, Text.v: what is used of the Rust library.
    - Effects.v: the state monads with errors and panics, [runs] and its rules.
    - ByteQueue.v: the queue of bytes that both terminals and connections use.

    What the processes share ([persist-core]).
    - RingBuffer.v ([ringbuf.rs]): the recent output; refines a log of all output.
    - CommandHistory.v ([command_history*.rs]): the history file; loading what was
      appended, compaction, and recovery from a crash within an append.
    - Environment.v, LaunchEnvironment.v ([shell_state/environment*]): which
      variables of a shell are saved and with which a shell is started.
    - ShellState.v ([shell_state*.rs], [persist-holder/src/runtime/state.rs]): the
      file a shell leaves behind; it is replaced as a whole or not at all.
    - Config.v ([config*.rs]): values with units, layers, validation.

    Protocols ([persist-ipc]).
    - HolderWire.v, HolderFrame.v ([holder/wire.rs], [holder/frame.rs]): fields and
      frames; a stream cut anywhere gives the frames that were sent.
    - HolderMessages.v, HolderOperation.v, HolderSession.v ([handshake.rs],
      [capability.rs], [inventory.rs], [operation.rs], [session.rs]): every message.
    - ClientFrame.v, ClientMessages.v ([protocol.rs]): the client protocol.
    - DashboardWire.v ([dashboard*]): the messages of the dashboard.

    The holder ([persist-holder]).
    - HolderRuntime.v ([runtime.rs], the queue of [log_worker.rs]), HolderReactor.v,
      HolderConnection.v, HolderServer.v ([server.rs], [server_handlers.rs]).
    - HolderRoster.v is the abstract specification of who is connected, attached and
      may write; HolderSafety.v and HolderEvents.v prove that every event of the
      holder keeps the invariant, does not panic and is a sequence of its steps.
    - HolderService.v: what the holder does for the daemon and the clients.
    - LogFiles.v, AttachHistory.v ([log_worker.rs], [persistd/src/attach_history.rs]):
      writing, rotating and reading back the logs, over a disk of names and inodes.

    The daemon ([persist-metadata], [persistd]).
    - Metadata.v, MetadataTypes.v, Migration.v ([store.rs]): every statement, the
      well-formedness all of them keep, the migrations with crashes between
      statements.
    - HolderClient.v, HolderBackend.v ([holder/client.rs], [holder/data.rs],
      [holder/mod.rs]): the connections to any holder; HolderLink.v connects them to
      the holder of HolderServer.v.
    - Reconcile.v ([holder/reconcile.rs]): matching the holder with the metadata.
    - Daemon.v, DaemonThreads.v, DaemonServer.v ([server.rs]): the session manager and
      every handler as a thread.  The holder is the class [HolderService], its
      promises [HolderServiceLaws]; DaemonSamples.v has a concrete one.
    - DaemonCalls.v, DaemonSafety.v, DaemonTypes.v (every interleaving),
      DaemonService.v, DaemonStart.v, DaemonGarbage.v, DaemonAnswers.v (one thread),
      DaemonRaces.v (interleavings that go wrong).
    - PublicAttach.v ([public_attach*]): the proxy between a client and the holder.
    - Dashboard.v ([dashboard/model.rs], [aggregate.rs], [history.rs]): the samples
      that are kept and the trends drawn from them.
    - MetricFormat.v, MetricStorage.v ([dashboard/format.rs], [storage*.rs],
      [writer.rs], [worker.rs]): the records of the minutes, their segments on a disk,
      rotation, and the thread that writes them.
    - ProcFs.v ([dashboard/procfs.rs], [proc_source.rs]): the text of [/proc/<pid>/stat]
      and [io], which session a process belongs to, and the totals of a session.
    - DashboardService.v ([dashboard/ipc*.rs]): the answers to the requests of the
      dashboard, over the state the daemon publishes; DashboardClient.v
      ([persist-cli/src/dashboard/ipc.rs]) asks for all pages of an inventory.

    The command line ([persist-cli]).
    - CommandLine.v ([persist-core/src/error.rs], [command.rs]): errors and what is
      shown of them, the parser of the arguments.
    - SessionCommands.v ([session.rs], [cli.rs]): the commands that talk to the daemon
      or read the logs, as a client with a socket, files and two outputs;
      CommandEffects.v composes them with the handlers of the daemon.
    - ClientAttach.v ([attach.rs]): the loop between the terminal and the socket.

    ** What is shown

    - Durability: a session is forgotten by the holder only after the metadata has
      its end; files are replaced as a whole; a crash within an append or a
      migration leaves a state the next start handles (or the finding that it does
      not).
    - Safety of the holder: nothing a client sends stops it, its tables agree, only
      the writer of a session acts on it, a data connection is authorised.
    - Service: output reaches every client of a session once and in order, input
      reaches the terminal, an attach takes the seat over, the proxy relays both
      directions, a closed session shows the end of its output.
    - Bookkeeping: the metadata stays well formed in every interleaving, the daemon
      and the holder agree after reconciliation, the collection of idle sessions
      spares all others, in the daemon and in the holder, and each request is
      answered by one frame, of which the socket of the client has what it took
      ([takes] of DaemonThreads.v: the result of the write is ignored).
    - Metrics: what was appended is loaded again after a crash at any byte, the
      directory keeps to its limits, the counters of a session are the sums over
      exactly the processes below its root, and the client shows every session of a
      summary once.
    - The command line: every setting comes from the first layer that has it, every
      command has a canonical form that is parsed back, a change is reported as done
      exactly if the daemon did it, keys reach the session and output the screen in
      order (up to the last newline, see the findings), and a search prints the
      matching lines of all logs in order.
    - Data: every message is read back as written; accepted frames, sizes, dates and
      environments are exactly those the limits allow; bounded buffers keep the
      newest data and stay within their bounds.

    ** Not modelled

    - System calls as such: sockets, peer credentials, [epoll], [posix_openpt], [fork],
      [exec], [waitpid], [/proc], signals and pid files ([persist-pty], the
      [socket.rs] and [lifecycle.rs] of each crate, [process*.rs]).  Their answers are
      arguments.
    - SQL: the effect of each statement on the rows is written directly; the parser
      and the storage of SQLite are trusted, and opening the file is I/O.
    - The text of diagnostics is the literal of the source; what is interpolated into
      it is left out except where a theorem is about it (CommandLine.v,
      SessionCommands.v), and writing it to the file of the diagnostics
      ([logging.rs]) is left out.
    - Of the command line: [doctor], printing the configuration, starting and
      stopping the daemon, the installer of the shell hooks, the browser of the
      sessions and the drawing of the dashboard; the modes of the terminal.
    - The generated shell snippets ([shell_history.rs]).
    - Starting and joining the threads of the dashboard. *)
From stdpp Require Export base list numbers option gmap strings.
From Stdlib Require Strings.String Strings.Byte.
From Stdlib Require Import Lia.

(** ** Results: Rust's [Result<A, E>] *)

Inductive result (E A : Type) : Type :=
| Ok (a : A)
| Err (e : E).
Global Arguments Ok {E A} a.
Global Arguments Err {E A} e.

#[export] Instance result_ret E : MRet (result E) := fun A a => Ok a.
#[export] Instance result_bind E : MBind (result E) := fun A B f c =>
  match c with Ok a => f a | Err e => Err e end.
#[export] Instance result_fmap E : FMap (result E) := fun A B f c =>
  match c with Ok a => Ok (f a) | Err e => Err e end.

(** [check c e] is the guard [if c { return Err(e) }]. *)
Definition check {E : Type} (c : bool) (e : E) : result E unit :=
  if c then Err e else Ok tt.

(** [ok_or]: the conversion of an [Option] into a [Result]. *)
Definition ok_or {E A : Type} (o : option A) (e : E) : result E A :=
  match o with Some a => Ok a | None => Err e end.

Definition is_ok {E A : Type} (c : result E A) : bool :=
  match c with Ok _ => true | Err _ => false end.

(** [collect_ok f l]: run the fallible [f] on every element, left to right,
    stopping at the first error. *)
Fixpoint collect_ok {E A B : Type} (f : A -> result E B) (l : list A)
  : result E (list B) :=
  match l with
  | [] => Ok []
  | x :: l' => y ← f x; ys ← collect_ok f l'; Ok (y :: ys)
  end.

(** [for x in l { s = f(s, x)?; }] *)
Fixpoint fold_ok {E S A : Type} (f : S -> A -> result E S) (s : S) (l : list A) : result E S :=
  match l with
  | [] => Ok s
  | x :: l' => s' ← f s x; fold_ok f s' l'
  end.

Lemma Ok_inj {E A} (a b : A) : @Ok E A a = Ok b -> a = b.
Proof. by intros [= ->]. Qed.

Section result_lemmas.
Context {E A B : Type}.
Implicit Types (c : result E A) (f : A -> result E B).

Lemma ok_bind f (a : A) : (Ok a ≫= f) = f a.
Proof. reflexivity. Qed.

Lemma bind_Ok_inv f c (b : B) :
  (c ≫= f) = Ok b -> exists a, c = Ok a /\ f a = Ok b.
Proof. destruct c; simpl; [eauto | discriminate]. Qed.

Lemma bind_Err_inv f c e :
  (c ≫= f) = Err e -> c = Err e \/ exists a, c = Ok a /\ f a = Err e.
Proof. destruct c; simpl; [eauto | left; congruence]. Qed.

Lemma ok_or_Ok (o : option A) (e : E) a : ok_or o e = Ok a <-> o = Some a.
Proof. destruct o; simpl; split; congruence. Qed.

Lemma fmap_Ok_inv (g : A -> B) c b :
  (g <$> c) = Ok b -> exists a, c = Ok a /\ b = g a.
Proof. destruct c; simpl; intros H; inversion H; eauto. Qed.

Lemma check_Ok (g : bool) (e : E) u : check g e = Ok u <-> g = false.
Proof. destruct g, u; simpl; split; congruence. Qed.

End result_lemmas.

Lemma collect_ok_Forall2 {E A B} (f : A -> result E B) (l : list A) (l' : list B) :
    collect_ok f l = Ok l' <-> Forall2 (fun x y => f x = Ok y) l l'.
  Proof.
    revert l'; induction l as [|x l IH]; intros l'; simpl.
    - split; [intros [= <-]; constructor | inversion 1; reflexivity].
    - split.
      + intros (y & Hy & H)%bind_Ok_inv.
        destruct (collect_ok f l) as [ys|] eqn:Hc; simpl in H; [|discriminate].
        injection H as <-. constructor; [done | by apply IH].
      + inversion 1 as [|? y ? ys Hy Hl]; subst. rewrite Hy; simpl.
        apply IH in Hl. by rewrite Hl.
  Qed.

(** A list of encodings is the map of the encoder. *)
Lemma Forall2_map_iff {A B} (f : A -> B) (P : A -> Prop) l l' :
  Forall2 (fun x y => y = f x /\ P x) l l' <-> Forall P l /\ l' = map f l.
Proof.
  split.
  - induction 1 as [|x y l l' [-> Hx] _ [IH ->]]; simpl; auto.
  - intros [H ->]. induction H; simpl; constructor; auto.
Qed.

Lemma collect_ok_map {E A B} (g : A -> result E B) (f : A -> B) l :
  Forall (fun x => g x = Ok (f x)) l -> collect_ok g l = Ok (map f l).
Proof. induction 1 as [|x l Hx _ IH]; simpl; [done|]. by rewrite Hx; simpl; rewrite IH. Qed.

Lemma existsb_false_elem {A} (f : A -> bool) l x : existsb f l = false -> x ∈ l -> f x = false.
Proof.
  intros H Hx. apply not_true_iff_false. intros Hf. apply not_true_iff_false in H. apply H.
  apply existsb_exists. exists x. split; [by apply list_elem_of_In|done].
Qed.

(** Inversion of a successful computation, one bind at a time. *)
Ltac inv_ok :=
  repeat match goal with
  | H : (_ ≫= _) = Ok _ |- _ =>
      let a := fresh "x" in let H1 := fresh "Hok" in
      apply bind_Ok_inv in H as (a & H1 & H); cbv beta iota zeta in H
  | H : (_ <$> _) = Ok _ |- _ =>
      let a := fresh "x" in let H1 := fresh "Hok" in
      apply fmap_Ok_inv in H as (a & H1 & H)
  | H : check _ _ = Ok _ |- _ => apply check_Ok in H
  | H : ok_or _ _ = Ok _ |- _ => apply ok_or_Ok in H
  | x : unit |- _ => destruct x
  | H : Ok _ = Ok _ |- _ => apply Ok_inj in H
  | H : (_, _) = (_, _) |- _ =>
      let H' := fresh H in apply pair_equal_spec in H as [H H']
  | H : Err _ = Ok _ |- _ => discriminate H
  | H : (if ?b then Err _ else _) = Ok _ |- _ =>
      let E := fresh "Hif" in destruct b eqn:E; [discriminate H|]
  end.

(** Boolean hypotheses and goals into propositions. *)
Ltac boolp :=
  repeat match goal with
  | H : (_ || _)%bool = false |- _ => apply orb_false_iff in H as [? ?]
  | H : (_ && _)%bool = true |- _ => apply andb_true_iff in H as [? ?]
  | H : negb _ = true |- _ => apply negb_true_iff in H
  | H : negb _ = false |- _ => apply negb_false_iff in H
  | H : (_ =? _)%N = true |- _ => apply N.eqb_eq in H
  | H : (_ =? _)%N = false |- _ => apply N.eqb_neq in H
  | H : (_ <? _)%N = true |- _ => apply N.ltb_lt in H
  | H : (_ <? _)%N = false |- _ => apply N.ltb_ge in H
  | H : (_ <=? _)%N = true |- _ => apply N.leb_le in H
  | H : (_ <=? _)%N = false |- _ => apply N.leb_gt in H
  | H : bool_decide _ = true |- _ => apply bool_decide_eq_true in H
  | H : bool_decide _ = false |- _ => apply bool_decide_eq_false in H
  end.

(** ** Errors: the constructors of [PersistError]
    (crates/persist-core/src/error.rs) that the modelled code builds.  A
    formatted message is represented by its format string. *)
Inductive persist_error : Type :=
| InvalidArgument (message : String.string)
| InternalError (message : String.string)
| DaemonAlreadyRunning
| IoError (operation : String.string)
| MetadataOperation (operation : String.string).
Global Arguments InvalidArgument message%_string.
Global Arguments InternalError message%_string.
Global Arguments IoError operation%_string.
Global Arguments MetadataOperation operation%_string.

(** [Err(PersistError::invalid_argument(m))]. *)
Abbreviation invalid_argument m := (Err (InvalidArgument m)).

(** ** Lengths as [N] (Rust's [usize]); sizes of the code are large literals
    and are never written in unary. *)

Definition lenN {A} (l : list A) : N := N.of_nat (length l).
Definition takeN {A} (n : N) (l : list A) : list A := take (N.to_nat n) l.
Definition dropN {A} (n : N) (l : list A) : list A := drop (N.to_nat n) l.

(** [slice l i j] is Rust's [&l[i..j]] (for [i <= j <= len]). *)
Definition slice {A} (l : list A) (i j : N) : list A := takeN (j - i) (dropN i l).

(** Bounds of machine integers and of Rust allocations. *)
Definition u8_max : N := 255.
Definition u16_max : N := 65535.
Definition u32_max : N := 4294967295.
Definition u64_max : N := 18446744073709551615.
Definition usize_max : N := u64_max.
Definition isize_max : N := 9223372036854775807.

(** Every Rust slice and vector is at most [isize::MAX] bytes long. *)
Definition fits {A} (l : list A) : Prop := (lenN l <= isize_max)%N.

Definition checked_add_usize (a b : N) : option N :=
  if (a + b <=? usize_max)%N then Some (a + b)%N else None.
Definition saturating_sub (a b : N) : N := (a - b)%N.
Definition saturating_add_u64 (a b : N) : N := N.min (a + b) u64_max.
Definition saturating_add_usize (a b : N) : N := N.min (a + b) usize_max.

Lemma saturating_add_usize_le a b m :
  (m < usize_max -> saturating_add_usize a b <= m -> a + b <= m)%N.
Proof. unfold saturating_add_usize. lia. Qed.

Section lenN_lemmas.
Context {A : Type}.
Implicit Types (l : list A) (n : N).
Local Open Scope N_scope.

Lemma lenN_nil : lenN (@nil A) = 0.
Proof. reflexivity. Qed.
Lemma lenN_cons x l : lenN (x :: l) = 1 + lenN l.
Proof. unfold lenN; simpl length; lia. Qed.
Lemma lenN_app l1 l2 : lenN (l1 ++ l2) = lenN l1 + lenN l2.
Proof. unfold lenN; rewrite length_app; lia. Qed.
Lemma lenN_takeN n l : lenN (takeN n l) = N.min n (lenN l).
Proof. unfold lenN, takeN; rewrite length_take; lia. Qed.
Lemma lenN_dropN n l : lenN (dropN n l) = lenN l - n.
Proof. unfold lenN, dropN; rewrite length_drop; lia. Qed.
Lemma lenN_slice l i j : j <= lenN l -> lenN (slice l i j) = j - i.
Proof. intros; unfold slice; rewrite lenN_takeN, lenN_dropN; lia. Qed.
Lemma lenN_0_inv l : lenN l = 0 -> l = [].
Proof. destruct l; unfold lenN; simpl; [done | lia]. Qed.
Lemma lenN_replicate k (x : A) : lenN (replicate k x) = N.of_nat k.
Proof. unfold lenN; by rewrite length_replicate. Qed.

Lemma takeN_dropN n l : takeN n l ++ dropN n l = l.
Proof. apply take_drop. Qed.
Lemma takeN_app l1 l2 n : n = lenN l1 -> takeN n (l1 ++ l2) = l1.
Proof. intros ->; unfold takeN, lenN. rewrite Nat2N.id. by rewrite take_app_length. Qed.
Lemma dropN_app l1 l2 n : n = lenN l1 -> dropN n (l1 ++ l2) = l2.
Proof. intros ->; unfold dropN, lenN. rewrite Nat2N.id. by rewrite drop_app_length. Qed.
Lemma takeN_ge n l : lenN l <= n -> takeN n l = l.
Proof. unfold takeN, lenN; intros; apply take_ge; lia. Qed.
Lemma dropN_ge n l : lenN l <= n -> dropN n l = [].
Proof. unfold dropN, lenN; intros; apply drop_ge; lia. Qed.
Lemma dropN_0 l : dropN 0 l = l.
Proof. reflexivity. Qed.
Lemma dropN_zero n l : n = 0 -> dropN n l = l.
Proof. by intros ->. Qed.
Lemma dropN_dropN i j l : dropN i (dropN j l) = dropN (j + i) l.
Proof. unfold dropN; rewrite drop_drop; f_equal; lia. Qed.
Lemma slice_app l1 l2 l3 i j :
  i = lenN l1 -> j = lenN l1 + lenN l2 -> slice (l1 ++ l2 ++ l3) i j = l2.
Proof.
  intros -> ->. unfold slice. rewrite (dropN_app l1) by done.
  apply takeN_app; lia.
Qed.
Lemma takeN_app_le l1 l2 n : n <= lenN l1 -> takeN n (l1 ++ l2) = takeN n l1.
Proof. unfold takeN, lenN; intros; apply take_app_le; lia. Qed.
Lemma dropN_app_le l1 l2 n : n <= lenN l1 -> dropN n (l1 ++ l2) = dropN n l1 ++ l2.
Proof. unfold dropN, lenN; intros; apply drop_app_le; lia. Qed.
Lemma slice_app_l l1 l2 i j : j <= lenN l1 -> slice (l1 ++ l2) i j = slice l1 i j.
Proof.
  intros. unfold slice. destruct (N.le_gt_cases i (lenN l1)).
  - rewrite dropN_app_le by done. apply takeN_app_le. rewrite lenN_dropN; lia.
  - by replace (j - i) with 0 by lia.
Qed.
Lemma dropN_app_r l1 l2 n : lenN l1 <= n -> dropN n (l1 ++ l2) = dropN (n - lenN l1) l2.
Proof.
  unfold dropN, lenN; intros. rewrite drop_app_ge by lia. f_equal; lia.
Qed.
Lemma slice_app_r l1 l2 i j :
  lenN l1 <= i -> slice (l1 ++ l2) i j = slice l2 (i - lenN l1) (j - lenN l1).
Proof.
  intros. unfold slice. rewrite dropN_app_r by done. f_equal. lia.
Qed.
(** A list cut at [i] and [j]. *)
Lemma slice_split l i j :
  i <= j -> j <= lenN l -> l = takeN i l ++ slice l i j ++ dropN j l.
Proof.
  intros. unfold slice.
  rewrite <- (takeN_dropN i l) at 1. f_equal.
  rewrite <- (takeN_dropN (j - i) (dropN i l)) at 1. f_equal.
  rewrite dropN_dropN. f_equal. lia.
Qed.
Lemma slice_prefix l1 l2 j : j = lenN l1 -> slice (l1 ++ l2) 0 j = l1.
Proof. intros ->. apply (slice_app []); done. Qed.
Lemma slice_all l i j : i = 0 -> j = lenN l -> slice l i j = l.
Proof. intros -> ->. unfold slice. rewrite dropN_0. apply takeN_ge. lia. Qed.
Lemma slice_suffix l1 l2 i j :
  i = lenN l1 -> j = lenN l1 + lenN l2 -> slice (l1 ++ l2) i j = l2.
Proof. intros. rewrite <- (app_nil_r l2) at 1. by apply slice_app. Qed.
End lenN_lemmas.

Lemma lenN_map {A B} (f : A -> B) l : lenN (map f l) = lenN l.
Proof. unfold lenN. by rewrite length_map. Qed.

Create Rewrite HintDb lenN.
#[export] Hint Rewrite @lenN_nil @lenN_cons @lenN_app @lenN_takeN @lenN_dropN
  @lenN_replicate : lenN.

(** Arithmetic on lengths of composed lists. *)
Ltac len := autorewrite with lenN in *; try lia.

(** Select a field of a concatenation of fields of known length. *)
Ltac field :=
  repeat first [ rewrite slice_app_r by len | rewrite dropN_app_r by len ];
  first [ apply slice_prefix; solve [len] | apply slice_all; solve [len]
        | apply takeN_app; solve [len] | apply dropN_app; solve [len]
        | apply dropN_zero; solve [len] ].

(** Evaluate the comparisons of the goal that arithmetic decides. *)
Ltac ndec :=
  repeat match goal with
  | |- context [(?a <? ?b)%N] =>
      first [ rewrite (proj2 (N.ltb_lt a b)) by lia | rewrite (proj2 (N.ltb_ge a b)) by lia ]
  | |- context [(?a <=? ?b)%N] =>
      first [ rewrite (proj2 (N.leb_le a b)) by lia | rewrite (proj2 (N.leb_gt a b)) by lia ]
  | |- context [(?a =? ?b)%N] =>
      first [ rewrite (proj2 (N.eqb_eq a b)) by lia | rewrite (proj2 (N.eqb_neq a b)) by lia ]
  end; cbn [orb andb negb].
