(* ===== verification/OrderedMap.v ===== *)
(** * OrderedMap: maps with numeric keys, in the order of the keys.

    A [BTreeMap], the sorted keys of a [HashMap] and an [ORDER BY] on an integer
    primary key are all a [gmap] read by [ordered]. *)
From S2P Require Import Prelude.
From stdpp Require Import sorting.
From Stdlib Require Import Lia.
Local Open Scope N_scope.

Section ordered.
Context {A : Type}.

Definition key_le (a b : N * A) : Prop := a.1 <= b.1.
#[global] Instance key_le_dec : RelDecision key_le.
Proof. intros a b. unfold key_le. apply _. Defined.

Definition ordered (m : gmap N A) : list (N * A) := merge_sort key_le (map_to_list m).
End ordered.

Lemma elem_of_ordered {A} (m : gmap N A) k a : (k, a) ∈ ordered m <-> m !! k = Some a.
Proof.
  unfold ordered. rewrite merge_sort_Permutation. apply elem_of_map_to_list.
Qed.

Lemma ordered_NoDup {A} (m : gmap N A) : NoDup (ordered m).*1.
Proof. unfold ordered. rewrite merge_sort_Permutation. apply NoDup_fst_map_to_list. Qed.

(** The keys come in strictly increasing order. *)
Lemma ordered_sorted {A} (m : gmap N A) : StronglySorted N.lt (ordered m).*1.
Proof.
  assert (Hs : StronglySorted key_le (ordered m)).
  { apply StronglySorted_merge_sort; [intros a b c; unfold key_le; lia|].
    intros a b. unfold key_le. lia. }
  pose proof (ordered_NoDup m) as Hd. revert Hd Hs. generalize (ordered m) as l.
  induction l as [|x l IH]; cbn; intros Hd Hs; [constructor|].
  apply NoDup_cons in Hd as [Hx Hd]. inversion Hs as [|? ? Hs' HF]; subst.
  constructor; [by apply IH|]. apply Forall_forall. intros k Hk.
  assert (k <> x.1) by (by intros ->). apply list_elem_of_fmap in Hk as (y & -> & Hy).
  rewrite Forall_forall in HF. specialize (HF y Hy). unfold key_le in HF. lia.
Qed.

Lemma filter_sorted {A} (P : N * A -> Prop) `{forall x, Decision (P x)} l :
  StronglySorted N.lt l.*1 -> StronglySorted N.lt (filter P l).*1.
Proof.
  induction l as [|z l IH]; intros HS; [constructor|]. inversion HS as [|? ? HS' HF]; subst.
  rewrite filter_cons. destruct (decide _); [|by apply IH]. rewrite fmap_cons.
  constructor; [by apply IH|]. rewrite Forall_forall in *.
  intros k (w & -> & [_ Hw]%list_elem_of_filter)%list_elem_of_fmap.
  apply HF, list_elem_of_fmap. by exists w.
Qed.

