(* ===== verification/Bytes.v ===== *)
(** * Bytes: big-endian machine integers and byte strings.

    Models [to_be_bytes] and [from_be_bytes] of the Rust standard library,
    which every wire format of the program uses, on [Byte.byte]. *)
From S2P Require Import Prelude.
From Stdlib Require Import Lia.

Abbreviation byte := Corelib.Init.Byte.byte.
Abbreviation bytes := (list byte).

#[export] Instance byte_eq_dec : EqDecision byte := Strings.Byte.byte_eq_dec.
#[export] Program Instance byte_countable : Countable byte :=
  inj_countable Strings.Byte.to_N Strings.Byte.of_N _.
Next Obligation. intros b. apply Strings.Byte.of_to_N. Qed.
#[export] Instance byte_inhabited : Inhabited byte := populate Byte.x00.

Local Open Scope N_scope.

(** ** One byte *)

Definition byte_val (b : byte) : N := Strings.Byte.to_N b.

(** [n as u8]. *)
Definition byte_of (n : N) : byte :=
  match Strings.Byte.of_N (n mod 256) with Some b => b | None => Byte.x00 end.

Lemma byte_val_lt b : byte_val b < 256.
Proof. pose proof (Strings.Byte.to_N_bounded b). unfold byte_val; lia. Qed.

Lemma byte_val_of n : byte_val (byte_of n) = n mod 256.
Proof.
  unfold byte_of, byte_val.
  destruct (Strings.Byte.of_N (n mod 256)) as [b|] eqn:E.
  - by apply Strings.Byte.to_of_N in E.
  - apply Strings.Byte.of_N_None_iff in E.
    pose proof (N.mod_lt n 256). lia.
Qed.

Lemma byte_of_val b : byte_of (byte_val b) = b.
Proof.
  unfold byte_of. rewrite N.mod_small by apply byte_val_lt.
  unfold byte_val. by rewrite Strings.Byte.of_to_N.
Qed.

Lemma byte_val_inj b1 b2 : byte_val b1 = byte_val b2 -> b1 = b2.
Proof. intros H. by rewrite <- (byte_of_val b1), H, byte_of_val. Qed.

(** ** Unsigned big-endian integers of [k] bytes *)

Fixpoint be_bytes (k : nat) (n : N) : bytes :=
  match k with
  | O => []
  | S k' => byte_of (n / 256 ^ N.of_nat k') :: be_bytes k' n
  end.

Definition be_val (l : bytes) : N := foldl (fun a b => a * 256 + byte_val b) 0 l.

Lemma be_val_acc l a :
  foldl (fun a b => a * 256 + byte_val b) a l = a * 256 ^ lenN l + be_val l.
Proof.
  unfold be_val. revert a; induction l as [|b l IH]; intros a; simpl.
  - rewrite lenN_nil, N.pow_0_r; lia.
  - rewrite IH, (IH (0 * 256 + byte_val b)), lenN_cons, N.pow_add_r, N.pow_1_r. lia.
Qed.

Lemma be_val_cons b l : be_val (b :: l) = byte_val b * 256 ^ lenN l + be_val l.
Proof. unfold be_val at 1; simpl. by rewrite be_val_acc. Qed.

Lemma length_be_bytes k n : length (be_bytes k n) = k.
Proof. induction k; simpl; [done | by f_equal]. Qed.

Lemma lenN_be_bytes k n : lenN (be_bytes k n) = N.of_nat k.
Proof. unfold lenN; by rewrite length_be_bytes. Qed.

Lemma be_val_lt l : be_val l < 256 ^ lenN l.
Proof.
  induction l as [|b l IH]; [by vm_compute|].
  rewrite be_val_cons, lenN_cons, N.pow_add_r, N.pow_1_r.
  pose proof (byte_val_lt b). nia.
Qed.

Lemma be_val_be_bytes k n : be_val (be_bytes k n) = n mod 256 ^ N.of_nat k.
Proof.
  induction k as [|k IH]; cbn [be_bytes].
  - by rewrite N.pow_0_r, N.mod_1_r.
  - rewrite be_val_cons, byte_val_of, lenN_be_bytes, IH.
    rewrite Nat2N.inj_succ, N.pow_succ_r'.
    rewrite (N.mul_comm 256), N.Div0.mod_mul_r. lia.
Qed.

Lemma be_bytes_mod k n m :
  (N.of_nat k <= m) -> be_bytes k (n mod 256 ^ m) = be_bytes k n.
Proof.
  revert m; induction k as [|k IH]; intros m Hm; cbn [be_bytes]; [done|].
  rewrite IH by lia. f_equal. apply byte_val_inj. rewrite !byte_val_of.
  replace m with (N.of_nat k + 1 + (m - N.of_nat (S k))) by lia.
  rewrite !N.pow_add_r, N.pow_1_r, <- N.mul_assoc, N.Div0.mod_mul_r.
  rewrite N.mul_comm, N.div_add by (apply N.pow_nonzero; lia).
  rewrite (N.div_small (n mod _)) by (apply N.mod_lt, N.pow_nonzero; lia).
  rewrite N.add_0_l, N.Div0.mod_mul_r.
  rewrite (N.mul_comm 256), N.Div0.mod_add, N.Div0.mod_mod. done.
Qed.

Lemma be_bytes_be_val l : be_bytes (length l) (be_val l) = l.
Proof.
  induction l as [|b l IH]; cbn [length be_bytes]; [done|].
  pose proof (be_val_lt l). f_equal.
  - rewrite be_val_cons. change (N.of_nat (length l)) with (lenN l).
    rewrite N.div_add_l by (apply N.pow_nonzero; lia).
    rewrite N.div_small by done. by rewrite N.add_0_r, byte_of_val.
  - etransitivity; [|apply IH]. rewrite be_val_cons.
    rewrite <- (be_bytes_mod _ (_ + _) (lenN l)) by done.
    rewrite N.add_comm, N.Div0.mod_add, N.mod_small by done. done.
Qed.

Lemma be_val_fits k n : n < 256 ^ N.of_nat k -> be_val (be_bytes k n) = n.
Proof. intros. rewrite be_val_be_bytes. by apply N.mod_small. Qed.

Lemma be_bytes_inj k n m :
  n < 256 ^ N.of_nat k -> m < 256 ^ N.of_nat k -> be_bytes k n = be_bytes k m -> n = m.
Proof. intros Hn Hm H. by rewrite <- (be_val_fits k n), H, be_val_fits. Qed.

Lemma be_bytes_val k l : length l = k -> be_bytes k (be_val l) = l.
Proof. intros <-. apply be_bytes_be_val. Qed.

(** The widths the program uses. *)
Definition u16_be (n : N) : bytes := be_bytes 2 n.
Definition u32_be (n : N) : bytes := be_bytes 4 n.
Definition u64_be (n : N) : bytes := be_bytes 8 n.

(** [as u16], [as u32], [as u8]: truncating casts. *)
Definition as_u8 (n : N) : N := n mod 2 ^ 8.
Definition as_u16 (n : N) : N := n mod 2 ^ 16.
Definition as_u32 (n : N) : N := n mod 2 ^ 32.

(** Type invariants of the machine integers. *)
Definition is_u8 (n : N) : Prop := n < 2 ^ 8.
Definition is_u16 (n : N) : Prop := n < 2 ^ 16.
Definition is_u32 (n : N) : Prop := n < 2 ^ 32.
Definition is_u64 (n : N) : Prop := n < 2 ^ 64.

(** ** Signed 32-bit integers in two's complement *)

Definition is_i32 (z : Z) : Prop := (-2147483648 <= z < 2147483648)%Z.
Definition i32_be (z : Z) : bytes := u32_be (Z.to_N (z mod 2 ^ 32)).
Definition i32_of (n : N) : Z :=
  if n <? 2147483648 then Z.of_N n else (Z.of_N n - 4294967296)%Z.

(** Encodings are treated as opaque fields by [simpl] and [cbn]. *)
#[global] Arguments be_bytes : simpl never.
#[global] Arguments u16_be : simpl never.
#[global] Arguments u32_be : simpl never.
#[global] Arguments u64_be : simpl never.
#[global] Arguments i32_be : simpl never.
#[global] Arguments byte_of : simpl never.

Lemma u16_be_val n : is_u16 n -> be_val (u16_be n) = n.
Proof. intros H. by apply be_val_fits. Qed.
Lemma u32_be_val n : is_u32 n -> be_val (u32_be n) = n.
Proof. intros H. by apply be_val_fits. Qed.
Lemma u64_be_val n : is_u64 n -> be_val (u64_be n) = n.
Proof. intros H. by apply be_val_fits. Qed.

Lemma i32_of_be z : is_i32 z -> i32_of (be_val (i32_be z)) = z.
Proof.
  unfold is_i32, i32_be, i32_of. intros Hz.
  change (2 ^ 32)%Z with 4294967296%Z.
  assert (Hb : Z.to_N (z mod 4294967296) < 2 ^ 32).
  { pose proof (Z.mod_pos_bound z 4294967296 eq_refl). lia. }
  rewrite u32_be_val by done.
  pose proof (Z.mod_pos_bound z 4294967296 eq_refl) as Hm.
  destruct (N.ltb_spec (Z.to_N (z mod 4294967296)) 2147483648) as [Hlt|Hge];
    rewrite Z2N.id by lia; Z.to_euclidean_division_equations; lia.
Qed.

Lemma i32_be_of l : length l = 4%nat -> i32_be (i32_of (be_val l)) = l.
Proof.
  intros Hl. unfold i32_be, u32_be. rewrite <- (be_bytes_val 4 l) at 2 by done.
  f_equal. pose proof (be_val_lt l) as Hb. unfold lenN in Hb. rewrite Hl in Hb.
  change (256 ^ N.of_nat 4) with 4294967296 in Hb.
  unfold i32_of. change (2 ^ 32)%Z with 4294967296%Z.
  destruct (N.ltb_spec (be_val l) 2147483648).
  - rewrite Z.mod_small by lia. lia.
  - replace (Z.of_N (be_val l) - 4294967296)%Z
      with (Z.of_N (be_val l) + (-1) * 4294967296)%Z by lia.
    rewrite Z.mod_add by done. rewrite Z.mod_small by lia. lia.
Qed.

Lemma i32_of_range l : length l = 4%nat -> is_i32 (i32_of (be_val l)).
Proof.
  intros Hl. pose proof (be_val_lt l) as Hb. unfold lenN in Hb. rewrite Hl in Hb.
  change (256 ^ N.of_nat 4) with 4294967296 in Hb.
  unfold i32_of, is_i32. destruct (N.ltb_spec (be_val l) 2147483648); lia.
Qed.

Lemma lenN_u16_be n : lenN (u16_be n) = 2.
Proof. apply lenN_be_bytes. Qed.
Lemma lenN_u32_be n : lenN (u32_be n) = 4.
Proof. apply lenN_be_bytes. Qed.
Lemma lenN_u64_be n : lenN (u64_be n) = 8.
Proof. apply lenN_be_bytes. Qed.
Lemma lenN_i32_be z : lenN (i32_be z) = 4.
Proof. apply lenN_be_bytes. Qed.
#[export] Hint Rewrite lenN_be_bytes lenN_u16_be lenN_u32_be lenN_u64_be lenN_i32_be : lenN.

(** ** Byte strings: [String] and [&str] are UTF-8 byte sequences *)

Abbreviation str := (list byte).

(** [s.contains('\0')] / [s.as_bytes().contains(&0)]. *)
Definition has_nul (s : str) : bool := existsb (fun b => byte_val b =? 0) s.

(** [starts_with] on bytes. *)
Fixpoint starts_with (p s : str) : bool :=
  match p, s with
  | [], _ => true
  | a :: p', b :: s' => bool_decide (a = b) && starts_with p' s'
  | _ :: _, [] => false
  end.

(** A literal [str] of the source. *)
Definition lit (s : String.string) : str := String.list_byte_of_string s.
Global Arguments lit s%_string.

Lemma starts_with_app p s : starts_with p s = true <-> exists t, s = p ++ t.
Proof.
  revert s; induction p as [|a p IH]; intros s; simpl.
  - split; eauto.
  - destruct s as [|b s]; [split; [done | by intros [t ?]]|].
    rewrite andb_true_iff, bool_decide_eq_true, IH.
    split; [intros [-> [t ->]]; eauto | intros [t [= -> ->]]; eauto].
Qed.

(** ** The order of [str]: lexicographic on bytes *)

Fixpoint str_leb (a b : str) : bool :=
  match a, b with
  | [], _ => true
  | _ :: _, [] => false
  | x :: a', y :: b' =>
      (byte_val x <? byte_val y) || ((byte_val x =? byte_val y) && str_leb a' b')
  end.

Definition str_le (a b : str) : Prop := str_leb a b = true.

#[export] Instance str_le_dec : RelDecision str_le.
Proof. intros a b. unfold str_le. apply _. Defined.

#[export] Instance str_le_total : Total str_le.
Proof.
  intros a. unfold str_le. induction a as [|x a IH]; intros [|y b]; simpl; auto.
  destruct (N.ltb_spec (byte_val x) (byte_val y)), (N.ltb_spec (byte_val y) (byte_val x)); auto; simpl.
  assert (Heq : byte_val x = byte_val y) by lia. rewrite Heq, N.eqb_refl. apply IH.
Qed.

#[export] Instance str_le_trans : Transitive str_le.
Proof.
  intros a. unfold str_le. induction a as [|x a IH]; intros [|y b] [|z c]; simpl; try done.
  rewrite !orb_true_iff, !andb_true_iff, !N.ltb_lt, !N.eqb_eq.
  intros [?|[? ?]] [?|[? ?]]; [left; lia..|right]. split; [congruence|eauto].
Qed.

#[export] Instance str_le_antisymm : AntiSymm (=) str_le.
Proof.
  intros a. unfold str_le. induction a as [|x a IH]; intros [|y b]; simpl; try done.
  rewrite !orb_true_iff, !andb_true_iff, !N.ltb_lt, !N.eqb_eq.
  intros [?|[? ?]] [?|[? ?]]; try lia. f_equal; [by apply byte_val_inj|auto].
Qed.

(** [s.ends_with(c)] and [s.strip_suffix(c)] for one byte, [s.contains(p)]. *)
Definition strip_suffix_byte (c : byte) (s : str) : option str :=
  match last s with
  | Some b => if bool_decide (b = c) then Some (take (pred (length s)) s) else None
  | None => None
  end.

Fixpoint contains (p s : str) : bool :=
  starts_with p s || match s with [] => false | _ :: s' => contains p s' end.

(** [s.to_ascii_uppercase()] *)
Definition is_ascii_lower (b : byte) : bool := (0x61 <=? byte_val b) && (byte_val b <=? 0x7a).
Definition is_ascii_upper (b : byte) : bool := (0x41 <=? byte_val b) && (byte_val b <=? 0x5a).
Definition is_ascii_digit (b : byte) : bool := (0x30 <=? byte_val b) && (byte_val b <=? 0x39).
Definition is_ascii_alphabetic (b : byte) : bool := is_ascii_lower b || is_ascii_upper b.
Definition is_ascii_alphanumeric (b : byte) : bool := is_ascii_alphabetic b || is_ascii_digit b.
Definition to_ascii_uppercase (s : str) : str :=
  map (fun b => if is_ascii_lower b then byte_of (byte_val b - 32) else b) s.
