(* ===== verification/Utf8.v ===== *)
(** * Utf8: the UTF-8 functions of the Rust standard library.

    [std::str::from_utf8] (strict) and [String::from_utf8_lossy] (each maximal
    ill-formed subsequence becomes U+FFFD), and the character tests the code
    applies to decoded strings.  The decoders of the public protocol are lossy,
    those of the holder protocol are strict. *)
From S2P Require Import Prelude Bytes.
From Stdlib Require Import Lia.
Local Open Scope N_scope.

(** The number of bytes a leading byte announces; 0 for a byte that cannot lead. *)
Definition utf8_width (b : byte) : N :=
  let v := byte_val b in
  if v <? 0x80 then 1
  else if v <? 0xC2 then 0
  else if v <? 0xE0 then 2
  else if v <? 0xF0 then 3
  else if v <? 0xF5 then 4
  else 0.

Definition utf8_cont (b : byte) : bool :=
  (0x80 <=? byte_val b) && (byte_val b <? 0xC0).

(** The second byte of a three- or four-byte sequence is restricted further:
    no overlong forms, no surrogates, nothing above U+10FFFF. *)
Definition utf8_second (b0 b1 : byte) : bool :=
  let v0 := byte_val b0 in let v1 := byte_val b1 in
  if v0 =? 0xE0 then (0xA0 <=? v1) && (v1 <? 0xC0)
  else if v0 =? 0xED then (0x80 <=? v1) && (v1 <? 0xA0)
  else if v0 =? 0xF0 then (0x90 <=? v1) && (v1 <? 0xC0)
  else if v0 =? 0xF4 then (0x80 <=? v1) && (v1 <? 0x90)
  else utf8_cont b1.

(** [utf8_chunks l]: the scalar values of [l] in order, each tagged [true], and
    the maximal ill-formed subsequences, each tagged [false]. *)
Fixpoint utf8_chunks (l : bytes) : list (bool * bytes) :=
  match l with
  | [] => []
  | b0 :: r0 =>
    if utf8_width b0 =? 1 then (true, [b0]) :: utf8_chunks r0
    else if utf8_width b0 =? 2 then
      match r0 with
      | b1 :: r1 =>
        if utf8_cont b1 then (true, [b0; b1]) :: utf8_chunks r1
        else (false, [b0]) :: utf8_chunks r0
      | [] => [(false, [b0])]
      end
    else if utf8_width b0 =? 3 then
      match r0 with
      | b1 :: r1 =>
        if utf8_second b0 b1 then
          match r1 with
          | b2 :: r2 =>
            if utf8_cont b2 then (true, [b0; b1; b2]) :: utf8_chunks r2
            else (false, [b0; b1]) :: utf8_chunks r1
          | [] => [(false, [b0; b1])]
          end
        else (false, [b0]) :: utf8_chunks r0
      | [] => [(false, [b0])]
      end
    else if utf8_width b0 =? 4 then
      match r0 with
      | b1 :: r1 =>
        if utf8_second b0 b1 then
          match r1 with
          | b2 :: r2 =>
            if utf8_cont b2 then
              match r2 with
              | b3 :: r3 =>
                if utf8_cont b3 then (true, [b0; b1; b2; b3]) :: utf8_chunks r3
                else (false, [b0; b1; b2]) :: utf8_chunks r2
              | [] => [(false, [b0; b1; b2])]
              end
            else (false, [b0; b1]) :: utf8_chunks r1
          | [] => [(false, [b0; b1])]
          end
        else (false, [b0]) :: utf8_chunks r0
      | [] => [(false, [b0])]
      end
    else (false, [b0]) :: utf8_chunks r0
  end.

(** [std::str::from_utf8(l).is_ok()]. *)
Definition utf8_valid (l : bytes) : bool := forallb fst (utf8_chunks l).

(** [std::str::from_utf8(l).ok()]. *)
Definition from_utf8 (l : bytes) : option str := if utf8_valid l then Some l else None.

Definition replacement_char : bytes := [Byte.xef; Byte.xbf; Byte.xbd].

(** [String::from_utf8_lossy(l).to_string()]. *)
Definition from_utf8_lossy (l : bytes) : str :=
  concat (map (fun c : bool * bytes => if c.1 then c.2 else replacement_char) (utf8_chunks l)).

(** The [char]s of a string, each as its encoding. *)
Definition chars (s : str) : list bytes := map snd (utf8_chunks s).

(** [char::is_control]: general category Cc, U+0000..U+001F and U+007F..U+009F. *)
Definition char_is_control (c : bytes) : bool :=
  match c with
  | [b] => (byte_val b <? 0x20) || (byte_val b =? 0x7F)
  | [b0; b1] => (byte_val b0 =? 0xC2) && (byte_val b1 <? 0xA0)
  | _ => false
  end.

Definition is_ascii_byte (b : byte) : bool := byte_val b <? 0x80.

(** One well-formed scalar value. *)
Definition is_scalar (c : bytes) : Prop :=
  forall l, utf8_chunks (c ++ l) = (true, c) :: utf8_chunks l.

(** Case analysis on one step of [utf8_chunks]. *)
Ltac chunk_step :=
  repeat match goal with
  | |- context [if ?b then _ else _] =>
      match b with
      | context [utf8_width] => destruct b eqn:?
      | context [utf8_cont] => destruct b eqn:?
      | context [utf8_second] => destruct b eqn:?
      end
  | |- context [match ?l with [] => _ | _ :: _ => _ end] => destruct l
  end.

Lemma utf8_chunks_ind (P : bytes -> list (bool * bytes) -> Prop) :
  P [] [] ->
  (forall c l, c <> [] -> is_scalar c -> P l (utf8_chunks l) ->
     P (c ++ l) ((true, c) :: utf8_chunks l)) ->
  (forall c l, c <> [] -> P l (utf8_chunks l) ->
     P (c ++ l) ((false, c) :: utf8_chunks l)) ->
  forall l, P l (utf8_chunks l).
Proof.
  intros Hnil Hgood Hbad l.
  remember (length l) as n eqn:Hn. revert l Hn.
  induction n as [n IH] using lt_wf_ind; intros l Hn.
  destruct l as [|b0 l]; [exact Hnil|].
  assert (Hlt : forall c r, c <> [] -> b0 :: l = c ++ r -> (length r < n)%nat).
  { intros c r Hc He. apply (f_equal length) in He. rewrite length_app in He.
    destruct c; [done|]. simpl in *. lia. }
  assert (Hg : forall c r, c <> [] -> b0 :: l = c ++ r -> is_scalar c ->
     P (b0 :: l) ((true, c) :: utf8_chunks r)).
  { intros c r Hc He Hs. rewrite He. apply Hgood; [done|done|]. eauto. }
  assert (Hb : forall c r, c <> [] -> b0 :: l = c ++ r ->
     P (b0 :: l) ((false, c) :: utf8_chunks r)).
  { intros c r Hc He. rewrite He. apply Hbad; eauto. }
  cbn [utf8_chunks]. chunk_step;
    first [ apply Hb; done | apply (Hb _ []); done
          | apply Hg; [done|done|];
            intros r; cbn [app utf8_chunks];
            repeat match goal with H : _ = _ |- _ => rewrite H; clear H end; done ].
Qed.

Lemma utf8_chunks_concat l : concat (map snd (utf8_chunks l)) = l.
Proof.
  apply (utf8_chunks_ind (fun l cs => concat (map snd cs) = l)); simpl; [done|..];
    intros c r _; intros; by f_equal.
Qed.

Lemma utf8_chunks_scalar l : Forall (fun c => c.1 = true -> is_scalar c.2) (utf8_chunks l).
Proof.
  apply (utf8_chunks_ind (fun l cs => Forall (fun c => c.1 = true -> is_scalar c.2) cs));
    [constructor|..]; intros; constructor; simpl; done.
Qed.

Lemma utf8_chunks_scalars cs :
  Forall is_scalar cs -> utf8_chunks (concat cs) = map (pair true) cs.
Proof. induction 1 as [|c cs Hc Hcs IH]; simpl; [done|]. by rewrite Hc, IH. Qed.

Lemma utf8_scalars_valid cs : Forall is_scalar cs -> utf8_valid (concat cs) = true.
Proof.
  intros H. unfold utf8_valid. rewrite utf8_chunks_scalars by done.
  induction cs; simpl; inversion H; auto.
Qed.

Lemma utf8_valid_scalars l :
  utf8_valid l = true -> exists cs, l = concat cs /\ Forall is_scalar cs.
Proof.
  intros H. exists (chars l). split; [by rewrite <- utf8_chunks_concat at 1|].
  unfold utf8_valid in H. unfold chars. pose proof (utf8_chunks_scalar l) as Hs.
  induction (utf8_chunks l) as [|[b c] cs IH]; simpl in *; [constructor|].
  apply andb_true_iff in H as [Hb H]. inversion Hs; subst. constructor; auto.
Qed.

Lemma replacement_scalar : is_scalar replacement_char.
Proof. intros l. reflexivity. Qed.

(** A well-formed string is decoded unchanged. *)
Lemma from_utf8_lossy_valid l : utf8_valid l = true -> from_utf8_lossy l = l.
Proof.
  intros H. rewrite <- (utf8_chunks_concat l) at 2. unfold from_utf8_lossy, utf8_valid in *.
  induction (utf8_chunks l) as [|[b c] cs IH]; simpl in *; [done|].
  apply andb_true_iff in H as [-> H]. by rewrite IH.
Qed.

(** The result of the lossy decoder is always well formed. *)
Lemma from_utf8_lossy_is_valid l : utf8_valid (from_utf8_lossy l) = true.
Proof.
  unfold from_utf8_lossy. apply utf8_scalars_valid.
  pose proof (utf8_chunks_scalar l) as Hs.
  induction Hs as [|[b c] cs Hc Hs IH]; simpl; constructor; [|done].
  destruct b; [by apply Hc | apply replacement_scalar].
Qed.

Lemma utf8_valid_app a b :
  utf8_valid a = true -> utf8_valid (a ++ b) = utf8_valid b.
Proof.
  intros (cs & -> & Hcs)%utf8_valid_scalars. unfold utf8_valid.
  induction Hcs as [|c cs Hc _ IH]; simpl; [done|].
  by rewrite <- app_assoc, Hc.
Qed.

Lemma utf8_valid_ascii l : forallb is_ascii_byte l = true -> utf8_valid l = true.
Proof.
  unfold utf8_valid. induction l as [|b l IH]; simpl; [done|].
  intros [Hb Hl]%andb_true_iff. unfold utf8_width.
  unfold is_ascii_byte in Hb. rewrite Hb. simpl. by apply IH.
Qed.

Lemma from_utf8_Some l s : from_utf8 l = Some s <-> s = l /\ utf8_valid l = true.
Proof. unfold from_utf8. destruct (utf8_valid l); split; [intros [= <-] | intros [-> _] | | intros [_ ?]]; done. Qed.

(** The type invariant of [String]. *)
Definition str_ok (s : str) : Prop := utf8_valid s = true.
