(* ===== verification/RingBuffer.v ===== *)
(** * RingBuffer: the fixed-size output buffer of a session.

    Models [crates/persist-core/src/ringbuf.rs].  The vector [buffer] is a list
    of bytes written in place; [write] is the copying loop of the source with
    its wrap-around; the abstract contents are the last [capacity] bytes ever
    written. *)
From S2P Require Import Prelude Bytes.
From Stdlib Require Import Lia.

Module RingBuffer.

Record t : Type := mk {
  buffer : list byte;
  capacity : nat;
  write_pos : nat;
  filled : bool;
}.

(** [RingBuffer::new]; the assertion fails as [None]. *)
Definition new (cap : nat) : option t :=
  if bool_decide (0 < cap)
  then Some (mk (replicate cap Byte.x00) cap 0 false)
  else None.

(** [self.buffer[pos..pos + data.len()].copy_from_slice(data)]. *)
Definition splice (buf : list byte) (pos : nat) (data : list byte) : list byte :=
  take pos buf ++ data ++ drop (pos + length data) buf.

(** One iteration of the [while] loop: the new state and what remains. *)
Definition write_step (rb : t) (remaining : list byte) : t * list byte :=
  let space := capacity rb - write_pos rb in
  let to_write := Nat.min (length remaining) space in
  let buf := splice (buffer rb) (write_pos rb) (take to_write remaining) in
  let pos := write_pos rb + to_write in
  let rb' :=
    if bool_decide (capacity rb <= pos)
    then mk buf (capacity rb) 0 true
    else mk buf (capacity rb) pos (filled rb) in
  (rb', drop to_write remaining).

(** The loop, with fuel; [None] is fuel exhausted. *)
Fixpoint write_loop (fuel : nat) (rb : t) (remaining : list byte) : option t :=
  match remaining with
  | [] => Some rb
  | _ :: _ =>
    match fuel with
    | O => None
    | S fuel' => let '(rb', rest) := write_step rb remaining in write_loop fuel' rb' rest
    end
  end.

Definition write (rb : t) (data : list byte) : option t :=
  match data with [] => Some rb | _ :: _ => write_loop (length data) rb data end.

Definition len (rb : t) : nat := if filled rb then capacity rb else write_pos rb.

Definition read_all (rb : t) : list byte :=
  (if filled rb then drop (write_pos rb) (buffer rb) else []) ++
  take (write_pos rb) (buffer rb).

Definition read_replay (rb : t) (max_bytes : nat) : list byte :=
  let total := len rb in
  if bool_decide (total = 0) then []
  else drop (total - max_bytes) (read_all rb).

Definition is_empty (rb : t) : bool := bool_decide (len rb = 0).

(** ** Well-formedness *)

Record wf (rb : t) : Prop := {
  wf_cap : 0 < capacity rb;
  wf_len : length (buffer rb) = capacity rb;
  wf_pos : write_pos rb < capacity rb;
}.

(** [last_n n l]: the last [n] elements of [l] (all of them if fewer). *)
Definition last_n (n : nat) (l : list byte) : list byte := drop (length l - n) l.

Lemma length_last_n n l : length (last_n n l) = Nat.min n (length l).
Proof. unfold last_n; rewrite length_drop; lia. Qed.

Lemma last_n_app_ge n l1 l2 : n <= length l2 -> last_n n (l1 ++ l2) = last_n n l2.
Proof.
  intros. unfold last_n. rewrite length_app, drop_app_ge by lia. f_equal; lia.
Qed.

Lemma last_n_all n l : length l <= n -> last_n n l = l.
Proof. intros. unfold last_n. by replace (length l - n) with 0 by lia. Qed.

(** Appending to a window that has already lost its head loses nothing more. *)
Lemma last_n_app n l1 l2 : last_n n (last_n n l1 ++ l2) = last_n n (l1 ++ l2).
Proof.
  destruct (decide (length l1 <= n)) as [H|H]; [by rewrite (last_n_all n l1)|].
  unfold last_n at 1 3. rewrite !length_app, length_last_n.
  replace (Nat.min n (length l1)) with n by lia. unfold last_n.
  destruct (decide (n <= length l2)).
  - rewrite !drop_app_ge; rewrite ?length_drop; [|lia..]. f_equal; lia.
  - rewrite !drop_app_le; rewrite ?length_drop; [|lia..].
    rewrite drop_drop. do 2 f_equal; lia.
Qed.

Lemma last_n_last_n n m l : last_n n (last_n m l) = last_n (Nat.min n m) l.
Proof.
  unfold last_n. rewrite length_drop, drop_drop. f_equal. lia.
Qed.

(** ** One step of the loop *)

Lemma length_read_all rb : wf rb -> length (read_all rb) = len rb.
Proof.
  intros [Hc Hl Hp]. unfold read_all, len. rewrite length_app, length_take.
  destruct (filled rb); simpl; rewrite ?length_drop; lia.
Qed.

(** A segment that fits before the end of the buffer. *)
Lemma splice_parts buf pos data :
  pos + length data <= length buf ->
  take (pos + length data) (splice buf pos data) = take pos buf ++ data /\
  drop (pos + length data) (splice buf pos data) = drop (pos + length data) buf /\
  length (splice buf pos data) = length buf.
Proof.
  intros H. unfold splice. split_and!.
  - rewrite app_assoc, take_app_le by (rewrite length_app, length_take; lia).
    apply take_ge. rewrite length_app, length_take; lia.
  - rewrite app_assoc, drop_app_ge by (rewrite length_app, length_take; lia).
    rewrite length_app, length_take.
    by replace (pos + length data - (Nat.min pos (length buf) + length data)) with 0 by lia.
  - rewrite !length_app, length_take, length_drop. lia.
Qed.

Lemma write_step_spec rb data :
  wf rb -> data <> [] ->
  let '(rb', rest) := write_step rb data in
  wf rb' /\ capacity rb' = capacity rb /\ length rest < length data /\
  exists seg, data = seg ++ rest /\
    read_all rb' = last_n (capacity rb) (read_all rb ++ seg).
Proof.
  intros Hwf Hd. pose proof (length_read_all rb Hwf) as Hlen.
  destruct Hwf as [Hc Hl Hp]. unfold write_step.
  set (n := Nat.min (length data) (capacity rb - write_pos rb)).
  assert (Hseg : length (take n data) = n) by (rewrite length_take; lia).
  assert (Hd' : 0 < length data) by (destruct data; [done|simpl; lia]).
  assert (Hn : 0 < n) by lia.
  destruct (splice_parts (buffer rb) (write_pos rb) (take n data)) as (Ht & Hr & Hs);
    [lia|]. rewrite Hseg in Ht, Hr.
  assert (Hrest : length (drop n data) < length data)
    by (rewrite length_drop; lia).
  case_bool_decide as Hge; (split; [split; simpl; lia|]);
    (split; [done|]); (split; [done|]); exists (take n data);
    (split; [by rewrite take_drop|]); unfold read_all in *; simpl.
  - (* the segment reaches the end of the buffer *)
    assert (Heq : write_pos rb + n = capacity rb) by lia.
    rewrite take_0, app_nil_r, drop_0.
    rewrite <- (take_ge (splice _ _ _) (write_pos rb + n)), Ht by lia.
    rewrite <- app_assoc, last_n_app_ge by (rewrite length_app, length_take; lia).
    symmetry. apply last_n_all. rewrite length_app, length_take; lia.
  - rewrite Ht, Hr. destruct (filled rb); simpl.
    + unfold len in Hlen. unfold last_n. rewrite !length_app, length_drop, length_take, Hseg.
      replace (length (buffer rb) - write_pos rb +
        Nat.min (write_pos rb) (length (buffer rb)) + n - capacity rb) with n by lia.
      rewrite <- app_assoc, drop_app_le by (rewrite length_drop; lia).
      rewrite drop_drop. done.
    + symmetry. apply last_n_all. rewrite length_app, length_take; lia.
Qed.

Lemma write_loop_spec fuel rb data :
  wf rb -> length data <= fuel ->
  exists rb', write_loop fuel rb data = Some rb' /\ wf rb' /\
    capacity rb' = capacity rb /\
    read_all rb' = last_n (capacity rb) (read_all rb ++ data).
Proof.
  assert (Hnil : forall rb, wf rb -> read_all rb = last_n (capacity rb) (read_all rb ++ [])).
  { intros r Hr. rewrite app_nil_r. symmetry. apply last_n_all.
    rewrite length_read_all by done. unfold len. destruct Hr, (filled r); lia. }
  revert rb data; induction fuel as [|fuel IH]; intros rb data Hwf Hf;
    (destruct data as [|b data]; [exists rb; simpl; auto|]); [simpl in Hf; lia|].
  cbn [write_loop]. pose proof (write_step_spec rb (b :: data) Hwf ltac:(done)) as Hs.
  destruct (write_step rb (b :: data)) as [rb1 rest].
  destruct Hs as (Hwf1 & Hc1 & Hlt & seg & Hsplit & Hread).
  destruct (IH rb1 rest) as (rb' & Hl & Hwf' & Hc' & Hr'); [done|simpl in *; lia|].
  exists rb'. split_and!; [done..|congruence|].
  rewrite Hr', Hc1, Hread, last_n_app, Hsplit. by rewrite <- app_assoc.
Qed.

(** [write] always terminates, keeps the buffer well formed and leaves
    exactly the last [capacity] bytes of what was there followed by [data]. *)
Lemma write_spec rb data :
  wf rb ->
  exists rb', write rb data = Some rb' /\ wf rb' /\ capacity rb' = capacity rb /\
    read_all rb' = last_n (capacity rb) (read_all rb ++ data).
Proof.
  intros Hwf. unfold write. destruct data as [|b data].
  - destruct (write_loop_spec 0 rb [] Hwf) as (? & [= <-] & ?); eauto.
  - by apply write_loop_spec.
Qed.

Lemma read_replay_last_n rb n : wf rb -> read_replay rb n = last_n n (read_all rb).
Proof.
  intros Hwf. pose proof (length_read_all rb Hwf) as Hl.
  unfold read_replay, last_n. rewrite Hl. case_bool_decide as H; [|done].
  rewrite H in Hl |- *. apply nil_length_inv in Hl. by rewrite Hl.
Qed.

Lemma new_wf cap rb : new cap = Some rb -> wf rb /\ capacity rb = cap /\ read_all rb = [].
Proof.
  unfold new. case_bool_decide; [|done]. intros [= <-].
  split_and!; [split; simpl; rewrite ?length_replicate; lia|done..].
Qed.

(** ** The abstract specification: an unbounded output log

    Every operation of the buffer answers as the log of everything ever
    written would, cut to its last [capacity] bytes. *)

Definition represents (rb : t) (log : list byte) : Prop :=
  wf rb /\ read_all rb = last_n (capacity rb) log.

(** The writes of a session's life, in order. *)
Fixpoint write_all (rb : t) (chunks : list (list byte)) : option t :=
  match chunks with
  | [] => Some rb
  | c :: cs => rb' ← write rb c; write_all rb' cs
  end.

Lemma new_represents cap rb : new cap = Some rb -> represents rb [].
Proof. intros (? & ? & Hr)%new_wf. split; [done|]. by rewrite Hr. Qed.

Lemma write_represents rb log data :
  represents rb log ->
  exists rb', write rb data = Some rb' /\ capacity rb' = capacity rb /\
    represents rb' (log ++ data).
Proof.
  intros [Hwf Hr]. destruct (write_spec rb data Hwf) as (rb' & Hw & Hwf' & Hc & Hr').
  exists rb'. split_and!; [done..|]. split; [done|]. by rewrite Hr', Hc, Hr, last_n_app.
Qed.

Lemma write_all_represents rb log chunks :
  represents rb log ->
  exists rb', write_all rb chunks = Some rb' /\ capacity rb' = capacity rb /\
    represents rb' (log ++ concat chunks).
Proof.
  revert rb log; induction chunks as [|c cs IH]; intros rb log H; simpl.
  - exists rb. by rewrite app_nil_r.
  - destruct (write_represents rb log c H) as (rb1 & Hw & Hc & H1). rewrite Hw; simpl.
    destruct (IH _ _ H1) as (rb' & Hw' & Hc' & H').
    exists rb'. rewrite <- app_assoc in H'. split_and!; [done|congruence|done].
Qed.

Lemma represents_read rb log :
  represents rb log ->
  read_all rb = last_n (capacity rb) log /\
  len rb = Nat.min (capacity rb) (length log) /\
  is_empty rb = bool_decide (log = []) /\
  forall n, read_replay rb n = last_n (Nat.min n (capacity rb)) log.
Proof.
  intros [Hwf Hr]. pose proof (length_read_all rb Hwf) as Hl.
  assert (Hlen : len rb = Nat.min (capacity rb) (length log))
    by (rewrite <- Hl, Hr; apply length_last_n).
  split_and!; [done|done|..].
  - unfold is_empty. apply bool_decide_ext. rewrite Hlen. destruct Hwf.
    destruct log; simpl; split; intros; try done; lia.
  - intros n. by rewrite read_replay_last_n, Hr, last_n_last_n by done.
Qed.

(** C27: A ring buffer created with a positive capacity is a faithful window
    on the session's output: after any sequence of writes (each of any
    length, longer than the buffer included) the loop of [write] terminates,
    [read_all] is exactly the last [capacity] bytes written in order,
    [len] and [is_empty] agree with it, and [read_replay n] is its last [n]
    bytes. *)
Theorem ring_buffer_refines_log cap rb0 chunks :
  new cap = Some rb0 ->
  exists rb, write_all rb0 chunks = Some rb /\ capacity rb = cap /\
    read_all rb = last_n cap (concat chunks) /\
    len rb = Nat.min cap (length (concat chunks)) /\
    is_empty rb = bool_decide (concat chunks = []) /\
    forall n, read_replay rb n = last_n (Nat.min n cap) (concat chunks).
Proof.
  intros Hnew. pose proof (new_wf _ _ Hnew) as (_ & Hcap & _).
  destruct (write_all_represents rb0 [] chunks (new_represents _ _ Hnew))
    as (rb & Hw & Hc & Hr).
  exists rb. rewrite <- Hcap, <- Hc. split_and!; [done|done|..];
    by apply represents_read.
Qed.

Lemma ring_buffer_refines_log_witness :
  exists rb, write_all (mk [Byte.x00; Byte.x00; Byte.x00] 3 0 false)
      [[Byte.x61; Byte.x62]; [Byte.x63; Byte.x64; Byte.x65]] = Some rb /\
    read_replay rb 2 = [Byte.x64; Byte.x65] /\ len rb = 3.
Proof.
  destruct (ring_buffer_refines_log 3 (mk [Byte.x00; Byte.x00; Byte.x00] 3 0 false)
    [[Byte.x61; Byte.x62]; [Byte.x63; Byte.x64; Byte.x65]] eq_refl)
    as (rb & Hw & _ & _ & Hl & _ & Hr).
  exists rb. split; [exact Hw|]. split; [rewrite Hr; reflexivity | exact Hl].
Defined.

(** A single [write] on any well-formed buffer, whatever its position and
    whether it has already wrapped, terminates within one iteration per byte,
    preserves well-formedness and the capacity, and keeps the newest
    [capacity] bytes. *)
Theorem ring_buffer_write_preserves rb data :
  wf rb ->
  exists rb', write rb data = Some rb' /\ wf rb' /\ capacity rb' = capacity rb /\
    read_all rb' = last_n (capacity rb) (read_all rb ++ data).
Proof. apply write_spec. Qed.

Lemma ring_buffer_write_preserves_witness :
  exists rb', write (mk [Byte.x65; Byte.x66; Byte.x63; Byte.x64] 4 2 true) [Byte.x67] = Some rb' /\
    read_all rb' = [Byte.x64; Byte.x65; Byte.x66; Byte.x67].
Proof.
  destruct (ring_buffer_write_preserves
    (mk [Byte.x65; Byte.x66; Byte.x63; Byte.x64] 4 2 true) [Byte.x67]) as (rb' & Hw & _ & _ & Hr).
  { split; simpl; lia. }
  exists rb'. split; [exact Hw | rewrite Hr; reflexivity].
Defined.
End RingBuffer.
