(* ===== verification/CommandHistory.v ===== *)
(** * CommandHistory: the per-session command history file.

    Models [crates/persist-core/src/command_history.rs] and
    [command_history_format.rs].  The file is its contents, a byte string; the
    operations are functions on the contents, and the incremental append is the
    sequence of contents its three [write_all] calls leave behind, so that a
    crash between two of them can be stated.  Opening, locking, permissions and
    the clock are outside the model ([completed_at_ms] is an argument). *)
From S2P Require Import Prelude Bytes Utf8.
From Stdlib Require Import Lia.
Import String.StringSyntax.
Local Open Scope N_scope.

Module CommandHistory.

Definition MAGIC : bytes := lit "PSHIST01".
Definition HEADER_LEN : N := 24.
Definition RECORD_META_LEN : N := 20.
Definition MAX_COMMAND_BYTES : N := 64 * 1024.
Definition MAX_HISTORY_BYTES : N := 4 * 1024 * 1024.
Definition MAX_HISTORY_RECORDS : N := 10000.

Record CommandRecord : Type := mkRecord {
  sequence : N;
  completed_at_ms : N;
  shell : str;
  command : bytes;
}.

Record HistoryState : Type := mkState {
  next_sequence : N;
  records : list CommandRecord;
}.

Definition validate_record (shell : str) (command : bytes) : result persist_error unit :=
  if (lenN shell =? 0) || (u16_max <? lenN shell) then invalid_argument "invalid history shell name"
  else if lenN command =? 0 then invalid_argument "empty history command"
  else if MAX_COMMAND_BYTES <? lenN command then invalid_argument "history command is too large"
  else Ok tt.

(** ** Encoding *)

Definition record_body (r : CommandRecord) : bytes :=
  u64_be (sequence r) ++ u64_be (completed_at_ms r) ++
  u16_be (as_u16 (lenN (shell r))) ++ u16_be 0 ++ shell r ++ command r.

Definition encode_record (r : CommandRecord) : result persist_error bytes :=
  _ ← validate_record (shell r) (command r);
  let body_len := RECORD_META_LEN + lenN (shell r) + lenN (command r) in
  Ok (u32_be (as_u32 body_len) ++ record_body r).

Definition record_size (r : CommandRecord) : N :=
  4 + RECORD_META_LEN + lenN (shell r) + lenN (command r).

Definition estimated_size (rs : list CommandRecord) : N :=
  HEADER_LEN + foldr (fun r n => record_size r + n) 0 rs.

(** [write_state]: the whole new contents of the file. *)
Definition write_state (st : HistoryState) : result persist_error bytes :=
  body ← collect_ok encode_record (records st);
  Ok (MAGIC ++ u64_be (next_sequence st) ++ u64_be (lenN (records st)) ++ concat body).

(** ** Decoding *)

Definition decode_record (bs : bytes) : result persist_error (CommandRecord * N) :=
  if lenN bs <? 4 then invalid_argument "truncated history record"
  else
    let body_len := be_val (takeN 4 bs) in
    if (body_len <? RECORD_META_LEN) ||
       (RECORD_META_LEN + u16_max + MAX_COMMAND_BYTES <? body_len)
    then invalid_argument "invalid history record size"
    else if lenN bs <? 4 + body_len then invalid_argument "truncated history record"
    else
      let body := slice bs 4 (4 + body_len) in
      let shell_len := be_val (slice body 16 18) in
      if lenN body <? RECORD_META_LEN + shell_len then invalid_argument "invalid history shell size"
      else
        sh ← ok_or (from_utf8 (slice body RECORD_META_LEN (RECORD_META_LEN + shell_len)))
               (InvalidArgument "history shell is not UTF-8");
        let cmd := dropN (RECORD_META_LEN + shell_len) body in
        _ ← validate_record sh cmd;
        Ok (mkRecord (be_val (slice body 0 8)) (be_val (slice body 8 16)) sh cmd,
            4 + body_len).

(** The [while cursor < bytes.len()] loop on the unread suffix. *)
Fixpoint decode_records (fuel : nat) (bs : bytes) : result persist_error (list CommandRecord) :=
  match bs, fuel with
  | [], _ => Ok []
  | _ :: _, O => Err (InternalError "out of fuel")
  | _ :: _, S fuel' =>
    '(r, consumed) ← decode_record bs;
    rs ← decode_records fuel' (dropN consumed bs);
    Ok (r :: rs)
  end.

(** [records.windows(2).any(|p| p[0].sequence >= p[1].sequence)] *)
Fixpoint out_of_order (rs : list CommandRecord) : bool :=
  match rs with
  | r1 :: (r2 :: _) as rs' => (sequence r2 <=? sequence r1) || out_of_order rs'
  | _ => false
  end.

Definition validate_header (stored_count : N) (rs : list CommandRecord)
  : result persist_error unit :=
  if (lenN rs <? stored_count) || (1 <? saturating_sub (lenN rs) stored_count)
  then invalid_argument "command history record count does not match header"
  else if out_of_order rs then invalid_argument "command history sequence is invalid"
  else Ok tt.

Definition load_state (file : bytes) : result persist_error HistoryState :=
  if MAX_HISTORY_BYTES <? lenN file then invalid_argument "command history exceeds size limit"
  else match file with
  | [] => Ok (mkState 1 [])
  | _ :: _ =>
    if (lenN file <? HEADER_LEN) || bool_decide (takeN 8 file <> MAGIC)
    then invalid_argument "invalid command history header"
    else
      let stored_next := be_val (slice file 8 16) in
      let stored_count := be_val (slice file 16 24) in
      rs ← decode_records (length file) (dropN HEADER_LEN file);
      _ ← validate_header stored_count rs;
      let parsed_next :=
        match last rs with Some r => saturating_add_u64 (sequence r) 1 | None => 1 end in
      Ok (mkState (N.max stored_next parsed_next) rs)
  end.

(** ** Compaction *)

(** The [while] loop of [compact] on the suffix [records[first..]]. *)
Fixpoint drop_oversized (rs : list CommandRecord) : list CommandRecord :=
  match rs with
  | [] => []
  | _ :: rs' => if MAX_HISTORY_BYTES <? estimated_size rs then drop_oversized rs' else rs
  end.

Definition compact (rs : list CommandRecord) : list CommandRecord :=
  drop_oversized (dropN (saturating_sub (lenN rs) MAX_HISTORY_RECORDS) rs).

(** ** Appending *)

(** [file.seek(Start(pos)).and_then(write_all(data))] inside the file. *)
Definition overwrite (file : bytes) (pos : N) (data : bytes) : bytes :=
  takeN pos file ++ data ++ dropN (pos + lenN data) file.

(** [append_record]: the contents after each of its three [write_all]s. *)
Definition append_record (file : bytes) (r : CommandRecord) (count : N)
  : result persist_error (bytes * bytes * bytes) :=
  encoded ← encode_record r;
  let f1 := file ++ encoded in
  let f2 := overwrite f1 8 (u64_be (saturating_add_u64 (sequence r) 1)) in
  let f3 := overwrite f2 16 (u64_be (saturating_add_usize count 1)) in
  Ok (f1, f2, f3).

(** [append_command] on the contents of the file, with the current time. *)
Definition append_command (file : bytes) (now : N) (sh : str) (cmd : bytes)
  : result persist_error (CommandRecord * bytes) :=
  _ ← validate_record sh cmd;
  st ← load_state file;
  let r := mkRecord (next_sequence st) now sh cmd in
  if lenN file =? 0 then
    f ← write_state (mkState (saturating_add_u64 (sequence r) 1) (records st ++ [r]));
    Ok (r, f)
  else
    let encoded_size := record_size r in
    let current_size := estimated_size (records st) in
    if (lenN (records st) <? MAX_HISTORY_RECORDS) &&
       (saturating_add_usize current_size encoded_size <=? MAX_HISTORY_BYTES)
    then
      '(_, _, f) ← append_record file r (lenN (records st));
      Ok (r, f)
    else
      f ← write_state (mkState (saturating_add_u64 (next_sequence st) 1)
                               (compact (records st ++ [r])));
      Ok (r, f).

(** [read_commands_desc]: newest first, one page; [None] is a missing file. *)
Definition read_commands_desc (file : option bytes) (offset limit : N)
  : result persist_error (list CommandRecord) :=
  match file with
  | None => Ok []
  | Some f =>
    if limit =? 0 then Ok []
    else st ← load_state f; Ok (takeN limit (dropN offset (rev (records st))))
  end.

Definition command_count (file : option bytes) : result persist_error N :=
  match file with
  | None => Ok 0
  | Some f => st ← load_state f; Ok (lenN (records st))
  end.

(** ** Records: encoding and decoding are inverse *)

Record record_ok (r : CommandRecord) : Prop := {
  ok_sequence : is_u64 (sequence r);
  ok_time : is_u64 (completed_at_ms r);
  ok_valid : validate_record (shell r) (command r) = Ok tt;
  ok_shell : str_ok (shell r);
}.

Lemma validate_record_bounds sh cmd :
  validate_record sh cmd = Ok tt ->
  0 < lenN sh <= u16_max /\ 0 < lenN cmd <= MAX_COMMAND_BYTES.
Proof. unfold validate_record. intros H. inv_ok. boolp. lia. Qed.

Lemma validate_record_fields r : record_ok r ->
  lenN (shell r) <= 65535 /\ 0 < lenN (shell r) /\ lenN (command r) <= 65536.
Proof.
  intros [_ _ H _]. apply validate_record_bounds in H.
  unfold u16_max, MAX_COMMAND_BYTES in H. lia.
Qed.

Lemma lenN_record_body r :
  lenN (record_body r) = RECORD_META_LEN + lenN (shell r) + lenN (command r).
Proof. unfold record_body, RECORD_META_LEN. len. Qed.

(** The bytes of one encoded record. *)
Definition record_bytes (r : CommandRecord) : bytes :=
  u32_be (as_u32 (RECORD_META_LEN + lenN (shell r) + lenN (command r))) ++ record_body r.

Lemma encode_record_ok r : record_ok r -> encode_record r = Ok (record_bytes r).
Proof. intros []. unfold encode_record. by rewrite ok_valid0. Qed.

Lemma lenN_record_bytes r : lenN (record_bytes r) = record_size r.
Proof. unfold record_bytes, record_size. rewrite lenN_app, lenN_record_body. len. Qed.

Lemma record_size_pos r : 0 < record_size r.
Proof. unfold record_size, RECORD_META_LEN. lia. Qed.

Lemma decode_record_body r rest :
  record_ok r ->
  let body := record_body r in
  slice body 0 8 = u64_be (sequence r) /\ slice body 8 16 = u64_be (completed_at_ms r) /\
  be_val (slice body 16 18) = lenN (shell r) /\
  slice body 20 (20 + lenN (shell r)) = shell r /\
  dropN (20 + lenN (shell r)) body = command r /\
  slice (record_bytes r ++ rest) 4 (4 + lenN body) = body.
Proof.
  intros Hr. pose proof (validate_record_fields r Hr) as (Hs & _ & _).
  assert (Hw : be_val (u16_be (as_u16 (lenN (shell r)))) = lenN (shell r)).
  { unfold as_u16. rewrite N.mod_small by lia. apply u16_be_val. unfold is_u16. lia. }
  cbn zeta. unfold record_bytes. split_and!; unfold record_body.
  - field.
  - field.
  - etransitivity; [|exact Hw]. by f_equal.
  - field.
  - field.
  - rewrite <- app_assoc. field.
Qed.

Lemma decode_encode_record r rest :
  record_ok r -> decode_record (record_bytes r ++ rest) = Ok (r, record_size r).
Proof.
  intros Hr. pose proof (validate_record_fields r Hr) as (Hs & Hs0 & Hc).
  pose proof (decode_record_body r rest Hr) as (H1 & H2 & H3 & H4 & H5 & H6).
  pose proof (lenN_record_body r) as Hb.
  assert (Hl : be_val (takeN 4 (record_bytes r ++ rest)) = lenN (record_body r)).
  { rewrite Hb. unfold record_bytes. rewrite <- app_assoc, takeN_app by len.
    unfold as_u32, RECORD_META_LEN. rewrite N.mod_small by lia.
    apply u32_be_val. unfold is_u32. lia. }
  unfold decode_record. rewrite Hl, H6, H3, H1, H2.
  rewrite lenN_app, lenN_record_bytes, Hb.
  unfold record_size, RECORD_META_LEN, u16_max, MAX_COMMAND_BYTES in *.
  ndec.
  rewrite H4, H5. destruct Hr as [Hq Ht Hv Hu]. rewrite !u64_be_val by done.
  unfold from_utf8. unfold str_ok in Hu. rewrite Hu. cbn. rewrite Hv. cbn.
  destruct r; do 2 f_equal; cbn; lia.
Qed.

Lemma decode_record_sound bs r n :
  decode_record bs = Ok (r, n) ->
  record_ok r /\ n = record_size r /\ n <= lenN bs /\
  forall rest, decode_record (bs ++ rest) = Ok (r, n).
Proof.
  unfold decode_record. intros H.
  set (body_len := be_val (takeN 4 bs)) in *. inv_ok. boolp.
  set (body := slice bs 4 (4 + body_len)) in *.
  assert (Hbody : lenN body = body_len) by (unfold body; rewrite lenN_slice; lia).
  set (shell_len := be_val (slice body 16 18)) in *.
  unfold RECORD_META_LEN in *. subst n. rewrite <- H.
  pose proof Hok as [-> Hutf]%from_utf8_Some.
  assert (Hw : forall i j, j <= lenN body -> is_u64 (be_val (slice body i (i + 8)))
    \/ lenN body < i + 8).
  { intros i j _. destruct (N.le_gt_cases (i + 8) (lenN body)); [left|right; lia].
    pose proof (be_val_lt (slice body i (i + 8))) as Hlt.
    rewrite lenN_slice in Hlt by lia. by replace (i + 8 - i) with 8 in Hlt by lia. }
  split; [|split; [|split; [lia|]]].
  - split; simpl; [..|done|done].
    + destruct (Hw 0 0) as [|]; [lia|done|lia].
    + destruct (Hw 8 0) as [|]; [lia|done|lia].
  - unfold record_size, RECORD_META_LEN. simpl.
    rewrite lenN_slice, lenN_dropN by lia. lia.
  - intros rest. rewrite takeN_app_le by lia. fold body_len. rewrite lenN_app.
    rewrite slice_app_l by lia. fold body. fold shell_len.
    unfold u16_max, MAX_COMMAND_BYTES in *.
    ndec.
    rewrite Hok. simpl. by rewrite Hok0, H.
Qed.

(** ** The body of the file *)

Definition total_size (rs : list CommandRecord) : N := foldr (fun r n => record_size r + n) 0 rs.

Lemma estimated_total rs : estimated_size rs = 24 + total_size rs.
Proof. reflexivity. Qed.

Lemma total_size_app rs1 rs2 : total_size (rs1 ++ rs2) = total_size rs1 + total_size rs2.
Proof. unfold total_size. induction rs1; simpl; lia. Qed.

Lemma estimated_snoc rs r : estimated_size (rs ++ [r]) = estimated_size rs + record_size r.
Proof. rewrite !estimated_total, total_size_app. cbn [total_size foldr]. lia. Qed.

(** Fuel above the length of the input never matters. *)
Lemma decode_records_fuel f1 f2 bs :
  (length bs <= f1)%nat -> (length bs <= f2)%nat ->
  decode_records f1 bs = decode_records f2 bs.
Proof.
  revert f2 bs; induction f1 as [|f1 IH]; intros f2 bs H1 H2;
    (destruct bs as [|b bs]; [by destruct f2|]); simpl in H1, H2; [lia|].
  destruct f2 as [|f2]; [lia|]. cbn [decode_records].
  destruct (decode_record (b :: bs)) as [[r n]|e] eqn:Hd; simpl; [|done].
  apply decode_record_sound in Hd as (_ & -> & Hle & _).
  assert (Hlt : (length (dropN (record_size r) (b :: bs)) <= length bs)%nat).
  { pose proof (record_size_pos r). unfold dropN. rewrite length_drop. simpl. lia. }
  rewrite (IH f2); [done|lia..].
Qed.

(** [parses body rs]: the loop reads [body] as exactly the records [rs]. *)
Definition parses (body : bytes) (rs : list CommandRecord) : Prop :=
  decode_records (length body) body = Ok rs.

Lemma parses_cons r n bs rs :
  decode_record bs = Ok (r, n) -> parses (dropN n bs) rs -> parses bs (r :: rs).
Proof.
  intros Hd Hp. unfold parses in *.
  pose proof (decode_record_sound _ _ _ Hd) as (_ & -> & Hle & _).
  pose proof (record_size_pos r). destruct bs as [|b bs]; [by vm_compute in Hd|].
  simpl length. cbn [decode_records]. rewrite Hd. simpl.
  rewrite (decode_records_fuel _ (length (dropN (record_size r) (b :: bs)))).
  - by rewrite Hp.
  - unfold dropN. rewrite length_drop. simpl. lia.
  - done.
Qed.

Lemma parses_inv bs rs :
  parses bs rs -> bs = [] /\ rs = [] \/
  exists r rs', rs = r :: rs' /\ decode_record bs = Ok (r, record_size r) /\
    parses (dropN (record_size r) bs) rs'.
Proof.
  unfold parses. destruct bs as [|b bs]; simpl length; [intros [= <-]; auto|].
  cbn [decode_records]. intros H. right. inv_ok. destruct x as [r n]. inv_ok.
  pose proof (decode_record_sound _ _ _ Hok) as (_ & -> & Hle & _).
  pose proof (record_size_pos r). exists r, x. split_and!; [done..|].
  rewrite <- Hok0. apply decode_records_fuel; [done|].
  unfold dropN. rewrite length_drop. simpl. lia.
Qed.

Lemma parses_sound bs rs :
  parses bs rs -> Forall record_ok rs /\ lenN bs = total_size rs.
Proof.
  revert bs; induction rs as [|r rs IH]; intros bs H; apply parses_inv in H.
  - destruct H as [[-> _]|(? & ? & [=] & _)]. done.
  - destruct H as [[_ [=]]|(r' & rs' & [= <- <-] & Hd & Hp)].
    apply decode_record_sound in Hd as (Hr & _ & Hle & _).
    apply IH in Hp as [Hrs Hl]. rewrite lenN_dropN in Hl.
    split; [by constructor|]. cbn. change (foldr _ 0 rs) with (total_size rs). lia.
Qed.

Lemma parses_app b1 b2 rs1 rs2 :
  parses b1 rs1 -> parses b2 rs2 -> parses (b1 ++ b2) (rs1 ++ rs2).
Proof.
  revert b1; induction rs1 as [|r rs IH]; intros b1 H H2; apply parses_inv in H.
  - destruct H as [[-> _]|(? & ? & [=] & _)]. done.
  - destruct H as [[_ [=]]|(r' & rs' & [= <- <-] & Hd & Hp)].
    pose proof (decode_record_sound _ _ _ Hd) as (_ & _ & Hle & Hext).
    simpl. eapply parses_cons; [apply Hext|]. rewrite dropN_app_le by done. by apply IH.
Qed.

Lemma parses_record r : record_ok r -> parses (record_bytes r) [r].
Proof.
  intros Hr. pose proof (decode_encode_record r [] Hr) as Hd. rewrite app_nil_r in Hd.
  eapply parses_cons; [exact Hd|]. rewrite dropN_ge by (rewrite lenN_record_bytes; lia).
  done.
Qed.

Lemma parses_records rs :
  Forall record_ok rs -> parses (concat (map record_bytes rs)) rs.
Proof.
  induction 1 as [|r rs Hr _ IH]; [done|]. cbn [map concat].
  apply (parses_app (record_bytes r) (concat (map record_bytes rs)) [r] rs);
    [by apply parses_record|done].
Qed.

(** ** The whole file *)

Definition file_bytes (next count : N) (body : bytes) : bytes :=
  MAGIC ++ u64_be next ++ u64_be count ++ body.

Definition parsed_next (rs : list CommandRecord) : N :=
  match last rs with Some r => saturating_add_u64 (sequence r) 1 | None => 1 end.

Lemma lenN_MAGIC : lenN MAGIC = 8.
Proof. reflexivity. Qed.
Hint Rewrite lenN_MAGIC : lenN.

Lemma load_file next count body rs :
  is_u64 next -> is_u64 count -> parses body rs ->
  24 + lenN body <= MAX_HISTORY_BYTES -> validate_header count rs = Ok tt ->
  load_state (file_bytes next count body) = Ok (mkState (N.max next (parsed_next rs)) rs).
Proof.
  intros Hn Hc Hp Hs Hv.
  assert (Hl : lenN (file_bytes next count body) = 24 + lenN body)
    by (unfold file_bytes; len).
  unfold load_state. rewrite Hl. ndec.
  assert (H0 : takeN 8 (file_bytes next count body) = MAGIC) by (unfold file_bytes; field).
  assert (H1 : slice (file_bytes next count body) 8 16 = u64_be next)
    by (unfold file_bytes; field).
  assert (H2 : slice (file_bytes next count body) 16 24 = u64_be count)
    by (unfold file_bytes; field).
  assert (H3 : dropN 24 (file_bytes next count body) = body) by (unfold file_bytes; field).
  rewrite H0, H1, H2, !u64_be_val by done. unfold HEADER_LEN. rewrite H3. ndec.
  rewrite bool_decide_eq_false_2 by auto.
  rewrite (decode_records_fuel _ (length body)) by (unfold file_bytes; rewrite ?length_app; lia).
  rewrite Hp. simpl. rewrite Hv. simpl. done.
Qed.

Lemma be_val_slice_u64 (l : bytes) i :
  i + 8 <= lenN l -> is_u64 (be_val (slice l i (i + 8))) /\
  u64_be (be_val (slice l i (i + 8))) = slice l i (i + 8).
Proof.
  intros H. assert (Hl : lenN (slice l i (i + 8)) = 8) by (rewrite lenN_slice; lia).
  split.
  - pose proof (be_val_lt (slice l i (i + 8))) as Hb. by rewrite Hl in Hb.
  - apply be_bytes_val. unfold lenN in Hl. lia.
Qed.

(** Every file that loads is empty or has this shape. *)
Lemma load_inv f st :
  load_state f = Ok st ->
  (f = [] /\ st = mkState 1 []) \/
  exists next count body, f = file_bytes next count body /\
    is_u64 next /\ is_u64 count /\ parses body (records st) /\
    24 + lenN body <= MAX_HISTORY_BYTES /\ validate_header count (records st) = Ok tt /\
    next_sequence st = N.max next (parsed_next (records st)).
Proof.
  unfold load_state. intros H. inv_ok. destruct f as [|b f]; [inv_ok; auto|].
  set (file := b :: f) in *. inv_ok. boolp. unfold HEADER_LEN in *.
  apply dec_stable in H1. right.
  destruct (be_val_slice_u64 file 8) as [Hn Hnb]; [lia|].
  destruct (be_val_slice_u64 file 16) as [Hc Hcb]; [lia|].
  change (8 + 8) with 16 in *. change (16 + 8) with 24 in *.
  exists (be_val (slice file 8 16)), (be_val (slice file 16 24)), (dropN 24 file).
  subst st. cbn [records next_sequence]. split_and!; [|done|done|..|done|done].
  - unfold file_bytes. rewrite Hnb, Hcb, <- H1.
    rewrite (slice_split file 8 16) at 1 by lia. do 2 f_equal.
    rewrite (slice_split (dropN 16 file) 0 8) by (rewrite ?lenN_dropN; lia).
    unfold slice. rewrite !dropN_0, dropN_dropN. done.
  - unfold parses. rewrite <- Hok. apply decode_records_fuel; [done|].
    unfold dropN. rewrite length_drop. lia.
  - rewrite lenN_dropN. lia.
Qed.

Lemma load_valid f st :
  load_state f = Ok st ->
  Forall record_ok (records st) /\ is_u64 (next_sequence st) /\
  total_size (records st) + 24 <= MAX_HISTORY_BYTES /\ out_of_order (records st) = false /\
  parsed_next (records st) <= next_sequence st.
Proof.
  intros [[-> ->]|(next & count & body & -> & Hn & Hc & Hp & Hs & Hv & Heq)]%load_inv.
  { split_and!; done. }
  pose proof (parses_sound _ _ Hp) as [Hr Hl].
  unfold validate_header in Hv. inv_ok. rewrite Heq. split_and!; [done|..|lia|done|lia].
  unfold is_u64 in *. assert (parsed_next (records st) <= u64_max); [|unfold u64_max in *; lia].
  unfold parsed_next, saturating_add_u64. destruct (last (records st)); unfold u64_max; lia.
Qed.

(** ** Writing the file *)

Lemma collect_encode rs :
  Forall record_ok rs -> collect_ok encode_record rs = Ok (map record_bytes rs).
Proof.
  intros H. apply collect_ok_Forall2. induction H; simpl; constructor; [|done].
  by apply encode_record_ok.
Qed.

Lemma write_state_ok st :
  Forall record_ok (records st) ->
  write_state st = Ok (file_bytes (next_sequence st) (lenN (records st))
                         (concat (map record_bytes (records st)))).
Proof. intros H. unfold write_state. by rewrite collect_encode. Qed.

Lemma lenN_concat_records rs : lenN (concat (map record_bytes rs)) = total_size rs.
Proof.
  induction rs; [done|]. cbn [map concat]. rewrite lenN_app, lenN_record_bytes, IHrs. done.
Qed.

Lemma total_size_bound rs : lenN rs <= total_size rs.
Proof.
  induction rs as [|r rs IH]; [done|]. rewrite lenN_cons. cbn.
  change (foldr _ 0 rs) with (total_size rs). pose proof (record_size_pos r). lia.
Qed.

Lemma overwrite_next next next' count body :
  overwrite (file_bytes next count body) 8 (u64_be next') = file_bytes next' count body.
Proof.
  unfold overwrite, file_bytes. rewrite takeN_app by done.
  reflexivity.
Qed.

Lemma overwrite_count next count count' body :
  overwrite (file_bytes next count body) 16 (u64_be count') = file_bytes next count' body.
Proof.
  unfold overwrite, file_bytes. rewrite (app_assoc MAGIC), takeN_app, <- app_assoc by len.
  reflexivity.
Qed.

Lemma append_record_ok next count body r n :
  record_ok r ->
  append_record (file_bytes next count body) r n =
  Ok (file_bytes next count (body ++ record_bytes r),
      file_bytes (saturating_add_u64 (sequence r) 1) count (body ++ record_bytes r),
      file_bytes (saturating_add_u64 (sequence r) 1) (saturating_add_usize n 1)
                 (body ++ record_bytes r)).
Proof.
  intros Hr. unfold append_record. rewrite encode_record_ok by done.
  unfold mbind, result_bind. cbv zeta.
  replace (file_bytes next count body ++ record_bytes r)
    with (file_bytes next count (body ++ record_bytes r))
    by (unfold file_bytes; by rewrite <- !app_assoc).
  by rewrite overwrite_next, overwrite_count.
Qed.

(** ** The order of the sequence numbers *)

Lemma out_of_order_snoc rs r :
  out_of_order rs = false ->
  (forall r', last rs = Some r' -> sequence r' < sequence r) ->
  out_of_order (rs ++ [r]) = false.
Proof.
  induction rs as [|r1 [|r2 rs] IH]; intros Ho Hl; [done|..].
  - specialize (Hl r1 eq_refl). simpl. apply orb_false_iff. split; [|done]. by apply N.leb_gt.
  - cbn [out_of_order app] in *. apply orb_false_iff in Ho as [H1 H2].
    rewrite H1. simpl. apply IH; done.
Qed.

Lemma out_of_order_drop n rs : out_of_order rs = false -> out_of_order (drop n rs) = false.
Proof.
  revert rs; induction n as [|n IH]; intros rs H; [done|]. destruct rs as [|r1 rs]; [done|].
  simpl. apply IH. destruct rs; [done|]. cbn in H. by apply orb_false_iff in H as [_ H].
Qed.

(** A record numbered [next_sequence] extends a loaded history. *)
Lemma append_in_order f st r :
  load_state f = Ok st -> sequence r = next_sequence st -> next_sequence st < u64_max ->
  out_of_order (records st ++ [r]) = false.
Proof.
  intros (_ & _ & _ & Ho & Hp)%load_valid Hs Hlt. apply out_of_order_snoc; [done|].
  intros r' Hl. unfold parsed_next in Hp. rewrite Hl in Hp. unfold saturating_add_u64 in Hp. lia.
Qed.

(** ** Compaction keeps the newest records *)

Lemma drop_oversized_spec rs :
  exists k, drop_oversized rs = drop k rs /\ estimated_size (drop k rs) <= MAX_HISTORY_BYTES /\
    forall j, (j < k)%nat -> MAX_HISTORY_BYTES < estimated_size (drop j rs).
Proof.
  induction rs as [|r rs (k & Hd & Hs & Hj)]; [exists 0%nat; split_and!; [done|done|lia]|].
  cbn [drop_oversized]. destruct (MAX_HISTORY_BYTES <? estimated_size (r :: rs)) eqn:He; boolp.
  - exists (S k). split_and!; [done..|]. intros [|j] Hlt; [done|]. apply Hj. lia.
  - exists 0%nat. split_and!; [done..|lia].
Qed.

Lemma compact_spec rs :
  exists k, compact rs = drop k rs /\ lenN (drop k rs) <= MAX_HISTORY_RECORDS /\
    estimated_size (drop k rs) <= MAX_HISTORY_BYTES /\
    forall j, (j < k)%nat ->
      MAX_HISTORY_RECORDS < lenN (drop j rs) \/ MAX_HISTORY_BYTES < estimated_size (drop j rs).
Proof.
  unfold compact. set (first := saturating_sub (lenN rs) MAX_HISTORY_RECORDS).
  destruct (drop_oversized_spec (dropN first rs)) as (k & Hd & Hs & Hj).
  exists (N.to_nat first + k)%nat. unfold dropN in *.
  rewrite <- drop_drop. split_and!; [done|..|done|].
  - unfold lenN. rewrite !length_drop. unfold first, saturating_sub, lenN. lia.
  - intros j Hlt. destruct (decide (j < N.to_nat first)%nat).
    + left. unfold first, saturating_sub, lenN in *. rewrite length_drop. lia.
    + right. specialize (Hj (j - N.to_nat first)%nat ltac:(lia)). rewrite drop_drop in Hj.
      by replace (N.to_nat first + (j - N.to_nat first))%nat with j in Hj by lia.
Qed.

Lemma last_record_size r : record_ok r -> 24 + record_size r <= MAX_HISTORY_BYTES.
Proof.
  intros (Hs & _ & Hc)%validate_record_fields.
  unfold record_size, RECORD_META_LEN, MAX_HISTORY_BYTES. lia.
Qed.

Lemma compact_snoc rs r : record_ok r ->
  exists rs', compact (rs ++ [r]) = rs' ++ [r] /\ rs' `suffix_of` rs.
Proof.
  intros Hr. destruct (compact_spec (rs ++ [r])) as (k & -> & _ & _ & Hj).
  assert (Hk : (k <= length rs)%nat).
  { destruct (decide (k <= length rs)%nat) as [|Hn]; [done|exfalso].
    specialize (Hj (length rs) ltac:(lia)). rewrite drop_app_length in Hj.
    pose proof (last_record_size r Hr). rewrite estimated_total in Hj. cbn in Hj.
    unfold MAX_HISTORY_RECORDS, lenN in Hj. simpl in Hj. lia. }
  exists (drop k rs). rewrite drop_app_le by done. split; [done|].
  exists (take k rs). by rewrite take_drop.
Qed.

Lemma compact_id rs :
  lenN rs <= MAX_HISTORY_RECORDS -> estimated_size rs <= MAX_HISTORY_BYTES -> compact rs = rs.
Proof.
  intros Hl Hs. destruct (compact_spec rs) as (k & -> & _ & _ & Hj).
  destruct k as [|k]; [done|]. specialize (Hj 0%nat ltac:(lia)). rewrite drop_0 in Hj. lia.
Qed.

(** A file whose header agrees with its body loads as its body says. *)
Lemma load_consistent next count body rs :
  is_u64 next -> parses body rs -> estimated_size rs <= MAX_HISTORY_BYTES ->
  out_of_order rs = false -> count <= lenN rs <= count + 1 ->
  load_state (file_bytes next count body) = Ok (mkState (N.max next (parsed_next rs)) rs).
Proof.
  intros Hn Hp Hs Ho Hc. pose proof (parses_sound _ _ Hp) as [_ Hl].
  rewrite estimated_total in Hs. pose proof (total_size_bound rs).
  apply load_file; [done| |done|lia|].
  - unfold is_u64, MAX_HISTORY_BYTES in *. lia.
  - unfold validate_header, saturating_sub. ndec. by rewrite Ho.
Qed.

Lemma parsed_next_snoc rs r :
  sequence r < u64_max -> parsed_next (rs ++ [r]) = sequence r + 1.
Proof.
  intros. unfold parsed_next. rewrite last_snoc. unfold saturating_add_u64. lia.
Qed.

Lemma write_compacted f st r :
  load_state f = Ok st -> record_ok r -> sequence r = next_sequence st ->
  next_sequence st < u64_max ->
  exists f', write_state (mkState (sequence r + 1) (compact (records st ++ [r]))) = Ok f' /\
    load_state f' = Ok (mkState (next_sequence st + 1) (compact (records st ++ [r]))).
Proof.
  intros Hload Hr Hs Hlt. pose proof (load_valid _ _ Hload) as (Hrs & Hn & _ & _ & Hp).
  destruct (compact_snoc (records st) r Hr) as (rs' & Hc & _).
  destruct (compact_spec (records st ++ [r])) as (k & Hk & _ & Hsz & _).
  assert (Hok : Forall record_ok (compact (records st ++ [r]))).
  { rewrite Hk. apply Forall_drop, Forall_app_2; [done|by constructor]. }
  eexists. split; [by apply write_state_ok|]. cbn [next_sequence records].
  rewrite load_consistent with (rs := compact (records st ++ [r])).
  - do 2 f_equal. rewrite Hc, parsed_next_snoc by lia. lia.
  - unfold is_u64, u64_max in *. lia.
  - by apply parses_records.
  - by rewrite Hk.
  - rewrite Hk. apply out_of_order_drop. by eapply append_in_order.
  - lia.
Qed.


(** The record count in the header. *)
Definition header_count (f : bytes) : N := be_val (slice f 16 24).

Lemma header_count_file next count body :
  is_u64 count -> header_count (file_bytes next count body) = count.
Proof.
  intros Hc. unfold header_count. rewrite <- (u64_be_val count) at 2 by done. f_equal.
Qed.

(** The shape of a file that loads, with the state it stands for. *)
Lemma load_shape f st :
  load_state f = Ok st -> f <> [] ->
  exists next body, f = file_bytes next (header_count f) body /\ is_u64 next /\
    parses body (records st) /\ next <= next_sequence st /\
    header_count f <= lenN (records st) <= header_count f + 1.
Proof.
  intros [[-> _]|(next & count & body & -> & Hn & Hc & Hp & Hs & Hv & Heq)]%load_inv; [done|].
  intros _. rewrite header_count_file by done. exists next, body.
  unfold validate_header, saturating_sub in Hv. inv_ok. boolp. split_and!; [done..|lia|lia|lia].
Qed.

Section append.
Context (f : bytes) (st : HistoryState) (r : CommandRecord).
Context (Hload : load_state f = Ok st) (Hr : record_ok r).
Context (Hseq : sequence r = next_sequence st) (Hlt : next_sequence st < u64_max).
Context (Hsize : estimated_size (records st) + record_size r <= MAX_HISTORY_BYTES).

Let st' := mkState (next_sequence st + 1) (records st ++ [r]).

Lemma load_appended next count body :
  is_u64 next -> next <= next_sequence st + 1 -> parses body (records st) ->
  count <= lenN (records st) + 1 <= count + 1 ->
  load_state (file_bytes next count (body ++ record_bytes r)) = Ok st'.
Proof.
  intros Hn Hle Hp Hc. rewrite load_consistent with (rs := records st ++ [r]).
  - do 2 f_equal. rewrite parsed_next_snoc; lia.
  - done.
  - apply parses_app; [done|by apply parses_record].
  - by rewrite estimated_snoc.
  - by eapply append_in_order.
  - len.
Qed.

Lemma append_steps : f <> [] ->
  exists f1 f2 f3, append_record f r (lenN (records st)) = Ok (f1, f2, f3) /\
    (header_count f = lenN (records st) -> load_state f1 = Ok st' /\ load_state f2 = Ok st') /\
    load_state f3 = Ok st'.
Proof.
  intros Hf. destruct (load_shape f st Hload Hf) as (next & body & Hfile & Hn & Hp & Hle & Hc).
  assert (is_u64 (sequence r + 1)) by (unfold is_u64, u64_max in *; lia).
  assert (Hl : lenN (records st) + 1 <= usize_max).
  { pose proof (total_size_bound (records st)) as Hb. rewrite estimated_total in Hsize.
    unfold usize_max, u64_max, MAX_HISTORY_BYTES in *. lia. }
  do 3 eexists. split; [rewrite Hfile at 1; by apply append_record_ok|].
  replace (saturating_add_u64 (sequence r) 1) with (sequence r + 1)
    by (unfold saturating_add_u64; lia).
  replace (saturating_add_usize (lenN (records st)) 1) with (lenN (records st) + 1)
    by (unfold saturating_add_usize; lia).
  split; [intros Heq; split|]; (apply load_appended; [done|lia|done|lia]).
Qed.
End append.

Lemma mk_record_ok f st now sh cmd :
  load_state f = Ok st -> validate_record sh cmd = Ok tt -> str_ok sh -> is_u64 now ->
  record_ok (mkRecord (next_sequence st) now sh cmd).
Proof. intros Hl. split; [|done..]. by apply load_valid in Hl as (_ & ? & _). Qed.

Lemma load_nil : load_state [] = Ok (mkState 1 []).
Proof. reflexivity. Qed.

Lemma compact_single r : record_ok r -> compact [r] = [r].
Proof.
  intros Hr. pose proof (last_record_size r Hr). apply compact_id; [done|].
  rewrite estimated_total. cbn [total_size foldr]. lia.
Qed.

(** The three paths of [append_command]. *)
Lemma append_first_write now sh cmd :
  validate_record sh cmd = Ok tt ->
  append_command [] now sh cmd =
  (f ← write_state (mkState (1 + 1) [mkRecord 1 now sh cmd]); Ok (mkRecord 1 now sh cmd, f)).
Proof. intros Hv. unfold append_command. by rewrite Hv, load_nil. Qed.

Lemma append_in_place_or_rewrite f st now sh cmd :
  load_state f = Ok st -> validate_record sh cmd = Ok tt -> f <> [] ->
  let r := mkRecord (next_sequence st) now sh cmd in
  (lenN (records st) < MAX_HISTORY_RECORDS /\
   estimated_size (records st) + record_size r <= MAX_HISTORY_BYTES /\
   append_command f now sh cmd =
   (steps ← append_record f r (lenN (records st)); Ok (r, steps.2))) \/
  append_command f now sh cmd =
  (f' ← write_state (mkState (saturating_add_u64 (next_sequence st) 1)
                             (compact (records st ++ [r])));
   Ok (r, f')).
Proof.
  intros Hload Hv Hf r. unfold append_command. rewrite Hv, ok_bind, Hload, ok_bind. cbv zeta. fold r.
  rewrite (proj2 (N.eqb_neq (lenN f) 0)) by (intros ?%lenN_0_inv; done).
  destruct (_ && _) eqn:Hfit; [left|by right].
  apply andb_true_iff in Hfit as [H1%N.ltb_lt H2%N.leb_le].
  split_and!; [done| |by destruct append_record as [[[? ?] ?]|]].
  by apply saturating_add_usize_le in H2.
Qed.

(** Appending a command to a history file that loads, and loading the
    result, gives the old history with the new record at the end, compacted;
    the record carries the loaded [next_sequence] and the next one is its
    successor.  Holds on all three paths: first write, append in place and
    rewrite with compaction. *)
Theorem append_command_load f st now sh cmd :
  load_state f = Ok st -> validate_record sh cmd = Ok tt -> str_ok sh -> is_u64 now ->
  next_sequence st < u64_max ->
  let r := mkRecord (next_sequence st) now sh cmd in
  exists f', append_command f now sh cmd = Ok (r, f') /\
    load_state f' = Ok (mkState (next_sequence st + 1) (compact (records st ++ [r]))).
Proof.
  intros Hload Hv Hsh Hnow Hlt r.
  pose proof (mk_record_ok f st now sh cmd Hload Hv Hsh Hnow : record_ok r) as Hr.
  destruct (write_compacted f st r Hload Hr eq_refl Hlt) as (fw & Hw & Hlw).
  assert (Hsat : forall n, n = next_sequence st -> saturating_add_u64 n 1 = sequence r + 1)
    by (intros n ->; unfold saturating_add_u64, r; cbn; lia).
  destruct (decide (f = [])) as [->|Hf].
  - rewrite load_nil in Hload. injection Hload as <-. exists fw.
    cbn [records next_sequence app] in *. change (1 + 1) with (sequence r + 1) in *.
    rewrite (compact_single r Hr) in *. split; [|done].
    rewrite (append_first_write now sh cmd Hv). unfold r in Hw. cbn [sequence] in Hw.
    by rewrite Hw.
  - destruct (append_in_place_or_rewrite f st now sh cmd Hload Hv Hf) as [Hfit|Hrw].
    + destruct Hfit as (Hc & Hsz & Happ).
      destruct (append_steps f st r Hload Hr eq_refl Hlt Hsz Hf) as (f1 & f2 & f3 & Ha & _ & H3).
      exists f3. fold r in Happ. rewrite Happ, Ha. split; [done|].
      rewrite H3, compact_id; [done|len|].
      by rewrite estimated_snoc.
    + exists fw. fold r in Hrw. rewrite Hrw, Hsat by done. by rewrite Hw.
Qed.

(** C28: a crash between the writes of an append in place loses nothing: if
    the header count was in sync, the file loads after each of the three
    writes, to the history with the new record. *)
Theorem append_crash_recovers f st r :
  load_state f = Ok st -> f <> [] -> header_count f = lenN (records st) ->
  record_ok r -> sequence r = next_sequence st -> next_sequence st < u64_max ->
  estimated_size (records st) + record_size r <= MAX_HISTORY_BYTES ->
  exists f1 f2 f3, append_record f r (lenN (records st)) = Ok (f1, f2, f3) /\
    Forall (fun f' => load_state f' = Ok (mkState (next_sequence st + 1) (records st ++ [r])))
      [f1; f2; f3].
Proof.
  intros Hload Hf Hc Hr Hseq Hlt Hsz.
  destruct (append_steps f st r Hload Hr Hseq Hlt Hsz Hf) as (f1 & f2 & f3 & Ha & H12 & H3).
  exists f1, f2, f3. destruct (H12 Hc). eauto using Forall_cons, Forall_nil.
Qed.

Lemma parses_det b rs1 rs2 : parses b rs1 -> parses b rs2 -> rs1 = rs2.
Proof. unfold parses. intros -> [= ->]. done. Qed.

Lemma parses_app_inv b1 b2 rs1 rs :
  parses b1 rs1 -> parses (b1 ++ b2) rs -> exists rs2, rs = rs1 ++ rs2 /\ parses b2 rs2.
Proof.
  revert b1 rs; induction rs1 as [|r1 rs1 IH]; intros b1 rs H1 H; apply parses_inv in H1.
  - destruct H1 as [[-> _]|(? & ? & [=] & _)]. by exists rs.
  - destruct H1 as [[_ [=]]|(r' & rs' & [= <- <-] & Hd & Hp)].
    pose proof (decode_record_sound _ _ _ Hd) as (_ & _ & Hle & Hext).
    apply parses_inv in H as [[H _]|(r & rs' & -> & Hd' & Hp')].
    { pose proof (record_size_pos r1). apply app_eq_nil in H as [-> ->].
      rewrite lenN_nil in Hle. lia. }
    rewrite Hext in Hd'. injection Hd' as <-. rewrite dropN_app_le in Hp' by done.
    destruct (IH _ _ Hp Hp') as (rs2 & -> & H2). by exists rs2.
Qed.

(** A proper, non-empty prefix of a record is never read as records. *)
Lemma parses_torn r k rs :
  record_ok r -> 0 < k < record_size r -> ~ parses (takeN k (record_bytes r)) rs.
Proof.
  intros Hr Hk H. assert (Hl : lenN (takeN k (record_bytes r)) = k)
    by (rewrite lenN_takeN, lenN_record_bytes; lia).
  apply parses_inv in H as [[H _]|(r' & rs' & _ & Hd & _)].
  { rewrite H, lenN_nil in Hl. lia. }
  apply decode_record_sound in Hd as (_ & _ & Hle & Hext).
  specialize (Hext (dropN k (record_bytes r))). rewrite takeN_dropN in Hext.
  pose proof (decode_encode_record r [] Hr) as Hd. rewrite app_nil_r, Hext in Hd.
  injection Hd as _ Hd. lia.
Qed.

Lemma file_bytes_inj n c b n' c' b' :
  file_bytes n c b = file_bytes n' c' b' -> is_u64 c -> is_u64 c' -> c = c' /\ b = b'.
Proof.
  intros H Hc Hc'. split.
  - rewrite <- (header_count_file n c b), <- (header_count_file n' c' b') by done. by rewrite H.
  - assert (Hd : forall x y z, dropN 24 (file_bytes x y z) = z) by (intros; unfold file_bytes; field).
    by rewrite <- (Hd n c b), H, Hd.
Qed.

Lemma header_count_u64 f : is_u64 (header_count f).
Proof.
  unfold header_count, is_u64. eapply N.lt_le_trans; [apply be_val_lt|].
  unfold slice. rewrite lenN_takeN. change (2 ^ 64) with (256 ^ 8).
  apply N.pow_le_mono_r; lia.
Qed.

(** What the recovery does not cover.  A record torn by the crash, and a
    second crash before the header caught up with the first, leave a file that
    never loads again. *)
Theorem append_crash_unreadable f st r f1 f2 f3 :
  load_state f = Ok st -> f <> [] -> record_ok r ->
  append_record f r (lenN (records st)) = Ok (f1, f2, f3) ->
  (forall k st', lenN f < k < lenN f1 -> load_state (takeN k f1) <> Ok st') /\
  (header_count f < lenN (records st) -> forall st', load_state f1 <> Ok st').
Proof.
  intros Hload Hf Hr Ha.
  destruct (load_shape f st Hload Hf) as (next & body & Hfile & Hn & Hp & _ & Hc).
  rewrite Hfile in Ha at 1. rewrite append_record_ok in Ha by done. injection Ha as <- _ _.
  pose proof (header_count_u64 f) as Hu.
  assert (Hsplit : forall b c, file_bytes c (header_count f) (body ++ b) =
            file_bytes c (header_count f) body ++ b)
    by (intros; unfold file_bytes; by rewrite <- !app_assoc).
  split.
  - intros k st' Hk Hl. rewrite Hsplit, <- Hfile in Hk, Hl.
    rewrite lenN_app, lenN_record_bytes in Hk. unfold takeN in Hl.
    rewrite take_app in Hl. rewrite (take_ge f) in Hl by (unfold lenN in *; lia).
    set (t := take _ (record_bytes r)) in Hl. rewrite Hfile, <- Hsplit in Hl.
    destruct (load_shape _ _ Hl) as (n' & b' & Hf' & _ & Hp' & _); [done|].
    apply file_bytes_inj in Hf' as [_ <-]; [|done|by rewrite header_count_file].
    destruct (parses_app_inv _ _ _ _ Hp Hp') as (rs2 & _ & Ht).
    apply (parses_torn r (k - lenN f) rs2 Hr); [unfold lenN in *; lia|].
    unfold t in Ht. unfold takeN, lenN. by replace (N.to_nat (k - N.of_nat (length f)))
      with (N.to_nat k - length f)%nat by lia.
  - intros Hlag st' Hl. destruct (load_shape _ _ Hl) as (n' & b' & Hf' & _ & Hp' & _ & Hc'); [done|].
    rewrite header_count_file in * by done.
    apply file_bytes_inj in Hf' as [_ <-]; [|done..].
    apply (parses_det _ _ (records st ++ [r])) in Hp';
      [|apply parses_app; [done|by apply parses_record]].
    rewrite Hp' in Hc'. len.
Qed.

(** Compaction keeps exactly the longest suffix of the history that fits
    both limits, and never drops the newest record. *)
Theorem compact_keeps_newest rs :
  exists k, compact rs = drop k rs /\
    lenN (compact rs) <= MAX_HISTORY_RECORDS /\
    estimated_size (compact rs) <= MAX_HISTORY_BYTES /\
    (forall j, (j < k)%nat -> MAX_HISTORY_RECORDS < lenN (drop j rs) \/
                              MAX_HISTORY_BYTES < estimated_size (drop j rs)) /\
    (forall r, last rs = Some r -> record_ok r -> last (compact rs) = Some r).
Proof.
  destruct (compact_spec rs) as (k & Hk & Hl & Hs & Hj). exists k. rewrite Hk.
  split_and!; [done..|]. intros r [rs' ->]%last_Some Hr. rewrite <- Hk.
  destruct (compact_snoc rs' r Hr) as (rs0 & -> & _). apply last_snoc.
Qed.

(** A page of the history: [read_commands_desc] on a file written by
    [write_state] returns the records from newest to oldest, skipping
    [offset] and taking [limit], and pages of one size tile the history. *)
Theorem read_commands_pages st offset limit :
  Forall record_ok (records st) -> is_u64 (next_sequence st) ->
  out_of_order (records st) = false -> estimated_size (records st) <= MAX_HISTORY_BYTES ->
  exists f, write_state st = Ok f /\
    read_commands_desc (Some f) offset limit =
      Ok (takeN limit (dropN offset (rev (records st)))) /\
    command_count (Some f) = Ok (lenN (records st)) /\
    forall p1 p2, read_commands_desc (Some f) 0 offset = Ok p1 ->
      read_commands_desc (Some f) offset (lenN (records st)) = Ok p2 ->
      p1 ++ p2 = rev (records st).
Proof.
  intros Hr Hn Ho Hs. eexists. split; [by apply write_state_ok|].
  set (f := file_bytes _ _ _).
  assert (Hl : load_state f = Ok (mkState (N.max (next_sequence st) (parsed_next (records st)))
                                          (records st))).
  { apply load_consistent; [done|by apply parses_records|done|done|lia]. }
  assert (Hrd : forall o l, read_commands_desc (Some f) o l =
            Ok (takeN l (dropN o (rev (records st))))).
  { intros o l. unfold read_commands_desc. destruct (l =? 0) eqn:Hz; boolp.
    - by subst l.
    - by rewrite Hl, ok_bind. }
  split_and!; [done| |].
  - unfold command_count. by rewrite Hl, ok_bind.
  - intros p1 p2. rewrite !Hrd, dropN_0. intros [= <-] [= <-].
    rewrite (takeN_ge (lenN (records st))); [apply takeN_dropN|].
    rewrite lenN_dropN. unfold lenN. rewrite length_rev. lia.
Qed.

(** ** Concrete inputs *)

Definition sample : CommandRecord := mkRecord 1 5 (lit "bash") (lit "ls").

Definition sample_file : bytes := file_bytes 2 1 (record_bytes sample).

Lemma sample_loads : load_state sample_file = Ok (mkState 2 [sample]).
Proof. vm_compute. reflexivity. Qed.

Lemma sample_ok n : is_u64 n -> record_ok (mkRecord n 6 (lit "zsh") (lit "pwd")).
Proof. intros. split; [done|by vm_compute..]. Qed.

Lemma append_command_load_witness :
  exists f', append_command sample_file 6 (lit "zsh") (lit "pwd") =
      Ok (mkRecord 2 6 (lit "zsh") (lit "pwd"), f') /\
    load_state f' = Ok (mkState 3 (compact [sample; mkRecord 2 6 (lit "zsh") (lit "pwd")])).
Proof.
  apply (append_command_load sample_file (mkState 2 [sample]) 6 (lit "zsh") (lit "pwd"));
    [exact sample_loads|by vm_compute..].
Defined.

Lemma append_crash_recovers_witness :
  exists f1 f2 f3, append_record sample_file (mkRecord 2 6 (lit "zsh") (lit "pwd")) 1 =
      Ok (f1, f2, f3) /\
    Forall (fun f' => load_state f' =
              Ok (mkState 3 [sample; mkRecord 2 6 (lit "zsh") (lit "pwd")])) [f1; f2; f3].
Proof.
  apply (append_crash_recovers sample_file (mkState 2 [sample])
           (mkRecord 2 6 (lit "zsh") (lit "pwd")));
    [exact sample_loads|done|by vm_compute|by apply sample_ok|by vm_compute..].
Defined.

(** The same history after a crash before the header was updated. *)
Definition lagging_file : bytes := file_bytes 1 0 (record_bytes sample).

Lemma lagging_loads : load_state lagging_file = Ok (mkState 2 [sample]).
Proof. vm_compute. reflexivity. Qed.

Lemma append_crash_unreadable_witness : exists f1 : bytes,
  (forall k st', lenN lagging_file < k < lenN f1 -> load_state (takeN k f1) <> Ok st') /\
  (header_count lagging_file < 1 -> forall st', load_state f1 <> Ok st').
Proof.
  eexists.
  eapply (append_crash_unreadable lagging_file (mkState 2 [sample])
           (mkRecord 2 6 (lit "zsh") (lit "pwd")));
    [exact lagging_loads|done|by apply sample_ok|].
  apply append_record_ok. by apply sample_ok.
Defined.

Lemma read_commands_pages_witness :
  exists f, write_state (mkState 2 [sample]) = Ok f /\
    read_commands_desc (Some f) 0 10 = Ok [sample] /\
    command_count (Some f) = Ok 1 /\
    forall p1 p2, read_commands_desc (Some f) 0 0 = Ok p1 ->
      read_commands_desc (Some f) 0 1 = Ok p2 -> p1 ++ p2 = [sample].
Proof.
  apply (read_commands_pages (mkState 2 [sample]) 0 10);
    [constructor; [split; by vm_compute|done]|by vm_compute..].
Defined.
End CommandHistory.
