(* ===== verification/HolderWire.v ===== *)
(** * HolderWire: the reader and the writers of the holder protocol.

    Models [crates/persist-ipc/src/holder/wire.rs].  A [Reader] is the payload
    and the offset of the next unread byte; every read is a state transformer
    that may fail.  A [put_*] function is given by the bytes it appends to its
    output.  [Parses p W] says that the reader program [p] accepts exactly the
    byte strings related to its results by [W]; its instances make the grammar
    of a decoder inferable from the decoder's own text. *)
From S2P Require Import Prelude Bytes Utf8.
From Stdlib Require Import Lia.
Local Open Scope N_scope.

Inductive HolderProtocolError : Type :=
| Truncated | Trailing | InvalidMagic | VersionMismatch | UnknownMessageType
| PayloadTooLarge | InvalidField.

#[export] Instance HolderProtocolError_eq_dec : EqDecision HolderProtocolError.
Proof. solve_decision. Defined.

Module Reader.

Record Reader : Type := mkReader { bytes : bytes; offset : N }.

Definition new (bs : Bytes.bytes) : Reader := mkReader bs 0.

(** Computations on a [&mut Reader]. *)
Definition R (A : Type) : Type := Reader -> result HolderProtocolError (A * Reader).

#[export] Instance R_ret : MRet R := fun A a r => Ok (a, r).
#[export] Instance R_bind : MBind R := fun A B f p r =>
  match p r with Ok (a, r') => f a r' | Err e => Err e end.

(** [?] on a value that does not touch the reader. *)
Definition lift {A} (c : result HolderProtocolError A) : R A := fun r =>
  match c with Ok a => Ok (a, r) | Err e => Err e end.

(** [if c { return Err(e) }] *)
Definition guard (c : bool) (e : HolderProtocolError) : R unit := lift (check c e).

Definition take (len : N) : R Bytes.bytes := fun r =>
  end_ ← ok_or (checked_add_usize (offset r) len) PayloadTooLarge;
  if lenN (bytes r) <? end_ then Err Truncated
  else Ok (slice (bytes r) (offset r) end_, mkReader (bytes r) end_).

Definition u8 : R N := v ← take 1; mret (be_val v).
Definition u16 : R N := v ← take 2; mret (be_val v).
Definition u32 : R N := v ← take 4; mret (be_val v).
Definition i32 : R Z := v ← take 4; mret (i32_of (be_val v)).
Definition u64 : R N := v ← take 8; mret (be_val v).
Definition fixed (n : N) : R Bytes.bytes := take n.

Definition string (max : N) : R str :=
  len ← u16;
  _ ← guard (max <? len) PayloadTooLarge;
  raw ← take len;
  value ← lift (ok_or (from_utf8 raw) InvalidField);
  _ ← guard (has_nul value) InvalidField;
  mret value.

Definition optional_string (max : N) : R (option str) :=
  tag ← u8;
  match tag with
  | 0 => mret None
  | 1 => s ← string max; mret (Some s)
  | _ => lift (Err InvalidField)
  end.

Definition optional_bytes_u32 (max : N) : R (option Bytes.bytes) :=
  tag ← u8;
  match tag with
  | 0 => mret None
  | 1 => len ← u32; _ ← guard (max <? len) PayloadTooLarge; v ← take len; mret (Some v)
  | _ => lift (Err InvalidField)
  end.

Definition finish (r : Reader) : result HolderProtocolError unit :=
  if offset r =? lenN (bytes r) then Ok tt else Err Trailing.

(** A decoder reads the whole payload with [p] and calls [finish]. *)
Definition run {A} (p : R A) (payload : Bytes.bytes) : result HolderProtocolError A :=
  '(a, r) ← p (new payload); _ ← finish r; Ok a.

(** [for _ in 0..n { out.push(p(reader)?) }] *)
Fixpoint times {A} (n : nat) (p : R A) : R (list A) :=
  match n with
  | O => mret []
  | S n' => x ← p; xs ← times n' p; mret (x :: xs)
  end.

(** A one-byte boolean field. *)
Definition flag : R bool :=
  tag ← u8;
  match tag with 0 => mret false | 1 => mret true | _ => lift (Err InvalidField) end.

(** ** Writers: the bytes each [put_*] appends *)

Definition put_u8 (value : N) : Bytes.bytes := [byte_of value].
Definition put_u16 (value : N) : Bytes.bytes := u16_be value.
Definition put_u32 (value : N) : Bytes.bytes := u32_be value.
Definition put_i32 (value : Z) : Bytes.bytes := i32_be value.
Definition put_u64 (value : N) : Bytes.bytes := u64_be value.

Definition put_optional_bytes_u32 (value : option Bytes.bytes) (max : N)
  : result HolderProtocolError Bytes.bytes :=
  match value with
  | Some v => if lenN v <=? max then Ok (put_u8 1 ++ put_u32 (as_u32 (lenN v)) ++ v)
              else Err PayloadTooLarge
  | None => Ok (put_u8 0)
  end.

Definition put_string (value : str) (max : N) : result HolderProtocolError Bytes.bytes :=
  if (lenN value =? 0) || (max <? lenN value) || (u16_max <? lenN value)
  then Err (if max <? lenN value then PayloadTooLarge else InvalidField)
  else if has_nul value then Err InvalidField
  else Ok (put_u16 (as_u16 (lenN value)) ++ value).

Definition put_string_allow_empty (value : str) (max : N)
  : result HolderProtocolError Bytes.bytes :=
  if (max <? lenN value) || (u16_max <? lenN value) then Err PayloadTooLarge
  else if has_nul value then Err InvalidField
  else Ok (put_u16 (as_u16 (lenN value)) ++ value).

Definition put_optional_string (value : option str) (max : N)
  : result HolderProtocolError Bytes.bytes :=
  match value with
  | None => Ok (put_u8 0)
  | Some v => s ← put_string v max; Ok (put_u8 1 ++ s)
  end.

#[global] Arguments put_u8 : simpl never.
#[global] Arguments put_u16 : simpl never.
#[global] Arguments put_u32 : simpl never.
#[global] Arguments put_i32 : simpl never.
#[global] Arguments put_u64 : simpl never.

(** ** What a reader program accepts *)

Definition wf (r : Reader) : Prop := offset r <= lenN (bytes r) /\ fits (bytes r).

(** [r'] is [r] after reading [bs]. *)
Definition step (r : Reader) (bs : Bytes.bytes) (r' : Reader) : Prop :=
  exists pre post, r = mkReader (pre ++ bs ++ post) (lenN pre) /\
    r' = mkReader (pre ++ bs ++ post) (lenN pre + lenN bs).

Class Parses {A} (p : R A) (W : A -> Bytes.bytes -> Prop) : Prop :=
  parses_iff r a r' : wf r -> p r = Ok (a, r') <-> exists bs, W a bs /\ step r bs r'.

Lemma wf_split r : wf r ->
  exists pre post, r = mkReader (pre ++ post) (lenN pre).
Proof.
  destruct r as [bs off]. unfold wf. simpl. intros [Hle _].
  exists (takeN off bs), (dropN off bs). rewrite takeN_dropN, lenN_takeN.
  f_equal. lia.
Qed.

Lemma step_wf r bs r' : step r bs r' -> wf r -> wf r'.
Proof.
  intros (pre & post & -> & ->) [_ Hf]. split; [|done]. cbn. len.
Qed.

Lemma step_nil r r' : wf r -> step r [] r' <-> r' = r.
Proof.
  intros Hw. split.
  - intros (pre & post & -> & ->). f_equal. len.
  - intros ->. destruct (wf_split r Hw) as (pre & post & ->).
    exists pre, post. split; f_equal; len.
Qed.

Lemma step_app r b1 b2 r' : step r (b1 ++ b2) r' <-> exists r1, step r b1 r1 /\ step r1 b2 r'.
Proof.
  split.
  - intros (pre & post & -> & ->).
    exists (mkReader (pre ++ b1 ++ b2 ++ post) (lenN pre + lenN b1)). split.
    + exists pre, (b2 ++ post). rewrite <- app_assoc. by split.
    + exists (pre ++ b1), post. rewrite <- !app_assoc. split; f_equal; len.
  - intros (r1 & (pre & post & -> & Hr1) & (pre' & post' & Hr1' & ->)).
    rewrite Hr1 in Hr1'. injection Hr1' as Heq Hl.
    assert (Hp : pre ++ b1 = pre' /\ post = b2 ++ post').
    { apply app_inj_1; [|by rewrite <- app_assoc].
      unfold lenN in Hl. rewrite length_app. lia. }
    destruct Hp as [<- ->]. exists pre, post'. rewrite <- !app_assoc.
    split; f_equal; len.
Qed.

Lemma step_take r bs r' : wf r -> lenN bs <= usize_max ->
  take (lenN bs) r = Ok (bs, r') <-> step r bs r'.
Proof.
  intros Hw Hb. destruct (wf_split r Hw) as (pre & post & ->). destruct Hw as [_ Hf].
  unfold take. cbn [offset bytes] in *.
  unfold checked_add_usize. split.
  - destruct (_ <=? _) eqn:Hc; [|done]. cbn [ok_or]. rewrite ok_bind.
    destruct (_ <? _) eqn:Hlt; [done|]. intros [= Hs <-]. boolp. rewrite <- (takeN_dropN (lenN bs) post).
    rewrite slice_app_r, N.sub_diag in Hs by lia.
    replace (lenN pre + lenN bs - lenN pre) with (lenN bs) in Hs by lia.
    unfold slice in Hs. rewrite dropN_0, N.sub_0_r in Hs. rewrite Hs.
    by exists pre, (dropN (lenN bs) post).
  - intros (pre' & post' & Heq & ->). injection Heq as Heq Hl.
    assert (Hp : pre = pre' /\ post = bs ++ post')
      by (apply app_inj_1; [unfold lenN in Hl; lia|done]).
    destruct Hp as [<- ->]. unfold fits, isize_max, usize_max, u64_max in *. rewrite !lenN_app in *.
    ndec. cbn [ok_or]. rewrite ok_bind. ndec. do 2 f_equal. by apply slice_app.
Qed.

Lemma take_len n r bs r' : take n r = Ok (bs, r') -> wf r -> lenN bs = n.
Proof.
  unfold take. intros H [Hw _]. unfold checked_add_usize in H.
  destruct (_ <=? _) eqn:Hc; [|done]. cbn [ok_or] in H. rewrite ok_bind in H.
  destruct (_ <? _) eqn:Hlt; [done|]. injection H as <- _. boolp. rewrite lenN_slice; lia.
Qed.

#[export] Instance take_parses n :
  Parses (take n) (fun a bs => a = bs /\ lenN bs = n).
Proof.
  intros r a r' Hw. split.
  - intros H. pose proof (take_len _ _ _ _ H Hw) as <-. exists a. split; [done|].
    apply step_take; [done| |done].
    unfold take, checked_add_usize in H. destruct (_ <=? _) eqn:Hc; [boolp; lia|done].
  - intros (bs & [-> <-] & Hs). apply step_take; [done| |done].
    destruct Hs as (pre & post & -> & _). destruct Hw as [_ Hf].
    unfold fits, isize_max, usize_max, u64_max in *. cbn in Hf. len.
Qed.

#[export] Instance ret_parses {A} (a : A) :
  Parses (mret a) (fun b bs => b = a /\ bs = []).
Proof.
  intros r b r' Hw. unfold mret, R_ret. split.
  - intros [= <- <-]. exists []. split; [done|]. by apply step_nil.
  - intros (bs & [-> ->] & Hs). by apply step_nil in Hs as ->.
Qed.

#[export] Instance bind_parses {A B} (p : R A) (k : A -> R B) W Wk :
  Parses p W -> (forall a, Parses (k a) (Wk a)) ->
  Parses (p ≫= k) (fun b bs => exists a b1 b2, W a b1 /\ Wk a b b2 /\ bs = b1 ++ b2).
Proof.
  intros Hp Hk r b r' Hw. unfold mbind, R_bind. split.
  - destruct (p r) as [[a r1]|] eqn:Hpr; [|done]. intros Hkr.
    apply Hp in Hpr as (b1 & Hb1 & Hs1); [|done].
    apply Hk in Hkr as (b2 & Hb2 & Hs2); [|by eapply step_wf].
    exists (b1 ++ b2). split; [by exists a, b1, b2|]. apply step_app. by exists r1.
  - intros (bs & (a & b1 & b2 & Hb1 & Hb2 & ->) & Hs).
    apply step_app in Hs as (r1 & Hs1 & Hs2).
    rewrite (proj2 (Hp r a r1 Hw)) by (by exists b1).
    apply Hk; [by eapply step_wf|by exists b2].
Qed.

#[export] Instance lift_parses {A} (c : result HolderProtocolError A) :
  Parses (lift c) (fun a bs => c = Ok a /\ bs = []).
Proof.
  intros r b r' Hw. unfold lift. split.
  - destruct c as [a|]; [|done]. intros [= <- <-]. exists []. split; [done|]. by apply step_nil.
  - intros (bs & [-> ->] & Hs). by apply step_nil in Hs as ->.
Qed.

#[export] Instance guard_parses c e :
  Parses (guard c e) (fun _ bs => c = false /\ bs = []).
Proof.
  intros r [] r' Hw. unfold guard. rewrite (lift_parses (check c e) r tt r' Hw).
  by setoid_rewrite check_Ok.
Qed.

#[export] Instance if_parses {A} (c : bool) (p q : R A) W W' :
  Parses p W -> Parses q W' ->
  Parses (if c then p else q) (fun a bs => if c then W a bs else W' a bs).
Proof. by destruct c. Qed.

Lemma parses_ext {A} (p : R A) (W W' : A -> Bytes.bytes -> Prop) :
  Parses p W -> (forall a bs, W a bs <-> W' a bs) -> Parses p W'.
Proof. intros Hp He r a r' Hw. rewrite (Hp r a r' Hw). by setoid_rewrite He. Qed.

(** The numeric fields. *)
Lemma num_parses {A} k (dec : Bytes.bytes -> A) (enc : A -> Bytes.bytes) (ok : A -> Prop) :
  (forall a, ok a -> dec (enc a) = a /\ lenN (enc a) = k) ->
  (forall bs, lenN bs = k -> enc (dec bs) = bs /\ ok (dec bs)) ->
  Parses (v ← take k; mret (dec v)) (fun a bs => bs = enc a /\ ok a).
Proof.
  intros H1 H2. eapply parses_ext; [apply _|]. intros a bs. cbn. split.
  - intros (v & b1 & b2 & [-> Hl] & [-> ->] & ->). rewrite app_nil_r.
    destruct (H2 b1 Hl) as [-> ?]. done.
  - intros [-> Ha]. destruct (H1 a Ha) as [Hd Hl]. exists (enc a), (enc a), [].
    by rewrite app_nil_r, Hd.
Qed.

#[export] Instance u8_parses : Parses u8 (fun a bs => bs = put_u8 a /\ is_u8 a).
Proof.
  apply (num_parses 1 be_val put_u8 is_u8).
  - intros a Ha. split; [|done]. unfold put_u8. rewrite be_val_cons, byte_val_of.
    rewrite N.mod_small by done. rewrite lenN_nil. change (be_val []) with 0. lia.
  - intros bs Hl. destruct bs as [|b [|? ?]]; [by len| |rewrite !lenN_cons in Hl; lia].
    rewrite be_val_cons, lenN_nil. change (be_val []) with 0.
    rewrite N.mul_1_r, N.add_0_r. unfold put_u8.
    rewrite byte_of_val. split; [done|]. apply byte_val_lt.
Qed.

Lemma be_parses k : Parses (v ← take (N.of_nat k); mret (be_val v))
  (fun a bs => bs = be_bytes k a /\ a < 256 ^ N.of_nat k).
Proof.
  apply num_parses.
  - intros a Ha. split; [by apply be_val_fits|apply lenN_be_bytes].
  - intros bs Hl. split; [apply be_bytes_val; unfold lenN in Hl; lia|].
    rewrite <- Hl. apply be_val_lt.
Qed.

#[export] Instance u16_parses : Parses u16 (fun a bs => bs = put_u16 a /\ is_u16 a).
Proof. exact (be_parses 2). Qed.
#[export] Instance u32_parses : Parses u32 (fun a bs => bs = put_u32 a /\ is_u32 a).
Proof. exact (be_parses 4). Qed.
#[export] Instance u64_parses : Parses u64 (fun a bs => bs = put_u64 a /\ is_u64 a).
Proof. exact (be_parses 8). Qed.

#[export] Instance i32_parses : Parses i32 (fun a bs => bs = put_i32 a /\ is_i32 a).
Proof.
  apply (num_parses 4 (fun v => i32_of (be_val v))).
  - intros a Ha. split; [by apply i32_of_be|apply lenN_i32_be].
  - intros bs Hl. assert (length bs = 4%nat) by (unfold lenN in Hl; lia).
    split; [by apply i32_be_of|by apply i32_of_range].
Qed.

#[export] Instance fixed_parses n :
  Parses (fixed n) (fun a bs => a = bs /\ lenN bs = n) := take_parses n.

(** A string field: length prefix, UTF-8, no NUL, at most [max] bytes. *)
Definition string_ok (max : N) (s : str) : Prop :=
  str_ok s /\ has_nul s = false /\ lenN s <= max /\ is_u16 (lenN s).

#[export] Instance string_parses max :
  Parses (string max) (fun s bs => bs = put_u16 (lenN s) ++ s /\ string_ok max s).
Proof.
  eapply parses_ext; [apply _|]. intros s bs. cbn. unfold string_ok. split.
  - intros (n & b1 & b2 & [-> Hn] & H & ->).
    destruct H as ([] & ? & b3 & [Hmax ->] & H & ->).
    destruct H as (raw & ? & b4 & [-> Hl] & H & ->).
    destruct H as (v & ? & b5 & [Hv ->] & H & ->).
    destruct H as ([] & ? & b6 & [Hnul ->] & [-> ->] & ->).
    apply ok_or_Ok, from_utf8_Some in Hv as [-> Hutf]. boolp.
    cbn. rewrite app_nil_r, Hl. unfold is_u16 in *. auto.
  - intros (-> & Hok & Hnul & Hmax & Hn).
    exists (lenN s), (put_u16 (lenN s)), s. split_and!; [done..| |done].
    exists tt, [], s. split_and!; [by apply N.ltb_ge|done| |done].
    exists s, s, []. split_and!; [done..| |by rewrite app_nil_r].
    exists s, [], []. split_and!; [|done| |done].
    { apply ok_or_Ok, from_utf8_Some. done. }
    exists tt, [], []. done.
Qed.

Lemma put_string_iff s max bs :
  put_string s max = Ok bs /\ str_ok s <->
  bs = put_u16 (lenN s) ++ s /\ string_ok max s /\ s <> [].
Proof.
  unfold put_string, string_ok, as_u16, is_u16, u16_max. split.
  - intros [H Hs]. inv_ok. boolp. rewrite N.mod_small in H by lia.
    split_and!; try done; [lia|]. intros ->. done.
  - intros (-> & (Hs & Hn & Hm & Hl) & Hne). split; [|done].
    assert (lenN s <> 0) by (intros ?%lenN_0_inv; done).
    change (2 ^ 16) with 65536 in *. ndec. rewrite Hn. by rewrite N.mod_small by lia.
Qed.

Lemma put_string_allow_empty_iff s max bs :
  put_string_allow_empty s max = Ok bs /\ str_ok s <->
  bs = put_u16 (lenN s) ++ s /\ string_ok max s.
Proof.
  unfold put_string_allow_empty, string_ok, as_u16, is_u16, u16_max. split.
  - intros [H Hs]. inv_ok. boolp. rewrite N.mod_small in H by lia.
    split_and!; try done. change (2 ^ 16) with 65536. lia.
  - intros (-> & (Hs & Hn & Hm & Hl)). split; [|done].
    change (2 ^ 16) with 65536 in *. ndec. rewrite Hn. by rewrite N.mod_small by lia.
Qed.

(** A one-byte tag, 0 or 1, and what follows it. *)
#[export] Instance tag_parses {A} (p0 p1 : R A) W0 W1 :
  Parses p0 W0 -> Parses p1 W1 ->
  Parses (tag ← u8; match tag with 0 => p0 | 1 => p1 | _ => lift (Err InvalidField) end)
    (fun a bs => (exists t, bs = put_u8 0 ++ t /\ W0 a t) \/
                 (exists t, bs = put_u8 1 ++ t /\ W1 a t)) | 0.
Proof.
  intros H0 H1.
  eapply parses_ext; [refine (bind_parses _ _ _ (fun tag a bs =>
    tag = 0 /\ W0 a bs \/ tag = 1 /\ W1 a bs) u8_parses _)|].
  - intros tag r a r' Hw. destruct tag as [|[tag|tag|]].
    + rewrite (H0 r a r' Hw). naive_solver.
    + split; [done|naive_solver].
    + split; [done|naive_solver].
    + rewrite (H1 r a r' Hw). naive_solver.
  - intros a bs. cbn. split.
    + intros (tag & b1 & b2 & [-> _] & [[-> H]|[-> H]] & ->); eauto.
    + intros [(t & -> & H)|(t & -> & H)].
      * exists 0, (put_u8 0), t. naive_solver.
      * exists 1, (put_u8 1), t. naive_solver.
Qed.

#[export] Instance flag_parses :
  Parses flag (fun b bs => bs = put_u8 (if b then 1 else 0)).
Proof.
  eapply parses_ext; [unfold flag; apply _|]. intros b bs. cbn. split.
  - intros [(t & -> & -> & ->)|(t & -> & -> & ->)]; done.
  - intros ->. destruct b; [right|left]; by exists [].
Qed.

#[export] Instance optional_string_parses max :
  Parses (optional_string max) (fun o bs =>
    match o with
    | None => bs = put_u8 0
    | Some s => bs = put_u8 1 ++ put_u16 (lenN s) ++ s /\ string_ok max s
    end).
Proof.
  eapply parses_ext; [unfold optional_string; apply _|]. intros o bs. cbn. split.
  - intros [(t & -> & -> & ->)|(t & -> & s & b1 & b2 & [-> Hs] & [-> ->] & ->)].
    + by rewrite app_nil_r.
    + by rewrite app_nil_r.
  - destruct o as [s|].
    + intros [-> Hs]. right. eexists. split; [done|]. exists s, (put_u16 (lenN s) ++ s), [].
      by rewrite app_nil_r.
    + intros ->. left. exists []. by rewrite app_nil_r.
Qed.

#[export] Instance optional_bytes_u32_parses max :
  Parses (optional_bytes_u32 max) (fun o bs =>
    match o with
    | None => bs = put_u8 0
    | Some v => bs = put_u8 1 ++ put_u32 (lenN v) ++ v /\ lenN v <= max /\ is_u32 (lenN v)
    end).
Proof.
  eapply parses_ext; [unfold optional_bytes_u32; apply _|]. intros o bs. cbn. split.
  - intros [(t & -> & -> & ->)|(t & -> & n & b1 & b2 & [-> Hn] & H & ->)];
      [by rewrite app_nil_r|].
    destruct H as ([] & ? & b3 & [Hm ->] & (v & ? & b4 & [-> <-] & [-> ->] & ->) & ->).
    boolp. cbn. by rewrite app_nil_r.
  - destruct o as [v|].
    + intros (-> & Hm & Hv). right. eexists. split; [done|].
      exists (lenN v), (put_u32 (lenN v)), v. split_and!; [done..| |done].
      exists tt, [], v. split_and!; [by apply N.ltb_ge|done| |done].
      exists v, v, []. by rewrite app_nil_r.
    + intros ->. left. exists []. by rewrite app_nil_r.
Qed.

#[export] Instance times_parses {A} n (p : R A) W :
  Parses p W ->
  Parses (times n p) (fun l bs => length l = n /\ exists bss, Forall2 W l bss /\ bs = concat bss).
Proof.
  intros Hp. induction n as [|n IH]; cbn [times].
  - eapply parses_ext; [apply _|]. intros l bs. cbn. split.
    + intros [-> ->]. split; [done|]. by exists [].
    + intros (Hl & bss & HF & ->). destruct l; [|done]. by inversion HF.
  - eapply parses_ext; [apply _|]. intros l bs. cbn. split.
    + intros (x & b1 & ? & Hx & (xs & ? & ? & (<- & bss & HF & ->) & [-> ->] & ->) & ->).
      split; [done|]. exists (b1 :: bss). rewrite app_nil_r. split; [by constructor|done].
    + intros (Hl & bss & HF & ->). destruct l as [|x xs]; [done|].
      inversion HF as [|? b1 ? bss' Hx HF' ]; subst. injection Hl as <-.
      exists x, b1, (concat bss'). split_and!; [done| |done].
      exists xs, (concat bss'), []. rewrite app_nil_r.
      split; [split; [done|]; by exists bss'|done].
Qed.

(** A decoder accepts exactly the payloads of its grammar. *)
Lemma run_iff {A} (p : R A) W payload v :
  Parses p W -> fits payload -> run p payload = Ok v <-> W v payload.
Proof.
  intros Hp Hf. assert (Hw : wf (new payload)) by (split; [cbn; lia|done]).
  unfold run. split.
  - intros H. destruct (p (new payload)) as [[a r]|] eqn:Hpr; [|done].
    rewrite ok_bind in H. apply Hp in Hpr as (bs & HW & pre & post & Hn & ->); [|done].
    unfold finish in H. cbn [offset bytes] in H. destruct (_ =? _) eqn:He; [|done].
    rewrite ok_bind in H. injection H as <-. injection Hn as -> Hz. boolp.
    symmetry in Hz. apply lenN_0_inv in Hz as ->. cbn [app] in *.
    rewrite !lenN_app, lenN_nil in He.
    assert (post = []) as -> by (apply lenN_0_inv; lia). by rewrite app_nil_r.
  - intros HW. assert (Hs : step (new payload) payload (mkReader payload (lenN payload))).
    { exists [], []. cbn. by rewrite !app_nil_r. }
    rewrite (proj2 (Hp _ v (mkReader payload (lenN payload)) Hw)) by eauto.
    rewrite ok_bind. unfold finish. cbn [offset bytes]. by rewrite N.eqb_refl.
Qed.

(** Reading a prefix of the payload. *)
Lemma prefix_iff {A} (p : R A) W payload v :
  Parses p W -> fits payload ->
  (exists r, p (new payload) = Ok (v, r)) <-> exists b post, W v b /\ payload = b ++ post.
Proof.
  intros Hp Hf. assert (Hw : wf (new payload)) by (split; [cbn; lia|done]). split.
  - intros (r & Hr). apply Hp in Hr as (b & HW & pre & post & Hn & _); [|done].
    injection Hn as -> Hz. symmetry in Hz. apply lenN_0_inv in Hz as ->. by exists b, post.
  - intros (b & post & HW & ->). exists (mkReader (b ++ post) (lenN b)).
    apply Hp; [done|]. exists b. split; [done|]. by exists [], post.
Qed.

Lemma put_optional_string_iff o max bs :
  put_optional_string o max = Ok bs /\ (forall s, o = Some s -> str_ok s) <->
  match o with
  | None => bs = put_u8 0
  | Some s => bs = put_u8 1 ++ put_u16 (lenN s) ++ s /\ string_ok max s /\ s <> []
  end.
Proof.
  destruct o as [s|]; cbn.
  - split.
    + intros [H Hs]. inv_ok.
      destruct (proj1 (put_string_iff s max x)) as (-> & ? & ?); naive_solver.
    + intros (-> & Hs & Hne).
      destruct (proj2 (put_string_iff s max (put_u16 (lenN s) ++ s))) as [-> ?]; [done|].
      naive_solver.
  - split; [intros [[= <-] _]; done|intros ->; by split].
Qed.

Lemma put_optional_bytes_u32_iff o max bs :
  max < 2 ^ 32 ->
  put_optional_bytes_u32 o max = Ok bs <->
  match o with
  | None => bs = put_u8 0
  | Some v => bs = put_u8 1 ++ put_u32 (lenN v) ++ v /\ lenN v <= max /\ is_u32 (lenN v)
  end.
Proof.
  intros Hmax. destruct o as [v|]; cbn; [|naive_solver].
  unfold as_u32, is_u32. destruct (N.leb_spec (lenN v) max).
  - rewrite N.mod_small by lia. split; [intros [= <-]; split_and!; [done|lia|lia]|].
    by intros (-> & _).
  - split; [done|]. lia.
Qed.
End Reader.

(** The instances, for the clients that name [Reader]'s operations in full. *)
#[export] Existing Instances Reader.R_ret Reader.R_bind
  Reader.take_parses Reader.ret_parses Reader.bind_parses Reader.lift_parses
  Reader.guard_parses Reader.if_parses Reader.u8_parses Reader.u16_parses Reader.u32_parses
  Reader.u64_parses Reader.i32_parses Reader.fixed_parses Reader.string_parses
  Reader.flag_parses Reader.optional_string_parses
  Reader.optional_bytes_u32_parses Reader.times_parses.
#[export] Existing Instance Reader.tag_parses | 0.
#[global] Typeclasses Opaque Reader.u8 Reader.u16 Reader.u32 Reader.u64 Reader.i32
  Reader.fixed Reader.string Reader.optional_string Reader.optional_bytes_u32
  Reader.flag Reader.times Reader.lift Reader.guard.

(** ** Automation for grammars *)

(** Open a grammar hypothesis: all fields, with their ranges. *)
Ltac pinv :=
  cbn beta iota in *;
  repeat match goal with
  | H : exists _, _ |- _ => destruct H
  | H : _ /\ _ |- _ => destruct H
  | H : @eq unit _ _ |- _ => clear H
  | H : Ok _ = Ok _ |- _ => injection H as H
  | H : ok_or _ _ = Ok _ |- _ => apply ok_or_Ok in H
  | H : (_, _) = (_, _) |- _ => injection H; clear H; intros
  | x : unit |- _ => destruct x
  end; boolp; simplify_eq; rewrite ?app_nil_r in *.

(** Build a grammar goal one field at a time: [pex a] gives the value of the
    next field, [pguard] passes a guard, [pend] closes the grammar. *)
Ltac pleaf := first [ reflexivity | split; [reflexivity|] | split; [|reflexivity] ].
Ltac pex a := exists a; eexists _, _; split; [pleaf; try done|split].
Ltac pguard := pex tt.
Ltac pnorm := cbn [app]; rewrite ?app_nil_r, <- ?app_assoc; reflexivity.
Ltac pend := try done; try (split; reflexivity); try first [reflexivity | pnorm].
Ltac pclose := split_and!; try done; try (f_equal; pnorm).

(** ** Strict codecs: what one side of the protocol promises the other *)

(** [decode] accepts exactly the encodings of the values in the type's
    invariant [ok]: it inverts [encode], and no two byte strings mean the same. *)
Class StrictCodec {A} (encode : A -> result HolderProtocolError bytes)
    (decode : bytes -> result HolderProtocolError A) (ok : A -> Prop) : Prop :=
  { strict_iff p v : fits p -> decode p = Ok v <-> ok v /\ encode v = Ok p }.

Lemma strict_canonical {A} encode decode (ok : A -> Prop) p q v :
  StrictCodec encode decode ok -> fits p -> fits q ->
  decode p = Ok v -> decode q = Ok v -> p = q.
Proof.
  intros Hs Hp Hq [_ H1]%(strict_iff p v Hp) [_ H2]%(strict_iff q v Hq). congruence.
Qed.

(** The usual proof: [decode] runs a reader whose grammar is [W]. *)
Lemma strict_intro {A} encode (p : Reader.R A) W (ok : A -> Prop) :
  Reader.Parses p W -> (forall v bs, W v bs <-> ok v /\ encode v = Ok bs) ->
  StrictCodec encode (Reader.run p) ok.
Proof. intros Hp He. split. intros bs v Hf. rewrite (Reader.run_iff p W bs v Hp Hf). apply He. Qed.

(** A decoder that validates what it read. *)
Lemma strict_checked {A} encode (p : Reader.R A) W (ok : A -> Prop) (bad : A -> bool) e :
  Reader.Parses p W -> (forall v bs, W v bs /\ bad v = false <-> ok v /\ encode v = Ok bs) ->
  StrictCodec encode
    (fun payload => v ← Reader.run p payload; if bad v then Err e else Ok v) ok.
Proof.
  intros Hp He. split. intros bs v Hf. rewrite <- He, <- (Reader.run_iff p W bs v Hp Hf). split.
  - intros H. inv_ok. by subst.
  - intros [-> Hb]. by rewrite ok_bind, Hb.
Qed.

(** A decoder that first checks the length of the payload. *)
Lemma strict_sized {A} encode decode (ok : A -> Prop) n err :
  StrictCodec encode decode ok ->
  (forall v bs, ok v -> encode v = Ok bs -> lenN bs = n) ->
  StrictCodec encode
    (fun payload => if negb (lenN payload =? n) then Err (err payload) else decode payload) ok.
Proof.
  intros Hs Hl. split. intros bs v Hf. rewrite <- (strict_iff bs v Hf). split.
  - intros H. by inv_ok.
  - intros H. destruct (proj1 (strict_iff bs v Hf) H) as [Hok He].
    by rewrite (Hl _ _ Hok He), N.eqb_refl.
Qed.

(** Round trip without canonicity: for decoders that ignore some bytes. *)
Definition Decodes {A} (encode : A -> result HolderProtocolError bytes)
    (decode : bytes -> result HolderProtocolError A) (ok : A -> Prop) : Prop :=
  forall v p, ok v -> fits p -> encode v = Ok p -> decode p = Ok v.

Lemma strict_decodes {A} encode decode (ok : A -> Prop) :
  StrictCodec encode decode ok -> Decodes encode decode ok.
Proof. intros Hs v p Hok Hf He. by apply (strict_iff p v Hf). Qed.

(** A decoder that validates with a fallible function. *)
Lemma strict_validated {A} encode (p : Reader.R A) W (ok good : A -> Prop)
    (validate : A -> result HolderProtocolError A) :
  Reader.Parses p W ->
  (forall v v', validate v = Ok v' <-> v' = v /\ good v) ->
  (forall v bs, W v bs /\ good v <-> ok v /\ encode v = Ok bs) ->
  StrictCodec encode (fun payload => v ← Reader.run p payload; validate v) ok.
Proof.
  intros Hp Hv He. split. intros bs v Hf. rewrite <- He, <- (Reader.run_iff p W bs v Hp Hf). split.
  - intros H. inv_ok. apply Hv in H as [-> ?]. done.
  - intros [-> Hg]. rewrite ok_bind. by apply Hv.
Qed.
