(* ===== verification/HolderFrame.v ===== *)
(** * HolderFrame: frames of the holder protocol and their reassembly.

    Models [crates/persist-ipc/src/holder/mod.rs] (constants, message types,
    [HolderFrame]) and [holder/frame.rs] ([encode_frame*], [decode_frame*],
    [HolderFrameAccumulator]).  A method on [&mut self] that fails leaves the
    accumulator as it was, so it returns the new accumulator only on success. *)
From S2P Require Import Prelude Bytes Utf8 HolderWire.
From Stdlib Require Import Lia.
Import Reader(Parses, parses_iff, R, guard, lift, wf).
Import String.StringSyntax.
Local Open Scope N_scope.

Module HolderFrame.

Definition HOLDER_MAGIC : bytes := lit "PSHH".
Definition HOLDER_PROTOCOL_MAJOR : N := 1.
Definition HOLDER_PROTOCOL_BASELINE_MINOR : N := 1.
Definition HOLDER_PROTOCOL_MINOR : N := 2.
Definition HOLDER_CAPABILITY_ENVIRONMENT_CONTEXT : N := 1.
Definition HOLDER_HEADER_SIZE : N := 32.
Definition MAX_HOLDER_CONTROL_FRAME : N := 1024 * 1024.
Definition MAX_HOLDER_IO_FRAME : N := 64 * 1024.
Definition MAX_HOLDER_ACCUMULATOR : N := MAX_HOLDER_CONTROL_FRAME + HOLDER_HEADER_SIZE.

Inductive HolderMessageType : Type :=
| ControlHello | ControlHelloAck | Error | Capability | CapabilityResp
| Inventory | InventoryResp | Create | CreateResp | Close | CloseResp | Kill | KillResp
| ShutdownAll | ShutdownAllResp | GetExitContext | GetExitContextResp
| RetireExited | RetireExitedResp
| SessionStarted | SessionExited | WriterChanged | LogDegraded
| DataHello | DataHelloAck | Attach | AttachResp | Detach
| Input | Output | Resize | Signal | WriteGranted | WriteRevoked.

#[export] Instance HolderMessageType_eq_dec : EqDecision HolderMessageType.
Proof. solve_decision. Defined.

(** [self as u16] *)
Definition to_u16 (t : HolderMessageType) : N :=
  match t with
  | ControlHello => 0x0001 | ControlHelloAck => 0x0002 | Error => 0x0003
  | Capability => 0x0004 | CapabilityResp => 0x0005
  | Inventory => 0x0010 | InventoryResp => 0x0011 | Create => 0x0012 | CreateResp => 0x0013
  | Close => 0x0014 | CloseResp => 0x0015 | Kill => 0x0016 | KillResp => 0x0017
  | ShutdownAll => 0x0018 | ShutdownAllResp => 0x0019
  | GetExitContext => 0x001a | GetExitContextResp => 0x001b
  | RetireExited => 0x001c | RetireExitedResp => 0x001d
  | SessionStarted => 0x0020 | SessionExited => 0x0021 | WriterChanged => 0x0022
  | LogDegraded => 0x0023
  | DataHello => 0x0100 | DataHelloAck => 0x0101
  | Attach => 0x0110 | AttachResp => 0x0111 | Detach => 0x0112
  | Input => 0x0120 | Output => 0x0121 | Resize => 0x0122 | Signal => 0x0123
  | WriteGranted => 0x0124 | WriteRevoked => 0x0125
  end.

Definition from_u16 (value : N) : option HolderMessageType :=
  match value with
  | 0x0001 => Some ControlHello
  | 0x0002 => Some ControlHelloAck
  | 0x0003 => Some Error
  | 0x0004 => Some Capability
  | 0x0005 => Some CapabilityResp
  | 0x0010 => Some Inventory
  | 0x0011 => Some InventoryResp
  | 0x0012 => Some Create
  | 0x0013 => Some CreateResp
  | 0x0014 => Some Close
  | 0x0015 => Some CloseResp
  | 0x0016 => Some Kill
  | 0x0017 => Some KillResp
  | 0x0018 => Some ShutdownAll
  | 0x0019 => Some ShutdownAllResp
  | 0x001a => Some GetExitContext
  | 0x001b => Some GetExitContextResp
  | 0x001c => Some RetireExited
  | 0x001d => Some RetireExitedResp
  | 0x0020 => Some SessionStarted
  | 0x0021 => Some SessionExited
  | 0x0022 => Some WriterChanged
  | 0x0023 => Some LogDegraded
  | 0x0100 => Some DataHello
  | 0x0101 => Some DataHelloAck
  | 0x0110 => Some Attach
  | 0x0111 => Some AttachResp
  | 0x0112 => Some Detach
  | 0x0120 => Some Input
  | 0x0121 => Some Output
  | 0x0122 => Some Resize
  | 0x0123 => Some Signal
  | 0x0124 => Some WriteGranted
  | 0x0125 => Some WriteRevoked
  | _ => None
  end.

Definition max_payload (t : HolderMessageType) : N :=
  match t with Input | Output => MAX_HOLDER_IO_FRAME | _ => MAX_HOLDER_CONTROL_FRAME end.

Record HolderFrame : Type := mkFrame {
  message_type : HolderMessageType;
  flags : N;
  request_id : N;
  generation : N;
  payload : bytes;
}.

Definition validate_minor (minor : N) : result HolderProtocolError unit :=
  if (HOLDER_PROTOCOL_BASELINE_MINOR <=? minor) && (minor <=? HOLDER_PROTOCOL_MINOR)
  then Ok tt else Err VersionMismatch.

Definition frame_header (f : HolderFrame) (minor payload_len : N) : bytes :=
  HOLDER_MAGIC ++ Reader.put_u16 HOLDER_PROTOCOL_MAJOR ++ Reader.put_u16 minor ++
  Reader.put_u32 payload_len ++ Reader.put_u16 (to_u16 (message_type f)) ++
  Reader.put_u16 (flags f) ++ Reader.put_u32 (request_id f) ++
  Reader.put_u64 (generation f) ++ Reader.put_u32 0.

#[global] Arguments frame_header : simpl never.

Definition encode_frame_with_minor (f : HolderFrame) (minor : N)
  : result HolderProtocolError bytes :=
  _ ← validate_minor minor;
  if negb (flags f =? 0) then Err InvalidField
  else if max_payload (message_type f) <? lenN (payload f) then Err PayloadTooLarge
  else if u32_max <? lenN (payload f) then Err PayloadTooLarge
  else Ok (frame_header f minor (lenN (payload f)) ++ payload f).

Definition encode_frame (f : HolderFrame) : result HolderProtocolError bytes :=
  encode_frame_with_minor f HOLDER_PROTOCOL_BASELINE_MINOR.

(** The reads of [decode_frame_with_minor], up to the payload: the declared
    payload length and a frame without its payload. *)
Definition read_header (expected_minor : N) : R (N * (HolderMessageType * N * N * N)) :=
  magic ← Reader.fixed 4;
  _ ← guard (negb (bool_decide (magic = HOLDER_MAGIC))) InvalidMagic;
  major ← Reader.u16;
  _ ← guard (negb (major =? HOLDER_PROTOCOL_MAJOR)) VersionMismatch;
  minor ← Reader.u16;
  _ ← guard (negb (minor =? expected_minor)) VersionMismatch;
  payload_len ← Reader.u32;
  code ← Reader.u16;
  message_type ← lift (ok_or (from_u16 code) UnknownMessageType);
  flags ← Reader.u16;
  request_id ← Reader.u32;
  generation ← Reader.u64;
  _ ← guard (negb (flags =? 0)) InvalidField;
  reserved ← Reader.u32;
  _ ← guard (negb (reserved =? 0)) InvalidField;
  mret (payload_len, (message_type, flags, request_id, generation)).

Definition decode_frame_with_minor (bs : bytes) (expected_minor : N)
  : result HolderProtocolError HolderFrame :=
  _ ← validate_minor expected_minor;
  if lenN bs <? HOLDER_HEADER_SIZE then Err Truncated
  else
    '(header, _) ← read_header expected_minor (Reader.new bs);
    let '(payload_len, (message_type, flags, request_id, generation)) := header in
    if max_payload message_type <? payload_len then Err PayloadTooLarge
    else
      expected ← ok_or (checked_add_usize HOLDER_HEADER_SIZE payload_len) PayloadTooLarge;
      if lenN bs <? expected then Err Truncated
      else if expected <? lenN bs then Err Trailing
      else Ok (mkFrame message_type flags request_id generation (dropN HOLDER_HEADER_SIZE bs)).

Definition decode_frame (bs : bytes) : result HolderProtocolError HolderFrame :=
  decode_frame_with_minor bs HOLDER_PROTOCOL_BASELINE_MINOR.

(** ** [HolderFrameAccumulator] *)

Record HolderFrameAccumulator : Type := mkAccumulator { buffer : bytes }.

Definition new : HolderFrameAccumulator := mkAccumulator [].

Definition feed (acc : HolderFrameAccumulator) (bs : bytes)
  : result HolderProtocolError HolderFrameAccumulator :=
  new_len ← ok_or (checked_add_usize (lenN (buffer acc)) (lenN bs)) PayloadTooLarge;
  if MAX_HOLDER_ACCUMULATOR <? new_len then Err PayloadTooLarge
  else Ok (mkAccumulator (buffer acc ++ bs)).

Definition try_read_supported (acc : HolderFrameAccumulator)
  : result HolderProtocolError (option (N * HolderFrame) * HolderFrameAccumulator) :=
  if lenN (buffer acc) <? HOLDER_HEADER_SIZE then Ok (None, acc)
  else
    let payload_len := be_val (slice (buffer acc) 8 12) in
    if MAX_HOLDER_CONTROL_FRAME <? payload_len then Err PayloadTooLarge
    else
      frame_len ← ok_or (checked_add_usize HOLDER_HEADER_SIZE payload_len) PayloadTooLarge;
      if lenN (buffer acc) <? frame_len then Ok (None, acc)
      else
        let minor := be_val (slice (buffer acc) 6 8) in
        frame ← decode_frame_with_minor (takeN frame_len (buffer acc)) minor;
        Ok (Some (minor, frame), mkAccumulator (dropN frame_len (buffer acc))).

(** On [VersionMismatch] the frame has been drained already; the caller drops
    the connection with its accumulator. *)
Definition try_read_with_minor (acc : HolderFrameAccumulator) (minor : N)
  : result HolderProtocolError (option HolderFrame * HolderFrameAccumulator) :=
  '(value, acc') ← try_read_supported acc;
  match value with
  | Some (actual, frame) =>
      if actual =? minor then Ok (Some frame, acc') else Err VersionMismatch
  | None => Ok (None, acc')
  end.

Definition try_read (acc : HolderFrameAccumulator)
  : result HolderProtocolError (option HolderFrame * HolderFrameAccumulator) :=
  try_read_with_minor acc HOLDER_PROTOCOL_BASELINE_MINOR.

(** [while let Some(frame) = acc.try_read_supported()?]: each frame takes at
    least the header from the buffer, so its length is enough fuel. *)
Fixpoint read_all (fuel : nat) (acc : HolderFrameAccumulator)
  : result HolderProtocolError (list (N * HolderFrame) * HolderFrameAccumulator) :=
  match fuel with
  | O => Ok ([], acc)
  | S fuel' =>
    '(value, acc') ← try_read_supported acc;
    match value with
    | None => Ok ([], acc')
    | Some frame => '(frames, acc'') ← read_all fuel' acc'; Ok (frame :: frames, acc'')
    end
  end.

(** One read from the socket: feed the chunk, take out every complete frame. *)
Definition receive (acc : HolderFrameAccumulator) (chunk : bytes)
  : result HolderProtocolError (list (N * HolderFrame) * HolderFrameAccumulator) :=
  acc' ← feed acc chunk;
  read_all (S (length (buffer acc'))) acc'.

Fixpoint receive_chunks (acc : HolderFrameAccumulator) (chunks : list bytes)
  : result HolderProtocolError (list (N * HolderFrame) * HolderFrameAccumulator) :=
  match chunks with
  | [] => Ok ([], acc)
  | chunk :: chunks' =>
    '(frames, acc') ← receive acc chunk;
    '(frames', acc'') ← receive_chunks acc' chunks';
    Ok (frames ++ frames', acc'')
  end.

(** ** Frames: encoding and decoding are inverse *)

Lemma from_u16_iff n t : from_u16 n = Some t <-> n = to_u16 t.
Proof.
  split; [|intros ->; by destruct t].
  destruct n as [|p]; [done|]. cbn. intros H.
  do 10 (try (destruct p as [p|p|]; try discriminate H;
              try (injection H as <-; reflexivity))).
Qed.

Lemma to_u16_range t : is_u16 (to_u16 t).
Proof. by destruct t. Qed.

#[export] Instance header_parses m :
  is_u16 m ->
  Parses (read_header m) (fun h bs =>
    let '(n, (t, fl, rid, gen)) := h in
    fl = 0 /\ is_u32 n /\ is_u32 rid /\ is_u64 gen /\
    bs = frame_header (mkFrame t 0 rid gen []) m n).
Proof.
  intros Hm. eapply Reader.parses_ext; [unfold read_header; apply _|].
  intros [n [[[t fl] rid] gen]] bs. unfold frame_header. cbn. split.
  - intros H. pinv. match goal with H : from_u16 _ = Some _ |- _ =>
      apply from_u16_iff in H as -> end.
    by split_and!.
  - intros (-> & Hn & Hrid & Hgen & ->).
    pex HOLDER_MAGIC. pguard. pex HOLDER_PROTOCOL_MAJOR. pguard. pex m. pguard.
    { by rewrite N.eqb_refl. } pex n. pex (to_u16 t). { apply to_u16_range. }
    pex t. { by apply ok_or_Ok, from_u16_iff. } pex 0. pex rid. pex gen. pguard. pex 0. pguard.
    { done. } all: first [reflexivity | pnorm].
Qed.

Lemma lenN_frame_header f m n : lenN (frame_header f m n) = HOLDER_HEADER_SIZE.
Proof. reflexivity. Qed.

Lemma validate_minor_iff m : validate_minor m = Ok tt <-> m = 1 \/ m = 2.
Proof.
  unfold validate_minor, HOLDER_PROTOCOL_BASELINE_MINOR, HOLDER_PROTOCOL_MINOR.
  destruct (N.leb_spec 1 m), (N.leb_spec m 2); cbn; split; try done; lia.
Qed.

(** The type invariant of a frame. *)
Definition frame_ok (f : HolderFrame) : Prop := is_u32 (request_id f) /\ is_u64 (generation f).

Lemma max_payload_bound t : max_payload t <= MAX_HOLDER_CONTROL_FRAME.
Proof. by destruct t. Qed.

Lemma encode_frame_iff f m bs :
  encode_frame_with_minor f m = Ok bs <->
  (m = 1 \/ m = 2) /\ flags f = 0 /\ lenN (payload f) <= max_payload (message_type f) /\
  bs = frame_header f m (lenN (payload f)) ++ payload f.
Proof.
  unfold encode_frame_with_minor. split.
  - intros H. inv_ok. boolp. split_and!; [by apply validate_minor_iff|done..].
  - intros (Hm & Hf & Hl & ->). rewrite (proj2 (validate_minor_iff m) Hm), ok_bind.
    pose proof (max_payload_bound (message_type f)) as Hb.
    unfold u32_max, MAX_HOLDER_CONTROL_FRAME in *. rewrite Hf. by ndec.
Qed.

Lemma decode_encode_iff bs m f :
  fits bs ->
  decode_frame_with_minor bs m = Ok f <-> frame_ok f /\ encode_frame_with_minor f m = Ok bs.
Proof.
  intros Hfits. rewrite encode_frame_iff. unfold decode_frame_with_minor, frame_ok. split.
  - intros H. inv_ok. apply validate_minor_iff in Hok as Hm.
    assert (Hm' : is_u16 m) by (destruct Hm as [-> | ->]; done).
    destruct x as [h r].
    assert (Hpre : exists r, read_header m (Reader.new bs) = Ok (h, r)) by eauto.
    apply (Reader.prefix_iff _ _ _ _ (header_parses m Hm') Hfits) in Hpre as (b & post & HW & ->).
    destruct h as [n [[[t fl] rid] gen]]. destruct HW as (-> & Hn & Hrid & Hgen & ->).
    inv_ok. boolp. unfold checked_add_usize in *. destruct (_ <=? _) in Hok1; [|done].
    injection Hok1 as <-. rewrite dropN_app in H by done.
    rewrite lenN_app, lenN_frame_header in *. subst f.
    cbn [message_type flags request_id generation payload].
    replace (lenN post) with n by lia. done.
  - intros ([Hrid Hgen] & Hm & Hfl & Hl & ->).
    assert (Hm' : is_u16 m) by (destruct Hm as [-> | ->]; done).
    rewrite (proj2 (validate_minor_iff m) Hm), ok_bind, lenN_app, lenN_frame_header.
    pose proof (max_payload_bound (message_type f)) as Hb.
    destruct (proj2 (Reader.prefix_iff _ _ (frame_header f m (lenN (payload f)) ++ payload f)
      (lenN (payload f), (message_type f, flags f, request_id f, generation f))
      (header_parses m Hm') Hfits)) as [r Hr].
    { exists (frame_header f m (lenN (payload f))), (payload f). rewrite Hfl.
      unfold frame_header. cbn [message_type flags request_id generation]. rewrite Hfl.
      unfold is_u32, MAX_HOLDER_CONTROL_FRAME in *. split_and!; try done. lia. }
    rewrite Hr. ndec. rewrite ok_bind. unfold checked_add_usize, usize_max, u64_max.
    unfold HOLDER_HEADER_SIZE, MAX_HOLDER_CONTROL_FRAME in *. ndec. cbn [ok_or]. rewrite ok_bind.
    ndec. rewrite dropN_app by done. by destruct f; cbn in *; subst.
Qed.

(** C29: a frame is decoded exactly from its encoding: [decode] accepts a byte
    string if and only if it is what [encode] produces for the result. *)
Theorem decode_frame_iff bs m f :
  fits bs ->
  decode_frame_with_minor bs m = Ok f <-> frame_ok f /\ encode_frame_with_minor f m = Ok bs.
Proof. apply decode_encode_iff. Qed.

(** ** Reassembly *)

Lemma header_fields f m n rest : is_u16 m -> is_u32 n ->
  be_val (slice (frame_header f m n ++ rest) 8 12) = n /\
  be_val (slice (frame_header f m n ++ rest) 6 8) = m.
Proof.
  intros Hm Hn. split.
  - rewrite <- (u32_be_val n) at 2 by done. f_equal.
  - rewrite <- (u16_be_val m) at 2 by done. f_equal.
Qed.

Lemma encode_frame_size f m enc :
  encode_frame_with_minor f m = Ok enc ->
  lenN enc = HOLDER_HEADER_SIZE + lenN (payload f) /\
  lenN (payload f) <= MAX_HOLDER_CONTROL_FRAME.
Proof.
  intros (_ & _ & Hl & ->)%encode_frame_iff. rewrite lenN_app, lenN_frame_header.
  pose proof (max_payload_bound (message_type f)). lia.
Qed.

Lemma encode_frame_fits f m enc : encode_frame_with_minor f m = Ok enc -> fits enc.
Proof.
  intros [Hl Hb]%encode_frame_size. unfold fits, isize_max.
  unfold HOLDER_HEADER_SIZE, MAX_HOLDER_CONTROL_FRAME in *. lia.
Qed.

Lemma header_len_checked n : n <= MAX_HOLDER_CONTROL_FRAME ->
  checked_add_usize HOLDER_HEADER_SIZE n = Some (HOLDER_HEADER_SIZE + n).
Proof.
  intros Hn. unfold checked_add_usize, usize_max, u64_max.
  unfold HOLDER_HEADER_SIZE, MAX_HOLDER_CONTROL_FRAME in *. by ndec.
Qed.

(** A buffer that starts with a frame yields it. *)
Lemma try_read_frame f m enc rest :
  frame_ok f -> encode_frame_with_minor f m = Ok enc ->
  try_read_supported (mkAccumulator (enc ++ rest)) = Ok (Some (m, f), mkAccumulator rest).
Proof.
  intros Hf He. pose proof (encode_frame_fits _ _ _ He) as Hfits.
  pose proof (encode_frame_size _ _ _ He) as [Hl Hb].
  pose proof (proj2 (decode_encode_iff enc m f Hfits) (conj Hf He)) as Hd.
  apply encode_frame_iff in He as (Hm & _ & _ & He).
  assert (Hm' : is_u16 m) by (destruct Hm as [-> | ->]; done).
  assert (Hn : is_u32 (lenN (payload f)))
    by (unfold is_u32, MAX_HOLDER_CONTROL_FRAME in *; lia).
  destruct (header_fields f m (lenN (payload f)) (payload f ++ rest) Hm' Hn) as [H1 H2].
  rewrite app_assoc, <- He in H1, H2.
  unfold try_read_supported. cbn [buffer]. rewrite H1, H2, lenN_app, Hl. ndec.
  rewrite header_len_checked by done. cbn [ok_or]. rewrite ok_bind. ndec.
  rewrite takeN_app, dropN_app, Hd, ok_bind by done. done.
Qed.

(** A proper prefix of a frame waits for more bytes. *)
Lemma try_read_partial f m enc b1 b2 :
  encode_frame_with_minor f m = Ok enc -> enc = b1 ++ b2 -> b2 <> [] ->
  try_read_supported (mkAccumulator b1) = Ok (None, mkAccumulator b1).
Proof.
  intros He Heq Hne. pose proof (encode_frame_size _ _ _ He) as [Hl Hb].
  assert (Hlt : lenN b1 < lenN enc).
  { rewrite Heq, lenN_app. assert (lenN b2 <> 0) by (intros ?%lenN_0_inv; done). lia. }
  unfold try_read_supported. cbn [buffer].
  destruct (N.ltb_spec (lenN b1) HOLDER_HEADER_SIZE) as [|Hge]; [done|].
  apply encode_frame_iff in He as (Hm & _ & _ & He).
  assert (Hm' : is_u16 m) by (destruct Hm as [-> | ->]; done).
  assert (Hn : is_u32 (lenN (payload f)))
    by (unfold is_u32, MAX_HOLDER_CONTROL_FRAME in *; lia).
  destruct (header_fields f m (lenN (payload f)) (payload f) Hm' Hn) as [H1 _].
  rewrite <- He, Heq, slice_app_l in H1 by (unfold HOLDER_HEADER_SIZE in Hge; lia).
  rewrite H1. ndec. rewrite header_len_checked by done. cbn [ok_or]. rewrite ok_bind. by ndec.
Qed.

(** What comes out was encoded in the buffer, and is taken out of it. *)
Lemma try_read_sound acc m f acc' :
  fits (buffer acc) -> try_read_supported acc = Ok (Some (m, f), acc') ->
  frame_ok f /\ exists enc, encode_frame_with_minor f m = Ok enc /\ buffer acc = enc ++ buffer acc'.
Proof.
  intros Hfits. unfold try_read_supported.
  destruct (_ <? HOLDER_HEADER_SIZE); [done|]. intros H. inv_ok.
  destruct (_ <? x) eqn:Hlt; [done|]. inv_ok. injection H as [= <- <-]. subst acc'.
  apply decode_encode_iff in Hok0 as [Hf He].
  - split; [done|]. eexists. split; [done|]. cbn [buffer]. by rewrite takeN_dropN.
  - unfold fits in *. rewrite lenN_takeN. lia.
Qed.

Lemma read_all_sizes fuel acc fs acc' :
  fits (buffer acc) -> read_all fuel acc = Ok (fs, acc') ->
  Forall (fun mf => lenN (payload mf.2) <= MAX_HOLDER_CONTROL_FRAME) fs.
Proof.
  revert acc fs acc'; induction fuel as [|fuel IH]; intros acc fs acc' Hf; cbn [read_all]; [by intros [= <- _]|].
  destruct (try_read_supported acc) as [[[[m f]|] acc1]|] eqn:Ht; cbn; [|by intros [= <- _]|done].
  destruct (read_all fuel acc1) as [[fs1 acc2]|] eqn:Hr; cbn; [|done]. intros [= <- _].
  destruct (try_read_sound acc m f acc1 Hf Ht) as (_ & enc & He & Hb). constructor.
  - by apply encode_frame_size in He as [_ He].
  - apply (IH acc1 fs1 acc2); [|done]. unfold fits in *. rewrite Hb, lenN_app in Hf. lia.
Qed.

(** Every frame that is received has a bounded payload. *)
Lemma receive_chunks_sizes acc chunks fs acc' :
  receive_chunks acc chunks = Ok (fs, acc') ->
  Forall (fun mf => lenN (payload mf.2) <= MAX_HOLDER_CONTROL_FRAME) fs.
Proof.
  revert acc fs acc'; induction chunks as [|chunk chunks IH]; intros acc fs acc'; cbn [receive_chunks];
    [by intros [= <- _]|].
  destruct (receive acc chunk) as [[fs1 acc1]|] eqn:Hr; cbn; [|done].
  destruct (receive_chunks acc1 chunks) as [[fs2 acc2]|] eqn:Hc; cbn; [|done]. intros [= <- _].
  apply Forall_app. split; [|by apply (IH acc1 _ acc2)]. unfold receive, feed in Hr. inv_ok. boolp. subst x.
  apply read_all_sizes in Hr; [done|].
  unfold fits, isize_max. cbn. unfold checked_add_usize, MAX_HOLDER_ACCUMULATOR in *.
  unfold MAX_HOLDER_CONTROL_FRAME, HOLDER_HEADER_SIZE in *. rewrite lenN_app.
  destruct (_ <=? usize_max); [injection Hok0 as <-; lia|done].
Qed.

(** The frames of a stream and their encodings. *)
Definition encodes (fs : list (N * HolderFrame)) (encs : list bytes) : Prop :=
  Forall2 (fun mf enc => frame_ok mf.2 /\ encode_frame_with_minor mf.2 mf.1 = Ok enc) fs encs.

(** [b] is a strict prefix of the first of the encodings still to come. *)
Definition waiting (b : bytes) (encs : list bytes) : Prop :=
  match encs with
  | [] => b = []
  | enc :: _ => exists b2, enc = b ++ b2 /\ b2 <> []
  end.

Lemma waiting_size b fs encs size :
  encodes fs encs -> waiting b encs -> Forall (fun enc => lenN enc <= size) encs ->
  lenN b <= size.
Proof.
  intros He Hw Hs. destruct encs as [|enc encs]; cbn in Hw; [subst; len|].
  destruct Hw as (b2 & -> & _). apply Forall_inv in Hs. len.
Qed.

Lemma try_read_waiting b fs encs :
  encodes fs encs -> waiting b encs ->
  try_read_supported (mkAccumulator b) = Ok (None, mkAccumulator b).
Proof.
  intros He Hw. destruct encs as [|enc encs]; cbn in Hw; [by subst|].
  destruct Hw as (b2 & Heq & Hne). inversion He as [|[m f] ? ? ? [_ Hf]]; subst.
  by eapply try_read_partial.
Qed.

(** Whatever the buffer holds of the stream is read out up to the last
    complete frame. *)
Lemma read_all_stream fuel b future fs encs :
  (length b < fuel)%nat -> encodes fs encs -> b ++ future = concat encs ->
  exists fs1 fs2 encs1 encs2 b',
    fs = fs1 ++ fs2 /\ encs = encs1 ++ encs2 /\ encodes fs2 encs2 /\
    read_all fuel (mkAccumulator b) = Ok (fs1, mkAccumulator b') /\
    b' ++ future = concat encs2 /\ waiting b' encs2.
Proof.
  revert b fs encs; induction fuel as [|fuel IH]; intros b fs encs Hfuel He Hb; [lia|].
  assert (Hw : waiting b encs \/ exists enc encs' b0, encs = enc :: encs' /\ b = enc ++ b0 /\
            b0 ++ future = concat encs').
  { destruct encs as [|enc encs]; cbn in *; [left; by apply app_eq_nil in Hb as [-> _]|].
    apply app_eq_inv in Hb as [(k & -> & Hk)|(k & -> & Hk)].
    - right. by exists enc, encs, k.
    - destruct k; [right|left; by eexists]. exists (b ++ []), encs, []. by rewrite !app_nil_r. }
  destruct Hw as [Hw|(enc & encs' & b0 & -> & -> & Hb0)].
  - exists [], fs, [], encs, b. split_and!; try done.
    cbn [read_all]. by rewrite (try_read_waiting b fs encs).
  - inversion He as [|[m f] ? fs' ? [Hf Henc] He']; subst. cbn in Hf, Henc.
    pose proof (encode_frame_size _ _ _ Henc) as [Hl _].
    destruct (IH b0 fs' encs') as (fs1 & fs2 & encs1 & encs2 & b' & -> & -> & H2 & Hr & Hb' & Hw');
      [|done..|].
    { rewrite length_app in Hfuel. unfold lenN, HOLDER_HEADER_SIZE in Hl. lia. }
    exists ((m, f) :: fs1), fs2, (enc :: encs1), encs2, b'. split_and!; try done.
    cbn [read_all]. rewrite (try_read_frame f m) by done. by rewrite ok_bind, Hr, ok_bind.
Qed.

(** Frames survive any chunking of the byte stream.  Reading a stream of
    encoded frames in arbitrary chunks yields exactly those frames in order
    and leaves nothing behind, provided a chunk and the longest frame fit the
    accumulator together (a smaller frame always does with the 64 KiB reads
    of [Connection::read_frames]). *)
Theorem receive_chunks_frames fs encs chunks size chunk_size :
  encodes fs encs -> concat chunks = concat encs ->
  Forall (fun enc => lenN enc <= size) encs ->
  Forall (fun chunk => lenN chunk <= chunk_size) chunks ->
  size + chunk_size <= MAX_HOLDER_ACCUMULATOR ->
  receive_chunks new chunks = Ok (fs, new).
Proof.
  intros He Hc Hs Hcs Hlim. assert (Hw : waiting [] encs).
  { destruct encs as [|enc encs]; [done|]. exists enc. split; [done|].
    intros ->. inversion He as [|[m f] ? ? ? [_ Hf]]; subst.
    apply encode_frame_size in Hf as [Hl _]. rewrite lenN_nil in Hl.
    unfold HOLDER_HEADER_SIZE in Hl. cbn in Hl. lia. }
  change (concat chunks) with ([] ++ concat chunks) in Hc. unfold new.
  revert fs encs Hw He Hc Hs. generalize (@nil byte) at 1 2 3 as b.
  induction chunks as [|chunk chunks IH]; intros b fs encs Hw He Hc Hs; cbn [receive_chunks].
  - cbn in Hc. rewrite app_nil_r in Hc. destruct encs as [|enc encs]; cbn in Hw.
    + inversion He. by subst.
    + destruct Hw as (b2 & -> & Hne). exfalso. cbn in Hc. rewrite <- app_assoc in Hc.
      rewrite <- (app_nil_r b) in Hc at 1. apply app_inv_head in Hc.
      destruct b2; done.
  - apply Forall_cons in Hcs as [Hcs1 Hcs].
    pose proof (waiting_size _ _ _ _ He Hw Hs) as Hb.
    assert (Hlb : lenN b + lenN chunk <= MAX_HOLDER_ACCUMULATOR) by lia.
    cbn [concat] in Hc. rewrite app_assoc in Hc.
    destruct (read_all_stream (S (length (b ++ chunk))) (b ++ chunk) (concat chunks) fs encs)
      as (fs1 & fs2 & encs1 & encs2 & b' & -> & -> & He2 & Hr & Hb' & Hw'); [lia|done..|].
    unfold receive, feed. cbn [buffer].
    assert (Hcheck : checked_add_usize (lenN b) (lenN chunk) = Some (lenN b + lenN chunk)).
    { unfold checked_add_usize, usize_max, u64_max.
      unfold MAX_HOLDER_ACCUMULATOR, MAX_HOLDER_CONTROL_FRAME, HOLDER_HEADER_SIZE in Hlb.
      by ndec. }
    rewrite Hcheck. cbn [ok_or]. rewrite ok_bind. ndec. rewrite ok_bind. cbn [buffer].
    rewrite Hr, ok_bind. rewrite (IH Hcs b' fs2 encs2); [done..|]. by apply Forall_app in Hs as [_ ?].
Qed.

(** Without that margin a valid stream is refused: the read that
    completes a frame of maximum size is rejected as soon as it also brings a
    byte of the next frame. *)
Theorem feed_rejects_after_max_frame f m enc b tail next_bytes :
  encode_frame_with_minor f m = Ok enc -> lenN (payload f) = MAX_HOLDER_CONTROL_FRAME ->
  enc = b ++ tail -> next_bytes <> [] ->
  feed (mkAccumulator b) (tail ++ next_bytes) = Err PayloadTooLarge.
Proof.
  intros [Hl _]%encode_frame_size Hm -> Hne. rewrite lenN_app in Hl. unfold feed. cbn [buffer].
  unfold checked_add_usize. destruct (_ <=? usize_max); [|done]. cbn [ok_or]. rewrite ok_bind.
  rewrite lenN_app. assert (lenN next_bytes <> 0) by (intros ?%lenN_0_inv; done).
  unfold MAX_HOLDER_ACCUMULATOR, HOLDER_HEADER_SIZE in *. by ndec.
Qed.

(** ** Concrete inputs *)

Definition sample_frame : HolderFrame := mkFrame Input 0 7 3 (lit "ls").
Definition sample_encoding : bytes := frame_header sample_frame 2 2 ++ lit "ls".

Lemma decode_frame_iff_witness :
  decode_frame_with_minor sample_encoding 2 = Ok sample_frame <->
  frame_ok sample_frame /\ encode_frame_with_minor sample_frame 2 = Ok sample_encoding.
Proof. apply (decode_frame_iff sample_encoding 2 sample_frame). by vm_compute. Defined.

Lemma sample_encodes : encodes [(2, sample_frame); (2, sample_frame)]
  [sample_encoding; sample_encoding].
Proof. repeat constructor. Qed.

Lemma receive_chunks_frames_witness :
  receive_chunks new [takeN 9 sample_encoding; dropN 9 sample_encoding ++ takeN 33 sample_encoding;
                      dropN 33 sample_encoding] =
  Ok ([(2, sample_frame); (2, sample_frame)], new).
Proof.
  apply (receive_chunks_frames _ _ _ 34 60 sample_encodes); [|repeat constructor..|]; by vm_compute.
Defined.

Lemma bytes_of_length (n : N) : exists p : bytes, lenN p = n.
Proof. exists (replicate (N.to_nat n) Byte.x00). rewrite lenN_replicate. apply N2Nat.id. Qed.

Lemma feed_rejects_after_max_frame_witness :
  exists f enc, encode_frame_with_minor f 1 = Ok enc /\
    feed (mkAccumulator []) (enc ++ [Byte.x50]) = Err PayloadTooLarge.
Proof.
  destruct (bytes_of_length MAX_HOLDER_CONTROL_FRAME) as [p Hp].
  assert (He : encode_frame_with_minor (mkFrame Create 0 1 1 p) 1 =
            Ok (frame_header (mkFrame Create 0 1 1 p) 1 (lenN p) ++ p)).
  { apply encode_frame_iff. cbn [payload message_type flags max_payload]. rewrite Hp. auto. }
  exists (mkFrame Create 0 1 1 p), (frame_header (mkFrame Create 0 1 1 p) 1 (lenN p) ++ p).
  split; [exact He|].
  exact (feed_rejects_after_max_frame _ 1 _ [] _ [Byte.x50] He Hp eq_refl ltac:(discriminate)).
Defined.
End HolderFrame.
