(* ===== verification/Environment.v ===== *)
(** * Environment: which variables of a shell are saved, and with what limits.

    Models [crates/persist-core/src/shell_state/environment.rs] with its
    [environment/launch.rs] and [environment/unique.rs].  [BTreeMap] and
    [BTreeSet] are finite maps and sets (no operation here depends on their
    order).  [serde_json] is a parameter: [SnapshotJson] gives the encoder and
    the parse of a text into an object whose [env_set] and [env_unset] still
    hold their entries in the order of the text; the visitors of [unique.rs]
    that turn them into maps and sets are modelled. *)
From S2P Require Import Prelude Bytes Utf8.
From stdpp Require Import sorting.
From Stdlib Require Import Lia.
Import String.StringSyntax.
Local Open Scope N_scope.

Module Environment.

Definition SHELL_ENVIRONMENT_FORMAT_VERSION : N := 1.
Definition SHELL_ENVIRONMENT_POLICY_VERSION : N := 1.
Definition MAX_SHELL_ENVIRONMENT_VARIABLES : N := 128.
Definition MAX_SHELL_ENVIRONMENT_NAME_BYTES : N := 128.
Definition MAX_SHELL_ENVIRONMENT_VALUE_BYTES : N := 8 * 1024.
Definition MAX_SHELL_ENVIRONMENT_BYTES : N := 64 * 1024.

Definition CONNECTION_NAMES : list str :=
  [lit "COLORTERM"; lit "DISPLAY"; lit "SSH_AUTH_SOCK"; lit "SSH_CLIENT";
   lit "SSH_CONNECTION"; lit "SSH_TTY"; lit "TERM"; lit "WAYLAND_DISPLAY"].
Definition BASE_NAMES : list str :=
  [lit "HOME"; lit "LOGNAME"; lit "OLDPWD"; lit "PATH"; lit "PWD"; lit "SHELL";
   lit "SHLVL"; lit "USER"; lit "_"].
Definition SENSITIVE_MARKERS : list str :=
  [lit "ACCESS_KEY"; lit "API_KEY"; lit "COOKIE"; lit "CREDENTIAL"; lit "PASSWORD";
   lit "PASSWD"; lit "PRIVATE_KEY"; lit "SECRET"; lit "TOKEN"].

Inductive EnvironmentCaptureStatus : Type := Complete | Preserved | Unavailable.

#[export] Instance EnvironmentCaptureStatus_eq_dec : EqDecision EnvironmentCaptureStatus.
Proof. solve_decision. Defined.

Record EnvironmentSnapshot : Type := mkSnapshot {
  format_version : N;
  policy_version : N;
  policy_fingerprint : str;
  env_set : gmap str str;
  env_unset : gset str;
  capture_status : EnvironmentCaptureStatus;
}.

Record EnvironmentPolicy : Type := mkPolicy {
  include : list str;
  max_variables : N;
  max_bytes : N;
  fingerprint : str;
}.

(** ** Names and rules *)

Definition underscore : byte := Byte.x5f.
Definition star : byte := Byte.x2a.

Definition name_byte (b : byte) : bool := bool_decide (b = underscore) || is_ascii_alphanumeric b.

Definition valid_name (name : str) : bool :=
  (lenN name <=? MAX_SHELL_ENVIRONMENT_NAME_BYTES) &&
  match name with
  | [] => false
  | b :: _ => bool_decide (b = underscore) || is_ascii_alphabetic b
  end &&
  forallb name_byte name.

Definition mem (s : str) (l : list str) : bool := bool_decide (s ∈ l).

Definition hard_denied (name : str) : bool :=
  let upper := to_ascii_uppercase name in
  mem upper CONNECTION_NAMES || mem upper BASE_NAMES ||
  starts_with (lit "XDG_") upper || starts_with (lit "PERSIST_") upper ||
  existsb (fun marker => contains marker upper) SENSITIVE_MARKERS.

Definition ends_with_star (s : str) : bool :=
  match strip_suffix_byte star s with Some _ => true | None => false end.

Definition count_stars (s : str) : N := N.of_nat (length (filter (fun b : byte => b = star) s)).

Definition validate_rule (rule : str) : result persist_error unit :=
  let name := default rule (strip_suffix_byte star rule) in
  if (lenN name =? 0) ||
     ((if ends_with_star rule then 1 else 0) <? count_stars rule) ||
     negb (valid_name name) || hard_denied name
  then invalid_argument "environment include rule is invalid or forbidden"
  else Ok tt.

Definition rule_matches (rule name : str) : bool :=
  match strip_suffix_byte star rule with
  | None => bool_decide (rule = name)
  | Some prefix => starts_with prefix name
  end.

Definition validate_entry (name value : str) : result persist_error unit :=
  if negb (valid_name name) || (MAX_SHELL_ENVIRONMENT_VALUE_BYTES <? lenN value) || has_nul value
  then invalid_argument "environment snapshot entry is invalid"
  else Ok tt.

Definition hex_digit (b : byte) : bool :=
  is_ascii_digit b || ((0x61 <=? byte_val b) && (byte_val b <=? 0x66)).

Definition valid_fingerprint (value : str) : bool := (lenN value =? 16) && forallb hex_digit value.

(** ** The fingerprint of a policy: 64-bit FNV-1a *)

Definition fnv_step (hash byte : N) : N := (N.lxor hash byte * 0x100000001b3) mod 2 ^ 64.

Definition to_hex (n : N) : byte := byte_of (if n <? 10 then 0x30 + n else 0x57 + n).

(** [format!("{hash:016x}")] *)
Definition hex16 (hash : N) : str :=
  map (fun i => to_hex (N.land (N.shiftr hash (4 * (15 - N.of_nat i))) 15)) (seq 0 16).

Definition fingerprint_bytes (include : list str) (max_variables max_bytes : N) : bytes :=
  u32_be SHELL_ENVIRONMENT_POLICY_VERSION ++ u64_be max_variables ++ u64_be max_bytes ++
  concat (map (fun rule => rule ++ [Byte.x00]) include).

Definition fingerprint_of (include : list str) (max_variables max_bytes : N) : str :=
  hex16 (fold_left (fun hash b => fnv_step hash (byte_val b))
           (fingerprint_bytes include max_variables max_bytes) 0xcbf29ce484222325).

(** ** [EnvironmentPolicy] *)

(** [windows(2).any(|pair| pair[0] == pair[1])] *)
Fixpoint adjacent_equal (l : list str) : bool :=
  match l with
  | a :: (b :: _) as l' => bool_decide (a = b) || adjacent_equal l'
  | _ => false
  end.

Definition exact_rules (rules : list str) : list str :=
  filter (fun rule : str => ends_with_star rule = false) rules.

Definition policy_new (include : list str) (max_variables max_bytes : N)
  : result persist_error EnvironmentPolicy :=
  if (max_variables =? 0) || (MAX_SHELL_ENVIRONMENT_VARIABLES <? max_variables)
  then invalid_argument "environment variable limit is invalid"
  else if (max_bytes =? 0) || (MAX_SHELL_ENVIRONMENT_BYTES <? max_bytes)
  then invalid_argument "environment byte limit is invalid"
  else
    let normalized := merge_sort str_le include in
    if adjacent_equal normalized
    then invalid_argument "environment include rules contain duplicates"
    else
      _ ← collect_ok validate_rule normalized;
      let required_names : gset str := list_to_set (lit "LANG" :: exact_rules normalized) in
      if max_variables <? N.of_nat (size required_names)
      then invalid_argument "environment variable limit is below exact include count"
      else Ok (mkPolicy normalized max_variables max_bytes
                 (fingerprint_of normalized max_variables max_bytes)).

Definition allows (policy : EnvironmentPolicy) (name : str) : bool :=
  if negb (valid_name name) || hard_denied name then false
  else bool_decide (name = lit "LANG") || starts_with (lit "LC_") name ||
       existsb (fun rule => rule_matches rule name) (include policy).

Definition exact_names (policy : EnvironmentPolicy) : list str :=
  lit "LANG" :: exact_rules (include policy).

(** ** [serde_json], and the visitors of unique.rs *)

(** A parsed object: its map and array fields still as sequences. *)
Record RawSnapshot : Type := mkRaw {
  raw_format_version : N;
  raw_policy_version : N;
  raw_policy_fingerprint : str;
  raw_env_set : list (str * str);
  raw_env_unset : list str;
  raw_capture_status : EnvironmentCaptureStatus;
}.

Class SnapshotJson : Type := {
  to_vec : EnvironmentSnapshot -> option bytes;
  from_text : bytes -> option RawSnapshot;
}.

(** What the code relies on: the encoder's text parses to the same fields, in
    some order of the entries. *)
Class SnapshotJsonLaws `{SnapshotJson} : Prop :=
  from_to s text : to_vec s = Some text -> exists set unset,
    from_text text = Some (mkRaw (format_version s) (policy_version s) (policy_fingerprint s)
                             set unset (capture_status s)) /\
    set ≡ₚ map_to_list (env_set s) /\ unset ≡ₚ elements (env_unset s).

(** [UniqueMapVisitor::visit_map] *)
Fixpoint visit_map (values : gmap str str) (entries : list (str * str)) : option (gmap str str) :=
  match entries with
  | [] => Some values
  | (name, value) :: entries' =>
      match values !! name with
      | Some _ => None
      | None => visit_map (<[name := value]> values) entries'
      end
  end.

(** [UniqueSetVisitor::visit_seq] *)
Fixpoint visit_seq (values : gset str) (names : list str) : option (gset str) :=
  match names with
  | [] => Some values
  | name :: names' =>
      if decide (name ∈ values) then None else visit_seq ({[name]} ∪ values) names'
  end.

Section json.
Context `{SnapshotJson}.

(** [serde_json::from_slice::<EnvironmentSnapshot>] *)
Definition from_slice (text : bytes) : option EnvironmentSnapshot :=
  raw ← from_text text;
  set ← visit_map ∅ (raw_env_set raw);
  unset ← visit_seq ∅ (raw_env_unset raw);
  Some (mkSnapshot (raw_format_version raw) (raw_policy_version raw)
          (raw_policy_fingerprint raw) set unset (raw_capture_status raw)).

Definition entry_count (s : EnvironmentSnapshot) : N :=
  N.of_nat (size (env_set s)) + N.of_nat (size (env_unset s)).

Definition is_empty (s : EnvironmentSnapshot) : bool :=
  bool_decide (env_set s = ∅) && bool_decide (env_unset s = ∅).

Definition validate (s : EnvironmentSnapshot) (max_variables max_bytes : N)
  : result persist_error unit :=
  if negb (format_version s =? SHELL_ENVIRONMENT_FORMAT_VERSION) ||
     negb (policy_version s =? SHELL_ENVIRONMENT_POLICY_VERSION) ||
     negb (valid_fingerprint (policy_fingerprint s))
  then invalid_argument "environment snapshot version or fingerprint is invalid"
  else if max_variables <? entry_count s
  then invalid_argument "environment snapshot has too many variables"
  else if negb (bool_decide (dom (env_set s) ## env_unset s))
  then invalid_argument "environment snapshot set and unset overlap"
  else
    _ ← collect_ok (fun '(name, value) => validate_entry name value) (map_to_list (env_set s));
    _ ← collect_ok (fun name => validate_entry name []) (elements (env_unset s));
    if bool_decide (capture_status s = Unavailable) && negb (is_empty s)
    then invalid_argument "unavailable environment snapshot contains values"
    else
      encoded ← ok_or (to_vec s) (InvalidArgument "encode environment snapshot: {error}");
      if max_bytes <? lenN encoded
      then invalid_argument "environment snapshot exceeds size limit"
      else Ok tt.

Definition validate_hard_limits (s : EnvironmentSnapshot) : result persist_error unit :=
  validate s MAX_SHELL_ENVIRONMENT_VARIABLES MAX_SHELL_ENVIRONMENT_BYTES.

Definition filter_snapshot (policy : EnvironmentPolicy) (s : EnvironmentSnapshot)
  : result persist_error EnvironmentSnapshot :=
  _ ← validate_hard_limits s;
  let set := filter (fun entry => allows policy entry.1 = true) (env_set s) in
  let unset := filter (fun name => allows policy name = true) (env_unset s) in
  let changed := negb (bool_decide (policy_fingerprint s = fingerprint policy)) ||
    negb (bool_decide (set = env_set s)) || negb (bool_decide (unset = env_unset s)) in
  let filtered := mkSnapshot SHELL_ENVIRONMENT_FORMAT_VERSION SHELL_ENVIRONMENT_POLICY_VERSION
    (fingerprint policy) set unset (if changed then Preserved else capture_status s) in
  _ ← validate filtered (max_variables policy) (max_bytes policy);
  Ok filtered.

Definition capture (policy : EnvironmentPolicy) (previous : option EnvironmentSnapshot)
    (current : gmap str str) : result persist_error EnvironmentSnapshot :=
  let set := filter (fun entry => allows policy entry.1 = true) current in
  let tracked : gset str := list_to_set (exact_names policy) ∪
    match previous with Some p => dom (env_set p) ∪ env_unset p | None => ∅ end in
  let unset := filter (fun name => allows policy name = true /\ set !! name = None) tracked in
  let snapshot := mkSnapshot SHELL_ENVIRONMENT_FORMAT_VERSION SHELL_ENVIRONMENT_POLICY_VERSION
    (fingerprint policy) set unset Complete in
  _ ← validate snapshot (max_variables policy) (max_bytes policy);
  Ok snapshot.

Definition with_status (s : EnvironmentSnapshot) (status : EnvironmentCaptureStatus)
  : EnvironmentSnapshot :=
  mkSnapshot (format_version s) (policy_version s) (policy_fingerprint s)
    (env_set s) (env_unset s) status.

Definition fallback (policy : EnvironmentPolicy) (previous : option EnvironmentSnapshot)
  : result persist_error EnvironmentSnapshot :=
  let unavailable := mkSnapshot SHELL_ENVIRONMENT_FORMAT_VERSION
    SHELL_ENVIRONMENT_POLICY_VERSION (fingerprint policy) ∅ ∅ Unavailable in
  let give_unavailable :=
    _ ← validate unavailable (max_variables policy) (max_bytes policy); Ok unavailable in
  match previous with
  | Some p =>
      if bool_decide (policy_fingerprint p = fingerprint policy) && negb (is_empty p) then
        if is_ok (validate (with_status p Preserved) (max_variables policy) (max_bytes policy))
        then Ok (with_status p Preserved) else give_unavailable
      else give_unavailable
  | None => give_unavailable
  end.

Definition preserved (s : EnvironmentSnapshot) : result persist_error EnvironmentSnapshot :=
  if is_empty s then invalid_argument "empty environment snapshot cannot be preserved"
  else _ ← validate_hard_limits (with_status s Preserved); Ok (with_status s Preserved).

Definition encode_environment_snapshot (s : EnvironmentSnapshot) : result persist_error bytes :=
  _ ← validate_hard_limits s;
  encoded ← ok_or (to_vec s) (InvalidArgument "encode environment snapshot: {error}");
  if MAX_SHELL_ENVIRONMENT_BYTES <? lenN encoded
  then invalid_argument "environment snapshot exceeds size limit"
  else Ok encoded.

Definition decode_environment_snapshot (encoded : bytes)
  : result persist_error EnvironmentSnapshot :=
  if MAX_SHELL_ENVIRONMENT_BYTES <? lenN encoded
  then invalid_argument "environment snapshot exceeds size limit"
  else
    snapshot ← ok_or (from_slice encoded)
      (InvalidArgument "decode environment snapshot: {error}");
    _ ← validate_hard_limits snapshot;
    Ok snapshot.
End json.

(** ** Names *)

Lemma allows_valid policy name :
  allows policy name = true -> valid_name name = true /\ hard_denied name = false.
Proof. unfold allows. destruct (valid_name name), (hard_denied name); done. Qed.

Lemma to_hex_digit n : n < 16 -> hex_digit (to_hex n) = true.
Proof.
  intros Hn. unfold hex_digit, to_hex, is_ascii_digit.
  destruct (N.ltb_spec n 10); rewrite byte_val_of, N.mod_small by lia.
  - by ndec.
  - apply orb_true_iff. right. by ndec.
Qed.

Lemma hex16_valid h : valid_fingerprint (hex16 h) = true.
Proof.
  unfold valid_fingerprint, hex16. apply andb_true_iff. split; [by unfold lenN; rewrite length_map|].
  apply forallb_forall. intros b Hb. apply in_map_iff in Hb as (i & <- & _). apply to_hex_digit.
  change 15 with (N.ones 4). rewrite N.land_ones. by apply N.mod_lt.
Qed.

(** ** Policies *)

(** What [EnvironmentPolicy::new] establishes. *)
Record policy_ok (p : EnvironmentPolicy) : Prop := {
  policy_variables : 0 < max_variables p <= MAX_SHELL_ENVIRONMENT_VARIABLES;
  policy_bytes : 0 < max_bytes p <= MAX_SHELL_ENVIRONMENT_BYTES;
  policy_rules : NoDup (include p) /\ Forall (fun rule => validate_rule rule = Ok tt) (include p);
  policy_names : N.of_nat (size (list_to_set (exact_names p) : gset str)) <= max_variables p;
  policy_hash : fingerprint p = fingerprint_of (include p) (max_variables p) (max_bytes p);
}.

Lemma adjacent_equal_NoDup l : Sorted str_le l -> adjacent_equal l = false -> NoDup l.
Proof.
  intros Hs%Sorted_StronglySorted; [|apply _].
  induction Hs as [|a l Hs IH Ha]; intros Hd; [constructor|].
  constructor.
  - destruct l as [|b l]; [by intros ?%not_elem_of_nil|]. cbn in Hd. boolp.
    intros [->|Hin]%elem_of_cons; [done|].
    inversion Hs as [|? ? _ Hb]; subst. rewrite Forall_forall in Hb.
    apply Forall_inv in Ha. apply H. apply (anti_symm str_le); [done|by apply Hb].
  - apply IH. destruct l; [done|]. cbn in Hd. by boolp.
Qed.

Lemma policy_new_ok include vars bytes p : policy_new include vars bytes = Ok p -> policy_ok p.
Proof.
  unfold policy_new. intros H. inv_ok. boolp. subst p.
  assert (Hs : Sorted str_le (merge_sort str_le include)) by (apply Sorted_merge_sort; apply _).
  split; cbn [Environment.include max_variables max_bytes fingerprint exact_names]; try done.
  - lia.
  - lia.
  - split; [by apply adjacent_equal_NoDup|].
    apply collect_ok_Forall2 in Hok. apply Forall_forall. intros rule Hin.
    apply list_elem_of_lookup in Hin as [i Hi].
    destruct (Forall2_lookup_l _ _ _ _ _ Hok Hi) as ([] & _ & Hr). done.
Qed.

(** Building a policy normalises it: it does not depend on the order of
    the include rules, and what it returns has distinct valid rules, limits
    within the hard limits and room for every exactly named variable. *)
Theorem policy_new_normalises include include' vars bytes :
  include ≡ₚ include' ->
  policy_new include vars bytes = policy_new include' vars bytes /\
  forall p, policy_new include vars bytes = Ok p -> policy_ok p.
Proof.
  intros Hp. split; [|apply policy_new_ok]. unfold policy_new.
  replace (merge_sort str_le include') with (merge_sort str_le include); [done|].
  apply (Sorted_unique str_le); [by apply Sorted_merge_sort, _..|].
  by rewrite !merge_sort_Permutation.
Qed.

Lemma policy_new_normalises_witness :
  policy_new [lit "B*"; lit "A"] 8 1024 = policy_new [lit "A"; lit "B*"] 8 1024 /\
  forall p, policy_new [lit "B*"; lit "A"] 8 1024 = Ok p -> policy_ok p.
Proof. apply (policy_new_normalises [lit "B*"; lit "A"] [lit "A"; lit "B*"]). constructor. Defined.

(** ** The visitors of unique.rs *)

Lemma visit_map_Some values entries m :
  visit_map values entries = Some m <->
  NoDup entries.*1 /\ (forall n, n ∈ entries.*1 -> values !! n = None) /\
  m = list_to_map entries ∪ values.
Proof.
  revert values; induction entries as [|[n v] entries IH]; intros values; cbn [visit_map].
  - split.
    + intros [= <-]. split_and!; [constructor|by intros n ?%not_elem_of_nil|].
      by rewrite list_to_map_nil, (left_id_L ∅ (∪)).
    + intros (_ & _ & ->). by rewrite list_to_map_nil, (left_id_L ∅ (∪)).
  - cbn. destruct (values !! n) as [w|] eqn:Hn.
    + split; [done|]. intros (_ & Hno & _). rewrite Hno in Hn; [done|left].
    + rewrite IH, NoDup_cons.
      assert (Hins : n ∉ entries.*1 ->
        <[n := v]> (list_to_map entries : gmap str str) ∪ values =
        list_to_map entries ∪ <[n := v]> values).
      { intros Hni. rewrite <- insert_union_l. apply insert_union_r.
        by apply not_elem_of_list_to_map. }
      split.
      * intros (Hd & Hno & ->).
        assert (Hni : n ∉ entries.*1).
        { intros Hin. specialize (Hno n Hin). by rewrite lookup_insert_eq in Hno. }
        split_and!; [done|done| |by rewrite Hins].
        intros n' [->|Hin]%elem_of_cons; [done|].
        specialize (Hno n' Hin). by apply lookup_insert_None in Hno as [? _].
      * intros ([Hni Hd] & Hno & ->). split_and!; [done| |by apply Hins].
        intros n' Hin. apply lookup_insert_None. split; [apply Hno; by right|].
        intros ->. done.
Qed.

Lemma visit_seq_Some values names m :
  visit_seq values names = Some m <->
  NoDup names /\ (forall n, n ∈ names -> n ∉ values) /\ m = list_to_set names ∪ values.
Proof.
  revert values; induction names as [|n names IH]; intros values; cbn [visit_seq list_to_set].
  - split.
    + intros [= <-]. split_and!; [constructor|by intros n ?%not_elem_of_nil|set_solver].
    + intros (_ & _ & ->). f_equal. set_solver.
  - rewrite NoDup_cons. destruct (decide (n ∈ values)) as [Hn|Hn].
    + split; [done|]. intros (_ & Hno & _). destruct (Hno n); [left|done].
    + rewrite IH. split.
      * intros (Hd & Hno & ->). split_and!; [|done| |set_solver].
        -- intros Hin. specialize (Hno n Hin). set_solver.
        -- intros n' [->|Hin]%elem_of_cons; [done|]. specialize (Hno n' Hin). set_solver.
      * intros ([Hni Hd] & Hno & ->). split_and!; [done| |set_solver].
        intros n' Hin. specialize (Hno n'). set_solver.
Qed.

(** ** Snapshots *)

Definition entry_ok (name value : str) : Prop :=
  valid_name name = true /\ lenN value <= MAX_SHELL_ENVIRONMENT_VALUE_BYTES /\
  has_nul value = false.

Lemma validate_entry_iff name value : validate_entry name value = Ok tt <-> entry_ok name value.
Proof.
  unfold validate_entry, entry_ok.
  destruct (valid_name name), (N.ltb_spec MAX_SHELL_ENVIRONMENT_VALUE_BYTES (lenN value)),
    (has_nul value); cbn; split; try done; intuition lia.
Qed.

Lemma collect_unit {A} (f : A -> result persist_error unit) l :
  (exists us, collect_ok f l = Ok us) <-> Forall (fun x => f x = Ok tt) l.
Proof.
  split.
  - intros [us H%collect_ok_Forall2]. induction H as [|? []]; by constructor.
  - intros H. exists (map (fun _ => tt) l). apply collect_ok_Forall2.
    induction H; simpl; by constructor.
Qed.

(** The invariant [validate] checks. *)
Record snapshot_ok `{SnapshotJson} (s : EnvironmentSnapshot) (vars bytes : N) : Prop := {
  snap_format : format_version s = SHELL_ENVIRONMENT_FORMAT_VERSION;
  snap_policy : policy_version s = SHELL_ENVIRONMENT_POLICY_VERSION;
  snap_fingerprint : valid_fingerprint (policy_fingerprint s) = true;
  snap_count : entry_count s <= vars;
  snap_disjoint : dom (env_set s) ## env_unset s;
  snap_set : map_Forall entry_ok (env_set s);
  snap_unset : set_Forall (fun name => valid_name name = true) (env_unset s);
  snap_unavailable : capture_status s = Unavailable -> is_empty s = true;
  snap_size : exists text, to_vec s = Some text /\ lenN text <= bytes;
}.

Section snapshots.
Context `{SnapshotJson}.

Lemma validate_iff s vars bytes : validate s vars bytes = Ok tt <-> snapshot_ok s vars bytes.
Proof.
  unfold validate. split.
  - intros Hv. inv_ok. boolp.
    assert (Hs := proj1 (collect_unit _ _) (ex_intro _ _ Hok)).
    assert (Hu := proj1 (collect_unit _ _) (ex_intro _ _ Hok0)).
    split; try done.
    + apply map_Forall_to_list. eapply Forall_impl; [exact Hs|].
      intros [n v] Hnv. by apply validate_entry_iff.
    + apply set_Forall_elements. eapply Forall_impl; [exact Hu|].
      intros n Hn%validate_entry_iff. apply Hn.
    + intros Hc. rewrite (bool_decide_eq_true_2 _ Hc) in Hif2. cbn in Hif2. by boolp.
    + eauto.
  - intros [-> -> -> Hcount Hdis Hset Hunset Hun (text & -> & Hlen)].
    rewrite !N.eqb_refl. cbn [orb negb]. ndec. rewrite (bool_decide_eq_true_2 _ Hdis). cbn [negb].
    destruct (proj2 (collect_unit (fun '(n, v) => validate_entry n v)
      (map_to_list (env_set s)))) as [us ->].
    { apply map_Forall_to_list in Hset. eapply Forall_impl; [exact Hset|].
      intros [n v] Hnv. by apply validate_entry_iff. }
    rewrite ok_bind.
    destruct (proj2 (collect_unit (fun n => validate_entry n []) (elements (env_unset s))))
      as [us' ->].
    { apply set_Forall_elements in Hunset. eapply Forall_impl; [exact Hunset|].
      intros n Hn. apply validate_entry_iff. by split_and!. }
    rewrite ok_bind. replace (_ && _) with false.
    + cbn [ok_or]. rewrite ok_bind. by ndec.
    + symmetry. destruct (decide (capture_status s = Unavailable)) as [Hc|Hc].
      * rewrite (Hun Hc), andb_comm. done.
      * by rewrite (bool_decide_eq_false_2 _ Hc).
Qed.

Lemma snapshot_ok_le s vars bytes vars' bytes' :
  vars <= vars' -> bytes <= bytes' -> snapshot_ok s vars bytes -> snapshot_ok s vars' bytes'.
Proof.
  intros Hv Hb [? ? ? ? ? ? ? ? (text & ? & ?)]. split; try done; [lia|].
  exists text. split; [done|lia].
Qed.

(** A capture records exactly the allowed part of the environment: the
    set variables are the allowed current ones, the unset names are the
    tracked allowed names that are not set, and no name that is reserved or
    looks like a secret is saved. *)
Theorem capture_exact policy previous current s :
  capture policy previous current = Ok s ->
  (forall n v, env_set s !! n = Some v <-> current !! n = Some v /\ allows policy n = true) /\
  (forall n, n ∈ env_unset s <-> allows policy n = true /\ current !! n = None /\
     (n ∈ exact_names policy \/
      exists p, previous = Some p /\ (n ∈ dom (env_set p) \/ n ∈ env_unset p))) /\
  (forall n, n ∈ dom (env_set s) ∪ env_unset s -> valid_name n = true /\ hard_denied n = false) /\
  capture_status s = Complete /\ snapshot_ok s (max_variables policy) (max_bytes policy).
Proof.
  unfold capture. intros Hc. inv_ok. apply validate_iff in Hok. subst s. cbn [env_set env_unset].
  set (set := filter _ current) in *. set (tracked := _ ∪ _) in *.
  assert (Hset : forall n v, set !! n = Some v <-> current !! n = Some v /\ allows policy n = true)
    by (intros n v; apply map_lookup_filter_Some).
  assert (Hun : forall n, n ∈ filter (fun name => allows policy name = true /\ set !! name = None)
            tracked <-> allows policy n = true /\ current !! n = None /\ n ∈ tracked).
  { intros n. rewrite elem_of_filter. unfold set. rewrite map_lookup_filter_None. cbn [fst].
    destruct (current !! n) eqn:Hn; naive_solver. }
  split_and!; [done| |..|done|done].
  - intros n. rewrite Hun. do 2 f_equiv. unfold tracked.
    rewrite elem_of_union, elem_of_list_to_set.
    destruct previous as [p|]; set_solver.
  - intros n Hn. apply (allows_valid policy). apply elem_of_union in Hn as [Hn|Hn].
    + apply elem_of_dom in Hn as [v Hn]. by apply Hset in Hn as [_ ?].
    + by apply Hun in Hn as [? _].
Qed.

(** Filtering by a policy keeps only what the policy allows, marks the
    snapshot as preserved when it changed, and does nothing more the second
    time. *)
Theorem filter_snapshot_idempotent policy s s' :
  policy_ok policy -> filter_snapshot policy s = Ok s' ->
  env_set s' = filter (fun e => allows policy e.1 = true) (env_set s) /\
  env_unset s' = filter (fun n => allows policy n = true) (env_unset s) /\
  policy_fingerprint s' = fingerprint policy /\
  (s' = s \/ capture_status s' = Preserved) /\
  filter_snapshot policy s' = Ok s'.
Proof.
  intros Hp. unfold filter_snapshot at 1. intros Hf. inv_ok.
  apply validate_iff in Hok as Hs. apply validate_iff in Hok0 as Hs'.
  set (changed := _ || _) in *. rewrite <- Hf. cbn [env_set env_unset policy_fingerprint].
  split_and!; [done..| |].
  - destruct changed eqn:Hch; [by right|left]. unfold changed in Hch. boolp.
    destruct Hs. destruct s. cbn in *. congruence.
  - unfold filter_snapshot. cbn [env_set env_unset policy_fingerprint capture_status].
    assert (Hh : snapshot_ok s' MAX_SHELL_ENVIRONMENT_VARIABLES MAX_SHELL_ENVIRONMENT_BYTES).
    { rewrite <- Hf. eapply snapshot_ok_le; [..|exact Hs']; apply Hp. }
    rewrite <- Hf in Hh. apply validate_iff in Hh. unfold validate_hard_limits. rewrite Hh, ok_bind.
    rewrite map_filter_filter_l by done.
    assert (Hff : forall X : gset str, filter (fun n => allows policy n = true)
      (filter (fun n => allows policy n = true) X) = filter (fun n => allows policy n = true) X)
      by (intros X; apply set_eq; intros n; rewrite !elem_of_filter; naive_solver).
    rewrite Hff.
    rewrite !bool_decide_eq_true_2 by done. cbn [negb orb]. by rewrite Hok0, ok_bind.
Qed.

(** The fallback never invents a value: it is the previous snapshot of
    the same policy marked as preserved, or an empty unavailable one, and
    it always satisfies the policy's limits. *)
Theorem fallback_safe policy previous s :
  fallback policy previous = Ok s ->
  snapshot_ok s (max_variables policy) (max_bytes policy) /\
  policy_fingerprint s = fingerprint policy /\
  ((capture_status s = Unavailable /\ is_empty s = true) \/
   (exists p, previous = Some p /\ is_empty p = false /\ s = with_status p Preserved)).
Proof.
  unfold fallback. set (unavailable := mkSnapshot _ _ _ ∅ ∅ _).
  assert (Hun : forall s', (_ ← validate unavailable (max_variables policy) (max_bytes policy);
            Ok unavailable) = Ok s' ->
          snapshot_ok s' (max_variables policy) (max_bytes policy) /\ s' = unavailable).
  { intros s' Hs. inv_ok. subst s'. split; [by apply validate_iff|done]. }
  assert (Hgive : forall s', (_ ← validate unavailable (max_variables policy) (max_bytes policy);
            Ok unavailable) = Ok s' ->
          snapshot_ok s' (max_variables policy) (max_bytes policy) /\
          policy_fingerprint s' = fingerprint policy /\
          ((capture_status s' = Unavailable /\ is_empty s' = true) \/
           (exists p, previous = Some p /\ is_empty p = false /\ s' = with_status p Preserved))).
  { intros s' [Hs ->]%Hun. split_and!; [done..|]. by left. }
  destruct previous as [p|]; [|apply Hgive].
  destruct (_ && _) eqn:Hp; [|apply Hgive]. boolp.
  destruct (validate (with_status p Preserved) _ _) as [[]|] eqn:Hv; [|apply Hgive].
  cbn [is_ok]. intros [= <-]. apply validate_iff in Hv. split_and!; [done..|].
  right. by exists p.
Qed.

Context `{!SnapshotJsonLaws}.

Lemma from_slice_to_vec s text : to_vec s = Some text -> from_slice text = Some s.
Proof.
  intros (set & unset & Hparse & Hset & Hunset)%from_to.
  unfold from_slice. rewrite Hparse. cbn [mbind option_bind raw_env_set raw_env_unset].
  assert (Hk : NoDup set.*1) by (rewrite Hset; apply NoDup_fst_map_to_list).
  rewrite (proj2 (visit_map_Some ∅ set (env_set s))).
  - cbn [mbind option_bind]. rewrite (proj2 (visit_seq_Some ∅ unset (env_unset s))).
    + by destruct s.
    + split_and!; [rewrite Hunset; apply NoDup_elements|set_solver|].
      apply set_eq. intros n. rewrite elem_of_union, elem_of_list_to_set, Hunset.
      set_solver.
  - split_and!; [done|intros; apply lookup_empty|]. rewrite (right_id_L ∅ (∪)).
    symmetry. rewrite <- (list_to_map_to_list (env_set s)). by apply list_to_map_proper.
Qed.

Lemma decode_encode_snapshot s text :
  encode_environment_snapshot s = Ok text -> decode_environment_snapshot text = Ok s.
Proof.
  unfold encode_environment_snapshot, decode_environment_snapshot. intros He. inv_ok. boolp.
  subst. ndec. rewrite (from_slice_to_vec s text) by done. cbn [ok_or]. by rewrite ok_bind, Hok.
Qed.

(** A snapshot that can be encoded is decoded back to itself, and every
    text that decodes gives a snapshot within the hard limits whose text
    listed no name twice. *)
Theorem environment_snapshot_roundtrip s text :
  encode_environment_snapshot s = Ok text ->
  decode_environment_snapshot text = Ok s /\
  forall text' s', decode_environment_snapshot text' = Ok s' ->
    snapshot_ok s' MAX_SHELL_ENVIRONMENT_VARIABLES MAX_SHELL_ENVIRONMENT_BYTES /\
    forall raw, from_text text' = Some raw ->
      NoDup (raw_env_set raw).*1 /\ NoDup (raw_env_unset raw).
Proof.
  intros He. split; [by apply decode_encode_snapshot|]. unfold decode_environment_snapshot.
  - intros text' s' Hd. inv_ok. subst s'. split; [by apply validate_iff|].
    intros raw Hraw. unfold from_slice in Hok. rewrite Hraw in Hok.
    cbn [mbind option_bind] in Hok.
    destruct (visit_map ∅ _) eqn:Hm; [|done]. cbn [mbind option_bind] in Hok.
    destruct (visit_seq ∅ _) eqn:Hs; [|done].
    apply visit_map_Some in Hm. apply visit_seq_Some in Hs. tauto.
Qed.
End snapshots.

(** ** A concrete encoder, for the witnesses *)

Fixpoint encode_bits (p : positive) : bytes :=
  match p with
  | xH => [] | xO q => Byte.x30 :: encode_bits q | xI q => Byte.x31 :: encode_bits q
  end.

Fixpoint decode_bits (bs : bytes) : positive :=
  match bs with
  | [] => xH
  | b :: bs' => if bool_decide (b = Byte.x30) then xO (decode_bits bs') else xI (decode_bits bs')
  end.

Lemma decode_encode_bits p : decode_bits (encode_bits p) = p.
Proof. induction p as [p IH|p IH|]; simpl; [by rewrite IH|by rewrite IH|done]. Qed.

#[local] Instance status_countable : Countable EnvironmentCaptureStatus.
Proof.
  refine (inj_countable'
    (fun c => match c with Complete => 0 | Preserved => 1 | Unavailable => 2 end)
    (fun n => match n with 0 => Complete | 1 => Preserved | _ => Unavailable end) _).
  by intros [].
Defined.

Definition raw_of (s : EnvironmentSnapshot) : RawSnapshot :=
  mkRaw (format_version s) (policy_version s) (policy_fingerprint s)
    (map_to_list (env_set s)) (elements (env_unset s)) (capture_status s).

#[local] Instance bits_json : SnapshotJson := {|
  to_vec s := Some (encode_bits (encode (raw_format_version (raw_of s), raw_policy_version (raw_of s),
    raw_policy_fingerprint (raw_of s), raw_env_set (raw_of s), raw_env_unset (raw_of s),
    raw_capture_status (raw_of s))));
  from_text text :=
    '(f, p, h, set, unset, c) ← decode (A := N * N * str * list (str * str) * list str *
                                           EnvironmentCaptureStatus) (decode_bits text);
    Some (mkRaw f p h set unset c);
|}.

#[local] Instance bits_json_laws : SnapshotJsonLaws.
Proof.
  intros s text [= <-]. exists (map_to_list (env_set s)), (elements (env_unset s)).
  cbn [from_text bits_json]. rewrite decode_encode_bits, decode_encode. done.
Qed.

Definition sample_policy : EnvironmentPolicy :=
  mkPolicy [lit "APP_*"] 8 65536 (fingerprint_of [lit "APP_*"] 8 65536).

Definition sample_snapshot : EnvironmentSnapshot :=
  mkSnapshot 1 1 (fingerprint sample_policy) {[lit "APP_MODE" := lit "x"]} {[lit "LANG"]} Complete.

Lemma sample_policy_ok : policy_ok sample_policy.
Proof.
  apply (policy_new_ok [lit "APP_*"] 8 65536). vm_compute. reflexivity.
Qed.

Lemma capture_exact_witness :
  exists s, capture sample_policy None {[lit "APP_MODE" := lit "x"; lit "API_KEY" := lit "y"]} = Ok s /\
    env_set s !! lit "API_KEY" = None /\ lit "LANG" ∈ env_unset s.
Proof.
  assert (Hc : capture sample_policy None
    {[lit "APP_MODE" := lit "x"; lit "API_KEY" := lit "y"]} = Ok sample_snapshot)
    by (vm_compute; reflexivity).
  exists sample_snapshot. split; [exact Hc|].
  destruct (capture_exact _ _ _ _ Hc) as (Hset & Hunset & _). split.
  - apply eq_None_not_Some. intros [v Hv]. apply Hset in Hv as [_ Hv]. by vm_compute in Hv.
  - apply Hunset. split_and!; [by vm_compute..|]. left. by left.
Defined.

Lemma filter_snapshot_idempotent_witness :
  filter_snapshot sample_policy sample_snapshot = Ok sample_snapshot /\
  (sample_snapshot = sample_snapshot \/ capture_status sample_snapshot = Preserved).
Proof.
  assert (Hf : filter_snapshot sample_policy sample_snapshot = Ok sample_snapshot)
    by (vm_compute; reflexivity).
  destruct (filter_snapshot_idempotent _ _ _ sample_policy_ok Hf) as (_ & _ & _ & Hs & Hi).
  split; [exact Hi|exact Hs].
Defined.

Lemma fallback_safe_witness :
  exists s, fallback sample_policy (Some sample_snapshot) = Ok s /\
    policy_fingerprint s = fingerprint sample_policy.
Proof.
  assert (Hf : fallback sample_policy (Some sample_snapshot) =
    Ok (with_status sample_snapshot Preserved)) by (vm_compute; reflexivity).
  exists (with_status sample_snapshot Preserved). split; [exact Hf|].
  exact (proj1 (proj2 (fallback_safe _ _ _ Hf))).
Defined.

Lemma environment_snapshot_roundtrip_witness :
  exists text, encode_environment_snapshot sample_snapshot = Ok text /\
    decode_environment_snapshot text = Ok sample_snapshot.
Proof.
  assert (He : encode_environment_snapshot sample_snapshot =
    Ok (default [] (to_vec sample_snapshot))) by (vm_compute; reflexivity).
  eexists. split; [exact He|]. exact (proj1 (environment_snapshot_roundtrip _ _ He)).
Defined.
End Environment.
