(* ===== verification/LaunchEnvironment.v ===== *)
(** * LaunchEnvironment: the environment a session is started with.

    Models [crates/persist-core/src/shell_state/environment/launch.rs]: the four
    groups of variables of a [ShellLaunchEnvironment] and the validation every
    constructor runs. *)
From S2P Require Import Prelude Bytes Utf8 Environment.
From Stdlib Require Import Lia.
Import Environment(valid_name, hard_denied, mem, CONNECTION_NAMES,
  MAX_SHELL_ENVIRONMENT_BYTES, MAX_SHELL_ENVIRONMENT_VALUE_BYTES, MAX_SHELL_ENVIRONMENT_VARIABLES).
Import String.StringSyntax.
Local Open Scope N_scope.

Module LaunchEnvironment.

Record ShellLaunchEnvironment : Type := mkLaunch {
  saved_set : list (str * str);
  saved_unset : list str;
  connection : list (str * str);
  private : list (str * str);
}.

Definition legacy_set_environment (e : ShellLaunchEnvironment) : list (str * str) :=
  saved_set e ++ connection e ++ private e.

Definition entry_count (e : ShellLaunchEnvironment) : N :=
  lenN (saved_set e) + lenN (saved_unset e) + lenN (connection e) + lenN (private e).

Definition validate_pair (name value : str) : result persist_error unit :=
  if negb (valid_name name) || (MAX_SHELL_ENVIRONMENT_VALUE_BYTES <? lenN value) || has_nul value
  then invalid_argument "launch environment entry is invalid"
  else Ok tt.

Definition insert_name (names : gset str) (name : str) : result persist_error (gset str) :=
  if decide (name ∈ names) then invalid_argument "launch environment contains duplicate names"
  else Ok ({[name]} ∪ names).

Definition add_bytes (current added : N) : result persist_error N :=
  total ← ok_or (checked_add_usize current added)
            (InvalidArgument "launch environment size overflow");
  if MAX_SHELL_ENVIRONMENT_BYTES <? total
  then invalid_argument "launch environment exceeds byte limit"
  else Ok total.

(** The accumulated [names] and [bytes] of the loops of [validate]. *)
Definition account (state : gset str * N) (name : str) (size : N)
  : result persist_error (gset str * N) :=
  names ← insert_name state.1 name;
  bytes ← add_bytes state.2 size;
  Ok (names, bytes).

Definition validate_saved_set (state : gset str * N) (entry : str * str) :=
  let '(name, value) := entry in
  _ ← validate_pair name value;
  if hard_denied name then invalid_argument "saved environment contains a forbidden name"
  else account state name (lenN name + lenN value).

Definition validate_saved_unset (state : gset str * N) (name : str) :=
  if negb (valid_name name) || hard_denied name
  then invalid_argument "saved unset contains an invalid or forbidden name"
  else account state name (lenN name).

Definition validate_connection (state : gset str * N) (entry : str * str) :=
  let '(name, value) := entry in
  _ ← validate_pair name value;
  if negb (mem name CONNECTION_NAMES)
  then invalid_argument "connection environment name is not allowed"
  else account state name (lenN name + lenN value).

Definition validate_private (state : gset str * N) (entry : str * str) :=
  let '(name, value) := entry in
  _ ← validate_pair name value;
  account state name (lenN name + lenN value).

Definition validate (e : ShellLaunchEnvironment) : result persist_error unit :=
  if MAX_SHELL_ENVIRONMENT_VARIABLES <? entry_count e
  then invalid_argument "launch environment has too many entries"
  else
    state ← fold_ok validate_saved_set (∅, 0) (saved_set e);
    state ← fold_ok validate_saved_unset state (saved_unset e);
    state ← fold_ok validate_connection state (connection e);
    _ ← fold_ok validate_private state (private e);
    Ok tt.

Definition new (saved_set : list (str * str)) (saved_unset : list str)
    (connection private : list (str * str)) : result persist_error ShellLaunchEnvironment :=
  let environment := mkLaunch saved_set saved_unset connection private in
  _ ← validate environment;
  Ok environment.

Definition legacy (environment : list (str * str)) : result persist_error ShellLaunchEnvironment :=
  new [] [] [] environment.

(** ** What the validation establishes *)

Definition pair_ok (entry : str * str) : Prop :=
  valid_name entry.1 = true /\ lenN entry.2 <= MAX_SHELL_ENVIRONMENT_VALUE_BYTES /\
  has_nul entry.2 = false.

Definition pair_size (entry : str * str) : N := lenN entry.1 + lenN entry.2.

Definition total {A} (size : A -> N) (l : list A) : N := foldr (fun x n => size x + n) 0 l.

Lemma total_cons {A} (size : A -> N) x l : total size (x :: l) = size x + total size l.
Proof. reflexivity. Qed.

Definition names (e : ShellLaunchEnvironment) : list str :=
  (saved_set e).*1 ++ saved_unset e ++ (connection e).*1 ++ (private e).*1.

Record launch_ok (e : ShellLaunchEnvironment) : Prop := {
  launch_count : entry_count e <= MAX_SHELL_ENVIRONMENT_VARIABLES;
  launch_pairs : Forall pair_ok (legacy_set_environment e);
  launch_saved : Forall (fun n => valid_name n = true /\ hard_denied n = false)
                   ((saved_set e).*1 ++ saved_unset e);
  launch_connection : Forall (fun n => n ∈ CONNECTION_NAMES) (connection e).*1;
  launch_names : NoDup (names e);
  launch_bytes : total pair_size (saved_set e) + total lenN (saved_unset e) +
                 total pair_size (connection e) + total pair_size (private e)
                 <= MAX_SHELL_ENVIRONMENT_BYTES;
}.

Lemma validate_pair_iff n v : validate_pair n v = Ok tt <-> pair_ok (n, v).
Proof.
  unfold validate_pair, pair_ok. cbn [fst snd].
  destruct (valid_name n), (N.ltb_spec MAX_SHELL_ENVIRONMENT_VALUE_BYTES (lenN v)),
    (has_nul v); cbn [negb orb];
    (split; [try done; by split_and!|intros (? & ? & ?); try done; lia]).
Qed.

Lemma account_iff state n size state' : state.2 <= MAX_SHELL_ENVIRONMENT_BYTES -> size <= 65536 ->
  (account state n size = Ok state' <->
   (n ∉ state.1) /\ state.2 + size <= MAX_SHELL_ENVIRONMENT_BYTES /\
   state' = ({[n]} ∪ state.1, state.2 + size)).
Proof.
  intros Hs Hz. unfold account, insert_name, add_bytes, checked_add_usize.
  destruct (decide (n ∈ state.1)); cbn; [split; [done|by intros (? & _)]|].
  unfold usize_max, u64_max. unfold MAX_SHELL_ENVIRONMENT_BYTES in *.
  cbn [ok_or] in *. ndec. cbn [ok_or]. rewrite !ok_bind.
  destruct (N.ltb_spec (64 * 1024) (state.2 + size)); cbn.
  - split; [done|]. lia.
  - split; [by intros [= <-]|by intros (_ & _ & ->)].
Qed.

(** One loop: every entry passes its check, the names are new and distinct,
    and the sizes add up within the limit. *)
Lemma fold_account {A} (f : gset str * N -> A -> result persist_error (gset str * N))
    (ok : A -> Prop) (name : A -> str) (size : A -> N) :
  (forall state x state', state.2 <= MAX_SHELL_ENVIRONMENT_BYTES ->
    (f state x = Ok state' <-> ok x /\ (name x ∉ state.1) /\
      state.2 + size x <= MAX_SHELL_ENVIRONMENT_BYTES /\
      state' = ({[name x]} ∪ state.1, state.2 + size x))) ->
  forall l state state', state.2 <= MAX_SHELL_ENVIRONMENT_BYTES ->
    (fold_ok f state l = Ok state' <->
    Forall ok l /\ NoDup (name <$> l) /\ (forall n, n ∈ name <$> l -> n ∉ state.1) /\
    state.2 + total size l <= MAX_SHELL_ENVIRONMENT_BYTES /\
    state' = (list_to_set (name <$> l) ∪ state.1, state.2 + total size l)).
Proof.
  intros Hf. induction l as [|x l IH]; intros [ns b] state' Hs;
    cbn [fold_ok fmap list_fmap fst snd] in *.
  - cbn [total foldr list_to_set]. rewrite N.add_0_r, (left_id_L ∅ (∪)). split.
    + intros [= <-]. split_and!; [constructor..|by intros n ?%not_elem_of_nil|done|done].
    + by intros (_ & _ & _ & _ & ->).
  - rewrite Forall_cons, NoDup_cons, total_cons. split.
    + intros (s1 & (Hok & Hn & Hb & ->)%Hf & Hr)%bind_Ok_inv; [|done].
      cbn [fst snd] in *. apply IH in Hr as (HF & HN & Hd & Hb' & ->); [|done].
      cbn [fst snd] in *.
      split_and!; [done|done| |done| |lia|].
      * intros Hin. specialize (Hd _ Hin). set_solver.
      * intros n [->|Hin]%elem_of_cons; [done|]. specialize (Hd _ Hin). set_solver.
      * f_equal; [set_solver|lia].
    + intros ([Hok HF] & [Hni HN] & Hd & Hb & ->).
      rewrite (proj2 (Hf (ns, b) x ({[name x]} ∪ ns, b + size x) Hs)).
      * rewrite ok_bind. apply IH; cbn [fst snd]; [lia|]. split_and!; [done|done| |lia|f_equal; [set_solver|lia]].
        intros n Hin. specialize (Hd n). set_solver.
      * cbn [fst snd]. split_and!; [done| |lia|done]. apply Hd. left.
Qed.

Lemma pair_size_bound e : pair_ok e -> pair_size e <= 65536.
Proof.
  intros (Hn & Hv & _). unfold valid_name, pair_size in *. boolp.
  unfold Environment.MAX_SHELL_ENVIRONMENT_NAME_BYTES, MAX_SHELL_ENVIRONMENT_VALUE_BYTES in *. lia.
Qed.

Lemma name_bound n : valid_name n = true -> lenN n <= 65536.
Proof.
  unfold valid_name. intros Hn. boolp.
  unfold Environment.MAX_SHELL_ENVIRONMENT_NAME_BYTES in *. lia.
Qed.

Lemma bind_pair_iff {S} n v (k : result persist_error S) s :
  (_ ← validate_pair n v; k) = Ok s <-> pair_ok (n, v) /\ k = Ok s.
Proof.
  rewrite <- validate_pair_iff. destruct (validate_pair n v) as [[]|e]; cbn; [tauto|].
  split; [done|]. by intros [? _].
Qed.

Lemma guard_iff {S} (c : bool) (e : persist_error) (k : result persist_error S) s :
  (if c then Err e else k) = Ok s <-> c = false /\ k = Ok s.
Proof. destruct c; split; [done|by intros [? _]|done|tauto]. Qed.

(** An entry that passes its check [ok] is accounted for. *)
Lemma checked_account (ok : Prop) state n size state' :
  state.2 <= MAX_SHELL_ENVIRONMENT_BYTES -> (ok -> size <= 65536) ->
  (ok /\ account state n size = Ok state' <->
   ok /\ (n ∉ state.1) /\ state.2 + size <= MAX_SHELL_ENVIRONMENT_BYTES /\
   state' = ({[n]} ∪ state.1, state.2 + size)).
Proof.
  intros Hs Hz. split; intros [Hok H]; (split; [done|]);
    by apply (account_iff state n size state' Hs (Hz Hok)).
Qed.

Definition saved_ok (x : str * str) : Prop := pair_ok x /\ hard_denied x.1 = false.
Definition unset_ok (n : str) : Prop := valid_name n = true /\ hard_denied n = false.
Definition connection_ok (x : str * str) : Prop := pair_ok x /\ x.1 ∈ CONNECTION_NAMES.

Lemma saved_loop l state state' : state.2 <= MAX_SHELL_ENVIRONMENT_BYTES ->
  (fold_ok validate_saved_set state l = Ok state' <->
   Forall saved_ok l /\ NoDup l.*1 /\ (forall n, n ∈ l.*1 -> n ∉ state.1) /\
   state.2 + total pair_size l <= MAX_SHELL_ENVIRONMENT_BYTES /\
   state' = (list_to_set l.*1 ∪ state.1, state.2 + total pair_size l)).
Proof.
  apply fold_account. intros st [n v] st' Hs. unfold validate_saved_set.
  rewrite bind_pair_iff, guard_iff, (and_assoc (pair_ok (n, v))).
  apply (checked_account (saved_ok (n, v)) st n (pair_size (n, v)) st' Hs).
  intros [Hp _]. by apply pair_size_bound.
Qed.

Lemma unset_loop l state state' : state.2 <= MAX_SHELL_ENVIRONMENT_BYTES ->
  (fold_ok validate_saved_unset state l = Ok state' <->
   Forall unset_ok l /\ NoDup (id <$> l) /\ (forall n, n ∈ id <$> l -> n ∉ state.1) /\
   state.2 + total lenN l <= MAX_SHELL_ENVIRONMENT_BYTES /\
   state' = (list_to_set (id <$> l) ∪ state.1, state.2 + total lenN l)).
Proof.
  apply (fold_account validate_saved_unset unset_ok id lenN).
  intros st n st' Hs. unfold validate_saved_unset. rewrite guard_iff, orb_false_iff, negb_false_iff.
  apply (checked_account (unset_ok n) st n (lenN n) st' Hs). intros [Hn _]. by apply name_bound.
Qed.

Lemma connection_loop l state state' : state.2 <= MAX_SHELL_ENVIRONMENT_BYTES ->
  (fold_ok validate_connection state l = Ok state' <->
   Forall connection_ok l /\ NoDup l.*1 /\ (forall n, n ∈ l.*1 -> n ∉ state.1) /\
   state.2 + total pair_size l <= MAX_SHELL_ENVIRONMENT_BYTES /\
   state' = (list_to_set l.*1 ∪ state.1, state.2 + total pair_size l)).
Proof.
  apply fold_account. intros st [n v] st' Hs. unfold validate_connection, mem.
  rewrite bind_pair_iff, guard_iff, negb_false_iff, bool_decide_eq_true, (and_assoc (pair_ok (n, v))).
  apply (checked_account (connection_ok (n, v)) st n (pair_size (n, v)) st' Hs).
  intros [Hp _]. by apply pair_size_bound.
Qed.

Lemma private_loop l state state' : state.2 <= MAX_SHELL_ENVIRONMENT_BYTES ->
  (fold_ok validate_private state l = Ok state' <->
   Forall pair_ok l /\ NoDup l.*1 /\ (forall n, n ∈ l.*1 -> n ∉ state.1) /\
   state.2 + total pair_size l <= MAX_SHELL_ENVIRONMENT_BYTES /\
   state' = (list_to_set l.*1 ∪ state.1, state.2 + total pair_size l)).
Proof.
  apply fold_account. intros st [n v] st' Hs. unfold validate_private. rewrite bind_pair_iff.
  apply (checked_account (pair_ok (n, v)) st n (pair_size (n, v)) st' Hs).
  intros Hp. by apply pair_size_bound.
Qed.

Lemma Forall_and {A} (P Q : A -> Prop) l : Forall (fun x => P x /\ Q x) l <-> Forall P l /\ Forall Q l.
Proof. rewrite !Forall_forall. naive_solver. Qed.

Lemma validate_sound e : validate e = Ok tt -> launch_ok e.
Proof.
  destruct e as [ss su c p]. unfold validate. rewrite guard_iff.
  cbn [saved_set saved_unset connection private].
  assert (Hz : (∅ : gset str, 0).2 <= MAX_SHELL_ENVIRONMENT_BYTES) by done.
  intros [Hcount%N.ltb_ge H]. inv_ok.
  apply saved_loop in Hok as (H1 & N1 & D1 & B1 & ->); [|done].
  apply unset_loop in Hok0 as (H2 & N2 & D2 & B2 & ->); [|done].
  apply connection_loop in Hok1 as (H3 & N3 & D3 & B3 & ->); [|done].
  apply private_loop in Hok2 as (H4 & N4 & D4 & B4 & _); [|done].
  cbn [fst snd] in *. rewrite list_fmap_id in *.
  apply Forall_and in H1 as [P1 Q1]. apply Forall_and in H3 as [P3 Q3].
  split; unfold legacy_set_environment, names;
    cbn [saved_set saved_unset connection private]; [done|..|].
  - by rewrite !Forall_app.
  - rewrite Forall_app, Forall_fmap. split; [|done].
    apply Forall_and. split; [|done]. eapply Forall_impl; [exact P1|]. by intros x [? _].
  - by rewrite Forall_fmap.
  - rewrite !NoDup_app. split_and!; try done;
      intros n Hn; rewrite ?elem_of_app; intros Hin; set_solver.
  - lia.
Qed.

Lemma validate_complete e : launch_ok e -> validate e = Ok tt.
Proof.
  destruct e as [ss su c p]. intros [Hc Hp Hs Hcon Hn Hb]. unfold validate.
  unfold legacy_set_environment, names in *.
  cbn [saved_set saved_unset connection private] in *.
  rewrite !Forall_app in Hp. rewrite Forall_app in Hs. rewrite !NoDup_app in Hn.
  rewrite Forall_fmap in Hs, Hcon. destruct Hp as (P1 & P3 & P4). destruct Hs as [S1 S2].
  destruct Hn as (N1 & D1 & N2 & D2 & N3 & D3 & N4). ndec.
  pose (st1 := (list_to_set ss.*1 ∪ ∅ : gset str, 0 + total pair_size ss)).
  pose (st2 := (list_to_set su ∪ st1.1, st1.2 + total lenN su)).
  pose (st3 := (list_to_set c.*1 ∪ st2.1, st2.2 + total pair_size c)).
  pose (st4 := (list_to_set p.*1 ∪ st3.1, st3.2 + total pair_size p)).
  assert (E1 : fold_ok validate_saved_set (∅, 0) ss = Ok st1).
  { apply saved_loop; cbn [fst snd st1]; [done|]. split_and!; [|done|set_solver|lia|done].
    apply Forall_and. split; [done|]. eapply Forall_impl; [exact S1|]. by intros x [_ ?]. }
  assert (E2 : fold_ok validate_saved_unset st1 su = Ok st2).
  { apply unset_loop; cbn [fst snd st1 st2]; [lia|]. rewrite list_fmap_id.
    split_and!; [done..| |lia|done]. set_solver. }
  assert (E3 : fold_ok validate_connection st2 c = Ok st3).
  { apply connection_loop; cbn [fst snd st1 st2 st3]; [lia|].
    split_and!; [by apply Forall_and|done| |lia|done]. set_solver. }
  assert (E4 : fold_ok validate_private st3 p = Ok st4).
  { apply private_loop; cbn [fst snd st1 st2 st3 st4]; [lia|].
    split_and!; [done..| |lia|done]. set_solver. }
  by rewrite E1, ok_bind, E2, ok_bind, E3, ok_bind, E4.
Qed.

Lemma new_iff ss su c p e :
  new ss su c p = Ok e <-> e = mkLaunch ss su c p /\ launch_ok e.
Proof.
  unfold new. split.
  - intros H. inv_ok. subst e. split; [done|]. by apply validate_sound.
  - intros [-> H]. by rewrite validate_complete.
Qed.

(** A launch environment is accepted exactly when its four groups
    respect the limits: at most 128 entries of at most 64 KiB in all, no name
    in two places, no reserved or secret-looking name among the saved ones,
    and only the connection variables in the connection group. *)
Theorem launch_environment_new_iff ss su c p e :
  new ss su c p = Ok e <-> e = mkLaunch ss su c p /\ launch_ok e.
Proof. apply new_iff. Qed.
End LaunchEnvironment.
