(* ===== verification/HolderMessages.v ===== *)
(** * HolderMessages: the fixed-shape payloads of the holder protocol.

    Models [crates/persist-ipc/src/holder/handshake.rs] (the four hello
    messages), [capability.rs] (protocol negotiation) and [inventory.rs] (pages
    of session entries), with the message types of [holder/mod.rs].  Every
    codec is shown to be strict ([StrictCodec]) or, where the decoder ignores a
    field, to be inverted by the decoder. *)
From S2P Require Import Prelude Bytes Utf8 HolderWire HolderFrame.
From Stdlib Require Import Lia.
Import Reader(Parses, R, run, guard, lift, u8, u16, u32, i32, u64, fixed, flag, times,
  put_u8, put_u16, put_u32, put_i32, put_u64).
Import HolderFrame(HOLDER_PROTOCOL_BASELINE_MINOR, HOLDER_PROTOCOL_MINOR,
  HOLDER_CAPABILITY_ENVIRONMENT_CONTEXT).
Local Open Scope N_scope.

(** [[0; 16]] *)
Definition zero16 : bytes := replicate 16 Byte.x00.
#[global] Arguments zero16 : simpl never.

Definition is_zero16 (b : bytes) : bool := bool_decide (b = zero16).

Lemma is_zero16_false b : is_zero16 b = false <-> b <> zero16.
Proof. unfold is_zero16. by rewrite bool_decide_eq_false. Qed.

(** A nonce or instance identifier: 16 bytes, not all zero. *)
Definition id_ok (b : bytes) : Prop := lenN b = 16 /\ b <> zero16.

Module Handshake.

Inductive HelloStatus : Type := Accepted | VersionMismatch | PermissionDenied | Busy.

Record ControlHello : Type := mkControlHello { uid : N; daemon_pid : N; nonce : bytes }.
Record ControlHelloAck : Type := mkControlHelloAck {
  holder_pid : N; ack_instance_id : bytes; ack_nonce : bytes; status : HelloStatus }.
Record DataHello : Type := mkDataHello {
  data_daemon_pid : N; data_instance_id : bytes; data_nonce : bytes }.
Record DataHelloAck : Type := mkDataHelloAck {
  data_ack_instance_id : bytes; data_ack_nonce : bytes; data_status : HelloStatus }.

Definition CONTROL_HELLO_SIZE : N := 24.
Definition CONTROL_ACK_SIZE : N := 37.
Definition DATA_HELLO_SIZE : N := 36.
Definition DATA_ACK_SIZE : N := 33.

Definition encode_status (status : HelloStatus) : N :=
  match status with Accepted => 0 | VersionMismatch => 1 | PermissionDenied => 2 | Busy => 3 end.

Definition decode_status (value : N) : result HolderProtocolError HelloStatus :=
  match value with
  | 0 => Ok Accepted | 1 => Ok VersionMismatch | 2 => Ok PermissionDenied | 3 => Ok Busy
  | _ => Err InvalidField
  end.

Definition length_error (actual expected : N) : HolderProtocolError :=
  if actual <? expected then Truncated else Trailing.

Definition encode_control_hello (h : ControlHello) : bytes :=
  put_u32 (uid h) ++ put_u32 (daemon_pid h) ++ nonce h.

Definition read_control_hello : R ControlHello :=
  uid ← u32; daemon_pid ← u32; nonce ← fixed 16; mret (mkControlHello uid daemon_pid nonce).

Definition decode_control_hello (payload : bytes) : result HolderProtocolError ControlHello :=
  if negb (lenN payload =? CONTROL_HELLO_SIZE)
  then Err (length_error (lenN payload) CONTROL_HELLO_SIZE)
  else
    hello ← run read_control_hello payload;
    if (daemon_pid hello =? 0) || is_zero16 (nonce hello) then Err InvalidField else Ok hello.

Definition encode_control_hello_ack (a : ControlHelloAck) : bytes :=
  put_u32 (holder_pid a) ++ ack_instance_id a ++ ack_nonce a ++ put_u8 (encode_status (status a)).

Definition read_control_hello_ack : R ControlHelloAck :=
  holder_pid ← u32; instance_id ← fixed 16; nonce ← fixed 16;
  code ← u8; status ← lift (decode_status code);
  mret (mkControlHelloAck holder_pid instance_id nonce status).

Definition decode_control_hello_ack (payload : bytes)
  : result HolderProtocolError ControlHelloAck :=
  if negb (lenN payload =? CONTROL_ACK_SIZE)
  then Err (length_error (lenN payload) CONTROL_ACK_SIZE)
  else
    ack ← run read_control_hello_ack payload;
    if (holder_pid ack =? 0) || is_zero16 (ack_instance_id ack) || is_zero16 (ack_nonce ack)
    then Err InvalidField else Ok ack.

Definition encode_data_hello (h : DataHello) : bytes :=
  put_u32 (data_daemon_pid h) ++ data_instance_id h ++ data_nonce h.

Definition read_data_hello : R DataHello :=
  daemon_pid ← u32; instance_id ← fixed 16; nonce ← fixed 16;
  mret (mkDataHello daemon_pid instance_id nonce).

Definition decode_data_hello (payload : bytes) : result HolderProtocolError DataHello :=
  if negb (lenN payload =? DATA_HELLO_SIZE)
  then Err (length_error (lenN payload) DATA_HELLO_SIZE)
  else
    hello ← run read_data_hello payload;
    if (data_daemon_pid hello =? 0) || is_zero16 (data_instance_id hello) ||
       is_zero16 (data_nonce hello)
    then Err InvalidField else Ok hello.

Definition encode_data_hello_ack (a : DataHelloAck) : bytes :=
  data_ack_instance_id a ++ data_ack_nonce a ++ put_u8 (encode_status (data_status a)).

Definition read_data_hello_ack : R DataHelloAck :=
  instance_id ← fixed 16; nonce ← fixed 16;
  code ← u8; status ← lift (decode_status code);
  mret (mkDataHelloAck instance_id nonce status).

Definition decode_data_hello_ack (payload : bytes) : result HolderProtocolError DataHelloAck :=
  if negb (lenN payload =? DATA_ACK_SIZE)
  then Err (length_error (lenN payload) DATA_ACK_SIZE)
  else
    ack ← run read_data_hello_ack payload;
    if is_zero16 (data_ack_instance_id ack) || is_zero16 (data_ack_nonce ack)
    then Err InvalidField else Ok ack.

(** ** The codecs are strict *)

Definition control_hello_ok (h : ControlHello) : Prop :=
  is_u32 (uid h) /\ is_u32 (daemon_pid h) /\ daemon_pid h <> 0 /\ id_ok (nonce h).
Definition control_hello_ack_ok (a : ControlHelloAck) : Prop :=
  is_u32 (holder_pid a) /\ holder_pid a <> 0 /\ id_ok (ack_instance_id a) /\ id_ok (ack_nonce a).
Definition data_hello_ok (h : DataHello) : Prop :=
  is_u32 (data_daemon_pid h) /\ data_daemon_pid h <> 0 /\ id_ok (data_instance_id h) /\
  id_ok (data_nonce h).
Definition data_hello_ack_ok (a : DataHelloAck) : Prop :=
  id_ok (data_ack_instance_id a) /\ id_ok (data_ack_nonce a).

Lemma decode_status_iff n s : decode_status n = Ok s <-> n = encode_status s.
Proof.
  split; [|intros ->; by destruct s].
  destruct n as [|[[p|p|]|[p|p|]|]]; cbn; intros [= <-]; done.
Qed.

Lemma encode_status_u8 s : is_u8 (encode_status s).
Proof. by destruct s. Qed.

Lemma control_hello_strict :
  StrictCodec (fun h => Ok (encode_control_hello h)) decode_control_hello control_hello_ok.
Proof.
  apply strict_sized; [eapply strict_checked; [unfold read_control_hello; apply _|]|].
  - intros [u d n] bs. unfold encode_control_hello, control_hello_ok, id_ok. cbn.
    rewrite orb_false_iff, N.eqb_neq, is_zero16_false. split.
    + intros [H ?]. pinv. pclose.
    + intros [(? & ? & ? & ? & ?) [= <-]]. split; [|done].
      pex u. pex d. pex n. all: pend.
  - intros [u d n] bs (_ & _ & _ & Hn & _) [= <-]. unfold encode_control_hello, CONTROL_HELLO_SIZE.
    cbn [uid daemon_pid nonce] in *. len.
Qed.

Lemma control_hello_ack_strict :
  StrictCodec (fun a => Ok (encode_control_hello_ack a)) decode_control_hello_ack
    control_hello_ack_ok.
Proof.
  apply strict_sized; [eapply strict_checked; [unfold read_control_hello_ack; apply _|]|].
  - intros [h i n s] bs. unfold encode_control_hello_ack, control_hello_ack_ok, id_ok. cbn.
    rewrite !orb_false_iff, N.eqb_neq, !is_zero16_false. split.
    + intros [H ?]. pinv. repeat match goal with H : decode_status _ = _ |- _ =>
        apply decode_status_iff in H as -> end. pclose.
    + intros [(? & ? & (? & ?) & ? & ?) [= <-]]. split; [|done].
      pex h. pex i. pex n. pex (encode_status s). { by destruct s. }
      pex s. { by apply decode_status_iff. } all: pend.
  - intros [h i n s] bs (_ & _ & [Hi _] & [Hn _]) [= <-]. unfold encode_control_hello_ack, put_u8, CONTROL_ACK_SIZE.
    cbn [holder_pid ack_instance_id ack_nonce status] in *. len.
Qed.

Lemma data_hello_strict :
  StrictCodec (fun h => Ok (encode_data_hello h)) decode_data_hello data_hello_ok.
Proof.
  apply strict_sized; [eapply strict_checked; [unfold read_data_hello; apply _|]|].
  - intros [d i n] bs. unfold encode_data_hello, data_hello_ok, id_ok. cbn.
    rewrite !orb_false_iff, N.eqb_neq, !is_zero16_false. split.
    + intros [H ?]. pinv. pclose.
    + intros [(? & ? & (? & ?) & ? & ?) [= <-]]. split; [|done].
      pex d. pex i. pex n. all: pend.
  - intros [d i n] bs (_ & _ & [Hi _] & [Hn _]) [= <-]. unfold encode_data_hello, DATA_HELLO_SIZE.
    cbn [data_daemon_pid data_instance_id data_nonce] in *. len.
Qed.

Lemma data_hello_ack_strict :
  StrictCodec (fun a => Ok (encode_data_hello_ack a)) decode_data_hello_ack data_hello_ack_ok.
Proof.
  apply strict_sized; [eapply strict_checked; [unfold read_data_hello_ack; apply _|]|].
  - intros [i n s] bs. unfold encode_data_hello_ack, data_hello_ack_ok, id_ok. cbn.
    rewrite !orb_false_iff, !is_zero16_false. split.
    + intros [H ?]. pinv. repeat match goal with H : decode_status _ = _ |- _ =>
        apply decode_status_iff in H as -> end. pclose.
    + intros [((? & ?) & ? & ?) [= <-]]. split; [|done].
      pex i. pex n. pex (encode_status s). { by destruct s. }
      pex s. { by apply decode_status_iff. } all: pend.
  - intros [i n s] bs ([Hi _] & [Hn _]) [= <-]. unfold encode_data_hello_ack, put_u8, DATA_ACK_SIZE.
    cbn [data_ack_instance_id data_ack_nonce data_status] in *. len.
Qed.

(** The four hello messages are encoded and decoded strictly: a payload
    is accepted exactly when it is the encoding of a message with a non-zero
    process id, nonce and instance. *)
Theorem handshake_codecs_strict :
  StrictCodec (fun h => Ok (encode_control_hello h)) decode_control_hello control_hello_ok /\
  StrictCodec (fun a => Ok (encode_control_hello_ack a)) decode_control_hello_ack
    control_hello_ack_ok /\
  StrictCodec (fun h => Ok (encode_data_hello h)) decode_data_hello data_hello_ok /\
  StrictCodec (fun a => Ok (encode_data_hello_ack a)) decode_data_hello_ack data_hello_ack_ok.
Proof.
  split_and!; [apply control_hello_strict|apply control_hello_ack_strict|
    apply data_hello_strict|apply data_hello_ack_strict].
Qed.
End Handshake.

Module Capability.

Record CapabilityRequest : Type := mkRequest {
  instance_id : bytes; nonce : bytes; max_minor : N }.
Record CapabilityResponse : Type := mkResponse {
  resp_instance_id : bytes; resp_nonce : bytes; selected_minor : N; capabilities : N }.

Definition valid_minor (minor : N) : bool :=
  (HOLDER_PROTOCOL_BASELINE_MINOR <=? minor) && (minor <=? HOLDER_PROTOCOL_MINOR).

Definition encode_capability_request (r : CapabilityRequest) : bytes :=
  instance_id r ++ nonce r ++ put_u16 (max_minor r).

Definition read_capability_request : R CapabilityRequest :=
  instance_id ← fixed 16; nonce ← fixed 16; max_minor ← u16;
  mret (mkRequest instance_id nonce max_minor).

Definition decode_capability_request (payload : bytes)
  : result HolderProtocolError CapabilityRequest :=
  request ← run read_capability_request payload;
  if is_zero16 (instance_id request) || is_zero16 (nonce request) ||
     negb (valid_minor (max_minor request))
  then Err InvalidField else Ok request.

Definition encode_capability_response (r : CapabilityResponse) : bytes :=
  resp_instance_id r ++ resp_nonce r ++ put_u16 (selected_minor r) ++ put_u64 (capabilities r).

Definition read_capability_response : R CapabilityResponse :=
  instance_id ← fixed 16; nonce ← fixed 16; selected_minor ← u16; capabilities ← u64;
  mret (mkResponse instance_id nonce selected_minor capabilities).

(** [!HOLDER_CAPABILITY_ENVIRONMENT_CONTEXT] on u64 *)
Definition UNKNOWN_CAPABILITIES : N := u64_max - HOLDER_CAPABILITY_ENVIRONMENT_CONTEXT.

Definition decode_capability_response (payload : bytes)
  : result HolderProtocolError CapabilityResponse :=
  response ← run read_capability_response payload;
  if is_zero16 (resp_instance_id response) || is_zero16 (resp_nonce response) ||
     negb (valid_minor (selected_minor response)) ||
     negb (N.land (capabilities response) UNKNOWN_CAPABILITIES =? 0) ||
     ((selected_minor response =? HOLDER_PROTOCOL_BASELINE_MINOR) &&
      negb (capabilities response =? 0))
  then Err InvalidField else Ok response.

Definition minor_ok (minor : N) : Prop := minor = 1 \/ minor = 2.

Definition capability_request_ok (r : CapabilityRequest) : Prop :=
  id_ok (instance_id r) /\ id_ok (nonce r) /\ minor_ok (max_minor r).

(** The only capability is known from minor 2 on. *)
Definition capability_response_ok (r : CapabilityResponse) : Prop :=
  id_ok (resp_instance_id r) /\ id_ok (resp_nonce r) /\
  (selected_minor r = 1 /\ capabilities r = 0 \/
   selected_minor r = 2 /\ (capabilities r = 0 \/ capabilities r = 1)).

Lemma valid_minor_iff m : valid_minor m = true <-> minor_ok m.
Proof.
  unfold valid_minor, minor_ok, HOLDER_PROTOCOL_BASELINE_MINOR, HOLDER_PROTOCOL_MINOR.
  rewrite andb_true_iff, !N.leb_le. lia.
Qed.

Lemma known_capabilities c : is_u64 c -> N.land c UNKNOWN_CAPABILITIES = 0 <-> c = 0 \/ c = 1.
Proof.
  intros Hc. split; [|by intros [-> | ->]].
  intros H. replace c with (N.land c (N.ones 1)).
  { rewrite N.land_ones. clear H. change (2 ^ 1) with 2.
    pose proof (N.mod_lt c 2 ltac:(done)). generalize dependent (c mod 2). lia. }
  apply N.bits_inj. intros i. rewrite N.land_spec.
  destruct (N.testbit c i) eqn:Hi; [|done]. destruct (decide (i = 0)) as [->|Hne]; [done|].
  exfalso. assert (Hb : N.testbit (N.land c UNKNOWN_CAPABILITIES) i = true); [|by rewrite H in Hb].
  rewrite N.land_spec, Hi. assert (Hlt : i < 64).
  { destruct (N.le_gt_cases 64 i) as [Hge|]; [|done]. exfalso.
    destruct (decide (c = 0)) as [->|]; [by rewrite N.bits_0 in Hi|].
    rewrite N.bits_above_log2 in Hi; [done|]. apply N.log2_lt_pow2; [lia|].
    eapply N.lt_le_trans; [exact Hc|]. apply N.pow_le_mono_r; lia. }
  change UNKNOWN_CAPABILITIES with (N.ldiff (N.ones 64) (N.ones 1)).
  rewrite N.ldiff_spec, N.ones_spec_low by done. by rewrite N.ones_spec_high by lia.
Qed.

(** Capability negotiation messages are strict, and an accepted response
    never claims a capability for the baseline protocol or an unknown one. *)
Theorem capability_codecs_strict :
  StrictCodec (fun r => Ok (encode_capability_request r)) decode_capability_request
    capability_request_ok /\
  StrictCodec (fun r => Ok (encode_capability_response r)) decode_capability_response
    capability_response_ok.
Proof.
  split.
  - eapply strict_checked; [unfold read_capability_request; apply _|].
    intros [i n m] bs. unfold encode_capability_request, capability_request_ok, id_ok. cbn.
    rewrite !orb_false_iff, !is_zero16_false, negb_false_iff, valid_minor_iff. split.
    + intros [H ?]. pinv. pclose.
    + intros [((? & ?) & (? & ?) & ?) [= <-]]. split; [|done].
      pex i. pex n. pex m. { by destruct H3 as [-> | ->]. } all: pend.
  - eapply strict_checked; [unfold read_capability_response; apply _|].
    intros [i n m c] bs. unfold encode_capability_response, capability_response_ok, id_ok. cbn.
    rewrite !orb_false_iff, !is_zero16_false, !negb_false_iff, valid_minor_iff, N.eqb_eq.
    rewrite andb_false_iff, negb_false_iff, N.eqb_neq, N.eqb_eq. unfold minor_ok.
    unfold HOLDER_PROTOCOL_BASELINE_MINOR. split.
    + intros [H ?]. pinv. rewrite known_capabilities in * by done. pclose. lia.
    + intros [((? & ?) & (? & ?) & Hm) [= <-]].
      assert (Hc : is_u16 m /\ is_u64 c) by (unfold is_u16, is_u64; lia). destruct Hc as [Hm' Hc].
      rewrite known_capabilities by done. split; [|split_and!; [done|done|lia..]].
      pex i. pex n. pex m. pex c. all: pend.
Qed.
End Capability.

Module Inventory.

Definition MAX_INVENTORY_ENTRIES : N := 256.
Definition NO_CURSOR : N := u32_max.
Definition ENTRY_SIZE : N := 37.

Record InventoryRequest : Type := mkRequest { cursor : N; limit : N }.

Inductive HolderSessionState : Type := Running | Exited.
Inductive HolderLogState : Type := Healthy | Degraded | Disabled.

Record HolderSessionEntry : Type := mkEntry {
  session_id : N;
  shell_pid : N;
  state : HolderSessionState;
  exit_code : option Z;
  created_at_ms : N;
  last_active_at_ms : N;
  ring_bytes : N;
  writer_active : bool;
  log_state : HolderLogState;
  exit_context_available : bool;
}.

Record InventoryResponse : Type := mkResponse {
  entries : list HolderSessionEntry;
  next_cursor : option N;
}.

Definition encode_inventory_request (r : InventoryRequest) : bytes :=
  if (cursor r =? NO_CURSOR) || (limit r =? 0) || (MAX_INVENTORY_ENTRIES <? limit r) then []
  else put_u32 (cursor r) ++ put_u16 (limit r).

Definition read_inventory_request : R InventoryRequest :=
  cursor ← u32; limit ← u16; mret (mkRequest cursor limit).

Definition decode_inventory_request (payload : bytes)
  : result HolderProtocolError InventoryRequest :=
  request ← run read_inventory_request payload;
  if (cursor request =? NO_CURSOR) || (limit request =? 0) ||
     (MAX_INVENTORY_ENTRIES <? limit request)
  then Err InvalidField else Ok request.

Definition encode_state (s : HolderSessionState) : N :=
  match s with Running => 0 | Exited => 1 end.
Definition decode_state (value : N) : result HolderProtocolError HolderSessionState :=
  match value with 0 => Ok Running | 1 => Ok Exited | _ => Err InvalidField end.
Definition encode_log_state (s : HolderLogState) : N :=
  match s with Healthy => 0 | Degraded => 1 | Disabled => 2 end.
Definition decode_log_state (value : N) : result HolderProtocolError HolderLogState :=
  match value with
  | 0 => Ok Healthy | 1 => Ok Degraded | 2 => Ok Disabled | _ => Err InvalidField
  end.

Definition exit_matches_state (e : HolderSessionEntry) : bool :=
  match state e, exit_code e with
  | Running, None | Exited, Some _ => true
  | _, _ => false
  end.

Definition is_running (s : HolderSessionState) : bool :=
  match s with Running => true | Exited => false end.

Definition validate_entry (e : HolderSessionEntry) : result HolderProtocolError unit :=
  if (session_id e =? 0) || (shell_pid e =? 0) || negb (exit_matches_state e) ||
     (is_running (state e) && exit_context_available e) ||
     (last_active_at_ms e <? created_at_ms e)
  then Err InvalidField else Ok tt.

#[global] Arguments validate_entry : simpl never.

Definition of_bool (b : bool) : N := if b then 1 else 0.

Definition encode_entry (e : HolderSessionEntry) : result HolderProtocolError bytes :=
  _ ← validate_entry e;
  Ok (put_u32 (session_id e) ++ put_u32 (shell_pid e) ++ put_u8 (encode_state (state e)) ++
      put_u8 (of_bool (match exit_code e with Some _ => true | None => false end)) ++
      put_i32 (default 0%Z (exit_code e)) ++
      put_u64 (created_at_ms e) ++ put_u64 (last_active_at_ms e) ++ put_u32 (ring_bytes e) ++
      put_u8 (of_bool (writer_active e)) ++ put_u8 (encode_log_state (log_state e)) ++
      put_u8 (of_bool (exit_context_available e))).

(** [entries.len().saturating_mul(ENTRY_SIZE)] cannot overflow after the limit. *)
Definition encode_inventory_response (r : InventoryResponse) : result HolderProtocolError bytes :=
  if MAX_INVENTORY_ENTRIES <? lenN (entries r) then Err PayloadTooLarge
  else if match next_cursor r with Some c => (c =? 0) || (c =? NO_CURSOR) | None => false end
  then Err InvalidField
  else
    body ← collect_ok encode_entry (entries r);
    Ok (put_u32 (default NO_CURSOR (next_cursor r)) ++ put_u16 (as_u16 (lenN (entries r))) ++
        concat body).

Definition decode_entry : R HolderSessionEntry :=
  session_id ← u32;
  shell_pid ← u32;
  state_code ← u8;
  state ← lift (decode_state state_code);
  has_exit ← flag;
  raw_exit ← i32;
  created_at_ms ← u64;
  last_active_at_ms ← u64;
  ring_bytes ← u32;
  writer_active ← flag;
  log_code ← u8;
  log_state ← lift (decode_log_state log_code);
  exit_context_available ← flag;
  let entry := mkEntry session_id shell_pid state
    (if (has_exit : bool) then Some raw_exit else None)
    created_at_ms last_active_at_ms ring_bytes writer_active log_state
    exit_context_available in
  _ ← lift (validate_entry entry);
  mret entry.

Definition read_cursor : R (option N) :=
  value ← u32;
  if value =? NO_CURSOR then mret None
  else if value =? 0 then lift (Err InvalidField)
  else mret (Some value).

Definition read_inventory_response : R InventoryResponse :=
  next_cursor ← read_cursor;
  count ← u16;
  _ ← guard (MAX_INVENTORY_ENTRIES <? count) PayloadTooLarge;
  entries ← times (N.to_nat count) decode_entry;
  mret (mkResponse entries next_cursor).

Definition decode_inventory_response (payload : bytes)
  : result HolderProtocolError InventoryResponse := run read_inventory_response payload.

(** ** Round trips *)

Definition inventory_request_ok (r : InventoryRequest) : Prop :=
  cursor r < NO_CURSOR /\ 0 < limit r <= MAX_INVENTORY_ENTRIES.

Lemma inventory_request_strict :
  StrictCodec (fun r => Ok (encode_inventory_request r)) decode_inventory_request
    inventory_request_ok.
Proof.
  eapply strict_checked; [unfold read_inventory_request; apply _|].
  intros [c l] bs. unfold encode_inventory_request, inventory_request_ok. cbn [cursor limit].
  rewrite !orb_false_iff, !N.eqb_neq, N.ltb_ge.
  unfold NO_CURSOR, MAX_INVENTORY_ENTRIES, u32_max. split.
  - intros [H ?]. pinv. unfold is_u32, is_u16 in *. ndec. pclose; lia.
  - intros [[? ?] He]. split; [|lia]. revert He. ndec. intros [= <-].
    pex c. { unfold is_u32. lia. } pex l. { unfold is_u16. lia. } all: pend.
Qed.

(** The invariant of an entry: its fields in range, and valid. *)
Record entry_ok (e : HolderSessionEntry) : Prop := {
  entry_ids : is_u32 (session_id e) /\ is_u32 (shell_pid e) /\ is_u32 (ring_bytes e);
  entry_times : is_u64 (created_at_ms e) /\ is_u64 (last_active_at_ms e);
  entry_exit : forall c, exit_code e = Some c -> is_i32 c;
  entry_valid : validate_entry e = Ok tt;
}.

Definition inventory_response_ok (r : InventoryResponse) : Prop :=
  lenN (entries r) <= MAX_INVENTORY_ENTRIES /\ Forall entry_ok (entries r) /\
  forall c, next_cursor r = Some c -> 0 < c < NO_CURSOR.

Lemma decode_state_iff n s : decode_state n = Ok s <-> n = encode_state s.
Proof.
  split; [|intros ->; by destruct s]. destruct n as [|[p|p|]]; cbn; intros [= <-]; done.
Qed.

Lemma decode_log_state_iff n s : decode_log_state n = Ok s <-> n = encode_log_state s.
Proof.
  split; [|intros ->; by destruct s].
  destruct n as [|[[p|p|]|[p|p|]|]]; cbn; intros [= <-]; done.
Qed.

(** The decoder ignores the exit code of an entry that has none; the encoder
    writes 0 there. *)
Definition entry_bytes (e : HolderSessionEntry) (raw : Z) : bytes :=
  put_u32 (session_id e) ++ put_u32 (shell_pid e) ++ put_u8 (encode_state (state e)) ++
  put_u8 (of_bool (match exit_code e with Some _ => true | None => false end)) ++
  put_i32 raw ++
  put_u64 (created_at_ms e) ++ put_u64 (last_active_at_ms e) ++ put_u32 (ring_bytes e) ++
  put_u8 (of_bool (writer_active e)) ++ put_u8 (encode_log_state (log_state e)) ++
  put_u8 (of_bool (exit_context_available e)).

#[export] Instance decode_entry_parses : Parses decode_entry (fun e bs =>
  entry_ok e /\ exists raw, is_i32 raw /\ (forall c, exit_code e = Some c -> raw = c) /\
    bs = entry_bytes e raw).
Proof.
  eapply Reader.parses_ext; [unfold decode_entry; cbv zeta; apply _|].
  intros e bs. unfold entry_bytes. cbn. split.
  - intros H. pinv. repeat match goal with
      | H : decode_state _ = _ |- _ => apply decode_state_iff in H as ->
      | H : decode_log_state _ = _ |- _ => apply decode_log_state_iff in H as -> end.
    match goal with H : validate_entry (mkEntry _ _ _ (if ?b then Some ?r else None)
        _ _ _ _ _ _) = _ |- _ => rename r into raw; rename b into has_exit end.
    assert (Hc : forall c, (if has_exit then Some raw else None) = Some c -> raw = c)
      by (intros c; by destruct has_exit; intros [= ->]).
    split; [split; cbn; try done; intros c <-%Hc; done|].
    exists raw. split_and!; [done|done|]. cbn. by destruct has_exit.
  - destruct e as [sid pid st ex ct la rb wa ls ec].
    intros ([(? & ? & ?) [? ?] He Hv] & raw & Hr & Hraw & ->). cbn in *.
    pex sid. pex pid. pex (encode_state st). { by destruct st. }
    pex st. { by apply decode_state_iff. }
    pex (match ex with Some _ => true | None => false end). pex raw. pex ct. pex la. pex rb. pex wa.
    pex (encode_log_state ls). { by destruct ls. } pex ls. { by apply decode_log_state_iff. }
    pex ec. pex tt.
    { rewrite <- Hv. do 2 f_equal. destruct ex; [|done]. by rewrite (Hraw z eq_refl). }
    { split; [|reflexivity]. f_equal. destruct ex; [|done]. by rewrite (Hraw z eq_refl). }
    all: try reflexivity.
Qed.

Lemma encode_entry_ok e : validate_entry e = Ok tt ->
  encode_entry e = Ok (entry_bytes e (default 0%Z (exit_code e))).
Proof. intros Hv. unfold encode_entry. by rewrite Hv. Qed.

Lemma lenN_entry_bytes e raw : lenN (entry_bytes e raw) = ENTRY_SIZE.
Proof. unfold entry_bytes, put_u8. by rewrite !lenN_app, !lenN_u32_be, !lenN_u64_be, lenN_i32_be. Qed.

#[export] Instance read_cursor_parses : Parses read_cursor (fun o bs =>
  (forall c, o = Some c -> 0 < c < NO_CURSOR) /\ bs = put_u32 (default NO_CURSOR o)).
Proof.
  eapply Reader.parses_ext; [unfold read_cursor; apply _|]. intros o bs. cbn. split.
  - intros H. pinv. destruct (x =? NO_CURSOR) eqn:Hn; boolp; [by pinv|].
    destruct (x =? 0) eqn:Hz; boolp; pinv. split; [|done].
    intros c [= <-]. unfold is_u32, NO_CURSOR, u32_max in *. lia.
  - intros [Hc ->]. destruct o as [c|]; cbn [default].
    + specialize (Hc c eq_refl). exists c, (put_u32 c), []. rewrite app_nil_r.
      unfold is_u32, NO_CURSOR, u32_max in *. ndec. split_and!; try done. lia.
    + by exists NO_CURSOR, (put_u32 NO_CURSOR), [].
Qed.

(** The bytes of a response, with the ignored exit codes [raws]. *)
Definition response_bytes (r : InventoryResponse) (body : list bytes) : bytes :=
  put_u32 (default NO_CURSOR (next_cursor r)) ++ put_u16 (lenN (entries r)) ++ concat body.

Definition entry_grammar (e : HolderSessionEntry) (b : bytes) : Prop :=
  entry_ok e /\ exists raw, is_i32 raw /\ (forall c, exit_code e = Some c -> raw = c) /\
    b = entry_bytes e raw.

Lemma decode_inventory_response_iff p r : fits p ->
  decode_inventory_response p = Ok r <->
  inventory_response_ok r /\ exists body, Forall2 entry_grammar (entries r) body /\
    p = response_bytes r body.
Proof.
  intros Hf. unfold decode_inventory_response.
  rewrite (Reader.run_iff read_inventory_response _ p r ltac:(unfold read_inventory_response; apply _) Hf).
  unfold inventory_response_ok, response_bytes. cbn. split.
  - intros H. pinv. cbn. match goal with H : length ?l = N.to_nat ?n |- _ =>
      assert (n = lenN l) as -> by (unfold lenN; lia) end.
    split; [split_and!; [done| |done]|eexists; split; [eassumption|done]].
    eapply Forall2_Forall_l; [eassumption|]. apply Forall_true. by intros b e [? _].
  - destruct r as [es o]. cbn. intros ((Hl & He & Ho) & body & HF & ->).
    pex o. pex (lenN es). { unfold is_u16, MAX_INVENTORY_ENTRIES in *. lia. }
    pguard. { by apply N.ltb_ge. } exists es, (concat body), [].
    { split; [split; [unfold lenN; lia|by exists body]|done]. } all: pend.
Qed.

Lemma encode_inventory_response_ok r : inventory_response_ok r ->
  encode_inventory_response r =
  Ok (response_bytes r (map (fun e => entry_bytes e (default 0%Z (exit_code e))) (entries r))).
Proof.
  intros (Hl & He & Hc). unfold encode_inventory_response, response_bytes, as_u16. ndec.
  rewrite N.mod_small by (unfold MAX_INVENTORY_ENTRIES in *; lia).
  replace (match next_cursor r with Some c => _ | None => false end) with false.
  - replace (collect_ok encode_entry (entries r))
      with (Ok (E := HolderProtocolError)
              (map (fun e => entry_bytes e (default 0%Z (exit_code e))) (entries r))); [done|].
    symmetry. apply collect_ok_Forall2. induction He as [|e es [_ _ _ Hv] _ IH]; cbn; constructor.
    + by apply encode_entry_ok.
    + apply IH. unfold lenN in *. cbn in Hl. lia.
  - destruct (next_cursor r) as [c|]; [|done]. specialize (Hc c eq_refl). by ndec.
Qed.

(** Inventory pages.  Requests are strict; a well-formed response always
    encodes, to 6 + 37 bytes per entry, and is decoded back to itself; and
    whatever decodes is a well-formed response of that length. *)
Theorem inventory_codecs :
  StrictCodec (fun r => Ok (encode_inventory_request r)) decode_inventory_request
    inventory_request_ok /\
  (forall r, inventory_response_ok r -> exists p, encode_inventory_response r = Ok p /\
     lenN p = 6 + ENTRY_SIZE * lenN (entries r) /\ decode_inventory_response p = Ok r) /\
  (forall p r, fits p -> decode_inventory_response p = Ok r ->
     inventory_response_ok r /\ lenN p = 6 + ENTRY_SIZE * lenN (entries r)).
Proof.
  assert (Hlen : forall r body, Forall2 entry_grammar (entries r) body ->
    lenN (response_bytes r body) = 6 + ENTRY_SIZE * lenN (entries r)).
  { intros r body H. unfold response_bytes. rewrite !lenN_app, lenN_u32_be, lenN_u16_be.
    assert (Hb : lenN (concat body) = ENTRY_SIZE * lenN (entries r)); [|lia].
    induction H as [|e b es bs (_ & raw & _ & _ & ->) _ IH]; [done|].
    cbn [concat]. rewrite lenN_app, lenN_entry_bytes, lenN_cons, IH. lia. }
  split_and!; [apply inventory_request_strict|intros r Hr|intros p r Hf H].
  - eexists. split; [by apply encode_inventory_response_ok|].
    assert (HF : Forall2 entry_grammar (entries r)
      (map (fun e => entry_bytes e (default 0%Z (exit_code e))) (entries r))).
    { destruct Hr as (_ & He & _). induction He as [|e es He _ IH]; cbn; constructor; [|done].
      split; [done|]. exists (default 0%Z (exit_code e)). split_and!; [|by intros c ->|done].
      destruct (exit_code e) eqn:Hx; [by apply (entry_exit e He)|done]. }
    rewrite (Hlen r _ HF). split; [done|]. apply decode_inventory_response_iff; [|eauto].
    unfold fits. rewrite (Hlen r _ HF). destruct Hr as [Hl _].
    unfold MAX_INVENTORY_ENTRIES, ENTRY_SIZE, isize_max in *. lia.
  - apply decode_inventory_response_iff in H as (Hr & body & HF & ->); [|done].
    split; [done|]. by apply Hlen.
Qed.
End Inventory.
