(* ===== verification/HolderOperation.v ===== *)
(** * HolderOperation: requests on one session, and how it ended.

    Models [crates/persist-ipc/src/holder/operation.rs]: operation requests and
    responses, the exit events and exit contexts of protocol minors 1 and 2,
    resize, signal and log-degradation messages.  The environment snapshot of a
    version-2 message is [Environment]'s codec, over its JSON parameter. *)
From S2P Require Import Prelude Bytes Utf8 HolderWire Environment.
From Stdlib Require Import Lia.
Import String.StringSyntax.
Import Reader(Parses, R, run, guard, lift, u8, u16, u32, i32, u64, fixed, flag, times, string,
  optional_string, optional_bytes_u32, put_u8, put_u16, put_u32, put_i32, put_u64,
  put_string_allow_empty, put_optional_string, put_optional_bytes_u32, string_ok).
Import Environment(SnapshotJson, SnapshotJsonLaws, EnvironmentSnapshot,
  encode_environment_snapshot, decode_environment_snapshot, MAX_SHELL_ENVIRONMENT_BYTES).
Local Open Scope N_scope.

(** [Path::new(s).is_absolute()] on Unix. *)
Definition path_is_absolute (s : str) : bool := starts_with (lit "/") s.

Definition MAX_HOLDER_PATH : N := 4096.

Module Operation.

Definition MAX_HOLDER_ERROR_MESSAGE : N := 1024.

Inductive OperationStatus : Type := StatusOk | NotFound | Conflict | Rejected | Internal.

#[export] Instance OperationStatus_eq_dec : EqDecision OperationStatus.
Proof. solve_decision. Defined.

Record OperationResponse : Type := mkResponse {
  resp_session_id : N; resp_status : OperationStatus; message : str }.
Record SessionExitedEventV2 : Type := mkExited {
  session_id : N; exit_code : Z; cwd : option str; environment : option EnvironmentSnapshot }.
Record ExitContextResponseV2 : Type := mkContext {
  ctx_session_id : N; ctx_status : OperationStatus; ctx_exit_code : option Z;
  ctx_cwd : option str; ctx_environment : option EnvironmentSnapshot }.
Record ResizeRequest : Type := mkResize { rows : N; cols : N }.
Record LogDegradedEvent : Type := mkLogDegraded { log_session_id : N; dropped_bytes : N }.

(** [SessionExitedEvent] and [ExitContextResponse] are the version-2 records
    without the environment. *)
Record SessionExitedEvent : Type := mkExitedV1 {
  v1_session_id : N; v1_exit_code : Z; v1_cwd : option str }.
Record ExitContextResponse : Type := mkContextV1 {
  c1_session_id : N; c1_status : OperationStatus; c1_exit_code : option Z; c1_cwd : option str }.

Definition encode_status (s : OperationStatus) : N :=
  match s with StatusOk => 0 | NotFound => 1 | Conflict => 2 | Rejected => 3 | Internal => 4 end.

Definition decode_status (value : N) : result HolderProtocolError OperationStatus :=
  match value with
  | 0 => Ok StatusOk | 1 => Ok NotFound | 2 => Ok Conflict | 3 => Ok Rejected | 4 => Ok Internal
  | _ => Err InvalidField
  end.

(** ** Fixed-size requests; the request of an operation is its session id *)

Definition encode_operation_request (session_id : N) : bytes :=
  if session_id =? 0 then [] else put_u32 session_id.

Definition decode_operation_request (payload : bytes) : result HolderProtocolError N :=
  request ← run u32 payload;
  if request =? 0 then Err InvalidField else Ok request.

Definition encode_resize_request (r : ResizeRequest) : bytes :=
  if (rows r =? 0) || (cols r =? 0) then [] else put_u16 (rows r) ++ put_u16 (cols r).

Definition read_resize_request : R ResizeRequest :=
  rows ← u16; cols ← u16; mret (mkResize rows cols).

Definition decode_resize_request (payload : bytes) : result HolderProtocolError ResizeRequest :=
  request ← run read_resize_request payload;
  if (rows request =? 0) || (cols request =? 0) then Err InvalidField else Ok request.

Definition encode_signal_request (signal : N) : bytes :=
  if (signal =? 0) || (64 <? signal) then [] else put_u32 signal.

Definition decode_signal_request (payload : bytes) : result HolderProtocolError N :=
  request ← run u32 payload;
  if (request =? 0) || (64 <? request) then Err InvalidField else Ok request.

Definition encode_log_degraded (e : LogDegradedEvent) : bytes :=
  if (log_session_id e =? 0) || (dropped_bytes e =? 0) then []
  else put_u32 (log_session_id e) ++ put_u64 (dropped_bytes e).

Definition read_log_degraded : R LogDegradedEvent :=
  session_id ← u32; dropped_bytes ← u64; mret (mkLogDegraded session_id dropped_bytes).

Definition decode_log_degraded (payload : bytes) : result HolderProtocolError LogDegradedEvent :=
  event ← run read_log_degraded payload;
  if (log_session_id event =? 0) || (dropped_bytes event =? 0) then Err InvalidField else Ok event.

(** ** Operation responses *)

Definition encode_operation_response (r : OperationResponse) : result HolderProtocolError bytes :=
  if (resp_session_id r =? 0) || (MAX_HOLDER_ERROR_MESSAGE <? lenN (message r))
  then Err (if MAX_HOLDER_ERROR_MESSAGE <? lenN (message r) then PayloadTooLarge else InvalidField)
  else
    text ← put_string_allow_empty (message r) MAX_HOLDER_ERROR_MESSAGE;
    Ok (put_u32 (resp_session_id r) ++ put_u8 (encode_status (resp_status r)) ++ text).

Definition read_operation_response : R OperationResponse :=
  session_id ← u32; code ← u8; status ← lift (decode_status code);
  message ← string MAX_HOLDER_ERROR_MESSAGE;
  mret (mkResponse session_id status message).

Definition decode_operation_response (payload : bytes)
  : result HolderProtocolError OperationResponse :=
  response ← run read_operation_response payload;
  if resp_session_id response =? 0 then Err InvalidField else Ok response.

(** ** Exit events and exit contexts *)

Definition validate_cwd (cwd : option str) : result HolderProtocolError unit :=
  match cwd with
  | None => Ok tt
  | Some cwd =>
      if MAX_HOLDER_PATH <? lenN cwd then Err PayloadTooLarge
      else if (lenN cwd =? 0) || has_nul cwd || negb (path_is_absolute cwd)
      then Err InvalidField else Ok tt
  end.

Definition encode_session_exited_event (e : SessionExitedEvent)
  : result HolderProtocolError bytes :=
  if v1_session_id e =? 0 then Err InvalidField
  else
    _ ← validate_cwd (v1_cwd e);
    path ← put_optional_string (v1_cwd e) MAX_HOLDER_PATH;
    Ok (put_u32 (v1_session_id e) ++ put_i32 (v1_exit_code e) ++ path).

Definition read_session_exited_event : R SessionExitedEvent :=
  session_id ← u32; exit_code ← i32; cwd ← optional_string MAX_HOLDER_PATH;
  mret (mkExitedV1 session_id exit_code cwd).

Definition decode_session_exited_event (payload : bytes)
  : result HolderProtocolError SessionExitedEvent :=
  event ← run read_session_exited_event payload;
  if v1_session_id event =? 0 then Err InvalidField
  else _ ← validate_cwd (v1_cwd event); Ok event.

Definition validate_exit_context_response (r : ExitContextResponse)
  : result HolderProtocolError unit :=
  if c1_session_id r =? 0 then Err InvalidField
  else
    let valid_combination :=
      match c1_status r with
      | StatusOk => match c1_exit_code r with Some _ => true | None => false end
      | _ => match c1_exit_code r, c1_cwd r with None, None => true | _, _ => false end
      end in
    if negb valid_combination then Err InvalidField else validate_cwd (c1_cwd r).

Definition of_bool (b : bool) : N := if b then 1 else 0.
Definition is_some {A} (o : option A) : bool :=
  match o with Some _ => true | None => false end.

Definition encode_exit_context_response (r : ExitContextResponse)
  : result HolderProtocolError bytes :=
  _ ← validate_exit_context_response r;
  path ← put_optional_string (c1_cwd r) MAX_HOLDER_PATH;
  Ok (put_u32 (c1_session_id r) ++ put_u8 (encode_status (c1_status r)) ++
      put_u8 (of_bool (is_some (c1_exit_code r))) ++ put_i32 (default 0%Z (c1_exit_code r)) ++ path).

Definition read_exit_context_response : R ExitContextResponse :=
  session_id ← u32; code ← u8; status ← lift (decode_status code);
  has_exit_code ← flag; raw_exit_code ← i32; cwd ← optional_string MAX_HOLDER_PATH;
  mret (mkContextV1 session_id status
          (if (has_exit_code : bool) then Some raw_exit_code else None) cwd).

Definition decode_exit_context_response (payload : bytes)
  : result HolderProtocolError ExitContextResponse :=
  response ← run read_exit_context_response payload;
  _ ← validate_exit_context_response response;
  Ok response.

Section snapshot.
Context `{SnapshotJson}.

(** [.map_err(|_| HolderProtocolError::InvalidField)] *)
Definition invalid_field {A} (c : result persist_error A) : result HolderProtocolError A :=
  match c with Ok a => Ok a | Err _ => Err InvalidField end.

Definition encode_environment (e : option EnvironmentSnapshot)
  : result HolderProtocolError (option bytes) :=
  match e with
  | None => Ok None
  | Some s => text ← invalid_field (encode_environment_snapshot s); Ok (Some text)
  end.

Definition decode_environment (text : option bytes)
  : result HolderProtocolError (option EnvironmentSnapshot) :=
  match text with
  | None => Ok None
  | Some t => s ← invalid_field (decode_environment_snapshot t); Ok (Some s)
  end.

Definition encode_session_exited_event_v2 (e : SessionExitedEventV2)
  : result HolderProtocolError bytes :=
  output ← encode_session_exited_event (mkExitedV1 (session_id e) (exit_code e) (cwd e));
  environment ← encode_environment (environment e);
  text ← put_optional_bytes_u32 environment MAX_SHELL_ENVIRONMENT_BYTES;
  Ok (output ++ text).

Definition read_session_exited_event_v2 : R SessionExitedEventV2 :=
  session_id ← u32; exit_code ← i32; cwd ← optional_string MAX_HOLDER_PATH;
  text ← optional_bytes_u32 MAX_SHELL_ENVIRONMENT_BYTES;
  environment ← lift (decode_environment text);
  mret (mkExited session_id exit_code cwd environment).

Definition decode_session_exited_event_v2 (payload : bytes)
  : result HolderProtocolError SessionExitedEventV2 :=
  event ← run read_session_exited_event_v2 payload;
  if session_id event =? 0 then Err InvalidField
  else _ ← validate_cwd (cwd event); Ok event.

Definition context_v1 (r : ExitContextResponseV2) : ExitContextResponse :=
  mkContextV1 (ctx_session_id r) (ctx_status r) (ctx_exit_code r) (ctx_cwd r).

Definition validate_exit_context_response_v2 (r : ExitContextResponseV2)
  : result HolderProtocolError unit :=
  _ ← validate_exit_context_response (context_v1 r);
  if negb (bool_decide (ctx_status r = StatusOk)) && is_some (ctx_environment r)
  then Err InvalidField else Ok tt.

Definition encode_exit_context_response_v2 (r : ExitContextResponseV2)
  : result HolderProtocolError bytes :=
  _ ← validate_exit_context_response_v2 r;
  output ← encode_exit_context_response (context_v1 r);
  environment ← encode_environment (ctx_environment r);
  text ← put_optional_bytes_u32 environment MAX_SHELL_ENVIRONMENT_BYTES;
  Ok (output ++ text).

Definition read_exit_context_response_v2 : R ExitContextResponseV2 :=
  session_id ← u32; code ← u8; status ← lift (decode_status code);
  has_exit_code ← flag; raw_exit_code ← i32; cwd ← optional_string MAX_HOLDER_PATH;
  text ← optional_bytes_u32 MAX_SHELL_ENVIRONMENT_BYTES;
  environment ← lift (decode_environment text);
  mret (mkContext session_id status
          (if (has_exit_code : bool) then Some raw_exit_code else None) cwd environment).

Definition decode_exit_context_response_v2 (payload : bytes)
  : result HolderProtocolError ExitContextResponseV2 :=
  response ← run read_exit_context_response_v2 payload;
  _ ← validate_exit_context_response_v2 response;
  Ok response.
End snapshot.

(** ** Fixed-size messages are strict *)

Definition session_ok (id : N) : Prop := is_u32 id /\ id <> 0.

Lemma operation_status_iff n s : decode_status n = Ok s <-> n = encode_status s.
Proof.
  split; [|intros ->; by destruct s].
  destruct n as [|[[[p|p|]|[p|p|]|]|[[p|p|]|[p|p|]|]|]]; cbn; intros [= <-]; done.
Qed.

Lemma operation_request_strict :
  StrictCodec (fun id => Ok (encode_operation_request id)) decode_operation_request session_ok.
Proof.
  eapply strict_checked; [apply _|]. intros id bs. unfold encode_operation_request, session_ok.
  cbn beta. rewrite N.eqb_neq. split.
  - intros [[-> ?] ?]. by ndec.
  - intros [[? ?] He]. revert He. ndec. by intros [= <-].
Qed.

Definition resize_ok (r : ResizeRequest) : Prop :=
  is_u16 (rows r) /\ is_u16 (cols r) /\ rows r <> 0 /\ cols r <> 0.

Lemma resize_request_strict :
  StrictCodec (fun r => Ok (encode_resize_request r)) decode_resize_request resize_ok.
Proof.
  eapply strict_checked; [unfold read_resize_request; apply _|].
  intros [r c] bs. unfold encode_resize_request, resize_ok. cbn.
  rewrite orb_false_iff, !N.eqb_neq. split.
  - intros [H ?]. pinv. ndec. pclose.
  - intros [(? & ? & ? & ?) He]. revert He. ndec. intros [= <-]. split; [|done].
    pex r. pex c. all: pend.
Qed.

Definition signal_ok (s : N) : Prop := 0 < s <= 64.

Lemma signal_request_strict :
  StrictCodec (fun s => Ok (encode_signal_request s)) decode_signal_request signal_ok.
Proof.
  eapply strict_checked; [apply _|]. intros s bs. unfold encode_signal_request, signal_ok.
  cbn beta. rewrite orb_false_iff, N.eqb_neq, N.ltb_ge. split.
  - intros [[-> ?] ?]. ndec. split; [lia|done].
  - intros [? He]. revert He. ndec. intros [= <-]. unfold is_u32. split; [split; [done|lia]|lia].
Qed.

Definition log_degraded_ok (e : LogDegradedEvent) : Prop :=
  session_ok (log_session_id e) /\ is_u64 (dropped_bytes e) /\ dropped_bytes e <> 0.

Lemma log_degraded_strict :
  StrictCodec (fun e => Ok (encode_log_degraded e)) decode_log_degraded log_degraded_ok.
Proof.
  eapply strict_checked; [unfold read_log_degraded; apply _|].
  intros [i d] bs. unfold encode_log_degraded, log_degraded_ok, session_ok. cbn.
  rewrite orb_false_iff, !N.eqb_neq. split.
  - intros [H ?]. pinv. ndec. pclose.
  - intros [((? & ?) & ? & ?) He]. revert He. ndec. intros [= <-]. split; [|done].
    pex i. pex d. all: pend.
Qed.

Definition operation_response_ok (r : OperationResponse) : Prop :=
  session_ok (resp_session_id r) /\ string_ok MAX_HOLDER_ERROR_MESSAGE (message r).

Lemma operation_response_strict :
  StrictCodec encode_operation_response decode_operation_response operation_response_ok.
Proof.
  eapply strict_checked; [unfold read_operation_response; apply _|].
  intros [i st m] bs. unfold encode_operation_response, operation_response_ok, session_ok.
  cbn. rewrite N.eqb_neq. split.
  - intros [H ?]. pinv.
    match goal with H : decode_status _ = _ |- _ => apply operation_status_iff in H as -> end.
    match goal with H : string_ok _ ?x |- _ => rename H into Hm, x into m end.
    pose proof (proj2 (Reader.put_string_allow_empty_iff m _ _) (conj eq_refl Hm)) as [Hp _].
    destruct Hm as (? & ? & ? & ?). rewrite Hp. ndec. rewrite ok_bind. pclose.
  - intros [((? & ?) & Hm) He].
    pose proof (proj2 (Reader.put_string_allow_empty_iff m _ _) (conj eq_refl Hm)) as [Hp _].
    pose proof Hm as (_ & _ & Hl & _). revert He. rewrite Hp. ndec. rewrite ok_bind. intros [= <-].
    split; [|done]. pex i. pex (encode_status st). { by destruct st. }
    pex st. { by apply operation_status_iff. } pex m. all: pend.
Qed.

(** ** Working directories *)

Definition cwd_ok (cwd : option str) : Prop :=
  match cwd with
  | None => True
  | Some s => string_ok MAX_HOLDER_PATH s /\ s <> [] /\ path_is_absolute s = true
  end.

Definition cwd_utf8 (cwd : option str) : Prop := forall s, cwd = Some s -> str_ok s.

Lemma validate_cwd_iff cwd : validate_cwd cwd = Ok tt /\ cwd_utf8 cwd <-> cwd_ok cwd.
Proof.
  unfold validate_cwd, cwd_utf8, cwd_ok, string_ok, is_u16. destruct cwd as [s|]; [|naive_solver].
  split.
  - intros [H Hs]. inv_ok. boolp. unfold MAX_HOLDER_PATH in *.
    split_and!; auto; [lia|]. by intros ->.
  - intros ((Hs & Hn & Hl & _) & Hne & Ha). split; [|by intros s' [= <-]].
    assert (lenN s <> 0) by (intros ?%lenN_0_inv; done). ndec. by rewrite Hn, Ha.
Qed.

Lemma put_cwd cwd : cwd_ok cwd -> put_optional_string cwd MAX_HOLDER_PATH =
  Ok (match cwd with None => put_u8 0 | Some s => put_u8 1 ++ put_u16 (lenN s) ++ s end).
Proof.
  intros Hc. apply (proj2 (Reader.put_optional_string_iff cwd MAX_HOLDER_PATH _)).
  destruct cwd as [s|]; [|done]. by destruct Hc as (? & ? & _).
Qed.

Lemma cwd_grammar cwd bs :
  match cwd with
  | None => bs = put_u8 0
  | Some s => bs = put_u8 1 ++ put_u16 (lenN s) ++ s /\ string_ok MAX_HOLDER_PATH s
  end -> cwd_utf8 cwd /\
  bs = match cwd with None => put_u8 0 | Some s => put_u8 1 ++ put_u16 (lenN s) ++ s end.
Proof.
  destruct cwd as [s|]; [|by split]. intros [-> (? & _)]. split; [|done]. by intros ? [= <-].
Qed.

Lemma cwd_grammar_of cwd : cwd_ok cwd ->
  match cwd with
  | None => match cwd with None => put_u8 0 | Some s => put_u8 1 ++ put_u16 (lenN s) ++ s end = put_u8 0
  | Some s => match cwd with None => put_u8 0 | Some s => put_u8 1 ++ put_u16 (lenN s) ++ s end =
      put_u8 1 ++ put_u16 (lenN s) ++ s /\ string_ok MAX_HOLDER_PATH s
  end.
Proof. destruct cwd as [s|]; [|done]. by intros [? _]. Qed.

(** ** The exit of a session *)

Definition session_exited_ok (e : SessionExitedEvent) : Prop :=
  session_ok (v1_session_id e) /\ is_i32 (v1_exit_code e) /\ cwd_ok (v1_cwd e).

Lemma encode_session_exited_ok e : session_exited_ok e ->
  encode_session_exited_event e =
  Ok (put_u32 (v1_session_id e) ++ put_i32 (v1_exit_code e) ++
      match v1_cwd e with None => put_u8 0 | Some s => put_u8 1 ++ put_u16 (lenN s) ++ s end).
Proof.
  intros ([_ Hne] & _ & Hc). unfold encode_session_exited_event. ndec.
  destruct (proj2 (validate_cwd_iff _) Hc) as [-> _]. by rewrite ok_bind, put_cwd.
Qed.

Lemma session_exited_event_strict :
  StrictCodec encode_session_exited_event decode_session_exited_event session_exited_ok.
Proof.
  eapply (strict_validated _ _ _ _ (fun e => v1_session_id e <> 0 /\ validate_cwd (v1_cwd e) = Ok tt)
    (fun event => if v1_session_id event =? 0 then Err InvalidField
                  else _ ← validate_cwd (v1_cwd event); Ok event));
    [unfold read_session_exited_event; apply _|..].
  - intros e e'. destruct (N.eqb_spec (v1_session_id e) 0); [naive_solver|].
    destruct (validate_cwd (v1_cwd e)) as [[]|]; cbn; naive_solver.
  - intros [i c w] bs. cbn. split.
    + intros [H ?]. pinv. match goal with H : match _ with Some _ => _ | None => _ end |- _ =>
        apply cwd_grammar in H as [Hu ->] end.
      assert (Hok : session_exited_ok (mkExitedV1 x x2 x5)).
      { unfold session_exited_ok, session_ok. cbn. split_and!; try done.
        by apply validate_cwd_iff. }
      split; [done|]. by rewrite encode_session_exited_ok.
    + intros [Hok He]. rewrite encode_session_exited_ok in He by done. injection He as <-.
      destruct Hok as ([? ?] & ? & Hc). cbn in *.
      split; [|split; [done|]; by apply validate_cwd_iff].
      pex i. pex c. exists w; eexists _, _; split; [by apply cwd_grammar_of|split].
      all: pend.
Qed.

(** The messages about one session are strict: operation, resize and
    signal requests, log degradation, operation responses, and the version-1
    exit event with its working directory. *)
Theorem operation_codecs_strict :
  StrictCodec (fun id => Ok (encode_operation_request id)) decode_operation_request session_ok /\
  StrictCodec (fun r => Ok (encode_resize_request r)) decode_resize_request resize_ok /\
  StrictCodec (fun s => Ok (encode_signal_request s)) decode_signal_request signal_ok /\
  StrictCodec (fun e => Ok (encode_log_degraded e)) decode_log_degraded log_degraded_ok /\
  StrictCodec encode_operation_response decode_operation_response operation_response_ok /\
  StrictCodec encode_session_exited_event decode_session_exited_event session_exited_ok.
Proof.
  split_and!; [apply operation_request_strict|apply resize_request_strict|
    apply signal_request_strict|apply log_degraded_strict|apply operation_response_strict|
    apply session_exited_event_strict].
Qed.

(** ** Exit contexts: the decoder ignores the exit code of a response without one *)

Definition cwd_bytes (cwd : option str) : bytes :=
  match cwd with None => put_u8 0 | Some s => put_u8 1 ++ put_u16 (lenN s) ++ s end.

Definition context_ok (r : ExitContextResponse) : Prop :=
  is_u32 (c1_session_id r) /\ (forall c, c1_exit_code r = Some c -> is_i32 c) /\
  cwd_utf8 (c1_cwd r) /\ validate_exit_context_response r = Ok tt.

(** Exit code and directory are only reported for a session that ended. *)
Lemma validate_context_cases r : validate_exit_context_response r = Ok tt ->
  c1_session_id r <> 0 /\ validate_cwd (c1_cwd r) = Ok tt /\
  (c1_status r = StatusOk -> is_some (c1_exit_code r) = true) /\
  (c1_status r <> StatusOk -> c1_exit_code r = None /\ c1_cwd r = None).
Proof.
  destruct r as [i st x w]. unfold validate_exit_context_response. cbn. intros H. inv_ok. boolp.
  split_and!; [done..| |].
  - intros ->. by destruct x.
  - intros Hne. destruct st, x, w; done.
Qed.

Lemma context_cwd_ok r : context_ok r -> cwd_ok (c1_cwd r).
Proof.
  intros (_ & _ & Hu & (_ & Hv & _)%validate_context_cases). by apply validate_cwd_iff.
Qed.

Lemma encode_context_ok r : context_ok r ->
  encode_exit_context_response r =
  Ok (put_u32 (c1_session_id r) ++ put_u8 (encode_status (c1_status r)) ++
      put_u8 (of_bool (is_some (c1_exit_code r))) ++ put_i32 (default 0%Z (c1_exit_code r)) ++
      cwd_bytes (c1_cwd r)).
Proof.
  intros Hr. pose proof (context_cwd_ok r Hr) as Hc. destruct Hr as (_ & _ & _ & Hv).
  unfold encode_exit_context_response. by rewrite Hv, ok_bind, put_cwd, ok_bind.
Qed.

Lemma exit_code_default (o : option Z) :
  (forall c, o = Some c -> is_i32 c) -> is_i32 (default 0%Z o) /\
  (if is_some o then Some (default 0%Z o) else None) = o.
Proof. destruct o as [c|]; cbn; [auto|done]. Qed.

Lemma exit_context_decodes :
  Decodes encode_exit_context_response decode_exit_context_response context_ok.
Proof.
  intros r p Hr Hf He. rewrite encode_context_ok in He by done. injection He as <-.
  pose proof (context_cwd_ok r Hr) as Hc. destruct Hr as (Hi & Hx & _ & Hv).
  destruct (exit_code_default _ Hx) as [Hd Hdd]. unfold decode_exit_context_response.
  rewrite (proj2 (Reader.run_iff read_exit_context_response _ _ r
    ltac:(unfold read_exit_context_response; apply _) Hf)); [by rewrite ok_bind, Hv|].
  destruct r as [i st x w]. cbn in *.
  pex i. pex (encode_status st). { by destruct st. } pex st. { by apply operation_status_iff. }
  pex (is_some x). pex (default 0%Z x). exists w; eexists _, _; split; [by apply cwd_grammar_of|split].
  { rewrite Hdd. pend. } all: pend.
Qed.

Section v2.
Context `{SnapshotJsonLaws}.

Lemma environment_round e text : encode_environment e = Ok text ->
  decode_environment text = Ok e /\
  match text with None => True | Some t => lenN t <= MAX_SHELL_ENVIRONMENT_BYTES end.
Proof.
  destruct e as [s|]; cbn; [|by intros [= <-]].
  destruct (encode_environment_snapshot s) as [t|] eqn:He; cbn; [|done]. intros [= <-].
  pose proof (Environment.decode_encode_snapshot s t He) as Hd. cbn. rewrite Hd.
  split; [done|]. unfold encode_environment_snapshot in He. inv_ok. boolp. by subst.
Qed.

Definition text_bytes (text : option bytes) : bytes :=
  match text with None => put_u8 0 | Some t => put_u8 1 ++ put_u32 (lenN t) ++ t end.

Lemma put_text text :
  match text with None => True | Some t => lenN t <= MAX_SHELL_ENVIRONMENT_BYTES end ->
  put_optional_bytes_u32 text MAX_SHELL_ENVIRONMENT_BYTES = Ok (text_bytes text) /\
  match text with
  | None => text_bytes text = put_u8 0
  | Some v => text_bytes text = put_u8 1 ++ put_u32 (lenN v) ++ v /\
      lenN v <= MAX_SHELL_ENVIRONMENT_BYTES /\ is_u32 (lenN v)
  end.
Proof.
  intros Ht. assert (Hi : match text with
  | None => text_bytes text = put_u8 0
  | Some v => text_bytes text = put_u8 1 ++ put_u32 (lenN v) ++ v /\
      lenN v <= MAX_SHELL_ENVIRONMENT_BYTES /\ is_u32 (lenN v)
  end).
  { destruct text as [t|]; [|done]. split_and!; [done..|].
    unfold is_u32, MAX_SHELL_ENVIRONMENT_BYTES in *. lia. }
  split; [|done]. by apply Reader.put_optional_bytes_u32_iff.
Qed.

Definition exited_v2_ok (e : SessionExitedEventV2) : Prop :=
  session_exited_ok (mkExitedV1 (session_id e) (exit_code e) (cwd e)).
Definition context_v2_ok (r : ExitContextResponseV2) : Prop := context_ok (context_v1 r).

Lemma exited_v2_decodes :
  Decodes encode_session_exited_event_v2 decode_session_exited_event_v2 exited_v2_ok.
Proof.
  intros e p Hok Hf He. unfold encode_session_exited_event_v2 in He.
  rewrite encode_session_exited_ok, ok_bind in He by done. inv_ok.
  destruct (environment_round _ _ Hok0) as [Hd Hl].
  destruct (put_text _ Hl) as [Hp Hg]. rewrite Hp in Hok1. injection Hok1 as <-. subst p.
  destruct e as [i c w env]. destruct Hok as ([Hi Hne] & Hc & Hw). cbn in *.
  unfold decode_session_exited_event_v2.
  rewrite (proj2 (Reader.run_iff read_session_exited_event_v2 _ _ (mkExited i c w env)
    ltac:(unfold read_session_exited_event_v2; apply _) Hf)).
  - rewrite ok_bind. cbn [session_id cwd]. ndec.
    by rewrite (proj1 (proj2 (validate_cwd_iff w) Hw)).
  - pex i. pex c. exists w; eexists _, _; split; [by apply cwd_grammar_of|split].
    { exists x; eexists _, _; split; [exact Hg|split]. { pex env. all: pend. } pend. }
    all: pend.
Qed.

Lemma context_v2_decodes :
  Decodes encode_exit_context_response_v2 decode_exit_context_response_v2 context_v2_ok.
Proof.
  intros r p Hok Hf He. unfold encode_exit_context_response_v2 in He.
  destruct (validate_exit_context_response_v2 r) as [[]|] eqn:Hv; [|done].
  rewrite ok_bind, encode_context_ok, ok_bind in He by done. inv_ok.
  destruct (environment_round _ _ Hok0) as [Hd Hl].
  destruct (put_text _ Hl) as [Hp Hg]. rewrite Hp in Hok1. injection Hok1 as <-. subst p.
  pose proof (context_cwd_ok _ Hok) as Hw. destruct Hok as (Hi & Hx & _ & _).
  destruct (exit_code_default _ Hx) as [Hdx Hdd]. unfold decode_exit_context_response_v2.
  rewrite (proj2 (Reader.run_iff read_exit_context_response_v2 _ _ r
    ltac:(unfold read_exit_context_response_v2; apply _) Hf)); [by rewrite ok_bind, Hv|].
  destruct r as [i st c w env]. cbn in *.
  pex i. pex (encode_status st). { by destruct st. } pex st. { by apply operation_status_iff. }
  pex (is_some c). pex (default 0%Z c).
  exists w; eexists _, _; split; [by apply cwd_grammar_of|split].
  { exists x; eexists _, _; split; [exact Hg|split]. { pex env. { rewrite Hdd. pend. } all: pend. } pend. }
  all: pend.
Qed.

(** Exit contexts round-trip in both protocol minors, with their
    environment snapshot in minor 2, and a decoded exit context never reports
    an exit code, a directory or an environment for a failed lookup. *)
Theorem exit_codecs_roundtrip :
  Decodes encode_exit_context_response decode_exit_context_response context_ok /\
  Decodes encode_session_exited_event_v2 decode_session_exited_event_v2 exited_v2_ok /\
  Decodes encode_exit_context_response_v2 decode_exit_context_response_v2 context_v2_ok /\
  (forall p r, decode_exit_context_response_v2 p = Ok r -> ctx_status r <> StatusOk ->
     ctx_exit_code r = None /\ ctx_cwd r = None /\ ctx_environment r = None).
Proof.
  split_and!; [apply exit_context_decodes|apply exited_v2_decodes|apply context_v2_decodes|].
  intros p r Hd Hne. unfold decode_exit_context_response_v2 in Hd. inv_ok. subst.
  unfold validate_exit_context_response_v2 in Hok0. inv_ok. boolp.
  apply validate_context_cases in Hok1 as (_ & _ & _ & Hc). destruct (Hc Hne) as [Hx Hw].
  split_and!; [done..|]. rewrite (bool_decide_eq_false_2 _ Hne) in Hif. cbn in Hif.
  by destruct (ctx_environment r).
Qed.
End v2.

Lemma exit_codecs_roundtrip_witness :
  exists p, encode_session_exited_event_v2 (H := Environment.bits_json)
      (mkExited 3 (-1)%Z (Some (lit "/tmp")) (Some Environment.sample_snapshot)) = Ok p /\
    decode_session_exited_event_v2 (H := Environment.bits_json) p =
      Ok (mkExited 3 (-1)%Z (Some (lit "/tmp")) (Some Environment.sample_snapshot)).
Proof.
  destruct (exit_codecs_roundtrip (H := Environment.bits_json)
    (H0 := Environment.bits_json_laws)) as (_ & Hd & _).
  eexists. split; [vm_compute; reflexivity|]. apply Hd; [|by vm_compute|by vm_compute].
  unfold exited_v2_ok, session_exited_ok, session_ok. cbn. unfold string_ok.
  split_and!; by vm_compute.
Defined.
End Operation.

