(* ===== verification/HolderSession.v ===== *)
(** * HolderSession: creating and attaching to sessions.

    Models [crates/persist-ipc/src/holder/session.rs] with the request types of
    [holder/mod.rs]: the create request in its legacy form (one list of
    variables) and its structured form (the four groups of a
    [ShellLaunchEnvironment]), and the attach request. *)
From S2P Require Import Prelude Bytes Utf8 HolderWire Environment LaunchEnvironment.
From S2P Require Import HolderMessages HolderOperation.
From Stdlib Require Import Lia.
Import String.StringSyntax.
Import Reader(Parses, R, run, guard, lift, u8, u16, u32, fixed, times, string, optional_string,
  put_u8, put_u16, put_u32, put_string, put_string_allow_empty, put_optional_string, string_ok).
Import LaunchEnvironment(ShellLaunchEnvironment, mkLaunch, saved_set, saved_unset, connection,
  private, legacy_set_environment, launch_ok).
Local Open Scope N_scope.

Module Session.

Definition MAX_HOLDER_ENV_VARS : N := 128.
Definition MAX_HOLDER_ENV_NAME : N := 128.
Definition MAX_HOLDER_ENV_VALUE : N := 8192.
Definition MAX_HOLDER_ARGUMENTS : N := 16.
Definition MAX_HOLDER_ARGUMENT : N := 4096.
Definition MAX_HOLDER_RING_BUFFER : N := 64 * 1024 * 1024.

Record CreateSessionRequest : Type := mkCreate {
  session_id : N;
  shell : str;
  arguments : list str;
  cwd : option str;
  launch_environment : ShellLaunchEnvironment;
  history_file : option str;
  ring_buffer_size : N;
  log_path : option str;
  state_file : str;
  state_incarnation : bytes;
}.

Inductive HolderAttachMode : Type := ReadWrite | ReadOnly.

Record AttachRequest : Type := mkAttach {
  attach_session_id : N; mode : HolderAttachMode; replay_bytes : N }.

(** ** Validation *)

Definition is_absolute (value : str) : bool :=
  negb (lenN value =? 0) && negb (has_nul value) && path_is_absolute value.

Definition optional_absolute (value : option str) : bool :=
  match value with Some v => is_absolute v | None => true end.

Definition too_long (max : N) (value : option str) : bool :=
  match value with Some v => max <? lenN v | None => false end.

Definition validate_create (r : CreateSessionRequest) : result HolderProtocolError unit :=
  if (MAX_HOLDER_PATH <? lenN (shell r)) || (MAX_HOLDER_ARGUMENTS <? lenN (arguments r)) ||
     existsb (fun argument => MAX_HOLDER_ARGUMENT <? lenN argument) (arguments r) ||
     (MAX_HOLDER_ENV_VARS <? LaunchEnvironment.entry_count (launch_environment r)) ||
     too_long MAX_HOLDER_PATH (cwd r) || too_long MAX_HOLDER_PATH (history_file r) ||
     too_long MAX_HOLDER_PATH (log_path r) || (MAX_HOLDER_PATH <? lenN (state_file r))
  then Err PayloadTooLarge
  else if (session_id r =? 0) || (ring_buffer_size r =? 0) ||
     (MAX_HOLDER_RING_BUFFER <? ring_buffer_size r) || negb (is_absolute (shell r)) ||
     negb (optional_absolute (cwd r)) || negb (optional_absolute (history_file r)) ||
     negb (optional_absolute (log_path r)) || negb (is_absolute (state_file r)) ||
     bool_decide (state_incarnation r = zero16)
  then Err InvalidField
  else if existsb has_nul (arguments r) then Err InvalidField
  else Ok tt.

(** ** Encoding *)

Definition put_environment_pairs (environment : list (str * str))
  : result HolderProtocolError bytes :=
  body ← collect_ok (fun '(name, value) =>
           n ← put_string name MAX_HOLDER_ENV_NAME;
           v ← put_string_allow_empty value MAX_HOLDER_ENV_VALUE;
           Ok (n ++ v)) environment;
  Ok (put_u16 (as_u16 (lenN environment)) ++ concat body).

Definition put_environment_names (names : list str) : result HolderProtocolError bytes :=
  body ← collect_ok (fun name => put_string name MAX_HOLDER_ENV_NAME) names;
  Ok (put_u16 (as_u16 (lenN names)) ++ concat body).

Definition put_environment (e : ShellLaunchEnvironment) (structured_environment : bool)
  : result HolderProtocolError bytes :=
  if structured_environment then
    set ← put_environment_pairs (saved_set e);
    unset ← put_environment_names (saved_unset e);
    con ← put_environment_pairs (connection e);
    priv ← put_environment_pairs (private e);
    Ok (set ++ unset ++ con ++ priv)
  else put_environment_pairs (legacy_set_environment e).

Definition encode_create (r : CreateSessionRequest) (structured_environment : bool)
  : result HolderProtocolError bytes :=
  _ ← validate_create r;
  sh ← put_string (shell r) MAX_HOLDER_PATH;
  args ← collect_ok (fun a => put_string_allow_empty a MAX_HOLDER_ARGUMENT) (arguments r);
  dir ← put_optional_string (cwd r) MAX_HOLDER_PATH;
  env ← put_environment (launch_environment r) structured_environment;
  history ← put_optional_string (history_file r) MAX_HOLDER_PATH;
  log ← put_optional_string (log_path r) MAX_HOLDER_PATH;
  state ← put_string (state_file r) MAX_HOLDER_PATH;
  Ok (put_u32 (session_id r) ++ put_u32 (ring_buffer_size r) ++ sh ++
      put_u16 (as_u16 (lenN (arguments r))) ++ concat args ++ dir ++ env ++ history ++ log ++
      state ++ state_incarnation r).

Definition encode_create_request (r : CreateSessionRequest) := encode_create r false.
Definition encode_create_request_v2 (r : CreateSessionRequest) := encode_create r true.

(** ** Decoding *)

Definition read_environment_pairs : R (list (str * str)) :=
  count ← u16;
  _ ← guard (MAX_HOLDER_ENV_VARS <? count) PayloadTooLarge;
  times (N.to_nat count)
    (name ← string MAX_HOLDER_ENV_NAME; value ← string MAX_HOLDER_ENV_VALUE; mret (name, value)).

Definition read_environment_names : R (list str) :=
  count ← u16;
  _ ← guard (MAX_HOLDER_ENV_VARS <? count) PayloadTooLarge;
  times (N.to_nat count) (string MAX_HOLDER_ENV_NAME).

Definition invalid_field {A} (c : result persist_error A) : result HolderProtocolError A :=
  match c with Ok a => Ok a | Err _ => Err InvalidField end.

Definition read_launch_environment (structured_environment : bool) : R ShellLaunchEnvironment :=
  if structured_environment then
    saved_set ← read_environment_pairs;
    saved_unset ← read_environment_names;
    connection ← read_environment_pairs;
    private ← read_environment_pairs;
    _ ← guard (MAX_HOLDER_ENV_VARS <?
               lenN saved_set + lenN saved_unset + lenN connection + lenN private) PayloadTooLarge;
    lift (invalid_field (LaunchEnvironment.new saved_set saved_unset connection private))
  else
    pairs ← read_environment_pairs;
    lift (invalid_field (LaunchEnvironment.legacy pairs)).

Definition read_create (structured_environment : bool) : R CreateSessionRequest :=
  session_id ← u32;
  ring_buffer_size ← u32;
  shell ← string MAX_HOLDER_PATH;
  argument_count ← u16;
  _ ← guard (MAX_HOLDER_ARGUMENTS <? argument_count) PayloadTooLarge;
  arguments ← times (N.to_nat argument_count) (string MAX_HOLDER_ARGUMENT);
  cwd ← optional_string MAX_HOLDER_PATH;
  launch_environment ← read_launch_environment structured_environment;
  history_file ← optional_string MAX_HOLDER_PATH;
  log_path ← optional_string MAX_HOLDER_PATH;
  state_file ← string MAX_HOLDER_PATH;
  state_incarnation ← fixed 16;
  mret (mkCreate session_id shell arguments cwd launch_environment history_file ring_buffer_size
          log_path state_file state_incarnation).

Definition decode_create (payload : bytes) (structured_environment : bool)
  : result HolderProtocolError CreateSessionRequest :=
  request ← run (read_create structured_environment) payload;
  _ ← validate_create request;
  Ok request.

Definition decode_create_request (payload : bytes) := decode_create payload false.
Definition decode_create_request_v2 (payload : bytes) := decode_create payload true.

(** ** Attaching *)

Definition encode_mode (m : HolderAttachMode) : N :=
  match m with ReadWrite => 0 | ReadOnly => 1 end.

Definition encode_attach_request (r : AttachRequest) : bytes :=
  if (attach_session_id r =? 0) || (MAX_HOLDER_RING_BUFFER <? replay_bytes r) then []
  else put_u32 (attach_session_id r) ++ put_u8 (encode_mode (mode r)) ++ put_u32 (replay_bytes r).

Definition decode_mode (value : N) : result HolderProtocolError HolderAttachMode :=
  match value with 0 => Ok ReadWrite | 1 => Ok ReadOnly | _ => Err InvalidField end.

Definition read_attach_request : R AttachRequest :=
  session_id ← u32; code ← u8; mode ← lift (decode_mode code); replay_bytes ← u32;
  mret (mkAttach session_id mode replay_bytes).

Definition decode_attach_request (payload : bytes) : result HolderProtocolError AttachRequest :=
  request ← run read_attach_request payload;
  if (attach_session_id request =? 0) || (MAX_HOLDER_RING_BUFFER <? replay_bytes request)
  then Err InvalidField else Ok request.

Definition attach_ok (r : AttachRequest) : Prop :=
  is_u32 (attach_session_id r) /\ attach_session_id r <> 0 /\
  replay_bytes r <= MAX_HOLDER_RING_BUFFER.

(** Attach requests are strict. *)
Theorem attach_request_strict :
  StrictCodec (fun r => Ok (encode_attach_request r)) decode_attach_request attach_ok.
Proof.
  assert (Hm : forall n m, decode_mode n = Ok m <-> n = encode_mode m).
  { intros n m. split; [|intros ->; by destruct m]. destruct n as [|[p|p|]]; cbn; intros [= <-]; done. }
  eapply strict_checked; [unfold read_attach_request; apply _|].
  intros [i m b] bs. unfold encode_attach_request, attach_ok. cbn.
  rewrite orb_false_iff, N.eqb_neq, N.ltb_ge. split.
  - intros [H ?]. pinv. match goal with H : decode_mode _ = _ |- _ => apply Hm in H as -> end.
    ndec. pclose.
  - intros [(? & ? & ?) He]. revert He. ndec. intros [= <-]. split; [|done].
    pex i. pex (encode_mode m). { by destruct m. } pex m. { by apply Hm. }
    pex b. { unfold is_u32, MAX_HOLDER_RING_BUFFER in *. lia. } all: pend.
Qed.

(** ** The create request *)

Definition string_bytes (s : str) : bytes := put_u16 (lenN s) ++ s.
Definition pair_bytes (e : str * str) : bytes := string_bytes e.1 ++ string_bytes e.2.
Definition pairs_bytes (l : list (str * str)) : bytes :=
  put_u16 (lenN l) ++ concat (map pair_bytes l).
Definition names_bytes (l : list str) : bytes := put_u16 (lenN l) ++ concat (map string_bytes l).
Definition option_bytes (o : option str) : bytes :=
  match o with None => put_u8 0 | Some s => put_u8 1 ++ string_bytes s end.

Definition pair_string_ok (e : str * str) : Prop :=
  string_ok MAX_HOLDER_ENV_NAME e.1 /\ string_ok MAX_HOLDER_ENV_VALUE e.2.

Definition option_ok (o : option str) : Prop :=
  forall s, o = Some s -> string_ok MAX_HOLDER_PATH s.

Lemma strings_parses n max :
  Parses (times n (string max)) (fun l bs =>
    length l = n /\ Forall (string_ok max) l /\ bs = concat (map string_bytes l)).
Proof.
  eapply Reader.parses_ext; [apply _|]. intros l bs. cbn. split.
  - intros (Hl & bss & HF & ->). apply (Forall2_map_iff string_bytes) in HF as [? ->]. done.
  - intros (Hl & HF & ->). split; [done|]. eexists. split; [|done].
    by apply (Forall2_map_iff string_bytes).
Qed.

#[local] Existing Instance strings_parses | 0.

#[local] Instance environment_pairs_parses : Parses read_environment_pairs (fun l bs =>
  lenN l <= MAX_HOLDER_ENV_VARS /\ Forall pair_string_ok l /\ bs = pairs_bytes l).
Proof.
  eapply Reader.parses_ext; [unfold read_environment_pairs; apply _|]. intros l bs. cbn. split.
  - intros H. pinv. match goal with H : length l = N.to_nat ?n |- _ =>
      assert (n = lenN l) as -> by (unfold lenN; lia) end. split; [done|].
    match goal with H : Forall2 _ l ?b |- _ =>
      assert (HF : Forall2 (fun e bs => bs = pair_bytes e /\ pair_string_ok e) l b);
      [eapply Forall2_impl; [exact H|]|] end.
    { intros e b He. pinv. unfold pair_bytes, string_bytes, pair_string_ok. cbn.
      split; [by rewrite <- ?app_assoc|done]. }
    apply Forall2_map_iff in HF as [? ->]. done.
  - intros (Hl & HF & ->). pex (lenN l). { unfold is_u16, MAX_HOLDER_ENV_VARS in *. lia. }
    pguard. { by apply N.ltb_ge. } all: try reflexivity.
    split; [unfold lenN; lia|]. exists (map pair_bytes l). split; [|done].
    eapply Forall2_impl; [apply (Forall2_map_iff pair_bytes pair_string_ok); by split|].
    intros [n v] b [-> [Hn Hv]]. cbn in *. unfold pair_bytes, string_bytes. cbn.
    pex n. pex v. all: try (split; reflexivity). all: try reflexivity. pnorm.
Qed.

#[local] Instance environment_names_parses : Parses read_environment_names (fun l bs =>
  lenN l <= MAX_HOLDER_ENV_VARS /\ Forall (string_ok MAX_HOLDER_ENV_NAME) l /\ bs = names_bytes l).
Proof.
  eapply Reader.parses_ext; [unfold read_environment_names; apply _|]. intros l bs. cbn. split.
  - intros H. pinv. match goal with H : length l = N.to_nat ?n |- _ =>
      assert (n = lenN l) as -> by (unfold lenN; lia) end. done.
  - intros (Hl & HF & ->). pex (lenN l). { unfold is_u16, MAX_HOLDER_ENV_VARS in *. lia. }
    pguard. { by apply N.ltb_ge. } all: try reflexivity.
    split; [unfold lenN; lia|done].
Qed.

(** All strings of an environment are UTF-8. *)
Definition environment_utf8 (e : ShellLaunchEnvironment) : Prop :=
  Forall (fun x => str_ok x.2) (legacy_set_environment e).

Definition environment_bytes (e : ShellLaunchEnvironment) : bytes :=
  pairs_bytes (saved_set e) ++ names_bytes (saved_unset e) ++ pairs_bytes (connection e) ++
  pairs_bytes (private e).

Lemma name_string_ok n :
  Environment.valid_name n = true -> string_ok MAX_HOLDER_ENV_NAME n /\ n <> [].
Proof.
  unfold Environment.valid_name, Environment.MAX_SHELL_ENVIRONMENT_NAME_BYTES. intros H. boolp.
  assert (Ha : forall b, Environment.name_byte b = true -> is_ascii_byte b = true /\ byte_val b <> 0).
  { intros b. unfold Environment.name_byte, is_ascii_byte, is_ascii_alphanumeric,
      is_ascii_alphabetic, is_ascii_lower, is_ascii_upper, is_ascii_digit.
    rewrite !orb_true_iff, !andb_true_iff, !N.leb_le, bool_decide_eq_true, N.ltb_lt.
    intros [->|[[?|?]|?]]; [by vm_compute|lia..]. }
  unfold string_ok, MAX_HOLDER_ENV_NAME, is_u16. split_and!; [..|lia|lia|by intros ->].
  - apply utf8_valid_ascii. rewrite forallb_forall in *. intros b Hb. by apply Ha, H0.
  - unfold has_nul. apply not_true_iff_false. intros (b & Hb & Hz%N.eqb_eq)%existsb_exists.
    rewrite forallb_forall in H0. by destruct (Ha b (H0 b Hb)).
Qed.

Lemma pair_strings e :
  LaunchEnvironment.pair_ok e -> str_ok e.2 -> pair_string_ok e /\ e.1 <> [].
Proof.
  intros (Hn & Hl & Hz) Hu. destruct (name_string_ok _ Hn) as [? ?]. split; [|done].
  split; [done|]. unfold string_ok, MAX_HOLDER_ENV_VALUE, is_u16.
  unfold Environment.MAX_SHELL_ENVIRONMENT_VALUE_BYTES in Hl. split_and!; [done|done|lia|lia].
Qed.

Lemma put_string_bytes s max : string_ok max s -> s <> [] -> put_string s max = Ok (string_bytes s).
Proof. intros Hs Hne. by apply (proj2 (Reader.put_string_iff s max (string_bytes s))). Qed.

Lemma put_string_allow_empty_bytes s max :
  string_ok max s -> put_string_allow_empty s max = Ok (string_bytes s).
Proof. intros Hs. by apply (proj2 (Reader.put_string_allow_empty_iff s max (string_bytes s))). Qed.

Lemma put_pairs_bytes l :
  lenN l <= MAX_HOLDER_ENV_VARS -> Forall (fun e => pair_string_ok e /\ e.1 <> []) l ->
  put_environment_pairs l = Ok (pairs_bytes l).
Proof.
  intros Hl HF. unfold put_environment_pairs. rewrite (collect_ok_map _ pair_bytes).
  - rewrite ok_bind. unfold as_u16. rewrite N.mod_small by (unfold MAX_HOLDER_ENV_VARS in *; lia). done.
  - eapply Forall_impl; [exact HF|]. intros [n v] [[Hn Hv] Hne]. cbn in *.
    by rewrite put_string_bytes, ok_bind, put_string_allow_empty_bytes.
Qed.

Lemma put_names_bytes l :
  lenN l <= MAX_HOLDER_ENV_VARS -> Forall (fun n => string_ok MAX_HOLDER_ENV_NAME n /\ n <> []) l ->
  put_environment_names l = Ok (names_bytes l).
Proof.
  intros Hl HF. unfold put_environment_names. rewrite (collect_ok_map _ string_bytes).
  - rewrite ok_bind. unfold as_u16. rewrite N.mod_small by (unfold MAX_HOLDER_ENV_VARS in *; lia). done.
  - eapply Forall_impl; [exact HF|]. intros n [Hn Hne]. by rewrite put_string_bytes.
Qed.

(** Sizes and strings of the groups of a valid environment. *)
Lemma launch_groups e : launch_ok e -> environment_utf8 e ->
  lenN (saved_set e) + lenN (saved_unset e) + lenN (connection e) + lenN (private e)
    <= MAX_HOLDER_ENV_VARS /\
  Forall (fun x => pair_string_ok x /\ x.1 <> []) (legacy_set_environment e) /\
  Forall (fun n => string_ok MAX_HOLDER_ENV_NAME n /\ n <> []) (saved_unset e).
Proof.
  intros [Hc Hp Hs _ _ _] Hu. split_and!; [done|..].
  - unfold environment_utf8 in Hu. rewrite Forall_forall in *. intros x Hx.
    apply pair_strings; auto.
  - apply Forall_app in Hs as [_ Hs]. eapply Forall_impl; [exact Hs|].
    intros n [Hn _]. by apply name_string_ok.
Qed.

Lemma put_environment_bytes e : launch_ok e -> environment_utf8 e ->
  put_environment e true = Ok (environment_bytes e) /\
  put_environment e false = Ok (pairs_bytes (legacy_set_environment e)).
Proof.
  intros He Hu. destruct (launch_groups e He Hu) as (Hc & Hp & Hn).
  unfold put_environment, environment_bytes.
  assert (Hl : lenN (legacy_set_environment e) <= MAX_HOLDER_ENV_VARS)
    by (unfold legacy_set_environment; len).
  rewrite (put_pairs_bytes (legacy_set_environment e)) by done. split; [|done].
  unfold legacy_set_environment in Hp. rewrite !Forall_app in Hp. destruct Hp as (P1 & P2 & P3).
  rewrite (put_pairs_bytes (saved_set e)), ok_bind by (try done; lia).
  rewrite (put_names_bytes (saved_unset e)), ok_bind by (try done; lia).
  rewrite (put_pairs_bytes (connection e)), ok_bind by (try done; lia).
  by rewrite (put_pairs_bytes (private e)), ok_bind by (try done; lia).
Qed.

Lemma invalid_field_iff {A} (c : result persist_error A) a : invalid_field c = Ok a <-> c = Ok a.
Proof. destruct c; cbn; split; congruence. Qed.

Lemma launch_pairs_strings e : launch_ok e -> environment_utf8 e ->
  Forall pair_string_ok (legacy_set_environment e).
Proof.
  intros He Hu. destruct (launch_groups e He Hu) as (_ & Hp & _).
  eapply Forall_impl; [exact Hp|]. by intros x [? _].
Qed.

#[local] Instance structured_parses : Parses (read_launch_environment true) (fun e bs =>
  launch_ok e /\ environment_utf8 e /\ bs = environment_bytes e).
Proof.
  assert (Hp : forall l, Forall pair_string_ok l -> Forall (fun x : str * str => str_ok x.2) l).
  { intros l Hl. eapply Forall_impl; [exact Hl|]. by intros x (_ & ? & _). }
  eapply Reader.parses_ext; [unfold read_launch_environment; cbv iota; apply _|].
  intros e bs. cbn. unfold environment_bytes. split.
  - intros H. pinv. match goal with H : invalid_field _ = _ |- _ =>
      apply invalid_field_iff, LaunchEnvironment.new_iff in H as [-> ?] end.
    cbn [saved_set saved_unset connection private]. split_and!; [done| |done].
    unfold environment_utf8, legacy_set_environment. cbn. rewrite !Forall_app. auto.
  - intros (He & Hu & ->). pose proof (launch_pairs_strings e He Hu) as HF.
    destruct (launch_groups e He Hu) as (Hc & _ & Hn).
    unfold legacy_set_environment in HF. rewrite !Forall_app in HF. destruct HF as (F1 & F2 & F3).
    assert (Hn' : Forall (string_ok MAX_HOLDER_ENV_NAME) (saved_unset e))
      by (eapply Forall_impl; [exact Hn|]; by intros n [? _]).
    exists (saved_set e); eexists _, _; split; [split_and!; [lia|done|reflexivity]|split].
    exists (saved_unset e); eexists _, _; split; [split_and!; [lia|done|reflexivity]|split].
    exists (connection e); eexists _, _; split; [split_and!; [lia|done|reflexivity]|split].
    exists (private e); eexists _, _; split; [split_and!; [lia|done|reflexivity]|split].
    exists tt; eexists _, _; split; [split; [by apply N.ltb_ge|reflexivity]|split].
    split; [|reflexivity]. apply invalid_field_iff, LaunchEnvironment.new_iff.
    split; [by destruct e|done]. all: try reflexivity. pnorm.
Qed.

#[local] Instance legacy_parses : Parses (read_launch_environment false) (fun e bs =>
  launch_ok e /\ environment_utf8 e /\ e = mkLaunch [] [] [] (private e) /\
  bs = pairs_bytes (private e)).
Proof.
  eapply Reader.parses_ext; [unfold read_launch_environment; cbv iota; apply _|].
  intros e bs. cbn. split.
  - intros H. pinv. match goal with H : invalid_field _ = _ |- _ =>
      apply invalid_field_iff, LaunchEnvironment.new_iff in H as [-> ?] end.
    cbn [private]. split_and!; try done.
    unfold environment_utf8, legacy_set_environment. cbn.
    eapply Forall_impl; [eassumption|]. by intros ? (_ & ? & _).
  - intros (He & Hu & Heq & ->). pose proof (launch_pairs_strings e He Hu) as HF.
    destruct (launch_groups e He Hu) as (Hc & _ & _).
    unfold legacy_set_environment in HF. rewrite !Forall_app in HF.
    exists (private e); eexists _, _; split; [split_and!; [lia|apply HF|reflexivity]|split].
    split; [|reflexivity]. apply invalid_field_iff, LaunchEnvironment.new_iff.
    by rewrite <- Heq. pnorm.
Qed.

Record create_ok (r : CreateSessionRequest) : Prop := {
  create_ints : is_u32 (session_id r) /\ is_u32 (ring_buffer_size r);
  create_strings : str_ok (shell r) /\ str_ok (state_file r) /\ Forall str_ok (arguments r) /\
    (forall s, cwd r = Some s \/ history_file r = Some s \/ log_path r = Some s -> str_ok s);
  create_incarnation : lenN (state_incarnation r) = 16;
  create_environment : launch_ok (launch_environment r) /\ environment_utf8 (launch_environment r);
  create_valid : validate_create r = Ok tt;
}.

Lemma is_absolute_nonempty s : is_absolute s = true -> has_nul s = false /\ s <> [].
Proof. unfold is_absolute. intros H. boolp. split; [done|by intros ->]. Qed.

Definition path_field (s : str) : Prop := string_ok MAX_HOLDER_PATH s /\ s <> [].

Lemma path_string s : is_absolute s = true -> lenN s <= MAX_HOLDER_PATH -> str_ok s -> path_field s.
Proof.
  intros [Hn Hne]%is_absolute_nonempty Hl Hu. split; [|done].
  unfold string_ok, is_u16. unfold MAX_HOLDER_PATH in *. split_and!; [done..|lia].
Qed.

Definition option_field (o : option str) : Prop := forall s, o = Some s -> path_field s.

Lemma option_path o : optional_absolute o = true -> too_long MAX_HOLDER_PATH o = false ->
  (forall s, o = Some s -> str_ok s) -> option_field o.
Proof.
  intros Ha Hl Hu s ->. cbn in *. apply path_string; auto. by apply N.ltb_ge.
Qed.

(** The string fields of a valid request fit their encodings. *)
Lemma create_fields r : create_ok r ->
  path_field (shell r) /\ path_field (state_file r) /\ lenN (arguments r) <= MAX_HOLDER_ARGUMENTS /\
  Forall (string_ok MAX_HOLDER_ARGUMENT) (arguments r) /\
  option_field (cwd r) /\ option_field (history_file r) /\ option_field (log_path r).
Proof.
  intros [_ (Hsh & Hst & Ha & Ho) _ _ Hv]. unfold validate_create in Hv. inv_ok. boolp.
  split_and!; [by apply path_string|by apply path_string|done| |apply option_path; eauto..].
  apply Forall_forall. intros a Hin. rewrite Forall_forall in Ha. unfold string_ok.
  assert (Hl : lenN a <= MAX_HOLDER_ARGUMENT).
  { match goal with H : existsb (fun _ => _ <? _) _ = false |- _ =>
      apply (existsb_false_elem _ _ _ H) in Hin end. by boolp. }
  split_and!; [by apply Ha| |done|unfold is_u16, MAX_HOLDER_ARGUMENT in *; lia].
  by match goal with H : existsb has_nul _ = false |- _ =>
    apply (existsb_false_elem _ _ _ H) in Hin end.
Qed.

Definition create_bytes (r : CreateSessionRequest) (environment : bytes) : bytes :=
  put_u32 (session_id r) ++ put_u32 (ring_buffer_size r) ++ string_bytes (shell r) ++
  put_u16 (lenN (arguments r)) ++ concat (map string_bytes (arguments r)) ++
  option_bytes (cwd r) ++ environment ++ option_bytes (history_file r) ++
  option_bytes (log_path r) ++ string_bytes (state_file r) ++ state_incarnation r.

Lemma put_option_bytes o : option_field o ->
  put_optional_string o MAX_HOLDER_PATH = Ok (option_bytes o).
Proof.
  intros Ho. apply (proj2 (Reader.put_optional_string_iff o MAX_HOLDER_PATH (option_bytes o))).
  destruct o as [s|]; [|done]. split; [done|]. by apply (Ho s).
Qed.

Lemma encode_create_ok r structured env : create_ok r ->
  put_environment (launch_environment r) structured = Ok env ->
  encode_create r structured = Ok (create_bytes r env).
Proof.
  intros Hr He. destruct (create_fields r Hr) as ([? ?] & [? ?] & Hn & Ha & Hc & Hh & Hl).
  unfold encode_create. rewrite (create_valid r Hr), ok_bind.
  rewrite (put_string_bytes (shell r)), ok_bind by done.
  rewrite (collect_ok_map _ string_bytes), ok_bind
    by (eapply Forall_impl; [exact Ha|]; intros; by apply put_string_allow_empty_bytes).
  rewrite (put_option_bytes (cwd r)), ok_bind, He, ok_bind by done.
  rewrite (put_option_bytes (history_file r)), ok_bind by done.
  rewrite (put_option_bytes (log_path r)), ok_bind by done.
  rewrite (put_string_bytes (state_file r)), ok_bind by done. unfold create_bytes, as_u16.
  by rewrite N.mod_small by (unfold MAX_HOLDER_ARGUMENTS in *; lia).
Qed.

Lemma option_grammar o : option_field o ->
  match o with
  | None => option_bytes o = put_u8 0
  | Some s => option_bytes o = put_u8 1 ++ put_u16 (lenN s) ++ s /\ string_ok MAX_HOLDER_PATH s
  end.
Proof. destruct o as [s|]; [|done]. intros Ho. split; [done|]. by apply (Ho s). Qed.

Lemma option_grammar_inv o bs :
  match o with
  | None => bs = put_u8 0
  | Some s => bs = put_u8 1 ++ put_u16 (lenN s) ++ s /\ string_ok MAX_HOLDER_PATH s
  end -> bs = option_bytes o /\ (forall s, o = Some s -> str_ok s).
Proof. destruct o as [s|]; [|done]. intros [-> (? & _)]. split; [done|]. by intros ? [= <-]. Qed.

(** The grammar of [read_create], given the one of the environment. *)
Section create.
Context (structured : bool) (W : ShellLaunchEnvironment -> bytes -> Prop).
Context (HW : Parses (read_launch_environment structured) W).
Context (HWok : forall e bs, W e bs -> launch_ok e /\ environment_utf8 e /\
  put_environment e structured = Ok bs).

Lemma decode_create_iff p r : fits p ->
  decode_create p structured = Ok r <->
  create_ok r /\ exists env, W (launch_environment r) env /\ encode_create r structured = Ok p.
Proof.
  intros Hf. unfold decode_create.
  assert (HP : Parses (read_create structured) _) by (unfold read_create; apply _).
  split.
  - intros H. inv_ok. subst x. apply (Reader.run_iff _ _ _ _ HP Hf) in Hok. cbn in Hok. pinv.
    repeat match goal with H : match _ with Some _ => _ | None => _ end |- _ =>
      apply option_grammar_inv in H as [-> ?] end.
    match goal with H : W ?e ?b |- _ => pose proof (HWok _ _ H) as (He1 & He2 & He3) end.
    match goal with H : length ?l = N.to_nat ?n |- _ =>
      assert (n = lenN l) as -> by (unfold lenN; lia) end.
    match goal with |- create_ok ?r /\ _ => assert (Hr : create_ok r) end.
    { split; cbn; try done. split_and!.
      - by match goal with H : string_ok _ ?s |- str_ok ?s => destruct H end.
      - by match goal with H : string_ok _ ?s |- str_ok ?s => destruct H end.
      - eapply Forall_impl; [eassumption|]. by intros ? [? _].
      - naive_solver. }
    split; [done|]. eexists. split; [eassumption|].
    rewrite (encode_create_ok _ _ _ Hr He3). unfold create_bytes. f_equal.
  - intros (Hr & env & Henv & He). pose proof (HWok _ _ Henv) as (_ & _ & Hput).
    rewrite (encode_create_ok r _ env Hr Hput) in He. injection He as <-.
    destruct (create_fields r Hr) as ([? ?] & [? ?] & Hn & Ha & Hc & Hh & Hl).
    rewrite (proj2 (Reader.run_iff _ _ _ r HP Hf)); [by rewrite ok_bind, (create_valid r Hr)|].
    destruct Hr as [[? ?] _ Hi _ _]. destruct r as [i sh args w e h rb lp sf inc]. cbn in *.
    unfold create_bytes, string_bytes at 1 3. cbn [session_id ring_buffer_size shell arguments
      cwd history_file log_path state_file state_incarnation].
    pex i. pex rb. pex sh. pex (lenN args). { unfold is_u16, MAX_HOLDER_ARGUMENTS in *. lia. }
    pguard. { by apply N.ltb_ge. }
    exists args; eexists _, _; split; [split; [unfold lenN; lia|split; [done|reflexivity]]|split].
    exists w; eexists _, _; split; [by apply option_grammar|split].
    exists e; eexists _, _; split; [exact Henv|split].
    exists h; eexists _, _; split; [by apply option_grammar|split].
    exists lp; eexists _, _; split; [by apply option_grammar|split].
    pex sf. pex inc. all: pend.
Qed.
End create.

Definition with_environment (r : CreateSessionRequest) (e : ShellLaunchEnvironment) :=
  mkCreate (session_id r) (shell r) (arguments r) (cwd r) e (history_file r) (ring_buffer_size r)
    (log_path r) (state_file r) (state_incarnation r).

(** What a version-1 peer sees of an environment: the variables to set. *)
Definition legacy_view (e : ShellLaunchEnvironment) : ShellLaunchEnvironment :=
  mkLaunch [] [] [] (legacy_set_environment e).

Lemma total_app {A} (size : A -> N) l1 l2 :
  LaunchEnvironment.total size (l1 ++ l2) =
  LaunchEnvironment.total size l1 + LaunchEnvironment.total size l2.
Proof.
  induction l1 as [|x l1 IH]; [done|]. cbn [app].
  rewrite !LaunchEnvironment.total_cons, IH. lia.
Qed.

Lemma legacy_view_ok e : launch_ok e -> launch_ok (legacy_view e).
Proof.
  intros [Hc Hp Hs Hcon Hn Hb].
  unfold legacy_view, LaunchEnvironment.entry_count, LaunchEnvironment.names, legacy_set_environment in *.
  split; unfold LaunchEnvironment.entry_count, LaunchEnvironment.names, legacy_set_environment;
    cbn [saved_set saved_unset connection private app fmap list_fmap]; try done.
  - rewrite !lenN_app. change (lenN (@nil (str * str))) with 0. change (lenN (@nil str)) with 0. lia.
  - rewrite !fmap_app. rewrite !NoDup_app in *. destruct Hn as (N1 & D1 & N2 & D2 & N3 & D3 & N4).
    split_and!; try done. intros n Hn1. specialize (D1 n Hn1). rewrite !elem_of_app in *. tauto.
  - rewrite !total_app. cbn [LaunchEnvironment.total foldr]. lia.
Qed.

Lemma validate_create_environment r e :
  validate_create r = Ok tt -> LaunchEnvironment.entry_count e <= MAX_HOLDER_ENV_VARS ->
  validate_create (with_environment r e) = Ok tt.
Proof.
  unfold validate_create. cbn [shell arguments launch_environment cwd history_file log_path
    state_file session_id ring_buffer_size state_incarnation with_environment].
  intros Hv He. inv_ok. boolp.
  repeat match goal with H : ?b = _ |- context [?b] => rewrite H; clear H end.
  by ndec.
Qed.

(** What a request that decodes satisfies. *)
Lemma decode_create_ok p structured r : fits p -> decode_create p structured = Ok r -> create_ok r.
Proof.
  intros Hf. destruct structured.
  - intros H. apply (decode_create_iff true _ structured_parses) in H; [by apply H| |done].
    intros e bs (He & Hu & ->). by destruct (put_environment_bytes e He Hu).
  - intros H. apply (decode_create_iff false _ legacy_parses) in H; [by apply H| |done].
    intros e bs (He & Hu & Heq & ->). split_and!; [done..|].
    destruct (put_environment_bytes e He Hu) as [_ Hp]. rewrite Hp. do 2 f_equal. by rewrite Heq.
Qed.

Lemma create_bounds r : create_ok r ->
  is_u32 (session_id r) /\ session_id r <> 0 /\ 0 < ring_buffer_size r <= MAX_HOLDER_RING_BUFFER.
Proof.
  intros [[Hi _] _ _ _ Hv]. unfold validate_create in Hv. inv_ok. boolp.
  split_and!; try done; lia.
Qed.

(** Create requests.  The structured form is strict.  The legacy form
    loses only the grouping of the environment and the variables to unset:
    decoding it gives the request with the variables to set as one list. *)
Theorem create_request_codecs :
  StrictCodec encode_create_request_v2 decode_create_request_v2 create_ok /\
  (forall r p, create_ok r -> fits p -> encode_create_request r = Ok p ->
     decode_create_request p = Ok (with_environment r (legacy_view (launch_environment r)))).
Proof.
  split.
  - split. intros p r Hf. unfold decode_create_request_v2.
    rewrite (decode_create_iff true _ structured_parses); [|intros e bs (He & Hu & ->)|done].
    + split; [intros (Hr & _ & _ & He); done|]. intros [Hr He]. split; [done|].
      exists (environment_bytes (launch_environment r)). split; [|done].
      destruct (create_environment r Hr). done.
    + by destruct (put_environment_bytes e He Hu).
  - intros r p Hr Hf He. unfold decode_create_request.
    destruct (create_environment r Hr) as [Hl Hu]. set (e := launch_environment r) in *.
    pose proof (legacy_view_ok e Hl) as Hl'. destruct (put_environment_bytes e Hl Hu) as [_ Hput].
    assert (Hu' : environment_utf8 (legacy_view e)) by done.
    assert (Hr' : create_ok (with_environment r (legacy_view e))).
    { destruct Hr. split; try done. apply validate_create_environment; [done|apply Hl']. }
    rewrite (decode_create_iff false _ legacy_parses); [|intros e0 bs (He0 & Hu0 & Heq & ->)|done].
    + split; [done|]. exists (pairs_bytes (legacy_set_environment e)). split; [done|].
      rewrite (encode_create_ok _ false (pairs_bytes (legacy_set_environment e)) Hr' Hput).
      unfold encode_create_request in He.
      rewrite (encode_create_ok _ _ _ Hr Hput) in He. done.
    + split_and!; [done..|]. destruct (put_environment_bytes e0 He0 Hu0) as [_ Hp].
      rewrite Hp. do 2 f_equal. rewrite Heq. done.
Qed.

Definition sample_environment : ShellLaunchEnvironment :=
  mkLaunch [(lit "APP", lit "x")] [lit "LANG"] [(lit "TERM", lit "xterm")]
    [(lit "PERSIST_X", lit "1")].

Definition sample_create : CreateSessionRequest :=
  mkCreate 7 (lit "/bin/sh") [lit "-l"] None sample_environment None 4096 None (lit "/s")
    (replicate 16 Byte.x01).

Lemma sample_environment_ok : launch_ok sample_environment.
Proof.
  apply (LaunchEnvironment.new_iff [(lit "APP", lit "x")] [lit "LANG"]
    [(lit "TERM", lit "xterm")] [(lit "PERSIST_X", lit "1")]).
  vm_compute. reflexivity.
Qed.

Lemma sample_create_ok : create_ok sample_create.
Proof.
  split; [by vm_compute| |by vm_compute| |by vm_compute].
  - split_and!; [by vm_compute..|repeat constructor|]. by intros s [[=]|[[=]|[=]]].
  - split; [exact sample_environment_ok|]. repeat constructor.
Qed.

Lemma create_request_codecs_witness :
  exists p, encode_create_request sample_create = Ok p /\
    decode_create_request p =
      Ok (with_environment sample_create (legacy_view (launch_environment sample_create))).
Proof.
  eexists. split; [vm_compute; reflexivity|].
  apply (proj2 create_request_codecs); [exact sample_create_ok|by vm_compute|by vm_compute].
Defined.
End Session.

