(* ===== verification/ShellState.v ===== *)
(** * ShellState: the identity of a session's state file, and what it may hold.

    Models [crates/persist-core/src/shell_state.rs] (identities, envelopes and
    their validation), the decisions of [shell_state/io.rs] and
    [shell_state/unix.rs] ([read_validated], [write_atomic], the checks on
    owner, type and mode), and [validated_identity] and [capture] of
    [crates/persist-holder/src/runtime/state.rs].  The kernel's answers (what
    [openat] finds, what [fstat] says) are arguments; [serde_json] is a class. *)
From S2P Require Import Prelude Bytes Utf8 HolderWire Environment HolderOperation.
From Stdlib Require Import Lia.
From stdpp Require Import pretty.
Import String.StringSyntax.
Import Environment(SnapshotJson, SnapshotJsonLaws, EnvironmentSnapshot, validate_hard_limits,
  encode_environment_snapshot, MAX_SHELL_ENVIRONMENT_BYTES).
Local Open Scope N_scope.

(** ** [std::path::Path] on Unix, for the operations the code uses *)

Module Path.

Inductive component : Type := RootDir | CurDir | ParentDir | Normal (name : str).

#[global] Instance component_eq_dec : EqDecision component.
Proof. solve_decision. Defined.

Definition slash : byte := Byte.x2f.

(** The pieces between separators; a path of [n] separators has [n + 1]. *)
Fixpoint pieces (s : str) : list str :=
  match s with
  | [] => [[]]
  | b :: s' =>
      if bool_decide (b = slash) then [] :: pieces s'
      else match pieces s' with p :: ps => (b :: p) :: ps | [] => [[b]] end
  end.

Definition component_of (piece : str) : option component :=
  if bool_decide (piece = []) || bool_decide (piece = lit ".") then None
  else if bool_decide (piece = lit "..") then Some ParentDir else Some (Normal piece).

Definition is_absolute (s : str) : bool := starts_with [slash] s.

(** [Path::components]: empty pieces and [.] are skipped, except a leading [.]
    of a relative path. *)
Definition components (s : str) : list component :=
  (if is_absolute s then [RootDir]
   else match pieces s with p :: _ => if bool_decide (p = lit ".") then [CurDir] else [] | [] => [] end)
  ++ omap component_of (pieces s).

(** [Path::file_name] and [Path::parent], on components; paths are equal when
    their components are. *)
Definition file_name (p : list component) : option str :=
  match last p with Some (Normal name) => Some name | _ => None end.

Definition parent (p : list component) : option (list component) :=
  match last p with
  | Some RootDir | None => None
  | Some _ => Some (take (pred (length p)) p)
  end.

Lemma file_name_parent p name q :
  file_name p = Some name -> parent p = Some q -> p = q ++ [Normal name].
Proof.
  unfold file_name, parent. intros Hf Hp. destruct (last p) as [c|] eqn:Hl; [|done].
  apply last_Some in Hl as [p' ->]. destruct c; try done. injection Hf as ->. injection Hp as <-.
  rewrite length_app, Nat.add_1_r. cbn [pred]. by rewrite take_app_length.
Qed.
End Path.

Module ShellState.

Definition SHELL_STATE_VERSION : N := 2.
Definition SHELL_STATE_LEGACY_VERSION : N := 1.
Definition MAX_SHELL_STATE_BYTES : N := 72 * 1024.
Definition MAX_SHELL_CWD_BYTES : N := 4096.
Definition MAX_STATE_PATH_BYTES : N := 4096.

Record ShellStateIdentity : Type := mkIdentity {
  id_session_id : N; id_incarnation : bytes; state_file : str }.

Record ShellStateEnvelope : Type := mkEnvelope {
  version : N;
  session_id : N;
  incarnation : str;
  sequence : N;
  cwd : str;
  environment : option EnvironmentSnapshot;
}.

(** ** Names *)

(** [HEX[n as usize]] *)
Definition HEX : list byte := lit "0123456789abcdef".
Definition hex_char (n : N) : byte := nth (N.to_nat n) HEX Byte.x00.

Definition encode_incarnation (value : bytes) : str :=
  concat (map (fun b => [hex_char (N.shiftr (byte_val b) 4); hex_char (N.land (byte_val b) 0x0f)]) value).

(** [format!("{session_id}-{}.json", encode_incarnation(incarnation))] *)
Definition decimal (n : N) : str := lit (pretty n).
Definition expected_name (session_id : N) (incarnation : bytes) : str :=
  decimal session_id ++ lit "-" ++ encode_incarnation incarnation ++ lit ".json".

Definition zero16 : bytes := replicate 16 Byte.x00.

(** A [String] is valid UTF-8, so [to_str] always succeeds. *)
Definition identity_from_parts (session_id : N) (incarnation : bytes) (state_file : str)
  : result persist_error ShellStateIdentity :=
  if session_id =? 0 then invalid_argument "shell state session id must be non-zero"
  else if bool_decide (incarnation = zero16)
  then invalid_argument "shell state incarnation must be non-zero"
  else if negb (Path.is_absolute state_file) || (MAX_STATE_PATH_BYTES <? lenN state_file) ||
          has_nul state_file
  then invalid_argument "shell state path is invalid"
  else
    let path := Path.components state_file in
    if negb (bool_decide (Path.file_name path = Some (expected_name session_id incarnation))) ||
       negb (bool_decide (Path.parent path ≫= Path.file_name = Some (lit "session-state")))
    then invalid_argument "shell state path does not match identity"
    else Ok (mkIdentity session_id incarnation state_file).

(** persist-holder: the state file must lie in the configured directory. *)
Definition validated_identity (state_dir : str) (session_id : N) (incarnation : bytes)
    (state_file : str) : option ShellStateIdentity :=
  match identity_from_parts session_id incarnation state_file with
  | Ok identity =>
      if bool_decide (Path.parent (Path.components state_file) = Some (Path.components state_dir))
      then Some identity else None
  | Err _ => None
  end.

(** ** Envelopes *)

Definition hex_digit (b : byte) : bool :=
  is_ascii_digit b || ((0x61 <=? byte_val b) && (byte_val b <=? 0x66)).

(** [serde_json] on envelopes: a text parses to what was written, and a parsed
    [String] is valid UTF-8. *)
Class EnvelopeJson : Type := {
  envelope_to_vec : ShellStateEnvelope -> option bytes;
  envelope_from_slice : bytes -> option ShellStateEnvelope;
}.
Class EnvelopeJsonLaws `{EnvelopeJson} : Prop := {
  envelope_from_to s text : envelope_to_vec s = Some text -> envelope_from_slice text = Some s;
  envelope_cwd text s : envelope_from_slice text = Some s -> str_ok (cwd s);
}.

Section envelopes.
Context `{SnapshotJson} `{EnvelopeJson}.

Definition is_some {A} (o : option A) : bool :=
  match o with Some _ => true | None => false end.

Definition version_matches (s : ShellStateEnvelope) : bool :=
  ((version s =? SHELL_STATE_LEGACY_VERSION) && negb (is_some (environment s))) ||
  ((version s =? SHELL_STATE_VERSION) && is_some (environment s)).

Definition validate_state_fields (s : ShellStateEnvelope) : result persist_error unit :=
  if negb (version_matches s) || (session_id s =? 0) || negb (lenN (incarnation s) =? 32) ||
     (sequence s =? 0) || negb (forallb hex_digit (incarnation s)) ||
     forallb (fun b => bool_decide (b = Byte.x30)) (incarnation s)
  then invalid_argument "shell state envelope fields are invalid"
  else if (MAX_SHELL_CWD_BYTES <? lenN (cwd s)) || has_nul (cwd s) || negb (Path.is_absolute (cwd s))
  then invalid_argument "shell state cwd is invalid"
  else match environment s with Some e => validate_hard_limits e | None => Ok tt end.

Definition new (session_id : N) (incarnation : bytes) (sequence : N) (cwd : str)
  : result persist_error ShellStateEnvelope :=
  let state := mkEnvelope SHELL_STATE_LEGACY_VERSION session_id
    (encode_incarnation incarnation) sequence cwd None in
  _ ← validate_state_fields state; Ok state.

Definition new_v2 (session_id : N) (incarnation : bytes) (sequence : N) (cwd : str)
    (environment : EnvironmentSnapshot) : result persist_error ShellStateEnvelope :=
  let state := mkEnvelope SHELL_STATE_VERSION session_id
    (encode_incarnation incarnation) sequence cwd (Some environment) in
  _ ← validate_state_fields state; Ok state.

Definition encode_envelope (s : ShellStateEnvelope) : result persist_error bytes :=
  _ ← validate_state_fields s;
  encoded ← ok_or (envelope_to_vec s) (InvalidArgument "encode shell state: {error}");
  if MAX_SHELL_STATE_BYTES <? lenN encoded
  then invalid_argument "shell state envelope exceeds size limit"
  else Ok encoded.

Definition decode_and_validate (identity : ShellStateIdentity) (minimum_sequence : N)
    (encoded : bytes) : result persist_error ShellStateEnvelope :=
  if MAX_SHELL_STATE_BYTES <? lenN encoded
  then invalid_argument "shell state envelope exceeds size limit"
  else
    state ← ok_or (envelope_from_slice encoded) (InvalidArgument "decode shell state: {error}");
    _ ← validate_state_fields state;
    if negb (session_id state =? id_session_id identity) ||
       negb (bool_decide (incarnation state = encode_incarnation (id_incarnation identity))) ||
       (sequence state <? minimum_sequence)
    then invalid_argument "shell state identity or sequence mismatch"
    else Ok state.
End envelopes.

(** ** Files *)

Record Stat : Type := mkStat {
  st_uid : N; st_mode : N; st_dev : N; st_ino : N; st_size : Z }.

Definition S_IFMT : N := 0xf000.
Definition S_IFDIR : N := 0x4000.
Definition S_IFREG : N := 0x8000.
Definition PRIVATE_DIR_MODE : N := 0x1c0.
Definition PRIVATE_FILE_MODE : N := 0x180.

Definition validate_private_attributes (actual_uid expected_uid mode : N) (directory : bool)
  : result persist_error unit :=
  let expected_kind := if directory then S_IFDIR else S_IFREG in
  let expected_mode := if directory then PRIVATE_DIR_MODE else PRIVATE_FILE_MODE in
  if negb (actual_uid =? expected_uid) || negb (N.land mode S_IFMT =? expected_kind) ||
     negb (N.land mode 0xfff =? expected_mode)
  then invalid_argument "shell state owner, type, or mode is invalid"
  else Ok tt.

(** What the kernel answers to [read_validated]: the state directory, then the
    file: absent, an error, or a descriptor whose status is read before and
    after its contents. *)
Inductive OpenFile : Type :=
| NotFound
| OpenFailed
| Opened (before : Stat) (contents : option bytes) (after : Stat).

Section files.
Context `{SnapshotJson} `{EnvelopeJson}.
Context (geteuid : N).

Definition validate_stat (metadata : Stat) (directory : bool) : result persist_error unit :=
  validate_private_attributes (st_uid metadata) geteuid (st_mode metadata) directory.

Definition open_state_directory (directory : option Stat) : result persist_error unit :=
  metadata ← ok_or directory (IoError "open shell state directory");
  validate_stat metadata true.

(** [take(MAX_SHELL_STATE_BYTES + 1).read_to_end] *)
Definition read_validated (identity : ShellStateIdentity) (minimum_sequence : N)
    (directory : option Stat) (file : OpenFile)
  : result persist_error (option ShellStateEnvelope) :=
  _ ← open_state_directory directory;
  match file with
  | NotFound => Ok None
  | OpenFailed => Err (IoError "open shell state file")
  | Opened before contents after =>
      _ ← validate_stat before false;
      if (st_size before <? 0)%Z || (Z.of_N MAX_SHELL_STATE_BYTES <? st_size before)%Z
      then invalid_argument "shell state file exceeds size limit"
      else
        contents ← ok_or contents (IoError "read shell state file");
        let encoded := takeN (MAX_SHELL_STATE_BYTES + 1) contents in
        if MAX_SHELL_STATE_BYTES <? lenN encoded
        then invalid_argument "shell state file exceeds size limit"
        else
          _ ← validate_stat after false;
          if negb (st_dev before =? st_dev after) || negb (st_ino before =? st_ino after)
          then invalid_argument "shell state file changed while reading"
          else state ← decode_and_validate identity minimum_sequence encoded; Ok (Some state)
  end.

(** persist-holder: [read_validated(..).ok().flatten()] *)
Definition capture (identity : ShellStateIdentity) (minimum_sequence : N)
    (directory : option Stat) (file : OpenFile) : option ShellStateEnvelope :=
  match read_validated identity minimum_sequence directory file with
  | Ok state => state
  | Err _ => None
  end.
End files.

(** ** Replacing the file *)

(** [cstr] *)
Definition cstr (value : str) : result persist_error str :=
  if has_nul value then invalid_argument "shell state path contains NUL" else Ok value.

Definition state_filename (identity : ShellStateIdentity) : result persist_error str :=
  name ← ok_or (Path.file_name (Path.components (state_file identity)))
    (InvalidArgument "shell state path has no filename");
  cstr name.

Definition temporary_name (identity : ShellStateIdentity) (sequence : N) (nonce : bytes)
  : result persist_error str :=
  cstr (lit "." ++ encode_incarnation (id_incarnation identity) ++ lit "-" ++ decimal sequence ++
        lit "-" ++ encode_incarnation nonce ++ lit ".tmp").

(** What the kernel answers to [write_atomic]: [written] is [None] when every
    byte is written, or where the write fails. *)
Record WriteOs : Type := mkWriteOs {
  os_directory : option Stat;
  target_stat : result persist_error (option Stat);
  nonce : result persist_error bytes;
  create_ok : bool;
  temp_stat : option Stat;
  written : option nat;
  sync_ok : bool;
  rename_ok : bool;
  directory_sync_ok : bool;
  unlink_ok : bool;
}.

Section writing.
Context `{SnapshotJson} `{EnvelopeJson}.
Context (geteuid : N).

(** Everything before the temporary file exists: the names and the text. *)
Definition prepare (identity : ShellStateIdentity) (state : ShellStateEnvelope) (os : WriteOs)
  : result persist_error (str * str * bytes) :=
  encoded ← encode_envelope state;
  _ ← decode_and_validate identity 0 encoded;
  _ ← open_state_directory geteuid (os_directory os);
  target ← state_filename identity;
  existing ← target_stat os;
  _ ← match existing with Some metadata => validate_stat geteuid metadata false | None => Ok tt end;
  nonce ← nonce os;
  temp ← temporary_name identity (sequence state) nonce;
  Ok (target, temp, encoded).

Definition write_count (os : WriteOs) (encoded : bytes) : nat :=
  match written os with Some k => Nat.min k (length encoded) | None => length encoded end.

(** [unlinkat], whose result is ignored. *)
Definition unlink_temp (os : WriteOs) (temp : str) (trace : list (gmap str bytes)) (files : gmap str bytes) : gmap str bytes :=
  let now := default files (last trace) in if unlink_ok os then delete temp now else now.

(** The contents of the state directory at every moment of the call, and its
    result.  A failure after the file exists removes it again. *)
Definition write_atomic (identity : ShellStateIdentity) (state : ShellStateEnvelope)
    (os : WriteOs) (files : gmap str bytes) : list (gmap str bytes) * result persist_error unit :=
  match prepare identity state os with
  | Err e => ([files], Err e)
  | Ok (target, temp, encoded) =>
      if negb (create_ok os) || match files !! temp with Some _ => true | None => false end
      then ([files], Err (IoError "create shell state temporary file"))
      else
        let fail trace e := (trace ++ [unlink_temp os temp trace files], Err e) in
        let trace := [files; <[temp := []]> files] in
        match (metadata ← ok_or (temp_stat os) (IoError "inspect shell state descriptor");
               validate_stat geteuid metadata false) with
        | Err e => fail trace e
        | Ok _ =>
            let trace := trace ++
              map (fun k => <[temp := take k encoded]> files) (seq 1 (write_count os encoded)) in
            match written os with
            | Some _ => fail trace (IoError "write shell state temporary file")
            | None =>
                if negb (sync_ok os) then fail trace (IoError "sync shell state temporary file")
                else if negb (rename_ok os) then fail trace (IoError "replace shell state file")
                else
                  let trace := trace ++ [<[target := encoded]> files] in
                  if negb (directory_sync_ok os)
                  then fail trace (IoError "sync shell state directory")
                  else (trace, Ok tt)
            end
        end
  end.
End writing.

(** ** Names are injective *)

Lemma lit_inj a b : lit a = lit b -> a = b.
Proof.
  intros H. rewrite <- (String.string_of_list_byte_of_string a),
    <- (String.string_of_list_byte_of_string b). unfold lit in H. by rewrite H.
Qed.

Lemma decimal_inj a b : decimal a = decimal b -> a = b.
Proof. intros H. by apply lit_inj, pretty_N_inj in H. Qed.

(** The digit of a character of [HEX]. *)
Definition unhex (c : byte) : N :=
  if byte_val c <? 0x61 then byte_val c - 0x30 else byte_val c - 0x57.

Lemma unhex_pair b :
  unhex (hex_char (N.shiftr (byte_val b) 4)) * 16 + unhex (hex_char (N.land (byte_val b) 0x0f)) =
  byte_val b.
Proof. by destruct b. Qed.

Lemma encode_incarnation_inj a b : encode_incarnation a = encode_incarnation b -> a = b.
Proof.
  unfold encode_incarnation. revert b; induction a as [|x a IH]; intros [|y b]; cbn [map concat app]; try done.
  intros [= H1 H2 H3]. f_equal; [|by apply IH].
  apply byte_val_inj. by rewrite <- (unhex_pair x), <- (unhex_pair y), H1, H2.
Qed.

Lemma lenN_encode_incarnation a : lenN (encode_incarnation a) = 2 * lenN a.
Proof.
  unfold encode_incarnation. induction a as [|x a IH]; [done|]. cbn [map concat].
  rewrite lenN_app, IH, !lenN_cons, lenN_nil. lia.
Qed.

Lemma expected_name_inj i1 i2 a1 a2 :
  lenN a1 = lenN a2 -> expected_name i1 a1 = expected_name i2 a2 -> i1 = i2 /\ a1 = a2.
Proof.
  unfold expected_name. intros Hl H. rewrite !app_assoc in H. apply app_inv_tail in H.
  apply app_inj_2 in H as [H1 H2].
  - apply app_inv_tail in H1. split; [by apply decimal_inj|by apply encode_incarnation_inj].
  - pose proof (lenN_encode_incarnation a1). pose proof (lenN_encode_incarnation a2).
    unfold lenN in *. lia.
Qed.

(** ** Identities *)

Lemma identity_from_parts_iff i a f identity :
  identity_from_parts i a f = Ok identity <->
  identity = mkIdentity i a f /\ i <> 0 /\ a <> zero16 /\ Path.is_absolute f = true /\
  lenN f <= MAX_STATE_PATH_BYTES /\ has_nul f = false /\
  Path.file_name (Path.components f) = Some (expected_name i a) /\
  (Path.parent (Path.components f) ≫= Path.file_name) = Some (lit "session-state").
Proof.
  unfold identity_from_parts. cbv zeta. split.
  - intros H. inv_ok. boolp. by subst.
  - intros (-> & Hi & Ha & Habs & Hl & Hn & Hf & Hp). ndec.
    rewrite (bool_decide_eq_false_2 _ Ha), Habs, Hn, !bool_decide_eq_true_2 by done. done.
Qed.

Definition identity_ok (state_dir : str) (i : N) (a : bytes) (f : str) : Prop :=
  i <> 0 /\ a <> zero16 /\ lenN f <= MAX_STATE_PATH_BYTES /\ has_nul f = false /\
  Path.is_absolute f = true /\
  Path.file_name (Path.components state_dir) = Some (lit "session-state") /\
  Path.components f = Path.components state_dir ++ [Path.Normal (expected_name i a)].

Lemma validated_identity_iff d i a f identity :
  validated_identity d i a f = Some identity <->
  identity = mkIdentity i a f /\ identity_ok d i a f.
Proof.
  unfold validated_identity, identity_ok. split.
  - destruct (identity_from_parts i a f) as [x|] eqn:Hx; [|done].
    destruct (bool_decide _) eqn:Hd; [|done]. boolp. intros [= <-].
    apply identity_from_parts_iff in Hx as (-> & Hi & Ha & Habs & Hl & Hn & Hf & Hp).
    rewrite Hd in Hp. cbn in Hp. split_and!; try done. by apply Path.file_name_parent.
  - intros (-> & Hi & Ha & Hl & Hn & Habs & Hsd & Hc).
    assert (Hp : Path.parent (Path.components f) = Some (Path.components d)).
    { rewrite Hc. unfold Path.parent. rewrite last_snoc, length_app, Nat.add_1_r.
      cbn [pred length]. by rewrite take_app_length. }
    rewrite (proj2 (identity_from_parts_iff i a f (mkIdentity i a f))).
    + by rewrite bool_decide_eq_true_2.
    + split_and!; try done; [by rewrite Hc; unfold Path.file_name; rewrite last_snoc|].
      rewrite Hp. cbn. done.
Qed.

(** The holder accepts a session's state file exactly when it lies
    directly in the configured [session-state] directory under the name made
    of the session's number and incarnation; so two sessions (or two
    incarnations of one) that name the same file are the same session. *)
Theorem state_file_identifies d i1 a1 f1 x1 :
  lenN a1 = 16 ->
  (validated_identity d i1 a1 f1 = Some x1 <-> x1 = mkIdentity i1 a1 f1 /\ identity_ok d i1 a1 f1) /\
  (forall i2 a2 f2 x2, lenN a2 = 16 ->
     validated_identity d i1 a1 f1 = Some x1 -> validated_identity d i2 a2 f2 = Some x2 ->
     Path.components f1 = Path.components f2 -> i1 = i2 /\ a1 = a2).
Proof.
  intros Hl1. split; [apply validated_identity_iff|].
  intros i2 a2 f2 x2 Hl2 [_ H1]%validated_identity_iff [_ H2]%validated_identity_iff Hc.
  destruct H1 as (_ & _ & _ & _ & _ & _ & H1), H2 as (_ & _ & _ & _ & _ & _ & H2).
  rewrite H1, H2 in Hc. apply app_inv_head in Hc. injection Hc as Hc.
  apply expected_name_inj; [congruence|done].
Qed.

Definition sample_incarnation : bytes := replicate 16 Byte.x54.
Definition sample_dir : str := lit "/run/ps/session-state".
Definition sample_file : str := lit "/run/ps//session-state/./54-54545454545454545454545454545454.json".

Lemma state_file_identifies_witness : identity_ok sample_dir 54 sample_incarnation sample_file.
Proof.
  apply (proj1 (proj1 (state_file_identifies sample_dir 54 sample_incarnation sample_file
    (mkIdentity 54 sample_incarnation sample_file) eq_refl))).
  vm_compute. reflexivity.
Defined.

(** ** What the holder reports of a session that ended *)

Section captured.
Context `{SnapshotJsonLaws} `{EnvelopeJsonLaws}.

(** The fields [validate_state_fields] checks. *)
Record envelope_ok (s : ShellStateEnvelope) : Prop := {
  env_version : version_matches s = true;
  env_session : session_id s <> 0;
  env_sequence : sequence s <> 0;
  env_incarnation : lenN (incarnation s) = 32;
  env_cwd : lenN (cwd s) <= MAX_SHELL_CWD_BYTES /\ has_nul (cwd s) = false /\
    Path.is_absolute (cwd s) = true;
  env_environment : forall e, environment s = Some e -> validate_hard_limits e = Ok tt;
}.

Lemma validate_state_fields_ok s : validate_state_fields s = Ok tt -> envelope_ok s.
Proof.
  unfold validate_state_fields. intros Hv. inv_ok. boolp. split; try done.
  intros e He. by rewrite He in Hv.
Qed.

Lemma decode_and_validate_ok identity m text s :
  decode_and_validate identity m text = Ok s ->
  envelope_from_slice text = Some s /\ envelope_ok s /\
  session_id s = id_session_id identity /\
  incarnation s = encode_incarnation (id_incarnation identity) /\ m <= sequence s.
Proof.
  unfold decode_and_validate. intros Hd. inv_ok. boolp. subst.
  split_and!; try done. by apply validate_state_fields_ok.
Qed.

Lemma capture_decodes euid identity m dir file s :
  capture euid identity m dir file = Some s ->
  exists before contents after, file = Opened before (Some contents) after /\
    decode_and_validate identity m (takeN (MAX_SHELL_STATE_BYTES + 1) contents) = Ok s /\
    st_uid before = euid /\ st_ino before = st_ino after.
Proof.
  unfold capture. destruct (read_validated _ _ _ _ _) as [o|] eqn:Hr; [|done]. intros ->.
  unfold read_validated in Hr. inv_ok. destruct file as [| |b c a]; [done..|]. inv_ok.
  injection Hr as <-. exists b, x, a. subst. boolp.
  assert (Hu : st_uid b = euid); [|by split_and!].
  unfold validate_stat, validate_private_attributes in Hok0. inv_ok. by boolp.
Qed.

Lemma envelope_cwd_ok s : envelope_ok s -> str_ok (cwd s) -> Operation.cwd_ok (Some (cwd s)).
Proof.
  intros [_ _ _ _ (Hl & Hn & Ha) _] Hu. unfold MAX_SHELL_CWD_BYTES in Hl.
  unfold Operation.cwd_ok, Reader.string_ok, MAX_HOLDER_PATH, is_u16.
  split_and!; try done; [lia|]. intros Hc. by rewrite Hc in Ha.
Qed.

Lemma encode_valid_environment o :
  (forall e, o = Some e -> validate_hard_limits e = Ok tt) ->
  exists text, Operation.encode_environment o = Ok text /\
    match text with None => True | Some t => lenN t <= MAX_SHELL_ENVIRONMENT_BYTES end.
Proof.
  intros Hs. destruct o as [e|]; [|by exists None].
  pose proof (Hs e eq_refl) as Hv. pose proof Hv as Hv'.
  apply Environment.validate_iff in Hv' as Hok. destruct (Environment.snap_size _ _ _ Hok) as (t & Ht & Hl).
  exists (Some t). unfold Operation.encode_environment, encode_environment_snapshot.
  rewrite Hv, ok_bind, Ht. cbn [ok_or]. rewrite ok_bind. by ndec.
Qed.

Definition exit_v1 (i : N) (code : Z) (s : ShellStateEnvelope) : Operation.SessionExitedEvent :=
  Operation.mkExitedV1 i code (Some (cwd s)).
Definition exit_v2 (i : N) (code : Z) (s : ShellStateEnvelope) : Operation.SessionExitedEventV2 :=
  Operation.mkExited i code (Some (cwd s)) (environment s).

(** The state file captured for a session that ended belongs to this
    session and incarnation and is at least as new as the last one seen, and
    both versions of the exit event that reports it can always be encoded,
    so that the end of one session never stops the holder. *)
Theorem captured_state_reportable euid identity m dir file s i code :
  capture euid identity m dir file = Some s -> Operation.session_ok i -> is_i32 code ->
  session_id s = id_session_id identity /\
  incarnation s = encode_incarnation (id_incarnation identity) /\ m <= sequence s /\
  (exists p, Operation.encode_session_exited_event (exit_v1 i code s) = Ok p) /\
  (exists p, Operation.encode_session_exited_event_v2 (exit_v2 i code s) = Ok p).
Proof.
  intros Hc Hi Hx. apply capture_decodes in Hc as (b & c & a & -> & Hd & _ & _).
  apply decode_and_validate_ok in Hd as (Hj & Hs & Hid & Hinc & Hm). split_and!; [done..| |].
  all: pose proof (envelope_cwd_ok s Hs (envelope_cwd _ _ Hj)) as Hw.
  all: assert (Hev : Operation.session_exited_ok (exit_v1 i code s)) by done.
  - eexists. by apply Operation.encode_session_exited_ok.
  - destruct (encode_valid_environment _ (env_environment s Hs)) as (t & Ht & Hl).
    unfold Operation.encode_session_exited_event_v2. cbn [Operation.environment exit_v2].
    change (Operation.mkExitedV1 _ _ _) with (exit_v1 i code s).
    rewrite (Operation.encode_session_exited_ok _ Hev), ok_bind, Ht, ok_bind.
    rewrite (proj1 (Operation.put_text t Hl)), ok_bind. by eexists.
Qed.
End captured.

(** ** A reader never sees a partial file *)

Section atomic.
Context `{SnapshotJsonLaws} `{EnvelopeJsonLaws}.
Context (identity : ShellStateIdentity) (state : ShellStateEnvelope) (files : gmap str bytes).

Definition target : str := expected_name (id_session_id identity) (id_incarnation identity).

(** Only the target and files that did not exist before may differ. *)
Definition others_kept (f : gmap str bytes) : Prop :=
  forall name content, name <> target -> files !! name = Some content -> f !! name = Some content.

Definition before (f : gmap str bytes) : Prop := f !! target = files !! target /\ others_kept f.
Definition after (f : gmap str bytes) : Prop :=
  exists text, f = <[target := text]> files /\ decode_and_validate identity 0 text = Ok state.

Lemma temp_not_target q n temp : temporary_name identity q n = Ok temp -> temp <> target.
Proof.
  unfold temporary_name, cstr, target, expected_name. intros Ht. inv_ok. subst.
  intros Heq. apply (f_equal last) in Heq. rewrite !app_assoc in Heq.
  rewrite !last_app in Heq. vm_compute in Heq. done.
Qed.

Lemma prepare_ok euid os t temp text :
  identity_from_parts (id_session_id identity) (id_incarnation identity) (state_file identity) =
    Ok identity ->
  prepare euid identity state os = Ok (t, temp, text) ->
  t = target /\ temp <> target /\ decode_and_validate identity 0 text = Ok state.
Proof.
  intros (_ & _ & _ & _ & _ & _ & Hf & _)%identity_from_parts_iff Hp.
  unfold prepare, state_filename, cstr in Hp. rewrite Hf in Hp. inv_ok. subst.
  injection Hok7 as <-. split_and!; [done|by eapply temp_not_target|].
  destruct (decode_and_validate_ok _ _ _ _ Hok0) as (Hj & _).
  unfold encode_envelope in Hok. destruct (validate_state_fields state) as [[]|]; [|done].
  rewrite ok_bind in Hok. destruct (envelope_to_vec state) as [v|] eqn:Hv; [|done].
  cbn [ok_or] in Hok. rewrite ok_bind in Hok. inv_ok. subst v.
  rewrite (envelope_from_to _ _ Hv) in Hj. injection Hj as <-. exact Hok0.
Qed.

Lemma before_temp temp text : temp <> target -> files !! temp = None ->
  before (<[temp := text]> files).
Proof.
  intros Ht Hn. split; [by rewrite lookup_insert_ne|].
  intros n c _ Hc. rewrite lookup_insert_ne; [done|]. intros ->. by rewrite Hn in Hc.
Qed.

Lemma delete_temp temp f : temp <> target -> files !! temp = None ->
  (f = files \/ exists text, f = <[temp := text]> files) -> delete temp f = files.
Proof.
  intros Ht Hn [->|[text ->]]; [by apply delete_id|]. by apply delete_insert_id.
Qed.

(** The states of the directory before the rename: nothing, or the temporary
    file with a part of the text. *)
Definition staged (temp : str) (f : gmap str bytes) : Prop :=
  f = files \/ exists text, f = <[temp := text]> files.

Lemma staged_before temp trace : temp <> target -> files !! temp = None ->
  Forall (staged temp) trace -> Forall before trace.
Proof.
  intros Ht Hn HF. eapply Forall_impl; [exact HF|]. intros f [->|[text ->]].
  - split; [done|by intros ? ? _ ?].
  - by apply before_temp.
Qed.

Lemma staged_fail os temp trace : temp <> target -> files !! temp = None -> Forall (staged temp) trace ->
  unlink_temp os temp trace files = files \/
  unlink_ok os = false /\ exists text, unlink_temp os temp trace files = <[temp := text]> files.
Proof.
  intros Ht Hn HF. assert (Hl : staged temp (default files (last trace))).
  { destruct (last trace) as [f|] eqn:Hl; [|by left]. apply last_Some in Hl as [trace' ->]. apply Forall_app in HF as [_ HF].
    by apply Forall_inv in HF. }
  unfold unlink_temp. destruct (unlink_ok os); [left; by apply delete_temp|]. destruct Hl as [->|[text ->]]; [by left|right; eauto].
Qed.

(** A temporary file that is left behind. *)
Definition leftover (f : gmap str bytes) : Prop :=
  exists temp text, temp <> target /\ files !! temp = None /\ f = <[temp := text]> files.

Definition outcome_ok (os : WriteOs) (out : list (gmap str bytes) * result persist_error unit) : Prop :=
  exists l1 l2, out.1 = l1 ++ l2 /\ Forall before l1 /\ Forall after l2 /\
    (out.2 = Ok tt -> l2 <> []) /\
    (l2 = [] -> exists f, last out.1 = Some f /\ (f = files \/ unlink_ok os = false /\ leftover f)).

Lemma outcome_failed os temp trace e : temp <> target -> files !! temp = None ->
  Forall (staged temp) trace -> outcome_ok os (trace ++ [unlink_temp os temp trace files], Err e).
Proof.
  intros Ht Hn HF. pose proof (staged_fail os temp trace Ht Hn HF) as Hf.
  exists (trace ++ [unlink_temp os temp trace files]), []. rewrite app_nil_r. split_and!; [done| |constructor|done|].
  - eapply staged_before; [done..|]. apply Forall_app. split; [done|]. constructor; [|done].
    destruct Hf as [->|(_ & text & ->)]; [by left|right; by eexists].
  - intros _. eexists. split; [apply last_snoc|]. destruct Hf as [->|(Hu & text & ->)]; [by left|right].
    split; [done|]. by exists temp, text.
Qed.

(** C26: replacing a state file is atomic.  Whatever fails, and wherever the
    process stops, the directory goes through states in which the session's
    file is as it was and no other file has changed, followed by states in
    which it holds exactly the new envelope; success means the latter.  A
    failure before the rename leaves the directory as it was; only when the
    temporary file cannot be removed either, it is left beside the others. *)
Theorem write_atomic_all_or_nothing euid os :
  identity_from_parts (id_session_id identity) (id_incarnation identity) (state_file identity) =
    Ok identity ->
  exists l1 l2, (write_atomic euid identity state os files).1 = l1 ++ l2 /\
    Forall before l1 /\ Forall after l2 /\
    ((write_atomic euid identity state os files).2 = Ok tt -> l2 <> []) /\
    (l2 = [] -> exists f, last (write_atomic euid identity state os files).1 = Some f /\
      (f = files \/ unlink_ok os = false /\ leftover f)).
Proof.
  intros Hid. change (outcome_ok os (write_atomic euid identity state os files)).
  assert (Hstay : forall e, outcome_ok os ([files], Err e)).
  { intros e. exists [files], []. split_and!; [done| |constructor|done|].
    - repeat constructor. by intros ? ? _ ?.
    - intros _. exists files. split; [done|by left]. }
  unfold write_atomic. destruct (prepare _ _ _ _) as [[[t temp] text]|e] eqn:Hp; [|apply Hstay].
  apply prepare_ok in Hp as (-> & Ht & Hd); [|done].
  destruct (create_ok os); [|apply Hstay]. cbn [negb orb].
  destruct (files !! temp) eqn:Hn; [apply Hstay|].
  assert (HF0 : Forall (staged temp) [files; <[temp := []]> files])
    by (rewrite !Forall_cons; split_and!; [by left|right; by eexists|constructor]).
  cbv zeta. destruct (_ ≫= _) as [u|e]; [|by apply outcome_failed].
  set (n := write_count os text).
  assert (HF1 : Forall (staged temp) ([files; <[temp := []]> files] ++
    map (fun k => <[temp := take k text]> files) (seq 1 n))).
  { apply Forall_app. split; [done|]. apply Forall_forall.
    intros f (k & -> & _)%list_elem_of_fmap. right. by eexists. }
  destruct (written os); [by apply outcome_failed|].
  destruct (sync_ok os); [|by apply outcome_failed].
  destruct (rename_ok os); [|by apply outcome_failed]. cbn [negb].
  assert (HA : after (<[target := text]> files)) by (by exists text).
  set (trace := _ ++ map _ _) in *.
  destruct (directory_sync_ok os); cbn [negb].
  - exists trace, [<[target := text]> files]. split_and!; [done|by eapply staged_before| |done|done].
    by repeat constructor.
  - unfold unlink_temp. rewrite last_snoc. cbn [default id].
    replace (if unlink_ok os then _ else _) with (<[target := text]> files)
      by (destruct (unlink_ok os); [symmetry; apply delete_id; by rewrite lookup_insert_ne|done]).
    exists trace, [<[target := text]> files; <[target := text]> files].
    split_and!; [cbn; by rewrite <- app_assoc|by eapply staged_before| |done|done].
    by repeat constructor.
Qed.
End atomic.

(** ** Concrete encoders, for the witnesses *)

#[local] Existing Instance Environment.bits_json.
#[local] Existing Instance Environment.bits_json_laws.
#[local] Existing Instance Environment.EnvironmentCaptureStatus_eq_dec.
#[local] Existing Instance Environment.status_countable.

Definition snapshot_fields (e : EnvironmentSnapshot) :=
  (Environment.format_version e, Environment.policy_version e, Environment.policy_fingerprint e,
   Environment.env_set e, Environment.env_unset e, Environment.capture_status e).
Definition snapshot_of (f : N * N * str * gmap str str * gset str * Environment.EnvironmentCaptureStatus)
  : EnvironmentSnapshot :=
  let '(f, p, h, set, unset, c) := f in Environment.mkSnapshot f p h set unset c.

#[local] Instance snapshot_eq_dec : EqDecision EnvironmentSnapshot.
Proof. solve_decision. Defined.

#[local] Instance snapshot_countable : Countable EnvironmentSnapshot.
Proof. refine (inj_countable' snapshot_fields snapshot_of _). by intros []. Defined.

Definition envelope_fields (s : ShellStateEnvelope) :=
  (version s, session_id s, incarnation s, sequence s, cwd s, environment s).

#[local] Instance envelope_bits : EnvelopeJson := {|
  envelope_to_vec s := if utf8_valid (cwd s)
    then Some (Environment.encode_bits (encode (envelope_fields s))) else None;
  envelope_from_slice text :=
    '(v, i, inc, q, w, e) ← decode (A := N * N * str * N * str * option EnvironmentSnapshot)
                              (Environment.decode_bits text);
    if utf8_valid w then Some (mkEnvelope v i inc q w e) else None;
|}.

#[local] Instance envelope_bits_laws : EnvelopeJsonLaws.
Proof.
  split.
  - intros s text. cbn. destruct (utf8_valid (cwd s)) eqn:Hu; [|done]. intros [= <-].
    rewrite Environment.decode_encode_bits, decode_encode. cbn. rewrite Hu. by destruct s.
  - intros text s. cbn. destruct (decode _) as [[[[[[v i] inc] q] w] e]|]; [|done]. cbn.
    destruct (utf8_valid w) eqn:Hu; [|done]. by intros [= <-].
Qed.

Definition sample_identity : ShellStateIdentity := mkIdentity 54 sample_incarnation sample_file.
Definition sample_state : ShellStateEnvelope :=
  mkEnvelope 1 54 (encode_incarnation sample_incarnation) 3 (lit "/srv/final") None.
Definition sample_text : bytes := default [] (envelope_to_vec sample_state).
Definition private_dir : Stat := mkStat 1000 0x41c0 1 2 0.
Definition private_file : Stat := mkStat 1000 0x8180 1 3 (Z.of_N (lenN sample_text)).

Lemma captured_state_reportable_witness :
  capture 1000 sample_identity 3 (Some private_dir)
    (Opened private_file (Some sample_text) private_file) = Some sample_state /\
  exists p, Operation.encode_session_exited_event_v2 (exit_v2 54 0 sample_state) = Ok p.
Proof.
  assert (Hc : capture 1000 sample_identity 3 (Some private_dir)
    (Opened private_file (Some sample_text) private_file) = Some sample_state)
    by (vm_compute; reflexivity).
  split; [exact Hc|].
  destruct (captured_state_reportable 1000 sample_identity 3 (Some private_dir)
    (Opened private_file (Some sample_text) private_file) sample_state 54 0%Z Hc)
    as (_ & _ & _ & _ & Hp); [by split|by split|exact Hp].
Defined.

(** The rename succeeds, the sync of the directory does not. *)
Definition sample_os : WriteOs :=
  mkWriteOs (Some private_dir) (Ok (Some private_file)) (Ok sample_incarnation) true
    (Some private_file) None true true false true.

Lemma write_atomic_all_or_nothing_witness :
  exists l1 l2, (write_atomic 1000 sample_identity sample_state sample_os
                   {[target sample_identity := []]}).1 = l1 ++ l2 /\
    Forall (before sample_identity {[target sample_identity := []]}) l1.
Proof.
  destruct (write_atomic_all_or_nothing sample_identity sample_state
    {[target sample_identity := []]} 1000 sample_os) as (l1 & l2 & H1 & H2 & _).
  - vm_compute. reflexivity.
  - exists l1, l2. split; [exact H1|exact H2].
Defined.
End ShellState.
