(* ===== verification/Effects.v ===== *)
(** * Effects: handlers that change shared state, may fail, and may panic.

    A Rust handler [fn h(&mut self, ..) -> Result<A>] is an [M S E A]: from the
    state it gives a result and the state it leaves behind, which an error does
    not undo, or [None] when it panics (an index or [unwrap] that fails).
    [runs m s Q] says that [m] does not panic from [s] and ends with a result
    and a state in [Q]; the rules below compute it over a handler's body. *)
From S2P Require Import Prelude.

Definition M (S E A : Type) : Type := S -> option (result E A * S).

#[export] Instance M_ret S E : MRet (M S E) := fun A a s => Some (Ok a, s).
#[export] Instance M_bind S E : MBind (M S E) := fun A B k m s =>
  match m s with
  | None => None
  | Some (Ok a, s') => k a s'
  | Some (Err e, s') => Some (Err e, s')
  end.

Section operations.
Context {S E : Type}.

Definition get : M S E S := fun s => Some (Ok s, s).
Definition modify (f : S -> S) : M S E unit := fun s => Some (Ok tt, f s).
Definition fail {A} (e : E) : M S E A := fun s => Some (Err e, s).
Definition panic {A} : M S E A := fun _ => None.

(** [c?] for a pure [Result]. *)
Definition lift {A} (c : result E A) : M S E A := fun s => Some (c, s).

(** [o.unwrap()], an index of a map. *)
Definition unwrap {A} (o : option A) : M S E A := fun s =>
  match o with Some a => Some (Ok a, s) | None => None end.

(** The call as a value: [match m { Ok(..) => .., Err(..) => .. }]. *)
Definition attempt {A} (m : M S E A) : M S E (result E A) := fun s =>
  match m s with Some (r, s') => Some (Ok r, s') | None => None end.

(** A handler of a part of the state. *)
Definition zoom {T A} (read : S -> T) (write : T -> S -> S) (m : M T E A) : M S E A := fun s =>
  match m (read s) with Some (r, t) => Some (r, write t s) | None => None end.

(** [for x in l { f(x)?; }] *)
Fixpoint each {A} (f : A -> M S E unit) (l : list A) : M S E unit :=
  match l with
  | [] => mret tt
  | x :: l' => _ ← f x; each f l'
  end.

Definition runs {A} (m : M S E A) (s : S) (Q : result E A -> S -> Prop) : Prop :=
  match m s with Some (r, s') => Q r s' | None => False end.

Lemma runs_ret {A} (a : A) s Q : runs (mret a) s Q <-> Q (Ok a) s.
Proof. done. Qed.

Lemma runs_bind {A B} (m : M S E A) (k : A -> M S E B) s Q :
  runs (m ≫= k) s Q <->
  runs m s (fun r s' => match r with Ok a => runs (k a) s' Q | Err e => Q (Err e) s' end).
Proof. unfold runs, mbind, M_bind. by destruct (m s) as [[[a|e] s']|]. Qed.

Lemma runs_get s (Q : result E S -> S -> Prop) : runs get s Q <-> Q (Ok s) s.
Proof. done. Qed.
Lemma runs_modify f s (Q : result E unit -> S -> Prop) : runs (modify f) s Q <-> Q (Ok tt) (f s).
Proof. done. Qed.
Lemma runs_fail {A} e s (Q : result E A -> S -> Prop) : runs (fail e) s Q <-> Q (Err e) s.
Proof. done. Qed.
Lemma runs_lift {A} (c : result E A) s Q : runs (lift c) s Q <-> Q c s.
Proof. done. Qed.
Lemma runs_unwrap {A} (o : option A) s (Q : result E A -> S -> Prop) :
  runs (unwrap o) s Q <-> exists a, o = Some a /\ Q (Ok a) s.
Proof. unfold runs, unwrap. destruct o; naive_solver. Qed.
Lemma runs_attempt {A} (m : M S E A) s Q :
  runs (attempt m) s Q <-> runs m s (fun r s' => Q (Ok r) s').
Proof. unfold runs, attempt. by destruct (m s) as [[r s']|]. Qed.
Lemma runs_zoom {T A} (read : S -> T) write (m : M T E A) s Q :
  runs (zoom read write m) s Q <->
  match m (read s) with Some (r, t) => Q r (write t s) | None => False end.
Proof. unfold runs, zoom. by destruct (m (read s)) as [[r t]|]. Qed.

Lemma runs_mono {A} (m : M S E A) s (Q Q' : result E A -> S -> Prop) :
  runs m s Q -> (forall r s', Q r s' -> Q' r s') -> runs m s Q'.
Proof. unfold runs. destruct (m s) as [[r s']|]; auto. Qed.

Lemma runs_and {A} (m : M S E A) s (Q Q' : result E A -> S -> Prop) :
  runs m s Q -> runs m s Q' -> runs m s (fun r s' => Q r s' /\ Q' r s').
Proof. unfold runs. destruct (m s) as [[r s']|]; auto. Qed.

(** A loop keeps what each of its rounds keeps. *)
Lemma runs_each {A} (I : S -> Prop) (f : A -> M S E unit) l s :
  I s -> (forall x s', x ∈ l -> I s' -> runs (f x) s' (fun _ s'' => I s'')) ->
  runs (each f l) s (fun _ s' => I s').
Proof.
  revert s; induction l as [|x l IH]; intros s Hs Hf; [done|]. cbn [each].
  apply runs_bind. eapply runs_mono; [apply Hf; [left|done]|].
  intros [u|e] s' Hs'; [|done]. apply IH; [done|]. intros y s2 Hy. apply Hf. by right.
Qed.

Lemma runs_each_ok {A} (I : S -> Prop) (f : A -> M S E unit) l s :
  I s -> (forall x s', x ∈ l -> I s' -> runs (f x) s' (fun r s'' => r = Ok tt /\ I s'')) ->
  runs (each f l) s (fun r s' => r = Ok tt /\ I s').
Proof.
  revert s; induction l as [|x l IH]; intros s Hs Hf; [done|]. cbn [each].
  apply runs_bind. eapply runs_mono; [apply Hf; [left|done]|].
  intros r s' [-> Hs']. apply IH; [done|]. intros y s2 Hy. apply Hf. by right.
Qed.

(** [m] never panics. *)
Definition returns {A} (m : M S E A) : Prop := forall s, runs m s (fun _ _ => True).

Lemma returns_ret {A} (a : A) : returns (mret a).
Proof. done. Qed.
Lemma returns_lift {A} (c : result E A) : returns (lift c).
Proof. done. Qed.
Lemma returns_fail {A} e : returns (fail (A := A) e).
Proof. done. Qed.
Lemma returns_modify f : returns (modify f).
Proof. done. Qed.
Lemma returns_bind {A B} (m : M S E A) (k : A -> M S E B) :
  returns m -> (forall a, returns (k a)) -> returns (m ≫= k).
Proof.
  intros Hm Hk s. rewrite runs_bind. eapply runs_mono; [apply Hm|]. intros [a|e] s' _; [apply Hk|done].
Qed.
Lemma returns_attempt {A} (m : M S E A) : returns m -> returns (attempt m).
Proof. intros Hm s. rewrite runs_attempt. apply Hm. Qed.
Lemma returns_runs {A} (m : M S E A) s Q : returns m -> (forall r s', Q r s') -> runs m s Q.
Proof. intros Hm HQ. eapply runs_mono; [apply Hm|]. auto. Qed.

(** The result of a run, as an equation. *)
Lemma runs_eq {A} (m : M S E A) s Q :
  runs m s Q <-> exists r s', m s = Some (r, s') /\ Q r s'.
Proof. unfold runs. destruct (m s) as [[r s']|]; naive_solver. Qed.
End operations.

Create HintDb returns.
#[export] Hint Resolve returns_ret returns_lift returns_fail returns_modify returns_bind returns_attempt : returns.

Create Rewrite HintDb runs.
#[export] Hint Rewrite @runs_bind @runs_ret @runs_get @runs_modify @runs_fail @runs_lift @runs_attempt
  @runs_unwrap @runs_zoom : runs.

(** One statement of a handler: rewrite [runs] over it. *)
Ltac run_step := first
  [ rewrite runs_bind | rewrite runs_get | rewrite runs_modify | rewrite runs_fail
  | rewrite runs_lift | rewrite runs_ret | rewrite runs_attempt | rewrite runs_zoom ];
  cbv beta iota.
Ltac run := cbv beta iota; repeat run_step.
