(* ===== verification/ByteQueue.v ===== *)
(** * ByteQueue: bytes waiting to be written to a descriptor.

    The three fields a holder session keeps for its terminal
    ([input], [input_offset], [input_bytes] of
    [crates/persist-holder/src/runtime.rs]) and a connection keeps for its peer
    ([output], [output_offset], [output_bytes] of [connection.rs]), with the
    bounded [push] and the loop that writes the front of the queue until the
    descriptor takes no more. *)
From S2P Require Import Prelude Bytes.
From Stdlib Require Import Lia.
Local Open Scope N_scope.

Module ByteQueue.

Record t : Type := mk { items : list bytes; offset : N; total : N }.

Definition empty : t := mk [] 0 0.

Inductive push_error : Type := Overflow | LimitExceeded.

Definition push (max : N) (q : t) (data : bytes) : result push_error t :=
  match checked_add_usize (total q) (lenN data) with
  | None => Err Overflow
  | Some new_size =>
      if max <? new_size then Err LimitExceeded
      else Ok (mk (items q ++ [data]) (offset q) new_size)
  end.

(** One [write] call: the number of bytes the kernel takes (never more than it
    is offered), [EAGAIN], or another error. *)
Inductive write_result : Type := Wrote (count : N) | WouldBlock | WriteFailed.

(** Why the loop stops. *)
Inductive stop : Type := Drained | Zero | Blocked | Failed.

Definition advance (q : t) (front : bytes) (rest : list bytes) (count : N) : t :=
  let offset' := offset q + count in
  if offset' =? lenN front then mk rest 0 (total q - count)
  else mk (front :: rest) offset' (total q - count).

(** [while let Some(front) = items.front() { match write(&front[offset..]) .. }];
    [write k] is the kernel's answer to the [k]-th call, [sent] what it took. *)
Fixpoint flush (fuel : nat) (write : nat -> write_result) (k : nat) (q : t) (sent : bytes)
  : option (t * bytes * stop) :=
  match fuel with
  | O => None
  | S fuel' =>
      match items q with
      | [] => Some (q, sent, Drained)
      | front :: rest =>
          let slice := dropN (offset q) front in
          match write k with
          | WouldBlock => Some (q, sent, Blocked)
          | WriteFailed => Some (q, sent, Failed)
          | Wrote n =>
              let count := N.min n (lenN slice) in
              if count =? 0 then Some (q, sent, Zero)
              else flush fuel' write (S k) (advance q front rest count) (sent ++ takeN count slice)
          end
      end
  end.

(** The bytes still to be written, in order. *)
Definition pending (q : t) : bytes := dropN (offset q) (concat (items q)).

(** Enough rounds: each takes at least one byte. *)
Definition rounds (q : t) : nat := S (N.to_nat (lenN (pending q))).

Record wf (q : t) : Prop := {
  wf_items : Forall (fun d => d <> []) (items q);
  wf_offset : match items q with [] => offset q = 0 | d :: _ => offset q < lenN d end;
  wf_total : total q = lenN (pending q);
}.

Lemma empty_wf : wf empty.
Proof. split; [constructor|done|done]. Qed.

Lemma pending_cons q front rest : items q = front :: rest -> offset q <= lenN front ->
  pending q = dropN (offset q) front ++ concat rest.
Proof. unfold pending. intros -> Ho. cbn. by rewrite dropN_app_le. Qed.

Lemma pending_nil q : wf q -> pending q = [] <-> items q = [].
Proof.
  intros [Hi Ho Ht]. split; [|unfold pending; intros ->; cbn; apply drop_nil].
  destruct (items q) as [|d ds] eqn:E; [done|]. rewrite (pending_cons q d ds) by (done || lia).
  intros [Hn _]%app_nil. apply (f_equal lenN) in Hn. rewrite lenN_dropN, lenN_nil in Hn. lia.
Qed.

Lemma push_wf max q data q' : wf q -> data <> [] -> push max q data = Ok q' ->
  wf q' /\ pending q' = pending q ++ data /\ total q' <= max.
Proof.
  intros Hwf Hd. unfold push, checked_add_usize. destruct (_ <=? _); [|done].
  destruct (N.ltb_spec max (total q + lenN data)); [done|]. intros [= <-].
  destruct Hwf as [Hi Ho Ht].
  assert (Hp : pending (mk (items q ++ [data]) (offset q) (total q + lenN data)) = pending q ++ data).
  { unfold pending. cbn. rewrite concat_app. cbn. rewrite app_nil_r. apply dropN_app_le.
    destruct (items q) as [|d ds]; cbn; [lia|]. rewrite lenN_app. lia. }
  split_and!; [|done|done]. split; cbn.
  - apply Forall_app. by repeat constructor.
  - destruct (items q); cbn; [|done]. rewrite Ho.
    destruct data; [done|]. rewrite lenN_cons. lia.
  - by rewrite Hp, lenN_app, <- Ht.
Qed.

(** Data is taken exactly when there is room for all of it. *)
Lemma push_room max q data : max <= usize_max ->
  is_ok (push max q data) = (total q + lenN data <=? max).
Proof.
  intros Hm. unfold push, checked_add_usize.
  destruct (N.leb_spec (total q + lenN data) usize_max), (N.ltb_spec max (total q + lenN data)),
    (N.leb_spec (total q + lenN data) max); cbn; try done; lia.
Qed.

Lemma advance_wf q front rest count :
  wf q -> items q = front :: rest -> 0 < count <= lenN (dropN (offset q) front) ->
  wf (advance q front rest count) /\
  pending q = takeN count (dropN (offset q) front) ++ pending (advance q front rest count) /\
  lenN (pending (advance q front rest count)) < lenN (pending q).
Proof.
  intros [Hi Ho Ht] E Hc. rewrite E in Ho. rewrite lenN_dropN in Hc.
  assert (Hp : pending q = takeN count (dropN (offset q) front) ++
            pending (advance q front rest count)).
  { rewrite (pending_cons q front rest) by (done || lia). unfold advance.
    destruct (N.eqb_spec (offset q + count) (lenN front)) as [He|He].
    - unfold pending at 1. cbn. rewrite dropN_0. f_equal.
      symmetry. apply takeN_ge. rewrite lenN_dropN. lia.
    - unfold pending at 1. cbn. rewrite dropN_app_le, <- dropN_dropN, app_assoc by lia.
      f_equal. by rewrite takeN_dropN. }
  assert (Hl : lenN (pending q) = count + lenN (pending (advance q front rest count))).
  { rewrite Hp at 1. rewrite lenN_app, lenN_takeN, lenN_dropN. lia. }
  split_and!; [|done|lia]. rewrite E in Hi. apply Forall_cons in Hi as [Hf Hr].
  assert (Htot : total (advance q front rest count) = total q - count)
    by (unfold advance; by destruct (_ =? _)).
  split.
  - unfold advance. destruct (_ =? _); cbn; [done|]. by constructor.
  - unfold advance. destruct (N.eqb_spec (offset q + count) (lenN front)); cbn; [|lia].
    destruct rest as [|d ds]; [done|]. apply Forall_cons in Hr as [Hd _].
    destruct d; [done|]. rewrite lenN_cons. lia.
  - rewrite Htot, Ht. lia.
Qed.

(** The loop ends, sends a prefix of what was pending, and keeps the rest. *)
Lemma flush_spec fuel write k q sent :
  wf q -> (N.to_nat (lenN (pending q)) < fuel)%nat ->
  exists q' more why, flush fuel write k q sent = Some (q', sent ++ more, why) /\ wf q' /\
    pending q = more ++ pending q' /\ total q' <= total q /\
    (why = Drained <-> items q' = []).
Proof.
  revert k q sent; induction fuel as [|fuel IH]; intros k q sent Hwf Hf; [lia|]. cbn [flush].
  destruct (items q) as [|front rest] eqn:E.
  { exists q, [], Drained. rewrite app_nil_r. split_and!; try done; lia. }
  assert (Hstop : forall why, why <> Drained -> exists q' more why',
    Some (q, sent, why) = Some (q', sent ++ more, why') /\ wf q' /\
    pending q = more ++ pending q' /\ total q' <= total q /\ (why' = Drained <-> items q' = [])).
  { intros why Hw. exists q, [], why. rewrite app_nil_r, E. split_and!; try done; lia. }
  cbv zeta. destruct (write k) as [n| |]; [|by apply Hstop..].
  destruct (N.eqb_spec (N.min n (lenN (dropN (offset q) front))) 0) as [Hz|Hz]; [by apply Hstop|].
  set (count := N.min _ _) in *.
  destruct (advance_wf q front rest count Hwf E ltac:(lia)) as (Hwf' & Hp & Hlt).
  destruct (IH (S k) (advance q front rest count) (sent ++ takeN count (dropN (offset q) front)) Hwf')
    as (q' & more & why & Hfl & Hw' & Hp' & Ht & Hs); [lia|].
  exists q', (takeN count (dropN (offset q) front) ++ more), why. rewrite Hfl.
  split_and!; [by rewrite <- app_assoc|done| | |done].
  - rewrite Hp, Hp'. by rewrite <- app_assoc.
  - etransitivity; [exact Ht|]. unfold advance. destruct (_ =? _); cbn; lia.
Qed.

(** What successive writes take of [before], from the call number [k] on: each
    is offered the bytes that are next and takes some of them; after the last
    there is nothing left, or it took nothing. *)
Inductive written (write : nat -> write_result) : nat -> bytes -> bytes -> bytes -> Prop :=
| written_all k : written write k [] [] []
| written_stop k after : after <> [] -> (forall n, write k = Wrote n -> n = 0) -> written write k after [] after
| written_more k n offer rest sent after :
    write k = Wrote n -> 0 < n -> offer <> [] ->
    written write (S k) (dropN (N.min n (lenN offer)) offer ++ rest) sent after ->
    written write k (offer ++ rest) (takeN (N.min n (lenN offer)) offer ++ sent) after.

Lemma flush_written fuel write k q sent q' out why : wf q -> flush fuel write k q sent = Some (q', out, why) ->
  exists more, out = sent ++ more /\ written write k (pending q) more (pending q').
Proof.
  revert k q sent; induction fuel as [|fuel IH]; intros k q sent Hwf; cbn [flush]; [done|].
  pose proof (pending_nil q Hwf) as Hnil. destruct (items q) as [|front rest] eqn:E.
  { intros [= <- <- _]. exists []. rewrite app_nil_r, (proj2 Hnil eq_refl). split; [done|constructor]. }
  assert (Hp : pending q <> []) by (intros Hp; by apply Hnil in Hp).
  assert (Ho : offset q < lenN front) by (pose proof (wf_offset _ Hwf) as Ho; by rewrite E in Ho).
  assert (Hs : lenN (dropN (offset q) front) <> 0) by (rewrite lenN_dropN; lia).
  assert (Hstop : (forall n, write k = Wrote n -> n = 0) -> forall x, Some (q, sent, x) = Some (q', out, why) ->
    exists more, out = sent ++ more /\ written write k (pending q) more (pending q')).
  { intros Hw x [= <- <- _]. exists []. rewrite app_nil_r. split; [done|by constructor]. }
  cbv zeta. destruct (write k) as [n| |] eqn:Hw; [|by apply Hstop..].
  destruct (N.eqb_spec (N.min n (lenN (dropN (offset q) front))) 0) as [Hz|Hz].
  { apply Hstop. intros m [= <-]. lia. }
  set (count := N.min _ _) in *. destruct (advance_wf q front rest count Hwf E ltac:(lia)) as (Hwf' & Hpend & _).
  intros Hf. apply (IH _ _ _ Hwf') in Hf as (more & -> & Hm). eexists. rewrite <- app_assoc. split; [done|].
  rewrite (pending_cons q front rest) in Hpend |- * by (done || lia). apply (written_more write k n); [done|lia| |].
  - intros Hd. by rewrite Hd in Hs.
  - fold count. assert (E2 : dropN count (dropN (offset q) front) ++ concat rest = pending (advance q front rest count)).
    { rewrite <- (takeN_dropN count (dropN (offset q) front)), <- app_assoc in Hpend at 1. by apply app_inv_head in Hpend. }
    by rewrite E2.
Qed.

(** The loop only fails when a write does. *)
Lemma flush_failed fuel write k q sent q' out :
  flush fuel write k q sent = Some (q', out, Failed) -> exists i, write i = WriteFailed.
Proof.
  revert k q sent; induction fuel as [|fuel IH]; intros k q sent; cbn [flush]; [done|].
  destruct (items q) as [|front rest]; [done|]. cbv zeta.
  destruct (write k) eqn:Hw; [|done|intros _; by exists k]. destruct (_ =? _); [done|]. apply IH.
Qed.
End ByteQueue.
