(* ===== verification/HolderReactor.v ===== *)
(** * HolderReactor: which descriptors are polled.

    Models [crates/persist-holder/src/reactor.rs]: the two tables between
    descriptors and epoll tokens. *)
From S2P Require Import Prelude.
Import String.StringSyntax.
Local Open Scope N_scope.

(** ** [Reactor]: the tables; [control] is the kernel's answer to [epoll_ctl]
    when it is asked for some events *)

Module Reactor.

Record t : Type := mk { next_token : N; tokens : gmap N N; fds : gmap N N }.

(** [EPOLLIN | EPOLLRDHUP | EPOLLERR] *)
Definition BASE_EVENTS : N := N.lor (N.lor 0x1 0x2000) 0x8.
(** The events a descriptor is polled for; 4 is [EPOLLOUT]. *)
Definition interest (writable : bool) : N := N.lor BASE_EVENTS (if writable then 0x4 else 0).

Definition new : t := mk 1 ∅ ∅.

(** [token.wrapping_add(1).max(1)] *)
Definition add (control : N -> bool) (fd : N) (writable : bool) (r : t) : result persist_error unit * t :=
  let token := next_token r in
  let next := N.max ((token + 1) mod 2 ^ 64) 1 in
  if control (interest writable) then (Ok tt, mk next (<[fd := token]> (tokens r)) (<[token := fd]> (fds r)))
  else (Err (IoError "configure holder epoll fd"), mk next (tokens r) (fds r)).

Definition modify (control : N -> bool) (fd : N) (writable : bool) (r : t) : result persist_error unit :=
  _ ← ok_or (tokens r !! fd) (InvalidArgument "holder epoll fd is not registered");
  if control (interest writable) then Ok tt else Err (IoError "configure holder epoll fd").

Definition remove (fd : N) (r : t) : t :=
  mk (next_token r) (delete fd (tokens r))
    (match tokens r !! fd with Some token => delete token (fds r) | None => fds r end).

Definition fd_for_token (token : N) (r : t) : option N := fds r !! token.
End Reactor.
