(* ===== verification/HolderConnection.v ===== *)
(** * HolderConnection: one peer of the holder.

    Models [crates/persist-holder/src/connection.rs]: the bytes read from a peer
    become frames, frames to send go through a bounded queue.  Each queued frame
    is what the peer will read next after what was pending ([queue_spec]). *)
From S2P Require Import Prelude Bytes HolderWire HolderFrame ByteQueue.
From Stdlib Require Import Lia.
Import String.StringSyntax.
Import HolderFrame(HolderFrame, HOLDER_PROTOCOL_BASELINE_MINOR).
Local Open Scope N_scope.

(** [.map_err(|error| protocol_error(context, error))] *)
Definition protocol {A} (message : String.string) (c : result HolderProtocolError A)
  : result persist_error A :=
  match c with Ok a => Ok a | Err _ => Err (InvalidArgument message) end.

(** ** [Connection] *)

Module Connection.

Definition MAX_PENDING_OUTPUT : N := 1024 * 1024.

Inductive ConnectionRole : Type := Pending | Control | Data.

#[global] Instance role_eq_dec : EqDecision ConnectionRole.
Proof. solve_decision. Defined.

Record t : Type := mk {
  peer_pid : N;
  peer_uid : N;
  role : ConnectionRole;
  attached_session : option N;
  protocol_minor : N;
  accumulator : HolderFrame.HolderFrameAccumulator;
  output : ByteQueue.t;
  close_after_flush : bool;
}.

Definition new (pid uid : N) : t :=
  mk pid uid Pending None HOLDER_PROTOCOL_BASELINE_MINOR HolderFrame.new ByteQueue.empty false.

Definition set_role (c : t) (r : ConnectionRole) : t :=
  mk (peer_pid c) (peer_uid c) r (attached_session c) (protocol_minor c) (accumulator c)
    (output c) (close_after_flush c).
Definition set_attached (c : t) (s : option N) : t :=
  mk (peer_pid c) (peer_uid c) (role c) s (protocol_minor c) (accumulator c)
    (output c) (close_after_flush c).
Definition set_protocol_minor (c : t) (m : N) : t :=
  mk (peer_pid c) (peer_uid c) (role c) (attached_session c) m (accumulator c)
    (output c) (close_after_flush c).
Definition set_accumulator (c : t) (a : HolderFrame.HolderFrameAccumulator) : t :=
  mk (peer_pid c) (peer_uid c) (role c) (attached_session c) (protocol_minor c) a
    (output c) (close_after_flush c).
Definition set_output (c : t) (o : ByteQueue.t) : t :=
  mk (peer_pid c) (peer_uid c) (role c) (attached_session c) (protocol_minor c) (accumulator c)
    o (close_after_flush c).
Definition set_close_after_flush (c : t) : t :=
  mk (peer_pid c) (peer_uid c) (role c) (attached_session c) (protocol_minor c) (accumulator c)
    (output c) true.

(** What the reads of one event return: the bytes of each, then the end of the
    stream, [EAGAIN], or an error. *)
Inductive read_end : Type := PeerClosed | ReadBlocked | ReadError.
Record Reads : Type := mkReads { read_chunks : list bytes; read_last : read_end }.

Definition read_frames (reads : Reads) (c : t)
  : result persist_error (list (N * HolderFrame) * bool * t) :=
  '(frames, acc) ← protocol "invalid holder frame: {error:?}"
    (HolderFrame.receive_chunks (accumulator c) (read_chunks reads));
  match read_last reads with
  | ReadError => Err (IoError "read holder peer")
  | PeerClosed => Ok (frames, true, set_accumulator c acc)
  | ReadBlocked => Ok (frames, false, set_accumulator c acc)
  end.

Definition queue (c : t) (frame : HolderFrame) : result persist_error t :=
  bs ← protocol "invalid holder frame: {error:?}"
    (HolderFrame.encode_frame_with_minor frame (protocol_minor c));
  match ByteQueue.push MAX_PENDING_OUTPUT (output c) bs with
  | Ok q => Ok (set_output c q)
  | Err ByteQueue.Overflow => Err (InvalidArgument "holder output queue overflow")
  | Err ByteQueue.LimitExceeded =>
      Err (InvalidArgument "holder client output queue limit exceeded")
  end.

Definition wants_write (c : t) : bool :=
  match ByteQueue.items (output c) with [] => false | _ => true end.

(** [Ok(false)]: the connection is to be closed. *)
Definition flush (write : nat -> ByteQueue.write_result) (c : t)
  : option (result persist_error bool * t * bytes) :=
  '(q, sent, why) ← ByteQueue.flush (ByteQueue.rounds (output c)) write 0 (output c) [];
  let c := set_output c q in
  Some (match why with
        | ByteQueue.Zero => Ok false
        | ByteQueue.Failed => Err (IoError "write holder peer")
        | _ => Ok (negb (close_after_flush c && negb (wants_write c)))
        end, c, sent).
End Connection.
