(* ===== verification/HolderRuntime.v ===== *)
(** * HolderRuntime: the sessions a holder owns.

    Models [crates/persist-holder/src/runtime.rs] (the whole [Runtime]) and the
    queue of [log_worker.rs].  A handler is an [M] of Effects.v over the state
    it changes; the kernel's answers (what [posix_openpt] and [fork] gave, what
    [read], [write] and [waitpid] return, the time) are arguments.  [BTreeMap]s
    are [gmap]s, iterated in the order of their keys by [ordered]. *)
From S2P Require Import Prelude OrderedMap Bytes Utf8 RingBuffer HolderWire HolderFrame Environment.
From S2P Require Import HolderMessages HolderOperation HolderSession ShellState Effects.
From S2P Require Import ByteQueue.
From Stdlib Require Import Lia.
From stdpp Require Import sorting.
Import String.StringSyntax.
Import Environment(SnapshotJson, SnapshotJsonLaws, EnvironmentSnapshot).
Import ShellState(EnvelopeJson, EnvelopeJsonLaws, ShellStateIdentity, OpenFile, Stat).
Import Inventory(HolderLogState, Healthy, Degraded, Disabled).
Import Operation(OperationResponse, OperationStatus, StatusOk, NotFound, Conflict, Rejected,
  Internal, ExitContextResponse, ExitContextResponseV2).
Local Open Scope N_scope.

(** ** The log worker's queue *)

Module LogWorker.

Definition MAX_LOG_BACKLOG : N := 8 * 1024 * 1024.

Record LogItem : Type := mkItem { item_session_id : N; path : str; data : bytes }.

Record t : Type := mk { items : list LogItem; queued : N; failures : list (N * N) }.

Definition start : t := mk [] 0 [].

(** The number of bytes dropped. *)
Definition enqueue (session_id : N) (path : str) (data : bytes) (q : t) : N * t :=
  match checked_add_usize (queued q) (lenN data) with
  | None => (lenN data, q)
  | Some new_size =>
      if MAX_LOG_BACKLOG <? new_size then (lenN data, q)
      else (0, mk (items q ++ [mkItem session_id path data]) new_size (failures q))
  end.

(** One round of [worker_loop]: the write of the first item succeeds or fails. *)
Definition work (written : bool) (q : t) : t :=
  match items q with
  | [] => q
  | item :: rest =>
      mk rest (queued q - lenN (data item))
        (if written then failures q
         else failures q ++ [(item_session_id item, lenN (data item))])
  end.

Definition take_failures (q : t) : list (N * N) * t := (failures q, mk (items q) (queued q) []).
End LogWorker.

Module HolderRuntime.

Definition MAX_PENDING_INPUT : N := 1024 * 1024.

(** [PtySession]: the descriptor and the process it controls. *)
Record Pty : Type := mkPty { master_fd : N; child_pid : N }.

Record Session : Type := mkSession {
  pty : option Pty;
  shell_pid : N;
  ring : RingBuffer.t;
  log_path : option str;
  log_state : HolderLogState;
  created_at_ms : N;
  last_active_at_ms : N;
  state_identity : ShellStateIdentity;
  last_state_sequence : N;
  final_cwd : option str;
  final_environment : option EnvironmentSnapshot;
  exit_code : option Z;
  input : ByteQueue.t;
  closing : bool;
}.

Record Runtime : Type := mkRuntime {
  sessions : gmap N Session;
  pty_to_session : gmap N N;
  state_dir : str;
  generation : N;
}.

Record OutputBatch : Type := mkBatch {
  batch_session_id : N; chunks : list bytes; log_dropped : N }.

Record ExitedSession : Type := mkExited {
  exited_session_id : N; exited_code : Z; exited_cwd : option str;
  exited_environment : option EnvironmentSnapshot; exited_pty_fd : N; exited_closing : bool }.

(** Assignments to the fields of a session. *)
Definition set_output (s : Session) (ring : RingBuffer.t) (now : N) : Session :=
  mkSession (pty s) (shell_pid s) ring (log_path s) (log_state s) (created_at_ms s) now
    (state_identity s) (last_state_sequence s) (final_cwd s) (final_environment s) (exit_code s)
    (input s) (closing s).
Definition set_log_state (s : Session) (state : HolderLogState) : Session :=
  mkSession (pty s) (shell_pid s) (ring s) (log_path s) state (created_at_ms s)
    (last_active_at_ms s) (state_identity s) (last_state_sequence s) (final_cwd s)
    (final_environment s) (exit_code s) (input s) (closing s).
Definition set_input (s : Session) (input : ByteQueue.t) (active : N) : Session :=
  mkSession (pty s) (shell_pid s) (ring s) (log_path s) (log_state s) (created_at_ms s) active
    (state_identity s) (last_state_sequence s) (final_cwd s) (final_environment s) (exit_code s)
    input (closing s).
Definition set_closing (s : Session) : Session :=
  mkSession (pty s) (shell_pid s) (ring s) (log_path s) (log_state s) (created_at_ms s)
    (last_active_at_ms s) (state_identity s) (last_state_sequence s) (final_cwd s)
    (final_environment s) (exit_code s) (input s) true.
Definition set_exit (s : Session) (sequence : N) (cwd : option str)
    (environment : option EnvironmentSnapshot) (code : Z) (now : N) : Session :=
  mkSession (pty s) (shell_pid s) (ring s) (log_path s) (log_state s) (created_at_ms s) now
    (state_identity s) sequence cwd environment (Some code) (input s) (closing s).
Definition take_pty (s : Session) : Session :=
  mkSession None (shell_pid s) (ring s) (log_path s) (log_state s) (created_at_ms s)
    (last_active_at_ms s) (state_identity s) (last_state_sequence s) (final_cwd s)
    (final_environment s) (exit_code s) (input s) (closing s).

Definition set_sessions (rt : Runtime) (f : gmap N Session -> gmap N Session) : Runtime :=
  mkRuntime (f (sessions rt)) (pty_to_session rt) (state_dir rt) (generation rt).
Definition set_ptys (rt : Runtime) (f : gmap N N -> gmap N N) : Runtime :=
  mkRuntime (sessions rt) (f (pty_to_session rt)) (state_dir rt) (generation rt).

(** [self.generation.wrapping_add(1).max(1)] *)
Definition next_generation (g : N) : N := N.max ((g + 1) mod 2 ^ 64) 1.
Definition bump_generation (rt : Runtime) : Runtime :=
  mkRuntime (sessions rt) (pty_to_session rt) (state_dir rt) (next_generation (generation rt)).

Definition new (state_dir : str) : Runtime := mkRuntime ∅ ∅ state_dir 0.

Definition response (session_id : N) (status : OperationStatus) (message : String.string)
  : OperationResponse := Operation.mkResponse session_id status (lit message).

Definition H (A : Type) : Type := M Runtime persist_error A.

(** ** Creating *)

Definition create (open_session : result persist_error Pty) (now : N)
    (request : Session.CreateSessionRequest) : H (OperationResponse * option N) :=
  let id := Session.session_id request in
  rt ← get;
  match sessions rt !! id with
  | Some _ => mret (response id Conflict "exists", None)
  | None =>
      match ShellState.validated_identity (state_dir rt) id (Session.state_incarnation request)
              (Session.state_file request) with
      | None => mret (response id Rejected "invalid state identity", None)
      | Some state_identity =>
          pty ← lift open_session;
          ring ← unwrap (RingBuffer.new (N.to_nat (Session.ring_buffer_size request)));
          let log_enabled := match Session.log_path request with Some _ => true | None => false end in
          let session := mkSession (Some pty) (child_pid pty) ring (Session.log_path request)
            (if log_enabled then Healthy else Disabled) now now state_identity 0 None None None
            ByteQueue.empty false in
          _ ← modify (fun rt => set_sessions rt <[id := session]>);
          _ ← modify (fun rt => set_ptys rt <[master_fd pty := id]>);
          _ ← modify bump_generation;
          mret (response id StatusOk "", Some (master_fd pty))
      end
  end.

(** ** Listing *)

Definition entry (session_id : N) (s : Session) : Inventory.HolderSessionEntry :=
  Inventory.mkEntry session_id (shell_pid s)
    (match exit_code s with Some _ => Inventory.Exited | None => Inventory.Running end)
    (exit_code s) (created_at_ms s) (last_active_at_ms s)
    (N.of_nat (RingBuffer.len (ring s)) mod 2 ^ 32) false (log_state s)
    (match exit_code s with Some _ => true | None => false end).

(** [matching]: the sessions after the cursor, in order.  The loop takes
    [limit] of them; [peek] says whether another one follows. *)
Definition inventory (rt : Runtime) (request : Inventory.InventoryRequest)
  : Inventory.InventoryResponse :=
  let matching := filter (fun x => Inventory.cursor request < x.1) (ordered (sessions rt)) in
  let entries := map (fun x => entry x.1 x.2) (takeN (Inventory.limit request) matching) in
  let next_cursor :=
    match dropN (Inventory.limit request) matching with
    | [] => None
    | _ :: _ => Inventory.session_id <$> last entries
    end in
  Inventory.mkResponse entries next_cursor.

Definition session_for_pty (rt : Runtime) (fd : N) : option N := pty_to_session rt !! fd.
Definition pty_fds (rt : Runtime) : list N := map fst (ordered (pty_to_session rt)).
Definition pty_fd (rt : Runtime) (session_id : N) : option N :=
  s ← sessions rt !! session_id; master_fd <$> pty s.
Definition replay (rt : Runtime) (session_id max_bytes : N) : option bytes :=
  s ← sessions rt !! session_id; Some (RingBuffer.read_replay (ring s) (N.to_nat max_bytes)).
Definition is_running (rt : Runtime) (session_id : N) : bool :=
  match sessions rt !! session_id with
  | Some s => match exit_code s with Some _ => false | None => true end
  | None => false
  end.

(** ** Output *)

(** What the successive [read_output] calls return: bytes, then [Ok(0)] (the
    end, or nothing more for now) or [EIO], or another error. *)
Inductive read_end : Type := ReadStop | ReadFailed.
Record PtyReads : Type := mkReads { read_chunks : list bytes; read_last : read_end }.

(** The state of the loop: the session, the log queue, the chunks, the bytes
    the log dropped. *)
Definition drain_state : Type := Session * LogWorker.t * list bytes * N.

(** A chunk is cut at the size of the buffer; an empty one stops the loop. *)
Fixpoint drain_loop (session_id now : N) (reads : list bytes) (st : drain_state)
  : option drain_state :=
  match reads with
  | [] => Some st
  | chunk :: reads' =>
      match takeN HolderFrame.MAX_HOLDER_IO_FRAME chunk with
      | [] => Some st
      | b :: bs =>
          let chunk := b :: bs in
          let '(s, logs, chunks, dropped) := st in
          ring ← RingBuffer.write (ring s) chunk;
          let s := set_output s ring now in
          let '(lost, logs) :=
            match log_path s with
            | Some path => LogWorker.enqueue session_id path chunk logs
            | None => (0, logs)
            end in
          drain_loop session_id now reads' (s, logs, chunks ++ [chunk], dropped + lost)
      end
  end.

Definition newly_degraded (dropped : N) (s : Session) : bool :=
  (0 <? dropped) && negb (match log_state s with Degraded => true | _ => false end).

Definition drain_output (reads : PtyReads) (now fd : N)
  : M (Runtime * LogWorker.t) persist_error OutputBatch :=
  st ← get;
  session_id ← lift (ok_or (session_for_pty st.1 fd) (InvalidArgument "unknown holder PTY"));
  s ← unwrap (sessions st.1 !! session_id);
  match pty s with
  | None => mret (mkBatch session_id [] 0)
  | Some _ =>
      '(s, logs, chunks, dropped) ← unwrap
        (drain_loop session_id now (read_chunks reads) (s, st.2, [], 0));
      _ ← modify (fun st => (set_sessions st.1 <[session_id := s]>, logs));
      match read_last reads with
      | ReadFailed => fail (IoError "drain holder PTY")
      | ReadStop =>
          _ ← (if newly_degraded dropped s
               then modify (fun st => (bump_generation
                      (set_sessions st.1 <[session_id := set_log_state s Degraded]>), st.2))
               else mret tt);
          mret (mkBatch session_id chunks dropped)
      end
  end.

(** ** Input *)

(** The loop on one session: what it leaves, what it sent, whether it failed. *)
Definition flush_session (write : nat -> ByteQueue.write_result) (s : Session)
  : option (Session * bytes * bool) :=
  match pty s with
  | None => Some (s, [], false)
  | Some _ =>
      '(q, sent, why) ← ByteQueue.flush (ByteQueue.rounds (input s)) write 0 (input s) [];
      Some (set_input s q (last_active_at_ms s), sent,
            match why with ByteQueue.Failed => true | _ => false end)
  end.

Definition flush_input (write : nat -> ByteQueue.write_result) (session_id : N) : H bool :=
  rt ← get;
  s ← unwrap (sessions rt !! session_id);
  '(s, sent, failed) ← unwrap (flush_session write s);
  _ ← modify (fun rt => set_sessions rt <[session_id := s]>);
  if (failed : bool) then fail (IoError "write holder PTY")
  else mret (match ByteQueue.items (input s) with [] => false | _ => true end).

Definition queue_input (write : nat -> ByteQueue.write_result) (now session_id : N) (data : bytes)
  : H bool :=
  rt ← get;
  s ← lift (ok_or (sessions rt !! session_id) (InvalidArgument "holder session not found"));
  match exit_code s, data with
  | Some _, _ | _, [] => fail (InvalidArgument "holder session is not writable")
  | None, _ :: _ =>
      q ← lift (match ByteQueue.push MAX_PENDING_INPUT (input s) data with
                | Ok q => Ok q
                | Err ByteQueue.Overflow => Err (InvalidArgument "holder input queue overflow")
                | Err ByteQueue.LimitExceeded =>
                    Err (InvalidArgument "holder input queue limit exceeded")
                end);
      _ ← modify (fun rt => set_sessions rt <[session_id := set_input s q now]>);
      flush_input write session_id
  end.

Definition resize (winsize_set : bool) (session_id : N) : H unit :=
  rt ← get;
  _ ← lift (ok_or (pty_fd rt session_id) (InvalidArgument "holder session not running"));
  if winsize_set then mret tt else fail (IoError "resize holder PTY").

(** The foreground process group if there is one, else the shell. *)
Definition signal_target (pty : Pty) (foreground : option N) : Z :=
  match foreground with Some group => (- Z.of_N group)%Z | None => Z.of_N (child_pid pty) end.

Definition signal (foreground : option N) (kill : Z -> N -> bool) (session_id sig : N) : H unit :=
  rt ← get;
  pty ← lift (ok_or (sessions rt !! session_id ≫= pty) (InvalidArgument "holder session not running"));
  if kill (signal_target pty foreground) sig then mret tt else fail (IoError "signal holder PTY").

(** ** Ending *)

(** The result of [signal_child(SIGHUP)] is ignored. *)
Definition close (session_id : N) : H OperationResponse :=
  rt ← get;
  match sessions rt !! session_id with
  | None => mret (response session_id NotFound "not found")
  | Some s =>
      match exit_code s, pty s with
      | Some _, _ | None, None => mret (response session_id StatusOk "")
      | None, Some _ =>
          _ ← modify (fun rt => set_sessions rt <[session_id := set_closing s]>);
          mret (response session_id StatusOk "")
      end
  end.

Definition kill (killed : bool) (session_id : N) : H OperationResponse :=
  rt ← get;
  match sessions rt !! session_id with
  | None => mret (response session_id NotFound "not found")
  | Some s =>
      mret (response session_id
              (match pty s with Some _ => if killed then StatusOk else Internal | None => StatusOk end) "")
  end.

Definition exit_context_response (rt : Runtime) (session_id : N) : ExitContextResponse :=
  match sessions rt !! session_id with
  | None => Operation.mkContextV1 session_id NotFound None None
  | Some s =>
      match exit_code s with
      | Some code => Operation.mkContextV1 session_id StatusOk (Some code) (final_cwd s)
      | None => Operation.mkContextV1 session_id Conflict None None
      end
  end.

Definition exit_context_response_v2 (rt : Runtime) (session_id : N) : ExitContextResponseV2 :=
  let legacy := exit_context_response rt session_id in
  Operation.mkContext (Operation.c1_session_id legacy) (Operation.c1_status legacy)
    (Operation.c1_exit_code legacy) (Operation.c1_cwd legacy)
    (sessions rt !! session_id ≫= final_environment).

Definition retire_exited (removed : bool) (session_id : N) : H OperationResponse :=
  rt ← get;
  match sessions rt !! session_id with
  | None => mret (response session_id NotFound "not found")
  | Some s =>
      match exit_code s with
      | None => mret (response session_id Conflict "session is running")
      | Some _ =>
          if negb removed then mret (response session_id Internal "state cleanup failed")
          else
            _ ← modify (fun rt => set_sessions rt (delete session_id));
            _ ← modify bump_generation;
            mret (response session_id StatusOk "")
      end
  end.

Section reaping.
Context `{SnapshotJson} `{EnvelopeJson}.

(** What the kernel answers for one session: [waitpid], and the state file. *)
Record ReapOs : Type := mkReapOs {
  reap_euid : N;
  poll_exit : N -> result persist_error (option Z);
  state_directory : N -> option Stat;
  state_contents : N -> OpenFile;
}.

Definition reap_session (os : ReapOs) (now id : N) (s : Session) (p : Pty) (code : Z)
  : Session * ExitedSession :=
  let s' :=
    match ShellState.capture (reap_euid os) (state_identity s) (last_state_sequence s)
            (state_directory os id) (state_contents os id) with
    | Some state => set_exit s (ShellState.sequence state) (Some (ShellState.cwd state))
                      (ShellState.environment state) code now
    | None => set_exit s (last_state_sequence s) (final_cwd s) (final_environment s) code now
    end in
  (s', mkExited id code (final_cwd s') (final_environment s') (master_fd p) (closing s')).

(** The first loop, over the sessions in order; [?] leaves what it changed. *)
Fixpoint reap_loop (os : ReapOs) (now : N) (l : list (N * Session)) (exited : list ExitedSession)
  : H (list ExitedSession) :=
  match l with
  | [] => mret exited
  | (id, s) :: l' =>
      match pty s with
      | None => reap_loop os now l' exited
      | Some p =>
          code ← lift (poll_exit os id);
          match code with
          | None => reap_loop os now l' exited
          | Some code =>
              let '(s', e) := reap_session os now id s p code in
              _ ← modify (fun rt => set_sessions rt <[id := s']>);
              reap_loop os now l' (exited ++ [e])
          end
      end
  end.

(** The second loop: the terminals of the sessions that ended are closed. *)
Definition release (rt : Runtime) (e : ExitedSession) : Runtime :=
  let rt := set_ptys rt (delete (exited_pty_fd e)) in
  let rt := match sessions rt !! exited_session_id e with
            | Some s => set_sessions rt <[exited_session_id e := take_pty s]>
            | None => rt
            end in
  bump_generation rt.

Definition reap_exited (os : ReapOs) (now : N) : H (list ExitedSession) :=
  rt ← get;
  exited ← reap_loop os now (ordered (sessions rt)) [];
  _ ← modify (fun rt => fold_left release exited rt);
  mret exited.
End reaping.

Definition mark_log_failed (session_id : N) (rt : Runtime) : Runtime :=
  match sessions rt !! session_id with
  | None => rt
  | Some s =>
      let rt' := set_sessions rt <[session_id := set_log_state s Degraded]> in
      match log_state s with Degraded => rt' | _ => bump_generation rt' end
  end.

(** ** The invariant of a runtime *)

Section invariant.
Context `{SnapshotJson}.

Record session_ok (id : N) (s : Session) : Prop := {
  so_id : is_u32 id /\ id <> 0;
  so_ring : RingBuffer.wf (ring s) /\
    N.of_nat (RingBuffer.capacity (ring s)) <= Session.MAX_HOLDER_RING_BUFFER;
  so_pid : is_u32 (shell_pid s) /\ shell_pid s <> 0;
  so_times : is_u64 (created_at_ms s) /\ is_u64 (last_active_at_ms s);
  so_input : ByteQueue.wf (input s) /\ ByteQueue.total (input s) <= MAX_PENDING_INPUT;
  so_exit : pty s = None <-> exit_code s <> None;
  so_code : forall c, exit_code s = Some c -> is_i32 c;
  so_cwd : Operation.cwd_ok (final_cwd s);
  so_environment : forall e, final_environment s = Some e ->
    Environment.validate_hard_limits e = Ok tt;
  so_final : exit_code s = None -> final_cwd s = None /\ final_environment s = None;
}.

Record wf (rt : Runtime) : Prop := {
  rt_sessions : map_Forall session_ok (sessions rt);
  rt_ptys : forall fd id, pty_to_session rt !! fd = Some id <->
    exists s p, sessions rt !! id = Some s /\ pty s = Some p /\ master_fd p = fd;
  rt_generation : is_u64 (generation rt);
}.

Lemma new_runtime_wf dir : wf (new dir).
Proof.
  split; cbn; [apply map_Forall_empty|intros fd id|done].
  rewrite lookup_empty. split; [done|]. intros (s & p & Hs & _). by rewrite lookup_empty in Hs.
Qed.

Lemma next_generation_ok g : is_u64 (next_generation g) /\ next_generation g <> 0.
Proof.
  unfold next_generation, is_u64. pose proof (N.mod_lt (g + 1) (2 ^ 64) ltac:(done)). lia.
Qed.

Lemma bump_wf rt : wf rt -> wf (bump_generation rt).
Proof. intros [Hs Hp _]. split; [done|done|]. apply next_generation_ok. Qed.

(** Replacing a session by one with the same terminal. *)
Lemma update_wf rt id s s' :
  wf rt -> sessions rt !! id = Some s -> pty s' = pty s -> session_ok id s' ->
  wf (set_sessions rt <[id := s']>).
Proof.
  intros [Hs Hp Hg] Hid Hpty Hok. split; cbn; [by apply map_Forall_insert_2| |done].
  intros fd i. rewrite Hp. split; intros (x & p & Hx & Hxp & Hfd).
  - destruct (decide (i = id)) as [->|Hne].
    + exists s', p. rewrite lookup_insert_eq. rewrite Hid in Hx. injection Hx as <-.
      by rewrite Hpty.
    + exists x, p. by rewrite lookup_insert_ne.
  - destruct (decide (i = id)) as [->|Hne].
    + rewrite lookup_insert_eq in Hx. injection Hx as <-. exists s, p. by rewrite <- Hpty.
    + rewrite lookup_insert_ne in Hx by done. by exists x, p.
Qed.

Lemma session_of rt id s : wf rt -> sessions rt !! id = Some s -> session_ok id s.
Proof. intros [Hs _ _] Hid. by apply (Hs id). Qed.

(** ** One operation at a time *)

Lemma set_output_ok id s chunk now ring' :
  session_ok id s -> is_u64 now -> RingBuffer.write (ring s) chunk = Some ring' ->
  session_ok id (set_output s ring' now).
Proof.
  intros [] Hnow Hw. destruct so_ring0 as [Hr Hc].
  destruct (RingBuffer.write_spec (ring s) chunk Hr) as (r & Hw' & Hr' & Hc' & _).
  rewrite Hw in Hw'. injection Hw' as <-. split; cbn; try done; [by rewrite Hc'|].
  by destruct so_times0.
Qed.

Lemma set_log_state_ok id s state : session_ok id s -> session_ok id (set_log_state s state).
Proof. by intros []. Qed.

Lemma set_closing_ok id s : session_ok id s -> session_ok id (set_closing s).
Proof. by intros []. Qed.

Lemma set_input_ok id s q now :
  session_ok id s -> is_u64 now -> ByteQueue.wf q -> ByteQueue.total q <= MAX_PENDING_INPUT ->
  session_ok id (set_input s q now).
Proof. intros [] Hn Hq Ht. destruct so_times0. by split. Qed.

(** What an operation keeps of a session: its process, its identity, its
    birth, and how it ended once it has. *)
Definition same_session (s s' : Session) : Prop :=
  shell_pid s' = shell_pid s /\ state_identity s' = state_identity s /\
  created_at_ms s' = created_at_ms s /\
  (exit_code s <> None -> exit_code s' = exit_code s /\ final_cwd s' = final_cwd s /\
     final_environment s' = final_environment s).

Definition keeps (rt rt' : Runtime) : Prop :=
  forall id s, sessions rt !! id = Some s ->
    exists s', sessions rt' !! id = Some s' /\ same_session s s'.

Lemma same_session_refl s : same_session s s.
Proof. done. Qed.

Lemma same_session_trans a b c : same_session a b -> same_session b c -> same_session a c.
Proof.
  intros (H1 & H2 & H3 & H4) (K1 & K2 & K3 & K4). split_and!; [congruence..|].
  intros He. destruct (H4 He) as (E1 & E2 & E3). rewrite <- E1, <- E2, <- E3 in *. auto.
Qed.

Lemma keeps_refl rt : keeps rt rt.
Proof. intros id s Hs. by exists s. Qed.

Lemma keeps_trans a b c : keeps a b -> keeps b c -> keeps a c.
Proof.
  intros Hab Hbc id s Hs. destruct (Hab id s Hs) as (s1 & H1 & E1).
  destruct (Hbc id s1 H1) as (s2 & H2 & E2). exists s2. split; [done|].
  by eapply same_session_trans.
Qed.

Lemma keeps_update rt id s s' :
  sessions rt !! id = Some s -> same_session s s' -> keeps rt (set_sessions rt <[id := s']>).
Proof.
  intros Hs Hsame i x Hx. cbn. destruct (decide (i = id)) as [->|Hne].
  - exists s'. rewrite lookup_insert_eq. rewrite Hs in Hx. by injection Hx as <-.
  - exists x. by rewrite lookup_insert_ne.
Qed.

(** *** Creating *)

Lemma create_spec open_session now r rt :
  wf rt -> is_u64 now ->
  (forall p, open_session = Ok p -> is_u32 (child_pid p) /\ child_pid p <> 0 /\
     pty_to_session rt !! master_fd p = None) ->
  is_u32 (Session.session_id r) -> Session.session_id r <> 0 ->
  0 < Session.ring_buffer_size r <= Session.MAX_HOLDER_RING_BUFFER ->
  runs (create open_session now r) rt (fun out rt' => wf rt' /\ keeps rt rt' /\
    match out with
    | Ok (resp, Some fd) =>
        resp = response (Session.session_id r) StatusOk "" /\
        sessions rt !! Session.session_id r = None /\
        pty_fd rt' (Session.session_id r) = Some fd /\
        replay rt' (Session.session_id r) (Session.ring_buffer_size r) = Some [] /\
        is_running rt' (Session.session_id r) = true /\
        pty_to_session rt' = <[fd := Session.session_id r]> (pty_to_session rt) /\
        exists p, open_session = Ok p /\ master_fd p = fd
    | Ok (resp, None) => rt' = rt /\ Operation.resp_status resp <> StatusOk
    | Err e => rt' = rt /\ open_session = Err e
    end).
Proof.
  intros Hwf Hnow Hopen Hid Hid0 Hsize. unfold create. cbv zeta. run.
  set (id := Session.session_id r) in *.
  destruct (sessions rt !! id) eqn:Hnone; run; [by split; [|split; [apply keeps_refl|]]|].
  destruct (ShellState.validated_identity _ _ _ _) as [identity|] eqn:Hv; run;
    [|by split; [|split; [apply keeps_refl|]]].
  destruct open_session as [p|e] eqn:Ho; run; [|by split; [|split; [apply keeps_refl|]]].
  destruct (Hopen p eq_refl) as (Hpid & Hpid0 & Hfresh).
  rewrite runs_unwrap. unfold RingBuffer.new. rewrite bool_decide_eq_true_2 by lia.
  eexists. split; [reflexivity|]. run.
  destruct (RingBuffer.new_wf (N.to_nat (Session.ring_buffer_size r))
    (RingBuffer.mk (replicate (N.to_nat (Session.ring_buffer_size r)) Byte.x00)
       (N.to_nat (Session.ring_buffer_size r)) 0 false)) as (Hring & Hcap & Hread).
  { unfold RingBuffer.new. by rewrite bool_decide_eq_true_2 by lia. }
  set (rb := RingBuffer.mk _ _ _ _) in *. set (s := mkSession _ _ rb _ _ _ _ _ _ _ _ _ _ _).
  assert (Hok : session_ok id s).
  { split; cbn; try done. split; [done|]. rewrite N2Nat.id. lia. }
  split_and!; [apply bump_wf|..].
  - split; cbn.
    + apply map_Forall_insert_2; [done|apply Hwf].
    + intros fd i. destruct (decide (fd = master_fd p)) as [->|Hfd].
      * rewrite lookup_insert_eq. split; [intros [= <-]; exists s, p; by rewrite lookup_insert_eq|].
        intros (x & q & Hx & Hq & Hm). destruct (decide (i = id)) as [->|Hi]; [done|].
        rewrite lookup_insert_ne in Hx by done.
        assert (Hc : pty_to_session rt !! master_fd p = Some i)
          by (apply (rt_ptys rt Hwf); by exists x, q). by rewrite Hfresh in Hc.
      * rewrite lookup_insert_ne by done. rewrite (rt_ptys rt Hwf). split.
        -- intros (x & q & Hx & Hq & Hm). exists x, q. split; [|done].
           rewrite lookup_insert_ne; [done|]. intros <-. by rewrite Hnone in Hx.
        -- intros (x & q & Hx & Hq & Hm). destruct (decide (i = id)) as [->|Hi].
           ++ rewrite lookup_insert_eq in Hx. injection Hx as <-. injection Hq as <-. by subst.
           ++ rewrite lookup_insert_ne in Hx by done. by exists x, q.
    + apply Hwf.
  - intros i x Hx. exists x. cbn. rewrite lookup_insert_ne; [done|]. intros ->. by rewrite Hnone in Hx.
  - done.
  - done.
  - unfold pty_fd. cbn. by rewrite lookup_insert_eq.
  - unfold replay. cbn. rewrite lookup_insert_eq. cbn. f_equal.
  - unfold is_running. cbn. by rewrite lookup_insert_eq.
  - done.
  - by exists p.
Qed.

(** *** Output *)

(** The chunks the loop takes from the successive reads. *)
Fixpoint chunks_of (reads : list bytes) : list bytes :=
  match reads with
  | [] => []
  | chunk :: reads' =>
      match takeN HolderFrame.MAX_HOLDER_IO_FRAME chunk with
      | [] => []
      | b :: bs => (b :: bs) :: chunks_of reads'
      end
  end.

(** Bytes accepted by the log queue, plus bytes it dropped. *)
Definition logged (s : Session) (output : bytes) : N :=
  match log_path s with Some _ => lenN output | None => 0 end.

Lemma enqueue_spec id path data q :
  exists q', LogWorker.enqueue id path data q = (lenN data, q') /\ q' = q \/
  LogWorker.enqueue id path data q =
    (0, LogWorker.mk (LogWorker.items q ++ [LogWorker.mkItem id path data])
          (LogWorker.queued q + lenN data) (LogWorker.failures q)) /\
  LogWorker.queued q + lenN data <= LogWorker.MAX_LOG_BACKLOG.
Proof.
  unfold LogWorker.enqueue, checked_add_usize. exists q. destruct (_ <=? _); [|by left].
  destruct (N.ltb_spec LogWorker.MAX_LOG_BACKLOG (LogWorker.queued q + lenN data)); [by left|].
  by right.
Qed.

Lemma ring_full rb : RingBuffer.wf rb ->
  RingBuffer.last_n (RingBuffer.capacity rb) (RingBuffer.read_all rb) = RingBuffer.read_all rb.
Proof.
  intros Hr. apply RingBuffer.last_n_all. rewrite RingBuffer.length_read_all by done.
  unfold RingBuffer.len. destruct Hr. destruct (RingBuffer.filled rb); lia.
Qed.

Lemma drain_loop_spec id now reads s logs cs d :
  session_ok id s -> is_u64 now ->
  exists s' logs' lost,
    drain_loop id now reads (s, logs, cs, d) = Some (s', logs', cs ++ chunks_of reads, d + lost) /\
    session_ok id s' /\ pty s' = pty s /\ log_path s' = log_path s /\ log_state s' = log_state s /\
    same_session s s' /\
    last_active_at_ms s' = (match chunks_of reads with [] => last_active_at_ms s | _ => now end) /\
    RingBuffer.capacity (ring s') = RingBuffer.capacity (ring s) /\
    RingBuffer.read_all (ring s') =
      RingBuffer.last_n (RingBuffer.capacity (ring s))
        (RingBuffer.read_all (ring s) ++ concat (chunks_of reads)) /\
    LogWorker.queued logs' + lost = LogWorker.queued logs + logged s (concat (chunks_of reads)).
Proof.
  intros Hok Hnow. revert s logs cs d Hok.
  induction reads as [|chunk reads IH]; intros s logs cs d Hok; cbn [drain_loop chunks_of].
  { exists s, logs, 0. rewrite !app_nil_r. destruct (so_ring _ _ Hok) as [Hr _].
    split_and!; try done; [by rewrite N.add_0_r| |unfold logged; destruct (log_path s); done].
    by rewrite ring_full. }
  destruct (takeN _ chunk) as [|b bs].
  { cbn. exists s, logs, 0. rewrite !app_nil_r. destruct (so_ring _ _ Hok) as [Hr _].
    split_and!; try done; [by rewrite N.add_0_r| |unfold logged; destruct (log_path s); done].
    by rewrite ring_full. }
  destruct (RingBuffer.write_spec (ring s) (b :: bs) (proj1 (so_ring _ _ Hok)))
    as (ring' & Hw & Hr' & Hc' & Hread). rewrite Hw. cbn [mbind option_bind].
  set (s1 := set_output s ring' now).
  assert (Hok1 : session_ok id s1) by (eapply set_output_ok; eauto).
  assert (Hlog : exists lost logs1,
    match log_path s1 with
    | Some path => LogWorker.enqueue id path (b :: bs) logs
    | None => (0, logs)
    end = (lost, logs1) /\ LogWorker.queued logs1 + lost = LogWorker.queued logs + logged s (b :: bs)).
  { unfold logged. cbn. destruct (log_path s) as [path|]; [|by exists 0, logs].
    destruct (enqueue_spec id path (b :: bs) logs) as (q & [[-> ->]|[-> _]]).
    - by eexists _, _.
    - eexists _, _. split; [done|]. cbn. lia. }
  destruct Hlog as (lost & logs1 & Hl & Hcount). rewrite Hl.
  destruct (IH s1 logs1 (cs ++ [b :: bs]) (d + lost) Hok1)
    as (s' & logs' & lost' & Hd & Hok' & Hp & Hpath & Hls & Hsame & Hact & Hcap & Hall & Hcount').
  exists s', logs', (lost + lost'). rewrite Hd. split_and!; try done.
  - rewrite <- app_assoc, N.add_assoc. done.
  - rewrite Hact. by destruct (chunks_of reads).
  - by rewrite Hcap.
  - rewrite Hall. cbn. rewrite Hc', Hread, RingBuffer.last_n_app. by rewrite <- app_assoc.
  - unfold logged in *. change (log_path s1) with (log_path s) in *.
    cbn [concat]. destruct (log_path s); [rewrite lenN_app|]; lia.
Qed.

(** The session of a terminal. *)
Lemma pty_session rt fd id : wf rt -> session_for_pty rt fd = Some id ->
  exists s p, sessions rt !! id = Some s /\ pty s = Some p /\ master_fd p = fd.
Proof. intros Hwf. by apply (rt_ptys rt Hwf). Qed.

Lemma drain_output_spec reads now fd rt logs :
  wf rt -> is_u64 now ->
  runs (drain_output reads now fd) (rt, logs) (fun out st => wf st.1 /\ keeps rt st.1 /\
    pty_to_session st.1 = pty_to_session rt /\
    match out with
    | Ok batch =>
        session_for_pty rt fd = Some (batch_session_id batch) /\
        chunks batch = chunks_of (read_chunks reads) /\
        (exists s s', sessions rt !! batch_session_id batch = Some s /\
           sessions st.1 !! batch_session_id batch = Some s' /\
           RingBuffer.read_all (ring s') =
             RingBuffer.last_n (RingBuffer.capacity (ring s))
               (RingBuffer.read_all (ring s) ++ concat (chunks batch)) /\
           LogWorker.queued st.2 + log_dropped batch =
             LogWorker.queued logs + logged s (concat (chunks batch)) /\
           (0 < log_dropped batch -> log_state s' = Degraded) /\
           (chunks batch <> [] -> last_active_at_ms s' = now))
    | Err _ => True
    end).
Proof.
  intros Hwf Hnow. unfold drain_output. run. cbn [fst snd].
  destruct (session_for_pty rt fd) as [id|] eqn:Hfd; cbn [ok_or]; run;
    [|by split_and!; [|apply keeps_refl|..]].
  destruct (pty_session rt fd id Hwf Hfd) as (s & p & Hs & Hp & _).
  rewrite runs_unwrap. exists s. split; [done|]. rewrite Hp. run.
  destruct (drain_loop_spec id now (read_chunks reads) s logs [] 0 (session_of rt id s Hwf Hs) Hnow)
    as (s' & logs' & lost & Hd & Hok' & Hpty & Hpath & Hls & Hsame & Hact & Hcap & Hall & Hcount).
  rewrite runs_unwrap. eexists. split; [exact Hd|]. run. cbn [fst snd].
  assert (Hwf1 : wf (set_sessions rt <[id := s']>)) by (by eapply update_wf).
  assert (Hk1 : keeps rt (set_sessions rt <[id := s']>)) by (by eapply keeps_update).
  destruct (read_last reads); run; [|by split_and!].
  cbn [app]. rewrite N.add_0_l. destruct (newly_degraded lost s') eqn:Hdeg; run; cbn [fst snd].
  - assert (Hin : sessions (set_sessions rt <[id := s']>) !! id = Some s')
      by (cbn; by rewrite lookup_insert_eq).
    split_and!; [| |done|done|done|].
    + apply bump_wf. eapply update_wf; [done|done|done|by apply set_log_state_ok].
    + eapply keeps_trans; [exact Hk1|].
      by eapply (keeps_update (set_sessions rt <[id := s']>) id s' (set_log_state s' Degraded)).
    + exists s, (set_log_state s' Degraded). cbn. rewrite lookup_insert_eq.
      split_and!; try done. intros Hne. rewrite Hact. by destruct (chunks_of _).
  - split_and!; [done..|]. exists s, s'. cbn. rewrite lookup_insert_eq. split_and!; try done.
    2:{ intros Hne. rewrite Hact. by destruct (chunks_of _). }
    intros Hlost. unfold newly_degraded in Hdeg. apply andb_false_iff in Hdeg as [Hdeg|Hdeg].
    + apply N.ltb_ge in Hdeg. lia.
    + by destruct (log_state s').
Qed.

(** Only a failed read makes it fail. *)
Lemma drain_output_ok reads now fd rt logs id :
  wf rt -> is_u64 now -> session_for_pty rt fd = Some id -> read_last reads = ReadStop ->
  runs (drain_output reads now fd) (rt, logs) (fun out _ => exists batch, out = Ok batch).
Proof.
  intros Hwf Hnow Hfd Hstop. destruct (pty_session rt fd id Hwf Hfd) as (s & p & Hs & Hp & _).
  unfold drain_output. run. cbn [fst snd]. rewrite Hfd. cbn [ok_or]. run. rewrite runs_unwrap.
  exists s. split; [done|]. rewrite Hp. run.
  destruct (drain_loop_spec id now (read_chunks reads) s logs [] 0 (session_of rt id s Hwf Hs) Hnow)
    as (s' & logs' & lost & Hd & _).
  rewrite runs_unwrap. eexists. split; [exact Hd|]. run. rewrite Hstop.
  destruct (newly_degraded _ _); run; by eexists.
Qed.

(** *** Input *)

Lemma flush_session_spec write id s :
  session_ok id s ->
  exists s' sent failed, flush_session write s = Some (s', sent, failed) /\ session_ok id s' /\
    pty s' = pty s /\ same_session s s' /\
    ByteQueue.pending (input s) = sent ++ ByteQueue.pending (input s') /\
    (pty s <> None -> ByteQueue.written write 0 (ByteQueue.pending (input s)) sent (ByteQueue.pending (input s'))).
Proof.
  intros Hok. unfold flush_session. destruct (pty s) as [p|] eqn:Hp.
  - destruct (so_input _ _ Hok) as [Hq Ht].
    destruct (ByteQueue.flush_spec (ByteQueue.rounds (input s)) write 0 (input s) [] Hq)
      as (q & sent & why & Hf & Hq' & Hpend & Ht' & _); [unfold ByteQueue.rounds; lia|].
    pose proof (ByteQueue.flush_written _ _ _ _ _ _ _ _ Hq Hf) as (more & E & Hw). cbn in E. subst more.
    rewrite Hf. cbn. eexists _, _, _. split; [reflexivity|]. cbn.
    split_and!; try done. apply set_input_ok; [done| |done|lia]. by destruct (so_times _ _ Hok).
  - by eexists _, [], _.
Qed.

Lemma flush_input_spec write id rt s :
  wf rt -> sessions rt !! id = Some s ->
  runs (flush_input write id) rt (fun out rt' => wf rt' /\ keeps rt rt' /\
    pty_to_session rt' = pty_to_session rt /\
    exists s' sent, sessions rt' !! id = Some s' /\
      ByteQueue.pending (input s) = sent ++ ByteQueue.pending (input s') /\
      (pty s <> None -> ByteQueue.written write 0 (ByteQueue.pending (input s)) sent (ByteQueue.pending (input s'))) /\
      match out with
      | Ok pending => pending = true <-> ByteQueue.pending (input s') <> []
      | Err e => e = IoError "write holder PTY"
      end).
Proof.
  intros Hwf Hs. unfold flush_input. run. rewrite runs_unwrap. exists s. split; [done|]. run.
  destruct (flush_session_spec write id s (session_of rt id s Hwf Hs))
    as (s' & sent & failed & Hf & Hok & Hp & Hsame & Hpend & Hwrit).
  rewrite runs_unwrap. eexists. split; [exact Hf|]. run.
  assert (Hwf' : wf (set_sessions rt <[id := s']>)) by (by eapply update_wf).
  assert (Hk : keeps rt (set_sessions rt <[id := s']>)) by (by eapply keeps_update).
  destruct failed; run; (split_and!; [done..|]; exists s', sent; cbn; rewrite lookup_insert_eq;
    split_and!; try done).
  pose proof (ByteQueue.pending_nil (input s') (proj1 (so_input _ _ Hok))) as Hnil.
  destruct (ByteQueue.items (input s')) eqn:E; split; try done.
  - intros Hne. exfalso. by apply Hne, Hnil.
  - intros _ Hn. apply Hnil in Hn. done.
Qed.

(** Only a failed write makes it fail. *)
Lemma flush_input_ok write id rt s :
  wf rt -> sessions rt !! id = Some s -> (forall k, write k <> ByteQueue.WriteFailed) ->
  runs (flush_input write id) rt (fun out _ => is_ok out = true).
Proof.
  intros Hwf Hs Hw. unfold flush_input. run. rewrite runs_unwrap. exists s. split; [done|]. run.
  destruct (flush_session_spec write id s (session_of rt id s Hwf Hs))
    as (s' & sent & failed & Hf & _).
  rewrite runs_unwrap. eexists. split; [exact Hf|]. run. destruct failed; [|done].
  unfold flush_session in Hf. destruct (pty s); [|done].
  destruct (ByteQueue.flush _ _ _ _ _) as [[[q sent'] why]|] eqn:He; [|done]. cbn in Hf.
  destruct why; try done. apply ByteQueue.flush_failed in He as [k Hk]. by destruct (Hw k).
Qed.

Lemma queue_input_spec write now id data rt :
  wf rt -> is_u64 now ->
  runs (queue_input write now id data) rt (fun out rt' => wf rt' /\ keeps rt rt' /\
    pty_to_session rt' = pty_to_session rt /\
    match out with
    | Ok pending => exists s s' sent, sessions rt !! id = Some s /\ sessions rt' !! id = Some s' /\
        ByteQueue.pending (input s) ++ data = sent ++ ByteQueue.pending (input s') /\
        ByteQueue.written write 0 (ByteQueue.pending (input s) ++ data) sent (ByteQueue.pending (input s')) /\
        (pending = true <-> ByteQueue.pending (input s') <> [])
    | Err e => rt' = rt \/ e = IoError "write holder PTY"
    end).
Proof.
  intros Hwf Hnow. unfold queue_input. run.
  destruct (sessions rt !! id) as [s|] eqn:Hs; cbn [ok_or]; run;
    [|by split_and!; [|apply keeps_refl|..|left]].
  destruct (exit_code s) as [c|] eqn:Hx; run; [by split_and!; [|apply keeps_refl|..|left]|].
  destruct data as [|b bs]; run; [by split_and!; [|apply keeps_refl|..|left]|].
  destruct (so_input _ _ (session_of rt id s Hwf Hs)) as [Hq Ht].
  destruct (ByteQueue.push MAX_PENDING_INPUT (input s) (b :: bs)) as [q|[]] eqn:Hpush; run;
    [|by split_and!; [|apply keeps_refl|..|left]..].
  destruct (ByteQueue.push_wf MAX_PENDING_INPUT (input s) (b :: bs) q Hq ltac:(done) Hpush) as (Hq' & Hpend & Ht').
  assert (Hok' : session_ok id (set_input s q now))
    by (apply set_input_ok; [by eapply session_of|done..]).
  eapply runs_mono.
  { eapply (flush_input_spec write id _ (set_input s q now)).
    - by eapply update_wf.
    - cbn. by rewrite lookup_insert_eq. }
  cbn beta. intros out rt' (Hwf' & Hk & Hpt & s' & sent & Hs' & Hsent & Hwrit & Hout).
  split_and!; [done| |done|].
  - eapply keeps_trans; [|exact Hk]. by eapply keeps_update.
  - cbn [input set_input pty] in Hsent, Hwrit. rewrite Hpend in Hsent, Hwrit.
    destruct out as [pending|e]; [|by right]. exists s, s', sent. split_and!; try done. apply Hwrit.
    intros Hp. by apply (so_exit _ _ (session_of rt id s Hwf Hs)) in Hp.
Qed.

(** *** Ending *)

Lemma close_spec id rt :
  wf rt -> runs (close id) rt (fun out rt' => wf rt' /\ keeps rt rt' /\
    pty_to_session rt' = pty_to_session rt /\
    exists resp, out = Ok resp /\ (Operation.resp_status resp = StatusOk <-> is_Some (sessions rt !! id)) /\
      (is_running rt id = true -> exists s', sessions rt' !! id = Some s' /\ closing s' = true)).
Proof.
  intros Hwf. unfold close. run.
  destruct (sessions rt !! id) as [s|] eqn:Hs.
  - pose proof (so_exit _ _ (session_of rt id s Hwf Hs)) as Hx.
    destruct (exit_code s) as [c|] eqn:Hc; run.
    + split_and!; [done|apply keeps_refl|done|]. eexists. split_and!; [done|split; [by eexists|done]|].
      unfold is_running. by rewrite Hs, Hc.
    + destruct (pty s) eqn:Hp; run; [|exfalso; by apply Hx].
      split_and!; [eapply update_wf; [done..|by apply set_closing_ok, (session_of rt)]
        |by eapply keeps_update|done|].
      eexists. split_and!; [done|split; [by eexists|done]|]. intros _. cbn.
      rewrite lookup_insert_eq. by eexists.
  - run. split_and!; [done|apply keeps_refl|done|]. eexists. split_and!; [done|split|].
    + done.
    + by intros [? ?].
    + unfold is_running. by rewrite Hs.
Qed.

(** Only an exited session is retired; its terminal is already gone. *)
Lemma retire_spec removed id rt :
  wf rt -> runs (retire_exited removed id) rt (fun out rt' => wf rt' /\
    pty_to_session rt' = pty_to_session rt /\
    exists resp, out = Ok resp /\
      match Operation.resp_status resp with
      | StatusOk => removed = true /\ sessions rt' = delete id (sessions rt) /\
          exists s, sessions rt !! id = Some s /\ exit_code s <> None
      | _ => rt' = rt
      end).
Proof.
  intros Hwf. unfold retire_exited. run.
  destruct (sessions rt !! id) as [s|] eqn:Hs; run; [|by split_and!; [..|by eexists]].
  destruct (exit_code s) as [c|] eqn:Hc; run; [|by split_and!; [..|by eexists]].
  destruct removed; cbn [negb]; run; [|by split_and!; [..|by eexists]].
  assert (Hp : pty s = None) by (apply (so_exit _ _ (session_of rt id s Hwf Hs)); by rewrite Hc).
  split_and!; [|done|].
  - apply bump_wf. split; cbn; [by apply map_Forall_delete, Hwf| |apply Hwf].
    intros fd i. rewrite (rt_ptys rt Hwf). split; intros (x & p & Hx & Hxp & Hm).
    + exists x, p. split; [|done]. rewrite lookup_delete_ne; [done|]. intros <-.
      rewrite Hs in Hx. injection Hx as <-. by rewrite Hp in Hxp.
    + exists x, p. split; [|done]. by apply lookup_delete_Some in Hx as [_ ?].
  - eexists. split; [done|]. cbn. split_and!; [done..|]. exists s. by rewrite Hc.
Qed.

Lemma mark_log_failed_spec id rt :
  wf rt -> wf (mark_log_failed id rt) /\ keeps rt (mark_log_failed id rt) /\
    pty_to_session (mark_log_failed id rt) = pty_to_session rt.
Proof.
  intros Hwf. unfold mark_log_failed. destruct (sessions rt !! id) as [s|] eqn:Hs;
    [|split_and!; [done|apply keeps_refl|done]].
  assert (Hwf' : wf (set_sessions rt <[id := set_log_state s Degraded]>))
    by (eapply update_wf; [done..|by apply set_log_state_ok, (session_of rt)]).
  assert (Hk : keeps rt (set_sessions rt <[id := set_log_state s Degraded]>))
    by (by eapply keeps_update).
  destruct (log_state s); (split_and!; [|done|done]); [by apply bump_wf|done|by apply bump_wf].
Qed.
End invariant.

(** *** Reaping *)

Section reap.
Context `{SnapshotJsonLaws} `{EnvelopeJsonLaws}.
Context (os : ReapOs) (now : N).

(** [e] reports the end of a session of [l], which is now [s']. *)
Definition reaped (l : list (N * Session)) (e : ExitedSession) (s' : Session) : Prop :=
  exists s p code, (exited_session_id e, s) ∈ l /\ pty s = Some p /\
    poll_exit os (exited_session_id e) = Ok (Some code) /\
    reap_session os now (exited_session_id e) s p code = (s', e).

Lemma reap_loop_spec l exited rt :
  NoDup l.*1 ->
  runs (reap_loop os now l exited) rt (fun out rt' =>
    pty_to_session rt' = pty_to_session rt /\ generation rt' = generation rt /\
    match out with
    | Err e => exists id, poll_exit os id = Err e
    | Ok out => exists new, out = exited ++ new /\
        (forall e, e ∈ new -> exists s', reaped l e s' /\ sessions rt' !! exited_session_id e = Some s') /\
        (forall id, id ∉ map exited_session_id new -> sessions rt' !! id = sessions rt !! id) /\
        (forall id s p code, (id, s) ∈ l -> pty s = Some p -> poll_exit os id = Ok (Some code) ->
           id ∈ map exited_session_id new)
    end).
Proof.
  revert exited rt; induction l as [|[id s] l IH]; intros exited rt Hd; cbn [reap_loop].
  { run. split_and!; [done..|]. exists []. rewrite app_nil_r. cbn. split_and!; try done.
    - by intros e ?%not_elem_of_nil.
    - by intros i x p code ?%not_elem_of_nil. }
  cbn in Hd. apply NoDup_cons in Hd as [Hni Hd].
  assert (Hweak : forall e s', reaped l e s' -> reaped ((id, s) :: l) e s').
  { intros e s' (x & p & code & Hx & Hr). exists x, p, code. split; [by right|done]. }
  assert (Hskip : (forall p code, pty s = Some p -> poll_exit os id = Ok (Some code) -> False) ->
    runs (reap_loop os now l exited) rt (fun out rt' =>
      pty_to_session rt' = pty_to_session rt /\ generation rt' = generation rt /\
      match out with
      | Err e => exists id, poll_exit os id = Err e
      | Ok out => exists new, out = exited ++ new /\
          (forall e, e ∈ new -> exists s', reaped ((id, s) :: l) e s' /\
             sessions rt' !! exited_session_id e = Some s') /\
          (forall i, i ∉ map exited_session_id new -> sessions rt' !! i = sessions rt !! i) /\
          (forall i x p code, (i, x) ∈ (id, s) :: l -> pty x = Some p ->
             poll_exit os i = Ok (Some code) -> i ∈ map exited_session_id new)
      end)).
  { intros Hno. eapply runs_mono; [by apply IH|]. cbn beta.
    intros [out|e] rt' (Hp & Hg & Hout); [|done]. destruct Hout as (new & -> & N1 & N2 & N3).
    split_and!; [done..|]. exists new. split_and!; [done| |done|].
    - intros e He. destruct (N1 e He) as (s' & Hr & Hs'). exists s'. split; [by apply Hweak|done].
    - intros i x p code [[= -> ->]|Hin]%elem_of_cons Hxp Hc; [by destruct (Hno p code)|by eapply N3]. }
  destruct (pty s) as [p|] eqn:Hp; [|apply Hskip; naive_solver]. run.
  destruct (poll_exit os id) as [[code|]|e] eqn:Hpoll; [|apply Hskip; naive_solver|].
  2:{ split_and!; [done..|]. by exists id. }
  destruct (reap_session os now id s p code) as [s1 e1] eqn:Hreap. run.
  assert (He1 : exited_session_id e1 = id)
    by (unfold reap_session in Hreap; by injection Hreap as _ <-).
  eapply runs_mono; [by apply IH|]. cbn beta. intros [out|e] rt' (Hpt & Hg & Hout); [|done].
  destruct Hout as (new & -> & N1 & N2 & N3).
  assert (Hid : id ∉ map exited_session_id new).
  { intros (e & -> & He)%list_elem_of_fmap. destruct (N1 e He) as (s' & (x & q & c & Hx & _) & _).
    apply Hni, list_elem_of_fmap. by exists (exited_session_id e, x). }
  split_and!; [done..|]. exists (e1 :: new). split_and!.
  - by rewrite <- app_assoc.
  - intros e [->|He]%elem_of_cons.
    + exists s1. rewrite He1. split.
      * exists s, p, code. rewrite He1. split_and!; [by left|done..].
      * rewrite (N2 id Hid). cbn. by rewrite lookup_insert_eq.
    + destruct (N1 e He) as (s' & Hr & Hs'). exists s'. split; [by apply Hweak|done].
  - intros i Hi. cbn in Hi. apply not_elem_of_cons in Hi as [Hne Hi]. rewrite (N2 i Hi). cbn.
    rewrite lookup_insert_ne; [done|]. by rewrite <- He1.
  - intros i x q c [[= -> ->]|Hin]%elem_of_cons Hxp Hc; cbn; [rewrite He1; by left|].
    right. by eapply N3.
Qed.

Lemma release_sessions exited rt id :
  sessions (fold_left release exited rt) !! id =
  if decide (id ∈ map exited_session_id exited) then take_pty <$> sessions rt !! id
  else sessions rt !! id.
Proof.
  revert rt; induction exited as [|e exited IH]; intros rt; cbn [fold_left map].
  { rewrite decide_False; [done|apply not_elem_of_nil]. }
  rewrite IH. assert (Hr : sessions (release rt e) !! id =
    if decide (id = exited_session_id e) then take_pty <$> sessions rt !! id else sessions rt !! id).
  { unfold release. cbn. destruct (decide (id = exited_session_id e)) as [->|Hne].
    - destruct (sessions rt !! exited_session_id e) eqn:Hs; cbn; [by rewrite lookup_insert_eq|done].
    - destruct (sessions rt !! exited_session_id e) eqn:Hs; cbn; [by rewrite lookup_insert_ne|done]. }
  rewrite Hr. destruct (decide (id = exited_session_id e)) as [->|Hne].
  - rewrite (decide_True (P := _ ∈ _ :: _)) by left.
    destruct (decide _); [|done]. by destruct (sessions rt !! _).
  - destruct (decide (id ∈ map exited_session_id exited)) as [Hin|Hin].
    + by rewrite decide_True by (by right).
    + rewrite decide_False; [done|]. by intros [?|?]%elem_of_cons.
Qed.

Lemma release_ptys exited rt fd id :
  pty_to_session (fold_left release exited rt) !! fd = Some id <->
  pty_to_session rt !! fd = Some id /\ fd ∉ map exited_pty_fd exited.
Proof.
  revert rt; induction exited as [|e exited IH]; intros rt; cbn [fold_left map].
  { split; [|by intros [? _]]. intros Hl. split; [done|apply not_elem_of_nil]. }
  rewrite IH. assert (Hr : pty_to_session (release rt e) = delete (exited_pty_fd e) (pty_to_session rt)).
  { unfold release. cbn. by destruct (sessions rt !! _). }
  rewrite Hr, lookup_delete_Some, not_elem_of_cons. naive_solver.
Qed.

Lemma release_generation exited rt :
  is_u64 (generation rt) -> is_u64 (generation (fold_left release exited rt)).
Proof.
  revert rt; induction exited as [|e exited IH]; intros rt Hg; cbn [fold_left]; [done|].
  apply IH. unfold release. cbn. destruct (sessions rt !! _); apply next_generation_ok.
Qed.

(** A session that ended, before and after its terminal is given up. *)
Lemma reap_session_ok id s p code s' e :
  session_ok id s -> pty s = Some p -> is_u64 now -> is_i32 code ->
  reap_session os now id s p code = (s', e) ->
  session_ok id (take_pty s') /\ same_session s s' /\ exit_code s' = Some code /\ pty s' = pty s /\
  e = mkExited id code (final_cwd s') (final_environment s') (master_fd p) (closing s).
Proof.
  intros Hok Hp Hnow Hcode. unfold reap_session.
  assert (Hx : exit_code s = None).
  { destruct (exit_code s) eqn:Hx; [|done]. assert (pty s = None) as Hn.
    { apply (so_exit _ _ Hok). by rewrite Hx. } by rewrite Hn in Hp. }
  destruct (so_final _ _ Hok Hx) as [Hcwd Henv]. pose proof (so_times _ _ Hok) as [Hc _].
  destruct (ShellState.capture _ _ _ _ _) as [state|] eqn:Hcap; intros [= <- <-].
  - apply ShellState.capture_decodes in Hcap as (b & c & a & _ & Hd & _ & _).
    apply ShellState.decode_and_validate_ok in Hd as (Hj & Hs & _).
    split_and!; try done.
    destruct Hok. split; cbn; try done.
    + by intros c' [= <-].
    + apply ShellState.envelope_cwd_ok; [done|by eapply ShellState.envelope_cwd].
    + apply (ShellState.env_environment _ Hs).
  - split_and!; try done. destruct Hok. split; cbn; try done. by intros c' [= <-].
Qed.

Lemma reap_exited_spec rt :
  wf rt -> is_u64 now -> (forall id code, poll_exit os id = Ok (Some code) -> is_i32 code) ->
  runs (reap_exited os now) rt (fun out rt' =>
    match out with
    | Err e => exists id, poll_exit os id = Err e
    | Ok exited => wf rt' /\ keeps rt rt' /\
          (forall fd, is_Some (pty_to_session rt' !! fd) -> is_Some (pty_to_session rt !! fd)) /\
        (forall e, e ∈ exited -> exists s', sessions rt' !! exited_session_id e = Some s' /\
           is_running rt (exited_session_id e) = true /\
           pty_fd rt (exited_session_id e) = Some (exited_pty_fd e) /\
           pty_to_session rt' !! exited_pty_fd e = None /\
           exit_code s' = Some (exited_code e) /\ final_cwd s' = exited_cwd e /\
           final_environment s' = exited_environment e) /\
        (forall id s p code, sessions rt !! id = Some s -> pty s = Some p ->
           poll_exit os id = Ok (Some code) -> id ∈ map exited_session_id exited)
    end).
Proof.
  intros Hwf Hnow Hpoll. unfold reap_exited. run.
  eapply runs_mono; [apply reap_loop_spec, ordered_NoDup|]. cbn beta.
  intros [out|e] rt1 (Hpt & Hg & Hout); [|done]. destruct Hout as (new & -> & N1 & N2 & N3).
  cbn [app]. run. set (rt' := fold_left release new rt1).
  assert (Hin : forall e, e ∈ new -> exists s p s', sessions rt !! exited_session_id e = Some s /\
    pty s = Some p /\ master_fd p = exited_pty_fd e /\
    sessions rt1 !! exited_session_id e = Some s' /\
    session_ok (exited_session_id e) (take_pty s') /\ same_session s s' /\
    exit_code s' = Some (exited_code e) /\ final_cwd s' = exited_cwd e /\
    final_environment s' = exited_environment e /\ pty s' = pty s).
  { intros e He. destruct (N1 e He) as (s' & (s & p & code & Hs & Hp & Hc & Hr) & Hs').
    apply elem_of_ordered in Hs.
    destruct (reap_session_ok _ s p code s' e (session_of rt _ s Hwf Hs) Hp Hnow
      (Hpoll _ _ Hc) Hr) as (Hok & Hsame & Hcode & Hpty & Heq).
    exists s, p, s'. rewrite Hcode, Heq. by split_and!. }
  assert (Hid : forall id, id ∈ map exited_session_id new -> exists e, e ∈ new /\ id = exited_session_id e).
  { intros id (e & -> & He)%list_elem_of_fmap. by exists e. }
  assert (Hlook : forall id s, sessions rt !! id = Some s -> exists s', sessions rt' !! id = Some s' /\
    same_session s s' /\ session_ok id s' /\
    pty s' = if decide (id ∈ map exited_session_id new) then None else pty s).
  { intros id s Hs. unfold rt'. rewrite release_sessions. destruct (decide _) as [Hi|Hi].
    - destruct (Hid id Hi) as (e & He & ->). destruct (Hin e He) as (s0 & p & s' & K1 & _ & _ & K2 & K3 & K4 & _).
      rewrite Hs in K1. injection K1 as <-. rewrite K2. cbn. exists (take_pty s'). by split_and!.
    - rewrite N2 by done. exists s. split_and!; [done|apply same_session_refl|by eapply session_of|done]. }
  assert (Hback : forall id s', sessions rt' !! id = Some s' -> exists s, sessions rt !! id = Some s).
  { intros id s'. unfold rt'. rewrite release_sessions. destruct (decide _) as [Hi|Hi].
    - intros _. destruct (Hid id Hi) as (e & He & ->). destruct (Hin e He) as (s0 & _ & _ & K1 & _). by exists s0.
    - rewrite N2 by done. by exists s'. }
  split_and!.
  - split.
    + intros id s' Hs'. destruct (Hback id s' Hs') as (s & Hs).
      destruct (Hlook id s Hs) as (s2 & K1 & _ & K2 & _). rewrite Hs' in K1. by injection K1 as ->.
    + intros fd id. unfold rt' at 1. rewrite release_ptys, Hpt, (rt_ptys rt Hwf). split.
      * intros [(s & p & Hs & Hp & Hm) Hnot]. destruct (Hlook id s Hs) as (s' & Hs' & _ & _ & Hpty).
        exists s', p. split_and!; [done| |done]. rewrite Hpty, decide_False; [done|].
        intros Hi. destruct (Hid id Hi) as (e & He & ->).
        destruct (Hin e He) as (s0 & p0 & _ & K1 & K2 & K3 & _). rewrite Hs in K1. injection K1 as <-.
        rewrite Hp in K2. injection K2 as <-. apply Hnot, list_elem_of_fmap. exists e. by rewrite <- Hm.
      * intros (s' & p & Hs' & Hp & Hm). destruct (Hback id s' Hs') as (s & Hs).
        destruct (Hlook id s Hs) as (s2 & K1 & _ & _ & Hpty). rewrite Hs' in K1. injection K1 as <-.
        rewrite Hpty in Hp. destruct (decide _) as [|Hi]; [done|]. split; [by exists s, p|].
        intros (e & Hfd & He)%list_elem_of_fmap. destruct (Hin e He) as (s0 & p0 & _ & K1 & K2 & K3 & _).
        assert (Heq : exited_session_id e = id).
        { assert (E1 : pty_to_session rt !! fd = Some id) by (apply (rt_ptys rt Hwf); by exists s, p).
          assert (E2 : pty_to_session rt !! fd = Some (exited_session_id e))
            by (apply (rt_ptys rt Hwf); exists s0, p0; by rewrite K3, Hfd).
          rewrite E1 in E2. by injection E2. }
        apply Hi, list_elem_of_fmap. by exists e.
    + apply release_generation. rewrite Hg. apply Hwf.
  - intros id s Hs. destruct (Hlook id s Hs) as (s' & ? & ? & _). by exists s'.
  - intros fd [id Hl]. unfold rt' in Hl. apply release_ptys in Hl as [Hl _]. rewrite <- Hpt. by exists id.
  - intros e He. destruct (Hin e He) as (s & p & s' & K1 & K2 & K3 & K4 & _ & _ & K5 & K6 & K7 & _).
    exists (take_pty s'). split_and!; try done.
    + unfold rt'. rewrite release_sessions, decide_True by (apply list_elem_of_fmap; by exists e).
      by rewrite K4.
    + unfold is_running. rewrite K1. pose proof (so_exit _ _ (session_of rt _ s Hwf K1)) as Hx.
      destruct (exit_code s); [|done]. assert (pty s = None) as Hn by (by apply Hx). by rewrite Hn in K2.
    + unfold pty_fd. rewrite K1. cbn. rewrite K2. cbn. by rewrite K3.
    + apply eq_None_not_Some. intros [id Hl]. unfold rt' in Hl. apply release_ptys in Hl as [_ Hl].
      apply Hl, list_elem_of_fmap. by exists e.
  - intros id s p code Hs Hp Hc. eapply N3; [|done..]. by apply elem_of_ordered.
Qed.
End reap.

(** ** Pages of the inventory *)

(** The daemon asks for page after page until one has no next cursor. *)
Fixpoint walk (fuel : nat) (rt : Runtime) (cursor limit : N)
  : option (list Inventory.HolderSessionEntry) :=
  match fuel with
  | O => None
  | S fuel' =>
      let page := inventory rt (Inventory.mkRequest cursor limit) in
      match Inventory.next_cursor page with
      | None => Some (Inventory.entries page)
      | Some cursor' =>
          rest ← walk fuel' rt cursor' limit; Some (Inventory.entries page ++ rest)
      end
  end.

Definition entries_of (l : list (N * Session)) : list Inventory.HolderSessionEntry :=
  map (fun x => entry x.1 x.2) l.

Lemma filter_after {A} (l1 l2 : list (N * A)) c :
  Forall (fun x => x.1 <= c) l1 -> Forall (fun x => c < x.1) l2 ->
  filter (fun x => c < x.1) (l1 ++ l2) = l2.
Proof.
  intros Hl Hr. rewrite filter_app.
  replace (filter (fun x => c < x.1) l1) with (@nil (N * A)).
  - cbn. induction Hr as [|x l Hx _ IH]; [done|]. by rewrite filter_cons_True, IH.
  - induction Hl as [|x l Hx _ IH]; [done|]. rewrite filter_cons_False; [done|]. lia.
Qed.

(** One page, when the cursor cuts the sorted sessions into [l1] and [l2]. *)
Lemma inventory_page rt c limit l1 l2 :
  ordered (sessions rt) = l1 ++ l2 -> Forall (fun x => x.1 <= c) l1 ->
  Forall (fun x => c < x.1) l2 ->
  inventory rt (Inventory.mkRequest c limit) =
  Inventory.mkResponse (entries_of (takeN limit l2))
    (match dropN limit l2 with [] => None | _ => fst <$> last (takeN limit l2) end).
Proof.
  intros Hl H1 H2. unfold inventory. cbn [Inventory.cursor Inventory.limit].
  rewrite Hl, (filter_after l1 l2) by done. unfold entries_of. f_equal.
  destruct (dropN limit l2); [done|]. rewrite fmap_last. by destruct (last (takeN limit l2)).
Qed.

(** The next cut, after a full page. *)
Lemma next_cut {A} (l1 l2 : list (N * A)) limit k :
  StronglySorted N.lt (l1 ++ l2).*1 -> fst <$> last (takeN limit l2) = Some k ->
  Forall (fun x => x.1 <= k) (l1 ++ takeN limit l2) /\ Forall (fun x => k < x.1) (dropN limit l2).
Proof.
  intros Hs Hk. rewrite <- (takeN_dropN limit l2), app_assoc, fmap_app in Hs.
  destruct (last (takeN limit l2)) as [x|] eqn:Hx; [|done]. injection Hk as Hk.
  apply last_Some in Hx as [p Hp].
  assert (Hin : k ∈ (l1 ++ takeN limit l2).*1).
  { apply list_elem_of_fmap. exists x. split; [done|]. rewrite Hp, app_assoc. set_solver. }
  split.
  - apply StronglySorted_app_1_l in Hs. rewrite Hp, app_assoc in *. rewrite fmap_app in Hs.
    apply Forall_app. split; [|repeat constructor; lia].
    apply Forall_forall. intros y Hy. apply N.lt_le_incl.
    apply (StronglySorted_app_1_elem_of N.lt _ _ y.1 k Hs).
    + apply list_elem_of_fmap. by exists y.
    + cbn. rewrite Hk. by left.
  - apply Forall_forall. intros y Hy. apply (StronglySorted_app_1_elem_of N.lt _ _ k y.1 Hs Hin).
    apply list_elem_of_fmap. by exists y.
Qed.

Lemma walk_from rt limit fuel c l1 l2 :
  ordered (sessions rt) = l1 ++ l2 -> Forall (fun x => x.1 <= c) l1 ->
  Forall (fun x => c < x.1) l2 -> 0 < limit -> (length l2 < fuel)%nat ->
  walk fuel rt c limit = Some (entries_of l2).
Proof.
  revert c l1 l2; induction fuel as [|fuel IH]; intros c l1 l2 Hl H1 H2 Hlim Hf; [lia|].
  cbn [walk]. rewrite (inventory_page rt c limit l1 l2) by done. cbn [Inventory.next_cursor Inventory.entries].
  destruct (dropN limit l2) as [|y ys] eqn:Hd.
  - f_equal. f_equal. by rewrite <- (takeN_dropN limit l2) at 2; rewrite Hd, app_nil_r.
  - pose proof (takeN_dropN limit l2) as Htd.
    assert (Hlast : exists x, last (takeN limit l2) = Some x).
    { destruct (last (takeN limit l2)) as [x|] eqn:Hx; [by exists x|]. apply last_None in Hx.
      apply (f_equal lenN) in Hx, Hd. rewrite lenN_takeN, lenN_nil in Hx.
      rewrite lenN_dropN, lenN_cons in Hd. lia. }
    destruct Hlast as [x Hx]. rewrite Hx. cbn [fmap option_fmap option_map].
    destruct (next_cut l1 l2 limit x.1) as [Hle Hgt].
    { rewrite <- Hl. apply ordered_sorted. } { by rewrite Hx. }
    rewrite (IH x.1 (l1 ++ takeN limit l2) (dropN limit l2)).
    + cbn. f_equal. unfold entries_of. by rewrite <- map_app, Htd.
    + by rewrite <- app_assoc, Htd.
    + done.
    + done.
    + done.
    + apply last_Some in Hx as [p Hp]. rewrite <- Htd, length_app, Hp, length_app in Hf. cbn in Hf. lia.
Qed.

(** The entries as the server sends them, with the writer of each session. *)
Definition mark_writer (active : N -> bool) (e : Inventory.HolderSessionEntry)
  : Inventory.HolderSessionEntry :=
  Inventory.mkEntry (Inventory.session_id e) (Inventory.shell_pid e) (Inventory.state e)
    (Inventory.exit_code e) (Inventory.created_at_ms e) (Inventory.last_active_at_ms e)
    (Inventory.ring_bytes e) (active (Inventory.session_id e)) (Inventory.log_state e)
    (Inventory.exit_context_available e).

Definition mark_writers (active : N -> bool) (r : Inventory.InventoryResponse)
  : Inventory.InventoryResponse :=
  Inventory.mkResponse (map (mark_writer active) (Inventory.entries r)) (Inventory.next_cursor r).

Lemma validate_mark active e :
  Inventory.validate_entry (mark_writer active e) = Inventory.validate_entry e.
Proof. by destruct e. Qed.

Section listing.
Context `{SnapshotJson}.

Lemma entry_valid_iff id s : session_ok id s ->
  Inventory.validate_entry (entry id s) = Ok tt <-> created_at_ms s <= last_active_at_ms s.
Proof.
  intros [[_ Hid] _ [_ Hpid] _ _ _ _ _ _ _]. unfold Inventory.validate_entry.
  cbn [entry Inventory.session_id Inventory.shell_pid Inventory.state Inventory.exit_code
    Inventory.exit_context_available Inventory.last_active_at_ms Inventory.created_at_ms].
  unfold Inventory.exit_matches_state, entry. cbn [Inventory.state Inventory.exit_code].
  rewrite (proj2 (N.eqb_neq id 0)), (proj2 (N.eqb_neq (shell_pid s) 0)) by done.
  destruct (exit_code s); cbn; destruct (N.ltb_spec (last_active_at_ms s) (created_at_ms s));
    split; done || lia.
Qed.

Lemma entry_ok_of active id s : session_ok id s -> created_at_ms s <= last_active_at_ms s ->
  Inventory.entry_ok (mark_writer active (entry id s)).
Proof.
  intros Hok Ht. pose proof (proj2 (entry_valid_iff id s Hok) Ht) as Hv. destruct Hok. split.
  - cbn. split_and!; [apply so_id0|apply so_pid0|]. unfold is_u32. by apply N.mod_lt.
  - apply so_times0.
  - apply so_code0.
  - by rewrite validate_mark.
Qed.

Lemma page_entries rt c limit e : e ∈ Inventory.entries (inventory rt (Inventory.mkRequest c limit)) ->
  exists id s, e = entry id s /\ sessions rt !! id = Some s.
Proof.
  unfold inventory. cbn. intros ([id s] & -> & Hin)%list_elem_of_fmap. exists id, s. split; [done|].
  apply elem_of_ordered. unfold takeN in Hin. apply elem_of_take in Hin as (i & Hin & _).
  apply list_elem_of_lookup_2 in Hin. by apply list_elem_of_filter in Hin as [_ ?].
Qed.

Lemma page_response_ok rt c limit active : wf rt ->
  map_Forall (fun _ s => created_at_ms s <= last_active_at_ms s) (sessions rt) ->
  0 < limit <= Inventory.MAX_INVENTORY_ENTRIES ->
  Inventory.inventory_response_ok
    (mark_writers active (inventory rt (Inventory.mkRequest c limit))).
Proof.
  intros Hwf Ht Hl. split_and!.
  - cbn. unfold lenN. rewrite !length_map. change (lenN (takeN limit
      (filter (fun x => c < x.1) (ordered (sessions rt)))) <= Inventory.MAX_INVENTORY_ENTRIES).
    rewrite lenN_takeN. lia.
  - cbn [Inventory.entries mark_writers]. apply Forall_forall. intros e (e0 & -> & He)%list_elem_of_fmap.
    apply page_entries in He as (id & s & -> & Hs). apply entry_ok_of; [by eapply session_of|by eapply Ht].
  - cbn [Inventory.next_cursor mark_writers]. intros k.
    unfold inventory. cbn [Inventory.next_cursor Inventory.cursor Inventory.limit].
    set (l := filter _ _). destruct (dropN limit l) as [|y ys] eqn:Hd; [done|].
    rewrite fmap_last. destruct (last (takeN limit l)) as [x|] eqn:Hx; [|done]. cbn. intros [= <-].
    assert (Hin : forall z, z ∈ l -> is_u32 z.1 /\ z.1 <> 0).
    { intros [id s] [_ Hz]%list_elem_of_filter. apply elem_of_ordered in Hz. by destruct (session_of rt id s Hwf Hz). }
    assert (Hs : StronglySorted N.lt ([] ++ l).*1).
    { apply filter_sorted, ordered_sorted. }
    destruct (next_cut [] l limit x.1 Hs) as [_ Hgt]; [by rewrite Hx|].
    rewrite Hd in Hgt. apply Forall_inv in Hgt.
    assert (Hxin : x ∈ l).
    { rewrite <- (takeN_dropN limit l). apply elem_of_app. left.
      apply last_Some in Hx as [p ->]. set_solver. }
    assert (Hyin : y ∈ l).
    { rewrite <- (takeN_dropN limit l), Hd. apply elem_of_app. right. by left. }
    destruct (Hin x Hxin) as [_ Hx0]. destruct (Hin y Hyin) as [Hy _].
    change (Inventory.session_id (entry x.1 x.2)) with x.1.
    unfold Inventory.NO_CURSOR, u32_max. unfold is_u32 in Hy. lia.
Qed.

(** C25: the inventory is complete and can be sent.  Walking the pages from
    cursor 0 with any page size terminates and lists every session exactly
    once, in the order of the ids; and as long as no session's clock went
    backwards, each page encodes (whatever the writers) to what the daemon
    decodes. *)
Theorem inventory_complete rt limit active :
  wf rt -> 0 < limit <= Inventory.MAX_INVENTORY_ENTRIES ->
  walk (S (size (sessions rt))) rt 0 limit = Some (entries_of (ordered (sessions rt))) /\
  (map_Forall (fun _ s => created_at_ms s <= last_active_at_ms s) (sessions rt) ->
   forall c, exists p,
     Inventory.encode_inventory_response
       (mark_writers active (inventory rt (Inventory.mkRequest c limit))) = Ok p).
Proof.
  intros Hwf Hl. split.
  - apply (walk_from rt limit _ 0 [] (ordered (sessions rt))); try done; [|lia|].
    + apply Forall_forall. intros [id s] Hin. apply elem_of_ordered in Hin.
      destruct (session_of rt id s Hwf Hin) as [[_ Hid] _ _ _ _ _ _ _ _ _]. cbn. lia.
    + unfold ordered. rewrite merge_sort_Permutation, length_map_to_list. lia.
  - intros Ht c. eexists. by apply Inventory.encode_inventory_response_ok, page_response_ok.
Qed.

Lemma encode_fails_at r e : e ∈ Inventory.entries r -> Inventory.validate_entry e <> Ok tt ->
  forall p, Inventory.encode_inventory_response r <> Ok p.
Proof.
  intros Hin Hv p. unfold Inventory.encode_inventory_response. destruct (_ <? _); [done|].
  destruct (match Inventory.next_cursor r with Some _ => _ | None => _ end); [done|].
  destruct (collect_ok Inventory.encode_entry (Inventory.entries r)) as [body|] eqn:Hc; [|done].
  apply collect_ok_Forall2 in Hc. apply list_elem_of_lookup in Hin as [i Hi].
  destruct (Forall2_lookup_l _ _ _ _ _ Hc Hi) as (b & _ & He).
  unfold Inventory.encode_entry in He. destruct (Inventory.validate_entry e) as [[]|]; [|done].
  by destruct Hv.
Qed.

(** A step of the wall clock breaks the inventory.  When a session
    prints while the clock shows a time before the session's creation, its
    [last_active_at_ms] falls below its [created_at_ms], and from then on
    no inventory page that lists it can be encoded: the holder answers the
    daemon's request with an error, which closes the control connection. *)
Theorem clock_step_breaks_inventory rt logs fd id s reads now :
  wf rt -> is_u64 now -> session_for_pty rt fd = Some id -> sessions rt !! id = Some s ->
  now < created_at_ms s -> chunks_of (read_chunks reads) <> [] -> read_last reads = ReadStop ->
  runs (drain_output reads now fd) (rt, logs) (fun out st =>
    (exists batch, out = Ok batch) /\
    forall request active, (exists e, e ∈ Inventory.entries (inventory st.1 request) /\
        Inventory.session_id e = id) ->
      forall p, Inventory.encode_inventory_response (mark_writers active (inventory st.1 request)) <> Ok p).
Proof.
  intros Hwf Hnow Hfd Hs Hlt Hne Hstop.
  pose proof (drain_output_ok reads now fd rt logs id Hwf Hnow Hfd Hstop) as Hok.
  eapply runs_mono; [exact (runs_and _ _ _ _ Hok (drain_output_spec reads now fd rt logs Hwf Hnow))|].
  cbn beta. intros out st [[batch ->] (Hwf' & Hk & _ & Hid & Hchunks & s0 & s' & H0' & Hs' & _ & _ & _ & Hact)].
  split; [by exists batch|]. rewrite Hfd in Hid. injection Hid as Hid. rewrite <- Hid in *.
  intros [c l] active (e & He & Heid) p.
  apply page_entries in He as Hp. destruct Hp as (i & x & -> & Hx).
  change (Inventory.session_id (entry i x)) with i in Heid. rewrite Heid in *.
  rewrite Hs' in Hx. injection Hx as <-.
  eapply (encode_fails_at _ (mark_writer active (entry id s'))).
  - cbn [Inventory.entries mark_writers]. apply list_elem_of_fmap. by eexists.
  - rewrite validate_mark, (entry_valid_iff id s' (session_of _ _ _ Hwf' Hs')).
    rewrite Hact by (by rewrite Hchunks). destruct (Hk id s Hs) as (s2 & Hs2 & _ & _ & Hcr & _).
    rewrite Hs' in Hs2. injection Hs2 as <-. lia.
Qed.
End listing.

(** ** Any sequence of operations *)

Section machine.
Context `{SnapshotJsonLaws} `{EnvelopeJsonLaws}.

Inductive Op : Type :=
| OpCreate (open_session : result persist_error Pty) (now : N) (request : Session.CreateSessionRequest)
| OpDrain (reads : PtyReads) (now fd : N)
| OpInput (write : nat -> ByteQueue.write_result) (now id : N) (data : bytes)
| OpFlush (write : nat -> ByteQueue.write_result) (id : N)
| OpClose (id : N)
| OpRetire (removed : bool) (id : N)
| OpReap (os : ReapOs) (now : N)
| OpLogFailed (id : N)
| OpLogWork (written : bool).

Definition St : Type := Runtime * LogWorker.t.
Definition on_runtime {A} (m : H A) : M St persist_error unit :=
  _ ← zoom fst (fun rt st => (rt, st.2)) m; mret tt.

Definition exec (op : Op) : M St persist_error unit :=
  match op with
  | OpCreate open_session now request => on_runtime (create open_session now request)
  | OpDrain reads now fd => _ ← drain_output reads now fd; mret tt
  | OpInput write now id data => on_runtime (queue_input write now id data)
  | OpFlush write id => on_runtime (flush_input write id)
  | OpClose id => on_runtime (close id)
  | OpRetire removed id => on_runtime (retire_exited removed id)
  | OpReap os now => on_runtime (reap_exited os now)
  | OpLogFailed id => modify (fun st => (mark_log_failed id st.1, st.2))
  | OpLogWork written => modify (fun st => (st.1, LogWorker.work written st.2))
  end.

(** What the kernel and the callers guarantee: a new terminal has its own
    descriptor and a process, requests are decoded ones, times are 64-bit,
    exit codes are [i32], and only an existing session is flushed. *)
Definition legal (rt : Runtime) (op : Op) : Prop :=
  match op with
  | OpCreate open_session now r =>
      is_u64 now /\ is_u32 (Session.session_id r) /\ Session.session_id r <> 0 /\
      0 < Session.ring_buffer_size r <= Session.MAX_HOLDER_RING_BUFFER /\
      forall p, open_session = Ok p -> is_u32 (child_pid p) /\ child_pid p <> 0 /\
        pty_to_session rt !! master_fd p = None
  | OpDrain _ now _ | OpInput _ now _ _ => is_u64 now
  | OpFlush _ id => is_Some (sessions rt !! id)
  | OpReap os now => is_u64 now /\ forall id code, poll_exit os id = Ok (Some code) -> is_i32 code
  | _ => True
  end.

(** A failed [waitpid] ends the holder. *)
Definition fatal (op : Op) (out : result persist_error unit) : Prop :=
  match op, out with OpReap _ _, Err _ => True | _, _ => False end.

Inductive reachable (dir : str) : St -> Prop :=
| reachable_new : reachable dir (new dir, LogWorker.start)
| reachable_step st op out st' :
    reachable dir st -> legal st.1 op -> exec op st = Some (out, st') -> ~ fatal op out ->
    reachable dir st'.

Definition step_ok (op : Op) (st st' : St) : Prop :=
  wf st'.1 /\ forall id s, sessions st.1 !! id = Some s ->
    (exists s', sessions st'.1 !! id = Some s' /\ same_session s s') \/
    (op = OpRetire true id /\ exit_code s <> None /\ sessions st'.1 !! id = None).

Lemma keeps_step op st st' : wf st'.1 -> keeps st.1 st'.1 -> step_ok op st st'.
Proof. intros Hwf Hk. split; [done|]. intros id s Hs. left. by apply Hk. Qed.

Lemma on_runtime_runs {A} (m : H A) st (Q : result persist_error A -> Runtime -> Prop) P :
  runs m st.1 Q -> (forall out rt', Q out rt' -> forall out', (is_ok out' = is_ok out) ->
    P out' (rt', st.2)) -> runs (on_runtime m) st P.
Proof.
  unfold on_runtime, runs, zoom, mbind, M_bind, mret, M_ret. intros HQ HP.
  destruct (m st.1) as [[[a|e] rt']|]; [by eapply HP..|done].
Qed.

Lemma exec_ok op st : wf st.1 -> legal st.1 op ->
  runs (exec op) st (fun out st' => fatal op out \/ step_ok op st st').
Proof.
  intros Hwf Hl. destruct op; cbn [exec legal] in *.
  - destruct Hl as (Hnow & Hid & Hid0 & Hsize & Hopen).
    eapply on_runtime_runs; [by apply create_spec|]. cbn beta.
    intros out rt' (Hw & Hk & _) out' _. right. by apply keeps_step.
  - run. destruct st as [rt logs]. eapply runs_mono; [by apply drain_output_spec|]. cbn beta.
    intros [b|e] st' (Hw & Hk & _); run; right; by apply keeps_step.
  - eapply on_runtime_runs; [by apply queue_input_spec|]. cbn beta.
    intros out rt' (Hw & Hk & _) out' _. right. by apply keeps_step.
  - destruct Hl as [s Hs]. eapply on_runtime_runs; [by eapply flush_input_spec|]. cbn beta.
    intros out rt' (Hw & Hk & _) out' _. right. by apply keeps_step.
  - eapply on_runtime_runs; [by apply close_spec|]. cbn beta.
    intros out rt' (Hw & Hk & _) out' _. right. by apply keeps_step.
  - eapply on_runtime_runs; [by apply retire_spec|]. cbn beta.
    intros out rt' (Hw & _ & resp & _ & Hr) out' _. right.
    destruct (Operation.resp_status resp); [|subst rt'; apply keeps_step; [done|apply keeps_refl]..].
    destruct Hr as (-> & Hdel & x & Hx & Hex). split; [done|]. cbn. intros i s Hs. rewrite Hdel.
    destruct (decide (i = id)) as [->|Hne].
    + right. rewrite Hs in Hx. injection Hx as <-. by rewrite lookup_delete_eq.
    + left. exists s. by rewrite lookup_delete_ne.
  - destruct Hl as [Hnow Hpoll]. eapply on_runtime_runs; [by apply reap_exited_spec|]. cbn beta.
    intros [exited|e] rt' Hout [u|e'] He; try done; [|by left].
    destruct Hout as (Hw & Hk & _). right. by apply keeps_step.
  - run. right. destruct (mark_log_failed_spec id st.1 Hwf) as (Hw & Hk & _). by apply keeps_step.
  - run. right. apply keeps_step; [done|apply keeps_refl].
Qed.

Lemma reachable_wf dir st : reachable dir st -> wf st.1.
Proof.
  induction 1 as [|st op out st' Hr IH Hl He Hf]; [apply new_runtime_wf|].
  pose proof (exec_ok op st IH Hl) as Hx. unfold runs in Hx. rewrite He in Hx.
  by destruct Hx as [?|[? _]].
Qed.

(** C24: no operation on a holder's sessions panics, whatever the kernel
    answers and whatever happened before.  In every reachable state each
    session is consistent (buffers within their bounds, a terminal exactly
    while it runs, a final state only once it ended) and terminals and
    sessions correspond one to one; and no step loses a session, changes
    its process or rewrites how it ended, except that retiring removes a
    session that has ended. *)
Theorem runtime_safe dir st op :
  reachable dir st -> legal st.1 op ->
  wf st.1 /\ exists out st', exec op st = Some (out, st') /\
    (fatal op out \/ (wf st'.1 /\ forall id s, sessions st.1 !! id = Some s ->
      (exists s', sessions st'.1 !! id = Some s' /\ same_session s s') \/
      (op = OpRetire true id /\ exit_code s <> None /\ sessions st'.1 !! id = None))).
Proof.
  intros Hr Hl. pose proof (reachable_wf dir st Hr) as Hwf. split; [done|].
  by apply runs_eq, exec_ok.
Qed.
End machine.

(** ** Witnesses: a holder with one session *)

#[local] Existing Instance Environment.bits_json.
#[local] Existing Instance Environment.bits_json_laws.
#[local] Existing Instance ShellState.envelope_bits.
#[local] Existing Instance ShellState.envelope_bits_laws.

Definition sample_request : Session.CreateSessionRequest :=
  Session.mkCreate 54 (lit "/bin/sh") [] None
    (LaunchEnvironment.LaunchEnvironment.mkLaunch [] [] [] []) None 16 None ShellState.sample_file
    ShellState.sample_incarnation.
Definition sample_open : result persist_error Pty := Ok (mkPty 9 100).
Definition sample_runtime : Runtime :=
  match create sample_open 1000 sample_request (new ShellState.sample_dir) with
  | Some (_, rt) => rt
  | None => new ShellState.sample_dir
  end.
Definition sample_session : Session :=
  mkSession (Some (mkPty 9 100)) 100 (RingBuffer.mk (replicate 16 Byte.x00) 16 0 false) None Disabled
    1000 1000 ShellState.sample_identity 0 None None None ByteQueue.empty false.

Lemma sample_legal : legal (new ShellState.sample_dir) (OpCreate sample_open 1000 sample_request).
Proof. cbn. split_and!; try done. by intros p [= <-]. Qed.

Lemma sample_runtime_wf : wf sample_runtime.
Proof.
  destruct sample_legal as (Hn & Hi & Hi0 & Hs & Ho).
  pose proof (create_spec sample_open 1000 sample_request (new ShellState.sample_dir)
    (new_runtime_wf _) Hn Ho Hi Hi0 Hs) as Hc.
  unfold runs in Hc. unfold sample_runtime.
  destruct (create _ _ _ _) as [[out rt]|]; [apply Hc|done].
Qed.

Lemma runtime_safe_witness :
  exists out st', exec (OpCreate sample_open 1000 sample_request)
    (new ShellState.sample_dir, LogWorker.start) = Some (out, st').
Proof.
  destruct (runtime_safe ShellState.sample_dir (new ShellState.sample_dir, LogWorker.start)
    (OpCreate sample_open 1000 sample_request) (reachable_new _) sample_legal)
    as (_ & out & st' & He & _).
  exists out, st'. exact He.
Defined.

Lemma inventory_complete_witness :
  walk 2 sample_runtime 0 1 = Some (entries_of (ordered (sessions sample_runtime))).
Proof.
  exact (proj1 (inventory_complete sample_runtime 1 (fun _ => true) sample_runtime_wf
    ltac:(by split))).
Defined.

Lemma clock_step_breaks_inventory_witness :
  runs (drain_output (mkReads [lit "late"] ReadStop) 999 9) (sample_runtime, LogWorker.start)
    (fun out st => (exists batch, out = Ok batch) /\
      forall request active, (exists e, e ∈ Inventory.entries (inventory st.1 request) /\
          Inventory.session_id e = 54) ->
        forall p, Inventory.encode_inventory_response (mark_writers active (inventory st.1 request)) <> Ok p).
Proof.
  apply (clock_step_breaks_inventory sample_runtime LogWorker.start 9 54 sample_session);
    [exact sample_runtime_wf|done|vm_compute; reflexivity|vm_compute; reflexivity|done|done|done].
Defined.
End HolderRuntime.
