(* ===== verification/HolderServer.v ===== *)
(** * HolderServer: the holder's event handlers.

    Models [crates/persist-holder/src/server.rs] (the handlers of
    [HolderServer::run]) and [server_handlers.rs] (the handlers of each frame).
    A handler is an [M] over the whole [Server]; what the kernel answers during
    one event is the argument [Os].  A [HashMap] is iterated in an order the
    argument chooses. *)
From S2P Require Import Prelude Bytes Utf8 RingBuffer HolderWire HolderFrame Environment.
From S2P Require Import HolderMessages HolderOperation HolderSession ShellState Effects.
From S2P Require Import ByteQueue HolderReactor HolderConnection HolderRuntime.
From Stdlib Require Import Lia.
Import String.StringSyntax.
Import Environment(SnapshotJson, SnapshotJsonLaws, EnvironmentSnapshot).
Import ShellState(EnvelopeJson, EnvelopeJsonLaws).
Import HolderFrame(HolderFrame, mkFrame, message_type, flags, request_id, generation, payload,
  HolderMessageType, HOLDER_PROTOCOL_BASELINE_MINOR, HOLDER_PROTOCOL_MINOR,
  HOLDER_CAPABILITY_ENVIRONMENT_CONTEXT, MAX_HOLDER_IO_FRAME).
Import Operation(OperationResponse, OperationStatus, StatusOk, NotFound).
Local Open Scope N_scope.

Import Connection(ConnectionRole, Pending, Control, Data, role, attached_session, protocol_minor,
  wants_write).


Module HolderServer.

Record Controller : Type := mkController {
  ctl_fd : N; ctl_pid : N; ctl_nonce : bytes; ctl_minor : N; ctl_capabilities : N }.

Record Server : Type := mkServer {
  logs : LogWorker.t;
  reactor : Reactor.t;
  runtime : HolderRuntime.Runtime;
  connections : gmap N Connection.t;
  writers : gmap N N;
  controller : option Controller;
  instance_id : bytes;
  shutdown_fd : option N;
}.

Definition set_reactor (f : Reactor.t -> Reactor.t) (s : Server) : Server :=
  mkServer (logs s) (f (reactor s)) (runtime s) (connections s) (writers s) (controller s)
    (instance_id s) (shutdown_fd s).
Definition set_connections (f : gmap N Connection.t -> gmap N Connection.t) (s : Server) : Server :=
  mkServer (logs s) (reactor s) (runtime s) (f (connections s)) (writers s) (controller s)
    (instance_id s) (shutdown_fd s).
Definition set_writers (f : gmap N N -> gmap N N) (s : Server) : Server :=
  mkServer (logs s) (reactor s) (runtime s) (connections s) (f (writers s)) (controller s)
    (instance_id s) (shutdown_fd s).
Definition set_controller (c : option Controller) (s : Server) : Server :=
  mkServer (logs s) (reactor s) (runtime s) (connections s) (writers s) c
    (instance_id s) (shutdown_fd s).
Definition set_shutdown (fd : N) (s : Server) : Server :=
  mkServer (logs s) (reactor s) (runtime s) (connections s) (writers s) (controller s)
    (instance_id s) (Some fd).
Definition set_runtime (rt : HolderRuntime.Runtime) (s : Server) : Server :=
  mkServer (logs s) (reactor s) rt (connections s) (writers s) (controller s)
    (instance_id s) (shutdown_fd s).
Definition set_sessions_and_logs (x : HolderRuntime.Runtime * LogWorker.t) (s : Server) : Server :=
  mkServer x.2 (reactor s) x.1 (connections s) (writers s) (controller s)
    (instance_id s) (shutdown_fd s).

(** The descriptors the holder polls for itself. *)
Record Fds : Type := mkFds { listener_fd : N; signal_fd : N; log_fd : N }.

(** [HolderServer::new], once the log thread and the epoll instance exist;
    [epoll_ctl] is the kernel's answer for a descriptor and the events asked for. *)
Definition new (epoll_ctl : N -> N -> bool) (fds : Fds) (state_dir : str) (instance_id : bytes)
  : result persist_error Server :=
  let '(added, reactor) := Reactor.add (epoll_ctl (listener_fd fds)) (listener_fd fds) false Reactor.new in
  _ ← added;
  let '(added, reactor) := Reactor.add (epoll_ctl (signal_fd fds)) (signal_fd fds) false reactor in
  _ ← added;
  let '(added, reactor) := Reactor.add (epoll_ctl (log_fd fds)) (log_fd fds) false reactor in
  _ ← added;
  Ok (mkServer LogWorker.start reactor (HolderRuntime.new state_dir) ∅ ∅ None instance_id None).

(** What the kernel answers during one step.  A new descriptor (of a terminal
    or a peer) may depend on the ones that are open. *)
Record Os : Type := mkOs {
  now_ms : N;
  holder_pid : N;
  epoll_ctl : N -> N -> bool;
  order : gmap N Connection.t -> list N;
  closes_within : N -> bool;
  open_session : Server -> Session.CreateSessionRequest -> result persist_error HolderRuntime.Pty;
  pty_reads : N -> HolderRuntime.PtyReads;
  pty_write : nat -> ByteQueue.write_result;
  peer_reads : Connection.Reads;
  peer_write : nat -> ByteQueue.write_result;
  winsize_set : bool;
  foreground : option N;
  kill_group : Z -> N -> bool;
  kill_child : bool;
  state_removed : bool;
  reaping : HolderRuntime.ReapOs;
  signal : result persist_error N;
  accepted : Server -> list (N * N * N);
  accept_end : result persist_error unit;
}.

Definition EPOLLIN : N := 1.
Definition EPOLLOUT : N := 4.
Definition EPOLLERR : N := 8.
Definition EPOLLHUP : N := 16.
Definition EPOLLRDHUP : N := 8192.
Definition SIGINT : N := 2.
Definition SIGTERM : N := 15.
Definition SIGCHLD : N := 17.

Definition H (A : Type) : Type := M Server persist_error A.

(** ** Connections: who is attached, who writes *)

Definition update (fd : N) (f : Connection.t -> Connection.t) : Server -> Server :=
  set_connections (alter f fd).

Definition detach_connection (fd : N) (s : Server) : Server :=
  match connections s !! fd with
  | None => s
  | Some c =>
      let s' := update fd (fun c => Connection.set_attached c None) s in
      match attached_session c with
      | Some id => if bool_decide (writers s !! id = Some fd) then set_writers (delete id) s' else s'
      | None => s'
      end
  end.

Definition detach_session (session_id : N) (s : Server) : Server :=
  set_connections (fmap (fun c => if bool_decide (attached_session c = Some session_id)
                                  then Connection.set_attached c None else c))
    (set_writers (delete session_id) s).

Section handlers.
Context `{SnapshotJson} `{EnvelopeJson}.
Context (os : Os).

Definition is_controller (fd : N) (s : Server) : bool :=
  match controller s with Some c => ctl_fd c =? fd | None => false end.

(** The data connections, in some order. *)
Definition data_fds (s : Server) : list N :=
  filter (fun fd => role <$> connections s !! fd = Some Data) (order os (connections s)).

(** The part of [disconnect] before the recursion. *)
Definition drop_connection (fd : N) (s : Server) : Server :=
  set_connections (delete fd) (detach_connection fd (set_reactor (Reactor.remove fd) s)).

(** [disconnect]: losing the controller disconnects every data connection.
    The recursive calls see no controller, so two levels are enough
    ([disconnect_depth]). *)
Fixpoint disconnect_at (depth : nat) (fd : N) (s : Server) : Server :=
  match depth with
  | O => s
  | S depth' =>
      let s' := drop_connection fd s in
      if is_controller fd s' then
        let s' := set_controller None s' in
        fold_left (fun s fd => disconnect_at depth' fd s) (data_fds s') s'
      else s'
  end.
Definition disconnect (fd : N) (s : Server) : Server := disconnect_at 2 fd s.

Definition reactor_modify (fd : N) (writable : bool) : H unit :=
  s ← get; lift (Reactor.modify (epoll_ctl os fd) fd writable (reactor s)).

Definition reactor_add (fd : N) : H unit := fun s =>
  let '(out, r) := Reactor.add (epoll_ctl os fd) fd false (reactor s) in
  Some (out, set_reactor (fun _ => r) s).

Definition queue_frame (fd : N) (frame : HolderFrame) : H unit :=
  s ← get;
  c ← lift (ok_or (connections s !! fd) (InvalidArgument "holder connection disappeared"));
  c ← lift (Connection.queue c frame);
  _ ← modify (set_connections <[fd := c]>);
  reactor_modify fd true.

Definition queue_or_disconnect (fd : N) (frame : HolderFrame) : H unit :=
  queued ← attempt (queue_frame fd frame);
  if is_ok queued then mret tt else modify (disconnect fd).

Definition send_control (frame : HolderFrame) : H unit :=
  s ← get;
  match controller s with
  | Some c => queue_or_disconnect (ctl_fd c) frame
  | None => mret tt
  end.

Definition frame_for (kind : HolderMessageType) (request generation : N) (payload : bytes)
  : HolderFrame := mkFrame kind 0 request generation payload.

Definition writer_frame (kind : HolderMessageType) (session_id generation : N) : HolderFrame :=
  frame_for kind 0 generation (Operation.encode_operation_request session_id).

Definition release_writer (session_id : N) : H unit :=
  s ← get;
  match writers s !! session_id with
  | Some fd =>
      _ ← modify (set_writers (delete session_id));
      queue_or_disconnect fd (writer_frame HolderFrame.WriteRevoked session_id
        (HolderRuntime.generation (runtime s)))
  | None => mret tt
  end.

Definition respond (fd : N) (request : HolderFrame) (kind : HolderMessageType) (payload : bytes)
  : H unit :=
  s ← get;
  queue_frame fd (frame_for kind (request_id request)
    (HolderRuntime.generation (runtime s)) payload).

Definition operation_response (fd : N) (request : HolderFrame) (kind : HolderMessageType)
    (response : OperationResponse) : H unit :=
  payload ← lift (protocol "invalid holder operation response: {error:?}"
    (Operation.encode_operation_response response));
  respond fd request kind payload.

(** A call of the runtime. *)
Definition on_runtime {A} (m : HolderRuntime.H A) : H A := zoom runtime set_runtime m.
Definition on_sessions {A} (m : M (HolderRuntime.Runtime * LogWorker.t) persist_error A) : H A :=
  zoom (fun s => (runtime s, logs s)) set_sessions_and_logs m.

(** ** Hello *)

(** A controller whose peer has closed is dropped first. *)
Definition drop_closed_controller : H unit :=
  s ← get;
  match controller s with
  | Some c =>
      match connections s !! ctl_fd c with
      | Some _ => if closes_within os (ctl_fd c) then modify (disconnect (ctl_fd c)) else mret tt
      | None => mret tt
      end
  | None => mret tt
  end.

Definition handle_control_hello (fd minor : N) (frame : HolderFrame) : H unit :=
  if negb (minor =? HOLDER_PROTOCOL_BASELINE_MINOR)
  then fail (InvalidArgument "ControlHello must use baseline minor")
  else
    _ ← drop_closed_controller;
    hello ← lift (protocol "invalid holder ControlHello: {error:?}"
      (Handshake.decode_control_hello (payload frame)));
    s ← get;
    peer ← unwrap (connections s !! fd);
    let status :=
      if negb (Handshake.uid hello =? Connection.peer_uid peer) ||
         negb (Handshake.daemon_pid hello =? Connection.peer_pid peer)
      then Handshake.PermissionDenied
      else match controller s with Some _ => Handshake.Busy | None => Handshake.Accepted end in
    _ ← queue_frame fd (frame_for HolderFrame.ControlHelloAck (request_id frame)
      (HolderRuntime.generation (runtime s))
      (Handshake.encode_control_hello_ack
         (Handshake.mkControlHelloAck (holder_pid os) (instance_id s) (Handshake.nonce hello) status)));
    match status with
    | Handshake.Accepted =>
        _ ← modify (update fd (fun c => Connection.set_role c Control));
        modify (set_controller (Some (mkController fd (Handshake.daemon_pid hello)
          (Handshake.nonce hello) HOLDER_PROTOCOL_BASELINE_MINOR 0)))
    | _ => modify (update fd Connection.set_close_after_flush)
    end.

Definition data_hello_accepted (s : Server) (peer_pid minor : N) (hello : Handshake.DataHello)
  : bool :=
  match controller s with
  | Some c =>
      (Handshake.data_daemon_pid hello =? peer_pid) &&
      (Handshake.data_daemon_pid hello =? ctl_pid c) &&
      bool_decide (Handshake.data_instance_id hello = instance_id s) &&
      bool_decide (Handshake.data_nonce hello = ctl_nonce c) && (minor =? ctl_minor c)
  | None => false
  end.

Definition handle_data_hello (fd minor : N) (frame : HolderFrame) : H unit :=
  hello ← lift (protocol "invalid holder DataHello: {error:?}"
    (Handshake.decode_data_hello (payload frame)));
  s ← get;
  peer ← unwrap (connections s !! fd);
  let accepted := data_hello_accepted s (Connection.peer_pid peer) minor hello in
  _ ← (if accepted then modify (update fd (fun c => Connection.set_protocol_minor c minor))
       else mret tt);
  _ ← queue_frame fd (frame_for HolderFrame.DataHelloAck (request_id frame)
    (HolderRuntime.generation (runtime s))
    (Handshake.encode_data_hello_ack (Handshake.mkDataHelloAck (instance_id s)
       (Handshake.data_nonce hello)
       (if accepted then Handshake.Accepted else Handshake.PermissionDenied))));
  if accepted then modify (update fd (fun c => Connection.set_role c Data))
  else modify (update fd Connection.set_close_after_flush).

Definition handle_hello (fd minor : N) (frame : HolderFrame) : H unit :=
  match message_type frame with
  | HolderFrame.ControlHello => handle_control_hello fd minor frame
  | HolderFrame.DataHello => handle_data_hello fd minor frame
  | _ => fail (InvalidArgument "expected holder hello")
  end.

(** ** Control requests *)

Definition handle_capability (fd minor : N) (frame : HolderFrame) : H unit :=
  s ← get;
  c ← (if negb (minor =? HOLDER_PROTOCOL_MINOR)
       then fail (InvalidArgument "invalid holder capability negotiation state")
       else unwrap (connections s !! fd));
  if negb (protocol_minor c =? HOLDER_PROTOCOL_BASELINE_MINOR)
  then fail (InvalidArgument "invalid holder capability negotiation state")
  else
    request ← lift (protocol "invalid holder Capability: {error:?}"
      (Capability.decode_capability_request (payload frame)));
    if negb (Capability.max_minor request =? HOLDER_PROTOCOL_MINOR)
    then fail (InvalidArgument "unsupported holder capability minor")
    else
      ctl ← lift (ok_or (match controller s with
                         | Some c => if ctl_fd c =? fd then Some c else None
                         | None => None
                         end) (InvalidArgument "missing holder controller"));
      if negb (bool_decide (Capability.instance_id request = instance_id s)) ||
         negb (bool_decide (Capability.nonce request = ctl_nonce ctl))
      then fail (InvalidArgument "holder capability identity mismatch")
      else
        _ ← modify (set_controller (Some (mkController fd (ctl_pid ctl) (ctl_nonce ctl)
                      HOLDER_PROTOCOL_MINOR HOLDER_CAPABILITY_ENVIRONMENT_CONTEXT)));
        _ ← modify (update fd (fun c => Connection.set_protocol_minor c HOLDER_PROTOCOL_MINOR));
        queue_frame fd (frame_for HolderFrame.CapabilityResp (request_id frame)
          (HolderRuntime.generation (runtime s))
          (Capability.encode_capability_response (Capability.mkResponse (instance_id s)
             (Capability.nonce request) HOLDER_PROTOCOL_MINOR
             HOLDER_CAPABILITY_ENVIRONMENT_CONTEXT))).

Definition handle_inventory (fd : N) (frame : HolderFrame) : H unit :=
  request ← lift (protocol "invalid holder Inventory: {error:?}"
    (Inventory.decode_inventory_request (payload frame)));
  s ← get;
  let inventory := HolderRuntime.mark_writers
    (fun id => match writers s !! id with Some _ => true | None => false end)
    (HolderRuntime.inventory (runtime s) request) in
  payload ← lift (protocol "invalid holder InventoryResp: {error:?}"
    (Inventory.encode_inventory_response inventory));
  respond fd frame HolderFrame.InventoryResp payload.

Definition handle_create (fd minor : N) (frame : HolderFrame) : H unit :=
  request ← lift (protocol "invalid holder Create: {error:?}"
    (if minor =? HOLDER_PROTOCOL_MINOR then Session.decode_create_request_v2 (payload frame)
     else Session.decode_create_request (payload frame)));
  s ← get;
  created ← on_runtime (HolderRuntime.create (open_session os s request) (now_ms os) request);
  _ ← (match created.2 with Some pty_fd => reactor_add pty_fd | None => mret tt end);
  operation_response fd frame HolderFrame.CreateResp created.1.

Definition handle_close (fd : N) (frame : HolderFrame) : H unit :=
  id ← lift (protocol "invalid holder operation: {error:?}"
    (Operation.decode_operation_request (payload frame)));
  response ← on_runtime (HolderRuntime.close id);
  operation_response fd frame HolderFrame.CloseResp response.

Definition handle_kill (fd : N) (frame : HolderFrame) : H unit :=
  id ← lift (protocol "invalid holder operation: {error:?}"
    (Operation.decode_operation_request (payload frame)));
  response ← on_runtime (HolderRuntime.kill (kill_child os) id);
  operation_response fd frame HolderFrame.KillResp response.

Definition handle_exit_context (fd minor : N) (frame : HolderFrame) : H unit :=
  id ← lift (protocol "invalid holder GetExitContext: {error:?}"
    (Operation.decode_operation_request (payload frame)));
  s ← get;
  payload ← lift (protocol "invalid holder GetExitContextResp: {error:?}"
    (if minor =? HOLDER_PROTOCOL_MINOR
     then Operation.encode_exit_context_response_v2
            (HolderRuntime.exit_context_response_v2 (runtime s) id)
     else Operation.encode_exit_context_response
            (HolderRuntime.exit_context_response (runtime s) id)));
  respond fd frame HolderFrame.GetExitContextResp payload.

Definition handle_retire (fd : N) (frame : HolderFrame) : H unit :=
  id ← lift (protocol "invalid holder RetireExited: {error:?}"
    (Operation.decode_operation_request (payload frame)));
  response ← on_runtime (HolderRuntime.retire_exited (state_removed os) id);
  operation_response fd frame HolderFrame.RetireExitedResp response.

Definition handle_shutdown (fd : N) (frame : HolderFrame) : H unit :=
  _ ← respond fd frame HolderFrame.ShutdownAllResp [];
  modify (set_shutdown fd).

Definition handle_control (fd minor : N) (frame : HolderFrame) : H unit :=
  match message_type frame with
  | HolderFrame.Capability => handle_capability fd minor frame
  | _ =>
      s ← get;
      c ← unwrap (connections s !! fd);
      if negb (minor =? protocol_minor c)
      then fail (InvalidArgument "holder control protocol minor changed")
      else
        match message_type frame with
        | HolderFrame.Inventory => handle_inventory fd frame
        | HolderFrame.Create => handle_create fd minor frame
        | HolderFrame.Close => handle_close fd frame
        | HolderFrame.Kill => handle_kill fd frame
        | HolderFrame.GetExitContext => handle_exit_context fd minor frame
        | HolderFrame.RetireExited => handle_retire fd frame
        | HolderFrame.ShutdownAll =>
            match payload frame with
            | [] => handle_shutdown fd frame
            | _ => fail (InvalidArgument "invalid holder control request")
            end
        | _ => fail (InvalidArgument "invalid holder control request")
        end
  end.

(** ** Data requests *)

Definition require_writer (fd : N) : H N :=
  s ← get;
  c ← unwrap (connections s !! fd);
  id ← lift (ok_or (attached_session c) (InvalidArgument "holder data client not attached"));
  if negb (bool_decide (writers s !! id = Some fd)) ||
     negb (HolderRuntime.is_running (runtime s) id)
  then fail (InvalidArgument "holder data client is not writer")
  else mret id.

(** [replay.chunks(MAX_HOLDER_IO_FRAME)], with fuel for each byte. *)
Fixpoint io_chunks (fuel : nat) (data : bytes) : list bytes :=
  match fuel, data with
  | O, _ | _, [] => []
  | S fuel', _ => takeN MAX_HOLDER_IO_FRAME data :: io_chunks fuel' (dropN MAX_HOLDER_IO_FRAME data)
  end.

Definition operation (session_id : N) (status : OperationStatus) (message : String.string)
  : OperationResponse := Operation.mkResponse session_id status (lit message).

Definition attach (fd : N) (frame : HolderFrame) : H unit :=
  request ← lift (protocol "invalid holder Attach: {error:?}"
    (Session.decode_attach_request (payload frame)));
  let id := Session.attach_session_id request in
  let writing := match Session.mode request with
                 | Session.ReadWrite => true | Session.ReadOnly => false end in
  s ← get;
  match HolderRuntime.replay (runtime s) id 0 with
  | None => operation_response fd frame HolderFrame.AttachResp (operation id NotFound "not found")
  | Some _ =>
      _ ← modify (detach_connection fd);
      _ ← (if (writing : bool) then
             s ← get;
             _ ← modify (set_writers <[id := fd]>);
             match writers s !! id with
             | Some previous => queue_or_disconnect previous
                 (writer_frame HolderFrame.WriteRevoked id (HolderRuntime.generation (runtime s)))
             | None => mret tt
             end
           else mret tt);
      s ← get;
      _ ← unwrap (connections s !! fd);
      _ ← modify (update fd (fun c => Connection.set_attached c (Some id)));
      _ ← operation_response fd frame HolderFrame.AttachResp (operation id StatusOk "");
      s ← get;
      data ← unwrap (HolderRuntime.replay (runtime s) id (Session.replay_bytes request));
      _ ← each (fun chunk => queue_frame fd (frame_for HolderFrame.Output 0
                 (HolderRuntime.generation (runtime s)) chunk))
            (io_chunks (length data) data);
      if (writing : bool)
      then queue_frame fd (writer_frame HolderFrame.WriteGranted id
             (HolderRuntime.generation (runtime s)))
      else mret tt
  end.

Definition handle_input (fd : N) (frame : HolderFrame) : H unit :=
  id ← require_writer fd;
  pending ← on_runtime (HolderRuntime.queue_input (pty_write os) (now_ms os) id (payload frame));
  s ← get;
  match HolderRuntime.pty_fd (runtime s) id with
  | Some pty_fd => reactor_modify pty_fd pending
  | None => mret tt
  end.

Definition handle_resize (fd : N) (frame : HolderFrame) : H unit :=
  id ← require_writer fd;
  request ← lift (protocol "invalid holder Resize: {error:?}"
    (Operation.decode_resize_request (payload frame)));
  on_runtime (HolderRuntime.resize (winsize_set os) id).

Definition handle_signal_request (fd : N) (frame : HolderFrame) : H unit :=
  id ← require_writer fd;
  sig ← lift (protocol "invalid holder Signal: {error:?}"
    (Operation.decode_signal_request (payload frame)));
  on_runtime (HolderRuntime.signal (foreground os) (kill_group os) id sig).

Definition handle_data (fd : N) (frame : HolderFrame) : H unit :=
  match message_type frame with
  | HolderFrame.Attach => attach fd frame
  | HolderFrame.Detach =>
      match payload frame with
      | [] => modify (detach_connection fd)
      | _ => fail (InvalidArgument "invalid holder data request")
      end
  | HolderFrame.Input => handle_input fd frame
  | HolderFrame.Resize => handle_resize fd frame
  | HolderFrame.Signal => handle_signal_request fd frame
  | _ => fail (InvalidArgument "invalid holder data request")
  end.

Definition process_frame (fd minor : N) (frame : HolderFrame) : H unit :=
  s ← get;
  c ← unwrap (connections s !! fd);
  match role c with
  | Pending => handle_hello fd minor frame
  | Control => handle_control fd minor frame
  | Data =>
      if negb (minor =? protocol_minor c)
      then fail (InvalidArgument "holder data protocol minor changed")
      else handle_data fd frame
  end.

(** ** Events: what a terminal, a signal or a peer brings *)

Definition attached_fds (session_id : N) (s : Server) : list N :=
  filter (fun fd => (connections s !! fd ≫= attached_session) = Some session_id)
    (order os (connections s)).

Definition log_degraded_frame (session_id dropped generation : N) : HolderFrame :=
  frame_for HolderFrame.LogDegraded 0 generation
    (Operation.encode_log_degraded (Operation.mkLogDegraded session_id dropped)).

Definition publish_output (batch : HolderRuntime.OutputBatch) : H unit :=
  s ← get;
  let targets := attached_fds (HolderRuntime.batch_session_id batch) s in
  _ ← each (fun chunk => each (fun fd => queue_or_disconnect fd
               (frame_for HolderFrame.Output 0 (HolderRuntime.generation (runtime s)) chunk)) targets)
        (HolderRuntime.chunks batch);
  if 0 <? HolderRuntime.log_dropped batch
  then send_control (log_degraded_frame (HolderRuntime.batch_session_id batch)
         (HolderRuntime.log_dropped batch) (HolderRuntime.generation (runtime s)))
  else mret tt.

Definition drain_and_publish (fd : N) : H unit :=
  batch ← on_sessions (HolderRuntime.drain_output (pty_reads os fd) (now_ms os) fd);
  publish_output batch.

(** The body of the loop over the sessions that ended. *)
Definition report_exit (e : HolderRuntime.ExitedSession) : H unit :=
  let id := HolderRuntime.exited_session_id e in
  _ ← modify (set_reactor (Reactor.remove (HolderRuntime.exited_pty_fd e)));
  _ ← release_writer id;
  legacy ← lift (protocol "invalid holder SessionExited: {error:?}"
    (Operation.encode_session_exited_event (Operation.mkExitedV1 id
       (HolderRuntime.exited_code e) (HolderRuntime.exited_cwd e))));
  v2 ← lift (protocol "invalid holder SessionExited v2: {error:?}"
    (Operation.encode_session_exited_event_v2 (Operation.mkExited id
       (HolderRuntime.exited_code e) (HolderRuntime.exited_cwd e)
       (HolderRuntime.exited_environment e))));
  let event (minor generation : N) := frame_for HolderFrame.SessionExited 0 generation
    (if minor =? HOLDER_PROTOCOL_MINOR then v2 else legacy) in
  s ← get;
  _ ← each (fun target =>
         s ← get;
         c ← unwrap (connections s !! target);
         queue_or_disconnect target
           (event (protocol_minor c) (HolderRuntime.generation (runtime s))))
        (attached_fds id s);
  _ ← (if HolderRuntime.exited_closing e then modify (detach_session id) else mret tt);
  s ← get;
  match controller s with
  | Some c => queue_or_disconnect (ctl_fd c)
                (event (ctl_minor c) (HolderRuntime.generation (runtime s)))
  | None => mret tt
  end.

Definition report_failure (failure : N * N) : H unit :=
  _ ← modify (fun s => set_runtime (HolderRuntime.mark_log_failed failure.1 (runtime s)) s);
  s ← get;
  send_control (log_degraded_frame failure.1 failure.2 (HolderRuntime.generation (runtime s))).

Definition handle_log_failures : H unit :=
  s ← get;
  let '(failures, logs') := LogWorker.take_failures (logs s) in
  _ ← modify (fun s => set_sessions_and_logs (runtime s, logs') s);
  each report_failure failures.

Definition any (events mask : N) : bool := negb (N.land events mask =? 0).

Definition handle_pty (fd events : N) : H unit :=
  _ ← (if any events (N.lor EPOLLIN (N.lor EPOLLHUP EPOLLERR)) then drain_and_publish fd
       else mret tt);
  if any events EPOLLOUT then
    s ← get;
    id ← unwrap (HolderRuntime.session_for_pty (runtime s) fd);
    pending ← on_runtime (HolderRuntime.flush_input (pty_write os) id);
    reactor_modify fd pending
  else mret tt.

Definition flush_connection (fd : N) : H bool :=
  s ← get;
  c ← unwrap (connections s !! fd);
  out ← unwrap (Connection.flush (peer_write os) c);
  let '(r, c, sent) := out in
  _ ← modify (set_connections <[fd := c]>);
  lift r.

Definition accept_connection (peer : N * N * N) : H unit :=
  let '(fd, pid, uid) := peer in
  _ ← reactor_add fd;
  modify (set_connections <[fd := Connection.new pid uid]>).

Definition accept_connections : H unit :=
  s ← get;
  _ ← each accept_connection (accepted os s);
  lift (accept_end os).
End handlers.

(** ** The loop: each frame, and each terminal, gets its own answers *)

Section loop.
Context `{SnapshotJson} `{EnvelopeJson}.

Fixpoint each_with {A} (f : Os -> A -> H unit) (os : nat -> Os) (k : nat) (l : list A) : H unit :=
  match l with
  | [] => mret tt
  | x :: l' => _ ← f (os k) x; each_with f os (S k) l'
  end.

(** [Ok(true)]: the holder stops. *)
Definition handle_signal (os : nat -> Os) : H bool :=
  sig ← lift (signal (os O));
  if (sig =? SIGINT) || (sig =? SIGTERM) then mret true
  else if sig =? SIGCHLD then
    s ← get;
    _ ← each_with drain_and_publish os 0 (HolderRuntime.pty_fds (runtime s));
    exited ← on_runtime (HolderRuntime.reap_exited (reaping (os O)) (now_ms (os O)));
    _ ← each_with report_exit os 0 exited;
    mret false
  else mret false.

(** [false]: a frame was refused, and the connection is gone. *)
Fixpoint process_frames (os : nat -> Os) (k : nat) (fd : N) (frames : list (N * HolderFrame))
  : H bool :=
  match frames with
  | [] => mret true
  | (minor, frame) :: frames' =>
      processed ← attempt (process_frame (os k) fd minor frame);
      if is_ok processed then process_frames os (S k) fd frames'
      else _ ← modify (disconnect (os k) fd); mret false
  end.

Definition read_connection (os : Os) (fd : N) : H (list (N * HolderFrame) * bool) :=
  s ← get;
  c ← unwrap (connections s !! fd);
  out ← lift (Connection.read_frames (peer_reads os) c);
  let '(frames, closed, c) := out in
  _ ← modify (set_connections <[fd := c]>);
  mret (frames, closed).

Definition handle_connection (os : nat -> Os) (fd events : N) : H unit :=
  let gone : H unit := modify (disconnect (os O) fd) in
  let hung := any events (N.lor EPOLLERR (N.lor EPOLLHUP EPOLLRDHUP)) in
  received ← (if any events EPOLLIN then attempt (read_connection (os O) fd)
              else mret (Ok ([], false)));
  match received with
  | Err _ => gone
  | Ok (frames, peer_closed) =>
      alive ← process_frames os 0 fd frames;
      if negb alive then mret tt
      else if hung || peer_closed then gone
      else
        open ← (if any events EPOLLOUT then flush_connection (os O) fd else mret true);
        if negb open then gone
        else
          s ← get;
          match connections s !! fd with
          | Some c => reactor_modify (os O) fd (wants_write c)
          | None => mret tt
          end
  end.

Definition dispatch (fds : Fds) (os : nat -> Os) (event : N * N) : H bool :=
  s ← get;
  match Reactor.fd_for_token event.1 (reactor s) with
  | None => mret false
  | Some fd =>
      if fd =? listener_fd fds then mret false
      else if fd =? signal_fd fds then handle_signal os
      else if fd =? log_fd fds then _ ← handle_log_failures (os O); mret false
      else match HolderRuntime.session_for_pty (runtime s) fd with
      | Some _ => _ ← handle_pty (os O) fd event.2; mret false
      | None =>
          match connections s !! fd with
          | Some _ => _ ← handle_connection os fd event.2; mret false
          | None => mret false
          end
      end
  end.

Fixpoint dispatch_all (fds : Fds) (os : nat -> nat -> Os) (k : nat) (events : list (N * N))
  : H bool :=
  match events with
  | [] => mret false
  | event :: events' =>
      stop ← dispatch fds (os k) event;
      if (stop : bool) then mret true else dispatch_all fds os (S k) events'
  end.

(** The body of the loop of [run], for the events of one [epoll_wait]. *)
Definition round (fds : Fds) (os : nat -> nat -> Os) (events : list (N * N)) : H bool :=
  s ← get;
  let accept_ready := existsb (fun event =>
    bool_decide (Reactor.fd_for_token event.1 (reactor s) = Some (listener_fd fds))) events in
  stop ← dispatch_all fds os 0 events;
  if (stop : bool) then mret true
  else
    _ ← (if accept_ready then accept_connections (os (length events) O) else mret tt);
    s ← get;
    mret (match shutdown_fd s with
          | Some fd => negb (match connections s !! fd with
                             | Some c => wants_write c | None => false end)
          | None => false
          end).
End loop.
End HolderServer.
