(* ===== verification/HolderRoster.v ===== *)
(** * HolderRoster: who is connected to a holder, as an abstract specification.

    The promise of the connection handling of [server.rs] and
    [server_handlers.rs], without buffers, frames or descriptors' events: which
    descriptor has which role, which session it is attached to, which one holds
    the write seat of each session, and which one is the controller.  [rstep]
    is what may happen to it; [roster_ok] is kept by every step.  HolderSafety.v
    shows that each event the server handles is a sequence of these steps. *)
From S2P Require Import Prelude Effects HolderReactor HolderConnection HolderServer.
Import Connection(ConnectionRole, Pending, Control, Data, role, attached_session).
Import HolderServer(Server, connections, writers, controller, ctl_fd).
Local Open Scope N_scope.

Module Roster.

Record t : Type := mk {
  members : gmap N (ConnectionRole * option N);
  seats : gmap N N;
  chief : option N;
}.

Definition member_of (c : Connection.t) : ConnectionRole * option N := (role c, attached_session c).
Definition view (s : Server) : t :=
  mk (member_of <$> connections s) (writers s) (ctl_fd <$> controller s).

(** ** Steps *)

Definition join (fd : N) (r : t) : t := mk (<[fd := (Pending, None)]> (members r)) (seats r) (chief r).
Definition as_controller (fd : N) (r : t) : t :=
  mk (<[fd := (Control, None)]> (members r)) (seats r) (Some fd).
Definition as_data (fd : N) (r : t) : t := mk (<[fd := (Data, None)]> (members r)) (seats r) (chief r).

Definition unseat (fd : N) (m : gmap N N) : gmap N N := filter (fun x => x.2 <> fd) m.
Definition leave (fd : N) (r : t) : t := mk (delete fd (members r)) (unseat fd (seats r)) (chief r).

(** The controller leaves, and takes every data connection with it. *)
Definition dissolve (fd : N) (r : t) : t :=
  mk (filter (fun x => x.2.1 <> Data) (delete fd (members r))) ∅ None.

Definition detach (fd : N) (r : t) : t :=
  mk (alter (fun x => (x.1, None)) fd (members r)) (unseat fd (seats r)) (chief r).
Definition attach (fd id : N) (writing : bool) (r : t) : t :=
  let r := detach fd r in
  mk (<[fd := (Data, Some id)]> (members r))
    (if writing then <[id := fd]> (seats r) else seats r) (chief r).
Definition release (id : N) (r : t) : t := mk (members r) (delete id (seats r)) (chief r).
Definition close (id : N) (r : t) : t :=
  mk ((fun x => if bool_decide (x.2 = Some id) then (x.1, None) else x) <$> members r)
    (delete id (seats r)) (chief r).

Inductive rstep (r : t) : t -> Prop :=
| s_join fd : members r !! fd = None -> rstep r (join fd r)
| s_control fd : members r !! fd = Some (Pending, None) -> chief r = None ->
    rstep r (as_controller fd r)
| s_data fd : members r !! fd = Some (Pending, None) -> chief r <> None -> rstep r (as_data fd r)
| s_leave fd : chief r <> Some fd -> rstep r (leave fd r)
| s_dissolve fd : chief r = Some fd -> rstep r (dissolve fd r)
| s_detach fd : rstep r (detach fd r)
| s_attach fd id writing a : members r !! fd = Some (Data, a) -> rstep r (attach fd id writing r)
| s_release id : rstep r (release id r)
| s_close id : rstep r (close id r).

(** ** The invariant *)

Definition seats_ok (r : t) : Prop :=
  forall id fd, seats r !! id = Some fd -> exists k, members r !! fd = Some (k, Some id).

Record roster_ok (r : t) : Prop := {
  ro_attached : forall fd k id, members r !! fd = Some (k, Some id) -> k = Data;
  ro_seats : seats_ok r;
  ro_control : forall fd a, members r !! fd = Some (Control, a) -> chief r = Some fd;
  ro_chief : forall fd, chief r = Some fd -> members r !! fd = Some (Control, None);
  ro_data : forall fd a, members r !! fd = Some (Data, a) -> chief r <> None;
}.

Lemma unseat_lookup fd m id f : unseat fd m !! id = Some f <-> m !! id = Some f /\ f <> fd.
Proof. unfold unseat. by rewrite map_lookup_filter_Some. Qed.

(** Lookups in an updated map, as equations between lookups of the old one. *)
Ltac look := repeat match goal with
  | H : context [<[_ := _]> _ !! _] |- _ => rewrite lookup_insert in H
  | |- context [<[_ := _]> _ !! _] => rewrite lookup_insert
  | H : delete _ _ !! _ = Some _ |- _ => apply lookup_delete_Some in H as [? H]
  | |- context [delete _ _ !! _] => rewrite lookup_delete
  | H : alter _ _ _ !! _ = Some _ |- _ => apply lookup_alter_Some in H
  | |- context [alter _ _ _ !! _] => rewrite lookup_alter
  | H : (_ <$> _) !! _ = Some _ |- _ => apply lookup_fmap_Some in H as ([? ?] & ? & H)
  | |- context [(_ <$> _) !! _] => rewrite lookup_fmap
  | H : unseat _ _ !! _ = Some _ |- _ => apply unseat_lookup in H as [H ?]
  | H : ∅ !! _ = Some _ |- _ => by rewrite lookup_empty in H
  | H : filter _ _ !! _ = Some _ |- _ => apply map_lookup_filter_Some in H as [H ?]
  | |- filter _ _ !! _ = Some _ => apply map_lookup_filter_Some
  end.

Lemma empty_ok : roster_ok (mk ∅ ∅ None).
Proof. by split; cbn; intros *; rewrite ?lookup_empty. Qed.

Lemma rstep_ok r r' : roster_ok r -> rstep r r' -> roster_ok r'.
Proof.
  unfold seats_ok. intros [Ha Hs Hc Hf Hd] Hstep. unfold seats_ok in Hs.
  destruct Hstep; try match goal with w : bool |- _ => destruct w end;
    split; unfold seats_ok; cbn; intros;
    repeat (progress look || case_decide || case_bool_decide || destruct_or? || destruct_and?);
    repeat match goal with
    | H : seats r !! _ = Some _ |- _ => apply Hs in H as [? H]
    | H : members r !! _ = Some (Control, _) |- _ => apply Hc in H
    | H : exists _, _ |- _ => destruct H
    | H : _ /\ _ |- _ => destruct H
    | x : _ * _ |- _ => destruct x
    end; simplify_eq/=;
    repeat match goal with
    | H : chief r = Some _ |- _ => pose proof (Hf _ H); revert H
    end; intros;
    repeat match goal with
    | H : members r !! ?fd = Some _ |- context [members r !! ?fd] => rewrite H
    end; cbn; repeat case_bool_decide; simplify_eq/=; eauto.
Qed.

Definition rsteps : t -> t -> Prop := rtc rstep.

Lemma rsteps_ok r r' : roster_ok r -> rsteps r r' -> roster_ok r'.
Proof. intros Hr. induction 1; eauto using rstep_ok. Qed.

(** ** The tables of the server *)

Lemma view_members s fd : members (view s) !! fd = member_of <$> connections s !! fd.
Proof. cbn. by rewrite lookup_fmap. Qed.

(** Detaching or dropping a connection frees every seat it holds. *)
Lemma unseat_none fd m : (forall id, m !! id <> Some fd) -> unseat fd m = m.
Proof.
  intros Hn. apply map_eq. intros id. apply option_eq. intros f. rewrite unseat_lookup.
  split; [by intros [? _]|]. intros Hf. split; [done|]. intros ->. by destruct (Hn id).
Qed.

Lemma unseat_one fd id m : (forall id', m !! id' = Some fd -> id' = id) ->
  unseat fd m = if bool_decide (m !! id = Some fd) then delete id m else m.
Proof.
  intros Hu. case_bool_decide as Hd; [|apply unseat_none; naive_solver].
  apply map_eq. intros i. apply option_eq. intros f. rewrite unseat_lookup, lookup_delete_Some.
  split; [intros [Hi Hf]; split; [congruence|done]|].
  intros [Hi Hf]. split; [done|]. intros ->. by destruct Hi; rewrite (Hu i).
Qed.

Lemma leave_seats fd r : seats_ok r -> seats_ok (leave fd r).
Proof.
  intros Hs id f. cbn. rewrite unseat_lookup. intros [Hf Hne]. rewrite lookup_delete_ne by done.
  by apply Hs.
Qed.

(** The seats of one descriptor. *)
Definition seat_of (r : t) (fd : N) : Prop :=
  forall id, seats r !! id = Some fd -> exists k, members r !! fd = Some (k, Some id).

Lemma seats_of fd r : seats_ok r -> seat_of r fd.
Proof. intros Hs id. apply Hs. Qed.

Lemma detach_view fd s : seat_of (view s) fd ->
  view (HolderServer.detach_connection fd s) = detach fd (view s).
Proof.
  intros Hr. unfold HolderServer.detach_connection.
  assert (Hseat : forall id, writers s !! id = Some fd ->
    exists c, connections s !! fd = Some c /\ attached_session c = Some id).
  { intros id Hid. destruct (Hr id Hid) as [k Hk]. rewrite view_members in Hk.
    destruct (connections s !! fd) as [c|]; [|done]. injection Hk as _ Hk. by exists c. }
  assert (Hm : alter (fun x => (x.1, None)) fd (member_of <$> connections s) =
    member_of <$> alter (fun c => Connection.set_attached c None) fd (connections s)).
  { apply map_eq. intros i. rewrite lookup_fmap, !lookup_alter, lookup_fmap.
    destruct (decide _); [by destruct (connections s !! fd)|by rewrite lookup_fmap]. }
  destruct (connections s !! fd) as [c|] eqn:Hc.
  - unfold detach. rewrite (Hm : alter _ fd (members (view s)) = _).
    change (seats (view s)) with (writers s). change (chief (view s)) with (ctl_fd <$> controller s).
    destruct (attached_session c) as [id|] eqn:Ha.
    + rewrite (unseat_one fd id).
      2:{ intros i Hi. destruct (Hseat i Hi) as (c' & [= <-] & Hc'). congruence. }
      by case_bool_decide.
    + rewrite unseat_none; [done|]. intros i Hi. destruct (Hseat i Hi) as (c' & [= <-] & Hc'). congruence.
  - unfold detach. rewrite (Hm : alter _ fd (members (view s)) = _).
    change (seats (view s)) with (writers s). change (chief (view s)) with (ctl_fd <$> controller s).
    rewrite unseat_none by (intros i Hi; by destruct (Hseat i Hi) as (? & ? & _)).
    unfold view. f_equal. f_equal. apply map_eq. intros i. rewrite lookup_alter.
    case_decide; [subst|done]. by rewrite Hc.
Qed.

Lemma leave_view fd s : seat_of (view s) fd ->
  view (HolderServer.drop_connection fd s) = leave fd (view s).
Proof.
  intros Hr. unfold HolderServer.drop_connection.
  pose proof (detach_view fd (HolderServer.set_reactor (Reactor.remove fd) s) Hr) as Hd.
  set (s' := HolderServer.detach_connection _ _) in *. unfold leave.
  change (view s) with (view (HolderServer.set_reactor (Reactor.remove fd) s)).
  assert (Hm : delete fd (members (view s')) = delete fd (members (view s))).
  { rewrite Hd. cbn. apply map_eq. intros i. rewrite !lookup_delete, lookup_alter.
    by repeat case_decide. }
  apply (f_equal seats) in Hd as Hs. apply (f_equal chief) in Hd as Hc. cbn in *.
  rewrite <- Hm, <- Hs, <- Hc. unfold view. cbn. f_equal. apply fmap_delete.
Qed.

Lemma fold_leave l r :
  fold_left (fun r fd => leave fd r) l r =
  mk (filter (fun x => x.1 ∉ l) (members r)) (filter (fun x => x.2 ∉ l) (seats r)) (chief r).
Proof.
  revert r; induction l as [|fd l IH]; intros r; cbn [fold_left].
  - rewrite !map_filter_id; [by destruct r|..]; intros; apply not_elem_of_nil.
  - rewrite IH. cbn. f_equal; apply map_eq; intros i; apply option_eq; intros x;
      rewrite !map_lookup_filter_Some, ?unseat_lookup, ?lookup_delete_Some, not_elem_of_cons; naive_solver.
Qed.
End Roster.
