(* ===== verification/HolderSafety.v ===== *)
(** * HolderSafety: no event stops a holder, and the roster is respected.

    The invariant of a [HolderServer], one specification per handler, and the
    refinement: whatever its clients send and whatever the kernel answers, an
    event neither panics nor breaks the invariant, and changes who is connected
    only by steps of HolderRoster.v.  Section variable [C] is the assumption
    that the kernel's own operations do not fail ([calm]); an event may fail
    only when it does not hold. *)
From S2P Require Import Prelude Bytes Utf8 RingBuffer HolderWire HolderFrame Environment.
From S2P Require Import HolderMessages HolderOperation HolderSession ShellState Effects.
From S2P Require Import ByteQueue HolderReactor HolderConnection HolderRuntime HolderServer.
From S2P Require Import HolderRoster.
From Stdlib Require Import Lia.
Import String.StringSyntax.
Import Environment(SnapshotJson, SnapshotJsonLaws, EnvironmentSnapshot).
Import ShellState(EnvelopeJson, EnvelopeJsonLaws).
Import HolderFrame(HolderFrame, message_type, request_id, payload).
Import Connection(ConnectionRole, Pending, Control, Data, role, attached_session, protocol_minor,
  output).
Import HolderServer Roster.
Local Open Scope N_scope.

Module HolderSafety.

(** ** Connections *)

Definition output_ok (c : Connection.t) : Prop :=
  ByteQueue.wf (output c) /\ ByteQueue.total (output c) <= Connection.MAX_PENDING_OUTPUT.

Definition sent_to (c : Connection.t) : bytes := ByteQueue.pending (output c).

Lemma new_output_ok pid uid : output_ok (Connection.new pid uid).
Proof. split; [apply ByteQueue.empty_wf|done]. Qed.

(** A queued frame is appended to what the peer will read. *)
Lemma queue_spec c frame c' : output_ok c -> Connection.queue c frame = Ok c' ->
  output_ok c' /\ member_of c' = member_of c /\ protocol_minor c' = protocol_minor c /\
  exists bs, HolderFrame.encode_frame_with_minor frame (protocol_minor c) = Ok bs /\
    sent_to c' = sent_to c ++ bs.
Proof.
  intros [Hq Ht]. unfold Connection.queue.
  destruct (HolderFrame.encode_frame_with_minor frame _) as [bs|] eqn:He; [|done]. cbn.
  assert (Hbs : bs <> []).
  { intros ->. apply HolderFrame.encode_frame_size in He. rewrite lenN_nil in He.
    unfold HolderFrame.HOLDER_HEADER_SIZE in He. lia. }
  destruct (ByteQueue.push _ _ _) as [q|[]] eqn:Hp; [|done..]. intros [= <-].
  destruct (ByteQueue.push_wf _ _ _ _ Hq Hbs Hp) as (Hq' & Hpend & Ht').
  split_and!; [done..|]. by exists bs.
Qed.

Lemma connection_flush_spec write c : output_ok c ->
  exists r c' sent, Connection.flush write c = Some (r, c', sent) /\ output_ok c' /\
    member_of c' = member_of c /\ sent_to c = sent ++ sent_to c' /\
    ((forall k, write k <> ByteQueue.WriteFailed) -> is_ok r = true).
Proof.
  intros [Hq Ht]. unfold Connection.flush.
  destruct (ByteQueue.flush_spec (ByteQueue.rounds (output c)) write 0 (output c) [] Hq)
    as (q & sent & why & Hf & Hq' & Hp & Ht' & _); [unfold ByteQueue.rounds; lia|].
  rewrite Hf. cbn. eexists _, _, _. split; [reflexivity|]. split_and!; [split; [done|cbn; lia]|done..|].
  intros Hw. destruct why; try done. apply ByteQueue.flush_failed in Hf as [k Hk]. by destruct (Hw k).
Qed.

(** ** The invariant *)

Section safety.
Context `{SnapshotJsonLaws} `{EnvelopeJsonLaws}.
Context (C : Prop).

Abbreviation ptys s := (HolderRuntime.pty_to_session (runtime s)).

Record inv (s : Server) : Prop := {
  i_runtime : HolderRuntime.wf (runtime s);
  i_outputs : map_Forall (fun _ c => output_ok c) (connections s);
  i_roster : roster_ok (view s);
  i_disjoint : forall fd, is_Some (connections s !! fd) -> ptys s !! fd = None;
  i_reactor : C -> forall fd, is_Some (connections s !! fd) \/ is_Some (ptys s !! fd) ->
    is_Some (Reactor.tokens (reactor s) !! fd);
}.

(** What the kernel guarantees: the order of a map is an order of its keys, a
    new descriptor is not one that is open, times are 64-bit, process ids and
    exit codes 32-bit. *)
Record kernel_ok (os : Os) : Prop := {
  k_now : is_u64 (now_ms os);
  k_order : forall m, NoDup (order os m) /\ forall fd, fd ∈ order os m <-> is_Some (m !! fd);
  k_open : forall s r p, open_session os s r = Ok p ->
    is_u32 (HolderRuntime.child_pid p) /\ HolderRuntime.child_pid p <> 0 /\
    ptys s !! HolderRuntime.master_fd p = None /\ connections s !! HolderRuntime.master_fd p = None;
  k_accept : forall s, NoDup (map (fun x => x.1.1) (accepted os s)) /\
    forall x, x ∈ accepted os s -> connections s !! x.1.1 = None /\ ptys s !! x.1.1 = None;
  k_exit : forall id code, HolderRuntime.poll_exit (reaping os) id = Ok (Some code) -> is_i32 code;
}.

(** The operations on the kernel's own objects that do not fail. *)
Record calm (os : Os) : Prop := {
  c_epoll : forall fd events, epoll_ctl os fd events = true;
  c_pty_reads : forall fd, HolderRuntime.read_last (pty_reads os fd) = HolderRuntime.ReadStop;
  c_pty_write : forall k, pty_write os k <> ByteQueue.WriteFailed;
  c_peer_write : forall k, peer_write os k <> ByteQueue.WriteFailed;
  c_wait : forall id, is_ok (HolderRuntime.poll_exit (reaping os) id) = true;
  c_signal : is_ok (signal os) = true;
  c_accept : accept_end os = Ok tt;
}.

Definition good (os : Os) : Prop := kernel_ok os /\ (C -> calm os).

(** What an event may do. *)
Definition K (s s' : Server) : Prop := inv s' /\ rsteps (view s) (view s').

Lemma K_refl s : inv s -> K s s.
Proof. intros Hs. split; [done|constructor]. Qed.

Lemma K_trans a b c : K a b -> K b c -> K a c.
Proof. intros [_ N1] [Hc N2]. split; [done|]. by etransitivity. Qed.

Lemma K_step s s' : inv s' -> rstep (view s) (view s') -> K s s'.
Proof. intros Hs Hr. split; [done|]. by apply rtc_once. Qed.

Lemma K_same s s' : inv s' -> view s' = view s -> K s s'.
Proof. intros Hs Hv. split; [done|]. rewrite Hv. constructor. Qed.

(** Everything but the connections, the writers, the controller and the
    reactor. *)
Definition rest (s : Server) : HolderRuntime.Runtime * LogWorker.t * bytes * option N :=
  (runtime s, logs s, instance_id s, shutdown_fd s).

Lemma member_lookup s fd m : members (view s) !! fd = Some m <->
  exists c, connections s !! fd = Some c /\ member_of c = m.
Proof. rewrite view_members, fmap_Some. naive_solver. Qed.

Lemma view_update fd c c' s : connections s !! fd = Some c -> member_of c' = member_of c ->
  view (set_connections <[fd := c']> s) = view s.
Proof.
  intros Hc Hm. unfold view. cbn. f_equal. rewrite fmap_insert, Hm. apply insert_id.
  by rewrite lookup_fmap, Hc.
Qed.

(** *** Dropping connections *)

(** The invariant without the roster. *)
Definition core (s : Server) : Prop :=
  HolderRuntime.wf (runtime s) /\ map_Forall (fun _ c => output_ok c) (connections s) /\
  (forall fd, is_Some (connections s !! fd) -> ptys s !! fd = None) /\
  (C -> forall fd, is_Some (connections s !! fd) \/ is_Some (ptys s !! fd) ->
    is_Some (Reactor.tokens (reactor s) !! fd)).

Lemma inv_core s : inv s <-> core s /\ roster_ok (view s).
Proof. split; [intros []; by split|]. intros [(? & ? & ? & ?) ?]. by split. Qed.

Lemma core_same s s' : core s -> runtime s' = runtime s -> reactor s' = reactor s ->
  (forall fd c, connections s' !! fd = Some c -> output_ok c /\ is_Some (connections s !! fd)) -> core s'.
Proof.
  intros (Hr & Ho & Hd & Ht) Hrt Hre Hc. unfold core. rewrite Hrt, Hre. split_and!; [done| | |].
  - intros fd c Hf. by apply (Hc fd).
  - intros fd [c Hf]. by apply Hd, (Hc fd c).
  - intros HC fd Hf. apply Ht; [done|]. destruct Hf as [[c Hf]|Hf]; [left|by right]. by apply (Hc fd c).
Qed.

(** Replacing a connection. *)
Lemma core_insert fd c' s : core s -> is_Some (connections s !! fd) -> output_ok c' ->
  core (set_connections <[fd := c']> s).
Proof.
  intros Hs Hc Hok. apply (core_same s); [done..|]. cbn. intros f x. rewrite lookup_insert.
  case_decide as E; [intros [= <-]; by rewrite <- E|]. intros Hx. split; [|done].
  by apply Hs in Hx.
Qed.

Lemma core_update fd f s : core s -> (forall c, output (f c) = output c) -> core (update fd f s).
Proof.
  intros Hs Hf. apply (core_same s); [done..|]. cbn. intros g x. rewrite lookup_alter.
  destruct Hs as (_ & Ho & _). case_decide as E; [subst|intros Hx; split; [by apply (Ho g)|done]].
  destruct (connections s !! g) as [c|] eqn:Hc; [|done]. intros [= <-]. split; [|done].
  unfold output_ok. rewrite Hf. by apply (Ho g).
Qed.

Lemma update_view fd f c s : connections s !! fd = Some c ->
  view (update fd f s) = mk (<[fd := member_of (f c)]> (members (view s))) (seats (view s)) (chief (view s)).
Proof.
  intros Hc. unfold view. cbn. f_equal. apply map_eq. intros i.
  rewrite lookup_insert, !lookup_fmap, lookup_alter. case_decide; [subst|done]. by rewrite Hc.
Qed.

Lemma core_detach fd s : core s -> core (detach_connection fd s).
Proof.
  intros Hs. pose proof (core_update fd (fun c => Connection.set_attached c None) s Hs) as Hu.
  unfold detach_connection. destruct (connections s !! fd); [|done].
  destruct (attached_session _); [case_bool_decide|]; by apply Hu.
Qed.

Lemma drop_lookup fd s f :
  connections (drop_connection fd s) !! f = if decide (f = fd) then None else connections s !! f.
Proof.
  unfold drop_connection, detach_connection. cbn. rewrite lookup_delete.
  destruct (connections s !! fd) as [c|] eqn:Hc; [|by repeat case_decide].
  destruct (attached_session c); [case_bool_decide|]; cbn;
    rewrite lookup_alter; repeat case_decide; congruence.
Qed.

Lemma drop_rest fd s : rest (drop_connection fd s) = rest s /\
  controller (drop_connection fd s) = controller s /\
  reactor (drop_connection fd s) = Reactor.remove fd (reactor s).
Proof.
  unfold drop_connection, detach_connection. cbn.
  destruct (connections s !! fd); [|done]. destruct (attached_session _); [|done].
  by case_bool_decide.
Qed.

Lemma rest_runtime s s' : rest s' = rest s -> runtime s' = runtime s.
Proof. by intros [=]. Qed.

Lemma drop_core fd s : core s -> ptys s !! fd = None -> core (drop_connection fd s).
Proof.
  intros (Hr & Ho & Hd & Ht) Hp. destruct (drop_rest fd s) as (Hrt%rest_runtime & _ & Hre).
  unfold core. rewrite Hrt, Hre. split_and!; [done| | |].
  - intros f c. rewrite drop_lookup. case_decide; [done|]. apply Ho.
  - intros f. rewrite drop_lookup. case_decide; [by intros []|]. apply Hd.
  - intros HC f Hf. cbn. assert (f <> fd) as Hne.
    { intros ->. destruct Hf as [Hf|Hf]; [|rewrite Hp in Hf; by destruct Hf].
      rewrite drop_lookup, decide_True in Hf by done. by destruct Hf. }
    rewrite lookup_delete_ne by done. apply Ht; [done|].
    destruct Hf as [Hf|Hf]; [left|by right]. rewrite drop_lookup, decide_False in Hf; done.
Qed.

Section step.
Context (os : Os) (Hos : good os).

Lemma fold_drop l s : core s -> seats_ok (view s) -> (forall fd, fd ∈ l -> ptys s !! fd = None) ->
  let s' := fold_left (fun s fd => drop_connection fd s) l s in
  core s' /\ rest s' = rest s /\ controller s' = controller s /\
  view s' = fold_left (fun r fd => leave fd r) l (view s).
Proof.
  revert s; induction l as [|fd l IH]; intros s Hc Hs Hl; [done|]. cbn [fold_left].
  destruct (drop_rest fd s) as (Hr & Hk & _). pose proof (leave_view fd s (seats_of fd _ Hs)) as Hv.
  destruct (IH (drop_connection fd s)) as (IC & IR & IK & IV).
  - apply drop_core; [done|]. apply Hl. by left.
  - rewrite Hv. by apply leave_seats.
  - intros f Hf. rewrite (rest_runtime _ _ Hr). apply Hl. by right.
  - split_and!; [done|congruence|congruence|]. by rewrite <- Hv.
Qed.

(** Without a controller, disconnecting drops one connection, whatever the
    depth. *)
Lemma disconnect_single depth fd s : is_controller fd (drop_connection fd s) = false ->
  disconnect_at os (S depth) fd s = drop_connection fd s.
Proof. intros Hc. cbn. by rewrite Hc. Qed.

Lemma disconnect_each depth l s : controller s = None ->
  fold_left (fun s fd => disconnect_at os (S depth) fd s) l s =
  fold_left (fun s fd => drop_connection fd s) l s.
Proof.
  revert s; induction l as [|fd l IH]; intros s Hs; [done|]. cbn [fold_left].
  destruct (drop_rest fd s) as (_ & Hk & _).
  rewrite disconnect_single by (unfold is_controller; by rewrite Hk, Hs).
  apply IH. by rewrite Hk.
Qed.

Lemma disconnect_eq depth fd s : disconnect_at os (S (S depth)) fd s =
  if is_controller fd (drop_connection fd s) then
    let s' := set_controller None (drop_connection fd s) in
    fold_left (fun s fd => drop_connection fd s) (data_fds os s') s'
  else drop_connection fd s.
Proof.
  rewrite <- (disconnect_each depth) by done. reflexivity.
Qed.

(** The recursion of [disconnect] is two calls deep. *)
Lemma disconnect_depth depth fd s : disconnect_at os (S (S depth)) fd s = disconnect os fd s.
Proof. unfold disconnect. by rewrite !disconnect_eq. Qed.

Lemma controller_view fd s :
  is_controller fd (drop_connection fd s) = bool_decide (chief (view s) = Some fd).
Proof.
  destruct (drop_rest fd s) as (_ & Hk & _). unfold is_controller. rewrite Hk. cbn.
  destruct (controller s) as [c|]; [|done]. cbn.
  case_bool_decide as E; [injection E as ->; apply N.eqb_refl|].
  apply N.eqb_neq. congruence.
Qed.

Lemma data_fds_spec s fd : fd ∈ data_fds os s <-> exists a, members (view s) !! fd = Some (Data, a).
Proof.
  unfold data_fds. rewrite list_elem_of_filter. destruct Hos as [[_ Hord _ _ _] _].
  rewrite (proj2 (Hord _)). setoid_rewrite member_lookup. unfold member_of. split.
  - intros [Hr [c Hc]]. rewrite Hc in Hr. injection Hr as Hr. exists (attached_session c), c.
    by rewrite Hr.
  - intros (a & c & Hc & [= Hr _]). rewrite Hc. cbn. rewrite Hr. by eauto.
Qed.

Lemma disconnect_spec fd s : inv s -> ptys s !! fd = None ->
  inv (disconnect os fd s) /\ rest (disconnect os fd s) = rest s /\
  view (disconnect os fd s) =
    (if bool_decide (chief (view s) = Some fd) then dissolve fd (view s) else leave fd (view s)).
Proof.
  intros [Hc Hv]%inv_core Hp. destruct (drop_rest fd s) as (Hr & Hk & _).
  pose proof (leave_view fd s (seats_of fd _ (ro_seats _ Hv))) as Hl. pose proof (drop_core fd s Hc Hp) as Hc'.
  unfold disconnect. rewrite disconnect_eq, controller_view. cbv zeta. case_bool_decide as E.
  2:{ split_and!; [|done|done]. apply inv_core. split; [done|]. rewrite Hl.
      eapply rstep_ok; [exact Hv|]. by constructor. }
  set (s1 := set_controller None (drop_connection fd s)).
  assert (Hv1 : view s1 = mk (members (leave fd (view s))) (seats (leave fd (view s))) None)
    by (by rewrite <- Hl).
  destruct (fold_drop (data_fds os s1) s1) as (IC & IR & IK & IV); [exact Hc'| | |].
  { rewrite Hv1. exact (leave_seats fd _ (ro_seats _ Hv)). }
  { intros f Hf%data_fds_spec. destruct Hf as (a & (c & Hf & _)%member_lookup).
    destruct Hc' as (_ & _ & Hd & _). apply Hd. by exists c. }
  set (s' := fold_left _ _ s1) in *.
  assert (Hvs : view s' = dissolve fd (view s)).
  { rewrite IV, fold_leave, Hv1. unfold dissolve. cbn [members seats chief leave]. f_equal.
    - apply map_filter_ext. intros f x Hx. rewrite data_fds_spec, Hv1.
      split; [intros Hn Hx2; apply Hn; exists x.2; by destruct x; cbn in *; subst|].
      intros Hn (a & Ha). change (delete fd (members (view s)) !! f = Some (Data, a)) in Ha. rewrite Hx in Ha. by injection Ha as ->.
    - apply map_eq. intros id. rewrite lookup_empty. apply eq_None_not_Some. intros [f Hf].
      apply map_lookup_filter_Some in Hf as [Hf Hn]. cbn in Hn. apply Hn, data_fds_spec.
      rewrite Hv1. destruct (leave_seats fd _ (ro_seats _ Hv) id f Hf) as [k Hk'].
      exists (Some id). cbn [members leave] in *. rewrite Hk'. apply lookup_delete_Some in Hk' as [_ Hk'].
      by rewrite (ro_attached _ Hv _ _ _ Hk'). }
  split_and!; [|by rewrite IR|done]. apply inv_core. split; [done|]. rewrite Hvs.
  eapply rstep_ok; [exact Hv|]. by constructor.
Qed.

(** *** Queueing frames *)

(** Only the buffers of connections change. *)
Definition quiet (s s' : Server) : Prop :=
  view s' = view s /\ rest s' = rest s /\ controller s' = controller s.

Lemma quiet_refl s : quiet s s.
Proof. done. Qed.
Lemma quiet_trans a b c : quiet a b -> quiet b c -> quiet a c.
Proof. intros (? & ? & ?) (? & ? & ?). split_and!; congruence. Qed.

(** The frame is the last thing the peer of [fd] will read. *)
Definition delivered (fd : N) (frame : HolderFrame) (s s' : Server) : Prop :=
  exists c c' bs, connections s !! fd = Some c /\ connections s' !! fd = Some c' /\
    protocol_minor c' = protocol_minor c /\
    HolderFrame.encode_frame_with_minor frame (protocol_minor c) = Ok bs /\
    sent_to c' = sent_to c ++ bs.

Lemma queue_frame_core fd frame s : core s ->
  runs (queue_frame os fd frame) s (fun r s' => core s' /\ quiet s s' /\
    (forall f, f <> fd -> connections s' !! f = connections s !! f) /\
    (is_ok r = true -> delivered fd frame s s')).
Proof.
  intros Hs. unfold queue_frame. run.
  destruct (connections s !! fd) as [c|] eqn:Hc; cbn [ok_or]; run; [|by split_and!].
  destruct (Connection.queue c frame) as [c'|] eqn:Hq; run; [|by split_and!].
  assert (Hoc : output_ok c) by (destruct Hs as (_ & Ho & _); by apply (Ho fd)).
  destruct (queue_spec c frame c' Hoc Hq) as (Hok & Hm & Hp & bs & He & Hb).
  unfold reactor_modify. run. split_and!.
  - apply core_insert; [done|by rewrite Hc|done].
  - split_and!; [by eapply view_update|done..].
  - intros f Hf. cbn. by rewrite lookup_insert_ne.
  - intros _. exists c, c', bs. cbn. by rewrite lookup_insert_eq.
Qed.

Lemma queue_frame_spec fd frame s : inv s ->
  runs (queue_frame os fd frame) s (fun r s' => inv s' /\ quiet s s' /\
    (forall f, f <> fd -> connections s' !! f = connections s !! f) /\
    (is_ok r = true -> delivered fd frame s s')).
Proof.
  intros [Hc Hv]%inv_core. eapply runs_mono; [by apply queue_frame_core|]. cbn beta.
  intros r s' (Hc' & Hq & Hr). split_and!; [|done|apply Hr..]. apply inv_core.
  destruct Hq as (-> & _). done.
Qed.

(** A frame for a connection that is not the controller: it is delivered, or
    the connection is dropped. *)
Lemma queue_or_drop fd frame s : core s -> ptys s !! fd = None -> seat_of (view s) fd ->
  chief (view s) <> Some fd ->
  runs (queue_or_disconnect os fd frame) s (fun r s' => r = Ok tt /\ core s' /\ rest s' = rest s /\
    controller s' = controller s /\
    (forall f, f <> fd -> connections s' !! f = connections s !! f) /\
    ((view s' = view s /\ delivered fd frame s s') \/ view s' = leave fd (view s))).
Proof.
  intros Hs Hp Hseat Hne. unfold queue_or_disconnect. run.
  eapply runs_mono; [by apply queue_frame_core|]. cbn beta.
  intros [u|e] s1 (Hi & (Hv & Hr & Hk) & Hf & Hd); run; cbn [is_ok]; run.
  - split_and!; auto.
  - unfold disconnect. rewrite disconnect_eq, controller_view, Hv, bool_decide_eq_false_2 by done.
    destruct (drop_rest fd s1) as (Hr' & Hk' & _). split_and!; [done| |congruence|congruence| |].
    + apply drop_core; [done|]. by rewrite (rest_runtime _ _ Hr).
    + intros f Hfd. rewrite drop_lookup, decide_False by done. by apply Hf.
    + right. rewrite leave_view by (by rewrite Hv). by rewrite Hv.
Qed.

Lemma queue_or_disconnect_spec fd frame s : inv s -> ptys s !! fd = None ->
  runs (queue_or_disconnect os fd frame) s (fun r s' => r = Ok tt /\ K s s' /\ rest s' = rest s /\
    ((quiet s s' /\ delivered fd frame s s' /\
      (forall f, f <> fd -> connections s' !! f = connections s !! f)) \/
     (view s' = (if bool_decide (chief (view s) = Some fd)
                 then dissolve fd (view s) else leave fd (view s))))).
Proof.
  intros Hs Hp. unfold queue_or_disconnect. run.
  eapply runs_mono; [by apply queue_frame_spec|]. cbn beta.
  intros [u|e] s1 (Hi & Hq & Hf & Hd); run; cbn [is_ok]; run.
  - split_and!; [done| |apply Hq|]; [by apply K_same; [|apply Hq]|]. left. split_and!; auto.
  - destruct Hq as (Hv & Hr & _).
    destruct (disconnect_spec fd s1 Hi) as (Hi' & Hr' & Hv').
    { by rewrite (rest_runtime _ _ Hr). }
    rewrite Hv in Hv'. split_and!; [done| |congruence|by right].
    apply K_step; [done|]. rewrite Hv'. case_bool_decide; by constructor.
Qed.

(** *** Handlers of a frame of [fd] *)

(** What a handler of one frame may do: whether it accepts the frame or not, the
    connection is still there. *)
Definition handles {A} (fd : N) (s : Server) (r : result persist_error A) (s' : Server) : Prop :=
  K s s' /\ is_Some (connections s' !! fd).

Lemma handles_here {A} fd s (r : result persist_error A) : inv s -> is_Some (connections s !! fd) ->
  handles fd s r s.
Proof. intros Hs Hf. split; [by apply K_refl|done]. Qed.

Lemma handles_err {A} fd s s' e : K s s' -> is_Some (connections s' !! fd) ->
  handles (A := A) fd s (Err e) s'.
Proof. by split. Qed.

Lemma handles_trans {A} fd s s1 (r : result persist_error A) s' :
  K s s1 -> handles fd s1 r s' -> handles fd s r s'.
Proof. intros H1' [H2' H3']. split; [by eapply K_trans|done]. Qed.

Lemma member_some s fd : is_Some (connections s !! fd) <-> is_Some (members (view s) !! fd).
Proof. by rewrite view_members, fmap_is_Some. Qed.

Lemma handles_quiet {A} fd s (r : result persist_error A) s' :
  is_Some (connections s !! fd) -> inv s' -> quiet s s' -> handles fd s r s'.
Proof.
  intros Hf Hi (Hv & _). split; [by apply K_same|].
  apply member_some. rewrite Hv. by apply member_some.
Qed.

Lemma queue_handles fd frame s : inv s -> is_Some (connections s !! fd) ->
  runs (queue_frame os fd frame) s (handles fd s).
Proof.
  intros Hs Hf. eapply runs_mono; [by apply queue_frame_spec|]. cbn beta.
  intros r s' (Hi & Hq & _). by apply handles_quiet.
Qed.

Lemma respond_handles fd request kind p s : inv s -> is_Some (connections s !! fd) ->
  runs (respond os fd request kind p) s (handles fd s).
Proof. intros Hs Hf. unfold respond. run. by apply queue_handles. Qed.

Lemma response_handles fd request kind response s : inv s -> is_Some (connections s !! fd) ->
  runs (operation_response os fd request kind response) s (handles fd s).
Proof.
  intros Hs Hf. unfold operation_response. run.
  destruct (protocol _ _); [by apply respond_handles|by apply handles_here].
Qed.

Lemma set_runtime_id s : set_runtime (runtime s) s = s.
Proof. by destruct s. Qed.

(** A call of the runtime that opens no terminal. *)
Lemma runtime_inv rt' s : inv s -> HolderRuntime.wf rt' ->
  (forall fd, is_Some (HolderRuntime.pty_to_session rt' !! fd) -> is_Some (ptys s !! fd)) ->
  inv (set_runtime rt' s).
Proof.
  intros [Hr Ho Hv Hd Ht] Hw Hp. split; [done..| |].
  - cbn. intros fd Hf. apply eq_None_not_Some. intros Hx. apply Hp in Hx.
    rewrite (Hd fd Hf) in Hx. by destruct Hx.
  - cbn. intros HC fd [Hf|Hf]; apply Ht; auto.
Qed.

Lemma on_runtime_spec {A} (m : HolderRuntime.H A) s Q : inv s ->
  runs m (runtime s) (fun r rt' => HolderRuntime.wf rt' /\
    HolderRuntime.pty_to_session rt' = ptys s /\ Q r rt') ->
  runs (on_runtime m) s (fun r s' => inv s' /\ view s' = view s /\
    connections s' = connections s /\ reactor s' = reactor s /\ Q r (runtime s')).
Proof.
  intros Hs Hm. unfold on_runtime. run. unfold runs in Hm.
  destruct (m (runtime s)) as [[r rt']|]; [|done]. destruct Hm as (Hw & Hp & HQ).
  split_and!; [|done..]. apply runtime_inv; [done|done|]. by rewrite Hp.
Qed.

Lemma on_runtime_handles {A B} fd (m : HolderRuntime.H A) (k : A -> H B) s : inv s ->
  is_Some (connections s !! fd) ->
  runs m (runtime s) (fun r rt' => HolderRuntime.wf rt' /\
    HolderRuntime.pty_to_session rt' = ptys s) ->
  (forall a s', inv s' -> is_Some (connections s' !! fd) -> runs (k a) s' (handles fd s')) ->
  runs (on_runtime m ≫= k) s (handles fd s).
Proof.
  intros Hs Hf Hm Hk. run. eapply runs_mono.
  { eapply (on_runtime_spec m s (fun _ _ => True)); [done|].
    eapply runs_mono; [exact Hm|]. naive_solver. }
  cbn beta. intros r s' (Hi & Hv & Hc & _ & _).
  destruct r as [a|e]; [|apply handles_err; [by apply K_same|by rewrite Hc]].
  eapply runs_mono; [apply Hk; [done|by rewrite Hc]|]. cbn beta.
  intros r' s2. apply handles_trans. by apply K_same.
Qed.

(** Registering a new descriptor; it only fails when the kernel refuses. *)
Lemma reactor_add_tokens fd s :
  runs (reactor_add os fd) s (fun r s' =>
    s' = set_reactor (fun _ => reactor s') s /\ (C -> r = Ok tt) /\
    (C -> is_Some (Reactor.tokens (reactor s') !! fd)) /\
    (forall f, is_Some (Reactor.tokens (reactor s) !! f) -> is_Some (Reactor.tokens (reactor s') !! f))).
Proof.
  unfold reactor_add, runs, Reactor.add. destruct Hos as [_ Hcalm].
  destruct (epoll_ctl os fd _) eqn:He; cbn; (split_and!; [done|..]); try done.
  - intros _. rewrite lookup_insert_eq. by eexists.
  - intros f Hf. rewrite lookup_insert_is_Some. destruct (decide (fd = f)); naive_solver.
  - intros HC. by rewrite (c_epoll os (Hcalm HC)) in He.
  - intros HC. by rewrite (c_epoll os (Hcalm HC)) in He.
Qed.

Lemma handle_create_spec fd minor frame s : inv s -> is_Some (connections s !! fd) ->
  fits (payload frame) -> runs (handle_create os fd minor frame) s (handles fd s).
Proof.
  intros Hs Hf Hfit. unfold handle_create. run.
  destruct (if minor =? _ then _ else _) as [r|] eqn:Hd; cbn [protocol]; run; [|by apply handles_here].
  assert (Hr : Session.create_ok r).
  { destruct (minor =? _); by eapply Session.decode_create_ok. }
  destruct (Session.create_bounds r Hr) as (Hid & Hid0 & Hsize).
  pose proof Hos as [[Hnow _ Hopen _ _] _]. unfold on_runtime. run.
  pose proof (HolderRuntime.create_spec (open_session os s r) (now_ms os) r (runtime s)
    (i_runtime _ Hs) Hnow (fun p Hp => ltac:(destruct (Hopen s r p Hp) as (? & ? & ? & ?); done))
    Hid Hid0 Hsize) as Hcreate.
  unfold runs in Hcreate. destruct (HolderRuntime.create _ _ _ _) as [[[[resp ofd]|e] rt']|]; [| |done].
  2:{ destruct Hcreate as (Hw & _ & -> & _). rewrite set_runtime_id. apply handles_err; [by apply K_refl|done]. }
  destruct Hcreate as (Hw & _ & Hcase). destruct ofd as [pfd|]; cbn [fst snd].
  2:{ destruct Hcase as [-> _]. rewrite set_runtime_id. run. by apply response_handles. }
  destruct Hcase as (_ & _ & _ & _ & _ & Hp & p & Hop & Hpf). destruct (Hopen s r p Hop) as (_ & _ & _ & Hfresh).
  rewrite Hpf in Hfresh. set (s1 := set_runtime rt' s). run.
  eapply runs_mono; [apply (reactor_add_tokens pfd s1)|]. cbn beta.
  intros out s2 (Hs2 & Hout & Htok & Hmore).
  assert (Hi : inv s2).
  { destruct Hs as [_ Ho Hv Hdj Ht]. rewrite Hs2. split; [done..| |].
    - cbn. intros f Hc. rewrite Hp. rewrite lookup_insert_ne; [by apply Hdj|].
      intros <-. rewrite Hfresh in Hc. by destruct Hc.
    - cbn. intros HC f. rewrite Hp, lookup_insert_is_Some. intros [Hc|[<-|[_ Hc]]];
        [apply Hmore; apply Ht; auto|by apply Htok|apply Hmore; apply Ht; auto]. }
  assert (HK : K s s2) by (apply K_same; [done|by rewrite Hs2]).
  assert (Hf2 : is_Some (connections s2 !! fd)) by (by rewrite Hs2).
  destruct out as [u|e]; [|by apply handles_err].
  eapply runs_mono; [by apply response_handles|]. cbn beta. intros r' s'. by apply handles_trans.
Qed.

Lemma handle_close_spec fd frame s : inv s -> is_Some (connections s !! fd) ->
  runs (handle_close os fd frame) s (handles fd s).
Proof.
  intros Hs Hf. unfold handle_close. run. destruct (protocol _ _) as [id|]; [|by apply handles_here].
  apply on_runtime_handles; [done..| |intros; by apply response_handles].
  eapply runs_mono; [apply HolderRuntime.close_spec, Hs|]. naive_solver.
Qed.

Lemma handle_kill_spec fd frame s : inv s -> is_Some (connections s !! fd) ->
  runs (handle_kill os fd frame) s (handles fd s).
Proof.
  intros Hs Hf. unfold handle_kill. run. destruct (protocol _ _) as [id|]; [|by apply handles_here].
  apply on_runtime_handles; [done..| |intros; by apply response_handles].
  unfold HolderRuntime.kill. run. destruct (HolderRuntime.sessions _ !! _); run;
    (split; [apply Hs|done]).
Qed.

Lemma handle_retire_spec fd frame s : inv s -> is_Some (connections s !! fd) ->
  runs (handle_retire os fd frame) s (handles fd s).
Proof.
  intros Hs Hf. unfold handle_retire. run. destruct (protocol _ _) as [id|]; [|by apply handles_here].
  apply on_runtime_handles; [done..| |intros; by apply response_handles].
  eapply runs_mono; [apply HolderRuntime.retire_spec, Hs|]. naive_solver.
Qed.

Lemma handle_inventory_spec fd frame s : inv s -> is_Some (connections s !! fd) ->
  runs (handle_inventory os fd frame) s (handles fd s).
Proof.
  intros Hs Hf. unfold handle_inventory. run.
  destruct (protocol _ _) as [request|]; [|by apply handles_here]. run.
  destruct (protocol _ _); [by apply respond_handles|by apply handles_here].
Qed.

Lemma handle_exit_context_spec fd minor frame s : inv s -> is_Some (connections s !! fd) ->
  runs (handle_exit_context os fd minor frame) s (handles fd s).
Proof.
  intros Hs Hf. unfold handle_exit_context. run.
  destruct (protocol _ _) as [id|]; [|by apply handles_here]. run.
  destruct (protocol _ _); [by apply respond_handles|by apply handles_here].
Qed.

(** A change of fields outside the invariant. *)
Lemma handle_shutdown_spec fd frame s : inv s -> is_Some (connections s !! fd) ->
  runs (handle_shutdown os fd frame) s (handles fd s).
Proof.
  intros Hs Hf. unfold handle_shutdown. run.
  eapply runs_mono; [by apply respond_handles|]. intros [u|e] s' Hh; run; [|done].
  destruct Hh as [[Hi Hr] Hm]. split; [|by apply Hm]. split; [|done]. by destruct Hi.
Qed.

Lemma core_controller k s : core s -> core (set_controller k s).
Proof. done. Qed.

Lemma handle_capability_spec fd minor frame s : inv s -> is_Some (connections s !! fd) ->
  runs (handle_capability os fd minor frame) s (handles fd s).
Proof.
  intros Hs [c Hc]. unfold handle_capability. run.
  destruct (negb (minor =? _)); run; [by apply handles_here|].
  rewrite runs_unwrap. exists c. split; [done|]. run.
  destruct (negb (protocol_minor c =? _)); run; [by apply handles_here|].
  destruct (protocol _ _) as [request|]; run; [|by apply handles_here].
  destruct (negb (Capability.max_minor request =? _)); run; [by apply handles_here|].
  destruct (controller s) as [k|] eqn:Hk; cbn [ok_or]; run; [|by apply handles_here].
  destruct (N.eqb_spec (ctl_fd k) fd) as [He|]; cbn [ok_or]; run; [|by apply handles_here].
  destruct (_ || _); run; [by apply handles_here|].
  set (s1 := set_controller _ s). set (s2 := update fd _ s1).
  assert (Hv1 : view s1 = view s) by (unfold view; cbn; by rewrite Hk, <- He).
  assert (Hv : view s2 = view s).
  { unfold s2. rewrite (update_view fd _ c) by done. rewrite Hv1. unfold view. cbn. f_equal.
    apply insert_id. by rewrite lookup_fmap, Hc. }
  assert (Hi : inv s2).
  { apply inv_core. rewrite Hv. apply inv_core in Hs as [Hcore Hro]. split; [|done]. by apply core_update. }
  assert (Hf2 : is_Some (connections s2 !! fd)).
  { apply member_some. rewrite Hv. apply member_some. by rewrite Hc. }
  eapply runs_mono; [by apply queue_handles|]. intros r s'. apply handles_trans. by apply K_same.
Qed.

Lemma handle_control_spec fd minor frame s : inv s -> is_Some (connections s !! fd) ->
  fits (payload frame) -> runs (handle_control os fd minor frame) s (handles fd s).
Proof.
  intros Hs Hf Hfit. pose proof Hf as [c Hc]. unfold handle_control.
  destruct (message_type frame) eqn:Ht; try by apply handle_capability_spec.
  all: run; rewrite runs_unwrap; exists c; split; [done|]; run.
  all: destruct (negb _); run; [by apply handles_here|].
  all: try by apply handles_here.
  all: lazymatch goal with
  | |- runs (handle_inventory _ _ _) _ _ => by apply handle_inventory_spec
  | |- runs (handle_create _ _ _ _) _ _ => by apply handle_create_spec
  | |- runs (handle_close _ _ _) _ _ => by apply handle_close_spec
  | |- runs (handle_kill _ _ _) _ _ => by apply handle_kill_spec
  | |- runs (handle_exit_context _ _ _ _) _ _ => by apply handle_exit_context_spec
  | |- runs (handle_retire _ _ _) _ _ => by apply handle_retire_spec
  | |- _ => destruct (payload frame); [by apply handle_shutdown_spec|by apply handles_here]
  end.
Qed.
(** *** Hello *)

(** The members other than the controller and the data connections stay. *)
Lemma disconnect_keeps fd s f a : inv s -> is_Some (connections s !! fd) -> f <> fd ->
  members (view s) !! f = Some (Pending, a) ->
  members (view (disconnect os fd s)) !! f = Some (Pending, a).
Proof.
  intros Hs Hfd Hne Hf.
  destruct (disconnect_spec fd s Hs) as (_ & _ & ->); [by apply i_disjoint|].
  case_bool_decide; cbn.
  - apply map_lookup_filter_Some. rewrite lookup_delete_ne by done. done.
  - by rewrite lookup_delete_ne.
Qed.

Lemma drop_closed_spec fd a s : inv s -> members (view s) !! fd = Some (Pending, a) ->
  runs (drop_closed_controller os) s (fun r s' => r = Ok tt /\ K s s' /\
    members (view s') !! fd = Some (Pending, a)).
Proof.
  intros Hs Hf. unfold drop_closed_controller. run.
  destruct (controller s) as [k|] eqn:Hk; run; [|by split_and!; [|apply K_refl|]].
  destruct (connections s !! ctl_fd k) as [c|] eqn:Hc; run; [|by split_and!; [|apply K_refl|]].
  destruct (closes_within os (ctl_fd k)); run; [|by split_and!; [|apply K_refl|]].
  assert (Hne : fd <> ctl_fd k).
  { intros ->. assert (chief (view s) = Some (ctl_fd k)) as Hch by (cbn; by rewrite Hk).
    apply (ro_chief _ (i_roster _ Hs)) in Hch. by rewrite Hf in Hch. }
  assert (Hsome : is_Some (connections s !! ctl_fd k)) by (by rewrite Hc).
  destruct (disconnect_spec (ctl_fd k) s Hs) as (Hi & Hr & Hv); [by apply i_disjoint|].
  split_and!; [done| |by apply disconnect_keeps].
  apply K_step; [done|]. rewrite Hv. case_bool_decide; by constructor.
Qed.

(** A pending connection gets its role. *)
Lemma set_role_spec fd role s c : inv s -> connections s !! fd = Some c ->
  member_of c = (Pending, None) ->
  (role = Control /\ controller s = None \/ role = Data /\ controller s <> None) ->
  forall k, (role = Control -> ctl_fd k = fd) ->
  let s1 := update fd (fun c => Connection.set_role c role) s in
  let s' := if decide (role = Control) then set_controller (Some k) s1 else s1 in
  K s s' /\ is_Some (connections s' !! fd).
Proof.
  intros Hs Hc Hm Hrole k Hk s1 s'. pose proof (proj1 (inv_core s) Hs) as [Hcore Hro].
  assert (Hmem : members (view s) !! fd = Some (Pending, None)) by (apply member_lookup; eauto).
  assert (Hv : view s1 = mk (<[fd := (role, None)]> (members (view s))) (seats (view s)) (chief (view s))).
  { unfold s1. rewrite (update_view fd _ c) by done. unfold member_of in *. cbn.
    injection Hm as _ Ha. by rewrite Ha. }
  assert (Hcs : core s') by (unfold s'; case_decide; by apply core_update).
  assert (Hst : rstep (view s) (view s')).
  { unfold s'. destruct Hrole as [[-> Hn]|[-> Hn]]; cbn [decide decide_rel].
    - rewrite decide_True by done.
      assert (view (set_controller (Some k) s1) = as_controller fd (view s)) as ->.
      { change (view (set_controller (Some k) s1)) with
          (mk (members (view s1)) (seats (view s1)) (Some (ctl_fd k))). by rewrite Hv, Hk. }
      constructor; [done|]. cbn. by rewrite Hn.
    - rewrite decide_False by done. rewrite Hv. apply s_data; [done|]. cbn.
      by destruct (controller s). }
  assert (Hi : inv s') by (apply inv_core; split; [done|by eapply rstep_ok]).
  split; [by apply K_step|].
  assert (connections s' = connections s1) as -> by (unfold s'; by case_decide).
  apply member_some. rewrite Hv. cbn. by rewrite lookup_insert_eq.
Qed.
(** A connection that is neither kept nor given a role. *)
Lemma update_same_spec fd f s : inv s -> is_Some (connections s !! fd) ->
  (forall c, output (f c) = output c) -> (forall c, member_of (f c) = member_of c) ->
  K s (update fd f s) /\ is_Some (connections (update fd f s) !! fd) /\ view (update fd f s) = view s.
Proof.
  intros Hs [c Hc] Ho Hm. pose proof (proj1 (inv_core s) Hs) as [Hcore Hro].
  assert (Hv : view (update fd f s) = view s).
  { rewrite (update_view fd f c) by done. rewrite Hm.
    assert (members (view s) !! fd = Some (member_of c)) as Hl by (apply member_lookup; eauto).
    rewrite insert_id by done. by destruct (view s). }
  assert (Hi : inv (update fd f s)) by (apply inv_core; rewrite Hv; split; [by apply core_update|done]).
  split_and!; [by apply K_same| |done]. apply member_some. rewrite Hv. apply member_some. by rewrite Hc.
Qed.

Lemma handle_control_hello_spec fd minor frame s : inv s ->
  members (view s) !! fd = Some (Pending, None) ->
  runs (handle_control_hello os fd minor frame) s (handles fd s).
Proof.
  intros Hs Hf. assert (Hsome : is_Some (connections s !! fd)) by (apply member_some; by rewrite Hf).
  unfold handle_control_hello. destruct (negb (minor =? _)); run; [by apply handles_here|].
  eapply runs_mono; [by apply drop_closed_spec|]. cbn beta. intros r s1 (-> & HK1 & Hf1).
  assert (Hi1 : inv s1) by apply HK1. run.
  assert (Hs1 : is_Some (connections s1 !! fd)) by (apply member_some; by rewrite Hf1).
  destruct (protocol _ _) as [hello|]; run; [|by apply handles_err].
  pose proof Hs1 as [c1 Hc1]. rewrite runs_unwrap. exists c1. split; [done|]. run.
  set (status := if _ || _ then _ else _).
  assert (Hacc : status = Handshake.Accepted -> controller s1 = None).
  { unfold status. destruct (_ || _); [done|]. by destruct (controller s1). }
  clearbody status. eapply runs_mono; [by apply queue_frame_spec|]. cbn beta.
  intros r s2 (Hi2 & (Hv2 & _ & Hk2) & _).
  assert (HK2 : K s s2) by (eapply K_trans; [exact HK1|by apply K_same]).
  assert (Hf2 : members (view s2) !! fd = Some (Pending, None)) by (by rewrite Hv2).
  assert (Hs2 : is_Some (connections s2 !! fd)) by (apply member_some; by rewrite Hf2).
  destruct r as [u|e]; [|by apply handles_err].
  destruct status; run.
  2-4: destruct (update_same_spec fd Connection.set_close_after_flush s2) as (HK3 & Hc3 & _); try done;
    split; [by eapply K_trans|done].
  apply member_lookup in Hf2 as (c2 & Hc2 & Hm2).
  assert (Hrole : Control = Control /\ controller s2 = None \/ Control = Data /\ controller s2 <> None)
    by (left; split; [done|]; rewrite Hk2; by apply Hacc).
  destruct (set_role_spec fd Control s2 c2 Hi2 Hc2 Hm2 Hrole
    (mkController fd (Handshake.daemon_pid hello) (Handshake.nonce hello)
       HolderFrame.HOLDER_PROTOCOL_BASELINE_MINOR 0) ltac:(done)) as [HK3 Hc3].
  rewrite decide_True in HK3, Hc3 by done. split; [by eapply K_trans|done].
Qed.

Lemma handle_data_hello_spec fd minor frame s : inv s ->
  members (view s) !! fd = Some (Pending, None) ->
  runs (handle_data_hello os fd minor frame) s (handles fd s).
Proof.
  intros Hs Hf. assert (Hsome : is_Some (connections s !! fd)) by (apply member_some; by rewrite Hf).
  unfold handle_data_hello. run. destruct (protocol _ _) as [hello|]; run; [|by apply handles_here].
  pose proof Hsome as [c1 Hc1]. rewrite runs_unwrap. exists c1. split; [done|]. run.
  set (accepted := data_hello_accepted _ _ _ _).
  assert (Hacc : accepted = true -> controller s <> None).
  { unfold accepted, data_hello_accepted. by destruct (controller s). }
  clearbody accepted.
  set (s1 := if accepted then update fd (fun c => Connection.set_protocol_minor c minor) s else s).
  assert (Hpre : K s s1 /\ view s1 = view s /\ controller s1 = controller s).
  { unfold s1. destruct accepted; [|by split_and!; [apply K_refl|..]].
    destruct (update_same_spec fd (fun c => Connection.set_protocol_minor c minor) s) as (? & _ & ?); done. }
  destruct Hpre as (HK1 & Hv1 & Hk1).
  assert (Hrun : runs (E := persist_error) (if accepted then
    modify (update fd (fun c => Connection.set_protocol_minor c minor)) else mret tt) s (fun r s' => r = Ok tt /\ s' = s1)) by (unfold s1; by destruct accepted).
  eapply runs_mono; [exact Hrun|]. cbn beta. intros r s' [-> ->]. run.
  assert (Hi1 : inv s1) by apply HK1. eapply runs_mono; [by apply queue_frame_spec|]. cbn beta.
  intros r s2 (Hi2 & (Hv2 & _ & Hk2) & _).
  assert (HK2 : K s s2) by (eapply K_trans; [exact HK1|by apply K_same]).
  assert (Hf2 : members (view s2) !! fd = Some (Pending, None)) by (by rewrite Hv2, Hv1).
  assert (Hs2 : is_Some (connections s2 !! fd)) by (apply member_some; by rewrite Hf2).
  destruct r as [u|e]; [|by apply handles_err].
  destruct accepted; run.
  2:{ destruct (update_same_spec fd Connection.set_close_after_flush s2) as (HK3 & Hc3 & _); try done.
      split; [by eapply K_trans|done]. }
  apply member_lookup in Hf2 as (c2 & Hc2 & Hm2).
  assert (Hrole : Data = Control /\ controller s2 = None \/ Data = Data /\ controller s2 <> None)
    by (right; split; [done|]; rewrite Hk2, Hk1; by apply Hacc).
  destruct (set_role_spec fd Data s2 c2 Hi2 Hc2 Hm2 Hrole (mkController fd 0 [] 0 0) ltac:(done))
    as [HK3 Hc3].
  rewrite decide_False in HK3, Hc3 by done. split; [by eapply K_trans|done].
Qed.
(** *** Attaching *)

Lemma detach_spec fd s : inv s -> K s (detach_connection fd s) /\ view (detach_connection fd s) = detach fd (view s).
Proof.
  intros Hs. pose proof (proj1 (inv_core s) Hs) as [Hcore Hro].
  assert (Hv := detach_view fd s (seats_of fd _ (ro_seats _ Hro))). split; [|done].
  apply K_step; [|rewrite Hv; constructor]. apply inv_core. rewrite Hv.
  split; [by apply core_detach|]. eapply rstep_ok; [done|constructor].
Qed.

(** Taking the seat of a session: the previous writer is told, or dropped. *)
Definition take_seat (id fd : N) : H unit :=
  s ← get;
  _ ← modify (set_writers <[id := fd]>);
  match writers s !! id with
  | Some previous => queue_or_disconnect os previous
      (writer_frame HolderFrame.WriteRevoked id (HolderRuntime.generation (runtime s)))
  | None => mret tt
  end.

(** What is told to the previous writer. *)
Definition revoked (id fd : N) (s s' : Server) : Prop :=
  match writers s !! id with
  | None => view s' = view (set_writers <[id := fd]> s)
  | Some previous => previous <> fd /\
      (view s' = view (set_writers <[id := fd]> s) /\
       delivered previous (writer_frame HolderFrame.WriteRevoked id
         (HolderRuntime.generation (runtime s))) s s' \/
       view s' = leave previous (view (set_writers <[id := fd]> s)))
  end.

Lemma take_seat_spec id fd s : inv s -> (forall i, writers s !! i <> Some fd) ->
  runs (take_seat id fd) s (fun r s' => r = Ok tt /\ core s' /\ rest s' = rest s /\
    controller s' = controller s /\ connections s' !! fd = connections s !! fd /\ revoked id fd s s').
Proof.
  intros Hs Hno. unfold take_seat, revoked. run.
  pose proof (proj1 (inv_core s) Hs) as [Hcore Hro]. set (s1 := set_writers _ s).
  assert (Hcore1 : core s1) by done.
  destruct (writers s !! id) as [previous|] eqn:Hp; run; [|done].
  assert (Hne : previous <> fd) by (intros ->; by destruct (Hno id)).
  destruct (ro_seats _ Hro id previous Hp) as [k Hk].
  assert (Hkd := ro_attached _ Hro _ _ _ Hk). subst k.
  assert (Hpty : ptys s1 !! previous = None)
    by (apply (i_disjoint _ Hs), member_some; by rewrite Hk).
  assert (Hseat : seat_of (view s1) previous).
  { intros i. cbn. rewrite lookup_insert_Some. intros [[_ ->]|[_ Hi]]; [done|].
    by apply (ro_seats _ Hro). }
  assert (Hch : chief (view s1) <> Some previous)
    by (intros Hch; apply (ro_chief _ Hro) in Hch; by rewrite Hk in Hch).
  eapply runs_mono; [by apply queue_or_drop|]. cbn beta.
  intros r s' (-> & Hc' & Hr' & Hk' & Hf & Hcase). split_and!; try done.
  by rewrite Hf.
Qed.

(** Then the session is attached: a roster step, and one more when the previous
    writer was dropped. *)
Lemma attached_spec id fd (writing : bool) s s' c : inv s -> members (view s) !! fd = Some (Data, None) ->
  (forall i, writers s !! i <> Some fd) -> core s' -> connections s' !! fd = Some c ->
  (if writing then revoked id fd s s' else s' = s) ->
  let s2 := update fd (fun c => Connection.set_attached c (Some id)) s' in
  K s s2 /\ is_Some (connections s2 !! fd).
Proof.
  intros Hs Hf Hno Hc' Hc Hrev s2. pose proof (proj1 (inv_core s) Hs) as [Hcore Hro].
  assert (Hcs : core s2) by (by apply core_update).
  assert (Hmem : forall r, view s' = r -> members r !! fd = Some (Data, None) ->
    view s2 = mk (<[fd := (Data, Some id)]> (members r)) (seats r) (chief r)).
  { intros r <- Hm. unfold s2. rewrite (update_view fd _ c) by done. f_equal. f_equal.
    apply member_lookup in Hm as (c0 & Hc0 & Hm0). rewrite Hc in Hc0. injection Hc0 as <-.
    unfold member_of in *. cbn. by injection Hm0 as -> _. }
  assert (Hun : unseat fd (writers s) = writers s) by (by apply unseat_none).
  assert (Hdet : detach fd (view s) = view s).
  { unfold detach. change (seats (view s)) with (writers s). rewrite Hun.
    assert (alter (fun x => (x.1, None)) fd (members (view s)) = members (view s)) as ->; [|done].
    apply map_eq. intros i. rewrite lookup_alter. case_decide; [subst|done]. by rewrite Hf. }
  assert (Hatt : forall w, attach fd id w (view s) = mk (<[fd := (Data, Some id)]> (members (view s)))
    (if w then <[id := fd]> (writers s) else writers s) (chief (view s))).
  { intros w. unfold attach. by rewrite Hdet. }
  assert (Hsteps : rsteps (view s) (view s2)).
  { destruct writing.
    2:{ subst s'. rewrite (Hmem (view s)) by done. apply rtc_once.
        pose proof (s_attach (view s) fd id false None Hf) as Hst. by rewrite Hatt in Hst. }
    assert (Hone : view s' = view (set_writers <[id := fd]> s) -> rsteps (view s) (view s2)).
    { intros Hv. rewrite (Hmem _ Hv) by done. apply rtc_once.
      pose proof (s_attach (view s) fd id true None Hf) as Hst. by rewrite Hatt in Hst. }
    unfold revoked in Hrev. destruct (writers s !! id) as [previous|] eqn:Hp; [|by apply Hone].
    destruct Hrev as [Hne [[Hv _]|Hv]]; [by apply Hone|].
    rewrite (Hmem _ Hv) by (cbn; by rewrite lookup_delete_ne).
    eapply rtc_l; [by apply (s_attach (view s) fd id true None)|]. apply rtc_once. rewrite Hatt.
    match goal with |- rstep ?a ?b => assert (b = leave previous a) as -> end.
    - unfold leave. cbn [members seats chief]. f_equal. cbn.
      by rewrite delete_insert_ne.
    - constructor. cbn. intros Hch.
      assert (Hm : members (view s) !! previous = Some (Control, None)) by (by apply (ro_chief _ Hro)).
      destruct (ro_seats _ Hro id previous Hp) as [k Hk]. by rewrite Hm in Hk. }
  assert (Hi : inv s2) by (apply inv_core; split; [done|by eapply rsteps_ok]).
  split; [by split|]. unfold s2. cbn. rewrite lookup_alter_eq, Hc. by eexists.
Qed.
Lemma response_quiet fd request kind response s : inv s ->
  runs (operation_response os fd request kind response) s (fun _ s' => inv s' /\ quiet s s').
Proof.
  intros Hs. unfold operation_response. run. destruct (protocol _ _); [|done].
  unfold respond. run. eapply runs_mono; [by apply queue_frame_spec|]. naive_solver.
Qed.

Lemma replay_is_some rt id n : is_Some (HolderRuntime.replay rt id n) <-> is_Some (HolderRuntime.sessions rt !! id).
Proof. unfold HolderRuntime.replay. destruct (_ !! id); cbn; split; intros [? [=]]; eauto. Qed.

(** The end of [attach]: the answer, the replay, the grant. *)
Lemma attach_tail_spec fd frame id n (writing : bool) s : inv s -> is_Some (connections s !! fd) ->
  is_Some (HolderRuntime.sessions (runtime s) !! id) ->
  runs (_ ← operation_response os fd frame HolderFrame.AttachResp (operation id Operation.StatusOk "");
        s ← get;
        data ← unwrap (HolderRuntime.replay (runtime s) id n);
        _ ← each (fun chunk => queue_frame os fd (frame_for HolderFrame.Output 0
               (HolderRuntime.generation (runtime s)) chunk)) (io_chunks (length data) data);
        if writing then queue_frame os fd (writer_frame HolderFrame.WriteGranted id
             (HolderRuntime.generation (runtime s)))
        else mret tt) s (handles fd s).
Proof.
  intros Hs Hf Hid. run. eapply runs_mono; [by apply response_quiet|]. cbn beta.
  intros r s1 [Hi1 Hq1]. destruct r as [u|e]; [run|by apply handles_quiet].
  rewrite runs_unwrap. assert (Hrt : runtime s1 = runtime s) by (apply rest_runtime, Hq1).
  destruct (proj2 (replay_is_some (runtime s1) id n)) as [data Hd]; [by rewrite Hrt|].
  exists data. split; [done|]. run.
  eapply runs_mono.
  { apply (runs_each (fun s' => inv s' /\ quiet s s')); [done|]. intros chunk s2 _ [Hi2 Hq2].
    eapply runs_mono; [by apply queue_frame_spec|]. cbn beta.
    intros r s3 (Hi3 & Hq3 & _). split; [done|by eapply quiet_trans]. }
  cbn beta. intros r s2 [Hi2 Hq2]. destruct r as [u'|e]; [|by apply handles_quiet].
  destruct writing; [|by apply handles_quiet].
  eapply runs_mono; [by apply queue_frame_spec|]. cbn beta.
  intros r s3 (Hi3 & Hq3 & _). apply handles_quiet; [done|done|by eapply quiet_trans].
Qed.

Lemma attach_spec fd frame a s : inv s -> members (view s) !! fd = Some (Data, a) ->
  runs (HolderServer.attach os fd frame) s (handles fd s).
Proof.
  intros Hs Hf. assert (Hsome : is_Some (connections s !! fd)) by (apply member_some; by rewrite Hf).
  unfold HolderServer.attach. run. destruct (protocol _ _) as [request|]; [|by apply handles_here].
  run. set (id := Session.attach_session_id request). set (writing := match Session.mode request with
    | Session.ReadWrite => true | Session.ReadOnly => false end). clearbody writing.
  destruct (HolderRuntime.replay (runtime s) id 0) as [d|] eqn:Hrep; [|by apply response_handles].
  run. set (s1 := detach_connection fd s). destruct (detach_spec fd s Hs) as [HK1 Hv1].
  assert (Hi1 : inv s1) by apply HK1.
  assert (Hno : forall i, writers s1 !! i <> Some fd).
  { intros i Hi. assert (seats (view s1) !! i = Some fd) as Hi' by done.
    unfold s1 in Hi'. rewrite Hv1 in Hi'. by apply unseat_lookup in Hi' as [_ ?]. }
  assert (Hf1 : members (view s1) !! fd = Some (Data, None)).
  { unfold s1. rewrite Hv1. cbn [members detach]. by rewrite lookup_alter_eq, Hf. }
  assert (Hrest1 : rest s1 = rest s).
  { unfold s1, detach_connection. destruct (connections s !! fd); [|done].
    destruct (attached_session _); [|done]. by case_bool_decide. }
  assert (Hid1 : is_Some (HolderRuntime.sessions (runtime s1) !! id)).
  { rewrite (rest_runtime _ _ Hrest1). apply (replay_is_some _ id 0). by rewrite Hrep. }
  eapply runs_mono with (Q := fun r s2 => r = Ok tt /\ core s2 /\ rest s2 = rest s1 /\
    connections s2 !! fd = connections s1 !! fd /\ if writing then revoked id fd s1 s2 else s2 = s1).
  { destruct writing; [|run; split_and!; try done; by apply inv_core]. eapply runs_mono; [by apply (take_seat_spec id fd s1)|].
    cbn beta. intros r s2 (-> & ? & ? & ? & ? & ?). by split_and!. }
  cbn beta. intros r s2 (-> & Hc2 & Hr2 & Hcon & Hrev). run.
  apply member_lookup in Hf1 as Hc1. destruct Hc1 as (c & Hc & Hmc).
  rewrite runs_unwrap. exists c. split; [by rewrite Hcon|]. cbv beta iota.
  rewrite runs_bind, runs_modify. cbv beta iota.
  destruct (attached_spec id fd writing s1 s2 c Hi1 Hf1 Hno Hc2 ltac:(by rewrite Hcon) Hrev) as [HK2 Hs2].
  set (s3 := update fd _ s2) in *.
  assert (Hid3 : is_Some (HolderRuntime.sessions (runtime s3) !! id))
    by (change (runtime s3) with (runtime s2); by rewrite (rest_runtime _ _ Hr2)).
  assert (HK3 : K s s3) by (by eapply K_trans).
  pose proof (attach_tail_spec fd frame id (Session.replay_bytes request) writing s3
    (proj1 HK3) Hs2 Hid3) as Htail.
  refine (runs_mono _ _ (handles fd s3) _ _ (fun r s' => handles_trans fd s s3 r s' HK3)).
  exact Htail.
Qed.
(** *** Input, resizing, signals *)

(** Only the writer of a running session passes. *)
Lemma require_writer_spec fd s c : connections s !! fd = Some c ->
  runs (require_writer fd) s (fun r s' => s' = s /\
    match r with
    | Ok id => attached_session c = Some id /\ writers s !! id = Some fd /\
        HolderRuntime.is_running (runtime s) id = true
    | Err _ => True
    end).
Proof.
  intros Hc. unfold require_writer. run. rewrite runs_unwrap. exists c. split; [done|]. run.
  destruct (attached_session c) as [id|]; cbn [ok_or]; run; [|done].
  destruct (bool_decide _) eqn:Hw; cbn [negb orb]; run; [|done]. apply bool_decide_eq_true in Hw.
  destruct (HolderRuntime.is_running _ _) eqn:Hr; cbn [negb]; by run.
Qed.

Lemma writer_handles {A} fd (k : N -> H A) s : inv s -> is_Some (connections s !! fd) ->
  (forall id, HolderRuntime.is_running (runtime s) id = true -> runs (k id) s (handles fd s)) ->
  runs (require_writer fd ≫= k) s (handles fd s).
Proof.
  intros Hs [c Hc] Hk. run. eapply runs_mono; [by apply require_writer_spec|]. cbn beta.
  intros r s' [-> Hr]. destruct r as [id|e]; [by apply Hk, Hr|]. apply handles_here; [done|by eexists].
Qed.

Lemma reactor_modify_handles fd f writable s : inv s -> is_Some (connections s !! fd) ->
  runs (reactor_modify os f writable) s (handles fd s).
Proof. intros Hs Hf. unfold reactor_modify. run. by apply handles_here. Qed.

Lemma handle_data_spec fd frame a s : inv s -> members (view s) !! fd = Some (Data, a) ->
  runs (handle_data os fd frame) s (handles fd s).
Proof.
  intros Hs Hf. assert (Hsome : is_Some (connections s !! fd)) by (apply member_some; by rewrite Hf).
  pose proof Hos as [[Hnow _ _ _ _] _].
  unfold handle_data. destruct (message_type frame); try by apply handles_here.
  - by eapply attach_spec.
  - destruct (payload frame); [|by apply handles_here]. run. destruct (detach_spec fd s Hs) as [HK Hv].
    split; [done|]. apply member_some. rewrite Hv. cbn [members detach]. by rewrite lookup_alter_eq, Hf.
  - unfold handle_input. apply writer_handles; [done|done|]. intros id _.
    apply on_runtime_handles; [done|done| |].
    + eapply runs_mono; [by apply HolderRuntime.queue_input_spec; [apply Hs|]|]. naive_solver.
    + intros pending s' Hi' Hc'. run. destruct (HolderRuntime.pty_fd _ _);
        [by apply reactor_modify_handles|by apply handles_here].
  - unfold handle_resize. apply writer_handles; [done|done|]. intros id _. run.
    destruct (protocol _ _); run; [|by apply handles_here].
    eapply runs_mono; [apply (on_runtime_spec _ s (fun _ _ => True)); [done|]|].
    + unfold HolderRuntime.resize. run. destruct (ok_or _ _); run; [|by split; [apply Hs|]].
      destruct (winsize_set os); by split; [apply Hs|].
    + cbn beta. intros r s' (Hi & Hv & Hc & _). split; [by apply K_same|]. by rewrite Hc.
  - unfold handle_signal_request. apply writer_handles; [done|done|]. intros id _. run.
    destruct (protocol _ _); run; [|by apply handles_here].
    eapply runs_mono; [apply (on_runtime_spec _ s (fun _ _ => True)); [done|]|].
    + unfold HolderRuntime.signal. run. destruct (ok_or _ _); run; [|by split; [apply Hs|]].
      destruct (kill_group _ _ _); by split; [apply Hs|].
    + cbn beta. intros r s' (Hi & Hv & Hc & _). split; [by apply K_same|]. by rewrite Hc.
Qed.

(** A pending connection is not attached. *)
Lemma pending_member fd s c : inv s -> connections s !! fd = Some c -> role c = Pending ->
  members (view s) !! fd = Some (Pending, None).
Proof.
  intros Hs Hc Hr. assert (Hm : members (view s) !! fd = Some (member_of c)) by (apply member_lookup; eauto).
  unfold member_of in Hm. rewrite Hr in Hm. destruct (attached_session c) as [id|]; [|done].
  by apply (ro_attached _ (i_roster _ Hs)) in Hm.
Qed.

Lemma process_frame_spec fd minor frame s : inv s -> is_Some (connections s !! fd) ->
  fits (payload frame) -> runs (process_frame os fd minor frame) s (handles fd s).
Proof.
  intros Hs Hf Hfit. pose proof Hf as [c Hc]. unfold process_frame. run. rewrite runs_unwrap.
  exists c. split; [done|]. cbv beta iota. destruct (role c) eqn:Hr.
  - pose proof (pending_member fd s c Hs Hc Hr) as Hm. unfold handle_hello.
    destruct (message_type frame); try by apply handles_here.
    + by apply handle_control_hello_spec.
    + by apply handle_data_hello_spec.
  - by apply handle_control_spec.
  - destruct (negb _); [by apply handles_here|]. eapply handle_data_spec; [done|].
    apply member_lookup. exists c. split; [done|]. unfold member_of. by rewrite Hr.
Qed.
End step.
End safety.
End HolderSafety.
