(* ===== verification/HolderEvents.v ===== *)
(** * HolderEvents: the events of a holder, and the refinement of the roster.

    Continues HolderSafety.v with what signals, terminals, the log thread and
    the listener bring ([server.rs]), and closes with the theorems about a whole
    round of the event loop. *)
From S2P Require Import Prelude OrderedMap Bytes Utf8 RingBuffer HolderWire HolderFrame.
From S2P Require Import Environment HolderMessages HolderOperation HolderSession.
From S2P Require Import ShellState Effects ByteQueue HolderReactor HolderConnection.
From S2P Require Import HolderRuntime HolderServer HolderRoster HolderSafety.
From Stdlib Require Import Lia.
Import String.StringSyntax.
Import Environment(SnapshotJson, SnapshotJsonLaws, EnvironmentSnapshot).
Import ShellState(EnvelopeJson, EnvelopeJsonLaws).
Import HolderFrame(HolderFrame, message_type, request_id, payload).
Import Connection(ConnectionRole, Pending, Control, Data, role, attached_session, protocol_minor,
  output).
Import HolderServer Roster HolderSafety.
Local Open Scope N_scope.

Module HolderEvents.

Section events.
Context `{SnapshotJsonLaws} `{EnvelopeJsonLaws}.
Context (C : Prop).

Abbreviation ptys s := (HolderRuntime.pty_to_session (runtime s)).

(** Frames were sent, and connections may have been dropped. *)
Definition told (s s' : Server) : Prop :=
  K C s s' /\ rest s' = rest s /\
  forall fd, is_Some (connections s' !! fd) -> is_Some (connections s !! fd).

Lemma told_refl s : inv C s -> told s s.
Proof. intros Hs. split_and!; [by apply K_refl|done|done]. Qed.

Lemma told_trans a b c : told a b -> told b c -> told a c.
Proof.
  intros (K1 & R1 & S1) (K2 & R2 & S2). split_and!; [by eapply K_trans|congruence|auto].
Qed.

Lemma told_inv s s' : told s s' -> inv C s'.
Proof. intros ([Hi _] & _). done. Qed.

Lemma told_runtime s s' : told s s' -> runtime s' = runtime s.
Proof. intros (_ & Hr & _). by apply rest_runtime. Qed.

(** The result of an event: nothing but a failure of the kernel is an error. *)
Definition survives {A} (s : Server) (r : result persist_error A) (s' : Server) : Prop :=
  match r with Ok _ => K C s s' | Err _ => ~ C end.

Lemma survives_trans {A} s s1 (r : result persist_error A) s' :
  K C s s1 -> survives s1 r s' -> survives s r s'.
Proof. destruct r; [|done]. apply K_trans. Qed.

Section step.
Context (os : Os) (Hos : good C os).

(** *** Telling connections *)

Lemma tell_spec fd frame s : inv C s -> ptys s !! fd = None ->
  runs (queue_or_disconnect os fd frame) s (fun r s' => r = Ok tt /\ told s s').
Proof.
  intros Hs Hp. eapply runs_mono; [by apply (queue_or_disconnect_spec C os Hos)|]. cbn beta.
  intros r s' (-> & HK & Hr & Hcase). split; [done|]. split_and!; [done..|].
  intros f Hf. apply member_some. apply member_some in Hf.
  destruct Hcase as [((<- & _) & _)|Hv]; [done|]. rewrite Hv in Hf.
  destruct Hf as [m Hm]. case_bool_decide; cbn [members dissolve leave] in Hm.
  - apply map_lookup_filter_Some in Hm as [Hm _]. apply lookup_delete_Some in Hm as [_ Hm]. by rewrite Hm.
  - apply lookup_delete_Some in Hm as [_ Hm]. by rewrite Hm.
Qed.

(** A data connection is told or dropped; no other connection changes. *)
Lemma tell_data fd frame a s : inv C s -> members (view s) !! fd = Some (Data, a) ->
  runs (queue_or_disconnect os fd frame) s (fun r s' => r = Ok tt /\ told s s' /\
    (forall f, f <> fd -> connections s' !! f = connections s !! f) /\
    (view s' = view s /\ delivered fd frame s s' \/ connections s' !! fd = None)).
Proof.
  intros Hs Hf. pose proof (proj1 (inv_core C s) Hs) as [Hcore Hro].
  assert (Hp : ptys s !! fd = None) by (apply (i_disjoint _ _ Hs), member_some; by rewrite Hf).
  assert (Hch : chief (view s) <> Some fd)
    by (intros Hch; apply (ro_chief _ Hro) in Hch; by rewrite Hf in Hch).
  eapply runs_mono.
  { exact (runs_and _ _ _ _ (tell_spec fd frame s Hs Hp)
      (queue_or_drop C os fd frame s Hcore Hp (seats_of fd _ (ro_seats _ Hro)) Hch)). }
  cbn beta. intros r s' [[-> Ht] (_ & _ & _ & _ & Hother & Hcase)]. split_and!; [done..|].
  destruct Hcase as [Hd|Hv]; [by left|right].
  apply eq_None_not_Some. intros Hc%member_some. rewrite Hv in Hc. cbn in Hc.
  rewrite lookup_delete_eq in Hc. by destruct Hc.
Qed.

Lemma controller_pty s k : inv C s -> controller s = Some k -> ptys s !! ctl_fd k = None.
Proof.
  intros Hs Hk. apply (i_disjoint _ _ Hs), member_some.
  assert (Hc : chief (view s) = Some (ctl_fd k)) by (cbn; by rewrite Hk).
  apply (ro_chief _ (i_roster _ _ Hs)) in Hc. by rewrite Hc.
Qed.

Lemma send_control_spec frame s : inv C s ->
  runs (send_control os frame) s (fun r s' => r = Ok tt /\ told s s').
Proof.
  intros Hs. unfold send_control. run. destruct (controller s) as [k|] eqn:Hk; run.
  - apply tell_spec; [done|]. by apply controller_pty.
  - split; [done|by apply told_refl].
Qed.

(** *** Output *)

Lemma attached_fds_spec id s fd : fd ∈ attached_fds os id s <->
  exists c, connections s !! fd = Some c /\ attached_session c = Some id.
Proof.
  unfold attached_fds. rewrite list_elem_of_filter. destruct Hos as [[_ Hord _ _ _] _].
  rewrite (proj2 (Hord _)). split.
  - intros [Ha [c Hc]]. rewrite Hc in Ha. by exists c.
  - intros (c & Hc & Ha). by rewrite Hc.
Qed.

Lemma attached_fds_NoDup id s : NoDup (attached_fds os id s).
Proof. apply NoDup_filter. destruct Hos as [[_ Hord _ _ _] _]. apply Hord. Qed.

Lemma publish_spec batch s : inv C s ->
  runs (publish_output os batch) s (fun r s' => r = Ok tt /\ told s s').
Proof.
  intros Hs. unfold publish_output. run.
  eapply runs_mono.
  { apply (runs_each_ok (told s)); [by apply told_refl|]. intros chunk s1 _ Ht1.
    apply (runs_each_ok (told s)); [done|]. intros fd s2 Hin Ht2.
    eapply runs_mono; [apply tell_spec; [by eapply told_inv|]|].
    - rewrite (told_runtime _ _ Ht2). apply (i_disjoint _ _ Hs).
      apply attached_fds_spec in Hin as (c & Hc & _). by rewrite Hc.
    - cbn beta. intros r s3 [-> Ht3]. split; [done|by eapply told_trans]. }
  cbn beta. intros r s' [-> Ht]. destruct (0 <? _); run; [|done].
  eapply runs_mono; [apply send_control_spec; by eapply told_inv|]. cbn beta.
  intros r s2 [-> Ht2]. split; [done|by eapply told_trans].
Qed.

(** A drained terminal stays registered. *)
Lemma drain_spec fd s : inv C s -> is_Some (ptys s !! fd) ->
  runs (drain_and_publish os fd) s (fun r s' =>
    match r with Ok _ => K C s s' /\ ptys s' = ptys s | Err _ => ~ C end).
Proof.
  intros Hs [id Hfd]. pose proof Hos as [[Hnow _ _ _ _] Hcalm].
  unfold drain_and_publish, on_sessions. run.
  pose proof (HolderRuntime.drain_output_spec (pty_reads os fd) (now_ms os) fd (runtime s) (logs s)
    (i_runtime _ _ Hs) Hnow) as Hd.
  assert (Hok : C -> runs (HolderRuntime.drain_output (pty_reads os fd) (now_ms os) fd)
    (runtime s, logs s) (fun out _ => exists batch, out = Ok batch)).
  { intros HC. eapply HolderRuntime.drain_output_ok; [apply Hs|done|exact Hfd|].
    apply (c_pty_reads os (Hcalm HC)). }
  unfold runs in Hd, Hok.
  destruct (HolderRuntime.drain_output _ _ _ _) as [[[batch|e] [rt' logs']]|]; [| |done].
  2:{ intros HC. by destruct (Hok HC). }
  destruct Hd as (Hw & _ & Hp & _). cbn [fst] in *. set (s1 := set_sessions_and_logs _ s).
  assert (Hi1 : inv C s1).
  { apply (runtime_inv C rt' s) in Hs; [by destruct Hs|done|by rewrite Hp]. }
  eapply runs_mono; [by apply publish_spec|]. cbn beta. intros r s2 [-> Ht].
  split; [|by rewrite (told_runtime _ _ Ht)]. eapply K_trans; [|apply Ht]. by apply K_same.
Qed.

Lemma handle_pty_spec fd events s : inv C s -> is_Some (ptys s !! fd) ->
  runs (handle_pty os fd events) s (survives s).
Proof.
  intros Hs Hfd. unfold handle_pty. pose proof Hos as [_ Hcalm]. run.
  assert (Hdrain : runs (if any events (N.lor EPOLLIN (N.lor EPOLLHUP EPOLLERR))
      then drain_and_publish os fd else mret tt) s (fun r s' =>
    match r with Ok _ => K C s s' /\ ptys s' = ptys s | Err _ => ~ C end)).
  { destruct (any _ _); [by apply drain_spec|]. run. split; [by apply K_refl|done]. }
  eapply runs_mono; [exact Hdrain|]. cbn beta. intros [u|e] s1; [intros [HK Hp]|done].
  destruct (any events EPOLLOUT); run; [|done]. rewrite <- Hp in Hfd. destruct Hfd as [id Hid].
  rewrite runs_unwrap. exists id. split; [exact Hid|]. run. pose proof (proj1 HK) as Hi1.
  destruct (HolderRuntime.pty_session _ _ _ (i_runtime _ _ Hi1) Hid) as (x & p & Hx & _ & _).
  eapply runs_mono.
  { apply (on_runtime_spec C _ s1 (fun r _ => C -> is_ok r = true)); [done|].
    unfold runs. pose proof (HolderRuntime.flush_input_spec (pty_write os) id (runtime s1) x
      (i_runtime _ _ Hi1) Hx) as Hf.
    pose proof (fun HC => HolderRuntime.flush_input_ok (pty_write os) id (runtime s1) x
      (i_runtime _ _ Hi1) Hx (c_pty_write os (Hcalm HC))) as Hok.
    unfold runs in Hf, Hok. destruct (HolderRuntime.flush_input _ _ _) as [[r rt']|]; [|done].
    destruct Hf as (Hw & _ & Hpt & _). by split_and!. }
  cbn beta. intros r s2 (Hi2 & Hv2 & Hc2 & Hr2 & Hok). destruct r as [pending|e].
  2:{ intros HC. by apply Hok in HC. }
  unfold reactor_modify. run. assert (HK2 : K C s s2) by (eapply K_trans; [exact HK|by apply K_same]).
  unfold Reactor.modify. rewrite Hr2. destruct (Reactor.tokens (reactor s1) !! fd) as [token|] eqn:Ht; cbn.
  - destruct (epoll_ctl os fd _) eqn:He; [done|]. intros HC. by rewrite (c_epoll os (Hcalm HC)) in He.
  - intros HC. destruct (i_reactor _ _ Hi1 HC fd) as [t Htok]; [right; by exists id|]. by rewrite Ht in Htok.
Qed.
(** *** The end of sessions *)

(** What [reap_exited] returns can be reported. *)
Definition reportable (e : HolderRuntime.ExitedSession) : Prop :=
  Operation.session_exited_ok (Operation.mkExitedV1 (HolderRuntime.exited_session_id e)
    (HolderRuntime.exited_code e) (HolderRuntime.exited_cwd e)) /\
  (forall x, HolderRuntime.exited_environment e = Some x -> Environment.validate_hard_limits x = Ok tt).

Lemma reportable_encodes e : reportable e ->
  (exists p, Operation.encode_session_exited_event (Operation.mkExitedV1 (HolderRuntime.exited_session_id e)
    (HolderRuntime.exited_code e) (HolderRuntime.exited_cwd e)) = Ok p) /\
  (exists p, Operation.encode_session_exited_event_v2 (Operation.mkExited (HolderRuntime.exited_session_id e)
    (HolderRuntime.exited_code e) (HolderRuntime.exited_cwd e) (HolderRuntime.exited_environment e)) = Ok p).
Proof.
  intros [Hok Henv]. split; [eexists; by apply Operation.encode_session_exited_ok|].
  destruct (ShellState.encode_valid_environment _ Henv) as (t & Ht & Hl).
  unfold Operation.encode_session_exited_event_v2. cbn [Operation.environment Operation.session_id
    Operation.exit_code Operation.cwd].
  rewrite (Operation.encode_session_exited_ok _ Hok), ok_bind, Ht, ok_bind.
  rewrite (proj1 (Operation.put_text t Hl)), ok_bind. by eexists.
Qed.

(** Freeing a seat, or detaching everyone from a session. *)
Lemma release_view id s : inv C s -> inv C (set_writers (delete id) s) /\
  rstep (view s) (view (set_writers (delete id) s)).
Proof.
  intros Hs. pose proof (proj1 (inv_core C s) Hs) as [Hcore Hro].
  assert (Hst : rstep (view s) (view (set_writers (delete id) s))) by exact (s_release (view s) id).
  split; [|done]. apply inv_core. split; [done|by eapply rstep_ok].
Qed.

Lemma release_writer_spec id s : inv C s ->
  runs (release_writer os id) s (fun r s' => r = Ok tt /\ told s s').
Proof.
  intros Hs. unfold release_writer. run. destruct (writers s !! id) as [fd|] eqn:Hw; run.
  2:{ split; [done|by apply told_refl]. }
  destruct (release_view id s Hs) as [Hi Hst]. set (s1 := set_writers _ s) in *.
  destruct (ro_seats _ (i_roster _ _ Hs) id fd Hw) as [k Hk].
  assert (Ht1 : told s s1) by (split_and!; [by apply K_step|done|done]).
  eapply runs_mono; [apply (tell_spec fd); [done|]|].
  - apply (i_disjoint _ _ Hs), member_some. by rewrite Hk.
  - cbn beta. intros r s2 [-> Ht2]. split; [done|by eapply told_trans].
Qed.

Lemma detach_session_view id s : view (detach_session id s) = close id (view s).
Proof.
  unfold view, close, detach_session. cbn. f_equal. apply map_eq. intros fd.
  rewrite !lookup_fmap. destruct (connections s !! fd) as [c|]; [|done]. cbn. f_equal.
  unfold member_of. cbn. by case_bool_decide.
Qed.

Lemma detach_session_spec id s : inv C s -> told s (detach_session id s).
Proof.
  intros Hs. pose proof (proj1 (inv_core C s) Hs) as [Hcore Hro].
  assert (Hst : rstep (view s) (view (detach_session id s))) by (rewrite detach_session_view; constructor).
  assert (Hcs : core C (detach_session id s)).
  { apply (core_same C s); [done..|]. unfold detach_session. cbn. intros fd c Hc.
    apply lookup_fmap_Some in Hc as (c0 & Hc0 & Hl). rewrite Hl. split; [|by eexists].
    pose proof (i_outputs _ _ Hs fd c0 Hl). by case_bool_decide; subst c. }
  split_and!; [apply K_step; [apply inv_core; split; [done|by eapply rstep_ok]|done]|done|].
  intros fd. unfold detach_session. cbn. by rewrite lookup_fmap, fmap_is_Some.
Qed.

(** Every attached client is told, in some order. *)
Lemma tell_all (frame : Connection.t -> Server -> HolderFrame) l s : inv C s -> NoDup l ->
  (forall fd, fd ∈ l -> exists a, members (view s) !! fd = Some (Data, a)) ->
  runs (each (fun target => s ← get; c ← unwrap (connections s !! target);
    queue_or_disconnect os target (frame c s)) l) s (fun r s' => r = Ok tt /\ told s s').
Proof.
  revert s; induction l as [|fd l IH]; intros s Hs Hd Hl; cbn [each].
  { run. split; [done|by apply told_refl]. }
  apply NoDup_cons in Hd as [Hni Hd]. run.
  destruct (Hl fd) as [a Ha]; [by left|]. apply member_lookup in Ha as Hc. destruct Hc as (c & Hc & Hm).
  rewrite runs_unwrap. exists c. split; [done|]. run.
  eapply runs_mono; [by eapply tell_data|]. cbn beta. intros r s1 (-> & Ht1 & Hother & _).
  eapply runs_mono; [apply IH|].
  - by eapply told_inv.
  - done.
  - intros f Hf. destruct (Hl f) as [b Hb]; [by right|]. exists b.
    apply member_lookup in Hb as (x & Hx & Hmx). apply member_lookup. exists x. split; [|done].
    rewrite Hother; [done|]. by intros ->.
  - cbn beta. intros r s2 [-> Ht2]. split; [done|by eapply told_trans].
Qed.

Lemma attached_members id s fd : inv C s -> fd ∈ attached_fds os id s ->
  exists a, members (view s) !! fd = Some (Data, a).
Proof.
  intros Hs (c & Hc & Ha)%attached_fds_spec. exists (Some id).
  assert (Hm : members (view s) !! fd = Some (member_of c)) by (apply member_lookup; eauto).
  unfold member_of in *. rewrite Ha in Hm. by rewrite <- (ro_attached _ (i_roster _ _ Hs) _ _ _ Hm).
Qed.

Lemma report_exit_spec e s : inv C s -> reportable e ->
  ptys s !! HolderRuntime.exited_pty_fd e = None ->
  connections s !! HolderRuntime.exited_pty_fd e = None ->
  runs (report_exit os e) s (fun r s' => r = Ok tt /\ told s s').
Proof.
  intros Hs Hrep Hp Hc. unfold report_exit. run. set (s1 := set_reactor _ s).
  assert (Ht1 : told s s1).
  { destruct Hs as [Hr Ho Hv Hd Ht]. split_and!; [|done|done]. split; [|constructor]. split; try done.
    cbn. intros HC fd Hfd. rewrite lookup_delete_ne; [by apply Ht|]. intros <-.
    rewrite Hp, Hc in Hfd. by destruct Hfd as [[]|[]]. }
  eapply runs_mono; [apply release_writer_spec; by eapply told_inv|]. cbn beta.
  intros r s2 (-> & Ht2). destruct (reportable_encodes e Hrep) as [[p1 E1] [p2 E2]].
  rewrite E1, E2. cbn [protocol]. run.
  assert (Ht : told s s2) by (exact (told_trans _ _ _ Ht1 Ht2)). clear Ht1 Ht2.
  eapply runs_mono.
  { refine (tell_all (fun c s => frame_for HolderFrame.SessionExited 0
      (HolderRuntime.generation (runtime s))
      (if protocol_minor c =? HolderFrame.HOLDER_PROTOCOL_MINOR then p2 else p1)) _ s2 _ _ _).
    - by eapply told_inv.
    - apply attached_fds_NoDup.
    - intros fd. apply attached_members. by eapply told_inv. }
  cbn beta. intros r s3 [-> Ht3]. run. assert (Ht' : told s s3) by (by eapply told_trans).
  assert (Hcl : runs (E := persist_error) (if HolderRuntime.exited_closing e
      then modify (detach_session (HolderRuntime.exited_session_id e)) else mret tt) s3
      (fun r s' => r = Ok tt /\ told s s')).
  { destruct (HolderRuntime.exited_closing e); run; [|done]. split; [done|].
    eapply told_trans; [done|]. apply detach_session_spec. by eapply told_inv. }
  eapply runs_mono; [exact Hcl|]. cbn beta. intros r s4 [-> Ht4]. run.
  destruct (controller s4) as [k|] eqn:Hk; run; [|done].
  eapply runs_mono; [apply tell_spec; [by eapply told_inv|]|].
  - apply controller_pty; [by eapply told_inv|done].
  - cbn beta. intros r s5 [-> Ht5]. split; [done|by eapply told_trans].
Qed.
(** *** The log thread *)

Lemma report_failure_spec x s : inv C s ->
  runs (report_failure os x) s (fun r s' => r = Ok tt /\ K C s s').
Proof.
  intros Hs. unfold report_failure. run.
  destruct (HolderRuntime.mark_log_failed_spec x.1 (runtime s) (i_runtime _ _ Hs)) as (Hw & _ & Hp).
  set (s1 := set_runtime _ s).
  assert (Hi1 : inv C s1) by (apply runtime_inv; [done|done|by rewrite Hp]).
  eapply runs_mono; [by apply send_control_spec|]. cbn beta. intros r s2 [-> [HK _]].
  split; [done|]. eapply K_trans; [|exact HK]. by apply K_same.
Qed.

Lemma handle_log_failures_spec s : inv C s ->
  runs (handle_log_failures os) s (fun r s' => r = Ok tt /\ K C s s').
Proof.
  intros Hs. unfold handle_log_failures. run. cbn [LogWorker.take_failures]. run.
  set (s1 := set_sessions_and_logs _ s).
  assert (Hi1 : inv C s1) by (by destruct Hs).
  apply (runs_each_ok (K C s)); [by apply K_same|]. intros x s2 _ HK.
  eapply runs_mono; [apply report_failure_spec, HK|]. cbn beta. intros r s3 [-> HK3].
  split; [done|by eapply K_trans].
Qed.

(** *** Flushing and accepting *)

Lemma flush_connection_spec fd s : inv C s -> is_Some (connections s !! fd) ->
  runs (flush_connection os fd) s (fun r s' => K C s s' /\ is_Some (connections s' !! fd) /\
    reactor s' = reactor s /\ (C -> is_ok r = true)).
Proof.
  intros Hs [c Hc]. unfold flush_connection. run. rewrite runs_unwrap. exists c. split; [done|]. run.
  destruct (connection_flush_spec (peer_write os) c (i_outputs _ _ Hs fd c Hc))
    as (r & c' & sent & Hfl & Hok & Hm & _ & Hw).
  rewrite runs_unwrap. eexists. split; [exact Hfl|]. run.
  assert (Hi : inv C (set_connections <[fd := c']> s)).
  { apply inv_core. rewrite (view_update fd c) by done. apply inv_core in Hs as [Hcore Hro].
    split; [|done]. apply core_insert; [done|by rewrite Hc|done]. }
  split_and!; [apply K_same; [done|by eapply view_update]| |done|].
  - cbn. rewrite lookup_insert_eq. by eexists.
  - intros HC. apply Hw. destruct Hos as [_ Hcalm]. apply (c_peer_write os (Hcalm HC)).
Qed.

Lemma accept_spec l s : inv C s -> NoDup (map (fun x => x.1.1) l) ->
  (forall x, x ∈ l -> connections s !! x.1.1 = None /\ ptys s !! x.1.1 = None) ->
  runs (each (accept_connection os) l) s (survives s).
Proof.
  revert s; induction l as [|[[fd pid] uid] l IH]; intros s Hs Hd Hl; cbn [each].
  { run. by apply K_refl. }
  cbn in Hd. apply NoDup_cons in Hd as [Hni Hd]. destruct (Hl _ ltac:(left)) as [Hc Hp]. cbn in Hc, Hp.
  change (accept_connection os (fd, pid, uid)) with (reactor_add os fd ≫= fun _ : unit =>
    modify (E := persist_error) (set_connections <[fd := Connection.new pid uid]>)).
  run. eapply runs_mono; [apply (reactor_add_tokens C os Hos fd s)|].
  cbn beta. intros r s1 (Hs1 & Hout & Htok & Hmore). destruct r as [u|e]; [run|by intros HC; apply Hout in HC].
  set (s2 := set_connections _ s1).
  assert (Hv : view s2 = join fd (view s)).
  { unfold s2. rewrite Hs1. unfold view, join. cbn. f_equal. by rewrite fmap_insert. }
  assert (Hst : rstep (view s) (view s2)).
  { rewrite Hv. constructor. apply eq_None_not_Some. intros Hx%member_some. rewrite Hc in Hx. by destruct Hx. }
  assert (Hi2 : inv C s2).
  { destruct Hs as [Hr Ho Hro Hdj Ht]. split.
    - unfold s2. by rewrite Hs1.
    - unfold s2. rewrite Hs1. cbn. apply map_Forall_insert_2; [apply new_output_ok|done].
    - by eapply rstep_ok.
    - unfold s2. rewrite Hs1. cbn. intros f. rewrite lookup_insert_is_Some.
      intros [<-|[_ Hf]]; [done|by apply Hdj].
    - intros HC f. unfold s2. cbn [connections set_connections reactor].
      assert (runtime s1 = runtime s /\ connections s1 = connections s) as [Hrt1 Hcn1] by (by rewrite Hs1).
      change (runtime (set_connections _ s1)) with (runtime s1). rewrite Hrt1, Hcn1, lookup_insert_is_Some.
      intros [[<-|[_ Hf]]|Hf]; [by apply Htok|apply Hmore, Ht; auto..]. }
  eapply runs_mono; [apply IH; [done|done|]|].
  - intros x Hx. destruct (Hl x) as [Hxc Hxp]; [by right|]. unfold s2. rewrite Hs1. cbn.
    split; [|done]. rewrite lookup_insert_ne; [done|]. intros ->. apply Hni, list_elem_of_fmap. by exists x.
  - cbn beta. intros r s' Hr. eapply survives_trans; [|exact Hr]. by apply K_step.
Qed.

Lemma accept_connections_spec s : inv C s -> runs (accept_connections os) s (survives s).
Proof.
  intros Hs. unfold accept_connections. run. pose proof Hos as [[_ _ _ Hacc _] Hcalm].
  eapply runs_mono; [by apply accept_spec; [| |]; [done|apply Hacc..]|]. cbn beta.
  intros [u|e] s' Hr; [run|done]. destruct (accept_end os) eqn:He; [done|].
  intros HC. by rewrite (c_accept os (Hcalm HC)) in He.
Qed.
End step.

(** ** The loop *)

Section loop.
Context (os : nat -> Os) (Hos : forall k, good C (os k)).

(** Dropping a connection that is there. *)
Lemma gone_spec k fd s : inv C s -> is_Some (connections s !! fd) -> K C s (disconnect (os k) fd s).
Proof.
  intros Hs Hf. destruct (disconnect_spec C (os k) (Hos k) fd s Hs) as (Hi & _ & Hv);
    [by apply (i_disjoint _ _ Hs)|].
  apply K_step; [done|]. rewrite Hv. case_bool_decide; by constructor.
Qed.

Lemma process_frames_spec fd frames k s : inv C s -> is_Some (connections s !! fd) ->
  Forall (fun mf => fits (payload mf.2)) frames ->
  runs (process_frames os k fd frames) s (fun r s' => K C s s' /\
    exists alive, r = Ok alive /\ (alive = true -> is_Some (connections s' !! fd))).
Proof.
  revert k s; induction frames as [|[minor frame] frames IH]; intros k s Hs Hf HF; cbn [process_frames].
  { run. split; [by apply K_refl|]. by exists true. }
  inversion HF as [|? ? Hfit HF']; subst. run.
  eapply runs_mono; [by apply (process_frame_spec C (os k) (Hos k))|]. cbn beta.
  intros r s1 [HK1 Hf1]. run. destruct r as [u|e]; cbn [is_ok].
  - eapply runs_mono; [by apply (IH (S k) s1); [apply HK1| |]|]. cbn beta.
    intros r s2 [HK2 Hr]. split; [by eapply K_trans|done].
  - run. split; [|by exists false]. eapply K_trans; [done|]. by apply gone_spec; [apply HK1|].
Qed.

Lemma read_connection_spec fd s : inv C s -> is_Some (connections s !! fd) ->
  runs (read_connection (os 0%nat) fd) s (fun r s' => K C s s' /\ is_Some (connections s' !! fd) /\
    match r with Ok (frames, _) => Forall (fun mf => fits (payload mf.2)) frames | Err _ => True end).
Proof.
  intros Hs [c Hc]. unfold read_connection. run. rewrite runs_unwrap. exists c. split; [done|]. run.
  unfold Connection.read_frames.
  destruct (HolderFrame.receive_chunks _ _) as [[frames acc]|e] eqn:Hr; cbn [protocol mbind result_bind]; run.
  2:{ split_and!; [by apply K_refl|by eexists|done]. }
  assert (HF : Forall (fun mf => fits (payload mf.2)) frames).
  { eapply Forall_impl; [by eapply HolderFrame.receive_chunks_sizes|]. cbn. intros mf Hl.
    unfold fits, isize_max, HolderFrame.MAX_HOLDER_CONTROL_FRAME in *. lia. }
  set (c' := Connection.set_accumulator c acc).
  assert (Hi : inv C (set_connections <[fd := c']> s)).
  { apply inv_core. rewrite (view_update fd c) by done.
    pose proof (i_outputs _ _ Hs fd c Hc) as Ho. apply inv_core in Hs as [Hcore Hro].
    split; [|done]. apply core_insert; [done|by rewrite Hc|done]. }
  assert (HK : K C s (set_connections <[fd := c']> s)) by (apply K_same; [done|by eapply view_update]).
  assert (Hin : is_Some (connections (set_connections <[fd := c']> s) !! fd))
    by (cbn; rewrite lookup_insert_eq; by eexists).
  destruct (Connection.read_last _); run; try done.
Qed.

Lemma handle_connection_spec fd events s : inv C s -> is_Some (connections s !! fd) ->
  runs (handle_connection os fd events) s (survives s).
Proof.
  intros Hs Hf. unfold handle_connection. cbv zeta. rewrite runs_bind.
  assert (Hread : runs (if any events EPOLLIN then attempt (read_connection (os 0%nat) fd)
      else mret (Ok ([], false))) s (fun r s' => exists out, r = Ok out /\ K C s s' /\
    is_Some (connections s' !! fd) /\
    match out with Ok (frames, _) => Forall (fun mf => fits (payload mf.2)) frames | Err _ => True end)).
  { destruct (any _ _); run.
    - eapply runs_mono; [by apply read_connection_spec|]. cbn beta. intros r s' Hr. by exists r.
    - eexists. split; [reflexivity|]. split_and!; [by apply K_refl|done|constructor]. }
  eapply runs_mono; [exact Hread|]. cbn beta. intros r s1 (out & -> & HK1 & Hf1 & HF).
  pose proof (proj1 HK1) as Hi1. destruct out as [[frames closed]|e]; run.
  2:{ eapply K_trans; [exact HK1|]. by apply gone_spec. }
  eapply runs_mono; [by apply process_frames_spec|]. cbn beta. intros r s2 (HK2 & alive & -> & Hal).
  assert (HK12 : K C s s2) by (by eapply K_trans). pose proof (proj1 HK2) as Hi2.
  destruct alive; cbn [negb]; run; [|done]. specialize (Hal eq_refl).
  destruct (_ || closed); run; [eapply K_trans; [exact HK12|]; by apply gone_spec|].
  assert (Hflush : runs (if any events EPOLLOUT then flush_connection (os 0%nat) fd else mret true) s2
    (fun r s' => K C s2 s' /\ is_Some (connections s' !! fd) /\ (C -> is_ok r = true))).
  { destruct (any events EPOLLOUT).
    - eapply runs_mono; [by apply (flush_connection_spec (os 0%nat) (Hos 0%nat))|].
      cbn beta. intros r s' (? & ? & _ & ?). done.
    - run. split_and!; [by apply K_refl|done|done]. }
  eapply runs_mono; [exact Hflush|]. cbn beta. intros r s3 (HK3 & Hf3 & Hok3).
  assert (HK13 : K C s s3) by (by eapply K_trans). pose proof (proj1 HK3) as Hi3.
  destruct r as [open|e]; [|by intros HC; apply Hok3 in HC].
  destruct open; cbn [negb]; run; [|eapply K_trans; [exact HK13|]; by apply gone_spec].
  pose proof Hf3 as [c3 Hc3]. rewrite Hc3. unfold reactor_modify. run. unfold Reactor.modify.
  destruct (Hos 0%nat) as [_ Hcalm].
  destruct (Reactor.tokens (reactor s3) !! fd) eqn:Htok; cbn.
  - destruct (epoll_ctl (os 0%nat) fd _) eqn:He; [done|]. intros HC. by rewrite (c_epoll _ (Hcalm HC)) in He.
  - intros HC. destruct (i_reactor _ _ Hi3 HC fd) as [t Ht]; [by left|]. by rewrite Htok in Ht.
Qed.
Lemma runs_each_with {A} (I : Server -> Prop) (f : Os -> A -> H unit) l k s :
  I s -> (forall j x s', x ∈ l -> I s' ->
    runs (f (os j) x) s' (fun r s'' => match r with Ok _ => I s'' | Err _ => ~ C end)) ->
  runs (each_with f os k l) s (fun r s' => match r with Ok _ => I s' | Err _ => ~ C end).
Proof.
  revert k s; induction l as [|x l IH]; intros k s Hs Hf; [done|]. cbn [each_with].
  apply runs_bind. eapply runs_mono; [apply Hf; [left|done]|].
  intros [u|e] s' Hs'; [|done]. apply IH; [done|]. intros j y s2 Hy. apply Hf. by right.
Qed.

Lemma reap_spec s : inv C s ->
  runs (on_runtime (HolderRuntime.reap_exited (reaping (os 0%nat)) (now_ms (os 0%nat)))) s
    (fun r s' => match r with
     | Err _ => ~ C
     | Ok exited => inv C s' /\ view s' = view s /\
         forall e, e ∈ exited -> reportable e /\ ptys s' !! HolderRuntime.exited_pty_fd e = None /\
           connections s' !! HolderRuntime.exited_pty_fd e = None
     end).
Proof.
  intros Hs. pose proof (Hos 0%nat) as [[Hnow _ _ _ Hexit] Hcalm]. unfold on_runtime. run.
  pose proof (HolderRuntime.reap_exited_spec (reaping (os 0%nat)) (now_ms (os 0%nat)) (runtime s)
    (i_runtime _ _ Hs) Hnow Hexit) as Hr. unfold runs in Hr.
  destruct (HolderRuntime.reap_exited _ _ _) as [[[exited|e] rt']|]; [| |done].
  2:{ intros HC. destruct Hr as [id Hid]. pose proof (c_wait _ (Hcalm HC) id) as Hw. by rewrite Hid in Hw. }
  destruct Hr as (Hw & Hk & Hsub & Hex & _).
  split_and!; [by apply runtime_inv|done|].
  intros e He. destruct (Hex e He) as (x & Hx & _ & Hpf & Hpn & Hc & Hcw & Hen).
  pose proof (HolderRuntime.session_of _ _ _ Hw Hx) as Hok. split_and!; [|done|].
  - split.
    + split_and!; cbn; [apply Hok|by apply Hok|]. rewrite <- Hcw. apply Hok.
    + intros y Hy. rewrite <- Hen in Hy. by apply Hok.
  - cbn. apply eq_None_not_Some. intros Hcn. apply (i_disjoint _ _ Hs) in Hcn.
    unfold HolderRuntime.pty_fd in Hpf. destruct (HolderRuntime.sessions (runtime s) !! _) as [z|] eqn:Hz; [|done].
    cbn in Hpf. destruct (HolderRuntime.pty z) as [p|] eqn:Hp; [|done]. injection Hpf as Hpf.
    assert (Hl : ptys s !! HolderRuntime.exited_pty_fd e = Some (HolderRuntime.exited_session_id e))
      by (apply (HolderRuntime.rt_ptys _ (i_runtime _ _ Hs)); by exists z, p).
    by rewrite Hcn in Hl.
Qed.

Lemma handle_signal_spec s : inv C s -> runs (handle_signal os) s (survives s).
Proof.
  intros Hs. unfold handle_signal. run. pose proof (Hos 0%nat) as [_ Hcalm].
  destruct (signal (os 0%nat)) as [sig|e] eqn:Hsig.
  2:{ intros HC. pose proof (c_signal _ (Hcalm HC)) as Hc. by rewrite Hsig in Hc. }
  destruct (_ || _); [by apply K_refl|]. destruct (_ =? SIGCHLD); [|by apply K_refl]. run.
  eapply runs_mono.
  { apply (runs_each_with (fun s' => K C s s' /\ ptys s' = ptys s)); [split; [by apply K_refl|done]|].
    intros j fd s1 Hin [HK1 Hp1].
    assert (Hfd : is_Some (ptys s1 !! fd)).
    { unfold HolderRuntime.pty_fds in Hin. apply list_elem_of_fmap in Hin as ([f id] & -> & Hin).
      apply elem_of_ordered in Hin. rewrite Hp1. by exists id. }
    eapply runs_mono; [apply (drain_spec (os j) (Hos j) fd s1); [apply HK1|done]|]. cbn beta.
    intros [u|e] s2 Hr; [|done]. destruct Hr as [HK2 Hp2].
    split; [by eapply K_trans|congruence]. }
  cbn beta. intros [u|e] s1 Hr1; run; [destruct Hr1 as [HK1 _]|done].
  eapply runs_mono; [apply reap_spec, HK1|]. cbn beta. intros [exited|e] s2 Hr2; run; [|done].
  destruct Hr2 as (Hi2 & Hv2 & Hex). run.
  assert (HK2 : K C s s2) by (eapply K_trans; [exact HK1|by apply K_same]).
  eapply runs_mono.
  { apply (runs_each_with (told s2)); [by apply told_refl|]. intros j e s3 Hin Ht3.
    destruct (Hex e Hin) as (Hrep & Hp & Hc).
    eapply runs_mono; [apply (report_exit_spec (os j) (Hos j)); [by eapply told_inv|done| |]|].
    - by rewrite (told_runtime _ _ Ht3).
    - apply eq_None_not_Some. intros Hx. apply Ht3 in Hx. rewrite Hc in Hx. by destruct Hx.
    - cbn beta. intros r s4 [-> Ht4]. by eapply told_trans. }
  cbn beta. intros [u'|e] s3 Ht3; run; [|done]. eapply K_trans; [exact HK2|]. by destruct Ht3.
Qed.

Lemma dispatch_spec fds event s : inv C s -> runs (dispatch fds os event) s (survives s).
Proof.
  intros Hs. unfold dispatch. run. destruct (Reactor.fd_for_token _ _) as [fd|]; [|by apply K_refl].
  destruct (fd =? listener_fd fds); [by apply K_refl|].
  destruct (fd =? signal_fd fds); [by apply handle_signal_spec|].
  destruct (fd =? log_fd fds); run.
  { eapply runs_mono; [by apply (handle_log_failures_spec (os 0%nat) (Hos 0%nat))|]. cbn beta.
    intros r s' [-> HK]. done. }
  destruct (HolderRuntime.session_for_pty _ _) as [id|] eqn:Hp; run.
  { eapply runs_mono; [apply (handle_pty_spec (os 0%nat) (Hos 0%nat)); [done|by exists id]|]. cbn beta.
    intros [u|e] s' Hr; [by run|done]. }
  destruct (connections s !! fd) as [c|] eqn:Hc; run; [|by apply K_refl].
  eapply runs_mono; [apply handle_connection_spec; [done|by rewrite Hc]|]. cbn beta.
  intros [u|e] s' Hr; [by run|done].
Qed.
Lemma accept_ready_spec (ready : bool) s : inv C s ->
  runs (if ready then accept_connections (os 0%nat) else mret tt) s (survives s).
Proof.
  intros Hs. destruct ready; [|by apply K_refl].
  by apply (accept_connections_spec (os 0%nat) (Hos 0%nat)).
Qed.
End loop.

(** ** One round: the events of one [epoll_wait] *)

Section round.
Context (os : nat -> nat -> Os) (Hos : forall i j, good C (os i j)).

Lemma dispatch_all_spec fds k events s : inv C s ->
  runs (dispatch_all fds os k events) s (survives s).
Proof.
  revert k s; induction events as [|event events IH]; intros k s Hs; cbn [dispatch_all]; run;
    [by apply K_refl|].
  eapply runs_mono; [by apply (dispatch_spec (os k) (Hos k))|]. cbn beta.
  intros [stop|e] s1 HK; [|done]. destruct stop; run; [done|].
  eapply runs_mono; [apply IH, HK|]. intros r s2. by apply survives_trans.
Qed.

Lemma round_spec fds events s : inv C s -> runs (round fds os events) s (survives s).
Proof.
  intros Hs. unfold round. run.
  eapply runs_mono; [by apply dispatch_all_spec|]. cbn beta.
  intros [stop|e] s1 HK; [|done]. destruct stop; run; [done|].
  eapply runs_mono; [apply (accept_ready_spec (os (length events))); [done|apply HK]|]. cbn beta.
  intros [u|e] s2 HK2; [|done]. run. by eapply K_trans.
Qed.
End round.
End events.
End HolderEvents.
