(* ===== verification/HolderService.v ===== *)
(** * HolderService: what a running holder promises.

    The theorems about whole events of [crates/persist-holder/src/server.rs] and
    [server_handlers.rs]: no round of the event loop panics or breaks the
    tables, who writes to a session, what an attaching client receives, where
    input goes and who gets the output. *)
From S2P Require Import Prelude Bytes Utf8 RingBuffer HolderWire HolderFrame.
From S2P Require Import Environment HolderMessages HolderOperation HolderSession.
From S2P Require Import ShellState Effects ByteQueue HolderReactor HolderConnection.
From S2P Require Import HolderRuntime HolderServer HolderRoster HolderSafety HolderEvents.
From Stdlib Require Import Lia.
Import String.StringSyntax.
Import Environment(SnapshotJson, SnapshotJsonLaws, EnvironmentSnapshot).
Import ShellState(EnvelopeJson, EnvelopeJsonLaws).
Import HolderFrame(HolderFrame, message_type, request_id, payload, flags).
Import Connection(ConnectionRole, Pending, Control, Data, role, attached_session, protocol_minor,
  output).
Import HolderServer Roster HolderSafety.
Local Open Scope N_scope.

Module HolderService.

Section service.
Context `{SnapshotJsonLaws} `{EnvelopeJsonLaws}.

(** The states a holder can be in between two rounds.  [C]: so far the kernel's
    own operations did not fail (see [good]). *)
Inductive running (C : Prop) (fds : Fds) : Server -> Prop :=
| running_new epoll_ctl state_dir instance_id s :
    new epoll_ctl fds state_dir instance_id = Ok s -> running C fds s
| running_round os events s s' : running C fds s -> (forall i j, good C (os i j)) ->
    round fds os events s = Some (Ok false, s') -> running C fds s'.

Lemma new_inv C epoll_ctl fds dir inst s : new epoll_ctl fds dir inst = Ok s -> inv C s.
Proof.
  unfold new, Reactor.add. destruct (epoll_ctl _ _); [|done]. destruct (epoll_ctl _ _); [|done].
  destruct (epoll_ctl _ _); [|done]. intros [= <-]. split; cbn.
  - apply HolderRuntime.new_runtime_wf.
  - apply map_Forall_empty.
  - unfold view. cbn. rewrite fmap_empty. exact empty_ok.
  - intros fd [c Hc]. by rewrite lookup_empty in Hc.
  - intros _ fd [[c Hc]|[c Hc]]; by rewrite lookup_empty in Hc.
Qed.

Lemma running_inv C fds s : running C fds s -> inv C s.
Proof.
  induction 1 as [epoll_ctl dir inst s Hn|os events s s' _ IH Hos Hr]; [by eapply new_inv|].
  pose proof (HolderEvents.round_spec C os Hos fds events s IH) as Hround.
  unfold runs in Hround. rewrite Hr in Hround. apply Hround.
Qed.

(** ** Queueing several frames *)

(** The bytes of a frame, as [encode_frame_with_minor] writes them. *)
Definition packet (minor : N) (frame : HolderFrame) : bytes :=
  HolderFrame.frame_header frame minor (lenN (payload frame)) ++ payload frame.
Definition wire (minor : N) (frames : list HolderFrame) : bytes :=
  concat (map (packet minor) frames).

Definition sendable (frame : HolderFrame) : Prop :=
  flags frame = 0 /\ lenN (payload frame) <= HolderFrame.max_payload (message_type frame).

Lemma packet_encodes minor frame : minor = 1 \/ minor = 2 -> sendable frame ->
  HolderFrame.encode_frame_with_minor frame minor = Ok (packet minor frame).
Proof. intros Hm [Hf Hl]. by apply HolderFrame.encode_frame_iff. Qed.

Section queueing.
Context (C : Prop) (HC : C) (os : Os) (Hos : good C os).

(** The frame's bytes follow what was pending: only the queue of [fd] changes. *)
Definition queued (fd : N) (c : Connection.t) (bs : bytes) (s s' : Server) : Prop :=
  exists c', s' = set_connections <[fd := c']> s /\ output_ok c' /\
    member_of c' = member_of c /\ protocol_minor c' = protocol_minor c /\
    sent_to c' = sent_to c ++ bs.

Definition room (c : Connection.t) (bs : bytes) : bool :=
  lenN (sent_to c) + lenN bs <=? Connection.MAX_PENDING_OUTPUT.

(** A frame is queued exactly when what is pending leaves room for it. *)
Lemma queue_room c frame bs : output_ok c ->
  HolderFrame.encode_frame_with_minor frame (protocol_minor c) = Ok bs ->
  is_ok (Connection.queue c frame) = room c bs.
Proof.
  intros [Hq Ht] He. assert (Htot : ByteQueue.total (output c) = lenN (sent_to c)) by apply Hq.
  unfold Connection.queue, room. rewrite He, <- Htot, <- ByteQueue.push_room by done. cbn.
  by destruct (ByteQueue.push _ _ _) as [q|[]].
Qed.

Lemma queue_one fd frame c s : inv C s -> connections s !! fd = Some c ->
  runs (queue_frame os fd frame) s (fun r s' =>
    match HolderFrame.encode_frame_with_minor frame (protocol_minor c) with
    | Ok bs => if room c bs then r = Ok tt /\ queued fd c bs s s' else is_ok r = false /\ s' = s
    | Err _ => is_ok r = false /\ s' = s
    end).
Proof.
  intros Hs Hc. pose proof (i_outputs _ _ Hs fd c Hc) as Ho. unfold queue_frame. run. rewrite Hc.
  cbn [ok_or]. run.
  destruct (HolderFrame.encode_frame_with_minor frame (protocol_minor c)) as [bs|e] eqn:He.
  2:{ unfold Connection.queue. rewrite He. by run. }
  rewrite <- (queue_room c frame bs Ho He).
  destruct (Connection.queue c frame) as [c'|e] eqn:Hqu; run; [|done].
  destruct (queue_spec c frame c' Ho Hqu) as (Hok & Hmem & Hmin & bs' & He' & Hb).
  rewrite He in He'. injection He' as <-. unfold reactor_modify, Reactor.modify. run. cbn.
  destruct (i_reactor _ _ Hs HC fd) as [token ->]; [left; by rewrite Hc|]. cbn.
  destruct Hos as [_ Hcalm]. rewrite (c_epoll _ (Hcalm HC)). split; [done|]. by exists c'.
Qed.

Lemma queued_inv fd c bs s s' : inv C s -> connections s !! fd = Some c -> queued fd c bs s s' ->
  inv C s' /\ quiet s s'.
Proof.
  intros Hs Hc (c' & -> & Hok & Hm & _ & _).
  assert (Hv : view (set_connections <[fd := c']> s) = view s) by (by eapply view_update).
  split; [|by split_and!]. apply inv_core. rewrite Hv. apply inv_core in Hs as [Hcore Hro].
  split; [|done]. apply core_insert; [done|by rewrite Hc|done].
Qed.

(** A list of frames: all of them, or an error. *)
Lemma queue_each fd frames c s : inv C s -> connections s !! fd = Some c ->
  protocol_minor c = 1 \/ protocol_minor c = 2 -> Forall sendable frames ->
  runs (each (queue_frame os fd) frames) s (fun r s' =>
    if room c (wire (protocol_minor c) frames)
    then r = Ok tt /\ exists c', inv C s' /\ quiet s s' /\ connections s' = <[fd := c']> (connections s) /\
      member_of c' = member_of c /\ sent_to c' = sent_to c ++ wire (protocol_minor c) frames
    else is_ok r = false).
Proof.
  intros Hs Hc Hm Hf. revert c s Hs Hc Hm; induction Hf as [|frame frames Hfr Hf IH]; intros c s Hs Hc Hm;
    cbn [each].
  { unfold wire, room. cbn. rewrite N.add_0_r. run. rewrite (proj2 (N.leb_le _ _)).
    - split; [done|]. exists c. rewrite app_nil_r, insert_id by done. by split_and!.
    - pose proof (i_outputs _ _ Hs fd c Hc) as [Hq Ht]. rewrite (ByteQueue.wf_total _ Hq) in Ht. exact Ht. }
  change (wire (protocol_minor c) (frame :: frames))
    with (packet (protocol_minor c) frame ++ wire (protocol_minor c) frames).
  run. eapply runs_mono; [by apply queue_one|]. cbn beta. intros r s1. rewrite packet_encodes by done.
  unfold room at 1. destruct (N.leb_spec (lenN (sent_to c) + lenN (packet (protocol_minor c) frame))
    Connection.MAX_PENDING_OUTPUT) as [Hl|Hl].
  2:{ intros [Hr ->]. destruct r; [done|]. unfold room. rewrite lenN_app.
    by rewrite (proj2 (N.leb_gt (_ + (_ + _)) _)) by lia. }
  intros [-> Hq]. destruct (queued_inv _ _ _ _ _ Hs Hc Hq) as [Hi1 Hq1].
  destruct Hq as (c1 & Hs1 & Hok & Hmem & Hmin & Hsent).
  eapply runs_mono; [apply (IH c1 s1 Hi1)|].
  - rewrite Hs1. cbn. by rewrite lookup_insert_eq.
  - by rewrite Hmin.
  - cbn beta. intros r s2. unfold room. rewrite Hmin, Hsent, !lenN_app, N.add_assoc. destruct (_ <=? _); [|done].
    intros (-> & c2 & Hi2 & Hq2 & Hc2 & Hm2 & Hs2). split; [done|]. exists c2.
    split_and!; [done|by eapply quiet_trans| |congruence|by rewrite Hs2, <- app_assoc].
    rewrite Hc2, Hs1. cbn. apply insert_insert_eq.
Qed.

(** ** What an attached client receives *)

Definition attach_payload (id : N) : bytes :=
  match Operation.encode_operation_response (operation id Operation.StatusOk "") with
  | Ok p => p | Err _ => [] end.

Definition attach_frames (request generation id : N) (data : bytes) (writing : bool) : list HolderFrame :=
  frame_for HolderFrame.AttachResp request generation (attach_payload id) ::
  map (frame_for HolderFrame.Output 0 generation) (io_chunks (length data) data) ++
  (if writing then [writer_frame HolderFrame.WriteGranted id generation] else []).

Lemma io_chunks_cons fuel b data : io_chunks (S fuel) (b :: data) =
  takeN HolderFrame.MAX_HOLDER_IO_FRAME (b :: data) ::
  io_chunks fuel (dropN HolderFrame.MAX_HOLDER_IO_FRAME (b :: data)).
Proof. reflexivity. Qed.

Lemma dropN_shorter m b (data : bytes) fuel : 0 < m -> (length (b :: data) <= S fuel)%nat ->
  (length (dropN m (b :: data)) <= fuel)%nat.
Proof.
  intros Hm Hl. pose proof (lenN_dropN m (b :: data)) as Hd. rewrite lenN_cons in Hd.
  unfold lenN in Hd. cbn [length] in Hl. lia.
Qed.

Lemma io_chunks_spec fuel data : (length data <= fuel)%nat ->
  concat (io_chunks fuel data) = data /\
  Forall (fun d => lenN d <= HolderFrame.MAX_HOLDER_IO_FRAME) (io_chunks fuel data).
Proof.
  revert data; induction fuel as [|fuel IH]; intros data Hl.
  { destruct data; [by split; [|constructor]|cbn in Hl; lia]. }
  destruct data as [|b data]; [by split; [|constructor]|]. rewrite io_chunks_cons, concat_cons.
  destruct (IH _ (dropN_shorter HolderFrame.MAX_HOLDER_IO_FRAME b data fuel eq_refl Hl)) as [Hc Hf].
  rewrite Hc. split; [apply takeN_dropN|]. constructor; [|done].
  rewrite lenN_takeN. apply N.le_min_l.
Qed.

Lemma attach_payload_ok id : id <> 0 ->
  Operation.encode_operation_response (operation id Operation.StatusOk "") = Ok (attach_payload id) /\
  lenN (attach_payload id) <= 16.
Proof.
  intros Hid. unfold attach_payload, operation, Operation.encode_operation_response. cbn.
  by rewrite (proj2 (N.eqb_neq _ _) Hid).
Qed.

Lemma writer_frame_sendable kind id generation :
  HolderFrame.max_payload kind = HolderFrame.MAX_HOLDER_CONTROL_FRAME ->
  sendable (writer_frame kind id generation).
Proof.
  intros Hk. split; [done|]. cbn. rewrite Hk. unfold Operation.encode_operation_request.
  by destruct (id =? 0).
Qed.

Lemma attach_frames_sendable request generation id data writing : id <> 0 ->
  Forall sendable (attach_frames request generation id data writing).
Proof.
  intros Hid. unfold attach_frames. constructor.
  { split; [done|]. cbn. destruct (attach_payload_ok id Hid) as [_ Hl].
    etransitivity; [exact Hl|done]. }
  apply Forall_app. split.
  - apply Forall_map. destruct (io_chunks_spec (length data) data ltac:(lia)) as [_ Hf].
    eapply Forall_impl; [exact Hf|]. by intros d Hd.
  - destruct writing; [|constructor]. repeat constructor. by apply writer_frame_sendable.
Qed.
Lemma runs_each_app {A} (f : A -> HolderServer.H unit) l1 l2 s Q :
  runs (each f (l1 ++ l2)) s Q <->
  runs (each f l1) s (fun r s' => match r with Ok _ => runs (each f l2) s' Q | Err e => Q (Err e) s' end).
Proof.
  revert s; induction l1 as [|x l1 IH]; intros s; cbn [each app]; [by rewrite runs_ret|].
  rewrite !runs_bind. unfold runs at 1 3. destruct (f x s) as [[[u|e] s']|]; [apply IH|done..].
Qed.

Lemma runs_each_map {A B} (f : B -> HolderServer.H unit) (g : A -> B) l s Q :
  runs (each f (map g l)) s Q <-> runs (each (fun x => f (g x)) l) s Q.
Proof.
  revert s; induction l as [|x l IH]; intros s; cbn [each map]; [done|].
  rewrite !runs_bind. unfold runs at 1 3. destruct (f (g x) s) as [[[u|e] s']|]; [apply IH|done..].
Qed.

(** [attach], once the seat is taken, queues [attach_frames]. *)
Lemma attach_tail_frames fd frame id n data (writing : bool) s Q : inv C s -> id <> 0 ->
  HolderRuntime.replay (runtime s) id n = Some data ->
  runs (each (queue_frame os fd) (attach_frames (request_id frame)
    (HolderRuntime.generation (runtime s)) id data writing)) s Q ->
  runs (_ ← operation_response os fd frame HolderFrame.AttachResp (operation id Operation.StatusOk "");
        s ← get;
        data ← unwrap (HolderRuntime.replay (runtime s) id n);
        _ ← each (fun chunk => queue_frame os fd (frame_for HolderFrame.Output 0
               (HolderRuntime.generation (runtime s)) chunk)) (io_chunks (length data) data);
        if writing then queue_frame os fd (writer_frame HolderFrame.WriteGranted id
             (HolderRuntime.generation (runtime s)))
        else mret tt) s Q.
Proof.
  intros Hs Hid Hd. unfold attach_frames. cbn [each]. run. intros Hq.
  unfold operation_response. run. rewrite (proj1 (attach_payload_ok id Hid)). cbn [protocol]. run.
  unfold respond. run.
  eapply runs_mono; [exact (runs_and _ _ _ _ Hq (queue_frame_spec C os fd _ s Hs))|]. cbn beta.
  intros [u|e] s1 [Hr (_ & (_ & Hrt%rest_runtime & _) & _)]; run; [|done].
  rewrite runs_unwrap. exists data. rewrite Hrt. split; [done|]. run.
  apply runs_each_app in Hr.
  apply (runs_each_map _ (frame_for HolderFrame.Output 0 _)) in Hr.
  eapply runs_mono; [exact Hr|]. cbn beta. intros [u'|e] s2; [|done].
  destruct writing; cbn [each]; [|done]. rewrite runs_bind. intros Hr2.
  eapply runs_mono; [exact Hr2|]. cbn beta. by intros [[]|e] s3.
Qed.

(** Detaching a connection changes no other, and nothing it has to send. *)
Lemma detach_other fd s f : f <> fd -> connections (detach_connection fd s) !! f = connections s !! f.
Proof.
  intros Hf. unfold detach_connection. destruct (connections s !! fd); [|done].
  destruct (attached_session _); [case_bool_decide|]; cbn; by rewrite lookup_alter_ne.
Qed.

Lemma detach_self fd s c : connections s !! fd = Some c ->
  connections (detach_connection fd s) !! fd = Some (Connection.set_attached c None).
Proof.
  intros Hc. unfold detach_connection. rewrite Hc.
  destruct (attached_session _); [case_bool_decide|]; cbn; by rewrite lookup_alter_eq, Hc.
Qed.

Lemma detach_rest fd s : rest (detach_connection fd s) = rest s.
Proof.
  unfold detach_connection. destruct (connections s !! fd); [|done].
  destruct (attached_session _); [|done]. by case_bool_decide.
Qed.

Lemma detach_writer fd s id p : writers s !! id = Some p -> p <> fd ->
  writers (detach_connection fd s) !! id = Some p.
Proof.
  intros Hw Hp. unfold detach_connection. destruct (connections s !! fd); [|done].
  destruct (attached_session _) as [i|]; [|done]. case_bool_decide as Hi; [|done].
  cbn. apply lookup_delete_Some. split; [congruence|done].
Qed.

(** What the previous writer of a session learns when [fd] takes its seat. *)
Definition seat_taken (id fd : N) (s s' : Server) : Prop :=
  writers s' !! id = Some fd /\
  forall p, writers s !! id = Some p -> p <> fd ->
    connections s' !! p = None \/
    delivered p (writer_frame HolderFrame.WriteRevoked id (HolderRuntime.generation (runtime s))) s s'.

Lemma revoked_taken id fd s s' : revoked id fd s s' -> seat_taken id fd s s'.
Proof.
  unfold revoked, seat_taken. destruct (writers s !! id) as [p|] eqn:Hp.
  - intros [Hne Hcase]. split.
    + destruct Hcase as [[Hv _]|Hv]; change (writers s' !! id) with (seats (view s') !! id); rewrite Hv; cbn.
      * apply lookup_insert_eq.
      * apply unseat_lookup. split; [apply lookup_insert_eq|done].
    + intros q [= <-] _. destruct Hcase as [[_ Hd]|Hv]; [by right|left].
      apply eq_None_not_Some. intros Hc%member_some. rewrite Hv in Hc. cbn in Hc.
      rewrite lookup_delete_eq in Hc. by destruct Hc.
  - intros Hv. split; [|done]. change (writers s' !! id) with (seats (view s') !! id). rewrite Hv. cbn.
    apply lookup_insert_eq.
Qed.

(** The answer to an attach request. *)
Definition attached_answer (id fd : N) (writing : bool) (bs : bytes) (c : Connection.t) (s s' : Server) : Prop :=
  runtime s' = runtime s /\
  (exists c', connections s' !! fd = Some c' /\ attached_session c' = Some id /\
    sent_to c' = sent_to c ++ bs) /\
  (writing = true -> seat_taken id fd s s').

Lemma seat_taken_frame id fd s s1 s' s2 : seat_taken id fd s1 s' ->
  (forall p, writers s !! id = Some p -> p <> fd -> writers s1 !! id = Some p) ->
  runtime s1 = runtime s -> (forall f, f <> fd -> connections s1 !! f = connections s !! f) ->
  writers s2 = writers s' -> (forall f, f <> fd -> connections s2 !! f = connections s' !! f) ->
  seat_taken id fd s s2.
Proof.
  intros [Hw Hp] Hw1 Hr Hc1 Hw2 Hc2. split; [by rewrite Hw2|]. intros p Hpw Hne.
  rewrite Hc2 by done. destruct (Hp p (Hw1 p Hpw Hne) Hne) as [Hn|Hd]; [by left|right].
  unfold delivered in *. by rewrite Hc2, <- Hc1, <- Hr.
Qed.

Lemma decode_attach_id p r : Session.decode_attach_request p = Ok r -> Session.attach_session_id r <> 0.
Proof.
  unfold Session.decode_attach_request. intros Hd. inv_ok. subst x.
  apply orb_false_iff in Hif as [Hif _]. by apply N.eqb_neq.
Qed.

Definition writes (r : Session.AttachRequest) : bool :=
  match Session.mode r with Session.ReadWrite => true | Session.ReadOnly => false end.

Lemma attach_answers fd frame r data c s : inv C s -> connections s !! fd = Some c -> role c = Data ->
  protocol_minor c = 1 \/ protocol_minor c = 2 ->
  Session.decode_attach_request (payload frame) = Ok r ->
  HolderRuntime.replay (runtime s) (Session.attach_session_id r) (Session.replay_bytes r) = Some data ->
  let bs := wire (protocol_minor c) (attach_frames (request_id frame)
    (HolderRuntime.generation (runtime s)) (Session.attach_session_id r) data (writes r)) in
  runs (HolderServer.attach os fd frame) s (fun out s' =>
    if room c bs then out = Ok tt /\ attached_answer (Session.attach_session_id r) fd (writes r) bs c s s'
    else is_ok out = false).
Proof.
  intros Hs Hc Hrole Hm Hdec Hdata bs. pose proof (decode_attach_id _ _ Hdec) as Hid.
  unfold HolderServer.attach. run. rewrite Hdec. cbn [protocol]. run.
  set (id := Session.attach_session_id r) in *. change (match Session.mode r with Session.ReadWrite => true | _ => false end) with (writes r).
  set (writing := writes r) in *. clearbody writing.
  destruct (proj2 (replay_is_some (runtime s) id 0)) as [d0 Hd0].
  { apply (replay_is_some _ id (Session.replay_bytes r)). by rewrite Hdata. }
  rewrite Hd0. run. set (s1 := detach_connection fd s). destruct (detach_spec C fd s Hs) as [HK1 Hv1].
  assert (Hf : members (view s) !! fd = Some (Data, attached_session c))
    by (apply member_lookup; exists c; split; [done|by unfold member_of; rewrite Hrole]).
  assert (Hno : forall i, writers s1 !! i <> Some fd).
  { intros i Hi. assert (seats (view s1) !! i = Some fd) as Hi' by done.
    unfold s1 in Hi'. rewrite Hv1 in Hi'. by apply unseat_lookup in Hi' as [_ ?]. }
  assert (Hf1 : members (view s1) !! fd = Some (Data, None)).
  { unfold s1. rewrite Hv1. cbn [members detach]. by rewrite lookup_alter_eq, Hf. }
  assert (Hr1 : rest s1 = rest s) by apply detach_rest.
  assert (Hc1 : connections s1 !! fd = Some (Connection.set_attached c None)) by (by apply detach_self).
  eapply runs_mono with (Q := fun r s2 => r = Ok tt /\ core C s2 /\ rest s2 = rest s1 /\
    connections s2 !! fd = connections s1 !! fd /\ if writing then revoked id fd s1 s2 else s2 = s1).
  { destruct writing; [|run; split_and!; try done; by apply inv_core, HK1].
    eapply runs_mono; [by apply (take_seat_spec C os id fd s1); [apply HK1|]|].
    cbn beta. intros r' s2 (-> & ? & ? & ? & ? & ?). by split_and!. }
  cbn beta. intros r' s2 (-> & Hc2 & Hr2 & Hcon & Hrev). run.
  rewrite runs_unwrap. exists (Connection.set_attached c None). split; [by rewrite Hcon|].
  cbv beta iota. rewrite runs_bind, runs_modify. cbv beta iota.
  destruct (attached_spec C id fd writing s1 s2 _ (proj1 HK1) Hf1 Hno Hc2 (eq_trans Hcon Hc1) Hrev) as [HK2 _].
  set (s3 := update fd _ s2) in *. set (c3 := Connection.set_attached c (Some id)).
  assert (Hc3 : connections s3 !! fd = Some c3) by (cbn; by rewrite lookup_alter_eq, Hcon, Hc1).
  assert (Hrt3 : runtime s3 = runtime s)
    by (change (runtime s3) with (runtime s2); apply rest_runtime; congruence).
  apply (attach_tail_frames fd frame id (Session.replay_bytes r) data writing s3); [apply HK2|done|by rewrite Hrt3|].
  rewrite Hrt3. eapply runs_mono.
  { apply (queue_each fd _ c3 s3); [apply HK2|done|done|by apply attach_frames_sendable]. }
  cbn beta. intros out s4. change (protocol_minor c3) with (protocol_minor c).
  change (room c3) with (room c). fold bs. destruct (room c bs); [|done].
  intros (-> & c4 & _ & (Hv4 & Hr4 & _) & Hc4 & Hm4 & Hs4). split; [done|]. split_and!.
  - rewrite (rest_runtime _ _ Hr4). done.
  - exists c4. rewrite Hc4, lookup_insert_eq. split_and!; [done| |done].
    unfold member_of in Hm4. by injection Hm4.
  - intros ->. eapply (seat_taken_frame id fd s s1 s2 s4); [by apply revoked_taken| | | | |].
    + intros p Hp Hne. by apply detach_writer.
    + by apply rest_runtime.
    + intros f Hne. by apply detach_other.
    + exact (f_equal seats Hv4).
    + intros f Hne. rewrite Hc4, lookup_insert_ne by done. cbn. by rewrite lookup_alter_ne.
Qed.

(** ** What a client that is told several frames has received *)

Fixpoint encoded (minor : N) (frames : list HolderFrame) : result HolderWire.HolderProtocolError bytes :=
  match frames with
  | [] => Ok []
  | frame :: frames' =>
      bs ← HolderFrame.encode_frame_with_minor frame minor;
      rest ← encoded minor frames'; Ok (bs ++ rest)
  end.

(** All of the frames if there is room for them, else the connection is gone. *)
Definition heard (frames : list HolderFrame) (before after : option Connection.t) : Prop :=
  match before with
  | None => after = None
  | Some c =>
      match encoded (protocol_minor c) frames with
      | Ok bs =>
          if room c bs
          then exists c', after = Some c' /\ member_of c' = member_of c /\
            protocol_minor c' = protocol_minor c /\ sent_to c' = sent_to c ++ bs
          else after = None
      | Err _ => after = None
      end
  end.

Lemma room_nil c : output_ok c -> room c [] = true.
Proof.
  intros [Hq Ht]. apply N.leb_le. rewrite lenN_nil, N.add_0_r.
  rewrite (ByteQueue.wf_total _ Hq) in Ht. exact Ht.
Qed.

Lemma room_app c c' bs bs' : sent_to c' = sent_to c ++ bs -> room c' bs' = room c (bs ++ bs').
Proof. intros Hs. unfold room. by rewrite Hs, !lenN_app, N.add_assoc. Qed.

Lemma room_less c bs bs' : room c bs = false -> room c (bs ++ bs') = false.
Proof.
  unfold room. rewrite lenN_app, !N.leb_gt. lia.
Qed.

Lemma heard_nil o : (forall c, o = Some c -> output_ok c) -> heard [] o o.
Proof.
  intros Ho. destruct o as [c|]; cbn; [|done]. rewrite room_nil by (by apply Ho).
  exists c. by rewrite app_nil_r.
Qed.

Lemma heard_cons frame frames o o1 o2 : heard [frame] o o1 -> heard frames o1 o2 -> heard (frame :: frames) o o2.
Proof.
  destruct o as [c|]; cbn; [|intros ->; done].
  destruct (HolderFrame.encode_frame_with_minor frame _) as [bs|]; cbn; [|by intros ->].
  rewrite app_nil_r. destruct (room c bs) eqn:Hr.
  - intros (c1 & -> & Hm & Hp & Hs1). cbn. rewrite Hp. destruct (encoded _ frames) as [bs'|]; cbn; [|done].
    rewrite (room_app c c1 bs bs') by done. destruct (room c (bs ++ bs')); [|done].
    intros (c2 & -> & Hm2 & Hp2 & Hs2). exists c2.
    split_and!; [done|congruence|congruence|by rewrite Hs2, Hs1, <- app_assoc].
  - intros ->. cbn. intros ->. destruct (encoded _ frames); cbn; [|done]. by rewrite room_less.
Qed.

Abbreviation ptys s := (HolderRuntime.pty_to_session (runtime s)).

(** One frame to one client. *)
Lemma tell_one fd frame s : inv C s -> ptys s !! fd = None -> chief (view s) <> Some fd ->
  runs (queue_or_disconnect os fd frame) s (fun r s' => r = Ok tt /\ HolderEvents.told C s s' /\
    controller s' = controller s /\
    (forall f, f <> fd -> connections s' !! f = connections s !! f) /\
    heard [frame] (connections s !! fd) (connections s' !! fd)).
Proof.
  intros Hs Hp Hch. pose proof (proj1 (inv_core C s) Hs) as [Hcore Hro].
  assert (Hheard : runs (queue_or_disconnect os fd frame) s
    (fun r s' => heard [frame] (connections s !! fd) (connections s' !! fd))).
  { unfold queue_or_disconnect. run. destruct (connections s !! fd) as [c|] eqn:Hc.
    - eapply runs_mono; [by apply queue_one|]. cbn beta. intros r s1. cbn [heard encoded].
      destruct (HolderFrame.encode_frame_with_minor frame _) as [bs|]; cbn.
      2:{ intros [Hr ->]. run. rewrite Hr. run. unfold disconnect. rewrite disconnect_eq, controller_view.
          by rewrite bool_decide_eq_false_2, drop_lookup, decide_True. }
      rewrite app_nil_r. destruct (room c bs).
      + intros [-> Hq]. run. cbn [is_ok]. run. destruct Hq as (c' & -> & _ & Hm & Hmin & Hsent). exists c'.
        cbn. by rewrite lookup_insert_eq.
      + intros [Hr ->]. run. rewrite Hr. run. unfold disconnect. rewrite disconnect_eq, controller_view.
        by rewrite bool_decide_eq_false_2, drop_lookup, decide_True.
    - unfold queue_frame. run. rewrite Hc. cbn [ok_or]. run. cbn [is_ok]. run.
      unfold disconnect. rewrite disconnect_eq, controller_view.
      by rewrite bool_decide_eq_false_2, drop_lookup, decide_True. }
  eapply runs_mono.
  { exact (runs_and _ _ _ _ Hheard (runs_and _ _ _ _ (HolderEvents.tell_spec C os Hos fd frame s Hs Hp)
      (queue_or_drop C os fd frame s Hcore Hp (seats_of fd _ (ro_seats _ Hro)) Hch))). }
  cbn beta. intros r s' (Hh & [-> Ht] & _ & _ & _ & Hk & Hother & _). by split_and!.
Qed.

(** One frame to several clients, then several frames. *)
Definition all_heard (frames : list HolderFrame) (l : list N) (s s' : Server) : Prop :=
  forall fd, if decide (fd ∈ l) then heard frames (connections s !! fd) (connections s' !! fd)
    else connections s' !! fd = connections s !! fd.

Definition clients (l : list N) (s : Server) : Prop :=
  forall fd, fd ∈ l -> ptys s !! fd = None /\ chief (view s) <> Some fd.

Lemma clients_told l s s' : clients l s -> HolderEvents.told C s s' -> controller s' = controller s -> clients l s'.
Proof.
  intros Hl Ht Hk fd Hfd. rewrite (HolderEvents.told_runtime C s s' Ht).
  unfold view. cbn. rewrite Hk. by apply Hl.
Qed.

Lemma tell_each frame l s : inv C s -> NoDup l -> clients l s ->
  runs (each (fun fd => queue_or_disconnect os fd frame) l) s (fun r s' => r = Ok tt /\
    HolderEvents.told C s s' /\ controller s' = controller s /\ all_heard [frame] l s s').
Proof.
  revert s; induction l as [|fd l IH]; intros s Hs Hd Hl; cbn [each]; run.
  { split_and!; [done|by apply HolderEvents.told_refl|done|]. intros f. rewrite decide_False; [done|].
    apply not_elem_of_nil. }
  apply NoDup_cons in Hd as [Hni Hd]. destruct (Hl fd) as [Hp Hch]; [by left|].
  eapply runs_mono; [by apply tell_one|]. cbn beta. intros r s1 (-> & Ht1 & Hk1 & Hother & Hh).
  eapply runs_mono; [apply (IH s1)|].
  - by eapply HolderEvents.told_inv.
  - done.
  - eapply clients_told; [|done..]. intros f Hf. apply Hl. by right.
  - cbn beta. intros r s2 (-> & Ht2 & Hk2 & Hall). split_and!; [done| |congruence|].
    { exact (HolderEvents.told_trans C s s1 s2 Ht1 Ht2). }
    intros f. specialize (Hall f). destruct (decide (f = fd)) as [->|Hne].
    + rewrite decide_True by left. rewrite decide_False in Hall by done. by rewrite Hall.
    + rewrite (Hother f Hne) in Hall. destruct (decide (f ∈ l)) as [Hin|Hin].
      * rewrite decide_True by (by right). done.
      * rewrite decide_False; [done|]. by rewrite not_elem_of_cons.
Qed.

Lemma tell_each_all (frame_of : bytes -> HolderFrame) bodies l s : inv C s -> NoDup l -> clients l s ->
  runs (each (fun body => each (fun fd => queue_or_disconnect os fd (frame_of body)) l) bodies) s
    (fun r s' => r = Ok tt /\ HolderEvents.told C s s' /\ controller s' = controller s /\
      all_heard (map frame_of bodies) l s s').
Proof.
  revert s; induction bodies as [|body bodies IH]; intros s Hs Hd Hl; cbn [each map]; run.
  { split_and!; [done|by apply HolderEvents.told_refl|done|]. intros f. case_decide; [|done].
    apply heard_nil. apply (i_outputs _ _ Hs). }
  eapply runs_mono; [by apply tell_each|]. cbn beta. intros r s1 (-> & Ht1 & Hk1 & Hh).
  eapply runs_mono; [apply (IH s1); [by eapply HolderEvents.told_inv|done|by eapply clients_told]|].
  cbn beta. intros r s2 (-> & Ht2 & Hk2 & Hall). split_and!; [done| |congruence|].
  { exact (HolderEvents.told_trans C s s1 s2 Ht1 Ht2). }
  intros f. specialize (Hh f). specialize (Hall f). case_decide; [by eapply heard_cons|congruence].
Qed.

(** ** What a terminal prints *)

(** Each data client of the session got the frames, or had no room for them;
    or the controller was lost, and every data client with it. *)
Definition published (id : N) (frames : list HolderFrame) (s s' : Server) : Prop :=
  forall fd c, connections s !! fd = Some c -> role c = Data ->
    (connections s' !! fd = None /\ controller s <> None /\ controller s' = None) \/
    (if decide (attached_session c = Some id) then heard frames (Some c) (connections s' !! fd)
     else connections s' !! fd = Some c).

Lemma attached_clients id s : inv C s -> clients (attached_fds os id s) s.
Proof.
  intros Hs fd Hfd. destruct (HolderEvents.attached_members C os Hos id s fd Hs Hfd) as [a Ha]. split.
  - apply (i_disjoint _ _ Hs), member_some. by rewrite Ha.
  - intros Hc%(ro_chief _ (i_roster _ _ Hs)). by rewrite Ha in Hc.
Qed.

Lemma all_heard_published id frames s s' : inv C s -> all_heard frames (attached_fds os id s) s s' ->
  published id frames s s'.
Proof.
  intros Hs Hall fd c Hc _. right. specialize (Hall fd).
  destruct (decide (attached_session c = Some id)) as [Ha|Ha].
  - rewrite decide_True in Hall; [by rewrite Hc in Hall|].
    apply (HolderEvents.attached_fds_spec C os Hos). eauto.
  - rewrite decide_False in Hall; [by rewrite Hall|]. intros Hin.
    apply (HolderEvents.attached_fds_spec C os Hos) in Hin as (c' & Hc' & Ha'). congruence.
Qed.

(** The controller is told last. *)
Lemma control_published id frames frame s s1 : inv C s1 -> published id frames s s1 ->
  controller s1 = controller s ->
  runs (send_control os frame) s1 (fun r s' => r = Ok tt /\ HolderEvents.told C s1 s' /\ published id frames s s').
Proof.
  intros Hs Hpub Hk. unfold send_control. run. destruct (controller s1) as [k|] eqn:Hck; run.
  2:{ by split_and!; [|apply HolderEvents.told_refl|]. }
  pose proof (HolderEvents.controller_pty C s1 k Hs Hck) as Hp.
  assert (Hch : chief (view s1) = Some (ctl_fd k)) by (cbn; by rewrite Hck).
  eapply runs_mono.
  { exact (runs_and _ _ _ _ (HolderEvents.tell_spec C os Hos (ctl_fd k) frame s1 Hs Hp)
      (queue_or_disconnect_spec C os Hos (ctl_fd k) frame s1 Hs Hp)). }
  cbn beta. intros r s2 [[-> Ht] (_ & _ & _ & Hcase)]. split_and!; [done..|].
  intros fd c Hc Hr. specialize (Hpub fd c Hc Hr). destruct Hcase as [(Hq & _ & Hother)|Hv].
  - assert (Hne : connections s1 !! fd = None \/ fd <> ctl_fd k).
    { destruct (connections s1 !! fd) as [c1|] eqn:Hc1; [right|by left]. intros ->.
      apply (ro_chief _ (i_roster _ _ Hs)) in Hch. apply member_lookup in Hch as (c2 & Hc2 & Hm2).
      rewrite Hc1 in Hc2. injection Hc2 as <-. injection Hm2 as Hm2 _.
      destruct Hpub as [[Hn _]|Hpub]; [done|]. destruct (decide _).
      - cbn in Hpub. destruct (encoded _ _); [|done]. destruct (room _ _); [|done].
        destruct Hpub as (c' & [= <-] & Hm & _). injection Hm as Hm _. congruence.
      - congruence. }
    assert (Heq : connections s2 !! fd = connections s1 !! fd).
    { destruct Hne as [Hn|Hne]; [|by apply Hother]. rewrite Hn. apply eq_None_not_Some.
      intros Hx. apply Ht in Hx. rewrite Hn in Hx. by destruct Hx. }
    rewrite Heq. destruct Hpub as [(Hn & Hk1 & Hk2)|Hpub]; [|by right].
    by rewrite Hck in Hk2.
  - left. rewrite bool_decide_eq_true_2 in Hv by done. split_and!.
    + apply eq_None_not_Some. intros Hx%member_some. rewrite Hv in Hx. destruct Hx as [m Hm].
      cbn [members dissolve] in Hm. apply map_lookup_filter_Some in Hm as [Hm Hnd].
      apply lookup_delete_Some in Hm as [_ Hm]. apply Hnd.
      apply member_lookup in Hm as (c1 & Hc1 & <-). cbn.
      destruct Hpub as [[Hn _]|Hpub]; [by rewrite Hn in Hc1|]. destruct (decide _).
      * cbn in Hpub. destruct (encoded _ _); [|congruence]. destruct (room _ _); [|congruence].
        destruct Hpub as (c' & Hc' & Hm & _). rewrite Hc1 in Hc'. injection Hc' as <-.
        injection Hm as Hm _. congruence.
      * rewrite Hc1 in Hpub. by injection Hpub as ->.
    + congruence.
    + apply (f_equal chief) in Hv. cbn in Hv. by destruct (controller s2).
Qed.

Lemma publish_published batch s : inv C s ->
  runs (publish_output os batch) s (fun r s' => r = Ok tt /\ HolderEvents.told C s s' /\
    published (HolderRuntime.batch_session_id batch)
      (map (frame_for HolderFrame.Output 0 (HolderRuntime.generation (runtime s)))
        (HolderRuntime.chunks batch)) s s').
Proof.
  intros Hs. unfold publish_output. run. set (id := HolderRuntime.batch_session_id batch).
  eapply runs_mono.
  { apply (tell_each_all (frame_for HolderFrame.Output 0 (HolderRuntime.generation (runtime s))));
      [done|apply HolderEvents.attached_fds_NoDup with C; done|by apply attached_clients]. }
  cbn beta. intros r s1 (-> & Ht & Hk & Hall). apply all_heard_published in Hall; [|done].
  destruct (0 <? _); run; [|by split_and!].
  eapply runs_mono; [apply control_published; [by eapply HolderEvents.told_inv|exact Hall|done]|].
  cbn beta. intros r s2 (-> & Ht2 & Hpub). split_and!; [done| |done].
  exact (HolderEvents.told_trans C s s1 s2 Ht Ht2).
Qed.

(** What the terminal printed is kept for replay, and sent. *)
Definition printed (id : N) (out : list bytes) (s s' : Server) : Prop :=
  (exists x x', HolderRuntime.sessions (runtime s) !! id = Some x /\
     HolderRuntime.sessions (runtime s') !! id = Some x' /\
     RingBuffer.RingBuffer.read_all (HolderRuntime.ring x') =
       RingBuffer.RingBuffer.last_n (RingBuffer.RingBuffer.capacity (HolderRuntime.ring x))
         (RingBuffer.RingBuffer.read_all (HolderRuntime.ring x) ++ concat out)) /\
  published id (map (frame_for HolderFrame.Output 0 (HolderRuntime.generation (runtime s'))) out) s s'.

Lemma drain_printed fd id s : inv C s -> ptys s !! fd = Some id ->
  runs (drain_and_publish os fd) s (fun r s' => r = Ok tt /\
    printed id (HolderRuntime.chunks_of (HolderRuntime.read_chunks (pty_reads os fd))) s s').
Proof.
  intros Hs Hfd. pose proof Hos as [[Hnow _ _ _ _] Hcalm]. unfold drain_and_publish, on_sessions. run.
  pose proof (HolderRuntime.drain_output_spec (pty_reads os fd) (now_ms os) fd (runtime s) (logs s)
    (i_runtime _ _ Hs) Hnow) as Hd.
  pose proof (HolderRuntime.drain_output_ok (pty_reads os fd) (now_ms os) fd (runtime s) (logs s) id
    (i_runtime _ _ Hs) Hnow Hfd (c_pty_reads os (Hcalm HC) fd)) as Hok.
  unfold runs in Hd, Hok.
  destruct (HolderRuntime.drain_output _ _ _ _) as [[out [rt' logs']]|]; [|done]. destruct Hok as [batch ->].
  destruct Hd as (Hw & _ & Hp & Hid & Hch & (x & x' & Hx & Hx' & Hring & _)). cbn [fst] in *.
  assert (id = HolderRuntime.batch_session_id batch) as ->.
  { assert (HolderRuntime.session_for_pty (runtime s) fd = Some id) as Hid' by exact Hfd. congruence. }
  set (s1 := set_sessions_and_logs _ s).
  assert (Hi1 : inv C s1).
  { apply (runtime_inv C rt' s) in Hs; [by destruct Hs|done|by rewrite Hp]. }
  eapply runs_mono; [by apply publish_published|]. cbn beta. intros r s2 (-> & Ht & Hpub).
  split; [done|]. unfold printed. rewrite (HolderEvents.told_runtime C s1 s2 Ht). split.
  - exists x, x'. rewrite <- Hch. by split_and!.
  - by rewrite <- Hch.
Qed.

(** ** What a client types *)

(** The other sessions are not touched. *)
Lemma queue_input_local write now id data rt out rt' :
  HolderRuntime.queue_input write now id data rt = Some (out, rt') ->
  forall j, j <> id -> HolderRuntime.sessions rt' !! j = HolderRuntime.sessions rt !! j.
Proof.
  unfold HolderRuntime.queue_input, mbind, M_bind, get, lift. intros Hq j Hj. revert Hq.
  destruct (HolderRuntime.sessions rt !! id) as [x|]; cbn [ok_or]; [|by intros [= _ <-]].
  destruct (HolderRuntime.exit_code x); [by intros [= _ <-]|].
  destruct data as [|b bs]; [by intros [= _ <-]|].
  destruct (ByteQueue.push _ _ _) as [q|[]]; [|by intros [= _ <-]..]. cbn [modify].
  unfold HolderRuntime.flush_input, mbind, M_bind, get, unwrap. cbn.
  destruct (_ !! id) as [y|]; [|done]. destruct (HolderRuntime.flush_session _ _) as [[[z sent] failed]|]; [|done].
  destruct failed; cbn; intros [= _ <-]; cbn; by rewrite !lookup_insert_ne.
Qed.

(** The bytes go behind what the session's terminal has not taken yet; of all
    these it takes [sent], in order, in successive writes, and what it does not
    take stays. *)
Definition typed (write : nat -> ByteQueue.write_result) (id : N) (data : bytes) (rt rt' : HolderRuntime.Runtime) : Prop :=
  exists x x' sent, HolderRuntime.sessions rt !! id = Some x /\
    HolderRuntime.sessions rt' !! id = Some x' /\
    ByteQueue.pending (HolderRuntime.input x) ++ data = sent ++ ByteQueue.pending (HolderRuntime.input x') /\
    ByteQueue.written write 0 (ByteQueue.pending (HolderRuntime.input x) ++ data) sent
      (ByteQueue.pending (HolderRuntime.input x')).

Definition input_room (id : N) (data : bytes) (rt : HolderRuntime.Runtime) : bool :=
  match HolderRuntime.sessions rt !! id with
  | Some x => lenN (ByteQueue.pending (HolderRuntime.input x)) + lenN data <=? HolderRuntime.MAX_PENDING_INPUT
  | None => false
  end.

Lemma queue_input_exact write now id data rt : HolderRuntime.wf rt -> is_u64 now ->
  HolderRuntime.is_running rt id = true -> data <> [] -> (forall k, write k <> ByteQueue.WriteFailed) ->
  runs (HolderRuntime.queue_input write now id data) rt (fun out rt' =>
    if input_room id data rt
    then (exists pending, out = Ok pending) /\ typed write id data rt rt'
    else is_ok out = false /\ rt' = rt).
Proof.
  intros Hwf Hnow Hrun Hd Hw. pose proof (HolderRuntime.queue_input_spec write now id data rt Hwf Hnow) as Hspec.
  unfold HolderRuntime.is_running in Hrun. unfold input_room.
  destruct (HolderRuntime.sessions rt !! id) as [x|] eqn:Hx; [|done].
  destruct (HolderRuntime.so_input _ _ (HolderRuntime.session_of rt id x Hwf Hx)) as [Hq Ht].
  destruct (HolderRuntime.exit_code x) eqn:Hc; [done|].
  pose proof (ByteQueue.push_room HolderRuntime.MAX_PENDING_INPUT (HolderRuntime.input x) data ltac:(done)) as Hroom.
  rewrite (ByteQueue.wf_total _ Hq) in Hroom. rewrite <- Hroom.
  assert (Hout : runs (HolderRuntime.queue_input write now id data) rt (fun out rt' =>
    if is_ok (ByteQueue.push HolderRuntime.MAX_PENDING_INPUT (HolderRuntime.input x) data)
    then is_ok out = true else is_ok out = false /\ rt' = rt)).
  { unfold HolderRuntime.queue_input. run. rewrite Hx. cbn [ok_or]. run. rewrite Hc.
    destruct data as [|b bs]; [done|].
    destruct (ByteQueue.push _ _ _) as [q|[]] eqn:Hp; run; [|done..].
    destruct (ByteQueue.push_wf _ _ _ _ Hq Hd Hp) as (Hq' & _ & Ht').
    eapply (HolderRuntime.flush_input_ok write id _ (HolderRuntime.set_input x q now)); [|cbn; by rewrite lookup_insert_eq|done].
    eapply HolderRuntime.update_wf; [done|exact Hx|done|].
    apply HolderRuntime.set_input_ok; [by eapply HolderRuntime.session_of|done..]. }
  eapply runs_mono; [exact (runs_and _ _ _ _ Hspec Hout)|]. cbn beta. intros out rt' [(_ & _ & _ & Hcase) Hok].
  destruct (is_ok (ByteQueue.push _ _ _)); [|done]. destruct out as [pending|e]; [|done].
  split; [by exists pending|]. destruct Hcase as (y & x' & sent & Hy & Hx' & Hsent & Hwrit & _).
  injection Hy as <-. by exists x, x', sent.
Qed.

Lemma input_exact fd frame c s : inv C s -> connections s !! fd = Some c -> payload frame <> [] ->
  runs (handle_input os fd frame) s (fun out s' =>
    connections s' = connections s /\ writers s' = writers s /\ controller s' = controller s /\
    match attached_session c with
    | Some id =>
        if bool_decide (writers s !! id = Some fd) && HolderRuntime.is_running (runtime s) id &&
           input_room id (payload frame) (runtime s)
        then out = Ok tt /\ typed (pty_write os) id (payload frame) (runtime s) (runtime s') /\
          (forall j, j <> id -> HolderRuntime.sessions (runtime s') !! j = HolderRuntime.sessions (runtime s) !! j)
        else is_ok out = false /\ s' = s
    | None => is_ok out = false /\ s' = s
    end).
Proof.
  intros Hs Hc Hd. pose proof Hos as [[Hnow _ _ _ _] Hcalm]. specialize (Hcalm HC).
  unfold handle_input, require_writer. run. rewrite runs_unwrap. exists c. split; [done|]. run.
  destruct (attached_session c) as [id|]; cbn [ok_or]; run; [|done].
  destruct (bool_decide (writers s !! id = Some fd)); cbn [negb orb andb]; run; [|done].
  destruct (HolderRuntime.is_running (runtime s) id) eqn:Hr; cbn [negb andb]; run; [|done].
  unfold on_runtime. run.
  pose proof (queue_input_exact (pty_write os) (now_ms os) id (payload frame) (runtime s) (i_runtime _ _ Hs)
    Hnow Hr Hd (c_pty_write _ Hcalm)) as Hq.
  pose proof (HolderRuntime.queue_input_spec (pty_write os) (now_ms os) id (payload frame) (runtime s)
    (i_runtime _ _ Hs) Hnow) as Hw. unfold runs in Hq, Hw.
  destruct (HolderRuntime.queue_input _ _ _ _ _) as [[out rt']|] eqn:He; [|done].
  pose proof (queue_input_local _ _ _ _ _ _ _ He) as Hlocal.
  destruct (input_room id (payload frame) (runtime s)).
  2:{ destruct Hq as [Hout ->]. destruct out; [done|]. rewrite set_runtime_id. run. by split_and!. }
  destruct Hq as [[pending ->] Ht]. destruct Hw as (Hwf & _ & Hp & _). run. cbn [runtime set_runtime].
  destruct (HolderRuntime.pty_fd rt' id) as [pfd|] eqn:Hfd; [|run; by split_and!].
  unfold reactor_modify, Reactor.modify. run. cbn.
  assert (is_Some (Reactor.tokens (reactor s) !! pfd)) as [token ->].
  { apply (i_reactor _ _ Hs HC). right. rewrite <- Hp. exists id. apply (HolderRuntime.rt_ptys _ Hwf).
    unfold HolderRuntime.pty_fd in Hfd. destruct (HolderRuntime.sessions rt' !! id) as [y|]; [|done]. cbn in Hfd.
    destruct (HolderRuntime.pty y) as [q|] eqn:Hy; [|done]. injection Hfd as Hfd. by exists y, q. }
  cbn. rewrite (c_epoll os Hcalm). by split_and!.
Qed.

Lemma wire_app minor l1 l2 : wire minor (l1 ++ l2) = wire minor l1 ++ wire minor l2.
Proof. unfold wire. by rewrite map_app, concat_app. Qed.

(** The replay is only a part of the answer. *)
Lemma attach_wire_size minor request generation id data writing :
  lenN data < lenN (wire minor (attach_frames request generation id data writing)).
Proof.
  unfold attach_frames. set (first := frame_for _ _ _ _). set (last := if writing then _ else _).
  assert (Hd : lenN data <= lenN (wire minor (map (frame_for HolderFrame.Output 0 generation)
    (io_chunks (length data) data)))).
  { destruct (io_chunks_spec (length data) data ltac:(lia)) as [Hc _]. rewrite <- Hc at 1. clear Hc.
    induction (io_chunks _ _) as [|d l IH]; [done|]. cbn [concat map].
    change (wire minor (?f :: ?l)) with (packet minor f ++ wire minor l).
    rewrite !lenN_app. cbn [payload frame_for]. unfold packet at 1. rewrite lenN_app. cbn [payload frame_for]. lia. }
  change (wire minor (first :: ?l)) with (packet minor first ++ wire minor l).
  rewrite wire_app, !lenN_app. unfold packet at 1. rewrite lenN_app, HolderFrame.lenN_frame_header.
  unfold HolderFrame.HOLDER_HEADER_SIZE. lia.
Qed.

Lemma dropped_stays l s fd : is_Some (connections (fold_left (fun s f => drop_connection f s) l s) !! fd) ->
  is_Some (connections s !! fd).
Proof.
  revert s; induction l as [|f l IH]; intros s; [done|]. cbn [fold_left]. intros Hx%IH.
  rewrite drop_lookup in Hx. case_decide; [by destruct Hx|done].
Qed.
End queueing.

(** ** Who is let in *)

Section hello.
Context (C : Prop) (os : Os) (Hos : good C os).

(** Disconnecting removes connections and changes none. *)
Lemma fold_drop_lookup l s f c : connections (fold_left (fun s g => drop_connection g s) l s) !! f = Some c ->
  connections s !! f = Some c.
Proof.
  revert s; induction l as [|g l IH]; intros s; [done|]. cbn [fold_left]. intros Hx%IH.
  rewrite drop_lookup in Hx. by case_decide.
Qed.

Lemma disconnect_lookup fd s f c : connections (disconnect os fd s) !! f = Some c ->
  connections s !! f = Some c.
Proof.
  unfold disconnect. rewrite disconnect_eq. destruct (is_controller _ _); [intros Hx%fold_drop_lookup|intros Hx].
  all: change (connections (drop_connection fd s) !! f = Some c) in Hx;
    rewrite drop_lookup in Hx; by case_decide.
Qed.

Lemma drop_closed_lookup s f : runs (drop_closed_controller os) s (fun _ s' =>
  forall c, connections s' !! f = Some c -> connections s !! f = Some c).
Proof.
  unfold drop_closed_controller. run. destruct (controller s); [|by run].
  destruct (connections s !! _); [|by run]. destruct (closes_within _ _); [|by run]. run.
  apply disconnect_lookup.
Qed.

Definition is_pending (fd : N) (s : Server) : Prop := exists a, members (view s) !! fd = Some (Pending, a).

Lemma pending_role fd s c : is_pending fd s -> connections s !! fd = Some c -> role c = Pending.
Proof.
  intros [a Ha] Hc. apply member_lookup in Ha as (c' & Hc' & Hm). rewrite Hc in Hc'. injection Hc' as <-.
  by injection Hm.
Qed.

Lemma quiet_pending fd s s' : quiet s s' -> is_pending fd s -> is_pending fd s'.
Proof. intros (Hv & _). unfold is_pending. by rewrite Hv. Qed.

Lemma pending_update fd f s : is_pending fd s -> (forall c, role (f c) = role c) ->
  is_pending fd (update fd f s).
Proof.
  intros [a Ha] Hf. apply member_lookup in Ha as (c & Hc & Hm). injection Hm as Hm _.
  exists (attached_session (f c)). apply member_lookup. exists (f c). cbn. rewrite lookup_alter_eq, Hc.
  split; [done|]. unfold member_of. by rewrite Hf, Hm.
Qed.

Lemma update_role fd r s : is_pending fd s ->
  forall c, connections (update fd (fun c => Connection.set_role c r) s) !! fd = Some c -> role c = r.
Proof.
  intros [a Ha] c. apply member_lookup in Ha as (c0 & Hc0 & _). cbn. rewrite lookup_alter_eq, Hc0.
  by intros [= <-].
Qed.

(** What a connection that is no longer pending has shown. *)
Definition let_in (fd minor : N) (frame : HolderFrame) (c : Connection.t) (s s' : Server) : Prop :=
  forall c', connections s' !! fd = Some c' -> role c' <> Pending ->
    (role c' = Control /\ exists h, Handshake.decode_control_hello (payload frame) = Ok h /\
       Handshake.uid h = Connection.peer_uid c /\ Handshake.daemon_pid h = Connection.peer_pid c /\
       controller s' = Some (mkController fd (Handshake.daemon_pid h) (Handshake.nonce h)
         HolderFrame.HOLDER_PROTOCOL_BASELINE_MINOR 0)) \/
    (role c' = Data /\ exists h k, Handshake.decode_data_hello (payload frame) = Ok h /\ controller s = Some k /\
       Handshake.data_daemon_pid h = Connection.peer_pid c /\ Handshake.data_daemon_pid h = ctl_pid k /\
       Handshake.data_instance_id h = instance_id s /\ Handshake.data_nonce h = ctl_nonce k /\ minor = ctl_minor k).

Lemma pending_not_in fd minor frame c s s' : is_pending fd s' -> let_in fd minor frame c s s'.
Proof. intros Hp c' Hc' Hr. destruct Hr. by eapply pending_role. Qed.

Lemma control_hello_in fd minor frame c s : inv C s -> connections s !! fd = Some c -> role c = Pending ->
  runs (handle_control_hello os fd minor frame) s (fun _ s' => let_in fd minor frame c s s').
Proof.
  intros Hs Hc Hr. pose proof (pending_member C fd s c Hs Hc Hr) as Hm.
  unfold handle_control_hello. destruct (negb _); run; [apply pending_not_in; by exists None|].
  eapply runs_mono.
  { exact (runs_and _ _ _ _ (drop_closed_spec C os Hos fd None s Hs Hm) (drop_closed_lookup s fd)). }
  cbn beta. intros r s1 [(-> & [Hi1 _] & Hm1) Hl]. run.
  assert (Hp1 : is_pending fd s1) by (by exists None).
  destruct (Handshake.decode_control_hello (payload frame)) as [h|] eqn:Hd; cbn [protocol]; run;
    [|by apply pending_not_in].
  apply member_lookup in Hm1 as (c1 & Hc1 & _). pose proof (Hl c1 Hc1) as Hc1'. rewrite Hc in Hc1'.
  injection Hc1' as <-. rewrite runs_unwrap. exists c. split; [done|]. run.
  match goal with |- context [queue_frame _ _ ?f] => generalize f; intros ack end.
  set (status := if _ : bool then _ else _).
  eapply runs_mono; [by apply (queue_frame_spec C os fd ack)|]. cbn beta. intros r s2 (Hi2 & Hq2 & _).
  pose proof (quiet_pending fd s1 s2 Hq2 Hp1) as Hp2. destruct r as [u|e]; [|by apply pending_not_in].
  destruct status eqn:Hst; try (run; apply pending_not_in; by apply pending_update).
  run. intros c' Hc' _. left. split; [exact (update_role fd Control s2 Hp2 c' Hc')|]. exists h.
  unfold status in Hst. destruct (_ || _) eqn:Hb; [done|]. apply orb_false_iff in Hb as [Hu Hpid].
  apply negb_false_iff, N.eqb_eq in Hu, Hpid. by split_and!.
Qed.

Lemma data_hello_in fd minor frame c s : inv C s -> connections s !! fd = Some c -> role c = Pending ->
  runs (handle_data_hello os fd minor frame) s (fun _ s' => let_in fd minor frame c s s').
Proof.
  intros Hs Hc Hr. pose proof (pending_member C fd s c Hs Hc Hr) as Hm.
  assert (Hp : is_pending fd s) by (by exists None). unfold handle_data_hello. run.
  destruct (Handshake.decode_data_hello (payload frame)) as [h|] eqn:Hd; cbn [protocol]; run;
    [|by apply pending_not_in].
  rewrite runs_unwrap. exists c. split; [done|]. run.
  match goal with |- context [queue_frame _ _ ?f] => generalize f; intros ack end.
  destruct (data_hello_accepted s (Connection.peer_pid c) minor h) eqn:Ha; run.
  - set (s1 := update fd _ s). assert (Hi1 : inv C s1).
    { destruct (update_same_spec C fd (fun c => Connection.set_protocol_minor c minor) s) as ([? _] & _); done. }
    eapply runs_mono; [by apply (queue_frame_spec C os fd ack)|]. cbn beta. intros r s2 (Hi2 & Hq2 & _).
    assert (Hp1 : is_pending fd s1) by (by apply pending_update).
    pose proof (quiet_pending fd s1 s2 Hq2 Hp1) as Hp2.
    destruct r as [u|e]; [|by apply pending_not_in]. run. intros c' Hc' _. right.
    split; [exact (update_role fd Data s2 Hp2 c' Hc')|]. exists h.
    unfold data_hello_accepted in Ha. destruct (controller s) as [k|]; [|done]. exists k.
    repeat (apply andb_prop in Ha as [Ha ?]). 
    repeat match goal with H : bool_decide _ = true |- _ => apply bool_decide_eq_true in H
      | H : (_ =? _) = true |- _ => apply N.eqb_eq in H end. by split_and!.
  - eapply runs_mono; [by apply (queue_frame_spec C os fd ack)|]. cbn beta. intros r s2 (Hi2 & Hq2 & _).
    pose proof (quiet_pending fd s s2 Hq2 Hp) as Hp2.
    destruct r as [u|e]; [|by apply pending_not_in]. run. apply pending_not_in. by apply pending_update.
Qed.
End hello.

(** ** The promises *)

(** C2: Whatever the clients send, whatever order the events come in and
    whatever the kernel answers, a round of a running holder does not panic;
    while the kernel's own operations do not fail it also returns, keeps
    the invariant, and moves the tables only by steps of the roster. *)
Theorem holder_survives C fds os events s :
  running C fds s -> (forall i j, good C (os i j)) ->
  exists out s', round fds os events s = Some (out, s') /\
    match out with
    | Ok _ => inv C s' /\ rsteps (view s) (view s')
    | Err _ => ~ C
    end.
Proof.
  intros Hs%running_inv Hos. apply runs_eq. exact (HolderEvents.round_spec C os Hos fds events s Hs).
Qed.

(** C3: In every state of a running holder, the writer of a session is a data
    connection attached to this session, there is at most one controller, which
    is the controller on record, and without a controller nobody is connected
    for data and nobody writes. *)
Theorem tables_agree C fds s : running C fds s ->
  (forall id fd, writers s !! id = Some fd ->
     exists c, connections s !! fd = Some c /\ role c = Data /\ attached_session c = Some id) /\
  (forall fd c, connections s !! fd = Some c -> role c = Control ->
     exists k, controller s = Some k /\ ctl_fd k = fd) /\
  (controller s = None -> writers s = ∅ /\
     forall fd c, connections s !! fd = Some c -> role c = Pending /\ attached_session c = None).
Proof.
  intros Hs%running_inv. pose proof (i_roster _ _ Hs) as Hro.
  assert (Hm : forall fd c, connections s !! fd = Some c -> members (view s) !! fd = Some (member_of c))
    by (intros; apply member_lookup; eauto).
  assert (Hw : forall id fd, writers s !! id = Some fd ->
    exists c, connections s !! fd = Some c /\ role c = Data /\ attached_session c = Some id).
  { intros id fd Hw. destruct (ro_seats _ Hro id fd Hw) as [k Hk]. pose proof (ro_attached _ Hro _ _ _ Hk) as ->.
    apply member_lookup in Hk as (c & Hc & [= Hr Ha]). eauto. }
  split_and!; [exact Hw| |].
  - intros fd c Hc Hr. pose proof (Hm fd c Hc) as Hk. unfold member_of in Hk. rewrite Hr in Hk.
    apply (ro_control _ Hro) in Hk. cbn in Hk. destruct (controller s) as [k|]; [|done].
    injection Hk as Hk. by exists k.
  - intros Hn. assert (Hch : chief (view s) = None) by (cbn; by rewrite Hn).
    assert (Hnd : forall fd c, connections s !! fd = Some c -> role c <> Data).
    { intros fd c Hc Hr. pose proof (Hm fd c Hc) as Hk. unfold member_of in Hk. rewrite Hr in Hk.
      by apply (ro_data _ Hro) in Hk. }
    split.
    + apply map_eq. intros id. rewrite lookup_empty. apply eq_None_not_Some. intros [fd Hfd].
      destruct (Hw id fd Hfd) as (c & Hc & Hr & _). by apply (Hnd fd c).
    + intros fd c Hc. pose proof (Hm fd c Hc) as Hk. unfold member_of in Hk.
      destruct (role c) eqn:Hr; [|by apply (ro_control _ Hro) in Hk; rewrite Hch in Hk|by destruct (Hnd fd c Hc)].
      split; [done|]. destruct (attached_session c) as [id|]; [|done]. by apply (ro_attached _ Hro) in Hk.
Qed.

(** C23: A connection that has just been accepted can only say hello.  It becomes
    the controller by naming the user and the process the kernel knows it as,
    and a data connection only as this same process, by naming the holder's
    instance and the controller's nonce and protocol version. *)
Theorem hello_authorises C fds os s fd minor frame c :
  running C fds s -> good C os -> connections s !! fd = Some c -> role c = Pending ->
  runs (process_frame os fd minor frame) s (fun out s' => let_in fd minor frame c s s' /\
    (out = Ok tt -> message_type frame = HolderFrame.ControlHello \/ message_type frame = HolderFrame.DataHello)).
Proof.
  intros Hs%running_inv Hos Hc Hr. unfold process_frame. run. rewrite runs_unwrap.
  exists c. split; [done|]. cbv beta iota. rewrite Hr. unfold handle_hello.
  assert (Hp : is_pending fd s) by (exists None; by eapply pending_member).
  destruct (message_type frame); try (run; split; [by apply pending_not_in|done]).
  - eapply runs_mono; [by apply (control_hello_in C os Hos fd minor frame c s)|]. cbn beta. intros; auto.
  - eapply runs_mono; [by apply (data_hello_in C os fd minor frame c s)|]. cbn beta. intros; auto.
Qed.

(** C12: A data client that attaches to a session receives, after what was
    already pending for it, the response, the end of the session's output and,
    when it asked to write, the grant; it then holds the write seat, and the
    previous writer is told so or dropped.  All of this happens exactly when
    the answer fits the client's output queue. *)
Theorem attach_takes_over fds os s fd frame r data c :
  running True fds s -> good True os -> connections s !! fd = Some c -> role c = Data ->
  protocol_minor c = 1 \/ protocol_minor c = 2 -> message_type frame = HolderFrame.Attach ->
  Session.decode_attach_request (payload frame) = Ok r ->
  HolderRuntime.replay (runtime s) (Session.attach_session_id r) (Session.replay_bytes r) = Some data ->
  let bs := wire (protocol_minor c) (attach_frames (request_id frame)
    (HolderRuntime.generation (runtime s)) (Session.attach_session_id r) data (writes r)) in
  runs (process_frame os fd (protocol_minor c) frame) s (fun out s' =>
    if room c bs
    then out = Ok tt /\ attached_answer (Session.attach_session_id r) fd (writes r) bs c s s'
    else is_ok out = false).
Proof.
  intros Hs%running_inv Hos Hc Hr Hm Ht Hd Hdata. unfold process_frame. run. rewrite runs_unwrap.
  exists c. split; [done|]. cbv beta iota. rewrite Hr, N.eqb_refl. cbn [negb]. unfold handle_data. rewrite Ht.
  by apply (attach_answers True I os Hos).
Qed.

(** A data client whose session has more replay to send than a client's
    output queue holds is disconnected by its attach request, whatever was
    pending for it. *)
Theorem large_replay_disconnects os k s fd frame r data c :
  inv True s -> (forall i, good True (os i)) -> connections s !! fd = Some c -> role c = Data ->
  protocol_minor c = 1 \/ protocol_minor c = 2 -> message_type frame = HolderFrame.Attach ->
  Session.decode_attach_request (payload frame) = Ok r ->
  HolderRuntime.replay (runtime s) (Session.attach_session_id r) (Session.replay_bytes r) = Some data ->
  Connection.MAX_PENDING_OUTPUT <= lenN data ->
  runs (process_frames os k fd [(protocol_minor c, frame)]) s (fun out s' =>
    out = Ok false /\ connections s' !! fd = None).
Proof.
  intros Hs Hos Hc Hr Hm Ht Hd Hdata Hl. cbn [process_frames]. run.
  assert (Hsome : is_Some (connections s !! fd)) by (by rewrite Hc).
  set (bs := wire (protocol_minor c) (attach_frames (request_id frame)
    (HolderRuntime.generation (runtime s)) (Session.attach_session_id r) data (writes r))).
  assert (Hroom : room c bs = false).
  { apply N.leb_gt. unfold bs. pose proof (attach_wire_size (protocol_minor c) (request_id frame)
      (HolderRuntime.generation (runtime s)) (Session.attach_session_id r) data (writes r)). lia. }
  assert (Hmember : members (view s) !! fd = Some (Data, attached_session c))
    by (apply member_lookup; exists c; split; [done|by unfold member_of; rewrite Hr]).
  assert (Hout : runs (process_frame (os k) fd (protocol_minor c) frame) s (fun out s' =>
    is_ok out = false /\ handles True fd s out s')).
  { unfold process_frame. run. rewrite runs_unwrap.
    exists c. split; [done|]. cbv beta iota. rewrite Hr, N.eqb_refl. cbn [negb]. unfold handle_data. rewrite Ht.
    pose proof (attach_answers True I (os k) (Hos k) fd frame r data c s Hs Hc Hr Hm Hd Hdata) as Ha.
    cbv zeta in Ha. fold bs in Ha. rewrite Hroom in Ha.
    exact (runs_and _ _ _ _ Ha (attach_spec True (os k) fd frame _ s Hs Hmember)). }
  eapply runs_mono; [exact Hout|]. cbn beta. intros out s1 [Hok [[Hi _] Hs1]]. run. rewrite Hok. run.
  split; [done|]. unfold disconnect. rewrite disconnect_eq. destruct (is_controller _ _).
  2:{ by rewrite drop_lookup, decide_True. }
  cbv zeta. apply eq_None_not_Some. intros Hx. apply dropped_stays in Hx.
  change (is_Some (connections (drop_connection fd s1) !! fd)) in Hx.
  rewrite drop_lookup, decide_True in Hx by done. by destruct Hx.
Qed.

(** C13: What a session's terminal prints is kept for replay (the last bytes
    up to the buffer's capacity) and sent, in order, to every client
    attached to the session; a client without room for all of it is dropped,
    and no other data client is touched unless the controller is lost. *)
Theorem output_reaches_clients fds os s fd id :
  running True fds s -> good True os -> HolderRuntime.session_for_pty (runtime s) fd = Some id ->
  runs (drain_and_publish os fd) s (fun out s' => out = Ok tt /\
    printed id (HolderRuntime.chunks_of (HolderRuntime.read_chunks (pty_reads os fd))) s s').
Proof. intros Hs%running_inv Hos Hfd. by apply (drain_printed True I os Hos). Qed.

(** C14: Input of the writer of a running session goes behind what the
    session's terminal has not taken yet, if there is room for all of it.  The
    terminal is offered these bytes in order, until it takes no more; exactly
    those that it did not take stay queued, and no other session is touched.  Any
    other input changes nothing and is refused. *)
Theorem input_reaches_session fds os s fd frame c :
  running True fds s -> good True os -> connections s !! fd = Some c -> role c = Data ->
  message_type frame = HolderFrame.Input -> payload frame <> [] ->
  runs (process_frame os fd (protocol_minor c) frame) s (fun out s' =>
    connections s' = connections s /\ writers s' = writers s /\ controller s' = controller s /\
    match attached_session c with
    | Some id =>
        if bool_decide (writers s !! id = Some fd) && HolderRuntime.is_running (runtime s) id &&
           input_room id (payload frame) (runtime s)
        then out = Ok tt /\ typed (pty_write os) id (payload frame) (runtime s) (runtime s') /\
          (forall j, j <> id -> HolderRuntime.sessions (runtime s') !! j = HolderRuntime.sessions (runtime s) !! j)
        else is_ok out = false /\ s' = s
    | None => is_ok out = false /\ s' = s
    end).
Proof.
  intros Hs%running_inv Hos Hc Hr Ht Hp. unfold process_frame. run. rewrite runs_unwrap.
  exists c. split; [done|]. cbv beta iota. rewrite Hr, N.eqb_refl. cbn [negb]. unfold handle_data. rewrite Ht.
  by apply (input_exact True I os Hos).
Qed.

(** Only the writer types, resizes or signals: such a frame of a client
    that does not hold the write seat of the running session it is attached to
    is refused and changes nothing. *)
Theorem only_writer_acts os s fd minor frame c :
  connections s !! fd = Some c -> role c = Data ->
  (message_type frame = HolderFrame.Input \/ message_type frame = HolderFrame.Resize \/
   message_type frame = HolderFrame.Signal) ->
  ~ (exists id, attached_session c = Some id /\ writers s !! id = Some fd /\
       HolderRuntime.is_running (runtime s) id = true) ->
  exists e, process_frame os fd minor frame s = Some (Err e, s).
Proof.
  intros Hc Hr Ht Hno.
  assert (Hw : forall A (k : N -> HolderServer.H A), runs (require_writer fd ≫= k) s
    (fun out s' => s' = s /\ is_ok out = false)).
  { intros A k. run. eapply runs_mono; [by apply require_writer_spec|]. cbn beta.
    intros [id|e] s' [-> Hid]; [|done]. destruct Hno. by exists id. }
  assert (Hall : runs (process_frame os fd minor frame) s (fun out s' => s' = s /\ is_ok out = false)).
  { unfold process_frame. run. rewrite runs_unwrap. exists c. split; [done|]. cbv beta iota. rewrite Hr.
    destruct (negb _); [by run|]. unfold handle_data.
    destruct Ht as [->|[->| ->]]; unfold handle_input, handle_resize, handle_signal_request; apply Hw. }
  apply runs_eq in Hall as (out & s' & He & -> & Hout). destruct out; [done|]. eauto.
Qed.

(** A write to one client that fails (the client has gone away) is
    an error of the whole round, and ends the holder with every session. *)
Theorem peer_error_stops_holder fds os s fd token c :
  connections s !! fd = Some c -> Connection.wants_write c = true ->
  Reactor.fd_for_token token (reactor s) = Some fd ->
  fd <> listener_fd fds -> fd <> signal_fd fds -> fd <> log_fd fds ->
  HolderRuntime.session_for_pty (runtime s) fd = None ->
  peer_write (os 0%nat 0%nat) 0 = ByteQueue.WriteFailed ->
  exists s', round fds os [(token, EPOLLOUT)] s = Some (Err (IoError "write holder peer"), s').
Proof.
  intros Hc Hww Ht Hl Hsg Hlg Hp Hw.
  assert (Hr : runs (round fds os [(token, EPOLLOUT)]) s
    (fun out _ => out = Err (IoError "write holder peer"))).
  { unfold round. run. cbn [dispatch_all]. unfold dispatch. run. cbn [fst snd]. rewrite Ht.
    apply N.eqb_neq in Hl as ->. apply N.eqb_neq in Hsg as ->. apply N.eqb_neq in Hlg as ->.
    rewrite Hp, Hc. unfold handle_connection. cbv zeta.
    change (any EPOLLOUT EPOLLIN) with false. change (any EPOLLOUT EPOLLOUT) with true.
    change (any EPOLLOUT (N.lor EPOLLERR (N.lor EPOLLHUP EPOLLRDHUP))) with false.
    run. cbn [process_frames]. run. cbn [negb orb]. run. unfold flush_connection. run. rewrite runs_unwrap.
    exists c. split; [done|]. run. rewrite runs_unwrap.
    unfold Connection.wants_write in Hww. unfold Connection.flush, ByteQueue.rounds. cbn [ByteQueue.flush].
    destruct (ByteQueue.items (output c)) as [|d ds] eqn:Hi; [done|]. cbv zeta. rewrite Hw. cbn.
    eexists. split; [reflexivity|]. by run. }
  apply runs_eq in Hr as (out & s' & He & ->). by exists s'.
Qed.
End service.

(** ** A holder in use *)

#[local] Existing Instance Environment.bits_json.
#[local] Existing Instance Environment.bits_json_laws.
#[local] Existing Instance ShellState.envelope_bits.
#[local] Existing Instance ShellState.envelope_bits_laws.

(** The daemon (process 70) connects twice (descriptors 10 and 11), says hello
    on both and creates session 54; its terminal (9) prints; then the daemon
    attaches to it to write. *)
Definition free_fd (fd : N) (s : Server) : bool :=
  bool_decide (connections s !! fd = None) &&
  bool_decide (HolderRuntime.pty_to_session (runtime s) !! fd = None).
Definition sample_peers : list (N * N * N) := [(10, 70, 1000); (11, 70, 1000)].
Definition sample_accepted (s : Server) : list (N * N * N) :=
  filter (fun x => free_fd x.1.1 s = true) sample_peers.
Definition sample_os (reads : list bytes) (prints : list bytes) (write : nat -> ByteQueue.write_result) : Os :=
  mkOs 1000 50 (fun _ _ => true) (fun m => map fst (map_to_list m)) (fun _ => false)
    (fun s _ => if free_fd 9 s then Ok (HolderRuntime.mkPty 9 100) else Err (IoError "openpty"))
    (fun _ => HolderRuntime.mkReads prints HolderRuntime.ReadStop) (fun _ => ByteQueue.WouldBlock)
    (Connection.mkReads reads Connection.ReadBlocked) write true None (fun _ _ => true) true true
    (HolderRuntime.mkReapOs 1000 (fun _ => Ok None) (fun _ => None) (fun _ => ShellState.OpenFailed)) (Ok 0)
    sample_accepted (Ok tt).
Definition calm_os (reads : list bytes) : Os := sample_os reads [lit "ok"] (fun _ => ByteQueue.WouldBlock).

Lemma free_fd_spec fd s : free_fd fd s = true ->
  HolderRuntime.pty_to_session (runtime s) !! fd = None /\ connections s !! fd = None.
Proof. intros [Hc%bool_decide_eq_true Hp%bool_decide_eq_true]%andb_prop. done. Qed.

Lemma sample_kernel_ok reads prints write : kernel_ok (sample_os reads prints write).
Proof.
  split; try done.
  - intros m. split; [apply NoDup_fst_map_to_list|]. intros fd. cbn. rewrite list_elem_of_fmap. split.
    + intros ([f c] & -> & Hin%elem_of_map_to_list). cbn. by rewrite Hin.
    + intros [c Hc]. exists (fd, c). split; [done|]. by apply elem_of_map_to_list.
  - intros s r p. cbn. destruct (free_fd 9 s) eqn:Hf; [|done]. intros [= <-]. cbn.
    apply free_fd_spec in Hf as [Hp Hc]. by split_and!.
  - intros s. change (accepted _ s) with (sample_accepted s). unfold sample_accepted. split.
    + unfold sample_peers, filter, list_filter. cbn [fst snd].
      repeat (case_decide; cbn); repeat first [apply NoDup_nil_2 | apply NoDup_cons_2; [rewrite ?elem_of_cons, ?elem_of_nil; naive_solver|]].
    + intros x [Hx _]%list_elem_of_filter. apply free_fd_spec in Hx as [Hp Hc]. done.
Qed.

Lemma calm_good C reads : good C (calm_os reads).
Proof. split; [apply sample_kernel_ok|]. intros _. by split. Qed.

Definition sample_fds : Fds := mkFds 3 4 5.
Definition sample_nonce : bytes := replicate 16 Byte.x11.
Definition sample_start : Server :=
  match new (fun _ _ => true) sample_fds ShellState.sample_dir ShellState.sample_incarnation with
  | Ok s => s
  | Err _ => mkServer LogWorker.start Reactor.new (HolderRuntime.new []) ∅ ∅ None [] None
  end.

Definition message (kind : HolderFrame.HolderMessageType) (payload : bytes) : bytes :=
  packet 1 (frame_for kind 7 1 payload).
Definition create_payload : bytes :=
  match Session.encode_create_request HolderRuntime.sample_request with Ok p => p | Err _ => [] end.
Definition attach_payload_54 : bytes :=
  Session.encode_attach_request (Session.mkAttach 54 Session.ReadWrite 16).

(** What the daemon does, round by round: an event and the bytes it reads. *)
Definition sample_rounds : list (N * N * list bytes) := [
  (1, EPOLLIN, []);
  (4, EPOLLIN, [message HolderFrame.ControlHello
     (Handshake.encode_control_hello (Handshake.mkControlHello 1000 70 sample_nonce))]);
  (5, EPOLLIN, [message HolderFrame.DataHello
     (Handshake.encode_data_hello (Handshake.mkDataHello 70 ShellState.sample_incarnation sample_nonce))]);
  (4, EPOLLIN, [message HolderFrame.Create create_payload]);
  (6, EPOLLIN, []);
  (5, EPOLLIN, [message HolderFrame.Attach attach_payload_54]) ].

Definition sample_round (s : Server) (x : N * N * list bytes) : option Server :=
  match round sample_fds (fun _ _ => calm_os x.2) [x.1] s with
  | Some (Ok false, s') => Some s'
  | _ => None
  end.
Definition sample_after (n : nat) : Server :=
  fold_left (fun s x => default s (sample_round s x)) (take n sample_rounds) sample_start.

Lemma sample_step C s x : running C sample_fds s -> running C sample_fds (default s (sample_round s x)).
Proof.
  intros Hs. unfold sample_round.
  destruct (round _ _ _ _) as [[[[]|] s']|] eqn:Hr; cbn; try done.
  eapply running_round; [exact Hs| |exact Hr]. intros i j. apply calm_good.
Qed.

Lemma sample_running C n : running C sample_fds (sample_after n).
Proof.
  unfold sample_after. assert (Hs : running C sample_fds sample_start) by
    exact (running_new C sample_fds (fun _ _ => true) ShellState.sample_dir ShellState.sample_incarnation _ eq_refl).
  revert Hs. generalize sample_start. induction (take n sample_rounds) as [|x l IH]; [done|].
  intros s Hs. cbn [fold_left]. by apply IH, sample_step.
Qed.

Definition sample_client (n : nat) (fd : N) : Connection.t :=
  default (Connection.new 0 0) (connections (sample_after n) !! fd).

Lemma holder_survives_witness :
  exists out s', round sample_fds (fun _ _ => calm_os [lit "garbage"]) [(4, EPOLLIN); (6, EPOLLIN)]
    (sample_after 6) = Some (out, s') /\ match out with Ok _ => inv True s' | Err _ => False end.
Proof.
  destruct (holder_survives True sample_fds (fun _ _ => calm_os [lit "garbage"])
    [(4, EPOLLIN); (6, EPOLLIN)] (sample_after 6) (sample_running True 6) (fun _ _ => calm_good True _))
    as (out & s' & Hr & Ho). exists out, s'. split; [exact Hr|]. destruct out; [apply Ho|exact (Ho I)].
Defined.

Lemma tables_agree_witness :
  exists c, connections (sample_after 6) !! 11 = Some c /\ role c = Data /\ attached_session c = Some 54.
Proof.
  apply (proj1 (tables_agree True sample_fds (sample_after 6) (sample_running True 6))).
  vm_compute; reflexivity.
Defined.

Lemma sample_lookup n fd : bool_decide (is_Some (connections (sample_after n) !! fd)) = true ->
  connections (sample_after n) !! fd = Some (sample_client n fd).
Proof. unfold sample_client. intros [c Hc]%bool_decide_eq_true. by rewrite Hc. Qed.

Definition attach_frame : HolderFrame := frame_for HolderFrame.Attach 7 1 attach_payload_54.

Lemma attach_takes_over_witness :
  runs (process_frame (calm_os []) 11 1 attach_frame) (sample_after 5) (fun out s' =>
    out = Ok tt /\ attached_answer 54 11 true (wire 1 (attach_frames 7 (HolderRuntime.generation
      (runtime (sample_after 5))) 54 (lit "ok") true)) (sample_client 5 11) (sample_after 5) s').
Proof.
  exact (attach_takes_over sample_fds (calm_os []) (sample_after 5) 11 attach_frame
    (Session.mkAttach 54 Session.ReadWrite 16) (lit "ok") (sample_client 5 11) (sample_running True 5)
    (calm_good True _) (sample_lookup 5 11 ltac:(vm_compute; reflexivity)) ltac:(vm_compute; reflexivity)
    ltac:(left; vm_compute; reflexivity) eq_refl ltac:(vm_compute; reflexivity) ltac:(vm_compute; reflexivity)).
Defined.

Lemma output_reaches_clients_witness :
  runs (drain_and_publish (calm_os []) 9) (sample_after 6) (fun out s' =>
    out = Ok tt /\ printed 54 [lit "ok"] (sample_after 6) s').
Proof.
  exact (output_reaches_clients sample_fds (calm_os []) (sample_after 6) 9 54 (sample_running True 6)
    (calm_good True _) ltac:(vm_compute; reflexivity)).
Defined.

Lemma input_reaches_session_witness :
  runs (process_frame (calm_os []) 11 (protocol_minor (sample_client 6 11))
    (frame_for HolderFrame.Input 0 1 (lit "ls"))) (sample_after 6)
    (fun out s' => out = Ok tt /\ typed (fun _ => ByteQueue.WouldBlock) 54 (lit "ls") (runtime (sample_after 6)) (runtime s')).
Proof.
  pose proof (input_reaches_session sample_fds (calm_os []) (sample_after 6) 11
    (frame_for HolderFrame.Input 0 1 (lit "ls")) (sample_client 6 11) (sample_running True 6)
    (calm_good True _) (sample_lookup 6 11 ltac:(vm_compute; reflexivity)) ltac:(vm_compute; reflexivity)
    eq_refl ltac:(done)) as Hin.
  assert (attached_session (sample_client 6 11) = Some 54) as Ha by (vm_compute; reflexivity).
  rewrite Ha in Hin.
  assert (bool_decide (writers (sample_after 6) !! 54 = Some 11) &&
    HolderRuntime.is_running (runtime (sample_after 6)) 54 &&
    input_room 54 (lit "ls") (runtime (sample_after 6)) = true) as Hok by (vm_compute; reflexivity).
  change (payload (frame_for HolderFrame.Input 0 1 (lit "ls"))) with (lit "ls") in Hin. rewrite Hok in Hin.
  eapply runs_mono; [exact Hin|]. intros out s' (_ & _ & _ & Hout & Ht & _). exact (conj Hout Ht).
Defined.

Lemma only_writer_acts_witness :
  exists e, process_frame (calm_os []) 11 1 (frame_for HolderFrame.Input 0 1 (lit "ls")) (sample_after 5)
    = Some (Err e, sample_after 5).
Proof.
  apply (only_writer_acts (calm_os []) (sample_after 5) 11 1 _ (sample_client 5 11)).
  - apply sample_lookup. vm_compute; reflexivity.
  - vm_compute; reflexivity.
  - by left.
  - intros (id & Ha & _). vm_compute in Ha. discriminate Ha.
Defined.

Lemma peer_error_stops_holder_witness :
  exists s', round sample_fds (fun _ _ => sample_os [] [] (fun _ => ByteQueue.WriteFailed)) [(5, EPOLLOUT)]
    (sample_after 6) = Some (Err (IoError "write holder peer"), s').
Proof.
  apply (peer_error_stops_holder sample_fds (fun _ _ => sample_os [] [] (fun _ => ByteQueue.WriteFailed))
    (sample_after 6) 11 5 (sample_client 6 11)).
  - apply sample_lookup. vm_compute; reflexivity.
  - vm_compute; reflexivity.
  - vm_compute; reflexivity.
  - discriminate.
  - discriminate.
  - discriminate.
  - vm_compute; reflexivity.
  - reflexivity.
Defined.

Lemma hello_authorises_witness :
  runs (process_frame (calm_os []) 10 1 (frame_for HolderFrame.Input 0 1 (lit "ls"))) (sample_after 1)
    (fun out s' => out <> Ok tt).
Proof.
  eapply runs_mono.
  { apply (hello_authorises True sample_fds (calm_os []) (sample_after 1) 10 1 _ (sample_client 1 10)
      (sample_running True 1) (calm_good True _)); [apply sample_lookup|]; vm_compute; reflexivity. }
  cbn beta. intros out s' [_ Hn] Ho. by destruct (Hn Ho).
Defined.

(** The session's buffer, filled to 1 MiB. *)
Definition sample_x : HolderRuntime.Session :=
  default HolderRuntime.sample_session (HolderRuntime.sessions (runtime (sample_after 6)) !! 54).
Definition with_ring (rb : RingBuffer.RingBuffer.t) : Server :=
  set_runtime (HolderRuntime.set_sessions (runtime (sample_after 6))
    <[54 := HolderRuntime.set_output sample_x rb 1000]>) (sample_after 6).
Definition full_ring (n : N) : RingBuffer.RingBuffer.t :=
  RingBuffer.RingBuffer.mk (replicate (N.to_nat n) Byte.x2e) (N.to_nat n) 0 true.

Lemma full_ring_wf n : n <> 0 -> RingBuffer.RingBuffer.wf (full_ring n).
Proof. split; cbn; [lia|apply length_replicate|lia]. Qed.

Lemma full_ring_capacity n m : n <= m -> N.of_nat (RingBuffer.RingBuffer.capacity (full_ring n)) <= m.
Proof. cbn. lia. Qed.

Lemma full_replay n : n <> 0 ->
  lenN (RingBuffer.RingBuffer.read_replay (full_ring n) (N.to_nat n)) = n.
Proof.
  intros Hn. pose proof (full_ring_wf n Hn) as Hw. rewrite RingBuffer.RingBuffer.read_replay_last_n by done.
  unfold lenN. rewrite RingBuffer.RingBuffer.length_last_n, RingBuffer.RingBuffer.length_read_all by done.
  cbn. lia.
Qed.

Lemma set_ring_ok id x rb now : HolderRuntime.session_ok id x -> RingBuffer.RingBuffer.wf rb ->
  N.of_nat (RingBuffer.RingBuffer.capacity rb) <= Session.MAX_HOLDER_RING_BUFFER -> is_u64 now ->
  HolderRuntime.session_ok id (HolderRuntime.set_output x rb now).
Proof. intros [] Hw Hc Hn. destruct so_times. by split. Qed.

Lemma with_ring_inv rb : RingBuffer.RingBuffer.wf rb ->
  N.of_nat (RingBuffer.RingBuffer.capacity rb) <= Session.MAX_HOLDER_RING_BUFFER -> inv True (with_ring rb).
Proof.
  intros Hw Hcap. pose proof (running_inv True _ _ (sample_running True 6)) as Hi.
  assert (Hx : HolderRuntime.sessions (runtime (sample_after 6)) !! 54 = Some sample_x) by (vm_compute; reflexivity).
  apply runtime_inv; [done| |done]. eapply HolderRuntime.update_wf; [apply Hi|exact Hx|done|].
  apply set_ring_ok; [exact (HolderRuntime.session_of _ _ _ (i_runtime _ _ Hi) Hx)|done..].
Qed.

Lemma with_ring_lookup rb fd : connections (with_ring rb) !! fd = connections (sample_after 6) !! fd.
Proof. unfold with_ring. generalize (sample_after 6). by intros []. Qed.

Lemma with_ring_replay rb n : HolderRuntime.replay (runtime (with_ring rb)) 54 n =
  Some (RingBuffer.RingBuffer.read_replay rb (N.to_nat n)).
Proof. unfold HolderRuntime.replay, with_ring. cbn. by rewrite lookup_insert_eq. Qed.

Definition big_attach_frame : HolderFrame := frame_for HolderFrame.Attach 7 1
  (Session.encode_attach_request (Session.mkAttach 54 Session.ReadOnly 1048576)).

Lemma large_replay_disconnects_witness :
  runs (process_frames (fun _ => calm_os []) 0 11 [(protocol_minor (sample_client 6 11), big_attach_frame)])
    (with_ring (full_ring 1048576)) (fun out s' => out = Ok false /\ connections s' !! 11 = None).
Proof.
  refine (large_replay_disconnects (fun _ => calm_os []) 0 (with_ring (full_ring 1048576)) 11 big_attach_frame
    (Session.mkAttach 54 Session.ReadOnly 1048576)
    (RingBuffer.RingBuffer.read_replay (full_ring 1048576) (N.to_nat 1048576)) (sample_client 6 11)
    (with_ring_inv _ (full_ring_wf _ _) (full_ring_capacity _ _ _)) (fun _ => calm_good True _) _ _ _ eq_refl _
    (with_ring_replay _ _) _).
  - discriminate.
  - discriminate.
  - rewrite with_ring_lookup. apply (sample_lookup 6 11). vm_compute; reflexivity.
  - vm_compute; reflexivity.
  - left. vm_compute; reflexivity.
  - vm_compute; reflexivity.
  - rewrite full_replay; discriminate.
Defined.
End HolderService.
