(* ===== verification/ClientFrame.v ===== *)
(** * ClientFrame: frames between clients and the daemon.

    Models the first and last parts of [crates/persist-ipc/src/protocol.rs]: the
    message types, [write_frame], [read_frame] with [read_n] on a blocking
    stream, and [FrameAccumulator].  A stream is the list of byte chunks its
    successive [read] calls return; an empty chunk, or none left, is the end of
    the stream. *)
From S2P Require Import Prelude Bytes Utf8.
From Stdlib Require Import Lia.
Import String.StringSyntax.
Local Open Scope N_scope.

Module ClientFrame.

Definition MAX_CONTROL_FRAME : N := 1024 * 1024.
Definition MAX_IO_FRAME : N := 64 * 1024.
Definition ATTACH_CONTEXT_PROTOCOL_MINOR : N := 2.
Definition HEADER_SIZE : N := 12.

Inductive MessageType : Type :=
| Hello | HelloAck | Error | NewSession | NewSessionResp | ListSessions
| ListSessionsResp | Attach | AttachResp | Detach | Rename | RenameResp
| DetachSignal | DetachSignalResp | Signal | SignalResp | NoteSet | NoteSetResp
| NoteGet | NoteGetResp | TagAdd | TagAddResp | TagRemove | TagRemoveResp
| TagList | TagListResp | ListSessionsByTag | PinSet | PinSetResp | AttachReadOnly
| WriteRequest | WriteGranted | WriteRevoked | LockSet | LockSetResp | ProcessTree
| ProcessTreeResp | ProcessStats | ProcessStatsResp | SessionSnapshot | SessionSnapshotResp | Metrics
| MetricsResp | DashboardSummary | DashboardSummaryResp | DashboardTrend | DashboardTrendResp | Close
| CloseResp | Kill | KillResp | Ping | Pong | Stdin
| Stdout | Resize | SessionExited.

#[export] Instance MessageType_eq_dec : EqDecision MessageType.
Proof. solve_decision. Defined.

(** [self as u16] *)
Definition to_u16 (t : MessageType) : N :=
  match t with
  | Hello => 0x0001 | HelloAck => 0x0002 | Error => 0x0003
  | NewSession => 0x0010 | NewSessionResp => 0x0011 | ListSessions => 0x0012
  | ListSessionsResp => 0x0013 | Attach => 0x0014 | AttachResp => 0x0015
  | Detach => 0x0016 | Rename => 0x0017 | RenameResp => 0x0018
  | DetachSignal => 0x0019 | DetachSignalResp => 0x001a | Signal => 0x001b
  | SignalResp => 0x001c | NoteSet => 0x001d | NoteSetResp => 0x001e
  | NoteGet => 0x001f | NoteGetResp => 0x0020 | TagAdd => 0x0021
  | TagAddResp => 0x0022 | TagRemove => 0x0023 | TagRemoveResp => 0x0024
  | TagList => 0x0025 | TagListResp => 0x0026 | ListSessionsByTag => 0x0027
  | PinSet => 0x0028 | PinSetResp => 0x0029 | AttachReadOnly => 0x002a
  | WriteRequest => 0x002b | WriteGranted => 0x002c | WriteRevoked => 0x002d
  | LockSet => 0x002e | LockSetResp => 0x002f | ProcessTree => 0x0030
  | ProcessTreeResp => 0x0031 | ProcessStats => 0x0032 | ProcessStatsResp => 0x0033
  | SessionSnapshot => 0x0034 | SessionSnapshotResp => 0x0035 | Metrics => 0x0036
  | MetricsResp => 0x0037 | DashboardSummary => 0x0038 | DashboardSummaryResp => 0x0039
  | DashboardTrend => 0x003a | DashboardTrendResp => 0x003b | Close => 0x0302
  | CloseResp => 0x0304 | Kill => 0x0303 | KillResp => 0x0305
  | Ping => 0x0300 | Pong => 0x0301 | Stdin => 0x0100
  | Stdout => 0x0101 | Resize => 0x0102 | SessionExited => 0x0103
  end.

Definition from_u16 (value : N) : option MessageType :=
  match value with
  | 0x0001 => Some Hello
  | 0x0002 => Some HelloAck
  | 0x0003 => Some Error
  | 0x0010 => Some NewSession
  | 0x0011 => Some NewSessionResp
  | 0x0012 => Some ListSessions
  | 0x0013 => Some ListSessionsResp
  | 0x0014 => Some Attach
  | 0x0015 => Some AttachResp
  | 0x0016 => Some Detach
  | 0x0017 => Some Rename
  | 0x0018 => Some RenameResp
  | 0x0019 => Some DetachSignal
  | 0x001a => Some DetachSignalResp
  | 0x001b => Some Signal
  | 0x001c => Some SignalResp
  | 0x001d => Some NoteSet
  | 0x001e => Some NoteSetResp
  | 0x001f => Some NoteGet
  | 0x0020 => Some NoteGetResp
  | 0x0021 => Some TagAdd
  | 0x0022 => Some TagAddResp
  | 0x0023 => Some TagRemove
  | 0x0024 => Some TagRemoveResp
  | 0x0025 => Some TagList
  | 0x0026 => Some TagListResp
  | 0x0027 => Some ListSessionsByTag
  | 0x0028 => Some PinSet
  | 0x0029 => Some PinSetResp
  | 0x002a => Some AttachReadOnly
  | 0x002b => Some WriteRequest
  | 0x002c => Some WriteGranted
  | 0x002d => Some WriteRevoked
  | 0x002e => Some LockSet
  | 0x002f => Some LockSetResp
  | 0x0030 => Some ProcessTree
  | 0x0031 => Some ProcessTreeResp
  | 0x0032 => Some ProcessStats
  | 0x0033 => Some ProcessStatsResp
  | 0x0034 => Some SessionSnapshot
  | 0x0035 => Some SessionSnapshotResp
  | 0x0036 => Some Metrics
  | 0x0037 => Some MetricsResp
  | 0x0038 => Some DashboardSummary
  | 0x0039 => Some DashboardSummaryResp
  | 0x003a => Some DashboardTrend
  | 0x003b => Some DashboardTrendResp
  | 0x0100 => Some Stdin
  | 0x0101 => Some Stdout
  | 0x0102 => Some Resize
  | 0x0103 => Some SessionExited
  | 0x0300 => Some Ping
  | 0x0301 => Some Pong
  | 0x0302 => Some Close
  | 0x0303 => Some Kill
  | 0x0304 => Some CloseResp
  | 0x0305 => Some KillResp
  | _ => None
  end.

Definition is_io_message (t : MessageType) : bool :=
  match t with Stdin | Stdout | Resize => true | _ => false end.

Record Frame : Type := mkFrame {
  msg_type : MessageType;
  flags : N;
  request_id : N;
  payload : bytes;
}.

(** [write_frame]: the bytes written to the stream. *)
Definition write_frame (f : Frame) : bytes :=
  u32_be (as_u32 (lenN (payload f))) ++ u16_be (to_u16 (msg_type f)) ++ u16_be (flags f) ++
  u32_be (request_id f) ++ payload f.

(** ** Reading from a blocking stream *)

(** One [stream.read(&mut buf[..n])]: at most [n] bytes of the next chunk; the
    rest of the chunk stays for the next call. *)
Definition read (stream : list bytes) (n : N) : bytes * list bytes :=
  match stream with
  | [] => ([], [])
  | chunk :: stream' =>
      if lenN chunk <=? n then (chunk, stream')
      else (takeN n chunk, dropN n chunk :: stream')
  end.

(** The loop of [read_n]; every call returns at least one byte or fails, so
    [n] rounds are enough. *)
Fixpoint read_n_loop (fuel : nat) (stream : list bytes) (n : N) (buf : bytes)
  : result persist_error (bytes * list bytes) :=
  if n <=? lenN buf then Ok (buf, stream)
  else match fuel with
  | O => Err (InternalError "out of fuel")
  | S fuel' =>
      let '(got, stream') := read stream (n - lenN buf) in
      if lenN got =? 0 then Err (IoError "socket closed before frame complete")
      else read_n_loop fuel' stream' n (buf ++ got)
  end.

Definition read_n (stream : list bytes) (n : N) : result persist_error (bytes * list bytes) :=
  read_n_loop (N.to_nat n) stream n [].

Definition read_frame (stream : list bytes) : result persist_error (Frame * list bytes) :=
  '(header_buf, stream) ← read_n stream HEADER_SIZE;
  let payload_len := be_val (slice header_buf 0 4) in
  let raw_type := be_val (slice header_buf 4 6) in
  let flags := be_val (slice header_buf 6 8) in
  let request_id := be_val (slice header_buf 8 12) in
  if MAX_CONTROL_FRAME <? payload_len
  then invalid_argument "frame payload too large: {payload_len} > {MAX_CONTROL_FRAME}"
  else
    msg_type ← ok_or (from_u16 raw_type) (InvalidArgument "unknown message type: 0x{raw_type:04X}");
    '(payload, stream) ←
      (if 0 <? payload_len then read_n stream payload_len else Ok ([], stream));
    Ok (mkFrame msg_type flags request_id payload, stream).

(** ** [FrameAccumulator] *)

Record FrameAccumulator : Type := mkAccumulator { buf : bytes }.

Definition new : FrameAccumulator := mkAccumulator [].

Definition feed (acc : FrameAccumulator) (data : bytes) : FrameAccumulator :=
  mkAccumulator (buf acc ++ data).

Definition limit (t : MessageType) : N := if is_io_message t then MAX_IO_FRAME else MAX_CONTROL_FRAME.

(** On error the buffer is not drained: the caller keeps [acc]. *)
Definition try_read (acc : FrameAccumulator)
  : result persist_error (option Frame * FrameAccumulator) :=
  if lenN (buf acc) <? HEADER_SIZE then Ok (None, acc)
  else
    let payload_len := be_val (slice (buf acc) 0 4) in
    let total := HEADER_SIZE + payload_len in
    if lenN (buf acc) <? total then Ok (None, acc)
    else
      let raw_type := be_val (slice (buf acc) 4 6) in
      let flags := be_val (slice (buf acc) 6 8) in
      let request_id := be_val (slice (buf acc) 8 12) in
      msg_type ← ok_or (from_u16 raw_type)
        (InvalidArgument "unknown message type: 0x{raw_type:04X}");
      if limit msg_type <? payload_len
      then invalid_argument "frame payload too large: {payload_len} > {limit}"
      else
        let payload := if 0 <? payload_len then slice (buf acc) HEADER_SIZE total else [] in
        Ok (Some (mkFrame msg_type flags request_id payload), mkAccumulator (dropN total (buf acc))).

(** [while let Ok(Some(frame)) = acc.try_read()]: the frames read, whether the
    loop stopped at an error, and the accumulator it leaves. *)
Fixpoint drain (fuel : nat) (acc : FrameAccumulator) : list Frame * bool * FrameAccumulator :=
  match fuel with
  | O => ([], false, acc)
  | S fuel' =>
    match try_read acc with
    | Ok (Some f, acc') =>
        let '(frames, failed, acc'') := drain fuel' acc' in (f :: frames, failed, acc'')
    | Ok (None, _) => ([], false, acc)
    | Err _ => ([], true, acc)
    end
  end.

(** One round of the client loop: feed what was read, take the frames out. *)
Definition receive (acc : FrameAccumulator) (chunk : bytes) : list Frame * bool * FrameAccumulator :=
  let acc' := feed acc chunk in drain (S (length (buf acc'))) acc'.

(** The invariant of a frame the sender may write. *)
Definition frame_ok (f : Frame) : Prop :=
  is_u16 (flags f) /\ is_u32 (request_id f) /\ lenN (payload f) <= limit (msg_type f).

Lemma client_from_u16_iff n t : from_u16 n = Some t <-> n = to_u16 t.
Proof.
  split; [|intros ->; by destruct t].
  destruct n as [|p]; [done|]. cbn. intros H.
  do 11 (try (destruct p as [p|p|]; try discriminate H;
              try (injection H as <-; reflexivity))).
Qed.

Lemma limit_bound t : limit t <= MAX_CONTROL_FRAME.
Proof. unfold limit. by destruct (is_io_message t). Qed.

Definition header (n : N) (f : Frame) : bytes :=
  u32_be n ++ u16_be (to_u16 (msg_type f)) ++ u16_be (flags f) ++ u32_be (request_id f).
#[global] Arguments header : simpl never.

Lemma lenN_header n f : lenN (header n f) = HEADER_SIZE.
Proof. reflexivity. Qed.

Lemma client_header_fields n f rest : is_u32 n -> is_u16 (flags f) -> is_u32 (request_id f) ->
  be_val (slice (header n f ++ rest) 0 4) = n /\
  be_val (slice (header n f ++ rest) 4 6) = to_u16 (msg_type f) /\
  be_val (slice (header n f ++ rest) 6 8) = flags f /\
  be_val (slice (header n f ++ rest) 8 12) = request_id f.
Proof.
  intros Hn Hf Hr. assert (Ht : is_u16 (to_u16 (msg_type f))) by (by destruct (msg_type f)).
  split_and!; [etransitivity; [|by apply u32_be_val]|etransitivity; [|by apply u16_be_val]|
    etransitivity; [|by apply u16_be_val]|etransitivity; [|by apply u32_be_val]]; reflexivity.
Qed.

Lemma write_frame_header f : lenN (payload f) <= MAX_CONTROL_FRAME ->
  write_frame f = header (lenN (payload f)) f ++ payload f.
Proof.
  intros Hl. unfold write_frame, header, as_u32.
  rewrite N.mod_small by (unfold MAX_CONTROL_FRAME in *; lia). by rewrite <- !app_assoc.
Qed.

Lemma payload_u32 f : lenN (payload f) <= MAX_CONTROL_FRAME -> is_u32 (lenN (payload f)).
Proof. unfold is_u32, MAX_CONTROL_FRAME. lia. Qed.

(** ** Blocking reads *)

Definition live (stream : list bytes) : Prop := Forall (fun chunk => chunk <> []) stream.

Lemma read_spec stream n : live stream -> 0 < n -> concat stream <> [] ->
  let '(got, stream') := read stream n in
  0 < lenN got <= n /\ live stream' /\ concat stream = got ++ concat stream'.
Proof.
  intros Hl Hn Hne. destruct stream as [|chunk stream]; [done|]. unfold read.
  apply Forall_cons in Hl as [Hc Hl].
  assert (Hz : lenN chunk <> 0) by (intros ?%lenN_0_inv; done).
  destruct (N.leb_spec (lenN chunk) n); [split_and!; [lia|lia|done|done]|].
  rewrite lenN_takeN. split_and!; [lia|lia| |].
  - constructor; [|done]. intros Hd. assert (lenN (dropN n chunk) = 0) by (by rewrite Hd).
    rewrite lenN_dropN in *. lia.
  - cbn [concat]. by rewrite app_assoc, takeN_dropN.
Qed.

Lemma read_n_loop_spec fuel stream n buf data rest :
  live stream -> lenN buf <= n -> (N.to_nat (n - lenN buf) <= fuel)%nat ->
  concat stream = data ++ rest -> lenN buf + lenN data = n ->
  exists stream', read_n_loop fuel stream n buf = Ok (buf ++ data, stream') /\
    live stream' /\ concat stream' = rest.
Proof.
  revert stream buf data; induction fuel as [|fuel IH]; intros stream buf data Hl Hb Hf Hc Hn;
    cbn [read_n_loop].
  - assert (data = []) as -> by (apply lenN_0_inv; lia). ndec. exists stream. by rewrite app_nil_r.
  - destruct (N.leb_spec n (lenN buf)).
    { assert (data = []) as -> by (apply lenN_0_inv; lia). exists stream. by rewrite app_nil_r. }
    assert (Hne : concat stream <> []).
    { rewrite Hc. intros [-> _]%app_eq_nil. rewrite lenN_nil in Hn. lia. }
    pose proof (read_spec stream (n - lenN buf) Hl ltac:(lia) Hne) as Hr.
    destruct (read stream (n - lenN buf)) as [got stream']. destruct Hr as (Hg & Hl' & Hc').
    rewrite (proj2 (N.eqb_neq (lenN got) 0)) by lia.
    assert (Hsplit : exists data', data = got ++ data' /\ concat stream' = data' ++ rest).
    { rewrite Hc in Hc'. apply app_eq_inv in Hc' as [(k & -> & Hk)|(k & -> & Hk)]; [eauto|].
      exists []. rewrite lenN_app in Hg. assert (k = []) as -> by (apply lenN_0_inv; lia).
      by rewrite !app_nil_r. }
    destruct Hsplit as (data' & -> & Hc''). rewrite lenN_app in Hn.
    destruct (IH stream' (buf ++ got) data') as (st & Hst & ? & ?); [done|len..|done|len|].
    exists st. rewrite Hst, <- app_assoc. done.
Qed.

Lemma read_n_spec stream n data rest :
  live stream -> concat stream = data ++ rest -> lenN data = n ->
  exists stream', read_n stream n = Ok (data, stream') /\ live stream' /\ concat stream' = rest.
Proof.
  intros Hl Hc Hn. destruct (read_n_loop_spec (N.to_nat n) stream n [] data rest) as (st & H & ?);
    [done|rewrite lenN_nil; lia|rewrite lenN_nil; lia|done|rewrite lenN_nil; lia|].
  by exists st.
Qed.

(** A frame written to a stream is read back, however the transport
    splits the bytes, and nothing after it is consumed. *)
Theorem read_frame_write_frame f stream rest :
  is_u16 (flags f) -> is_u32 (request_id f) -> lenN (payload f) <= MAX_CONTROL_FRAME ->
  live stream -> concat stream = write_frame f ++ rest ->
  exists stream', read_frame stream = Ok (f, stream') /\ live stream' /\ concat stream' = rest.
Proof.
  intros Hfl Hr Hl Hlive Hc. rewrite write_frame_header, <- app_assoc in Hc by done.
  destruct (read_n_spec stream HEADER_SIZE _ _ Hlive Hc) as (s1 & H1 & Hl1 & Hc1);
    [apply lenN_header|].
  destruct (client_header_fields _ f [] (payload_u32 f Hl) Hfl Hr) as (E1 & E2 & E3 & E4).
  rewrite app_nil_r in *. unfold read_frame. rewrite H1, ok_bind, E1, E2, E3, E4. ndec.
  rewrite (proj2 (client_from_u16_iff _ (msg_type f)) eq_refl). cbn [ok_or]. rewrite ok_bind.
  destruct (N.ltb_spec 0 (lenN (payload f))) as [Hpos|Hz].
  - destruct (read_n_spec s1 _ _ _ Hl1 Hc1 eq_refl) as (s2 & H2 & Hl2 & Hc2).
    exists s2. rewrite H2, ok_bind. by destruct f.
  - assert (Hnil : payload f = []) by (apply lenN_0_inv; lia). exists s1. rewrite ok_bind.
    rewrite Hnil in Hc1. destruct f; cbn in *; by subst.
Qed.

(** ** Reassembly *)

Lemma client_try_read_frame f rest : frame_ok f ->
  try_read (mkAccumulator (write_frame f ++ rest)) = Ok (Some f, mkAccumulator rest).
Proof.
  intros (Hfl & Hr & Hl). pose proof (limit_bound (msg_type f)) as Hb.
  rewrite write_frame_header by lia.
  destruct (client_header_fields _ f (payload f ++ rest) (payload_u32 f ltac:(lia)) Hfl Hr)
    as (E1 & E2 & E3 & E4).
  rewrite <- app_assoc. unfold try_read. cbn [buf]. rewrite E1, E2, E3, E4.
  rewrite !lenN_app, lenN_header. ndec.
  rewrite (proj2 (client_from_u16_iff _ (msg_type f)) eq_refl). cbn [ok_or]. rewrite ok_bind. ndec.
  rewrite app_assoc, dropN_app by (rewrite lenN_app, lenN_header; done). rewrite <- app_assoc.
  do 3 f_equal. destruct (N.ltb_spec 0 (lenN (payload f))).
  - rewrite slice_app by (rewrite ?lenN_header; done). by destruct f.
  - assert (Hnil : payload f = []) by (apply lenN_0_inv; lia). rewrite <- Hnil. by destruct f.
Qed.

Lemma lenN_write_frame f : frame_ok f ->
  lenN (write_frame f) = HEADER_SIZE + lenN (payload f).
Proof.
  intros (_ & _ & Hl). pose proof (limit_bound (msg_type f)) as Hb.
  by rewrite write_frame_header, lenN_app, lenN_header by lia.
Qed.

Lemma client_try_read_partial f b1 b2 : frame_ok f -> write_frame f = b1 ++ b2 -> b2 <> [] ->
  try_read (mkAccumulator b1) = Ok (None, mkAccumulator b1).
Proof.
  intros Hf Heq Hne. pose proof (lenN_write_frame f Hf) as Hlen.
  rewrite Heq, lenN_app in Hlen. assert (lenN b2 <> 0) by (intros ?%lenN_0_inv; done).
  unfold try_read. cbn [buf]. destruct (N.ltb_spec (lenN b1) HEADER_SIZE) as [|Hge]; [done|].
  destruct Hf as (Hfl & Hr & Hl). pose proof (limit_bound (msg_type f)) as Hb.
  destruct (client_header_fields _ f (payload f) (payload_u32 f ltac:(lia)) Hfl Hr) as (E1 & _).
  rewrite <- write_frame_header, Heq, slice_app_l in E1 by (unfold HEADER_SIZE in *; lia).
  rewrite E1. by ndec.
Qed.

Definition waiting (b : bytes) (fs : list Frame) : Prop :=
  match fs with
  | [] => b = []
  | f :: _ => exists b2, write_frame f = b ++ b2 /\ b2 <> []
  end.

Lemma drain_stream fuel b future fs :
  (length b < fuel)%nat -> Forall frame_ok fs -> b ++ future = concat (map write_frame fs) ->
  exists fs1 fs2 b', fs = fs1 ++ fs2 /\ Forall frame_ok fs2 /\
    drain fuel (mkAccumulator b) = (fs1, false, mkAccumulator b') /\
    b' ++ future = concat (map write_frame fs2) /\ waiting b' fs2.
Proof.
  revert b fs; induction fuel as [|fuel IH]; intros b fs Hfuel Hfs Hb; [lia|].
  assert (Hw : waiting b fs \/ exists f fs' b0, fs = f :: fs' /\ b = write_frame f ++ b0 /\
            b0 ++ future = concat (map write_frame fs')).
  { destruct fs as [|f fs]; cbn in *; [left; by apply app_eq_nil in Hb as [-> _]|].
    apply app_eq_inv in Hb as [(k & -> & Hk)|(k & Hk1 & Hk)].
    - right. by exists f, fs, k.
    - destruct k as [|x k]; [right|left; by exists (x :: k)].
      exists f, fs, []. rewrite app_nil_r in *. by subst. }
  destruct Hw as [Hw|(f & fs' & b0 & -> & -> & Hb0)].
  - exists [], fs, b. split_and!; try done. cbn [drain].
    destruct fs as [|f fs]; cbn in Hw; [by subst|].
    destruct Hw as (b2 & Heq & Hne). apply Forall_cons in Hfs as [Hf _].
    by rewrite (client_try_read_partial f b b2).
  - apply Forall_cons in Hfs as [Hf Hfs]. pose proof (lenN_write_frame f Hf) as Hl.
    destruct (IH b0 fs') as (fs1 & fs2 & b' & -> & H2 & Hr & Hb' & Hw'); [|done..|].
    { rewrite length_app in Hfuel. unfold lenN, HEADER_SIZE in Hl. lia. }
    exists (f :: fs1), fs2, b'. split_and!; try done.
    cbn [drain]. by rewrite (client_try_read_frame f), Hr.
Qed.

(** A frame that comes out of a buffer with the next bytes of a stream is the
    next frame of the stream. *)
Lemma try_read_stream acc future fs f acc' : Forall frame_ok fs -> buf acc ++ future = concat (map write_frame fs) ->
  try_read acc = Ok (Some f, acc') -> exists fs', fs = f :: fs' /\ buf acc' ++ future = concat (map write_frame fs').
Proof.
  destruct acc as [b]. cbn [buf]. intros Hfs Hb Hr. destruct fs as [|g fs]; cbn [map concat] in Hb.
  - apply app_eq_nil in Hb as [-> _]. discriminate Hr.
  - apply Forall_cons in Hfs as [Hg Hfs]. apply app_eq_inv in Hb as [(k & -> & Hk)|(k & Hk1 & Hk)].
    + rewrite client_try_read_frame in Hr by done. injection Hr as <- <-. by exists fs.
    + destruct k as [|x k].
      * rewrite app_nil_r in Hk1. rewrite <- Hk1, <- (app_nil_r (write_frame g)), client_try_read_frame in Hr by done.
        injection Hr as <- <-. by exists fs.
      * by rewrite (client_try_read_partial g b (x :: k)) in Hr.
Qed.

(** The frames of a stream are never refused. *)
Lemma try_read_stream_ok acc future fs : Forall frame_ok fs -> buf acc ++ future = concat (map write_frame fs) ->
  exists r acc', try_read acc = Ok (r, acc').
Proof.
  destruct acc as [b]. cbn [buf]. intros Hfs Hb. destruct fs as [|g fs]; cbn [map concat] in Hb.
  - apply app_eq_nil in Hb as [-> _]. by exists None, (mkAccumulator []).
  - apply Forall_cons in Hfs as [Hg Hfs]. apply app_eq_inv in Hb as [(k & -> & Hk)|(k & Hk1 & Hk)].
    + rewrite client_try_read_frame by done. eauto.
    + destruct k as [|x k].
      * rewrite app_nil_r in Hk1. rewrite <- Hk1, <- (app_nil_r (write_frame g)), client_try_read_frame by done. eauto.
      * rewrite (client_try_read_partial g b (x :: k)) by done. eauto.
Qed.

(** All rounds of the loop, one chunk each. *)
Fixpoint receive_chunks (acc : FrameAccumulator) (chunks : list bytes)
  : list Frame * bool * FrameAccumulator :=
  match chunks with
  | [] => ([], false, acc)
  | chunk :: chunks' =>
      let '(frames, failed, acc') := receive acc chunk in
      let '(frames', failed', acc'') := receive_chunks acc' chunks' in
      (frames ++ frames', failed || failed', acc'')
  end.

(** C30: the accumulator delivers exactly the frames of a stream, in order,
    for every chunking, and ends empty. *)
Theorem accumulator_delivers fs chunks :
  Forall frame_ok fs -> concat chunks = concat (map write_frame fs) ->
  receive_chunks new chunks = (fs, false, new).
Proof.
  intros Hfs Hc. assert (Hw : waiting [] fs).
  { destruct fs as [|f fs]; [done|]. exists (write_frame f). split; [done|]. intros Hn.
    apply Forall_cons in Hfs as [Hf _]. apply lenN_write_frame in Hf.
    rewrite Hn, lenN_nil in Hf. unfold HEADER_SIZE in Hf. lia. }
  change (concat chunks) with ([] ++ concat chunks) in Hc. unfold new.
  revert fs Hfs Hw Hc. generalize (@nil byte) at 1 2 3 as b.
  induction chunks as [|chunk chunks IH]; intros b fs Hfs Hw Hc; cbn [receive_chunks].
  - cbn in Hc. rewrite app_nil_r in Hc. destruct fs as [|f fs]; cbn in Hw; [by subst|].
    destruct Hw as (b2 & Heq & Hne). exfalso. cbn in Hc. rewrite Heq, <- app_assoc in Hc.
    rewrite <- (app_nil_r b) in Hc at 1. apply app_inv_head in Hc. by destruct b2.
  - cbn [concat] in Hc. rewrite app_assoc in Hc. unfold receive, feed. cbn [buf].
    destruct (drain_stream (S (length (b ++ chunk))) (b ++ chunk) (concat chunks) fs)
      as (fs1 & fs2 & b' & -> & Hf2 & Hr & Hb' & Hw'); [lia|done..|].
    rewrite Hr. by rewrite (IH b' fs2).
Qed.

(** A complete frame that the accumulator refuses. *)
Definition refused (b : bytes) : Prop :=
  HEADER_SIZE <= lenN b /\ HEADER_SIZE + be_val (slice b 0 4) <= lenN b /\
  match from_u16 (be_val (slice b 4 6)) with
  | None => True
  | Some t => limit t < be_val (slice b 0 4)
  end.

Lemma refused_app b more : refused b -> refused (b ++ more).
Proof.
  intros (H1 & H2 & H3). unfold refused, HEADER_SIZE in *.
  rewrite !slice_app_l by lia. rewrite lenN_app. split_and!; [lia|lia|done].
Qed.

Lemma drain_refused fuel b : refused b ->
  drain (S fuel) (mkAccumulator b) = ([], true, mkAccumulator b).
Proof.
  intros (H1 & H2 & H3). cbn [drain]. unfold try_read. cbn [buf]. ndec.
  destruct (from_u16 _) as [t|]; [|done]. cbn [ok_or]. rewrite ok_bind. by ndec.
Qed.

(** One refused frame blocks the connection for good: whatever arrives
    afterwards, no frame is delivered any more and every byte received is kept
    in the buffer. *)
Theorem accumulator_wedged b chunks :
  refused b -> chunks <> [] ->
  receive_chunks (mkAccumulator b) chunks = ([], true, mkAccumulator (b ++ concat chunks)).
Proof.
  revert b; induction chunks as [|chunk chunks IH]; intros b Hb Hne; [done|].
  cbn [receive_chunks concat]. unfold receive, feed. cbn [buf].
  rewrite drain_refused by (by apply refused_app).
  destruct chunks as [|chunk' chunks].
  - cbn. by rewrite app_nil_r.
  - rewrite IH by (try done; by apply refused_app). by rewrite app_assoc.
Qed.

(** ** Concrete inputs *)

Definition ping : Frame := mkFrame Ping 0 1 [].
Definition input : Frame := mkFrame Stdin 0 2 (lit "ls").

Lemma read_frame_write_frame_witness :
  exists stream', read_frame [takeN 5 (write_frame input); dropN 5 (write_frame input) ++ lit "x"] =
    Ok (input, stream') /\ live stream' /\ concat stream' = lit "x".
Proof.
  apply (read_frame_write_frame input); [by vm_compute..| |by vm_compute].
  repeat constructor; by vm_compute.
Defined.

Lemma accumulator_delivers_witness :
  receive_chunks new [takeN 7 (write_frame ping); dropN 7 (write_frame ping) ++ write_frame input] =
  ([ping; input], false, new).
Proof.
  apply (accumulator_delivers [ping; input]); [|by vm_compute].
  repeat constructor; by vm_compute.
Defined.

(** A frame of an unknown message type, followed by a valid ping. *)
Lemma accumulator_wedged_witness :
  receive_chunks (mkAccumulator (u32_be 0 ++ u16_be 0x999 ++ u16_be 0 ++ u32_be 0)) [write_frame ping] =
  ([], true, mkAccumulator ((u32_be 0 ++ u16_be 0x999 ++ u16_be 0 ++ u32_be 0) ++
                            concat [write_frame ping])).
Proof. apply accumulator_wedged; [by vm_compute|discriminate]. Defined.
End ClientFrame.

