(* ===== verification/ClientMessages.v ===== *)
(** * ClientMessages: payloads of the client protocol.

    Models the payload codecs of [crates/persist-ipc/src/protocol.rs].  A
    decoder works on the payload and an offset; [C] is that state in a monad
    over [Option].  [Reads p bs a] says that [p], placed anywhere in a payload
    where [bs] comes next, reads exactly [bs] and returns [a].  Decoders here
    are lenient (they accept trailing bytes and replace invalid UTF-8), so the
    theorems are round trips, and say what an over-long string or list becomes. *)
From S2P Require Import Prelude Bytes Utf8.
From Stdlib Require Import Lia.
From stdpp Require Import sorting.
Import String.StringSyntax.
Local Open Scope N_scope.

Module Cursor.

Definition C (A : Type) : Type := bytes -> N -> option (A * N).

#[export] Instance C_ret : MRet C := fun A a _ offset => Some (a, offset).
#[export] Instance C_bind : MBind C := fun A B f p data offset =>
  match p data offset with Some (a, offset') => f a data offset' | None => None end.

Definition fail {A} : C A := fun _ _ => None.
Definition lift {A} (o : option A) : C A := fun _ offset =>
  match o with Some a => Some (a, offset) | None => None end.

(** [if offset + n > data.len() { return None }], the slice, [offset += n]. *)
Definition take (n : N) : C bytes := fun data offset =>
  if lenN data <? offset + n then None else Some (slice data offset (offset + n), offset + n).

Definition u8 : C N := v ← take 1; mret (be_val v).
Definition u16 : C N := v ← take 2; mret (be_val v).
Definition u32 : C N := v ← take 4; mret (be_val v).
Definition i32 : C Z := v ← take 4; mret (i32_of (be_val v)).
Definition u64 : C N := v ← take 8; mret (be_val v).

(** The decoded value, from the given offset on. *)
Definition run {A} (p : C A) (data : bytes) : option A := fst <$> p data 0.

Fixpoint times {A} (n : nat) (p : C A) : C (list A) :=
  match n with
  | O => mret []
  | S n' => x ← p; xs ← times n' p; mret (x :: xs)
  end.

(** ** Strings with a 16-bit length *)

(** [bytes.len().min(u16::MAX as usize) as u16] and the bytes it keeps. *)
Definition clip_len (s : bytes) : N := N.min (lenN s) u16_max.
Definition encode_str16 (s : str) : bytes := u16_be (clip_len s) ++ takeN (clip_len s) s.

Definition decode_str16 : C str := len ← u16; raw ← take len; mret (from_utf8_lossy raw).

(** What the reader gets for a string. *)
Definition clip (s : str) : str := from_utf8_lossy (takeN u16_max s).

(** ** Round trips *)

Class Reads {A} (p : C A) (bs : bytes) (a : A) : Prop :=
  reads pre post : p (pre ++ bs ++ post) (lenN pre) = Some (a, lenN pre + lenN bs).

Lemma run_reads {A} (p : C A) bs post a : Reads p bs a -> run p (bs ++ post) = Some a.
Proof. intros H. unfold run. specialize (H [] post).
  change (lenN (@nil byte)) with 0 in H. cbn [app] in H. by rewrite H. Qed.

Lemma run_reads_all {A} (p : C A) bs a : Reads p bs a -> run p bs = Some a.
Proof. intros H. rewrite <- (app_nil_r bs). by apply run_reads. Qed.

Lemma reads_ret {A} (a : A) : Reads (mret a) [] a.
Proof. intros pre post. unfold mret, C_ret. do 2 f_equal. rewrite lenN_nil. lia. Qed.

Lemma reads_bind {A B} (p : C A) (k : A -> C B) b1 b2 a b :
  Reads p b1 a -> Reads (k a) b2 b -> Reads (p ≫= k) (b1 ++ b2) b.
Proof.
  intros Hp Hk pre post. unfold mbind, C_bind. rewrite <- app_assoc.
  rewrite (Hp pre (b2 ++ post)). specialize (Hk (pre ++ b1) post).
  rewrite <- !app_assoc, lenN_app in Hk. rewrite Hk. do 2 f_equal. len.
Qed.

(** The last read of a decoder, followed by nothing. *)
Lemma reads_last {A B} (p : C A) (k : A -> C B) bs a b :
  Reads p bs a -> Reads (k a) [] b -> Reads (p ≫= k) bs b.
Proof. intros Hp Hk. rewrite <- (app_nil_r bs). by eapply reads_bind. Qed.

Lemma reads_skip {A B} (p : C A) (k : A -> C B) bs a b :
  Reads p [] a -> Reads (k a) bs b -> Reads (p ≫= k) bs b.
Proof. intros Hp Hk. change bs with ([] ++ bs). by eapply reads_bind. Qed.

Lemma reads_lift {A} (o : option A) a : o = Some a -> Reads (lift o) [] a.
Proof. intros -> pre post. unfold lift. do 2 f_equal. rewrite lenN_nil. lia. Qed.

Lemma reads_take bs n : lenN bs = n -> Reads (take n) bs bs.
Proof.
  intros <- pre post. unfold take. rewrite !lenN_app. ndec. do 2 f_equal. by apply slice_app.
Qed.

Lemma reads_num {A} n (dec : bytes -> A) bs a :
  lenN bs = n -> dec bs = a -> Reads (v ← take n; mret (dec v)) bs a.
Proof. intros Hl <-. eapply reads_last; [by apply reads_take|]. apply reads_ret. Qed.

Lemma reads_u8 a : is_u8 a -> Reads u8 [byte_of a] a.
Proof.
  intros Ha. apply (reads_num 1 be_val); [done|]. rewrite be_val_cons, byte_val_of, lenN_nil.
  change (be_val []) with 0. rewrite N.mod_small by done. lia.
Qed.
Lemma reads_u16 a : is_u16 a -> Reads u16 (u16_be a) a.
Proof. intros Ha. apply (reads_num 2 be_val); [done|by apply u16_be_val]. Qed.
Lemma reads_u32 a : is_u32 a -> Reads u32 (u32_be a) a.
Proof. intros Ha. apply (reads_num 4 be_val); [done|by apply u32_be_val]. Qed.
Lemma reads_u64 a : is_u64 a -> Reads u64 (u64_be a) a.
Proof. intros Ha. apply (reads_num 8 be_val); [done|by apply u64_be_val]. Qed.
Lemma reads_i32 a : is_i32 a -> Reads i32 (i32_be a) a.
Proof.
  intros Ha. apply (reads_num 4 (fun v => i32_of (be_val v))); [done|by apply i32_of_be].
Qed.

Lemma be_val_single a : is_u8 a -> be_val [byte_of a] = a.
Proof.
  intros Ha. rewrite be_val_cons, byte_val_of, lenN_nil.
  change (be_val []) with 0. rewrite N.mod_small by done. lia.
Qed.

Lemma clip_len_u16 s : is_u16 (clip_len s).
Proof. unfold clip_len, is_u16, u16_max. lia. Qed.

Lemma takeN_clip (s : str) : takeN (clip_len s) s = takeN u16_max s.
Proof.
  unfold clip_len. destruct (N.le_ge_cases (lenN s) u16_max).
  - rewrite N.min_l by done. by rewrite !takeN_ge.
  - by rewrite N.min_r.
Qed.

Lemma reads_str16 s : Reads decode_str16 (encode_str16 s) (clip s).
Proof.
  unfold decode_str16, encode_str16, clip. rewrite <- takeN_clip.
  eapply reads_bind; [apply reads_u16, clip_len_u16|].
  eapply reads_last; [apply reads_take|apply reads_ret].
  rewrite lenN_takeN. unfold clip_len. lia.
Qed.

Lemma clip_id s : str_ok s -> lenN s <= u16_max -> clip s = s.
Proof. intros Hs Hl. unfold clip. rewrite takeN_ge by done. by apply from_utf8_lossy_valid. Qed.

Lemma reads_times {A B} (p : C B) (enc : A -> bytes) (f : A -> B) (l : list A) n :
  length l = n -> Forall (fun x => Reads p (enc x) (f x)) l ->
  Reads (times n p) (concat (map enc l)) (map f l).
Proof.
  intros <-. induction 1 as [|x l Hx _ IH]; [apply reads_ret|]. cbn [length times map concat].
  eapply reads_bind; [exact Hx|]. eapply reads_last; [exact IH|apply reads_ret].
Qed.
End Cursor.

#[export] Existing Instances Cursor.C_ret Cursor.C_bind.

Import Cursor(C, Reads, run, take, u8, u16, u32, i32, u64, times, lift, encode_str16, decode_str16,
  clip, clip_len).

Module ClientMessages.

(** [if data.len() < n { return None }] *)
Definition need (n : N) : C unit := fun data offset =>
  if lenN data <? n then None else Some (tt, offset).

(** [if len > 0 && data.len() >= offset + len { lossy(..) } else { String::new() }] *)
Definition text_or_empty (len : N) : C str := fun data offset =>
  if (0 <? len) && (offset + len <=? lenN data)
  then Some (from_utf8_lossy (slice data offset (offset + len)), offset + len)
  else Some ([], offset).

Definition of_bool (b : bool) : N := if b then 1 else 0.

(** ** Handshake *)

Inductive HelloStatus : Type := Accepted | VersionMismatch | PermissionDenied.

Record HelloPayload : Type := mkHello {
  protocol_major : N; protocol_minor : N; uid : N; pid : N }.
Record HelloAckPayload : Type := mkHelloAck {
  ack_protocol_major : N; ack_protocol_minor : N; ack_pid : N; ack_status : HelloStatus }.

Definition encode_hello (h : HelloPayload) : bytes :=
  u32_be (protocol_major h) ++ u32_be (protocol_minor h) ++ u32_be (uid h) ++ u32_be (pid h).

Definition decode_hello (payload : bytes) : option HelloPayload :=
  run (_ ← need 16; major ← u32; minor ← u32; uid ← u32; pid ← u32;
       mret (mkHello (as_u16 major) (as_u16 minor) uid pid)) payload.

Definition encode_status (s : HelloStatus) : N :=
  match s with Accepted => 0 | VersionMismatch => 1 | PermissionDenied => 2 end.

Definition decode_status (value : N) : option HelloStatus :=
  match value with
  | 0 => Some Accepted | 1 => Some VersionMismatch | 2 => Some PermissionDenied | _ => None
  end.

Definition encode_hello_ack (a : HelloAckPayload) : bytes :=
  u32_be (ack_protocol_major a) ++ u32_be (ack_protocol_minor a) ++ u32_be (ack_pid a) ++
  u16_be (encode_status (ack_status a)).

Definition decode_hello_ack (payload : bytes) : option HelloAckPayload :=
  run (_ ← need 14; major ← u32; minor ← u32; pid ← u32; code ← u16;
       status ← lift (decode_status code);
       mret (mkHelloAck (as_u16 major) (as_u16 minor) pid status)) payload.

(** ** Session identifiers with a string: new session, rename, note, tag *)

Definition encode_new_session_resp (session_id : N) (name : str) : bytes :=
  u32_be session_id ++ encode_str16 name.

Definition decode_new_session_resp (data : bytes) : option (N * str) :=
  run (_ ← need 6; session_id ← u32; name ← decode_str16; mret (session_id, name)) data.

(** [encode_rename], [encode_note] and [encode_tag] write the same bytes. *)
Definition encode_rename (session_id : N) (name : str) : bytes :=
  u32_be session_id ++ u16_be (clip_len name) ++ takeN (clip_len name) name.

Definition decode_rename (data : bytes) : option (N * str) :=
  run (_ ← need 6; session_id ← u32; name_len ← u16; name ← text_or_empty name_len;
       mret (session_id, name)) data.

Definition encode_note (session_id : N) (note : str) : bytes :=
  u32_be session_id ++ u16_be (clip_len note) ++ takeN (clip_len note) note.

Definition decode_note (data : bytes) : option (N * str) :=
  run (_ ← need 6; session_id ← u32; note_len ← u16; note ← text_or_empty note_len;
       mret (session_id, note)) data.

Definition encode_tag (session_id : N) (tag : str) : bytes :=
  u32_be session_id ++ u16_be (clip_len tag) ++ takeN (clip_len tag) tag.

Definition decode_tag (data : bytes) : option (N * str) :=
  run (_ ← need 6; session_id ← u32; tag_len ← u16; tag ← text_or_empty tag_len;
       mret (session_id, tag)) data.

Definition encode_note_get_resp (note : str) : bytes :=
  u16_be (clip_len note) ++ takeN (clip_len note) note.

Definition decode_note_get_resp (data : bytes) : option str :=
  run (_ ← need 2; len ← u16; raw ← take len; mret (from_utf8_lossy raw)) data.

(** ** Flags and small numbers *)

Definition encode_detach (session_id : N) : bytes := u32_be session_id.
Definition decode_detach (data : bytes) : option N := run (_ ← need 4; u32) data.

Definition encode_writer_control (session_id : N) : bytes := u32_be session_id.
Definition decode_writer_control (data : bytes) : option N :=
  if negb (lenN data =? 4) then None else run u32 data.

Definition encode_lock (session_id : N) (locked : bool) : bytes :=
  u32_be session_id ++ [byte_of (of_bool locked)].
Definition decode_lock (data : bytes) : option (N * bool) :=
  if negb (lenN data =? 5) then None
  else run (session_id ← u32; b ← u8; mret (session_id, negb (b =? 0))) data.

Definition encode_pin (session_id : N) (pinned : bool) : bytes :=
  u32_be session_id ++ [byte_of (of_bool pinned)].
Definition decode_pin (data : bytes) : option (N * bool) :=
  run (_ ← need 5; session_id ← u32; b ← u8; mret (session_id, negb (b =? 0))) data.

Definition encode_resize (rows cols : N) : bytes := u16_be rows ++ u16_be cols.
Definition decode_resize (data : bytes) : option (N * N) :=
  run (_ ← need 4; rows ← u16; cols ← u16; mret (rows, cols)) data.

Definition encode_signal (session_id signal : N) : bytes := u32_be session_id ++ u32_be signal.
Definition decode_signal (data : bytes) : option (N * N) :=
  run (_ ← need 8; session_id ← u32; signal ← u32; mret (session_id, signal)) data.

Definition encode_session_exited (session_id : N) (exit_code : Z) : bytes :=
  u32_be session_id ++ i32_be exit_code.
Definition decode_session_exited (data : bytes) : option (N * Z) :=
  run (_ ← need 8; session_id ← u32; exit_code ← i32; mret (session_id, exit_code)) data.

(** [AttachRespPayload] and [OpRespPayload] have the same codec. *)
Definition encode_op_resp (ok : bool) (error_msg : str) : bytes :=
  [byte_of (of_bool ok)] ++ u16_be (clip_len error_msg) ++ takeN (clip_len error_msg) error_msg.
Definition decode_op_resp (data : bytes) : option (bool * str) :=
  run (_ ← need 3; ok ← u8; msg_len ← u16; error_msg ← text_or_empty msg_len;
       mret (negb (ok =? 0), error_msg)) data.

Definition encode_attach_resp (ok : bool) (error_msg : str) : bytes :=
  [byte_of (of_bool ok)] ++ u16_be (clip_len error_msg) ++ takeN (clip_len error_msg) error_msg.
Definition decode_attach_resp (data : bytes) : option (bool * str) :=
  run (_ ← need 3; ok ← u8; msg_len ← u16; error_msg ← text_or_empty msg_len;
       mret (negb (ok =? 0), error_msg)) data.

(** ** Process statistics and process trees *)

Record ProcessStatsRespPayload : Type := mkStats {
  stats_pid : option N; user_ticks : N; system_ticks : N; rss_kib : N;
  read_bytes : N; write_bytes : N }.

Definition encode_process_stats_resp (p : ProcessStatsRespPayload) : bytes :=
  [byte_of (of_bool (match stats_pid p with Some _ => true | None => false end))] ++
  u32_be (default 0 (stats_pid p)) ++ u64_be (user_ticks p) ++ u64_be (system_ticks p) ++
  u64_be (rss_kib p) ++ u64_be (read_bytes p) ++ u64_be (write_bytes p).

Definition decode_process_stats_resp (data : bytes) : option ProcessStatsRespPayload :=
  if negb (lenN data =? 45) then None
  else run (has_pid ← u8; pid ← u32; user_ticks ← u64; system_ticks ← u64; rss_kib ← u64;
            read_bytes ← u64; write_bytes ← u64;
            mret (mkStats (if negb (has_pid =? 0) then Some pid else None)
                    user_ticks system_ticks rss_kib read_bytes write_bytes)) data.

Record ProcessTreeNode : Type := mkNode {
  node_pid : N; parent_pid : N; depth : N; node_name : str; command : str }.

Definition encode_node (n : ProcessTreeNode) : bytes :=
  u32_be (node_pid n) ++ u32_be (parent_pid n) ++ [byte_of (depth n)] ++
  encode_str16 (node_name n) ++ encode_str16 (command n).

Definition encode_process_tree_resp (nodes : list ProcessTreeNode) : bytes :=
  let nodes := takeN (N.min (lenN nodes) u16_max) nodes in
  u16_be (as_u16 (lenN nodes)) ++ concat (map encode_node nodes).

(** [if offset + n > data.len() { return None }] *)
Definition ahead (n : N) : C unit := fun data offset =>
  if lenN data <? offset + n then None else Some (tt, offset).

Definition decode_node : C ProcessTreeNode :=
  _ ← ahead 9; pid ← u32; parent_pid ← u32; depth ← u8;
  name ← decode_str16; command ← decode_str16;
  mret (mkNode pid parent_pid depth name command).

Definition decode_process_tree_resp (data : bytes) : option (list ProcessTreeNode) :=
  run (_ ← need 2; count ← u16; times (N.to_nat count) decode_node) data.

(** ** Tags *)

Definition encode_tag_list_resp (tags : list str) : bytes :=
  u16_be (N.min (lenN tags) u16_max) ++ concat (map encode_str16 tags).

Definition decode_tag_list_resp (data : bytes) : option (list str) :=
  run (_ ← need 2; count ← u16; times (N.to_nat count) decode_str16) data.

(** ** The session list *)

Record SessionEntry : Type := mkEntry {
  session_id : N;
  name : str;
  status : str;
  exit_code : option Z;
  closed_at : option str;
  has_note : bool;
  has_tags : bool;
  is_pinned : bool;
  is_locked : bool;
  idle : str;
  foreground_pid : option N;
  foreground_name : str;
  foreground_cmd : str;
}.

Definition is_some {A} (o : option A) : bool := match o with Some _ => true | None => false end.
Definition non_empty (s : str) : bool := negb (lenN s =? 0).

Definition bit (b : bool) (mask : N) : N := if b then mask else 0.

Definition entry_flags (e : SessionEntry) : N :=
  N.lor (bit (is_some (exit_code e)) 0x01) (N.lor (bit (is_some (closed_at e)) 0x02)
 (N.lor (bit (has_note e) 0x04) (N.lor (bit (has_tags e) 0x08)
 (N.lor (bit (is_pinned e) 0x10) (N.lor (bit (is_locked e) 0x40)
 (N.lor (bit (non_empty (idle e)) 0x20) (bit (is_some (foreground_pid e)) 0x80))))))).

Definition encode_entry (e : SessionEntry) : bytes :=
  u32_be (session_id e) ++ encode_str16 (name e) ++ encode_str16 (status e) ++
  [byte_of (entry_flags e)] ++
  match exit_code e with Some code => i32_be code | None => [] end ++
  match closed_at e with Some closed => encode_str16 closed | None => [] end ++
  (if non_empty (idle e) then encode_str16 (idle e) else []) ++
  match foreground_pid e with
  | Some pid => u32_be pid ++ encode_str16 (foreground_name e) ++ encode_str16 (foreground_cmd e)
  | None => []
  end.

Definition encode_list_sessions_resp (sessions : list SessionEntry) : bytes :=
  u16_be (N.min (lenN sessions) u16_max) ++ concat (map encode_entry sessions).

Definition is_set (flags mask : N) : bool := negb (N.land flags mask =? 0).

Definition optional {A} (present : bool) (p : C A) : C (option A) :=
  if present then a ← p; mret (Some a) else mret None.

Definition decode_entry : C SessionEntry :=
  session_id ← u32;
  name ← decode_str16;
  status ← decode_str16;
  flags ← u8;
  exit_code ← optional (is_set flags 0x01) i32;
  closed_at ← optional (is_set flags 0x02) decode_str16;
  idle ← optional (is_set flags 0x20) decode_str16;
  foreground ← optional (is_set flags 0x80)
    (pid ← u32; name ← decode_str16; cmd ← decode_str16; mret (pid, name, cmd));
  mret (mkEntry session_id name status exit_code closed_at (is_set flags 0x04)
          (is_set flags 0x08) (is_set flags 0x10) (is_set flags 0x40) (default [] idle)
          (match foreground with Some (pid, _, _) => Some pid | None => None end)
          (match foreground with Some (_, n, _) => n | None => [] end)
          (match foreground with Some (_, _, c) => c | None => [] end)).

Definition decode_list_sessions_resp (data : bytes) : option (list SessionEntry) :=
  run (_ ← need 2; count ← u16; times (N.to_nat count) decode_entry) data.

(** ** Round trips *)

Lemma run_need {A} n (p : C A) data a :
  n <= lenN data -> run p data = Some a -> run (_ ← need n; p) data = Some a.
Proof. intros Hn <-. unfold run, need, mbind, Cursor.C_bind. by ndec. Qed.

Lemma reads_text s : Reads (text_or_empty (clip_len s)) (takeN (clip_len s) s) (clip s).
Proof.
  intros pre post. unfold text_or_empty. rewrite !lenN_app, lenN_takeN.
  assert (Hc : N.min (clip_len s) (lenN s) = clip_len s) by (unfold clip_len; lia). rewrite Hc.
  destruct (N.ltb_spec 0 (clip_len s)) as [Hp|Hz]; cbn [andb].
  - ndec. do 2 f_equal. unfold clip. rewrite <- Cursor.takeN_clip. f_equal.
    apply slice_app; [done|]. rewrite lenN_takeN. lia.
  - assert (Hs : s = []).
    { apply lenN_0_inv. unfold clip_len, u16_max in *. lia. }
    subst s. do 2 f_equal. len.
Qed.

(** Read the fields of a message one by one. *)
Ltac rd := first
  [ eapply Cursor.reads_bind; [solve [eauto using Cursor.reads_u8, Cursor.reads_u16,
      Cursor.reads_u32, Cursor.reads_u64, Cursor.reads_i32, Cursor.reads_str16, reads_text]|]
  | eapply Cursor.reads_last; [solve [eauto using Cursor.reads_u8, Cursor.reads_u16,
      Cursor.reads_u32, Cursor.reads_u64, Cursor.reads_i32, Cursor.reads_str16, reads_text]|] ].

Lemma is_u16_u32 n : is_u16 n -> is_u32 n.
Proof. unfold is_u16, is_u32. lia. Qed.
Lemma as_u16_id n : is_u16 n -> as_u16 n = n.
Proof. intros Hn. unfold as_u16. by apply N.mod_small. Qed.
Lemma of_bool_u8 b : is_u8 (of_bool b).
Proof. by destruct b. Qed.
Lemma of_bool_set b : negb (of_bool b =? 0) = b.
Proof. by destruct b. Qed.
Hint Resolve is_u16_u32 of_bool_u8 Cursor.clip_len_u16 : core.

Lemma hello_round h : is_u16 (protocol_major h) -> is_u16 (protocol_minor h) ->
  is_u32 (uid h) -> is_u32 (pid h) -> decode_hello (encode_hello h) = Some h.
Proof.
  intros Hm Hn Hu Hp. unfold decode_hello. apply run_need; [done|].
  apply Cursor.run_reads_all. unfold encode_hello. do 4 rd. rewrite !as_u16_id by done.
  destruct h. apply Cursor.reads_ret.
Qed.

Lemma hello_ack_round a : is_u16 (ack_protocol_major a) -> is_u16 (ack_protocol_minor a) ->
  is_u32 (ack_pid a) -> decode_hello_ack (encode_hello_ack a) = Some a.
Proof.
  intros Hm Hn Hp. unfold decode_hello_ack. apply run_need; [done|].
  apply Cursor.run_reads_all. unfold encode_hello_ack. do 3 rd.
  assert (Hs : is_u16 (encode_status (ack_status a))) by (by destruct (ack_status a)).
  assert (Hd : decode_status (encode_status (ack_status a)) = Some (ack_status a))
    by (by destruct (ack_status a)).
  rd. eapply Cursor.reads_skip; [by apply Cursor.reads_lift|].
  rewrite !as_u16_id by done. destruct a; apply Cursor.reads_ret.
Qed.

Lemma id_text_round id text : is_u32 id ->
  run (session_id ← u32; len ← u16; t ← text_or_empty len; mret (session_id, t))
    (u32_be id ++ u16_be (clip_len text) ++ takeN (clip_len text) text) = Some (id, clip text).
Proof. intros Hi. apply Cursor.run_reads_all. do 3 rd. apply Cursor.reads_ret. Qed.

Lemma id_text_size id (text : str) :
  6 <= lenN (u32_be id ++ u16_be (clip_len text) ++ takeN (clip_len text) text).
Proof. len. Qed.

Lemma rename_round id text : is_u32 id -> decode_rename (encode_rename id text) = Some (id, clip text).
Proof. intros Hi. apply run_need; [apply id_text_size|by apply id_text_round]. Qed.

Lemma new_session_round id text : is_u32 id ->
  decode_new_session_resp (encode_new_session_resp id text) = Some (id, clip text).
Proof.
  intros Hi. apply run_need; [unfold encode_new_session_resp, encode_str16; len|].
  apply Cursor.run_reads_all. unfold encode_new_session_resp. do 2 rd. apply Cursor.reads_ret.
Qed.

Lemma note_get_round text : decode_note_get_resp (encode_note_get_resp text) = Some (clip text).
Proof.
  apply run_need; [unfold encode_note_get_resp; len|]. apply Cursor.run_reads_all.
  apply Cursor.reads_str16.
Qed.

Lemma op_resp_round ok text : decode_op_resp (encode_op_resp ok text) = Some (ok, clip text).
Proof.
  apply run_need; [unfold encode_op_resp; len|]. apply Cursor.run_reads_all. unfold encode_op_resp.
  do 3 rd. rewrite of_bool_set. apply Cursor.reads_ret.
Qed.

(** The handshake and every message that carries a session id with a text
    survives its encoding; a text is received whole up to 65535 bytes, and an
    over-long one is cut there with the broken last character replaced. *)
Theorem text_messages_roundtrip id text ok h a :
  is_u32 id -> is_u16 (protocol_major h) -> is_u16 (protocol_minor h) -> is_u32 (uid h) ->
  is_u32 (pid h) -> is_u16 (ack_protocol_major a) -> is_u16 (ack_protocol_minor a) ->
  is_u32 (ack_pid a) ->
  decode_hello (encode_hello h) = Some h /\
  decode_hello_ack (encode_hello_ack a) = Some a /\
  decode_new_session_resp (encode_new_session_resp id text) = Some (id, clip text) /\
  decode_rename (encode_rename id text) = Some (id, clip text) /\
  decode_note (encode_note id text) = Some (id, clip text) /\
  decode_tag (encode_tag id text) = Some (id, clip text) /\
  decode_note_get_resp (encode_note_get_resp text) = Some (clip text) /\
  decode_op_resp (encode_op_resp ok text) = Some (ok, clip text) /\
  decode_attach_resp (encode_attach_resp ok text) = Some (ok, clip text) /\
  (str_ok text -> lenN text <= u16_max -> clip text = text) /\ str_ok (clip text).
Proof.
  intros. pose proof (rename_round id text). pose proof (op_resp_round ok text).
  split_and!; auto using hello_round, hello_ack_round, new_session_round, note_get_round,
    Cursor.clip_id. apply from_utf8_lossy_is_valid.
Qed.

Lemma text_messages_roundtrip_witness :
  decode_hello (encode_hello (mkHello 0 2 1000 42)) = Some (mkHello 0 2 1000 42) /\
  decode_rename (encode_rename 3 (lit "build")) = Some (3, clip (lit "build")).
Proof.
  destruct (text_messages_roundtrip 3 (lit "build") true (mkHello 0 2 1000 42)
    (mkHelloAck 0 2 7 Accepted)) as (H1 & _ & _ & H2 & _); [by vm_compute..|].
  split; [exact H1|exact H2].
Defined.

(** ** Numbers *)

Definition stats_ok (p : ProcessStatsRespPayload) : Prop :=
  (forall n, stats_pid p = Some n -> is_u32 n) /\ is_u64 (user_ticks p) /\
  is_u64 (system_ticks p) /\ is_u64 (rss_kib p) /\ is_u64 (read_bytes p) /\ is_u64 (write_bytes p).

Lemma stats_round p : stats_ok p ->
  decode_process_stats_resp (encode_process_stats_resp p) = Some p.
Proof.
  intros (Hp & H1 & H2 & H3 & H4 & H5). unfold decode_process_stats_resp.
  rewrite (proj2 (N.eqb_eq (lenN (encode_process_stats_resp p)) 45)) by done.
  cbn [negb]. apply Cursor.run_reads_all. unfold encode_process_stats_resp.
  assert (is_u32 (default 0 (stats_pid p))) by (destruct (stats_pid p); [by apply Hp|done]).
  do 7 rd. rewrite of_bool_set. destruct p as [[n|] ? ? ? ? ?]; apply Cursor.reads_ret.
Qed.

(** The fixed-size messages survive their encodings, with their flags and
    their signed exit code. *)
Theorem number_messages_roundtrip id b rows cols signal code p :
  is_u32 id -> is_u16 rows -> is_u16 cols -> is_u32 signal -> is_i32 code -> stats_ok p ->
  decode_detach (encode_detach id) = Some id /\
  decode_writer_control (encode_writer_control id) = Some id /\
  decode_lock (encode_lock id b) = Some (id, b) /\
  decode_pin (encode_pin id b) = Some (id, b) /\
  decode_resize (encode_resize rows cols) = Some (rows, cols) /\
  decode_signal (encode_signal id signal) = Some (id, signal) /\
  decode_session_exited (encode_session_exited id code) = Some (id, code) /\
  decode_process_stats_resp (encode_process_stats_resp p) = Some p.
Proof.
  intros Hi Hr Hc Hs Hx Hp.
  assert (Hflag : run (session_id ← u32; x ← u8; mret (session_id, negb (x =? 0)))
            (u32_be id ++ [byte_of (of_bool b)]) = Some (id, b)).
  { apply Cursor.run_reads_all. do 2 rd. rewrite of_bool_set. apply Cursor.reads_ret. }
  split_and!.
  - apply run_need; [done|]. by apply Cursor.run_reads_all, Cursor.reads_u32.
  - unfold decode_writer_control. rewrite (proj2 (N.eqb_eq (lenN (encode_writer_control id)) 4)) by done.
    by apply Cursor.run_reads_all, Cursor.reads_u32.
  - unfold decode_lock. by rewrite (proj2 (N.eqb_eq (lenN (encode_lock id b)) 5)) by done.
  - by apply run_need.
  - apply run_need; [done|]. apply Cursor.run_reads_all. unfold encode_resize.
    do 2 rd. apply Cursor.reads_ret.
  - apply run_need; [done|]. apply Cursor.run_reads_all. unfold encode_signal.
    do 2 rd. apply Cursor.reads_ret.
  - apply run_need; [done|]. apply Cursor.run_reads_all. unfold encode_session_exited.
    do 2 rd. apply Cursor.reads_ret.
  - by apply stats_round.
Qed.

Lemma number_messages_roundtrip_witness :
  decode_lock (encode_lock 5 true) = Some (5, true) /\
  decode_session_exited (encode_session_exited 5 (-9)%Z) = Some (5, (-9)%Z).
Proof.
  destruct (number_messages_roundtrip 5 true 24 80 9 (-9)%Z (mkStats (Some 1) 2 3 4 5 6))
    as (_ & _ & H1 & _ & _ & _ & H2 & _); [by vm_compute..| |].
  { split_and!; [by intros n [= <-]|by vm_compute..]. }
  split; [exact H1|exact H2].
Defined.

(** ** Lists *)

(** The body of a list message holds every entry, but the reader stops after
    the number announced. *)
Lemma list_round {A B} (p : C B) (enc : A -> bytes) (f : A -> B) (l : list A) :
  Forall (fun x => Reads p (enc x) (f x)) l ->
  run (_ ← need 2; count ← u16; times (N.to_nat count) p)
    (u16_be (N.min (lenN l) u16_max) ++ concat (map enc l)) =
  Some (map f (takeN u16_max l)).
Proof.
  intros HF. apply run_need; [len|].
  replace (concat (map enc l)) with
    (concat (map enc (takeN u16_max l)) ++ concat (map enc (dropN u16_max l)))
    by (by rewrite <- concat_app, <- map_app, takeN_dropN).
  rewrite app_assoc. apply Cursor.run_reads.
  eapply Cursor.reads_bind; [apply Cursor.reads_u16; unfold is_u16, u16_max; lia|].
  apply Cursor.reads_times.
  - unfold takeN, lenN. rewrite length_take. lia.
  - rewrite <- (takeN_dropN u16_max l) in HF. by apply Forall_app in HF as [? _].
Qed.

Definition node_view (n : ProcessTreeNode) : ProcessTreeNode :=
  mkNode (node_pid n) (parent_pid n) (depth n) (clip (node_name n)) (clip (command n)).

Definition node_ok (n : ProcessTreeNode) : Prop :=
  is_u32 (node_pid n) /\ is_u32 (parent_pid n) /\ is_u8 (depth n).

Lemma reads_ahead {A} n (p : C A) bs a :
  n <= lenN bs -> Reads p bs a -> Reads (_ ← ahead n; p) bs a.
Proof.
  intros Hn Hp pre post. unfold mbind, Cursor.C_bind, ahead. rewrite !lenN_app. ndec. apply Hp.
Qed.

Lemma reads_node n : node_ok n -> Reads decode_node (encode_node n) (node_view n).
Proof.
  intros (Hp & Hq & Hd). unfold decode_node. apply reads_ahead.
  { unfold encode_node. rewrite !lenN_app. change (lenN [byte_of (depth n)]) with 1. len. }
  unfold encode_node. do 5 rd. apply Cursor.reads_ret.
Qed.

(** What the reader gets for a session entry: the foreground texts only exist
    with a foreground process. *)
Definition entry_view (e : SessionEntry) : SessionEntry :=
  mkEntry (session_id e) (clip (name e)) (clip (status e)) (exit_code e) (clip <$> closed_at e)
    (has_note e) (has_tags e) (is_pinned e) (is_locked e)
    (if non_empty (idle e) then clip (idle e) else [])
    (foreground_pid e)
    (match foreground_pid e with Some _ => clip (foreground_name e) | None => [] end)
    (match foreground_pid e with Some _ => clip (foreground_cmd e) | None => [] end).

Definition entry_ok (e : SessionEntry) : Prop :=
  is_u32 (session_id e) /\ (forall c, exit_code e = Some c -> is_i32 c) /\
  (forall p, foreground_pid e = Some p -> is_u32 p).

Lemma entry_flags_spec e : is_u8 (entry_flags e) /\
  is_set (entry_flags e) 0x01 = is_some (exit_code e) /\
  is_set (entry_flags e) 0x02 = is_some (closed_at e) /\
  is_set (entry_flags e) 0x04 = has_note e /\ is_set (entry_flags e) 0x08 = has_tags e /\
  is_set (entry_flags e) 0x10 = is_pinned e /\ is_set (entry_flags e) 0x40 = is_locked e /\
  is_set (entry_flags e) 0x20 = non_empty (idle e) /\
  is_set (entry_flags e) 0x80 = is_some (foreground_pid e).
Proof.
  unfold entry_flags, is_set. destruct (is_some (exit_code e)), (is_some (closed_at e)),
    (has_note e), (has_tags e), (is_pinned e), (is_locked e), (non_empty (idle e)),
    (is_some (foreground_pid e)); vm_compute; done.
Qed.

Lemma reads_optional {A B} (o : option A) (p : C B) (enc : A -> bytes) (f : A -> B) :
  (forall a, o = Some a -> Reads p (enc a) (f a)) ->
  Reads (optional (is_some o) p) (match o with Some a => enc a | None => [] end) (f <$> o).
Proof.
  intros Ho. destruct o as [a|]; cbn; [|apply Cursor.reads_ret].
  eapply Cursor.reads_last; [by apply Ho|apply Cursor.reads_ret].
Qed.

Lemma reads_entry e : entry_ok e -> Reads decode_entry (encode_entry e) (entry_view e).
Proof.
  intros (Hi & Hx & Hp). destruct (entry_flags_spec e) as (Hu & F1 & F2 & F4 & F8 & F10 & F40 & F20 & F80).
  unfold decode_entry, encode_entry. do 4 rd. rewrite F1, F2, F4, F8, F10, F40, F20, F80.
  eapply Cursor.reads_bind.
  { apply (reads_optional (exit_code e) i32 i32_be id). intros c Hc. by apply Cursor.reads_i32, Hx. }
  eapply Cursor.reads_bind.
  { apply (reads_optional (closed_at e) decode_str16 encode_str16 clip). intros; apply Cursor.reads_str16. }
  eapply (Cursor.reads_bind _ _ _ _ (if non_empty (idle e) then Some (clip (idle e)) else None)).
  { destruct (non_empty (idle e)); [|apply Cursor.reads_ret].
    eapply Cursor.reads_last; [apply Cursor.reads_str16|apply Cursor.reads_ret]. }
  eapply Cursor.reads_last.
  { apply (reads_optional (foreground_pid e) _
      (fun pid => u32_be pid ++ encode_str16 (foreground_name e) ++ encode_str16 (foreground_cmd e))
      (fun pid => (pid, clip (foreground_name e), clip (foreground_cmd e)))).
    intros pid Hpid. specialize (Hp pid Hpid). do 3 rd. apply Cursor.reads_ret. }
  replace (entry_view e) with
    (mkEntry (session_id e) (clip (name e)) (clip (status e)) (id <$> exit_code e)
       (clip <$> closed_at e) (has_note e) (has_tags e) (is_pinned e) (is_locked e)
       (default [] (if non_empty (idle e) then Some (clip (idle e)) else None))
       (match (fun pid => (pid, clip (foreground_name e), clip (foreground_cmd e))) <$> foreground_pid e
        with Some (pid, _, _) => Some pid | None => None end)
       (match (fun pid => (pid, clip (foreground_name e), clip (foreground_cmd e))) <$> foreground_pid e
        with Some (_, n, _) => n | None => [] end)
       (match (fun pid => (pid, clip (foreground_name e), clip (foreground_cmd e))) <$> foreground_pid e
        with Some (_, _, c) => c | None => [] end)).
  - apply Cursor.reads_ret.
  - unfold entry_view. destruct (exit_code e), (foreground_pid e), (non_empty (idle e)); done.
Qed.

(** Session lists, process trees and tag lists survive their encodings.
    All eight flags of a session entry are independent; a list longer than
    65535 is received up to that entry. *)
Theorem list_messages_roundtrip sessions nodes tags :
  Forall entry_ok sessions -> Forall node_ok nodes ->
  decode_list_sessions_resp (encode_list_sessions_resp sessions) =
    Some (map entry_view (takeN u16_max sessions)) /\
  decode_process_tree_resp (encode_process_tree_resp nodes) =
    Some (map node_view (takeN u16_max nodes)) /\
  decode_tag_list_resp (encode_tag_list_resp tags) = Some (map clip (takeN u16_max tags)).
Proof.
  intros Hs Hn. split_and!.
  - apply list_round. eapply Forall_impl; [exact Hs|]. apply reads_entry.
  - unfold decode_process_tree_resp, encode_process_tree_resp. set (m := N.min _ _).
    assert (Hm : takeN m nodes = takeN u16_max nodes).
    { unfold m. destruct (N.le_ge_cases (lenN nodes) u16_max).
      - rewrite N.min_l by done. by rewrite !takeN_ge.
      - by rewrite N.min_r. }
    cbv zeta. rewrite Hm.
    assert (Hl : as_u16 (lenN (takeN u16_max nodes)) = N.min (lenN (takeN u16_max nodes)) u16_max).
    { rewrite lenN_takeN. unfold as_u16, u16_max. rewrite N.mod_small; lia. }
    rewrite Hl, (list_round decode_node encode_node node_view).
    + by rewrite (takeN_ge u16_max (takeN u16_max nodes)) by (rewrite lenN_takeN; lia).
    + rewrite <- (takeN_dropN u16_max nodes) in Hn. apply Forall_app in Hn as [Hn _].
      eapply Forall_impl; [exact Hn|]. apply reads_node.
  - apply (list_round decode_str16 encode_str16 clip). apply Forall_true. apply Cursor.reads_str16.
Qed.

Definition sample_entry : SessionEntry :=
  mkEntry 3 (lit "build") (lit "exited") (Some (-1)%Z) None true false true true (lit "5m")
    (Some 77) (lit "cargo") (lit "cargo test").

Lemma list_messages_roundtrip_witness :
  decode_list_sessions_resp (encode_list_sessions_resp [sample_entry]) =
    Some (map entry_view (takeN u16_max [sample_entry])) /\
  decode_process_tree_resp (encode_process_tree_resp []) = Some (map node_view (takeN u16_max [])) /\
  decode_tag_list_resp (encode_tag_list_resp [lit "a"]) = Some (map clip (takeN u16_max [lit "a"])).
Proof.
  apply list_messages_roundtrip; [|constructor]. constructor; [|constructor].
  split_and!; [by vm_compute|intros c [= <-]; by vm_compute|intros p [= <-]; by vm_compute].
Defined.
End ClientMessages.

(** ** Attaching with the connection's environment *)

Module AttachContext.

Definition ATTACH_CONTEXT_VERSION : N := 1.
Definition MAX_CONNECTION_ENV_VARIABLES : N := 8.
Definition MAX_CONNECTION_ENV_NAME : N := 32.
Definition MAX_CONNECTION_ENV_VALUE : N := 4096.
Definition CONNECTION_ENV_ALLOWLIST : list str :=
  [lit "COLORTERM"; lit "DISPLAY"; lit "SSH_AUTH_SOCK"; lit "SSH_CLIENT";
   lit "SSH_CONNECTION"; lit "SSH_TTY"; lit "TERM"; lit "WAYLAND_DISPLAY"].

(** A [BTreeMap] is the list of its entries in the order of their keys. *)
Record ConnectionEnvironment : Type := mkEnvironment { variables : gmap str str }.

Definition pair_le (a b : str * str) : Prop := str_le a.1 b.1.
#[export] Instance pair_le_dec : RelDecision pair_le.
Proof. intros a b. unfold pair_le. apply _. Defined.

Definition iter (e : ConnectionEnvironment) : list (str * str) :=
  merge_sort pair_le (map_to_list (variables e)).

Definition valid_connection_variable (name value : str) : bool :=
  bool_decide (name ∈ CONNECTION_ENV_ALLOWLIST) && negb (lenN name =? 0) &&
  (lenN name <=? MAX_CONNECTION_ENV_NAME) && negb (lenN value =? 0) &&
  (lenN value <=? MAX_CONNECTION_ENV_VALUE) && negb (existsb char_is_control (chars value)).

Fixpoint insert_pairs (variables : gmap str str) (pairs : list (str * str))
  : option (gmap str str) :=
  match pairs with
  | [] => Some variables
  | (name, value) :: pairs' =>
      if (MAX_CONNECTION_ENV_VARIABLES <=? N.of_nat (size variables)) ||
         negb (valid_connection_variable name value) ||
         (match variables !! name with Some _ => true | None => false end)
      then None
      else insert_pairs (<[name := value]> variables) pairs'
  end.

Definition from_pairs (pairs : list (str * str)) : option ConnectionEnvironment :=
  variables ← insert_pairs ∅ pairs; Some (mkEnvironment variables).

Record DecodedAttachPayload : Type := mkDecoded {
  session_id : N; connection_env : ConnectionEnvironment }.

Definition encode_attach (session_id : N) : bytes := u32_be session_id.

Definition encode_variable (v : str * str) : bytes :=
  [byte_of (lenN v.1)] ++ v.1 ++ u16_be (as_u16 (lenN v.2)) ++ v.2.

Definition encode_attach_with_context (session_id : N) (context : ConnectionEnvironment) : bytes :=
  u32_be session_id ++ [byte_of ATTACH_CONTEXT_VERSION] ++
  [byte_of (N.of_nat (size (variables context)))] ++ concat (map encode_variable (iter context)).

Definition decode_variable : C (str * str) :=
  name_len ← u8;
  raw_name ← take name_len;
  name ← lift (from_utf8 raw_name);
  value_len ← u16;
  raw_value ← take value_len;
  value ← lift (from_utf8 raw_value);
  mret (name, value).

(** The [for] loop and the check [offset != data.len()] after it. *)
Definition decode_context (count : N) : C (list (str * str)) := fun data offset =>
  match times (N.to_nat count) decode_variable data offset with
  | Some (pairs, offset') => if offset' =? lenN data then Some (pairs, offset') else None
  | None => None
  end.

Definition decode_attach (data : bytes) : option DecodedAttachPayload :=
  if lenN data <? 4 then None
  else
    let session_id := be_val (slice data 0 4) in
    if lenN data =? 4 then Some (mkDecoded session_id (mkEnvironment ∅))
    else if (lenN data <? 6) || negb (be_val (slice data 4 5) =? ATTACH_CONTEXT_VERSION) then None
    else
      let count := be_val (slice data 5 6) in
      if MAX_CONNECTION_ENV_VARIABLES <? count then None
      else
        '(pairs, _) ← decode_context count data 6;
        connection_env ← from_pairs pairs;
        Some (mkDecoded session_id connection_env).

(** What [from_pairs] guarantees. *)
Definition environment_ok (e : ConnectionEnvironment) : Prop :=
  N.of_nat (size (variables e)) <= MAX_CONNECTION_ENV_VARIABLES /\
  map_Forall (fun n v => valid_connection_variable n v = true) (variables e).

Lemma insert_pairs_ok m pairs m' :
  N.of_nat (size m) <= MAX_CONNECTION_ENV_VARIABLES ->
  map_Forall (fun n v => valid_connection_variable n v = true) m ->
  insert_pairs m pairs = Some m' ->
  environment_ok (mkEnvironment m').
Proof.
  revert m; induction pairs as [|[n v] pairs IH]; intros m Hs Hm; cbn; [by intros [= <-]|].
  destruct (_ || _) eqn:Hc; [done|]. boolp. destruct (m !! n) eqn:Hn; [done|].
  intros Hrec. eapply IH; [..|exact Hrec].
  - rewrite map_size_insert_None by done. lia.
  - by apply map_Forall_insert_2.
Qed.

Lemma insert_pairs_fresh m pairs :
  NoDup pairs.*1 -> (forall n, n ∈ pairs.*1 -> m !! n = None) ->
  Forall (fun x => valid_connection_variable x.1 x.2 = true) pairs ->
  N.of_nat (size m + length pairs) <= MAX_CONNECTION_ENV_VARIABLES ->
  insert_pairs m pairs = Some (list_to_map pairs ∪ m).
Proof.
  revert m; induction pairs as [|[n v] pairs IH]; intros m Hd Hno HF Hs; cbn [insert_pairs].
  - by rewrite list_to_map_nil, (left_id_L ∅ (∪)).
  - cbn in Hd, Hno, HF, Hs. apply NoDup_cons in Hd as [Hni Hd]. apply Forall_cons in HF as [Hv HF].
    cbn in Hv. rewrite Hv, (Hno n) by left. cbn [negb orb].
    rewrite (proj2 (N.leb_gt _ _)) by lia. cbn [orb].
    rewrite IH.
    + f_equal. cbn. rewrite <- insert_union_l. symmetry. apply insert_union_r.
      by apply not_elem_of_list_to_map.
    + done.
    + intros n' Hin. apply lookup_insert_None. split; [apply Hno; by right|]. by intros ->.
    + done.
    + rewrite map_size_insert_None by (apply Hno; left). lia.
Qed.

Lemma iter_permutation e : iter e ≡ₚ map_to_list (variables e).
Proof. apply merge_sort_Permutation. Qed.

Lemma iter_fst_NoDup e : NoDup (iter e).*1.
Proof. rewrite iter_permutation. apply NoDup_fst_map_to_list. Qed.

Lemma iter_length e : length (iter e) = size (variables e).
Proof. rewrite iter_permutation. apply length_map_to_list. Qed.

Lemma iter_Forall e P : map_Forall P (variables e) -> Forall (fun x => P x.1 x.2) (iter e).
Proof.
  intros HP. rewrite iter_permutation. apply Forall_forall. intros [n v] Hin.
  by apply HP, elem_of_map_to_list.
Qed.

Lemma from_pairs_iter e : environment_ok e -> from_pairs (iter e) = Some e.
Proof.
  intros [Hs Hv]. unfold from_pairs. rewrite insert_pairs_fresh.
  - rewrite (right_id_L ∅ (∪)). cbn.
    rewrite (list_to_map_proper (iter e) (map_to_list (variables e)));
      [|apply iter_fst_NoDup|apply iter_permutation].
    rewrite list_to_map_to_list. by destruct e.
  - apply iter_fst_NoDup.
  - intros n _. apply lookup_empty.
  - by apply (iter_Forall e (fun n v => valid_connection_variable n v = true)).
  - rewrite map_size_empty, iter_length. cbn. lia.
Qed.

(** The type invariant of the [String] values. *)
Definition values_ok (e : ConnectionEnvironment) : Prop :=
  map_Forall (fun _ v => str_ok v) (variables e).

Lemma valid_connection_variable_bounds n v :
  valid_connection_variable n v = true -> str_ok n /\ lenN n <= 32 /\ lenN v <= 4096.
Proof.
  unfold valid_connection_variable. intros Hb. boolp. unfold MAX_CONNECTION_ENV_NAME, MAX_CONNECTION_ENV_VALUE in *.
  split_and!; [|lia..]. apply utf8_valid_ascii.
  assert (HF : Forall (fun n => forallb is_ascii_byte n = true) CONNECTION_ENV_ALLOWLIST)
    by (by repeat constructor).
  rewrite Forall_forall in HF. by apply HF.
Qed.

Lemma reads_variable x :
  valid_connection_variable x.1 x.2 = true -> str_ok x.2 ->
  Cursor.Reads decode_variable (encode_variable x) x.
Proof.
  intros (Hn & Hln & Hlv)%valid_connection_variable_bounds Hv. destruct x as [n v]. cbn [fst snd] in *.
  unfold decode_variable, encode_variable. cbn [fst snd].
  assert (Hu : is_u16 (lenN v)) by (unfold is_u16; lia).
  eapply Cursor.reads_bind; [apply Cursor.reads_u8; unfold is_u8; lia|].
  eapply Cursor.reads_bind; [by apply Cursor.reads_take|].
  eapply Cursor.reads_skip; [apply Cursor.reads_lift, from_utf8_Some; done|].
  unfold as_u16. rewrite N.mod_small by exact Hu.
  eapply Cursor.reads_bind; [by apply Cursor.reads_u16|].
  eapply Cursor.reads_last; [by apply Cursor.reads_take|].
  eapply Cursor.reads_skip; [apply Cursor.reads_lift, from_utf8_Some; done|].
  apply Cursor.reads_ret.
Qed.

Lemma decode_context_encode e pre :
  environment_ok e -> values_ok e -> lenN pre = 6 ->
  decode_context (N.of_nat (size (variables e))) (pre ++ concat (map encode_variable (iter e))) 6 =
  Some (iter e, lenN (pre ++ concat (map encode_variable (iter e)))).
Proof.
  intros [Hs Hv] Hok Hpre. unfold decode_context.
  assert (HR : Cursor.Reads (times (length (iter e)) decode_variable)
                 (concat (map encode_variable (iter e))) (map id (iter e))).
  { apply Cursor.reads_times; [done|].
    eapply Forall_impl.
    - apply (iter_Forall e (fun n v => Cursor.Reads decode_variable (encode_variable (n, v)) (id (n, v)))).
      intros n v Hl. apply reads_variable; [by apply (Hv n v)|by apply (Hok n v)].
    - by intros [n v]. }
  specialize (HR pre []). rewrite app_nil_r, Hpre, list_fmap_id in HR.
  rewrite Nat2N.id, <- iter_length, HR, lenN_app, Hpre. by rewrite N.eqb_refl.
Qed.

Lemma decode_attach_sound data d :
  decode_attach data = Some d -> environment_ok (connection_env d).
Proof.
  unfold decode_attach. destruct (_ <? 4); [done|]. destruct (_ =? 4).
  { intros [= <-]. cbn. split; [by vm_compute|apply map_Forall_empty]. }
  destruct (_ || _); [done|]. cbv zeta. destruct (_ <? _); [done|]. intros Hd.
  apply bind_Some in Hd as ([pairs o] & _ & Hd). apply bind_Some in Hd as (env & He & [= <-]).
  apply bind_Some in He as (vs & Hvs & [= <-]). cbn.
  eapply insert_pairs_ok; [..|exact Hvs]; [by vm_compute|apply map_Forall_empty].
Qed.

Lemma decode_attach_bare id :
  is_u32 id -> decode_attach (encode_attach id) = Some (mkDecoded id (mkEnvironment ∅)).
Proof.
  intros Hid. unfold decode_attach, encode_attach. cbv zeta. rewrite lenN_u32_be.
  rewrite slice_all by (rewrite ?lenN_u32_be; done). by rewrite u32_be_val.
Qed.

Lemma decode_attach_context id e :
  is_u32 id -> environment_ok e -> values_ok e ->
  decode_attach (encode_attach_with_context id e) = Some (mkDecoded id e).
Proof.
  intros Hid He Hv. pose proof (proj1 He) as Hs. unfold MAX_CONNECTION_ENV_VARIABLES in Hs.
  set (c := N.of_nat (size (variables e))) in *.
  set (rest := concat (map encode_variable (iter e))).
  set (pre := u32_be id ++ [byte_of 1] ++ [byte_of c]).
  assert (Hpre : lenN pre = 6) by (unfold pre; by rewrite !lenN_app, lenN_u32_be).
  assert (Henc : encode_attach_with_context id e = pre ++ rest)
    by (unfold pre, encode_attach_with_context; by rewrite <- !app_assoc).
  assert (H4 : slice (pre ++ rest) 0 4 = u32_be id).
  { rewrite slice_app_l by lia. unfold pre. by apply slice_prefix. }
  assert (H5 : slice (pre ++ rest) 4 5 = [byte_of 1]).
  { rewrite slice_app_l by lia. unfold pre. by apply slice_app. }
  assert (H6 : slice (pre ++ rest) 5 6 = [byte_of c]).
  { rewrite slice_app_l by lia. unfold pre. rewrite app_assoc. by apply slice_suffix. }
  rewrite Henc. unfold decode_attach. cbv zeta. rewrite H4, H5, H6, u32_be_val by done.
  rewrite (Cursor.be_val_single c) by (unfold is_u8; lia). unfold MAX_CONNECTION_ENV_VARIABLES.
  assert (Hl : 6 <= lenN (pre ++ rest)) by (rewrite lenN_app; lia).
  ndec. cbn [orb].
  change (negb (be_val [byte_of 1] =? ATTACH_CONTEXT_VERSION)) with false. cbn iota.
  unfold c, rest. rewrite (decode_context_encode e pre He Hv Hpre). cbn.
  by rewrite from_pairs_iter.
Qed.

(** Attaching.  The context-free request decodes to an empty
    environment; a request with a context the allow-list admits decodes to
    exactly that context; and whatever the bytes, a decoded environment holds
    at most eight variables, each on the allow-list, non-empty, at most 4096
    bytes long and free of control characters. *)
Theorem attach_context_roundtrip session_id e data :
  is_u32 session_id -> environment_ok e -> values_ok e ->
  decode_attach (encode_attach session_id) = Some (mkDecoded session_id (mkEnvironment ∅)) /\
  decode_attach (encode_attach_with_context session_id e) = Some (mkDecoded session_id e) /\
  (forall d, decode_attach data = Some d -> environment_ok (connection_env d)).
Proof.
  intros Hid He Hv. split_and!; [| |apply decode_attach_sound].
  - apply decode_attach_bare. exact Hid.
  - by apply decode_attach_context.
Qed.

Definition sample_environment : ConnectionEnvironment :=
  mkEnvironment (<[lit "TERM" := lit "xterm"]> {[lit "DISPLAY" := lit ":0"]}).

Lemma attach_context_roundtrip_witness :
  decode_attach (encode_attach_with_context 9 sample_environment) =
    Some (mkDecoded 9 sample_environment).
Proof.
  apply (attach_context_roundtrip 9 sample_environment []).
  - by vm_compute.
  - split; [by vm_compute|].
    apply map_Forall_insert_2; [by vm_compute|]. apply map_Forall_singleton. by vm_compute.
  - apply map_Forall_insert_2; [by vm_compute|]. apply map_Forall_singleton. by vm_compute.
Defined.
End AttachContext.
