(* ===== verification/Metadata.v ===== *)
(** * Metadata: the table of sessions.

    Models [crates/persist-metadata/src/store.rs]: the rows of [sessions], the
    rows of [session_tags], and one definition per method, whose SQL statement
    is written as the change it makes to the rows.  What SQLite answers, and the
    time, are arguments: a statement that fails changes nothing. *)
From S2P Require Import Prelude OrderedMap Bytes Utf8 Effects.
From stdpp Require Import pretty sorting.
From Stdlib Require Import Lia.
Import String.StringSyntax.
Local Open Scope N_scope.

Module Metadata.

Record SessionRecord : Type := mkRecord {
  session_id : N;
  name : str;
  status : str;
  created_at : str;
  updated_at : str;
  closed_at : option str;
  cwd : option str;
  shell : option str;
  exit_code : option Z;
  note : option str;
  pinned : bool;
  locked : bool;
  env_snapshot : option str;
  holder_instance : option str;
  holder_generation : option Z;
}.

Record MetadataStore : Type := mkStore {
  sessions : gmap N SessionRecord;
  session_tags : gset (N * str);
}.

Definition empty : MetadataStore := mkStore ∅ ∅.

(** What the database answers to one statement, and the time of day. *)
Record Db : Type := mkDb { now : str; answers : bool }.

Definition H (A : Type) : Type := M MetadataStore persist_error A.

(** ** Time *)

Definition is_leap (y : Z) : bool :=
  ((y mod 4 =? 0) && negb (y mod 100 =? 0) || (y mod 400 =? 0))%Z.
Definition year_days (y : Z) : Z := if is_leap y then 366 else 365.
Definition month_days (y : Z) : list Z :=
  (if is_leap y then [31; 29; 31; 30; 31; 30; 31; 31; 30; 31; 30; 31]
   else [31; 28; 31; 30; 31; 30; 31; 31; 30; 31; 30; 31])%Z.

(** The loop over the years; [None] is fuel exhausted. *)
Fixpoint year_loop (fuel : nat) (y remaining : Z) : option (Z * Z) :=
  match fuel with
  | O => None
  | S fuel' =>
      if (remaining <? year_days y)%Z then Some (y, remaining)
      else year_loop fuel' (y + 1)%Z (remaining - year_days y)%Z
  end.

(** The loop over the months: [m] stays 0 when no month is found. *)
Fixpoint month_loop (i : Z) (months : list Z) (remaining : Z) : Z * Z :=
  match months with
  | [] => (0, remaining)%Z
  | md :: months' =>
      if (remaining <? md)%Z then (i + 1, remaining)%Z
      else month_loop (i + 1)%Z months' (remaining - md)%Z
  end.

(** Enough rounds: each year has at least 365 days. *)
Definition year_fuel (days : Z) : nat := S (Z.to_nat (days / 365)).

Definition civil (days : Z) : option (Z * Z * Z) :=
  '(y, remaining) ← year_loop (year_fuel days) 1970 days;
  let '(m, remaining) := month_loop 0 (month_days y) remaining in
  Some (y, if (m =? 0)%Z then 12%Z else m, (remaining + 1)%Z).

(** [{:0w}] of a number that is not negative. *)
Definition padded (w : nat) (n : N) : str :=
  let digits := lit (pretty n) in replicate (w - length digits) Byte.x30 ++ digits.

Definition format_iso (secs : N) : option str :=
  let time_secs := secs mod 86400 in
  '(y, m, d) ← civil (Z.of_N (secs / 86400));
  Some (padded 4 (Z.to_N y) ++ lit "-" ++ padded 2 (Z.to_N m) ++ lit "-" ++ padded 2 (Z.to_N d) ++
    lit "T" ++ padded 2 (time_secs / 3600) ++ lit ":" ++ padded 2 (time_secs mod 3600 / 60) ++
    lit ":" ++ padded 2 (time_secs mod 60) ++ lit "Z").

(** ** Statements *)

Definition set_sessions (f : gmap N SessionRecord -> gmap N SessionRecord) (s : MetadataStore)
  : MetadataStore := mkStore (f (sessions s)) (session_tags s).
Definition set_tags (f : gset (N * str) -> gset (N * str)) (s : MetadataStore) : MetadataStore :=
  mkStore (sessions s) (f (session_tags s)).

(** [UPDATE sessions SET .. WHERE session_id = ?]: the number of rows. *)
Definition update (db : Db) (operation : String.string) (id : N)
    (f : SessionRecord -> SessionRecord) : H N :=
  if answers db then
    s ← get;
    _ ← modify (set_sessions (alter f id));
    mret (match sessions s !! id with Some _ => 1 | None => 0 end)
  else fail (MetadataOperation operation).

Definition require_session_updated (affected : N) : result persist_error unit :=
  if affected =? 0 then invalid_argument "session not found" else Ok tt.

Definition is_ascii_hexdigit (b : byte) : bool :=
  is_ascii_digit b || (0x41 <=? byte_val b) && (byte_val b <=? 0x46) ||
  (0x61 <=? byte_val b) && (byte_val b <=? 0x66).
Definition i64_max : N := 9223372036854775807.

Definition validate_holder_state (instance : str) (generation : N) : result persist_error unit :=
  if negb (lenN instance =? 32) || negb (forallb is_ascii_hexdigit instance)
  then invalid_argument "holder instance must be 16-byte hexadecimal"
  else if i64_max <? generation
  then invalid_argument "holder generation exceeds metadata integer range"
  else Ok tt.

(** [COALESCE(a, b)] *)
Definition coalesce {A} (a b : option A) : option A :=
  match a with Some _ => a | None => b end.

Definition set_status (r : SessionRecord) (st : str) (closed : option str) (code : option Z)
    (at' : str) : SessionRecord :=
  mkRecord (session_id r) (name r) st (created_at r) at' closed (cwd r) (shell r) code (note r)
    (pinned r) (locked r) (env_snapshot r) (holder_instance r) (holder_generation r).
Definition set_context (r : SessionRecord) (dir env : option str) : SessionRecord :=
  mkRecord (session_id r) (name r) (status r) (created_at r) (updated_at r) (closed_at r)
    (coalesce dir (cwd r)) (shell r) (exit_code r) (note r) (pinned r) (locked r)
    (coalesce env (env_snapshot r)) (holder_instance r) (holder_generation r).
Definition set_holder (r : SessionRecord) (instance : str) (generation : N) : SessionRecord :=
  mkRecord (session_id r) (name r) (status r) (created_at r) (updated_at r) (closed_at r) (cwd r)
    (shell r) (exit_code r) (note r) (pinned r) (locked r) (env_snapshot r) (Some instance)
    (Some (Z.of_N generation)).

Definition create_session (db : Db) (id : N) (nm : str) (dir sh : option str) : H unit :=
  s ← get;
  if answers db && bool_decide (sessions s !! id = None) then
    modify (set_sessions <[id := mkRecord id nm (lit "running") (now db) (now db) None dir sh None
      None false false None None None]>)
  else fail (MetadataOperation "create session metadata").

Definition max_id (s : MetadataStore) : N := foldr (fun x m => N.max x.1 m) 0 (map_to_list (sessions s)).

Definition next_session_id (db : Db) : H N :=
  if answers db then
    s ← get;
    if u32_max <? max_id s then fail (InvalidArgument "session id is out of range")
    else if u32_max <? max_id s + 1 then fail (InvalidArgument "session id space exhausted")
    else mret (max_id s + 1)
  else fail (MetadataOperation "find next session id").

Definition get_session (db : Db) (id : N) : H (option SessionRecord) :=
  if answers db then s ← get; mret (sessions s !! id)
  else fail (MetadataOperation "query get session").

Definition reconcile_running (db : Db) (id : N) (instance : str) (generation : N) : H unit :=
  _ ← lift (validate_holder_state instance generation);
  affected ← update db "reconcile running holder session" id (fun r =>
    set_holder (set_status r (lit "running") None None (now db)) instance generation);
  lift (require_session_updated affected).

Definition reconcile_exited_with_context (db : Db) (id : N) (code : Z) (dir env : option str)
    (instance : str) (generation : N) : H unit :=
  _ ← lift (validate_holder_state instance generation);
  affected ← update db "reconcile exited holder session" id (fun r =>
    set_holder (set_context (set_status r (lit "closed") (coalesce (closed_at r) (Some (now db)))
      (Some code) (now db)) dir env) instance generation);
  lift (require_session_updated affected).

Definition is_active (st : str) : bool :=
  bool_decide (st = lit "running") || bool_decide (st = lit "attached") ||
  bool_decide (st = lit "detached").

Definition mark_lost (db : Db) (id : N) (instance : str) (generation : N) : H unit :=
  _ ← lift (validate_holder_state instance generation);
  _ ← update db "mark missing holder session lost" id (fun r =>
    if is_active (status r)
    then set_holder (set_status r (lit "lost") (closed_at r) (exit_code r) (now db)) instance generation
    else r);
  mret tt.

Definition close_session_with_context (db : Db) (id : N) (code : Z) (dir env : option str) : H unit :=
  _ ← update db "close session with recovery context" id (fun r =>
    set_context (set_status r (lit "closed") (Some (now db)) (Some code) (now db)) dir env);
  mret tt.

Definition reopen_session (db : Db) (id : N) : H unit :=
  affected ← update db "reopen closed session" id (fun r =>
    set_status r (lit "running") None None (now db));
  lift (require_session_updated affected).

Definition list_sessions (db : Db) : H (list SessionRecord) :=
  if answers db then s ← get; mret (map snd (ordered (sessions s)))
  else fail (MetadataOperation "query list sessions").

Definition list_sessions_by_status (db : Db) (st : str) : H (list SessionRecord) :=
  if answers db then
    s ← get; mret (filter (fun r => status r = st) (map snd (ordered (sessions s))))
  else fail (MetadataOperation "query list sessions by status").

Definition update_status (db : Db) (id : N) (st : str) : H unit :=
  _ ← update db "update session status" id (fun r =>
    set_status r st (closed_at r) (exit_code r) (now db));
  mret tt.

Definition reconcile_exited (db : Db) (id : N) (code : Z) (dir : option str) (instance : str)
    (generation : N) : H unit :=
  reconcile_exited_with_context db id code dir None instance generation.

Definition close_session (db : Db) (id : N) (code : Z) : H unit :=
  _ ← update db "close session" id (fun r =>
    set_status r (lit "closed") (Some (now db)) (Some code) (now db));
  mret tt.

Definition set_name (r : SessionRecord) (nm at' : str) : SessionRecord :=
  mkRecord (session_id r) nm (status r) (created_at r) at' (closed_at r) (cwd r) (shell r)
    (exit_code r) (note r) (pinned r) (locked r) (env_snapshot r) (holder_instance r)
    (holder_generation r).
Definition set_note (r : SessionRecord) (n : option str) (at' : str) : SessionRecord :=
  mkRecord (session_id r) (name r) (status r) (created_at r) at' (closed_at r) (cwd r) (shell r)
    (exit_code r) n (pinned r) (locked r) (env_snapshot r) (holder_instance r) (holder_generation r).
Definition set_pinned (r : SessionRecord) (p : bool) (at' : str) : SessionRecord :=
  mkRecord (session_id r) (name r) (status r) (created_at r) at' (closed_at r) (cwd r) (shell r)
    (exit_code r) (note r) p (locked r) (env_snapshot r) (holder_instance r) (holder_generation r).
Definition set_locked (r : SessionRecord) (l : bool) (at' : str) : SessionRecord :=
  mkRecord (session_id r) (name r) (status r) (created_at r) at' (closed_at r) (cwd r) (shell r)
    (exit_code r) (note r) (pinned r) l (env_snapshot r) (holder_instance r) (holder_generation r).

Definition rename_session (db : Db) (id : N) (nm : str) : H unit :=
  affected ← update db "rename session" id (fun r => set_name r nm (now db));
  lift (require_session_updated affected).
Definition set_session_note (db : Db) (id : N) (n : option str) : H unit :=
  affected ← update db "set session note" id (fun r => set_note r n (now db));
  lift (require_session_updated affected).
Definition set_session_pinned (db : Db) (id : N) (p : bool) : H unit :=
  affected ← update db "set session pinned" id (fun r => set_pinned r p (now db));
  lift (require_session_updated affected).
Definition set_session_locked (db : Db) (id : N) (l : bool) : H unit :=
  affected ← update db "set session locked" id (fun r => set_locked r l (now db));
  lift (require_session_updated affected).

(** *** Tags *)

(** [char::is_whitespace] *)
Definition char_is_whitespace (c : bytes) : bool :=
  match c with
  | [b] => (0x09 <=? byte_val b) && (byte_val b <=? 0x0D) || (byte_val b =? 0x20)
  | [b0; b1] => (byte_val b0 =? 0xC2) && ((byte_val b1 =? 0x85) || (byte_val b1 =? 0xA0))
  | [b0; b1; b2] =>
      (byte_val b0 =? 0xE1) && (byte_val b1 =? 0x9A) && (byte_val b2 =? 0x80) ||
      (byte_val b0 =? 0xE2) && (byte_val b1 =? 0x80) &&
        ((byte_val b2 <=? 0x8A) || (byte_val b2 =? 0xA8) || (byte_val b2 =? 0xA9) ||
         (byte_val b2 =? 0xAF)) ||
      (byte_val b0 =? 0xE2) && (byte_val b1 =? 0x81) && (byte_val b2 =? 0x9F) ||
      (byte_val b0 =? 0xE3) && (byte_val b1 =? 0x80) && (byte_val b2 =? 0x80)
  | _ => false
  end.
(** [s.trim().is_empty()] *)
Definition blank (s : str) : bool := forallb char_is_whitespace (chars s).

(** [foreign_keys]: whether the connection enforces the foreign key of
    [session_tags], which [OR IGNORE] does not ignore. *)
Definition add_session_tag (foreign_keys : bool) (db : Db) (id : N) (tag : str) : H unit :=
  if blank tag || contains (lit " ") tag
  then fail (InvalidArgument "tag must be non-empty and contain no spaces")
  else
    s ← get;
    if answers db && (negb foreign_keys || bool_decide (is_Some (sessions s !! id)))
    then modify (set_tags (union {[(id, tag)]}))
    else fail (MetadataOperation "add session tag").

Definition remove_session_tag (db : Db) (id : N) (tag : str) : H unit :=
  if answers db then
    s ← get;
    if bool_decide ((id, tag) ∈ session_tags s)
    then modify (set_tags (fun tags => tags ∖ {[(id, tag)]}))
    else fail (InvalidArgument "tag not found on session")
  else fail (MetadataOperation "remove session tag").

Definition list_session_tags (db : Db) (id : N) : H (list str) :=
  if answers db then
    s ← get;
    mret (merge_sort str_le (map snd (filter (fun x => x.1 = id) (elements (session_tags s)))))
  else fail (MetadataOperation "query list session tags").

Definition find_sessions_by_tag (db : Db) (tag : str) : H (list N) :=
  if answers db then
    s ← get;
    mret (merge_sort N.le (map fst (filter (fun x => x.2 = tag) (elements (session_tags s)))))
  else fail (MetadataOperation "query find sessions by tag").

Definition session_has_tag (db : Db) (id : N) (tag : str) : H bool :=
  if answers db then s ← get; mret (bool_decide ((id, tag) ∈ session_tags s))
  else fail (MetadataOperation "query check session tag").

(** ** Dates are the Gregorian calendar *)

(** The number of days before the first of January of [y], counted from the
    first of January 1970. *)
Definition days_before_year (y : Z) : Z :=
  (365 * (y - 1970) + ((y - 1) / 4 - 1969 / 4) - ((y - 1) / 100 - 1969 / 100)
   + ((y - 1) / 400 - 1969 / 400))%Z.

Definition days_before_month (y m : Z) : Z :=
  foldr Z.add 0%Z (take (Z.to_nat (m - 1)) (month_days y)).

Lemma div_next k y : (0 < k)%Z -> (y / k = (y - 1) / k + (if y mod k =? 0 then 1 else 0))%Z.
Proof.
  intros Hk. destruct (Z.eqb_spec (y mod k) 0) as [E|E].
  - apply Z.mod_divide in E as [q ->]; [|lia]. rewrite Z.div_mul by lia.
    assert ((q * k - 1) / k = q - 1)%Z as ->; [|lia].
    symmetry. apply (Z.div_unique _ _ _ (k - 1)); lia.
  - rewrite Z.add_0_r. pose proof (Z.mod_pos_bound y k Hk). apply (Z.div_unique _ _ _ (y mod k - 1)); [lia|].
    pose proof (Z.div_mod y k ltac:(lia)). lia.
Qed.

Lemma leap_divides y : (y mod 400 = 0 -> y mod 100 = 0)%Z /\ (y mod 100 = 0 -> y mod 4 = 0)%Z.
Proof.
  split; intros E; apply Z.mod_divide in E as [q ->]; try lia; apply Z.mod_divide; try lia.
  - exists (q * 4)%Z. lia.
  - exists (q * 25)%Z. lia.
Qed.

Lemma days_before_year_next y : days_before_year (y + 1) = (days_before_year y + year_days y)%Z.
Proof.
  unfold days_before_year, year_days, is_leap. replace (y + 1 - 1)%Z with y by lia.
  rewrite (div_next 4 y), (div_next 100 y), (div_next 400 y) by lia. pose proof (leap_divides y) as [H1 H2].
  destruct (Z.eqb_spec (y mod 4) 0), (Z.eqb_spec (y mod 100) 0), (Z.eqb_spec (y mod 400) 0);
    cbn [andb orb negb]; try lia; tauto.
Qed.

Lemma year_loop_spec fuel y remaining : (0 <= remaining)%Z -> (Z.to_nat (remaining / 365) < fuel)%nat ->
  exists y' r, year_loop fuel y remaining = Some (y', r) /\ (y <= y')%Z /\ (0 <= r < year_days y')%Z /\
    (days_before_year y' + r = days_before_year y + remaining)%Z.
Proof.
  revert y remaining; induction fuel as [|fuel IH]; intros y remaining Hr Hf; [lia|]. cbn [year_loop].
  destruct (Z.ltb_spec remaining (year_days y)) as [Hl|Hl]; [exists y, remaining; split_and!; first [reflexivity|lia]|].
  assert (Hy : (365 <= year_days y)%Z) by (unfold year_days; destruct (is_leap y); lia).
  destruct (IH (y + 1)%Z (remaining - year_days y)%Z) as (y' & r & He & Hle & Hb & Hd); [lia| |].
  { assert (((remaining - year_days y) / 365 <= remaining / 365 - 1)%Z).
    { transitivity ((remaining - 365) / 365)%Z; [apply Z.div_le_mono; lia|].
      replace (remaining - 365)%Z with (remaining + (-1) * 365)%Z by lia. rewrite Z.div_add by lia. lia. }
    assert (0 <= remaining / 365)%Z by (apply Z.div_pos; lia).
    assert (1 <= remaining / 365)%Z by (apply Z.div_le_lower_bound; lia). lia. }
  exists y', r. split_and!; [done|lia|apply Hb|apply Hb|]. rewrite Hd, days_before_year_next. lia.
Qed.

Lemma month_loop_spec i months remaining :
  (0 <= remaining < foldr Z.add 0 months)%Z -> Forall (fun md => 0 < md)%Z months ->
  exists m r md, month_loop i months remaining = (i + Z.of_nat m + 1, r)%Z /\ months !! m = Some md /\
    (0 <= r < md)%Z /\ (foldr Z.add 0 (take m months) + r = remaining)%Z.
Proof.
  revert i remaining; induction months as [|md months IH]; intros i remaining Hr Hp; cbn in Hr; [lia|].
  apply Forall_cons in Hp as [Hmd Hp]. cbn [month_loop]. destruct (Z.ltb_spec remaining md) as [Hl|Hl].
  - exists 0%nat, remaining, md. cbn. split_and!; [f_equal; lia|done|lia..].
  - destruct (IH (i + 1)%Z (remaining - md)%Z) as (m & r & d & He & Hm & Hb & Hs); [lia|done|].
    exists (S m), r, d. cbn [take foldr lookup list_lookup]. split_and!; [rewrite He; f_equal; lia|done|lia..|lia].
Qed.

(** The date that is written for a day is the day of the Gregorian calendar
    that is that many days after the first of January 1970; its loops end. *)
Theorem civil_is_gregorian days : (0 <= days)%Z ->
  exists y m d md, civil days = Some (y, m, d) /\ (1970 <= y)%Z /\
    month_days y !! Z.to_nat (m - 1) = Some md /\ (1 <= m <= 12)%Z /\ (1 <= d <= md)%Z /\
    (days_before_year y + days_before_month y m + (d - 1) = days)%Z.
Proof.
  intros Hd. unfold civil.
  destruct (year_loop_spec (year_fuel days) 1970 days Hd) as (y & r & He & Hy & Hr & Hs);
    [unfold year_fuel; lia|]. rewrite He. cbn [mbind option_bind].
  destruct (month_loop_spec 0 (month_days y) r) as (m & q & md & Hm & Hmd & Hq & Hsum).
  { unfold year_days, month_days in *. destruct (is_leap y); cbn; lia. }
  { unfold month_days. destruct (is_leap y); repeat constructor. }
  rewrite Hm. assert (Hlt : (m < 12)%nat).
  { apply lookup_lt_Some in Hmd. unfold month_days in Hmd. by destruct (is_leap y). }
  destruct (Z.eqb_spec (0 + Z.of_nat m + 1) 0); [lia|].
  eexists y, _, _, md. split; [reflexivity|]. unfold days_before_month.
  replace (Z.to_nat (0 + Z.of_nat m + 1 - 1)) with m by lia. split_and!; [done|done|lia..|].
  assert (days_before_year 1970 = 0)%Z as H0 by reflexivity. lia.
Qed.

Lemma civil_is_gregorian_witness : exists y m d md, civil 20000 = Some (y, m, d) /\
  month_days y !! Z.to_nat (m - 1) = Some md /\ (1 <= d <= md)%Z.
Proof.
  destruct (civil_is_gregorian 20000 ltac:(lia)) as (y & m & d & md & He & _ & Hm & _ & Hd & _).
  by exists y, m, d, md.
Defined.
End Metadata.
