(* ===== verification/Reconcile.v ===== *)
(** * Reconcile: matching the holder's sessions with the table.

    Models [crates/persistd/src/holder/reconcile.rs] ([reconcile_metadata]),
    with [HolderInventorySnapshot] and [ExitContext] of [holder/mod.rs] and the
    environment column of [crates/persist-metadata/src/environment.rs].  The
    outcome for one row is [outcome]; [reconcile_spec] says the code computes
    it. *)
From S2P Require Import Prelude OrderedMap Bytes Utf8 HolderMessages Environment Effects Metadata.
From Stdlib Require Import Lia.
Import String.StringSyntax.
Import Environment(SnapshotJson, EnvironmentSnapshot, EnvironmentPolicy).
Import Inventory(HolderSessionEntry, Running, Exited).
Import Metadata.
Local Open Scope N_scope.

Module Reconcile.

Record ExitContext : Type := mkExit {
  x_session_id : N; x_exit_code : Z; x_cwd : option str; x_environment : option EnvironmentSnapshot }.

Record HolderInventorySnapshot : Type := mkSnapshot {
  instance_id : bytes; generation : N; entries : list HolderSessionEntry }.

Definition HEX : list byte := lit "0123456789abcdef".
Definition hex_digit (n : N) : byte := nth (N.to_nat n) HEX Byte.x00.
Definition instance_hex (s : HolderInventorySnapshot) : str :=
  concat (map (fun b => [hex_digit (N.shiftr (byte_val b) 4); hex_digit (N.land (byte_val b) 0x0f)])
    (instance_id s)).

Record ReconciliationResult : Type := mkResult {
  orphaned_sessions : gset N; exited_sessions : list N }.

Definition instance_conflicts (r : SessionRecord) (current : str) : bool :=
  match holder_instance r with Some i => negb (bool_decide (i = current)) | None => false end.

#[local] Instance state_eq_dec : EqDecision Inventory.HolderSessionState.
Proof. solve_decision. Defined.

Section reconcile.
Context `{SnapshotJson}.

(** [encode_environment] of persist-metadata. *)
Definition encode_environment (snapshot : EnvironmentSnapshot) (policy : EnvironmentPolicy)
  : result persist_error str :=
  filtered ← Environment.filter_snapshot policy snapshot;
  encoded ← Environment.encode_environment_snapshot filtered;
  ok_or (from_utf8 encoded) (InvalidArgument "environment metadata is not UTF-8").

Context (policy : EnvironmentPolicy) (snapshot : HolderInventorySnapshot)
  (exit_contexts : gmap N ExitContext).

(** [db id] is what the database answers to the statement about session [id]. *)
Context (db : N -> Db).

Definition orphan (id : N) (acc : ReconciliationResult) : ReconciliationResult :=
  mkResult ({[id]} ∪ orphaned_sessions acc) (exited_sessions acc).

(** The exit code and the columns a context gives. *)
Definition exit_of (e : HolderSessionEntry) : result persist_error (Z * option str * option str) :=
  let context := exit_contexts !! Inventory.session_id e in
  if Inventory.exit_context_available e && match context with Some _ => false | None => true end
  then invalid_argument "exited Holder context was not queried"
  else
    exit_code ← ok_or (match context with Some x => Some (x_exit_code x) | None => Inventory.exit_code e end)
      (InvalidArgument "exited holder session is missing exit code");
    let environment := context ≫= x_environment in
    Ok (exit_code, context ≫= x_cwd,
        match environment with
        | Some s => match encode_environment s policy with Ok t => Some t | Err _ => None end
        | None => None
        end).

(** The body of the loop over the holder's sessions; [records] is the table
    before the loop. *)
Definition reconcile_entry (records : gmap N SessionRecord) (acc : ReconciliationResult)
    (e : HolderSessionEntry) : H ReconciliationResult :=
  let id := Inventory.session_id e in
  match records !! id with
  | None => mret (orphan id acc)
  | Some record =>
      if instance_conflicts record (instance_hex snapshot) then
        _ ← mark_lost (db id) id (instance_hex snapshot) (generation snapshot);
        mret (orphan id acc)
      else
        match Inventory.state e with
        | Running =>
            _ ← reconcile_running (db id) id (instance_hex snapshot) (generation snapshot);
            mret acc
        | Exited =>
            out ← lift (exit_of e);
            let '(exit_code, dir, environment) := out in
            _ ← reconcile_exited_with_context (db id) id exit_code dir environment
                  (instance_hex snapshot) (generation snapshot);
            mret (mkResult (orphaned_sessions acc) (exited_sessions acc ++ [id]))
        end
  end.

Fixpoint reconcile_entries (records : gmap N SessionRecord) (acc : ReconciliationResult)
    (l : list HolderSessionEntry) : H ReconciliationResult :=
  match l with
  | [] => mret acc
  | e :: l' => acc ← reconcile_entry records acc e; reconcile_entries records acc l'
  end.

(** The rows whose session the holder does not have.  [values] is the order in
    which the [HashMap] gives them. *)
Definition mark_missing (values : list SessionRecord) : H unit :=
  each (fun record =>
    let id := session_id record in
    if is_active (status record) &&
       negb (bool_decide (id ∈ map Inventory.session_id (entries snapshot)))
    then mark_lost (db id) id (instance_hex snapshot) (generation snapshot)
    else mret tt) values.

Definition reconcile_metadata (listing : Db) (order : list SessionRecord -> list SessionRecord)
  : H ReconciliationResult :=
  rows ← list_sessions listing;
  let records : gmap N SessionRecord := list_to_map (map (fun r => (session_id r, r)) rows) in
  acc ← reconcile_entries records (mkResult ∅ []) (entries snapshot);
  _ ← mark_missing (order (map snd (map_to_list records)));
  mret acc.

(** ** What becomes of a row *)

Definition lost (id : N) (r : SessionRecord) : SessionRecord :=
  if is_active (status r)
  then set_holder (set_status r (lit "lost") (closed_at r) (exit_code r) (now (db id)))
    (instance_hex snapshot) (generation snapshot)
  else r.

Definition fate (e : HolderSessionEntry) (r : SessionRecord) : SessionRecord :=
  let id := Inventory.session_id e in
  if instance_conflicts r (instance_hex snapshot) then lost id r
  else match Inventory.state e with
  | Running => set_holder (set_status r (lit "running") None None (now (db id)))
      (instance_hex snapshot) (generation snapshot)
  | Exited =>
      match exit_of e with
      | Ok (code, dir, env) =>
          set_holder (set_context (set_status r (lit "closed")
            (coalesce (closed_at r) (Some (now (db id)))) (Some code) (now (db id))) dir env)
            (instance_hex snapshot) (generation snapshot)
      | Err _ => r
      end
  end.

Definition entry_of (id : N) : option HolderSessionEntry :=
  List.find (fun e => Inventory.session_id e =? id) (entries snapshot).

Definition outcome (id : N) (r : SessionRecord) : SessionRecord :=
  match entry_of id with Some e => fate e r | None => lost id r end.

Definition is_orphan (records : gmap N SessionRecord) (e : HolderSessionEntry) : bool :=
  match records !! Inventory.session_id e with
  | None => true
  | Some r => instance_conflicts r (instance_hex snapshot)
  end.

(** ** The table *)

(** Every row is stored under its own id. *)
Definition keyed (s : MetadataStore) : Prop := map_Forall (fun id r => session_id r = id) (sessions s).

Definition answering : Prop := forall id, answers (db id) = true.
Definition stampable : Prop := length (instance_id snapshot) = 16%nat /\ generation snapshot <= i64_max.
Definition readable (e : HolderSessionEntry) : Prop :=
  Inventory.state e = Exited -> is_ok (exit_of e) = true.

Lemma hex_digit_ok n : n < 16 -> is_ascii_hexdigit (hex_digit n) = true.
Proof.
  intros Hn. assert (Hall : forallb is_ascii_hexdigit HEX = true) by reflexivity.
  assert (Hin : In (hex_digit n) HEX) by (apply nth_In; cbn; lia).
  exact (proj1 (forallb_forall _ _) Hall _ Hin).
Qed.

Lemma instance_hex_valid : stampable ->
  validate_holder_state (instance_hex snapshot) (generation snapshot) = Ok tt.
Proof.
  intros [Hl Hg]. unfold validate_holder_state, instance_hex.
  set (f := fun b : byte => _).
  assert (Hlen : forall l, lenN (concat (map f l)) = 2 * lenN l).
  { induction l as [|b l IH]; [done|]. cbn [map concat]. rewrite lenN_app, IH, lenN_cons.
    change (lenN (f b)) with 2. lia. }
  assert (Hok : forall l, forallb is_ascii_hexdigit (concat (map f l)) = true).
  { induction l as [|b l IH]; [done|]. cbn [map concat]. rewrite forallb_app, IH, andb_true_r.
    unfold f. cbn [forallb]. rewrite !hex_digit_ok; [done|..].
    - change 0x0f with (N.ones 4). rewrite N.land_ones. by apply N.mod_lt.
    - rewrite N.shiftr_div_pow2. apply N.Div0.div_lt_upper_bound. pose proof (byte_val_lt b). lia. }
  rewrite Hlen, Hok. unfold lenN. rewrite Hl. cbn. by apply N.ltb_ge in Hg as ->.
Qed.

Lemma update_spec d operation id f s Q : answers d = true ->
  Q (Ok (match sessions s !! id with Some _ => 1 | None => 0 end)) (set_sessions (alter f id) s) ->
  runs (update d operation id f) s Q.
Proof. intros Hd HQ. unfold update. rewrite Hd. by run. Qed.

Lemma alter_same (f : SessionRecord -> SessionRecord) id s : sessions s !! id = None ->
  set_sessions (alter f id) s = s.
Proof.
  intros Hn. destruct s as [m t]. unfold set_sessions. cbn. f_equal. apply map_eq. intros j.
  rewrite lookup_alter. case_decide; [subst|done]. cbn in Hn. by rewrite Hn.
Qed.

Lemma mark_lost_spec id s : answering -> stampable ->
  runs (mark_lost (db id) id (instance_hex snapshot) (generation snapshot)) s
    (fun r s' => r = Ok tt /\ s' = set_sessions (alter (lost id) id) s).
Proof.
  intros Ha Hst. unfold mark_lost. rewrite instance_hex_valid by done. run.
  apply update_spec; [done|]. by run.
Qed.

Lemma reconcile_entry_spec records acc e s : answering -> stampable -> readable e ->
  sessions s !! Inventory.session_id e = records !! Inventory.session_id e ->
  runs (reconcile_entry records acc e) s (fun r s' =>
    s' = set_sessions (alter (fate e) (Inventory.session_id e)) s /\
    r = Ok (mkResult
      (if is_orphan records e then {[Inventory.session_id e]} ∪ orphaned_sessions acc else orphaned_sessions acc)
      (if is_orphan records e then exited_sessions acc
       else match Inventory.state e with
            | Running => exited_sessions acc
            | Exited => exited_sessions acc ++ [Inventory.session_id e]
            end))).
Proof.
  intros Ha Hst Hr Hs. unfold reconcile_entry, is_orphan.
  destruct (records !! Inventory.session_id e) as [record|] eqn:Hrec.
  2:{ run. split; [by rewrite alter_same|done]. }
  destruct (instance_conflicts record (instance_hex snapshot)) eqn:Hc.
  { run. eapply runs_mono; [by apply mark_lost_spec|]. cbn beta. intros r s' [-> ->]. run.
    split; [|done]. unfold set_sessions. f_equal. apply map_eq. intros j. rewrite !lookup_alter.
    case_decide as E; [subst|done]. rewrite Hs. cbn. f_equal. unfold fate. by rewrite Hc. }
  assert (Hupd : forall f, fate e record = f record ->
    set_sessions (alter f (Inventory.session_id e)) s = set_sessions (alter (fate e) (Inventory.session_id e)) s).
  { intros f Hf. unfold set_sessions. f_equal. apply map_eq. intros j. rewrite !lookup_alter.
    case_decide as E; [subst|done]. rewrite Hs. cbn. by rewrite Hf. }
  unfold readable in Hr. assert (Hfate : fate e record = fate e record) by done.
  unfold fate in Hfate at 2. rewrite Hc in Hfate. destruct (Inventory.state e).
  - unfold reconcile_running. rewrite instance_hex_valid by done. run. apply update_spec; [done|].
    rewrite Hs. run. cbn [require_session_updated N.eqb]. run.
    split; [|by destruct acc]. by apply Hupd.
  - run. destruct (exit_of e) as [[[code dir] env]|] eqn:He; [|by specialize (Hr eq_refl)].
    unfold reconcile_exited_with_context. rewrite instance_hex_valid by done. run. apply update_spec; [done|].
    rewrite Hs. run. cbn [require_session_updated N.eqb]. run. split; [|done]. by apply Hupd.
Qed.

Definition orphans (records : gmap N SessionRecord) (l : list HolderSessionEntry) : gset N :=
  list_to_set (map Inventory.session_id (filter (fun e => is_orphan records e = true) l)).
Definition exits (records : gmap N SessionRecord) (l : list HolderSessionEntry) : list N :=
  map Inventory.session_id
    (filter (fun e => is_orphan records e = false /\ Inventory.state e = Exited) l).

(** The rows after the loop over [l]. *)
Definition settle (l : list HolderSessionEntry) (m : gmap N SessionRecord) : gmap N SessionRecord :=
  fold_left (fun m e => alter (fate e) (Inventory.session_id e) m) l m.

Lemma settle_other l m id : id ∉ map Inventory.session_id l -> settle l m !! id = m !! id.
Proof.
  revert m; induction l as [|e l IH]; intros m Hn; [done|]. cbn in *. apply not_elem_of_cons in Hn as [Hne Hn].
  rewrite IH by done. by rewrite lookup_alter_ne.
Qed.

Lemma settle_lookup l m e : NoDup (map Inventory.session_id l) -> e ∈ l ->
  settle l m !! Inventory.session_id e = fate e <$> m !! Inventory.session_id e.
Proof.
  revert m; induction l as [|x l IH]; intros m Hd He; [by apply elem_of_nil in He|].
  cbn in *. apply NoDup_cons in Hd as [Hni Hd]. apply elem_of_cons in He as [->|He].
  - change (settle l ?m0) with (settle l m0). rewrite settle_other by done. by rewrite lookup_alter_eq.
  - change (settle l ?m0) with (settle l m0). rewrite IH by done. rewrite lookup_alter_ne; [done|].
    intros Heq. apply Hni. rewrite Heq. apply list_elem_of_fmap. by exists e.
Qed.

Lemma reconcile_entries_spec records l acc s : answering -> stampable -> Forall readable l ->
  NoDup (map Inventory.session_id l) ->
  (forall e, e ∈ l -> sessions s !! Inventory.session_id e = records !! Inventory.session_id e) ->
  runs (reconcile_entries records acc l) s (fun r s' =>
    s' = set_sessions (settle l) s /\
    r = Ok (mkResult (orphans records l ∪ orphaned_sessions acc) (exited_sessions acc ++ exits records l))).
Proof.
  intros Ha Hst. revert acc s; induction l as [|e l IH]; intros acc s Hr Hd Hs; cbn [reconcile_entries].
  { run. destruct s, acc. cbn. split; [done|]. f_equal. f_equal; [set_solver|by rewrite app_nil_r]. }
  apply Forall_cons in Hr as [He Hr]. cbn in Hd. apply NoDup_cons in Hd as [Hni Hd]. run.
  eapply runs_mono; [apply (reconcile_entry_spec records); [done..|apply Hs; left]|].
  cbn beta. intros r s1 [-> ->].
  eapply runs_mono; [apply IH; [done|done|]|].
  - intros e' He'. cbn. rewrite lookup_alter_ne; [apply Hs; by right|].
    intros Heq. apply Hni. rewrite Heq. apply list_elem_of_fmap. by exists e'.
  - cbn beta. intros r s2 [-> ->]. split; [by destruct s|]. f_equal. cbn [orphaned_sessions exited_sessions].
    unfold orphans, exits. rewrite !filter_cons.
    destruct (is_orphan records e) eqn:Ho; cbn [map list_to_set].
    + rewrite decide_True by done. rewrite decide_False by naive_solver. cbn [map]. f_equal. set_solver.
    + rewrite decide_False by done. f_equal.
      destruct (Inventory.state e) eqn:Hst'.
      * rewrite decide_False by naive_solver. done.
      * rewrite decide_True by done. cbn [map]. by rewrite <- app_assoc.
Qed.

(** The rows the holder does not have. *)
Definition absent (id : N) : Prop := id ∉ map Inventory.session_id (entries snapshot).

Definition missing (values : list SessionRecord) (m : gmap N SessionRecord) : gmap N SessionRecord :=
  fold_left (fun m r => if is_active (status r) &&
      negb (bool_decide (session_id r ∈ map Inventory.session_id (entries snapshot)))
    then alter (lost (session_id r)) (session_id r) m else m) values m.

Lemma mark_missing_spec values s : answering -> stampable ->
  runs (mark_missing values) s (fun r s' => r = Ok tt /\ s' = set_sessions (missing values) s).
Proof.
  intros Ha Hst. unfold mark_missing. revert s; induction values as [|v values IH]; intros s; cbn [each].
  { run. by destruct s. }
  run. destruct (is_active (status v) && _) eqn:Hv.
  - eapply runs_mono; [by apply mark_lost_spec|]. cbn beta. intros r s1 [-> ->].
    eapply runs_mono; [apply IH|]. cbn beta. intros r s2 [-> ->]. split; [done|]. unfold missing. cbn [fold_left].
    by rewrite Hv.
  - run. eapply runs_mono; [apply IH|]. cbn beta. intros r s2 [-> ->]. split; [done|]. unfold missing.
    cbn [fold_left]. by rewrite Hv.
Qed.

Lemma lost_inactive id r : is_active (status r) = false -> lost id r = r.
Proof. intros Hr. unfold lost. by rewrite Hr. Qed.

Lemma lost_lost id r : is_active (status (lost id r)) = false.
Proof. unfold lost. by destruct (is_active (status r)) eqn:Hr. Qed.

Lemma lost_idem id r : lost id (lost id r) = lost id r.
Proof. apply lost_inactive, lost_lost. Qed.

(** A row that is not in the holder is marked lost if it was active. *)
Lemma missing_lookup values m id :
  missing values m !! id =
  if existsb (fun r => (session_id r =? id) && is_active (status r)) values &&
     negb (bool_decide (id ∈ map Inventory.session_id (entries snapshot)))
  then lost id <$> m !! id else m !! id.
Proof.
  unfold missing. revert m; induction values as [|v values IH]; intros m; [done|].
  cbn [fold_left existsb]. rewrite IH. clear IH.
  destruct (N.eqb_spec (session_id v) id) as [E|E].
  - rewrite E. destruct (is_active (status v)); cbn [andb orb]; [|done].
    destruct (bool_decide _); cbn [negb andb]; [by rewrite andb_false_r|]. rewrite lookup_alter_eq, andb_true_r.
    destruct (existsb _ values); [|done]. destruct (m !! id); [cbn; by rewrite lost_idem|done].
  - destruct (is_active (status v) && _); cbn [andb orb]; [|done]. by rewrite lookup_alter_ne by done.
Qed.

Lemma entry_of_elem id e : entry_of id = Some e -> e ∈ entries snapshot /\ Inventory.session_id e = id.
Proof.
  unfold entry_of. intros [Hin Heq]%List.find_some. apply N.eqb_eq in Heq. split; [by apply list_elem_of_In|done].
Qed.

Lemma entry_of_none id : entry_of id = None <-> absent id.
Proof.
  unfold absent, entry_of. induction (entries snapshot) as [|e l IH]; cbn; [split; [intros _; apply not_elem_of_nil|done]|].
  rewrite not_elem_of_cons. destruct (N.eqb_spec (Inventory.session_id e) id) as [E|E]; [naive_solver|].
  rewrite IH. naive_solver.
Qed.

(** The map that is built from the listing is the table. *)
Lemma records_of s : keyed s ->
  list_to_map (map (fun r => (session_id r, r)) (map snd (ordered (sessions s)))) = sessions s.
Proof.
  intros Hk. apply map_eq. intros id. apply option_eq. intros r.
  rewrite <- elem_of_list_to_map.
  - rewrite !list_elem_of_fmap. split.
    + intros (x & [= -> ->] & ([i y] & -> & Hy%elem_of_ordered)%list_elem_of_fmap).
      cbn. by rewrite (Hk _ _ Hy).
    + intros Hx. exists r. split; [by rewrite (Hk _ _ Hx)|]. apply list_elem_of_fmap.
      exists (id, r). split; [done|]. by apply elem_of_ordered.
  - rewrite !map_map. cbn. replace (map _ (ordered (sessions s))) with (map fst (ordered (sessions s)));
      [apply ordered_NoDup|].
    apply map_ext_in. intros [k x] Hx%list_elem_of_In%elem_of_ordered. cbn. by rewrite (Hk _ _ Hx).
Qed.

Lemma all_values order s id r : (forall l, order l ≡ₚ l) -> sessions s !! id = Some r ->
  r ∈ order (map snd (map_to_list (sessions s))).
Proof.
  intros Hord Hr. rewrite Hord. apply (list_elem_of_fmap snd). exists (id, r). split; [done|].
  by apply elem_of_map_to_list.
Qed.

(** [reconcile_metadata] computes [outcome] for every row, and nothing else. *)
Lemma reconcile_exact listing order s : answering -> answers listing = true -> stampable -> keyed s ->
  (forall l, order l ≡ₚ l) -> NoDup (map Inventory.session_id (entries snapshot)) ->
  Forall readable (entries snapshot) ->
  runs (reconcile_metadata listing order) s (fun r s' =>
    r = Ok (mkResult (orphans (sessions s) (entries snapshot)) (exits (sessions s) (entries snapshot))) /\
    session_tags s' = session_tags s /\
    forall id, sessions s' !! id = outcome id <$> sessions s !! id).
Proof.
  intros Ha Hl Hst Hk Hord Hd Hr. unfold reconcile_metadata, list_sessions. rewrite Hl. run.
  rewrite records_of by done. run.
  eapply runs_mono; [apply (reconcile_entries_spec (sessions s)); try done; by intros|].
  cbn beta. intros r s1 [-> ->]. run. eapply runs_mono; [by apply mark_missing_spec|].
  cbn beta. intros r s2 [-> ->]. run. cbn [orphaned_sessions exited_sessions app session_tags set_sessions].
  split; [by rewrite union_empty_r_L|]. split; [done|].
  intros id. cbn [set_sessions sessions]. rewrite missing_lookup. unfold outcome.
  destruct (entry_of id) as [e|] eqn:He.
  - apply entry_of_elem in He as [He <-].
    rewrite bool_decide_eq_true_2 by (apply list_elem_of_fmap; by exists e).
    rewrite andb_false_r. by apply settle_lookup.
  - apply entry_of_none in He. rewrite bool_decide_eq_false_2 by done. rewrite andb_true_r, settle_other by done.
    destruct (existsb _ _) eqn:Hex; [done|]. destruct (sessions s !! id) as [r|] eqn:Hr'; [|done].
    cbn. f_equal. symmetry. apply lost_inactive. apply not_true_is_false. intros Hact.
    apply not_true_iff_false in Hex. apply Hex, existsb_exists. exists r.
    rewrite (Hk _ _ Hr'), N.eqb_refl, Hact. split; [|done]. by eapply list_elem_of_In, all_values.
Qed.

(** ** Statements that fail *)

(** Each row is as it was, or as [outcome] says. *)
Definition between (s s' : MetadataStore) : Prop :=
  session_tags s' = session_tags s /\ forall id,
    sessions s' !! id = sessions s !! id \/ sessions s' !! id = outcome id <$> sessions s !! id.

Lemma update_any d operation id f s (Q : result persist_error N -> MetadataStore -> Prop) :
  (forall e, Q (Err e) s) -> (forall n, Q (Ok n) (set_sessions (alter f id) s)) ->
  runs (update d operation id f) s Q.
Proof. intros H1 H2. unfold update. destruct (answers d); run; auto. Qed.

Lemma mark_lost_any id s (Q : result persist_error unit -> MetadataStore -> Prop) :
  (forall e, Q (Err e) s) -> Q (Ok tt) (set_sessions (alter (lost id) id) s) ->
  runs (mark_lost (db id) id (instance_hex snapshot) (generation snapshot)) s Q.
Proof.
  intros H1 H2. unfold mark_lost. run. destruct (validate_holder_state _ _); [|apply H1]. run.
  apply update_any; [done|]. intros n. by run.
Qed.

(** A session's row is not touched, or is what its entry makes of it. *)
Lemma reconcile_entry_any records acc e s : sessions s !! Inventory.session_id e = records !! Inventory.session_id e ->
  runs (reconcile_entry records acc e) s (fun _ s' =>
    s' = s \/ s' = set_sessions (alter (fate e) (Inventory.session_id e)) s).
Proof.
  intros Hs. unfold reconcile_entry.
  destruct (records !! Inventory.session_id e) as [record|] eqn:Hrec; [|run; by left].
  assert (Hupd : forall f, fate e record = f record ->
    set_sessions (alter f (Inventory.session_id e)) s = set_sessions (alter (fate e) (Inventory.session_id e)) s).
  { intros f Hf. unfold set_sessions. f_equal. apply map_eq. intros j. rewrite !lookup_alter.
    case_decide as E; [subst|done]. rewrite Hs. cbn. by rewrite Hf. }
  destruct (instance_conflicts record (instance_hex snapshot)) eqn:Hc.
  { run. apply mark_lost_any; [by left|]. run. right. apply Hupd. unfold fate. by rewrite Hc. }
  assert (Hfate : fate e record = fate e record) by done. unfold fate in Hfate at 2. rewrite Hc in Hfate.
  destruct (Inventory.state e).
  - unfold reconcile_running. run. destruct (validate_holder_state _ _); [|by left]. run.
    apply update_any; [by left|]. intros n. run. destruct (require_session_updated n); run;
      right; by apply Hupd.
  - run. destruct (exit_of e) as [[[code dir] env]|]; [|by left]. run.
    unfold reconcile_exited_with_context. run. destruct (validate_holder_state _ _); [|by left]. run.
    apply update_any; [by left|]. intros n. run. destruct (require_session_updated n); run;
      right; by apply Hupd.
Qed.

Lemma reconcile_entries_any records acc l s : NoDup (map Inventory.session_id l) ->
  (forall e, e ∈ l -> sessions s !! Inventory.session_id e = records !! Inventory.session_id e) ->
  runs (reconcile_entries records acc l) s (fun _ s' => session_tags s' = session_tags s /\
    forall id, sessions s' !! id = sessions s !! id \/
      exists e, e ∈ l /\ Inventory.session_id e = id /\ sessions s' !! id = fate e <$> sessions s !! id).
Proof.
  revert acc s; induction l as [|e l IH]; intros acc s Hd Hs; cbn [reconcile_entries].
  { run. split; [done|]. by left. }
  cbn in Hd. apply NoDup_cons in Hd as [Hni Hd]. run.
  eapply runs_mono; [apply (reconcile_entry_any records); apply Hs; left|].
  cbn beta. intros [acc'|err] s1 Hs1.
  - assert (Ho : forall id, id <> Inventory.session_id e -> sessions s1 !! id = sessions s !! id).
    { intros id Hid. destruct Hs1 as [->| ->]; [done|]. cbn. by rewrite lookup_alter_ne. }
    assert (Hel : forall e', e' ∈ l -> Inventory.session_id e' <> Inventory.session_id e).
    { intros e' He' Heq. apply Hni. rewrite <- Heq. apply list_elem_of_fmap. by exists e'. }
    eapply runs_mono; [apply IH; [done|]|].
    { intros e' He'. rewrite Ho by auto. apply Hs. by right. }
    cbn beta. intros r s2 [Ht H2]. split; [destruct Hs1 as [->| ->]; by rewrite Ht|]. intros id.
    destruct (H2 id) as [Heq|(e' & He' & <- & Heq)]; rewrite Heq.
    + destruct Hs1 as [->| ->]; [by left|]. cbn. destruct (decide (id = Inventory.session_id e)) as [->|Hne].
      * right. exists e. split_and!; [left|done|]. by rewrite lookup_alter_eq.
      * left. by rewrite lookup_alter_ne.
    + right. exists e'. split_and!; [by right|done|]. by rewrite Ho by auto.
  - split; [by destruct Hs1 as [->| ->]|]. intros id. destruct Hs1 as [->| ->]; [by left|]. cbn.
    destruct (decide (id = Inventory.session_id e)) as [->|Hne].
    + right. exists e. split_and!; [left|done|]. by rewrite lookup_alter_eq.
    + left. by rewrite lookup_alter_ne.
Qed.

Lemma entry_of_unique e : NoDup (map Inventory.session_id (entries snapshot)) -> e ∈ entries snapshot ->
  entry_of (Inventory.session_id e) = Some e.
Proof.
  unfold entry_of. induction (entries snapshot) as [|x l IH]; [by intros _ He%elem_of_nil|]. cbn.
  intros [Hni Hd]%NoDup_cons [->|He]%elem_of_cons; [by rewrite N.eqb_refl|].
  destruct (N.eqb_spec (Inventory.session_id x) (Inventory.session_id e)) as [E|E]; [|by apply IH].
  exfalso. apply Hni. rewrite E. apply list_elem_of_fmap. by exists e.
Qed.

Lemma mark_missing_any values s s0 : between s0 s ->
  runs (mark_missing values) s (fun _ s' => between s0 s').
Proof.
  intros Hb. unfold mark_missing. apply runs_each; [done|]. intros v s1 _ Hb1.
  destruct (is_active (status v) && _) eqn:Hv; [|by run].
  apply andb_true_iff in Hv as [_ Hv%negb_true_iff%bool_decide_eq_false]. apply mark_lost_any; [done|].
  destruct Hb1 as [Ht Hb1]. split; [done|]. intros id. cbn.
  destruct (decide (id = session_id v)) as [->|Hne]; [|by rewrite lookup_alter_ne].
  rewrite lookup_alter_eq. right. assert (Ho : entry_of (session_id v) = None) by by apply entry_of_none.
  specialize (Hb1 (session_id v)). unfold outcome in *. rewrite Ho in *.
  destruct Hb1 as [->| ->]; [done|]. destruct (sessions s0 !! session_id v); [|done]. cbn. by rewrite lost_idem.
Qed.

Lemma reconcile_between listing order s : keyed s -> NoDup (map Inventory.session_id (entries snapshot)) ->
  runs (reconcile_metadata listing order) s (fun _ s' => between s s').
Proof.
  intros Hk Hd. unfold reconcile_metadata, list_sessions. destruct (answers listing); [|run; split; [done|by left]].
  run. rewrite records_of by done.
  eapply runs_mono; [apply (reconcile_entries_any (sessions s)); [done|by intros]|]. cbn beta. intros r s1 [Ht H1].
  assert (Hb : between s s1).
  { split; [done|]. intros id. destruct (H1 id) as [->|(e & He & <- & ->)]; [by left|]. right.
    unfold outcome. by rewrite entry_of_unique. }
  destruct r as [acc|]; [|done]. run. eapply runs_mono; [by apply (mark_missing_any _ _ s)|]. cbn beta.
  intros [[]|e] s2 Hb2; by run.
Qed.

Lemma elem_of_orphans records l e : NoDup (map Inventory.session_id l) -> e ∈ l ->
  Inventory.session_id e ∈ orphans records l <-> is_orphan records e = true.
Proof.
  intros Hd He. unfold orphans. rewrite elem_of_list_to_set, list_elem_of_fmap. split.
  - intros (x & Hid & [Ho Hx]%list_elem_of_filter).
    unfold is_orphan in *. by rewrite Hid.
  - intros Ho. exists e. split; [done|]. by apply list_elem_of_filter.
Qed.

Lemma fate_of_exited records e r : records !! Inventory.session_id e = Some r ->
  is_orphan records e = false -> Inventory.state e = Exited -> readable e ->
  exists code dir env, exit_of e = Ok (code, dir, env) /\ status (fate e r) = lit "closed" /\
    exit_code (fate e r) = Some code /\ is_Some (closed_at (fate e r)).
Proof.
  unfold is_orphan, fate. intros Hr Ho Hst Hrd. rewrite Hr in Ho. rewrite Ho, Hst. unfold readable in Hrd.
  destruct (exit_of e) as [[[code dir] env]|]; [|by specialize (Hrd Hst)]. exists code, dir, env.
  split_and!; [done..|]. cbn. by destruct (closed_at r).
Qed.

(** The columns that belong to the user. *)
Definition owned (r : SessionRecord) :=
  (session_id r, name r, created_at r, shell r, note r, pinned r, locked r).

Lemma outcome_id id r : session_id (outcome id r) = session_id r.
Proof. unfold outcome, fate, lost. repeat case_match; done. Qed.

Lemma outcome_owned id r : owned (outcome id r) = owned r.
Proof.
  unfold outcome, fate, lost. repeat case_match; done.
Qed.
(** ** Sessions reported as exited *)

(** The end of a session is on record: its row, if it has one, is closed with
    an exit code. *)
Definition recorded (s : MetadataStore) (id : N) : Prop :=
  forall row, sessions s !! id = Some row -> status row = lit "closed" /\ is_Some (exit_code row).

Lemma recorded_other s s' id : recorded s id -> sessions s' !! id = sessions s !! id -> recorded s' id.
Proof. unfold recorded. intros Hr ->. exact Hr. Qed.

Lemma reconcile_entry_records records acc e s :
  runs (reconcile_entry records acc e) s (fun r s' =>
    (forall id, id <> Inventory.session_id e -> sessions s' !! id = sessions s !! id) /\
    forall acc', r = Ok acc' -> exited_sessions acc' = exited_sessions acc \/
      exited_sessions acc' = exited_sessions acc ++ [Inventory.session_id e] /\ recorded s' (Inventory.session_id e)).
Proof.
  unfold reconcile_entry. destruct (records !! Inventory.session_id e) as [record|]; [|run; naive_solver].
  assert (Hother : forall f id, id <> Inventory.session_id e ->
    sessions (set_sessions (alter f (Inventory.session_id e)) s) !! id = sessions s !! id).
  { intros f id Hid. cbn. by rewrite lookup_alter_ne. }
  destruct (instance_conflicts record _).
  { run. apply mark_lost_any; [naive_solver|]. run. split; [apply Hother|]. intros acc' [= <-]. by left. }
  destruct (Inventory.state e).
  - unfold reconcile_running. run. destruct (validate_holder_state _ _); [|naive_solver]. run.
    apply update_any; [naive_solver|]. intros n. run.
    destruct (require_session_updated n); run; (split; [apply Hother|]); [|done]. intros acc' [= <-]. by left.
  - run. destruct (exit_of e) as [[[code dir] env]|]; [|naive_solver]. run.
    unfold reconcile_exited_with_context. run. destruct (validate_holder_state _ _); [|naive_solver]. run.
    apply update_any; [naive_solver|]. intros n. run.
    destruct (require_session_updated n); run; (split; [apply Hother|]); [|done]. intros acc' [= <-]. right.
    split; [done|]. intros row. cbn. rewrite lookup_alter_eq. intros (r0 & _ & ->)%fmap_Some. by cbn.
Qed.

Lemma reconcile_entries_records records l acc s : NoDup (map Inventory.session_id l) ->
  (forall id, id ∈ exited_sessions acc -> recorded s id /\ id ∉ map Inventory.session_id l) ->
  runs (reconcile_entries records acc l) s (fun r s' => forall acc', r = Ok acc' ->
    forall id, id ∈ exited_sessions acc' -> recorded s' id /\ (id ∈ exited_sessions acc \/ id ∈ map Inventory.session_id l)).
Proof.
  revert acc s; induction l as [|e l IH]; intros acc s Hd Hacc; cbn [reconcile_entries].
  { run. intros acc' [= <-] id Hid. split; [by apply Hacc|by left]. }
  cbn [map] in *. apply NoDup_cons in Hd as [Hni Hd]. run.
  eapply runs_mono; [apply reconcile_entry_records|]. cbn beta. intros [acc1|err] s1 [Ho H1]; [|done].
  assert (Hkeep : forall id, id ∈ exited_sessions acc -> recorded s1 id /\ id ∉ map Inventory.session_id l).
  { intros id Hid. destruct (Hacc id Hid) as [Hr Hn]. apply not_elem_of_cons in Hn as [Hne Hn]. split; [|done].
    eapply recorded_other; [done|]. by apply Ho. }
  eapply runs_mono; [apply IH; [done|]|].
  - intros id Hid. destruct (H1 acc1 eq_refl) as [He|[He Hr]]; rewrite He in Hid; [by apply Hkeep|].
    apply elem_of_app in Hid as [Hid| ->%list_elem_of_singleton]; [by apply Hkeep|done].
  - cbn beta. intros r s2 H2 acc' Hr id Hid. destruct (H2 acc' Hr id Hid) as [Hrec Hin]. split; [done|].
    destruct Hin as [Hin|Hin]; [|right; by right]. destruct (H1 acc1 eq_refl) as [He|[He _]]; rewrite He in Hin; [by left|].
    apply elem_of_app in Hin as [Hin| ->%list_elem_of_singleton]; [by left|right; left].
Qed.

Lemma mark_missing_records values s id : id ∈ map Inventory.session_id (entries snapshot) -> recorded s id ->
  runs (mark_missing values) s (fun _ s' => recorded s' id).
Proof.
  intros Hid Hr. unfold mark_missing. apply (runs_each (fun s => recorded s id)); [done|]. intros v s1 _ Hr1.
  destruct (is_active (status v) && _) eqn:Hv; [|by run].
  apply andb_true_iff in Hv as [_ Hv%negb_true_iff%bool_decide_eq_false]. apply mark_lost_any; [done|].
  eapply recorded_other; [done|]. cbn. rewrite lookup_alter_ne; [done|]. intros E. apply Hv. by rewrite E.
Qed.

(** The sessions that a reconciliation reports as exited are on record,
    whatever the database answers. *)
Lemma reconcile_records listing order s : NoDup (map Inventory.session_id (entries snapshot)) ->
  runs (reconcile_metadata listing order) s (fun r s' =>
    forall acc, r = Ok acc -> forall id, id ∈ exited_sessions acc -> recorded s' id).
Proof.
  intros Hd. unfold reconcile_metadata, list_sessions. destruct (answers listing); [|by run]. run.
  eapply runs_mono; [apply reconcile_entries_records; [done|]|].
  { cbn. by intros id Hid%elem_of_nil. }
  cbn beta. intros [acc|err] s1 H1; [|done]. run.
  set (values := order _).
  pose proof (mark_missing_any values s1 s1 ltac:(split; [done|by left])) as Hret.
  assert (Hall : forall id, id ∈ exited_sessions acc -> runs (mark_missing values) s1 (fun _ s' => recorded s' id)).
  { intros id Hid. destruct (H1 acc eq_refl id Hid) as [Hr [Hin%elem_of_nil|Hin]]; [done|]. by apply mark_missing_records. }
  unfold runs in *. destruct (mark_missing values s1) as [[r s2]|] eqn:He; [|done].
  destruct r as [[]|err]; [|done]. cbn. by intros acc' [= <-].
Qed.
End reconcile.

(** ** Running it again *)

(** A row without the columns that hold a time. *)
Definition timeless (r : SessionRecord) : SessionRecord := set_status r (status r) None (exit_code r) [].

Section again.
Context `{SnapshotJson} (policy : EnvironmentPolicy) (snapshot : HolderInventorySnapshot)
  (contexts1 contexts : gmap N ExitContext) (db1 db2 : N -> Db).

Lemma exit_of_more e code1 dir1 env1 code dir env : contexts1 ⊆ contexts ->
  exit_of policy contexts1 e = Ok (code1, dir1, env1) -> exit_of policy contexts e = Ok (code, dir, env) ->
  (dir1 = None \/ dir1 = dir) /\ (env1 = None \/ env1 = env).
Proof.
  intros Hsub. unfold exit_of. destruct (contexts1 !! Inventory.session_id e) as [x|] eqn:Hx.
  - rewrite (lookup_weaken _ _ _ _ Hx Hsub). intros E1 E2. rewrite E1 in E2. injection E2 as -> -> ->. auto.
  - intros E1 _. destruct (Inventory.exit_context_available e && true); [done|].
    destruct (Inventory.exit_code e); [|done]. injection E1 as _ <- <-. auto.
Qed.

(** A row that was dealt with becomes what it would have become; one of another
    instance of the holder, that was found to be active, is this holder's then. *)
Lemma outcome_again id r : contexts1 ⊆ contexts -> Forall (readable policy contexts) (entries snapshot) ->
  let out := outcome policy snapshot contexts db2 id in let r1 := outcome policy snapshot contexts1 db1 id r in
  timeless (out r1) = timeless (out r) \/
  instance_conflicts r (instance_hex snapshot) = true /\ r1 = lost snapshot db1 id r.
Proof.
  intros Hsub Hrd out r1. subst out r1. destruct (instance_conflicts r (instance_hex snapshot)) eqn:Hc.
  { right. split; [done|]. unfold outcome. destruct (entry_of snapshot id) as [e|] eqn:He; [|done].
    unfold fate. rewrite Hc. by apply entry_of_elem in He as [_ ->]. }
  left. unfold outcome.
  assert (Hsame : forall r', holder_instance r' = Some (instance_hex snapshot) ->
    instance_conflicts r' (instance_hex snapshot) = false).
  { intros r' E. unfold instance_conflicts. by rewrite E, bool_decide_true. }
  destruct (entry_of snapshot id) as [e|] eqn:He.
  - rewrite Forall_forall in Hrd. specialize (Hrd e (proj1 (entry_of_elem _ _ _ He))). unfold readable in Hrd.
    unfold fate. rewrite Hc. destruct (Inventory.state e).
    + by rewrite Hsame.
    + destruct (exit_of policy contexts1 e) as [[[code1 dir1] env1]|] eqn:E1; [|by rewrite Hc].
      rewrite Hsame by done. destruct (exit_of policy contexts e) as [[[code dir] env]|] eqn:E2; [|by specialize (Hrd eq_refl)].
      destruct (exit_of_more e _ _ _ _ _ _ Hsub E1 E2) as [[->| ->] [->| ->]]; by destruct dir, env.
  - unfold lost. destruct (is_active (status r)) eqn:Ha; [done|]. by rewrite Ha.
Qed.
End again.

(** ** What reconciliation promises *)

Section promises.
Context `{SnapshotJson} (policy : EnvironmentPolicy) (snapshot : HolderInventorySnapshot).

(** What the callers give: every id once, every context that an exited entry
    needs, and an order of the map. *)
Definition ready (contexts : gmap N ExitContext) : Prop :=
  stampable snapshot /\ NoDup (map Inventory.session_id (entries snapshot)) /\
  Forall (readable policy contexts) (entries snapshot).

(** C16: After a reconciliation the table agrees with the holder, whatever it
    said before: an active row has a running session in the holder, of the
    same holder instance and not reported as an orphan; a session that is
    reported as exited has a closed row with its exit code; the holder's
    sessions that are not reported are active rows or closed ones of a session
    that exited; no row is created or removed, and the user's columns and tags
    are untouched. *)
Theorem reconcile_consistent contexts db listing order s :
  ready contexts -> answering db -> answers listing = true -> keyed s -> (forall l, order l ≡ₚ l) ->
  runs (reconcile_metadata policy snapshot contexts db listing order) s (fun r s' =>
    session_tags s' = session_tags s /\
    (forall id, owned <$> sessions s' !! id = owned <$> sessions s !! id) /\
    exists res, r = Ok res /\
      (forall id row, sessions s' !! id = Some row -> is_active (status row) = true ->
        exists e, e ∈ entries snapshot /\ Inventory.session_id e = id /\ Inventory.state e = Running /\
          holder_instance row = Some (instance_hex snapshot) /\ id ∉ orphaned_sessions res) /\
      (forall id, id ∈ exited_sessions res -> exists e row code dir env,
        e ∈ entries snapshot /\ Inventory.session_id e = id /\ Inventory.state e = Exited /\
        exit_of policy contexts e = Ok (code, dir, env) /\ sessions s' !! id = Some row /\
        status row = lit "closed" /\ exit_code row = Some code) /\
      (forall e, e ∈ entries snapshot -> Inventory.session_id e ∉ orphaned_sessions res ->
        match Inventory.state e with
        | Running => exists row, sessions s' !! Inventory.session_id e = Some row /\ status row = lit "running"
        | Exited => Inventory.session_id e ∈ exited_sessions res
        end)).
Proof.
  intros (Hst & Hd & Hr) Ha Hl Hk Hord. eapply runs_mono; [by apply reconcile_exact|].
  cbn beta. intros r s' (-> & Ht & Hs). split; [done|].
  split; [intros id; rewrite Hs; destruct (sessions s !! id); cbn; [by rewrite outcome_owned|done]|].
  eexists. split; [done|]. cbn [orphaned_sessions exited_sessions]. split_and!.
  - intros id row Hrow Hact. rewrite Hs in Hrow. apply fmap_Some in Hrow as (r0 & Hr0 & ->).
    unfold outcome in Hact. destruct (entry_of snapshot id) as [e|] eqn:He; [|by rewrite lost_lost in Hact].
    pose proof (entry_of_elem _ _ _ He) as [Hin <-]. exists e. unfold outcome. rewrite He, elem_of_orphans by done.
    unfold fate in *. unfold is_orphan. rewrite Hr0. destruct (instance_conflicts r0 _); [by rewrite lost_lost in Hact|].
    rewrite Forall_forall in Hr. specialize (Hr e Hin). unfold readable in Hr. destruct (Inventory.state e) eqn:Hse; [done|].
    destruct (exit_of policy contexts e) as [[[code dir] env]|]; [done|by specialize (Hr eq_refl)].
  - intros id (e & -> & [[Ho Hse] Hin]%list_elem_of_filter)%list_elem_of_fmap.
    destruct (sessions s !! Inventory.session_id e) as [r0|] eqn:Hr0; [|unfold is_orphan in Ho; by rewrite Hr0 in Ho].
    rewrite Forall_forall in Hr.
    destruct (fate_of_exited policy snapshot contexts db (sessions s) e r0) as (code & dir & env & H1 & H2 & H3 & _); auto.
    exists e, (fate policy snapshot contexts db e r0), code, dir, env. split_and!; try done.
    rewrite Hs, Hr0. cbn. unfold outcome. by rewrite entry_of_unique.
  - intros e He Ho. rewrite elem_of_orphans in Ho by done. apply not_true_is_false in Ho.
    destruct (Inventory.state e) eqn:Hse.
    + destruct (sessions s !! Inventory.session_id e) as [r0|] eqn:Hr0; [|unfold is_orphan in Ho; by rewrite Hr0 in Ho].
      eexists. rewrite Hs, Hr0. cbn. split; [done|]. unfold outcome. rewrite entry_of_unique by done.
      unfold is_orphan in Ho. rewrite Hr0 in Ho. unfold fate. by rewrite Ho, Hse.
    + unfold exits. apply list_elem_of_fmap. exists e. split; [done|]. by apply list_elem_of_filter.
Qed.

(** C17: A reconciliation that stops half-way, because a statement fails at any
    point or because the holder did not tell how some session ended, leaves a
    table that running it again, with the same inventory, completes: the rows are
    those of one reconciliation that never stopped, but for the times that are
    written.  The exception are rows of another instance of the holder: what the
    first run marked as lost may be adopted by the second
    ([conflict_adopted_by_repeat]). *)
Theorem reconcile_resumes contexts1 contexts db1 db2 listing1 listing2 order1 order2 s :
  contexts1 ⊆ contexts ->
  ready contexts -> answering db2 -> answers listing2 = true -> keyed s -> (forall l, order2 l ≡ₚ l) ->
  runs (_ ← attempt (reconcile_metadata policy snapshot contexts1 db1 listing1 order1);
        reconcile_metadata policy snapshot contexts db2 listing2 order2) s (fun r s' =>
    is_ok r = true /\ session_tags s' = session_tags s /\
    forall id, match sessions s !! id, sessions s' !! id with
      | Some row, Some row' =>
          let out := outcome policy snapshot contexts db2 id in
          timeless row' = timeless (out row) \/
          instance_conflicts row (instance_hex snapshot) = true /\ row' = out (lost snapshot db1 id row)
      | None, None => True
      | _, _ => False
      end).
Proof.
  intros Hsub (Hst & Hd & Hr) Ha Hl Hk Hord. run.
  eapply runs_mono; [by apply (reconcile_between policy snapshot contexts1 db1)|].
  cbn beta. intros r1 s1 [Ht H1]. eapply runs_mono; [apply reconcile_exact; try done|].
  - intros id row Hrow. specialize (H1 id). rewrite Hrow in H1.
    destruct H1 as [H1|H1]; symmetry in H1; [by apply Hk|]. apply fmap_Some in H1 as (r0 & Hr0 & ->).
    by rewrite outcome_id, (Hk _ _ Hr0).
  - cbn beta. intros r s2 (-> & Ht2 & H2). split; [done|]. split; [congruence|]. intros id. rewrite H2.
    specialize (H1 id). destruct (sessions s !! id) as [row|] eqn:Hrow.
    + destruct H1 as [->| ->]; cbn; [by left|].
      destruct (outcome_again policy snapshot contexts1 contexts db1 db2 id row Hsub Hr) as [He|[Hc ->]]; [by left|].
      right. by split.
    + destruct H1 as [->| ->]; done.
Qed.

(** A session of the holder whose row belongs to another holder instance is
    isolated only once: the first reconciliation reports it as an orphan and
    marks its row lost, but also writes this holder's instance on it, so the
    next one adopts the session: it reports no orphan and the row runs again. *)
Theorem conflict_adopted_by_repeat contexts db1 db2 listing1 listing2 order1 order2 s id row e :
  ready contexts -> answering db1 -> answering db2 -> answers listing1 = true -> answers listing2 = true ->
  keyed s -> (forall l, order1 l ≡ₚ l) -> (forall l, order2 l ≡ₚ l) ->
  sessions s !! id = Some row -> is_active (status row) = true ->
  instance_conflicts row (instance_hex snapshot) = true ->
  e ∈ entries snapshot -> Inventory.session_id e = id -> Inventory.state e = Running ->
  runs (reconcile_metadata policy snapshot contexts db1 listing1 order1) s (fun r1 s1 =>
    (exists res, r1 = Ok res /\ id ∈ orphaned_sessions res) /\ status <$> sessions s1 !! id = Some (lit "lost") /\
    runs (reconcile_metadata policy snapshot contexts db2 listing2 order2) s1 (fun r2 s2 =>
      (exists res, r2 = Ok res /\ id ∉ orphaned_sessions res) /\
      status <$> sessions s2 !! id = Some (lit "running"))).
Proof.
  intros (Hst & Hd & Hr) Ha1 Ha2 Hl1 Hl2 Hk Ho1 Ho2 Hrow Hact Hc He <- Hse.
  eapply runs_mono; [by apply reconcile_exact|]. cbn beta. intros r1 s1 (-> & Ht & Hs).
  assert (H1 : sessions s1 !! Inventory.session_id e =
    Some (lost snapshot db1 (Inventory.session_id e) row)).
  { rewrite Hs, Hrow. cbn. unfold outcome. rewrite entry_of_unique by done. unfold fate. by rewrite Hc. }
  unfold lost in H1. rewrite Hact in H1. split_and!.
  - eexists. split; [done|]. apply elem_of_orphans; [done..|]. unfold is_orphan. by rewrite Hrow.
  - by rewrite H1.
  - eapply runs_mono; [apply reconcile_exact; try done|].
    + intros id' row' Hrow'. rewrite Hs in Hrow'. apply fmap_Some in Hrow' as (r0 & Hr0 & ->).
      by rewrite outcome_id, (Hk _ _ Hr0).
    + cbn beta. intros r2 s2 (-> & _ & Hs2).
      assert (Hsame : instance_conflicts (set_holder row (instance_hex snapshot) (generation snapshot))
        (instance_hex snapshot) = false) by (unfold instance_conflicts; cbn; by rewrite bool_decide_true).
      split.
      * eexists. split; [done|]. cbn [orphaned_sessions]. rewrite elem_of_orphans by done. unfold is_orphan.
        rewrite H1. unfold instance_conflicts in *. cbn in *. by rewrite Hsame.
      * rewrite Hs2, H1. cbn. unfold outcome. rewrite entry_of_unique by done. unfold fate, instance_conflicts in *.
        cbn in *. rewrite Hsame. by rewrite Hse.
Qed.
End promises.

(** ** Witnesses: a holder with three sessions, a table with four *)

#[local] Existing Instance Environment.bits_json.

Definition sample_entry (id : N) (st : Inventory.HolderSessionState) (code : option Z) : HolderSessionEntry :=
  Inventory.mkEntry id (100 + id) st code 1 2 0 false Inventory.Healthy false.
Definition sample_holder : HolderInventorySnapshot :=
  mkSnapshot (replicate 16 (byte_of 0xbb)) 9
    [sample_entry 1 Running None; sample_entry 2 Exited (Some 17%Z); sample_entry 3 Running None].
Definition sample_row (id : N) (instance : option str) : SessionRecord :=
  mkRecord id (lit "shell") (lit "running") (lit "2026-07-01T00:00:00Z") (lit "2026-07-01T00:00:00Z")
    None None (Some (lit "/bin/sh")) None None false false None instance None.
Definition sample_store : MetadataStore :=
  mkStore {[1 := sample_row 1 None; 2 := sample_row 2 None; 4 := sample_row 4 None]} ∅.
Definition conflicted_store : MetadataStore :=
  mkStore (<[3 := sample_row 3 (Some (lit "aaaaaaaaaaaaaaaaaaaaaaaaaaaaaaaa"))]> (sessions sample_store)) ∅.
Definition sample_db : N -> Db := fun _ => mkDb (lit "2026-07-02T00:00:00Z") true.
Definition broken_db : N -> Db := fun id => mkDb (lit "2026-07-02T00:00:00Z") (id =? 1).
Definition stored : list SessionRecord -> list SessionRecord := fun l => l.

Lemma sample_ready : ready Environment.sample_policy sample_holder ∅.
Proof.
  split_and!.
  - by split.
  - apply (bool_decide_unpack (NoDup _)). vm_compute. reflexivity.
  - repeat constructor; intros E; vm_compute in E |- *; first [done|by inversion E].
Qed.

Lemma sample_keyed : keyed conflicted_store.
Proof.
  unfold keyed. cbn [sessions conflicted_store sample_store].
  repeat (apply map_Forall_insert_2; [done|]). apply map_Forall_empty.
Qed.

Lemma reconcile_consistent_witness :
  exists res s', reconcile_metadata Environment.sample_policy sample_holder ∅ sample_db (sample_db 0) stored
    conflicted_store = Some (Ok res, s') /\
  (forall id row, sessions s' !! id = Some row -> is_active (status row) = true ->
    exists e, e ∈ entries sample_holder /\ Inventory.session_id e = id /\ id ∉ orphaned_sessions res).
Proof.
  pose proof (reconcile_consistent Environment.sample_policy sample_holder ∅ sample_db (sample_db 0) stored
    conflicted_store sample_ready (fun _ => eq_refl) eq_refl sample_keyed (fun l => reflexivity l)) as Hc.
  apply runs_eq in Hc as (r & s' & He & _ & _ & res & -> & Hact & _). exists res, s'. split; [exact He|].
  intros id row Hr Ha. destruct (Hact id row Hr Ha) as (e & H1 & H2 & _ & _ & H3). by exists e.
Defined.

Lemma reconcile_resumes_witness :
  runs (_ ← attempt (reconcile_metadata Environment.sample_policy sample_holder ∅ broken_db (sample_db 0) stored);
        reconcile_metadata Environment.sample_policy sample_holder ∅ sample_db (sample_db 0) stored)
    sample_store (fun r s' => is_ok r = true /\ status <$> sessions s' !! 2 = Some (lit "closed")).
Proof.
  eapply runs_mono; [apply (reconcile_resumes Environment.sample_policy sample_holder ∅ ∅ broken_db sample_db
    (sample_db 0) (sample_db 0) stored stored sample_store ltac:(reflexivity) sample_ready (fun _ => eq_refl) eq_refl)|].
  - unfold keyed. cbn [sessions sample_store]. repeat (apply map_Forall_insert_2; [done|]). apply map_Forall_empty.
  - by intros l.
  - cbn beta. intros r s' (Hr & _ & Hs). split; [exact Hr|]. specialize (Hs 2).
    change (sessions sample_store !! 2) with (Some (sample_row 2 None)) in Hs. cbv beta iota zeta in Hs.
    destruct (sessions s' !! 2) as [row|]; [|done]. destruct Hs as [Hs|[Hc _]]; [|vm_compute in Hc; discriminate Hc].
    apply (f_equal status) in Hs. cbn. f_equal. exact Hs.
Defined.

Lemma conflict_adopted_by_repeat_witness :
  runs (reconcile_metadata Environment.sample_policy sample_holder ∅ sample_db (sample_db 0) stored)
    conflicted_store (fun _ s1 => status <$> sessions s1 !! 3 = Some (lit "lost") /\
      runs (reconcile_metadata Environment.sample_policy sample_holder ∅ sample_db (sample_db 0) stored) s1
        (fun _ s2 => status <$> sessions s2 !! 3 = Some (lit "running"))).
Proof.
  eapply runs_mono; [apply (conflict_adopted_by_repeat Environment.sample_policy sample_holder ∅ sample_db
    sample_db (sample_db 0) (sample_db 0) stored stored conflicted_store 3
    (sample_row 3 (Some (lit "aaaaaaaaaaaaaaaaaaaaaaaaaaaaaaaa"))) (sample_entry 3 Running None)
    sample_ready (fun _ => eq_refl) (fun _ => eq_refl) eq_refl eq_refl sample_keyed
    (fun l => reflexivity l) (fun l => reflexivity l)); try reflexivity|].
  - by right; right; left.
  - cbn beta. intros r s1 (_ & Hl & H2). split; [exact Hl|]. eapply runs_mono; [exact H2|].
    cbn beta. intros r2 s2 [_ H3]. exact H3.
Defined.
End Reconcile.
