(* ===== verification/MetadataTypes.v ===== *)
(** * MetadataTypes: the rows and tags the daemon stores.

    The well-formedness of the metadata, and that every statement of
    [MetadataStore] ([crates/persist-metadata/src/store.rs]) and the whole of
    [reconcile_metadata] keep it. *)
From S2P Require Import Prelude OrderedMap Bytes Utf8 Environment HolderMessages Effects Metadata Reconcile.
From Stdlib Require Import Lia.
Import String.StringSyntax.
Import Environment(SnapshotJson).
Import Metadata.
Import Reconcile(HolderInventorySnapshot).
Local Open Scope N_scope.

Module MetadataTypes.

(** The status of a row and the columns that go with it. *)
Definition ending_ok (r : SessionRecord) : Prop :=
  (status r = lit "running" /\ closed_at r = None /\ exit_code r = None) \/
  (status r = lit "closed" /\ is_Some (closed_at r) /\ is_Some (exit_code r)) \/
  (status r = lit "lost" /\ closed_at r = None /\ exit_code r = None).

(** The holder a row belongs to. *)
Definition holder_ok (r : SessionRecord) : Prop :=
  match holder_instance r, holder_generation r with
  | None, None => True
  | Some i, Some g => lenN i = 32 /\ forallb is_ascii_hexdigit i = true /\ (0 <= g <= Z.of_N i64_max)%Z
  | _, _ => False
  end.

Definition row_ok (id : N) (r : SessionRecord) : Prop := session_id r = id /\ ending_ok r /\ holder_ok r.

Definition tag_ok (tag : str) : Prop := blank tag = false /\ contains (lit " ") tag = false.

Definition well_formed (s : MetadataStore) : Prop :=
  map_Forall row_ok (sessions s) /\ forall id tag, (id, tag) ∈ session_tags s -> tag_ok tag.

(** The statement answers, and keeps the metadata well formed. *)
Definition orderly {A} (f : H A) : Prop := forall s, runs f s (fun _ s' => well_formed s -> well_formed s').

(** ** Rules *)

Lemma orderly_ret {A} (r : result persist_error A) : orderly (lift r).
Proof. intros s. by run. Qed.
Lemma orderly_mret {A} (a : A) : orderly (mret a).
Proof. intros s. by run. Qed.
Lemma orderly_fail {A} e : orderly (fail e : H A).
Proof. intros s. by run. Qed.
Lemma orderly_get : orderly get.
Proof. intros s. by run. Qed.
Lemma orderly_bind {A C} (m : H A) (k : A -> H C) : orderly m -> (forall a, orderly (k a)) -> orderly (m ≫= k).
Proof.
  intros Hm Hk s. rewrite runs_bind. eapply runs_mono; [apply Hm|]. intros [a|e] s' Hs; [|done].
  eapply runs_mono; [apply Hk|]. auto.
Qed.
Lemma orderly_each {A} (f : A -> H unit) l : (forall x, orderly (f x)) -> orderly (each f l).
Proof. intros Hf. induction l as [|x l IH]; cbn; [apply orderly_mret|]. by apply orderly_bind. Qed.

Lemma orderly_update db operation id f : (forall r, row_ok id r -> row_ok id (f r)) -> orderly (update db operation id f).
Proof.
  intros Hf s. unfold update. destruct (answers db); run; [|done]. intros [Hr Ht]. split; [|exact Ht].
  intros i r Hi. change (alter f id (sessions s) !! i = Some r) in Hi. rewrite lookup_alter in Hi. case_decide; [subst|by apply Hr].
  apply fmap_Some in Hi as (r0 & Hi & ->). by apply Hf, Hr.
Qed.

Lemma orderly_check {A C} (r : result persist_error A) (k : A -> H C) : (forall a, r = Ok a -> orderly (k a)) ->
  orderly (a ← lift r; k a).
Proof. intros Hk s. rewrite runs_bind, runs_lift. destruct r as [a|e]; [by apply Hk|done]. Qed.

Create HintDb orderly.
#[export] Hint Resolve orderly_ret orderly_mret orderly_fail orderly_get orderly_each orderly_update : orderly.
Ltac orderly := repeat first
  [ solve [eauto with orderly]
  | apply orderly_bind; [|intros ?]
  | apply orderly_each; intros ?
  | match goal with |- orderly (match ?x with _ => _ end) => destruct x end ].

(** A change of a row that leaves what is constrained. *)
Lemma row_ok_kept id r r' : session_id r' = session_id r -> status r' = status r -> closed_at r' = closed_at r ->
  exit_code r' = exit_code r -> holder_instance r' = holder_instance r -> holder_generation r' = holder_generation r ->
  row_ok id r -> row_ok id r'.
Proof. intros E1 E2 E3 E4 E5 E6. unfold row_ok, ending_ok, holder_ok. by rewrite E1, E2, E3, E4, E5, E6. Qed.

Lemma valid_holder i g u : validate_holder_state i g = Ok u ->
  lenN i = 32 /\ forallb is_ascii_hexdigit i = true /\ (0 <= Z.of_N g <= Z.of_N i64_max)%Z.
Proof.
  unfold validate_holder_state. destruct (N.eqb_spec (lenN i) 32), (forallb is_ascii_hexdigit i); try done. cbn.
  destruct (N.ltb_spec i64_max g); [discriminate|]. intros _. unfold i64_max in *. split_and!; [done..|lia|lia].
Qed.

(** ** The statements *)

Lemma orderly_create_session db id nm dir sh : orderly (create_session db id nm dir sh).
Proof.
  intros s. unfold create_session. run. destruct (_ && _); run; [|done]. intros [Hr Ht]. split; [|exact Ht].
  apply map_Forall_insert_2; [|exact Hr]. split_and!; [done|by left|done].
Qed.
Lemma orderly_reconcile_running db id i g : orderly (reconcile_running db id i g).
Proof.
  unfold reconcile_running. apply orderly_check. intros u Hv%valid_holder. apply orderly_bind; [|intros; orderly].
  apply orderly_update. intros r (Hid & _ & _). split_and!; [done|by left|exact Hv].
Qed.
Lemma orderly_reconcile_exited db id code dir env i g : orderly (reconcile_exited_with_context db id code dir env i g).
Proof.
  unfold reconcile_exited_with_context. apply orderly_check. intros u Hv%valid_holder. apply orderly_bind; [|intros; orderly].
  apply orderly_update. intros r (Hid & _ & _). split_and!; [done|right; left|exact Hv]. cbn. split_and!; [done| |done].
  by destruct (closed_at r).
Qed.
Lemma orderly_mark_lost db id i g : orderly (mark_lost db id i g).
Proof.
  unfold mark_lost. apply orderly_check. intros u Hv%valid_holder. apply orderly_bind; [|intros; orderly].
  apply orderly_update. intros r (Hid & He & Hh). destruct (is_active (status r)) eqn:Ha; [|done].
  split_and!; [done| |exact Hv]. right; right. cbn. destruct He as [(_ & -> & ->)|[(E & _)|(E & _)]]; [done| |];
    by rewrite E in Ha.
Qed.
Lemma orderly_close db id code dir env : orderly (close_session_with_context db id code dir env).
Proof.
  unfold close_session_with_context. apply orderly_bind; [|intros; orderly]. apply orderly_update.
  intros r (Hid & _ & Hh). split_and!; [done| |exact Hh]. right; left. cbn. split_and!; by eauto.
Qed.
Lemma orderly_close_session db id code : orderly (close_session db id code).
Proof.
  unfold close_session. apply orderly_bind; [|intros; orderly]. apply orderly_update.
  intros r (Hid & _ & Hh). split_and!; [done| |exact Hh]. right; left. cbn. split_and!; by eauto.
Qed.
Lemma orderly_reopen db id : orderly (reopen_session db id).
Proof.
  unfold reopen_session. apply orderly_bind; [|intros; orderly]. apply orderly_update.
  intros r (Hid & _ & Hh). split_and!; [done|by left|exact Hh].
Qed.
Lemma orderly_rename db id nm : orderly (rename_session db id nm).
Proof. apply orderly_bind; [|intros; orderly]. apply orderly_update. intros r. by apply row_ok_kept. Qed.
Lemma orderly_note db id n : orderly (set_session_note db id n).
Proof. apply orderly_bind; [|intros; orderly]. apply orderly_update. intros r. by apply row_ok_kept. Qed.
Lemma orderly_pinned db id b : orderly (set_session_pinned db id b).
Proof. apply orderly_bind; [|intros; orderly]. apply orderly_update. intros r. by apply row_ok_kept. Qed.
Lemma orderly_locked db id b : orderly (set_session_locked db id b).
Proof. apply orderly_bind; [|intros; orderly]. apply orderly_update. intros r. by apply row_ok_kept. Qed.
Lemma orderly_add_tag fk db id tag : orderly (add_session_tag fk db id tag).
Proof.
  intros s. unfold add_session_tag. destruct (blank tag) eqn:Hb, (contains (lit " ") tag) eqn:Hc; cbn; run; try done.
  destruct (_ && _); run; [|done]. intros [Hr Ht]. split; [exact Hr|]. intros i t Hi. cbn in Hi.
  apply elem_of_union in Hi as [Hi|Hi]; [|by eapply Ht]. apply elem_of_singleton in Hi. injection Hi as -> ->. by split.
Qed.
Lemma orderly_remove_tag db id tag : orderly (remove_session_tag db id tag).
Proof.
  intros s. unfold remove_session_tag. destruct (answers db); run; [|done]. case_match; run; [|done].
  intros [Hr Ht]. split; [exact Hr|]. intros i t Hi. cbn in Hi. apply elem_of_difference in Hi as [Hi _]. by eapply Ht.
Qed.
#[export] Hint Resolve orderly_create_session orderly_reconcile_running orderly_reconcile_exited orderly_mark_lost
  orderly_close orderly_close_session orderly_reopen orderly_rename orderly_note orderly_pinned orderly_locked
  orderly_add_tag orderly_remove_tag : orderly.

Lemma orderly_get_session db id : orderly (get_session db id).
Proof. unfold get_session. orderly. Qed.
Lemma orderly_list_session_tags db id : orderly (list_session_tags db id).
Proof. unfold list_session_tags. orderly. Qed.
Lemma orderly_list_sessions db : orderly (list_sessions db).
Proof. unfold list_sessions. orderly. Qed.
Lemma orderly_next_session_id db : orderly (next_session_id db).
Proof. unfold next_session_id. orderly. Qed.
Lemma orderly_find db tag : orderly (find_sessions_by_tag db tag).
Proof. unfold find_sessions_by_tag. orderly. Qed.
#[export] Hint Resolve orderly_get_session orderly_list_session_tags orderly_list_sessions orderly_next_session_id
  orderly_find : orderly.

(** ** Reconciliation *)

Section reconciliation.
Context `{SnapshotJson}.

Lemma orderly_reconcile_entry policy snapshot contexts db records acc e :
  orderly (Reconcile.reconcile_entry policy snapshot contexts db records acc e).
Proof. unfold Reconcile.reconcile_entry. orderly. Qed.
Lemma orderly_entries policy snapshot contexts db records acc l :
  orderly (Reconcile.reconcile_entries policy snapshot contexts db records acc l).
Proof.
  revert acc. induction l as [|e l IH]; intros acc; cbn [Reconcile.reconcile_entries]; [apply orderly_mret|].
  apply orderly_bind; [apply orderly_reconcile_entry|done].
Qed.
Lemma orderly_reconcile policy snapshot contexts db listing order :
  orderly (Reconcile.reconcile_metadata policy snapshot contexts db listing order).
Proof.
  unfold Reconcile.reconcile_metadata, Reconcile.mark_missing. pose proof orderly_entries. orderly.
Qed.
End reconciliation.
#[export] Hint Resolve orderly_reconcile : orderly.

End MetadataTypes.
