(* ===== verification/HolderClient.v ===== *)
(** * HolderClient: the daemon's control connection to the holder.

    Models [crates/persistd/src/holder/client.rs] and [holder/data.rs].  The
    world the client talks to is the class [Sockets]: what the kernel and the
    holder answer to each call, of any kind, so that what is proved here holds
    for every holder, slow, old or broken.  A [HolderControlClient] is used by
    one operation at a time ([HolderRuntime.operations] of the daemon), so an
    operation is one computation. *)
From S2P Require Import Prelude Bytes Utf8 HolderWire HolderFrame HolderMessages HolderOperation HolderSession Environment Effects Reconcile.
From Stdlib Require Import Lia.
Import String.StringSyntax.
Import HolderFrame(HolderFrame, mkFrame, frame_ok, message_type, flags, request_id, payload, HolderMessageType,
  HOLDER_HEADER_SIZE, MAX_HOLDER_CONTROL_FRAME, HOLDER_PROTOCOL_BASELINE_MINOR, HOLDER_PROTOCOL_MINOR,
  HOLDER_CAPABILITY_ENVIRONMENT_CONTEXT).
Import Environment(SnapshotJson).
Import Reconcile(ExitContext, mkExit, x_session_id, x_exit_code, HolderInventorySnapshot, mkSnapshot).
Local Open Scope N_scope.

(** ** The kernel *)

(** Connections are numbers.  [dial] is [UnixStream::connect] to the holder's
    socket; a failed [read_exact] may have taken bytes.  [has_exited] and
    [wait_exit] are the pidfd of the holder's process, [reap] its [wait]. *)
Class Sockets (W : Type) : Type := {
  dial : W -> option N * W;
  configure : N -> W -> bool * W;
  write_all : N -> bytes -> W -> bool * W;
  read_exact : N -> N -> W -> option bytes * W;
  hang_up : N -> W -> W;
  urandom : W -> option bytes * W;
  has_exited : W -> result persist_error bool;
  wait_exit : W -> result persist_error unit * W;
  reap : W -> result persist_error unit * W;
}.

(** [read_exact] gives as many bytes as the buffer has. *)
Class SocketsLaws (W : Type) `{Sockets W} : Prop :=
  read_exact_len fd n w bs w' : read_exact fd n w = (Some bs, w') -> lenN bs = n.

Module HolderClient.

#[local] Existing Instances HolderFrame.HolderMessageType_eq_dec Operation.OperationStatus_eq_dec.

Definition MAX_PENDING_EVENTS : N := 1024.
Definition MAX_INVENTORY_RETRIES : nat := 8.

Record HolderControlClient : Type := mkClient {
  stream : N;
  instance_id : bytes;
  holder_pid : N;
  nonce : bytes;
  next_request_id : N;
  generation : N;
  protocol_minor : N;
  capabilities : N;
  events : list HolderFrame;
}.

Definition set_stream (s : N) (c : HolderControlClient) : HolderControlClient :=
  mkClient s (instance_id c) (holder_pid c) (nonce c) (next_request_id c) (generation c)
    (protocol_minor c) (capabilities c) (events c).
Definition set_next_request_id (n : N) (c : HolderControlClient) : HolderControlClient :=
  mkClient (stream c) (instance_id c) (holder_pid c) (nonce c) n (generation c) (protocol_minor c)
    (capabilities c) (events c).
Definition set_generation (g : N) (c : HolderControlClient) : HolderControlClient :=
  mkClient (stream c) (instance_id c) (holder_pid c) (nonce c) (next_request_id c) g
    (protocol_minor c) (capabilities c) (events c).
Definition set_negotiated (minor caps : N) (c : HolderControlClient) : HolderControlClient :=
  mkClient (stream c) (instance_id c) (holder_pid c) (nonce c) (next_request_id c) (generation c)
    minor caps (events c).
Definition set_events (l : list HolderFrame) (c : HolderControlClient) : HolderControlClient :=
  mkClient (stream c) (instance_id c) (holder_pid c) (nonce c) (next_request_id c) (generation c)
    (protocol_minor c) (capabilities c) l.

(** [map_err(|error| protocol_error(context, error))] *)
Definition protocol_error {A} (message : String.string) (c : result HolderProtocolError A)
  : result persist_error A :=
  match c with Ok a => Ok a | Err _ => Err (InvalidArgument message) end.
Arguments protocol_error {A} message%_string c.

Definition is_event (kind : HolderMessageType) : bool :=
  match kind with
  | HolderFrame.SessionStarted | HolderFrame.SessionExited | HolderFrame.WriterChanged
  | HolderFrame.LogDegraded => true
  | _ => false
  end.

Definition validate_response (f : HolderFrame) (id : N) (kind : HolderMessageType)
  : result persist_error unit :=
  if negb (request_id f =? id) || negb (bool_decide (message_type f = kind)) || negb (flags f =? 0)
  then invalid_argument "holder response does not match request" else Ok tt.

Definition require_operation_ok (payload : bytes) : result persist_error unit :=
  response ← protocol_error "invalid holder {context}: {error:?}"
    (Operation.decode_operation_response payload);
  if bool_decide (Operation.resp_status response = Operation.StatusOk) then Ok tt
  else invalid_argument "holder {context} failed: {:?}: {}".

Section client.
Context `{SnapshotJson} {W : Type} `{Sockets W}.
(** [libc::getuid()] and [std::process::id()]. *)
Context (uid pid : N).

(** A connected client and its world; [connect] runs in the world alone. *)
Definition C (A : Type) : Type := M (HolderControlClient * W) persist_error A.
Definition World (A : Type) : Type := M W persist_error A.

Definition me : C HolderControlClient := s ← get; mret s.1.
Definition change (f : HolderControlClient -> HolderControlClient) : C unit :=
  modify (fun s => (f s.1, s.2)).
Definition outside {A} (m : World A) : C A := zoom snd (fun w s => (s.1, w)) m.

(** ** The stream *)

Definition kernel {A} (op : W -> A * W) : World A := fun w => let '(a, w') := op w in Some (Ok a, w').

Definition read_some (operation : String.string) (fd n : N) : World bytes :=
  out ← kernel (read_exact fd n); lift (ok_or out (IoError operation)).
Definition write_some (operation : String.string) (fd : N) (bs : bytes) : World unit :=
  out ← kernel (write_all fd bs); lift (if out : bool then Ok tt else Err (IoError operation)).

Definition write_frame_with_minor (fd : N) (f : HolderFrame) (minor : N) : World unit :=
  bs ← lift (protocol_error "invalid holder request: {error:?}"
    (HolderFrame.encode_frame_with_minor f minor));
  write_some "write holder control frame" fd bs.
Definition write_frame (fd : N) (f : HolderFrame) : World unit :=
  write_frame_with_minor fd f HOLDER_PROTOCOL_BASELINE_MINOR.

Definition read_frame_with_minor (fd minor : N) : World HolderFrame :=
  header ← read_some "read holder control header" fd HOLDER_HEADER_SIZE;
  let payload_len := be_val (slice header 8 12) in
  if MAX_HOLDER_CONTROL_FRAME <? payload_len
  then fail (InvalidArgument "holder control payload exceeds limit")
  else
    payload ← read_some "read holder control payload" fd payload_len;
    lift (protocol_error "invalid holder response: {error:?}"
      (HolderFrame.decode_frame_with_minor (header ++ payload) minor)).
Definition read_frame (fd : N) : World HolderFrame :=
  read_frame_with_minor fd HOLDER_PROTOCOL_BASELINE_MINOR.

(** ** Events *)

Definition decode_exit_event (payload : bytes) (environment_context : bool) : result persist_error ExitContext :=
  if environment_context then
    event ← protocol_error "invalid holder SessionExited v2: {error:?}"
      (Operation.decode_session_exited_event_v2 payload);
    Ok (mkExit (Operation.session_id event) (Operation.exit_code event) (Operation.cwd event)
      (Operation.environment event))
  else
    event ← protocol_error "invalid holder SessionExited: {error:?}"
      (Operation.decode_session_exited_event payload);
    Ok (mkExit (Operation.v1_session_id event) (Operation.v1_exit_code event) (Operation.v1_cwd event) None).

Definition validate_event (f : HolderFrame) (environment_context : bool) : result persist_error unit :=
  let valid :=
    match message_type f with
    | HolderFrame.SessionStarted | HolderFrame.WriterChanged =>
        is_ok (Operation.decode_operation_request (payload f))
    | HolderFrame.SessionExited =>
        if environment_context then is_ok (Operation.decode_session_exited_event_v2 (payload f))
        else is_ok (Operation.decode_session_exited_event (payload f))
    | HolderFrame.LogDegraded => is_ok (Operation.decode_log_degraded (payload f))
    | _ => false
    end in
  if negb valid || negb (flags f =? 0) then invalid_argument "invalid holder control event" else Ok tt.

(** The exit event of a session: [frame.message_type == SessionExited && ..]. *)
Definition exits_session (id : N) (environment_context : bool) (f : HolderFrame) : bool :=
  bool_decide (message_type f = HolderFrame.SessionExited) &&
  match decode_exit_event (payload f) environment_context with
  | Ok event => x_session_id event =? id
  | Err _ => false
  end.

Definition take_exit_event (l : list HolderFrame) (id : N) (environment_context : bool)
  : option (ExitContext * list HolderFrame) :=
  '(position, f) ← list_find (fun f => exits_session id environment_context f = true) l;
  match decode_exit_event (payload f) environment_context with
  | Ok event => Some (event, delete position l)
  | Err _ => None
  end.

(** ** Requests *)

Definition has_capability (capability : N) (c : HolderControlClient) : bool :=
  negb (N.land (capabilities c) capability =? 0).
Definition environment_context (c : HolderControlClient) : bool :=
  has_capability HOLDER_CAPABILITY_ENVIRONMENT_CONTEXT c.

Definition observe_generation (g : N) : C unit :=
  c ← me;
  if g <? generation c then fail (InvalidArgument "holder response generation moved backwards")
  else change (set_generation g).

Definition push_event (f : HolderFrame) : C unit :=
  c ← me;
  if MAX_PENDING_EVENTS <=? lenN (events c)
  then fail (InvalidArgument "holder control event queue limit exceeded")
  else change (set_events (events c ++ [f])).

(** The loop that waits for the response, keeping the events before it. *)
Fixpoint await_response (fuel : nat) (request_id' : N) (response_type : HolderMessageType) (minor : N)
  : C HolderFrame :=
  match fuel with
  | O => panic
  | S fuel' =>
      c ← me;
      response ← outside (read_frame_with_minor (stream c) minor);
      if (request_id response =? request_id') && bool_decide (message_type response = response_type)
      then _ ← observe_generation (HolderFrame.generation response); mret response
      else if negb (request_id response =? 0) || negb (is_event (message_type response))
      then fail (InvalidArgument "holder response does not match request")
      else
        c ← me;
        _ ← lift (validate_event response (environment_context c));
        _ ← observe_generation (HolderFrame.generation response);
        _ ← push_event response;
        await_response fuel' request_id' response_type minor
  end.

(** Each round but the last one queues an event. *)
Definition event_fuel : nat := S (N.to_nat MAX_PENDING_EVENTS).

(** [fetch_add] of an [AtomicU32] wraps. *)
Definition fetch_request_id : C N :=
  c ← me;
  _ ← change (set_next_request_id (as_u32 (next_request_id c + 1)));
  mret (next_request_id c).

Definition request_with_minor (request_type response_type : HolderMessageType) (payload : bytes) (minor : N)
  : C HolderFrame :=
  id ← fetch_request_id;
  if id =? 0 then fail (InternalError "holder request ID space exhausted")
  else
    c ← me;
    _ ← outside (write_frame_with_minor (stream c) (mkFrame request_type 0 id (generation c) payload) minor);
    await_response event_fuel id response_type minor.

Definition request (request_type response_type : HolderMessageType) (payload : bytes) : C HolderFrame :=
  c ← me; request_with_minor request_type response_type payload (protocol_minor c).

Definition operation (request_type response_type : HolderMessageType) (session_id : N) : C unit :=
  frame ← request request_type response_type (Operation.encode_operation_request session_id);
  lift (require_operation_ok (HolderFrame.payload frame)).

(** ** Connecting *)

Definition random_nonce : World bytes :=
  out ← kernel urandom;
  bs ← lift (ok_or out (IoError "read holder nonce"));
  if is_zero16 bs then fail (InternalError "generated zero holder nonce") else mret bs.

(** A stream that is dropped is closed. *)
Definition dropping {A} (fd : N) (m : World A) : World A :=
  out ← attempt m;
  match out with
  | Ok a => mret a
  | Err e => _ ← modify (hang_up fd); fail e
  end.

Definition accepted (status : Handshake.HelloStatus) : bool :=
  match status with Handshake.Accepted => true | _ => false end.

Definition connect_baseline : World HolderControlClient :=
  found ← kernel dial;
  fd ← lift (ok_or found (IoError "connect holder control socket"));
  dropping fd (
    ready ← kernel (configure fd);
    _ ← lift (if ready : bool then Ok tt else Err (IoError "configure holder control timeout"));
    nonce ← random_nonce;
    _ ← write_frame fd (mkFrame HolderFrame.ControlHello 0 1 0
      (Handshake.encode_control_hello (Handshake.mkControlHello uid pid nonce)));
    frame ← read_frame fd;
    _ ← lift (validate_response frame 1 HolderFrame.ControlHelloAck);
    ack ← lift (protocol_error "invalid holder ControlHelloAck: {error:?}"
      (Handshake.decode_control_hello_ack (payload frame)));
    if negb (bool_decide (Handshake.ack_nonce ack = nonce)) || negb (accepted (Handshake.status ack))
    then fail (InvalidArgument "holder rejected control claim: {:?}")
    else mret (mkClient fd (Handshake.ack_instance_id ack) (Handshake.holder_pid ack) nonce 2
      (HolderFrame.generation frame) HOLDER_PROTOCOL_BASELINE_MINOR 0 [])).

Definition negotiate_capabilities : C unit :=
  c ← me;
  response ← request_with_minor HolderFrame.Capability HolderFrame.CapabilityResp
    (Capability.encode_capability_request
       (Capability.mkRequest (instance_id c) (nonce c) HOLDER_PROTOCOL_MINOR)) HOLDER_PROTOCOL_MINOR;
  response ← lift (protocol_error "invalid holder CapabilityResp: {error:?}"
    (Capability.decode_capability_response (payload response)));
  c ← me;
  if negb (bool_decide (Capability.resp_instance_id response = instance_id c)) ||
     negb (bool_decide (Capability.resp_nonce response = nonce c))
  then fail (InvalidArgument "holder capability identity mismatch")
  else change (set_negotiated (Capability.selected_minor response) (Capability.capabilities response)).

(** A client that no one else uses yet. *)
Definition with_client {A} (c : HolderControlClient) (m : C A)
  : World (result persist_error A * HolderControlClient) := fun w =>
  match m (c, w) with Some (r, (c', w')) => Some (Ok (r, c'), w') | None => None end.

(** The stream and the session keys of a new connection replace the old ones. *)
Definition adopt (replacement : HolderControlClient) (minor caps : N) : C unit :=
  c ← me;
  _ ← outside (modify (hang_up (stream c)));
  change (fun c => mkClient (stream replacement) (instance_id c) (holder_pid c) (nonce replacement)
    (next_request_id c) (generation replacement) minor caps []).

Definition reconnect_baseline : C unit :=
  replacement ← outside connect_baseline;
  c ← me;
  if negb (bool_decide (instance_id replacement = instance_id c))
  then
    _ ← outside (modify (hang_up (stream replacement)));
    fail (InvalidArgument "holder instance changed after capability probe")
  else adopt replacement HOLDER_PROTOCOL_BASELINE_MINOR 0.

Definition connect : World HolderControlClient :=
  c ← connect_baseline;
  out ← with_client c negotiate_capabilities;
  match out with
  | (Ok _, c) => mret c
  | (Err _, c) =>
      out ← with_client c reconnect_baseline;
      match out with
      | (Ok _, c) => mret c
      | (Err e, c) => _ ← modify (hang_up (stream c)); fail e
      end
  end.

Definition reconnect : C unit :=
  c ← me;
  replacement ← outside (if protocol_minor c =? HOLDER_PROTOCOL_BASELINE_MINOR then connect_baseline else connect);
  if negb (bool_decide (instance_id replacement = instance_id c))
  then
    _ ← outside (modify (hang_up (stream replacement)));
    fail (InvalidArgument "holder instance changed during reconnect")
  else adopt replacement (protocol_minor replacement) (capabilities replacement).

(** ** The inventory *)

Definition discard_events_through (g : N) : C unit :=
  change (fun c => set_events (filter (fun e => g < HolderFrame.generation e) (events c)) c).

(** The loop over the pages; the cursor grows, so [N.to_nat u32_max] rounds are
    enough. *)
Fixpoint pages (fuel : nat) (cursor : N) (entries : list Inventory.HolderSessionEntry) (seen : option N)
  : C (option HolderInventorySnapshot) :=
  match fuel with
  | O => panic
  | S fuel' =>
      frame ← request HolderFrame.Inventory HolderFrame.InventoryResp
        (Inventory.encode_inventory_request (Inventory.mkRequest cursor Inventory.MAX_INVENTORY_ENTRIES));
      response ← lift (protocol_error "invalid holder InventoryResp: {error:?}"
        (Inventory.decode_inventory_response (payload frame)));
      if match seen with Some g => negb (g =? HolderFrame.generation frame) | None => false end
      then mret None
      else
        let entries := entries ++ Inventory.entries response in
        match Inventory.next_cursor response with
        | None =>
            _ ← discard_events_through (HolderFrame.generation frame);
            c ← me;
            mret (Some (mkSnapshot (instance_id c) (HolderFrame.generation frame) entries))
        | Some next =>
            if next <=? cursor then fail (InvalidArgument "holder inventory cursor did not advance")
            else pages fuel' next entries (Some (HolderFrame.generation frame))
        end
  end.

(** [fuel] is the number of pages that are asked for at most. *)
Context (fuel : nat).

Definition inventory_snapshot_once : C (option HolderInventorySnapshot) := pages fuel 0 [] None.

Fixpoint inventory_attempts (retries : nat) : C HolderInventorySnapshot :=
  match retries with
  | O => fail (InternalError "holder inventory generation did not stabilize")
  | S retries' =>
      found ← inventory_snapshot_once;
      match found with Some snapshot => mret snapshot | None => inventory_attempts retries' end
  end.
Definition inventory_snapshot : C HolderInventorySnapshot := inventory_attempts MAX_INVENTORY_RETRIES.

(** ** Operations *)

Definition create (r : Session.CreateSessionRequest) : C unit :=
  c ← me;
  payload ← lift (protocol_error "invalid holder Create: {error:?}"
    (if environment_context c then Session.encode_create_request_v2 r else Session.encode_create_request r));
  frame ← request HolderFrame.Create HolderFrame.CreateResp payload;
  lift (require_operation_ok (HolderFrame.payload frame)).

Definition close (session_id : N) : C unit := operation HolderFrame.Close HolderFrame.CloseResp session_id.
Definition retire_exited (session_id : N) : C unit :=
  operation HolderFrame.RetireExited HolderFrame.RetireExitedResp session_id.
Definition kill (session_id : N) : C unit := operation HolderFrame.Kill HolderFrame.KillResp session_id.
Definition shutdown_all : C unit :=
  _ ← request HolderFrame.ShutdownAll HolderFrame.ShutdownAllResp []; mret tt.

Definition decode_context (payload : bytes) (environment_context : bool) : result persist_error ExitContext :=
  if environment_context then
    response ← protocol_error "invalid holder GetExitContextResp v2: {error:?}"
      (Operation.decode_exit_context_response_v2 payload);
    code ← ok_or (Operation.ctx_exit_code response) (InvalidArgument "missing holder exit code");
    Ok (mkExit (Operation.ctx_session_id response) code (Operation.ctx_cwd response)
      (Operation.ctx_environment response))
  else
    response ← protocol_error "invalid holder GetExitContextResp: {error:?}"
      (Operation.decode_exit_context_response payload);
    code ← ok_or (Operation.c1_exit_code response) (InvalidArgument "missing holder exit code");
    Ok (mkExit (Operation.c1_session_id response) code (Operation.c1_cwd response) None).

Definition exit_context (session_id : N) : C ExitContext :=
  frame ← request HolderFrame.GetExitContext HolderFrame.GetExitContextResp
    (Operation.encode_operation_request session_id);
  c ← me;
  context ← lift (decode_context (payload frame) (environment_context c));
  if negb (x_session_id context =? session_id)
  then fail (InvalidArgument "holder GetExitContext returned Session {}") else mret context.

(** The loop of [wait_for_session_exit]; the capabilities are read once. *)
Fixpoint await_exit (fuel : nat) (session_id : N) (environment_context : bool) : C ExitContext :=
  match fuel with
  | O => panic
  | S fuel' =>
      c ← me;
      match take_exit_event (events c) session_id environment_context with
      | Some (context, rest) => _ ← change (set_events rest); mret context
      | None =>
          event ← outside (read_frame_with_minor (stream c) (protocol_minor c));
          if negb (request_id event =? 0) || negb (is_event (message_type event))
          then fail (InvalidArgument "unexpected holder frame while waiting for exit")
          else
            _ ← lift (validate_event event environment_context);
            _ ← observe_generation (HolderFrame.generation event);
            exited ← lift (if bool_decide (message_type event = HolderFrame.SessionExited)
              then exited ← decode_exit_event (payload event) environment_context; Ok (Some exited)
              else Ok None);
            match exited with
            | Some exited =>
                if x_session_id exited =? session_id then mret exited
                else _ ← push_event event; await_exit fuel' session_id environment_context
            | None => _ ← push_event event; await_exit fuel' session_id environment_context
            end
      end
  end.
Definition wait_for_session_exit (session_id : N) : C ExitContext :=
  c ← me; await_exit event_fuel session_id (environment_context c).

(** ** What every operation keeps *)

(** The queue holds events only, not from the future. *)
Definition queue_ok (c : HolderControlClient) : Prop :=
  lenN (events c) <= MAX_PENDING_EVENTS /\
  Forall (fun e => request_id e = 0 /\ is_event (message_type e) = true /\
                   HolderFrame.generation e <= HolderClient.generation c) (events c).

(** The client is still bound to the same process. *)
Definition bound (c c' : HolderControlClient) : Prop :=
  instance_id c' = instance_id c /\ holder_pid c' = holder_pid c /\ queue_ok c'.

(** The same, on the same connection. *)
Definition follows (c c' : HolderControlClient) : Prop :=
  bound c c' /\ stream c' = stream c /\ nonce c' = nonce c /\ generation c <= generation c'.

Ltac same_client := unfold follows, bound, queue_ok; split_and!; try done.

Lemma follows_refl c : queue_ok c -> follows c c.
Proof. intros [? ?]. same_client. Qed.
Lemma follows_trans c1 c2 c3 : follows c1 c2 -> follows c2 c3 -> follows c1 c3.
Proof. unfold follows, bound. intros ((? & ? & ?) & ? & ? & ?) ((? & ? & ?) & ? & ? & ?). split_and!; try congruence; lia. Qed.
Lemma follows_bound c c' : follows c c' -> bound c c'.
Proof. by intros [? _]. Qed.
Lemma bound_trans c1 c2 c3 : bound c1 c2 -> bound c2 c3 -> bound c1 c3.
Proof. unfold bound. intros (? & ? & ?) (? & ? & ?). split_and!; congruence || done. Qed.
Lemma bound_ok c c' : bound c c' -> queue_ok c'.
Proof. by intros (_ & _ & ?). Qed.

Lemma runs_me s (Q : result persist_error HolderControlClient -> HolderControlClient * W -> Prop) :
  runs me s Q <-> Q (Ok s.1) s.
Proof. done. Qed.
Lemma runs_change f s (Q : result persist_error unit -> HolderControlClient * W -> Prop) :
  runs (change f) s Q <-> Q (Ok tt) (f s.1, s.2).
Proof. done. Qed.

Ltac go := cbv beta iota; repeat first [rewrite runs_me | rewrite runs_change | run_step]; cbn [fst snd].

Lemma runs_outside {A} (m : World A) s Q :
  returns m -> (forall r w, Q r (s.1, w)) -> runs (outside m) s Q.
Proof.
  intros Hm HQ. unfold outside. rewrite runs_zoom. specialize (Hm s.2). unfold runs in Hm.
  destruct (m s.2) as [[r w]|]; [apply HQ|done].
Qed.

Lemma returns_kernel {A} (op : W -> A * W) : returns (kernel op).
Proof. intros w. unfold runs, kernel. by destruct (op w). Qed.

Lemma returns_read_some operation fd n : returns (read_some operation fd n).
Proof. unfold read_some. auto using returns_kernel with returns. Qed.
Lemma returns_write_some operation fd bs : returns (write_some operation fd bs).
Proof. unfold write_some. auto using returns_kernel with returns. Qed.
Context `{!SocketsLaws W}.

Lemma read_some_spec operation fd n w Q :
  (forall bs w', lenN bs = n -> Q (Ok bs) w') -> (forall e w', Q (Err e) w') -> runs (read_some operation fd n) w Q.
Proof.
  intros H1 H2. unfold read_some. rewrite runs_bind. unfold kernel, runs at 1.
  destruct (read_exact fd n w) as [[bs|] w'] eqn:Hr; rewrite runs_lift; cbn [ok_or]; [|apply H2].
  by apply H1, (read_exact_len fd n w bs w').
Qed.

Lemma read_frame_spec fd minor w Q :
  (forall f w', frame_ok f -> lenN (payload f) <= MAX_HOLDER_CONTROL_FRAME -> Q (Ok f) w') ->
  (forall e w', Q (Err e) w') -> runs (read_frame_with_minor fd minor) w Q.
Proof.
  intros H1 H2. unfold read_frame_with_minor. rewrite runs_bind. apply read_some_spec; [|done]. intros header w1 Hh.
  cbv zeta. destruct (N.ltb_spec MAX_HOLDER_CONTROL_FRAME (be_val (slice header 8 12))) as [Hl|Hl]; [run; apply H2|].
  rewrite runs_bind. apply read_some_spec; [|done]. intros body w2 Hb. rewrite runs_lift.
  destruct (HolderFrame.decode_frame_with_minor _ _) as [f|] eqn:Hd; [|apply H2]. cbn [protocol_error].
  apply HolderFrame.decode_encode_iff in Hd as [Hf (_ & _ & Hp & _)%HolderFrame.encode_frame_iff].
  - apply H1; [done|]. pose proof (HolderFrame.max_payload_bound (message_type f)). lia.
  - unfold fits. rewrite lenN_app, Hh, Hb. unfold HOLDER_HEADER_SIZE, MAX_HOLDER_CONTROL_FRAME, isize_max in *. lia.
Qed.

Lemma returns_read_frame fd minor : returns (read_frame_with_minor fd minor).
Proof. intros w. by apply read_frame_spec. Qed.
Lemma runs_outside_eq {A} (m : World A) s Q :
  runs (outside m) s Q <-> runs m s.2 (fun r w => Q r (s.1, w)).
Proof. unfold outside. rewrite runs_zoom. done. Qed.

Lemma runs_outside_read minor fd s Q :
  (forall f w, frame_ok f -> lenN (payload f) <= MAX_HOLDER_CONTROL_FRAME -> Q (Ok f) (s.1, w)) ->
  (forall e w, Q (Err e) (s.1, w)) -> runs (outside (read_frame_with_minor fd minor)) s Q.
Proof.
  intros H1 H2. unfold outside. rewrite runs_zoom.
  pose proof (read_frame_spec fd minor s.2 (fun r w => Q r (s.1, w))) as Hr. unfold runs in Hr. by apply Hr.
Qed.

Lemma returns_write_frame fd f minor : returns (write_frame_with_minor fd f minor).
Proof. unfold write_frame_with_minor. auto using returns_write_some with returns. Qed.
Lemma returns_dropping {A} fd (m : World A) : returns m -> returns (dropping fd m).
Proof. intros Hm. unfold dropping. apply returns_bind; [by apply returns_attempt|]. intros []; auto with returns. Qed.

Lemma returns_connect_baseline : returns connect_baseline.
Proof.
  unfold connect_baseline, random_nonce. apply returns_bind; [apply returns_kernel|]. intros found.
  apply returns_bind; [apply returns_lift|]. intros fd. apply returns_dropping.
  apply returns_bind; [apply returns_kernel|]. intros ready. apply returns_bind; [apply returns_lift|]. intros _.
  apply returns_bind.
  - apply returns_bind; [apply returns_kernel|]. intros out. apply returns_bind; [apply returns_lift|].
    intros bs. destruct (is_zero16 bs); auto with returns.
  - intros nonce0. apply returns_bind; [apply returns_write_frame|]. intros _.
    apply returns_bind; [apply returns_read_frame|]. intros frame. do 2 (apply returns_bind; [apply returns_lift|]; intros ?).
    destruct (_ || _); auto with returns.
Qed.

(** ** Requests keep the connection *)

(** What the steps of a request do to the client. *)
Lemma observe_generation_spec g s Q :
  (forall c', follows s.1 c' -> generation c' = g -> capabilities c' = capabilities s.1 ->
     lenN (events c') = lenN (events s.1) -> events c' = events s.1 -> Q (Ok tt) (c', s.2)) ->
  (forall e, Q (Err e) s) -> queue_ok s.1 -> runs (observe_generation g) s Q.
Proof.
  intros HQ He [Hl Hq]. unfold observe_generation. go. destruct (N.ltb_spec g (generation s.1)) as [Hg|Hg]; go.
  - apply He.
  - apply HQ; try done. same_client.
    eapply Forall_impl; [exact Hq|]. cbn. intros e (? & ? & ?). split_and!; [done..|]. lia.
Qed.

Lemma push_event_spec f s Q :
  (forall c', follows s.1 c' -> capabilities c' = capabilities s.1 -> lenN (events c') = lenN (events s.1) + 1 ->
     lenN (events s.1) < MAX_PENDING_EVENTS -> Q (Ok tt) (c', s.2)) ->
  (forall e, Q (Err e) s) -> queue_ok s.1 ->
  request_id f = 0 -> is_event (message_type f) = true -> HolderFrame.generation f <= generation s.1 ->
  runs (push_event f) s Q.
Proof.
  intros HQ He [Hl Hq] Hid Hev Hg. unfold push_event. go. destruct (N.leb_spec MAX_PENDING_EVENTS (lenN (events s.1))); go.
  - apply He.
  - apply HQ; try done; [|cbn; by rewrite lenN_app].
    same_client; cbn; [rewrite lenN_app; change (lenN [f]) with 1; lia|].
    apply Forall_app. split; [done|]. by repeat constructor.
Qed.

(** A response is the one that was asked for, and not older than what was seen;
    the loop ends. *)
Lemma await_response_spec n id kind minor s Q : queue_ok s.1 -> id <> 0 ->
  (N.to_nat (MAX_PENDING_EVENTS - lenN (events s.1)) < n)%nat ->
  (forall r c' w', follows s.1 c' -> capabilities c' = capabilities s.1 ->
     (forall f, r = Ok f -> request_id f = id /\ message_type f = kind /\ HolderFrame.generation f = generation c' /\
       lenN (payload f) <= MAX_HOLDER_CONTROL_FRAME) ->
     Q r (c', w')) ->
  runs (await_response n id kind minor) s Q.
Proof.
  revert s Q; induction n as [|n IH]; intros [c w] Q Hq Hid Hn HQ; [lia|]. cbn [await_response]. go.
  cbn [fst snd] in *. apply runs_outside_read; [|intros e w1; apply HQ; [by apply follows_refl|done|done]].
  intros f w1 Hfok Hfl. cbn [fst].
  destruct ((request_id f =? id) && _) eqn:Hmatch.
  { apply andb_true_iff in Hmatch as [Hi%N.eqb_eq Hk%bool_decide_eq_true]. go. apply observe_generation_spec; [|by intros; apply HQ; [apply follows_refl|..]|done].
    cbn [fst snd]. intros c' Hf Hg Hc _ _. go. apply HQ; [done..|]. by intros f' [= <-]. }
  destruct (negb (request_id f =? 0) || _) eqn:Hev; [go; apply HQ; [by apply follows_refl|done|done]|].
  apply orb_false_iff in Hev as [Hi0%negb_false_iff%N.eqb_eq Hev%negb_false_iff]. go.
  destruct (validate_event _ _) as [[]|e]; [|apply HQ; [by apply follows_refl|done|done]]. run.
  apply observe_generation_spec; [|by intros; apply HQ; [apply follows_refl|..]|done].
  cbn [fst snd]. intros c1 Hf1 Hg1 Hc1 Hl1 _. go. pose proof (bound_ok _ _ (follows_bound _ _ Hf1)) as Hq1.
  apply push_event_spec; cbn [fst snd]; [|by intros; apply HQ|done..|by rewrite Hg1].
  intros c2 Hf2 Hc2 Hl2 Hlt. go. pose proof (bound_ok _ _ (follows_bound _ _ Hf2)) as Hq2.
  apply IH; cbn [fst snd]; [done|done|lia|]. intros r c' w' Hf Hc Hr. apply HQ; [|congruence|done].
  eapply follows_trans; [|exact Hf]. by eapply follows_trans.
Qed.

Lemma event_fuel_enough l : (N.to_nat (MAX_PENDING_EVENTS - lenN (A := HolderFrame) l) < event_fuel)%nat.
Proof. unfold event_fuel. lia. Qed.

Lemma request_spec request_type kind bs minor s Q : queue_ok s.1 ->
  (forall r c' w', follows s.1 c' -> capabilities c' = capabilities s.1 ->
     (forall f, r = Ok f -> request_id f = next_request_id s.1 /\ message_type f = kind /\
        HolderFrame.generation f = generation c' /\ lenN (payload f) <= MAX_HOLDER_CONTROL_FRAME) ->
     Q r (c', w')) ->
  runs (request_with_minor request_type kind bs minor) s Q.
Proof.
  intros Hq HQ. unfold request_with_minor, fetch_request_id. destruct s as [c w]. go.
  assert (Hf0 : follows c (set_next_request_id (as_u32 (next_request_id c + 1)) c)) by (destruct Hq; same_client).
  destruct (N.eqb_spec (next_request_id c) 0) as [Hz|Hz]; [go; by apply HQ|]. go.
  apply runs_outside; [apply returns_write_frame|]. cbn [fst]. intros [[]|e] w1; [|by apply HQ].
  apply await_response_spec; cbn [fst snd]; [done|done|apply event_fuel_enough|].
  intros r c' w' Hf Hc Hr. apply HQ; [|exact Hc|exact Hr]. exact (follows_trans _ _ _ Hf0 Hf).
Qed.

(** ** Every operation returns, on the same connection *)

Definition stays {A} (m : C A) : Prop := forall s, queue_ok s.1 -> runs m s (fun _ s' => follows s.1 s'.1).

Lemma stays_bind {A B} (m : C A) (k : A -> C B) : stays m -> (forall a, stays (k a)) -> stays (m ≫= k).
Proof.
  intros Hm Hk s Hq. rewrite runs_bind. eapply runs_mono; [by apply Hm|]. cbn beta. intros [a|e] s1 H1; [|done].
  eapply runs_mono; [apply Hk; by eapply bound_ok, follows_bound|]. cbn beta. intros r s2 H2. by eapply follows_trans.
Qed.
Lemma stays_me {B} (k : HolderControlClient -> C B) : (forall c, stays (k c)) -> stays (c ← me; k c).
Proof. intros Hk s Hq. go. by apply Hk. Qed.
Lemma stays_lift {A} (c : result persist_error A) : stays (lift c).
Proof. intros s Hq. go. by apply follows_refl. Qed.
Lemma stays_ret {A} (a : A) : stays (mret a).
Proof. intros s Hq. go. by apply follows_refl. Qed.
Lemma stays_fail {A} e : stays (fail (A := A) e).
Proof. intros s Hq. go. by apply follows_refl. Qed.
Lemma stays_request t kind bs : stays (request t kind bs).
Proof.
  intros s Hq. unfold request. go. apply request_spec; [done|]. by intros.
Qed.
Lemma stays_operation t kind id : stays (operation t kind id).
Proof. apply stays_bind; [apply stays_request|]. intros. apply stays_lift. Qed.
Lemma stays_create r : stays (create r).
Proof.
  apply stays_me. intros c. apply stays_bind; [apply stays_lift|]. intros bs. apply stays_bind; [apply stays_request|].
  intros. apply stays_lift.
Qed.
Lemma stays_shutdown : stays shutdown_all.
Proof. apply stays_bind; [apply stays_request|]. intros. apply stays_ret. Qed.
Lemma stays_exit_context id : stays (exit_context id).
Proof.
  apply stays_bind; [apply stays_request|]. intros f. apply stays_me. intros c.
  apply stays_bind; [apply stays_lift|]. intros x. destruct (negb _); [apply stays_fail|apply stays_ret].
Qed.

Lemma discard_spec g s Q : queue_ok s.1 ->
  (forall c', follows s.1 c' -> generation c' = generation s.1 ->
     Forall (fun e => g < HolderFrame.generation e) (events c') -> Q (Ok tt) (c', s.2)) ->
  runs (discard_events_through g) s Q.
Proof.
  intros [Hl Hq] HQ. unfold discard_events_through. rewrite runs_change. apply HQ; try done.
  - same_client; cbn.
    + etransitivity; [|exact Hl]. unfold lenN. pose proof (length_filter (fun e => g < HolderFrame.generation e) (events s.1)). lia.
    + rewrite Forall_forall in *. intros e [_ He]%list_elem_of_filter. by apply Hq.
  - cbn. rewrite Forall_forall. intros e [He _]%list_elem_of_filter. done.
Qed.

(** A next cursor is a session id. *)
Lemma next_cursor_range bs r next : lenN bs <= MAX_HOLDER_CONTROL_FRAME ->
  Inventory.decode_inventory_response bs = Ok r -> Inventory.next_cursor r = Some next -> next < u32_max.
Proof.
  intros Hl Hd Hn. apply Inventory.decode_inventory_response_iff in Hd as [Hok _].
  - destruct Hok as (_ & _ & Hc). by apply Hc.
  - unfold fits, MAX_HOLDER_CONTROL_FRAME, isize_max in *. lia.
Qed.

Lemma pages_spec n cursor l seen s Q : queue_ok s.1 -> (N.to_nat (u32_max - cursor) < n)%nat ->
  (forall r c' w', follows s.1 c' ->
     (forall snap, r = Ok (Some snap) -> Reconcile.instance_id snap = instance_id c' /\
        Reconcile.generation snap = generation c' /\
        Forall (fun e => Reconcile.generation snap < HolderFrame.generation e) (events c')) -> Q r (c', w')) ->
  runs (pages n cursor l seen) s Q.
Proof.
  revert cursor l seen s Q; induction n as [|n IH]; intros cursor l seen s Q Hq Hn HQ; [lia|]. cbn [pages].
  unfold request. go. apply request_spec; [done|]. intros r c1 w1 Hf1 _ Hr1.
  pose proof (bound_ok _ _ (follows_bound _ _ Hf1)) as Hq1.
  destruct r as [f|e]; [|by apply HQ]. destruct (Hr1 f eq_refl) as (_ & _ & Hg & Hp). go.
  destruct (Inventory.decode_inventory_response (payload f)) as [resp|e] eqn:Hd; cbn [protocol_error]; [|by apply HQ]. go.
  destruct (match seen with Some g => _ | None => _ end); [go; by apply HQ|].
  destruct (Inventory.next_cursor resp) as [next|] eqn:Hnext.
  - destruct (N.leb_spec next cursor); [go; by apply HQ|]. pose proof (next_cursor_range _ _ _ Hp Hd Hnext) as Hlt.
    apply IH; [done|lia|]. cbn [fst]. intros r c2 w2 Hf2 Hr2. apply HQ; [|done]. by eapply follows_trans.
  - go. apply discard_spec; [done|]. cbn [fst snd]. intros c2 Hf2 Hg2 Hev. go. apply HQ; [by eapply follows_trans|].
    intros snap [= <-]. cbn. split_and!; [done|congruence|done].
Qed.

Lemma inventory_snapshot_spec s Q : (N.to_nat u32_max < fuel)%nat -> queue_ok s.1 ->
  (forall r c' w', follows s.1 c' ->
     (forall snap, r = Ok snap -> Reconcile.instance_id snap = instance_id c' /\
        Reconcile.generation snap = generation c' /\
        Forall (fun e => Reconcile.generation snap < HolderFrame.generation e) (events c')) -> Q r (c', w')) ->
  runs inventory_snapshot s Q.
Proof.
  intros enough. unfold inventory_snapshot. generalize MAX_INVENTORY_RETRIES as n. intros n.
  revert s Q; induction n as [|n IH]; intros s Q Hq HQ; cbn [inventory_attempts].
  { go. destruct s. apply HQ; [by apply follows_refl|done]. }
  go. unfold inventory_snapshot_once. apply pages_spec; [done|lia|]. intros r c1 w1 Hf1 Hr1.
  destruct r as [[snap|]|e]; [go; apply HQ; [done|]| |by apply HQ].
  - intros snap' [= <-]. by apply Hr1.
  - apply IH; [by eapply bound_ok, follows_bound|]. cbn [fst]. intros r c2 w2 Hf2 Hr2. apply HQ; [|done].
    by eapply follows_trans.
Qed.

Lemma take_exit_event_spec l id env x rest : take_exit_event l id env = Some (x, rest) ->
  x_session_id x = id /\ lenN rest <= lenN l /\ forall P, Forall P l -> Forall P rest.
Proof.
  unfold take_exit_event. destruct (list_find _ l) as [[i f]|] eqn:Hf; [|done]. cbn.
  apply list_find_Some in Hf as (Hi & Hx & _). unfold exits_session in Hx.
  apply andb_true_iff in Hx as [_ Hx]. destruct (decode_exit_event (payload f) env) as [y|]; [|done].
  apply N.eqb_eq in Hx. intros [= -> <-]. split_and!; [done|..].
  - unfold lenN. pose proof (lookup_lt_Some _ _ _ Hi). rewrite length_delete by by eexists. lia.
  - intros P HP. rewrite delete_take_drop. apply Forall_app. split; [by apply Forall_take|by apply Forall_drop].
Qed.

Lemma await_exit_spec n id env s Q : queue_ok s.1 ->
  (N.to_nat (MAX_PENDING_EVENTS - lenN (events s.1)) < n)%nat ->
  (forall r c' w', follows s.1 c' -> (forall x, r = Ok x -> x_session_id x = id) -> Q r (c', w')) ->
  runs (await_exit n id env) s Q.
Proof.
  revert s Q; induction n as [|n IH]; intros [c w] Q Hq Hn HQ; [lia|]. cbn [await_exit]. go. cbn [fst snd] in *.
  destruct (take_exit_event (events c) id env) as [[x rest]|] eqn:Ht.
  { apply take_exit_event_spec in Ht as (Hx & Hl & Hall). go. apply HQ; [|by intros ? [= <-]].
    destruct Hq as [Hl0 Hq]. same_client; cbn; [lia|by apply Hall]. }
  go. apply runs_outside_read; [|intros; apply HQ; [by apply follows_refl|done]]. intros f w1 Hfok Hfl. cbn [fst].
  destruct (negb (request_id f =? 0) || _) eqn:Hev; [go; apply HQ; [by apply follows_refl|done]|].
  apply orb_false_iff in Hev as [Hi0%negb_false_iff%N.eqb_eq Hev%negb_false_iff]. go.
  destruct (validate_event _ _) as [[]|e]; [|apply HQ; [by apply follows_refl|done]]. go.
  apply observe_generation_spec; [|by intros; apply HQ; [apply follows_refl|]|done].
  cbn [fst snd]. intros c1 Hf1 Hg1 Hc1 Hl1 _. go. pose proof (bound_ok _ _ (follows_bound _ _ Hf1)) as Hq1.
  assert (Hpush : runs (_ ← push_event f; await_exit n id env) (c1, w1) Q).
  { go. apply push_event_spec; cbn [fst snd]; [|by intros; apply HQ|done..|by rewrite Hg1].
    intros c2 Hf2 Hc2 Hl2 Hlt. go. apply IH; cbn [fst snd].
    - by eapply bound_ok, follows_bound.
    - lia.
    - intros r c' w' Hf Hr. apply HQ; [|done]. eapply follows_trans; [|exact Hf]. by eapply follows_trans. }
  destruct (bool_decide _); [|exact Hpush].
  destruct (decode_exit_event (payload f) env) as [x|e]; [|by apply HQ]. cbn.
  destruct (N.eqb_spec (x_session_id x) id) as [Hx|Hx]; [|exact Hpush]. go. apply HQ; [done|]. by intros ? [= <-].
Qed.

Lemma wait_for_session_exit_spec id s Q : queue_ok s.1 ->
  (forall r c' w', follows s.1 c' -> (forall x, r = Ok x -> x_session_id x = id) -> Q r (c', w')) ->
  runs (wait_for_session_exit id) s Q.
Proof. intros Hq HQ. unfold wait_for_session_exit. go. apply await_exit_spec; [done|apply event_fuel_enough|done]. Qed.

(** ** A new connection *)

Lemma connect_baseline_spec w Q :
  (forall c w', events c = [] -> Q (Ok c) w') -> (forall e w', Q (Err e) w') -> runs connect_baseline w Q.
Proof.
  intros H1 H2. unfold connect_baseline, dropping. rewrite runs_bind. apply returns_runs; [apply returns_kernel|].
  intros [found|e] w1; [|done]. rewrite runs_bind, runs_lift. destruct found as [fd|]; [|apply H2]. cbn [ok_or].
  rewrite runs_bind, runs_attempt.
  assert (Hend : forall (r : result persist_error HolderControlClient) w', (forall c, r = Ok c -> events c = []) ->
    runs match r with Ok a => mret a | Err e => _ ← modify (hang_up fd); fail e end w' Q).
  { intros [c|e] w' Hc; run; [apply H1; by apply Hc|apply H2]. }
  rewrite runs_bind. apply returns_runs; [apply returns_kernel|]. intros [ready|e] w2; [|by apply (Hend (Err _))].
  rewrite runs_bind, runs_lift. destruct ready; [|by apply (Hend (Err _))].
  rewrite runs_bind. apply returns_runs.
  { unfold random_nonce. apply returns_bind; [apply returns_kernel|]. intros out. apply returns_bind; [apply returns_lift|].
    intros bs. destruct (is_zero16 bs); auto with returns. }
  intros [nonce0|e] w3; [|by apply (Hend (Err _))]. rewrite runs_bind. apply returns_runs; [apply returns_write_frame|].
  intros [[]|e] w4; [|by apply (Hend (Err _))]. rewrite runs_bind. apply returns_runs; [apply returns_read_frame|].
  intros [f|e] w5; [|by apply (Hend (Err _))]. rewrite runs_bind, runs_lift. destruct (validate_response _ _ _); [|by apply (Hend (Err _))].
  rewrite runs_bind, runs_lift. destruct (protocol_error _ _) as [ack|]; [|by apply (Hend (Err _))].
  destruct (_ || _).
  - rewrite runs_fail. by apply (Hend (Err _)).
  - rewrite runs_ret. apply (Hend (Ok _)). by intros c [= <-].
Qed.

Lemma adopt_spec replacement minor caps s Q : queue_ok s.1 ->
  (forall c' w', bound s.1 c' -> Q (Ok tt) (c', w')) -> runs (adopt replacement minor caps) s Q.
Proof.
  intros Hq HQ. unfold adopt. go. rewrite runs_outside_eq. go. apply HQ. same_client.
Qed.

Lemma reconnect_baseline_spec s Q : queue_ok s.1 -> (forall r c' w', bound s.1 c' -> Q r (c', w')) ->
  runs reconnect_baseline s Q.
Proof.
  intros Hq HQ. unfold reconnect_baseline. go. rewrite runs_outside_eq. apply connect_baseline_spec.
  - intros a w' _. go. destruct (negb _); [|apply adopt_spec; [done|by intros; apply HQ]].
    go. rewrite runs_outside_eq. go. apply HQ, follows_bound. by apply follows_refl.
  - intros e w'. apply HQ, follows_bound. by apply follows_refl.
Qed.

Lemma negotiate_spec s Q : queue_ok s.1 -> (forall r c' w', queue_ok c' -> Q r (c', w')) -> runs negotiate_capabilities s Q.
Proof.
  intros Hq HQ. unfold negotiate_capabilities. go. apply request_spec; [done|]. intros [f|e] c1 w1 Hf1 _ _;
    pose proof (bound_ok _ _ (follows_bound _ _ Hf1)) as Hq1; [|by apply HQ]. go.
  destruct (protocol_error _ _) as [resp|e]; [|by apply HQ]. go.
  destruct (_ || _); go; by apply HQ.
Qed.

Lemma runs_with_client {A} c (m : C A) w Q :
  runs (with_client c m) w Q <-> runs m (c, w) (fun r s => Q (Ok (r, s.1)) s.2).
Proof. unfold runs, with_client. by destruct (m (c, w)) as [[r [c' w']]|]. Qed.

Lemma connect_spec w Q : (forall r w', Q r w') -> runs connect w Q.
Proof.
  intros HQ. unfold connect. go. apply connect_baseline_spec; [|done]. intros c w1 He. go.
  assert (Hq : queue_ok c) by (unfold queue_ok; rewrite He; by split).
  rewrite runs_with_client. apply negotiate_spec; [done|]. intros [[]|e] c1 w2 Hq1; go; [done|].
  rewrite runs_with_client. apply reconnect_baseline_spec; [done|]. intros [[]|e'] c2 w3 _; go; done.
Qed.

Lemma reconnect_spec s Q : queue_ok s.1 -> (forall r c' w', bound s.1 c' -> Q r (c', w')) ->
  runs reconnect s Q.
Proof.
  intros Hq HQ. unfold reconnect. go. rewrite runs_outside_eq.
  assert (Hr : forall a w', runs (c ← me; if negb (bool_decide (instance_id a = instance_id c))
     then _ ← outside (modify (hang_up (stream a))); fail (InvalidArgument "holder instance changed during reconnect")
     else adopt a (protocol_minor a) (capabilities a)) (s.1, w') Q).
  { intros a w'. go. destruct (negb _); [|apply adopt_spec; [done|by intros; apply HQ]].
    go. rewrite runs_outside_eq. go. apply HQ, follows_bound. by apply follows_refl. }
  destruct (protocol_minor s.1 =? _).
  - apply connect_baseline_spec; [intros a w' _; apply Hr|]. intros e w'. apply HQ, follows_bound. by apply follows_refl.
  - apply connect_spec. intros [a|e] w'; [apply Hr|]. apply HQ, follows_bound. by apply follows_refl.
Qed.
Lemma exit_context_id id s : queue_ok s.1 ->
  runs (exit_context id) s (fun r _ => forall x, r = Ok x -> x_session_id x = id).
Proof.
  intros Hq. unfold exit_context. rewrite runs_bind.
  eapply runs_mono; [by apply stays_request|]. cbn beta. intros [f|e] s1 _; [|done].
  go. destruct (decode_context _ _) as [x|e]; [|done]. go.
  destruct (N.eqb_spec (x_session_id x) id); cbn [negb]; go; [by intros ? [= <-]|done].
Qed.


(** ** Frames that arrive whole *)

(** [holds w bs]: the stream [fd] will give [bs]. *)
Definition delivers (fd : N) (holds : W -> bytes -> Prop) : Prop := forall w b1 b2, holds w (b1 ++ b2) ->
  exists w', read_exact fd (lenN b1) w = (Some b1, w') /\ holds w' b2.

Lemma read_frame_encoded fd m f enc rest w holds : delivers fd holds ->
  HolderFrame.encode_frame_with_minor f m = Ok enc -> frame_ok f -> holds w (enc ++ rest) ->
  runs (read_frame_with_minor fd m) w (fun r w' => r = Ok f /\ holds w' rest).
Proof.
  intros Hd He Hf Hw. pose proof He as (Hm & Hfl & Hl & Henc)%HolderFrame.encode_frame_iff. subst enc.
  pose proof (HolderFrame.max_payload_bound (message_type f)) as Hb.
  assert (Hu : is_u32 (lenN (payload f))) by (unfold is_u32, MAX_HOLDER_CONTROL_FRAME in *; lia).
  assert (Hm' : is_u16 m) by (destruct Hm as [-> | ->]; done).
  unfold read_frame_with_minor, read_some. rewrite !runs_bind.
  rewrite <- app_assoc in Hw. apply Hd in Hw as (w1 & Hr1 & Hw1).
  rewrite HolderFrame.lenN_frame_header in Hr1. unfold kernel at 1, runs at 1. rewrite Hr1, runs_lift. cbn [ok_or].
  cbv zeta. pose proof (proj1 (HolderFrame.header_fields f m (lenN (payload f)) [] Hm' Hu)) as Hn.
  rewrite app_nil_r in Hn. rewrite Hn. destruct (N.ltb_spec MAX_HOLDER_CONTROL_FRAME (lenN (payload f))); [lia|].
  apply Hd in Hw1 as (w2 & Hr2 & Hw2). rewrite !runs_bind. unfold kernel, runs at 1. rewrite Hr2, runs_lift. cbn [ok_or].
  rewrite runs_lift.
  assert (Hfit : fits (HolderFrame.frame_header f m (lenN (payload f)) ++ payload f)).
  2:{ by rewrite (proj2 (HolderFrame.decode_encode_iff _ m f Hfit) (conj Hf He)). }
  unfold fits. rewrite lenN_app, HolderFrame.lenN_frame_header. unfold HOLDER_HEADER_SIZE, MAX_HOLDER_CONTROL_FRAME, isize_max in *. lia.
Qed.
End client.
End HolderClient.
