(* ===== verification/HolderBackend.v ===== *)
(** * HolderBackend: the daemon's view of the holder.

    Models [HolderRuntime] of [crates/persistd/src/holder/mod.rs] with the data
    connection of [holder/data.rs]: the control client, the cached inventory
    and whether the holder answered last time.  Each operation holds the
    [operations] lock, so it is one computation; the cache is read without it. *)
From S2P Require Import Prelude OrderedMap Bytes HolderWire HolderFrame HolderMessages HolderOperation HolderSession Environment Effects Reconcile HolderClient.
From Stdlib Require Import Lia.
Import String.StringSyntax.
Import HolderFrame(HolderFrame, mkFrame, message_type, request_id, payload, HolderMessageType,
  HOLDER_HEADER_SIZE, MAX_HOLDER_CONTROL_FRAME).
Import Environment(SnapshotJson).
Import Reconcile(ExitContext, HolderInventorySnapshot, mkSnapshot, entries, generation, instance_hex).
Local Open Scope N_scope.

Module HolderBackend.

#[local] Existing Instances HolderFrame.HolderMessageType_eq_dec Operation.OperationStatus_eq_dec.

Record HolderDataConnection : Type := mkData { data_stream : N; data_minor : N }.

Record HolderRuntime : Type := mkRuntime {
  client : HolderClient.HolderControlClient;
  replay_bytes : N;
  cache : HolderInventorySnapshot;
  connected : bool;
}.

Section backend.
Context `{SnapshotJson} {W : Type} `{Sockets W}.
Context (uid pid : N) (fuel : nat).

Definition World (A : Type) : Type := M W persist_error A.
Definition B (A : Type) : Type := M (HolderRuntime * W) persist_error A.

Definition me : B HolderRuntime := s ← get; mret s.1.
Definition set_cache (f : HolderInventorySnapshot -> HolderInventorySnapshot) : B unit :=
  modify (fun s => (mkRuntime (client s.1) (replay_bytes s.1) (f (cache s.1)) (connected s.1), s.2)).
Definition set_connected (b : bool) : B unit :=
  modify (fun s => (mkRuntime (client s.1) (replay_bytes s.1) (cache s.1) b, s.2)).
Definition by_client {A} (m : HolderClient.C (W := W) A) : B A :=
  zoom (fun s => (client s.1, s.2))
    (fun cw s => (mkRuntime cw.1 (replay_bytes s.1) (cache s.1) (connected s.1), cw.2)) m.
Definition outside {A} (m : World A) : B A := zoom snd (fun w s => (s.1, w)) m.

(** ** Data connections *)

Definition read_frame (fd minor : N) : World HolderFrame :=
  header ← HolderClient.read_some "read holder data header" fd HOLDER_HEADER_SIZE;
  let length := be_val (slice header 8 12) in
  if MAX_HOLDER_CONTROL_FRAME <? length
  then fail (InvalidArgument "holder data payload exceeds limit")
  else
    payload ← HolderClient.read_some "read holder data payload" fd length;
    lift (HolderClient.protocol_error "invalid holder data response: {error:?}"
      (HolderFrame.decode_frame_with_minor (header ++ payload) minor)).

Definition exchange (fd : N) (request : HolderFrame) (expected : HolderMessageType) (minor : N)
    (validate : bytes -> result persist_error unit) : World unit :=
  bs ← lift (HolderClient.protocol_error "invalid holder data request: {error:?}"
    (HolderFrame.encode_frame_with_minor request minor));
  _ ← HolderClient.write_some "write holder data frame" fd bs;
  response ← read_frame fd minor;
  if negb (bool_decide (message_type response = expected)) || negb (request_id response =? request_id request)
  then fail (InvalidArgument "holder data response does not match request")
  else lift (validate (payload response)).

Definition validate_data_hello (instance_id nonce payload : bytes) : result persist_error unit :=
  ack ← HolderClient.protocol_error "invalid holder data DataHelloAck: {error:?}"
    (Handshake.decode_data_hello_ack payload);
  if negb (bool_decide (Handshake.data_ack_instance_id ack = instance_id)) ||
     negb (bool_decide (Handshake.data_ack_nonce ack = nonce)) ||
     negb (HolderClient.accepted (Handshake.data_status ack))
  then invalid_argument "holder rejected data connection" else Ok tt.

Definition validate_attach (payload : bytes) : result persist_error unit :=
  response ← HolderClient.protocol_error "invalid holder data AttachResp: {error:?}"
    (Operation.decode_operation_response payload);
  if bool_decide (Operation.resp_status response = Operation.StatusOk) then Ok tt
  else invalid_argument "holder attach failed: {}".

(** [HolderDataConnection::connect]; [configure] sets the timeouts, and at the
    end clears them and makes the stream not block. *)
Definition connect_data (instance_id nonce : bytes) (minor session_id : N)
    (mode : Session.HolderAttachMode) (replay : N) : World HolderDataConnection :=
  found ← HolderClient.kernel dial;
  fd ← lift (ok_or found (IoError "connect holder data socket"));
  HolderClient.dropping fd (
    ready ← HolderClient.kernel (configure fd);
    _ ← lift (if ready : bool then Ok tt else Err (IoError "configure holder data timeout"));
    _ ← exchange fd (mkFrame HolderFrame.DataHello 0 1 0
          (Handshake.encode_data_hello (Handshake.mkDataHello pid instance_id nonce)))
          HolderFrame.DataHelloAck minor (validate_data_hello instance_id nonce);
    _ ← exchange fd (mkFrame HolderFrame.Attach 0 2 0
          (Session.encode_attach_request (Session.mkAttach session_id mode replay)))
          HolderFrame.AttachResp minor validate_attach;
    ready ← HolderClient.kernel (configure fd);
    _ ← lift (if ready : bool then Ok tt else Err (IoError "set holder data nonblocking"));
    mret (mkData fd minor)).

(** ** The runtime *)

Definition inventory_snapshot (b : HolderRuntime) : list Inventory.HolderSessionEntry := entries (cache b).
Definition reconciliation_snapshot (b : HolderRuntime) : HolderInventorySnapshot := cache b.

Definition is_connected : B bool :=
  s ← get;
  mret (connected s.1 && match has_exited s.2 with Ok b => negb b | Err _ => false end).

Definition mark_unavailable : B HolderInventorySnapshot :=
  _ ← set_connected false;
  _ ← set_cache (fun c => mkSnapshot (Reconcile.instance_id c) (generation c) []);
  b ← me; mret (cache b).

(** An error of kind [Io] makes the client connect again. *)
Definition refresh_inventory : B unit :=
  out ← attempt (by_client (HolderClient.inventory_snapshot fuel));
  inventory ←
    match out with
    | Ok inventory => mret inventory
    | Err (IoError _) =>
        again ← attempt (by_client (HolderClient.reconnect uid pid));
        match again with
        | Err e => _ ← set_connected false; fail e
        | Ok _ =>
            out ← attempt (by_client (HolderClient.inventory_snapshot fuel));
            match out with
            | Ok inventory => mret inventory
            | Err e => _ ← set_connected false; fail e
            end
        end
    | Err e => _ ← set_connected false; fail e
    end;
  _ ← set_cache (fun _ => inventory);
  set_connected true.

Definition create (r : Session.CreateSessionRequest) : B unit :=
  _ ← by_client (HolderClient.create r); refresh_inventory.
Definition exit_context (session_id : N) : B ExitContext := by_client (HolderClient.exit_context session_id).
Definition close (session_id : N) : B ExitContext :=
  _ ← by_client (HolderClient.close session_id);
  by_client (HolderClient.wait_for_session_exit session_id).
Definition retire_exited (session_id : N) : B unit :=
  _ ← by_client (HolderClient.retire_exited session_id); refresh_inventory.
Definition kill (session_id : N) : B unit := by_client (HolderClient.kill session_id).

Definition attach (session_id : N) (mode : Session.HolderAttachMode) : B HolderDataConnection :=
  b ← me;
  connection ← outside (connect_data (HolderClient.instance_id (client b)) (HolderClient.nonce (client b))
    (HolderClient.protocol_minor (client b)) session_id mode (replay_bytes b));
  out ← attempt refresh_inventory;
  match out with
  | Ok _ => mret connection
  | Err e => _ ← outside (modify (hang_up (data_stream connection))); fail e
  end.

(** The contexts of the sessions that exited, from the holder. *)
Fixpoint gather (l : list Inventory.HolderSessionEntry) : B (list (N * ExitContext)) :=
  match l with
  | [] => mret []
  | e :: l' =>
      if Inventory.exit_context_available e then
        context ← exit_context (Inventory.session_id e);
        rest ← gather l';
        mret ((Inventory.session_id e, context) :: rest)
      else gather l'
  end.
Definition exit_contexts (snapshot : HolderInventorySnapshot) : B (gmap N ExitContext) :=
  l ← gather (entries snapshot);
  mret (fold_left (fun m x => <[x.1 := x.2]> m) l ∅).

Definition shutdown : B unit :=
  s ← get;
  exited ← lift (has_exited s.2);
  _ ← (if exited : bool then mret tt
       else _ ← by_client HolderClient.shutdown_all; out ← outside (HolderClient.kernel wait_exit); lift out);
  out ← outside (HolderClient.kernel reap); lift out.

(** ** What the operations keep *)

Context `{!SocketsLaws W}.
Hypothesis enough : (N.to_nat u32_max < fuel)%nat.

(** The client is usable, and the cache is of its holder. *)
Definition backend_ok (b : HolderRuntime) : Prop :=
  HolderClient.queue_ok (client b) /\ Reconcile.instance_id (cache b) = HolderClient.instance_id (client b).

(** The same holder process. *)
Definition same_holder (b b' : HolderRuntime) : Prop :=
  backend_ok b' /\ replay_bytes b' = replay_bytes b /\
  HolderClient.instance_id (client b') = HolderClient.instance_id (client b) /\
  HolderClient.holder_pid (client b') = HolderClient.holder_pid (client b).

Lemma same_holder_refl b : backend_ok b -> same_holder b b.
Proof. done. Qed.
Lemma same_holder_trans b1 b2 b3 : same_holder b1 b2 -> same_holder b2 b3 -> same_holder b1 b3.
Proof. unfold same_holder. intros (? & ? & ? & ?) (? & ? & ? & ?). split_and!; congruence || done. Qed.

Lemma runs_by_client {A} (m : HolderClient.C A) s (Q : result persist_error A -> HolderRuntime * W -> Prop) :
  runs (by_client m) s Q <-> runs m (client s.1, s.2) (fun r cw =>
    Q r (mkRuntime cw.1 (replay_bytes s.1) (cache s.1) (connected s.1), cw.2)).
Proof. unfold by_client. rewrite runs_zoom. unfold runs. by destruct (m _) as [[r [c w]]|]. Qed.

Lemma by_client_same {A} (m : HolderClient.C A) s (Q : result persist_error A -> HolderRuntime * W -> Prop) :
  backend_ok s.1 -> HolderClient.stays m ->
  (forall r b' w', same_holder s.1 b' -> cache b' = cache s.1 -> connected b' = connected s.1 -> Q r (b', w')) ->
  runs (by_client m) s Q.
Proof.
  intros [Hq Hi] Hm HQ. rewrite runs_by_client. eapply runs_mono; [by apply Hm|]. cbn beta.
  intros r [c w] ((H1 & H2 & H3) & _). cbn [fst snd] in *. apply HQ; [|done..].
  unfold same_holder, backend_ok. cbn. split_and!; done || congruence.
Qed.

(** A refresh. *)
Definition refreshed (b : HolderRuntime) (r : result persist_error unit) (b' : HolderRuntime) : Prop :=
  same_holder b b' /\
  match r with
  | Ok _ => connected b' = true /\ generation (cache b') = HolderClient.generation (client b')
  | Err _ => connected b' = false /\ cache b' = cache b
  end.

Lemma refresh_spec s Q : backend_ok s.1 ->
  (forall r b' w', refreshed s.1 r b' -> Q r (b', w')) -> runs refresh_inventory s Q.
Proof.
  intros [Hq Hi] HQ. destruct s as [[c rb ca co] w]. cbn [fst snd client cache] in *. unfold refresh_inventory.
  assert (Hfound : forall c1 w1 snap, HolderClient.bound c c1 -> Reconcile.instance_id snap = HolderClient.instance_id c1 ->
    generation snap = HolderClient.generation c1 ->
    runs (_ ← set_cache (fun _ => snap); set_connected true) (mkRuntime c1 rb ca co, w1) Q).
  { intros c1 w1 snap (H1 & H2 & H3) Hs Hg. unfold set_cache, set_connected. run. apply HQ.
    split; [|done]. unfold same_holder, backend_ok. cbn. split_and!; done || congruence. }
  assert (Hlost : forall c1 w1 e, HolderClient.bound c c1 ->
    runs (_ ← set_connected false; fail e) (mkRuntime c1 rb ca co, w1) (fun r s' =>
      match r with Ok a => runs (_ ← set_cache (fun _ => a); set_connected true) s' Q | Err e => Q (Err e) s' end)).
  { intros c1 w1 e (H1 & H2 & H3). unfold set_connected. run. apply HQ. split; [|done].
    unfold same_holder, backend_ok. cbn. split_and!; done || congruence. }
  run. rewrite runs_by_client. cbn [fst snd client replay_bytes cache connected].
  apply HolderClient.inventory_snapshot_spec; [done|exact enough|done|]. intros r c1 w1 Hf1 Hr1. cbn [fst snd].
  pose proof (HolderClient.follows_bound _ _ Hf1) as Hb1.
  destruct r as [snap|e].
  { run. destruct (Hr1 snap eq_refl) as (H1 & H2 & _). by apply Hfound. }
  destruct e; try (apply Hlost; done).
  run. rewrite runs_by_client. cbn [fst snd client replay_bytes cache connected].
  apply HolderClient.reconnect_spec; [done|by eapply HolderClient.bound_ok|]. intros r c2 w2 Hb2. cbn [fst snd] in *.
  pose proof (HolderClient.bound_trans _ _ _ Hb1 Hb2) as Hb.
  destruct r as [[]|e]; [|by apply Hlost].
  run. rewrite runs_by_client. cbn [fst snd client replay_bytes cache connected].
  apply HolderClient.inventory_snapshot_spec; [done|exact enough|by eapply HolderClient.bound_ok|]. intros r c3 w3 Hf3 Hr3. cbn [fst snd] in *.
  pose proof (HolderClient.bound_trans _ _ _ Hb (HolderClient.follows_bound _ _ Hf3)) as Hb3.
  destruct r as [snap|e]; [|by apply Hlost].
  run. destruct (Hr3 snap eq_refl) as (H1 & H2 & _). by apply Hfound.
Qed.

Lemma refresh_same s Q : backend_ok s.1 -> (forall r b' w', same_holder s.1 b' -> Q r (b', w')) ->
  runs refresh_inventory s Q.
Proof. intros Hb HQ. apply refresh_spec; [done|]. intros r b' w' [Hs _]. by apply HQ. Qed.

Lemma then_refresh (m : HolderClient.C (W := W) unit) s Q : backend_ok s.1 -> HolderClient.stays m ->
  (forall r b' w', same_holder s.1 b' -> Q r (b', w')) -> runs (_ ← by_client m; refresh_inventory) s Q.
Proof.
  intros Hb Hm HQ. rewrite runs_bind. apply by_client_same; [done..|]. intros [[]|e] b1 w1 Hs _ _; [|by apply HQ].
  apply refresh_same; [apply Hs|]. intros r b2 w2 Hs2. apply HQ. by eapply same_holder_trans.
Qed.

Lemma returns_exchange fd f kind minor validate : returns (exchange fd f kind minor validate).
Proof.
  unfold exchange, read_frame. apply returns_bind; [apply returns_lift|]. intros bs.
  apply returns_bind; [apply HolderClient.returns_write_some|]. intros _. apply returns_bind.
  - apply returns_bind; [apply HolderClient.returns_read_some|]. intros header. cbv zeta. destruct (_ <? _); [apply returns_fail|].
    apply returns_bind; [apply HolderClient.returns_read_some|]. intros. apply returns_lift.
  - intros f'. destruct (_ || _); [apply returns_fail|apply returns_lift].
Qed.

Lemma returns_connect_data instance nonce minor id mode replay : returns (connect_data instance nonce minor id mode replay).
Proof.
  unfold connect_data. apply returns_bind; [apply HolderClient.returns_kernel|]. intros found.
  apply returns_bind; [apply returns_lift|]. intros fd. apply HolderClient.returns_dropping.
  repeat (apply returns_bind; [first [apply returns_lift|apply returns_exchange|apply HolderClient.returns_kernel]|intros ?]).
  apply returns_ret.
Qed.

Lemma exit_context_same id s : backend_ok s.1 -> runs (exit_context id) s (fun r s' =>
  same_holder s.1 s'.1 /\ cache s'.1 = cache s.1 /\ forall x, r = Ok x -> Reconcile.x_session_id x = id).
Proof.
  intros Hb. unfold exit_context. rewrite runs_by_client. destruct Hb as [Hq Hi].
  eapply runs_mono; [apply runs_and; [by apply HolderClient.stays_exit_context|by apply HolderClient.exit_context_id]|].
  cbn beta. intros r [c w] [((H1 & H2 & H3) & _) Hx]. cbn [fst snd] in *. split_and!; [|done|done].
  unfold same_holder, backend_ok in *. cbn. split_and!; done || congruence.
Qed.

Lemma close_same id s : backend_ok s.1 -> runs (close id) s (fun r s' =>
  same_holder s.1 s'.1 /\ cache s'.1 = cache s.1 /\ forall x, r = Ok x -> Reconcile.x_session_id x = id).
Proof.
  intros Hb. unfold close. rewrite runs_bind. apply by_client_same; [done|apply HolderClient.stays_operation|].
  intros [[]|e] b1 w1 Hs Hc _; [|done]. rewrite runs_by_client.
  pose proof Hs as ([Hq Hi] & Hr & Hin & Hp). cbn [fst snd].
  apply HolderClient.wait_for_session_exit_spec; [exact Hq|]. intros r c' w' [(H1 & H2 & H3) _] Hx. cbn [fst snd] in *.
  split_and!; [|done|done]. unfold same_holder, backend_ok in *. cbn. split_and!; done || congruence.
Qed.

Lemma attach_same id mode s : backend_ok s.1 -> runs (attach id mode) s (fun _ s' => same_holder s.1 s'.1).
Proof.
  intros Hb. unfold attach, me, outside. rewrite !runs_bind, runs_get, runs_ret. rewrite runs_bind, runs_zoom.
  pose proof (returns_connect_data (HolderClient.instance_id (client s.1)) (HolderClient.nonce (client s.1))
    (HolderClient.protocol_minor (client s.1)) id mode (replay_bytes s.1) s.2) as Hr. unfold runs in Hr.
  destruct (connect_data _ _ _ _ _ _ s.2) as [[[d|e] w1]|]; [|by apply same_holder_refl|done].
  rewrite runs_bind, runs_attempt. apply refresh_same; [done|]. intros [[]|e] b' w' Hs; run; done.
Qed.

(** Whatever the kernel and the holder answer (old, wrong, late or no
    frames, at any byte), each operation of the daemon on the holder returns,
    and keeps the daemon bound to the holder instance it started with: the
    client, the cached inventory and the queue of at most 1024 events stay of
    that instance.  The cache changes only to the complete inventory of one
    generation, and a failed refresh leaves it and says so; an exit context is
    that of the session it was asked for. *)
Theorem operations_pin_holder s : backend_ok s.1 ->
  runs refresh_inventory s (fun r s' => refreshed s.1 r s'.1) /\
  (forall r, runs (create r) s (fun _ s' => same_holder s.1 s'.1)) /\
  (forall id, runs (retire_exited id) s (fun _ s' => same_holder s.1 s'.1)) /\
  (forall id, runs (kill id) s (fun _ s' => same_holder s.1 s'.1 /\ cache s'.1 = cache s.1)) /\
  (forall id, runs (exit_context id) s (fun r s' => same_holder s.1 s'.1 /\ cache s'.1 = cache s.1 /\
     forall x, r = Ok x -> Reconcile.x_session_id x = id)) /\
  (forall id, runs (close id) s (fun r s' => same_holder s.1 s'.1 /\ cache s'.1 = cache s.1 /\
     forall x, r = Ok x -> Reconcile.x_session_id x = id)) /\
  (forall id mode, runs (attach id mode) s (fun _ s' => same_holder s.1 s'.1)).
Proof.
  intros Hb. split_and!.
  - apply refresh_spec; [done|]. by intros.
  - intros r. apply then_refresh; [done|apply HolderClient.stays_create|by intros].
  - intros id. apply then_refresh; [done|apply HolderClient.stays_operation|by intros].
  - intros id. apply by_client_same; [done|apply HolderClient.stays_operation|by intros].
  - intros id. by apply exit_context_same.
  - intros id. by apply close_same.
  - intros id mode. by apply attach_same.
Qed.
End backend.

(** ** A scripted stream *)

(** The bytes that arrive before each timeout; every write is taken and no new
    connection is made. *)
Definition Tape : Type := list bytes.

Definition tape_read (n : N) (t : Tape) : option bytes * Tape :=
  match t with
  | [] => (None, [])
  | chunk :: t' => if n <=? lenN chunk then (Some (takeN n chunk), dropN n chunk :: t') else (None, t')
  end.

#[export] Instance tape_sockets : Sockets Tape := {|
  dial t := (None, t);
  configure _ t := (true, t);
  write_all _ _ t := (true, t);
  read_exact _ n t := tape_read n t;
  hang_up _ t := t;
  urandom t := (None, t);
  has_exited _ := Ok false;
  wait_exit t := (Ok tt, t);
  reap t := (Ok tt, t);
|}.

#[export] Instance tape_laws : SocketsLaws Tape.
Proof.
  intros fd n [|c t] bs t'; cbn; [done|]. destruct (N.leb_spec n (lenN c)); [|done]. intros [= <- <-].
  rewrite lenN_takeN. lia.
Qed.

Lemma tape_delivers fd t : HolderClient.delivers fd (fun w bs => w = bs :: t).
Proof.
  intros w b1 b2 ->. exists (b2 :: t). cbn. rewrite lenN_app.
  destruct (N.leb_spec (lenN b1) (lenN b1 + lenN b2)); [|lia]. by rewrite takeN_app, dropN_app.
Qed.

Section late.
Context `{SnapshotJson} (uid pid : N) (fuel : nat).

(** The state of the client after a request that was not answered in time. *)
Definition asked (n : N) (c : HolderClient.HolderControlClient) : HolderClient.HolderControlClient :=
  HolderClient.set_next_request_id n c.

Lemma encode_request kind id g bs m : m = 1 \/ m = 2 -> lenN bs <= 8 ->
  exists enc, HolderFrame.encode_frame_with_minor (mkFrame kind 0 id g bs) m = Ok enc.
Proof.
  intros Hm Hl. eexists. apply HolderFrame.encode_frame_iff. split_and!; [done|done| |done].
  cbn. etransitivity; [exact Hl|]. by destruct kind.
Qed.

(** A request that finds the answer of an earlier one. *)
Lemma request_mismatch t kind bs c f enc rest tape : lenN bs <= 8 ->
  let m := HolderClient.protocol_minor c in let n := HolderClient.next_request_id c in
  HolderFrame.encode_frame_with_minor f m = Ok enc -> HolderFrame.frame_ok f ->
  0 < request_id f -> request_id f < n -> n < u32_max ->
  runs (HolderClient.request t kind bs) (c, (enc ++ rest) :: tape) (fun r s =>
    r = invalid_argument "holder response does not match request" /\ s = (asked (n + 1) c, rest :: tape)).
Proof.
  intros Hl m n He Hf H0 H1 H2. subst m n. pose proof He as (Hm & _)%HolderFrame.encode_frame_iff.
  unfold HolderClient.request, HolderClient.request_with_minor, HolderClient.fetch_request_id, HolderClient.me, HolderClient.change.
  run. cbn [fst snd]. destruct (N.eqb_spec (HolderClient.next_request_id c) 0); [lia|]. run. cbn [fst snd].
  rewrite HolderClient.runs_outside_eq. cbn [fst snd]. unfold HolderClient.write_frame_with_minor.
  destruct (encode_request t (HolderClient.next_request_id c) (HolderClient.generation c) bs
    (HolderClient.protocol_minor c) Hm Hl) as [req Hreq]. run. cbn [HolderClient.generation HolderClient.set_next_request_id].
  rewrite Hreq. cbn [HolderClient.protocol_error]. unfold HolderClient.write_some, HolderClient.kernel. run.
  cbn [fst snd]. unfold runs at 1. cbn. unfold HolderClient.event_fuel. cbn [HolderClient.await_response].
  unfold HolderClient.me. run. cbn [fst snd]. rewrite HolderClient.runs_outside_eq. cbn [fst snd].
  eapply runs_mono; [apply (HolderClient.read_frame_encoded _ _ _ _ _ _ _ (tape_delivers _ tape) He Hf eq_refl)|].
  cbn beta. intros r w [-> ->]. destruct (N.eqb_spec (request_id f) (HolderClient.next_request_id c)); [lia|].
  cbn [andb]. destruct (N.eqb_spec (request_id f) 0); [lia|]. cbn [negb orb]. run. split; [done|].
  unfold asked. f_equal. f_equal. unfold as_u32. apply N.mod_small. unfold u32_max in *. lia.
Qed.

(** A request that is not answered before the timeout. *)
Lemma request_timeout t kind bs c tape : lenN bs <= 8 ->
  let m := HolderClient.protocol_minor c in let n := HolderClient.next_request_id c in
  m = 1 \/ m = 2 -> 0 < n -> n < u32_max ->
  runs (HolderClient.request t kind bs) (c, [] :: tape) (fun r s =>
    r = Err (IoError "read holder control header") /\ s = (asked (n + 1) c, tape)).
Proof.
  intros Hl m n Hm H0 H2. subst m n.
  unfold HolderClient.request, HolderClient.request_with_minor, HolderClient.fetch_request_id, HolderClient.me, HolderClient.change.
  run. cbn [fst snd]. destruct (N.eqb_spec (HolderClient.next_request_id c) 0); [lia|]. run. cbn [fst snd].
  rewrite HolderClient.runs_outside_eq. cbn [fst snd]. unfold HolderClient.write_frame_with_minor.
  destruct (encode_request t (HolderClient.next_request_id c) (HolderClient.generation c) bs
    (HolderClient.protocol_minor c) Hm Hl) as [req Hreq]. run. cbn [HolderClient.generation HolderClient.set_next_request_id].
  rewrite Hreq. cbn [HolderClient.protocol_error]. unfold HolderClient.write_some, HolderClient.kernel. run.
  cbn [fst snd]. unfold runs at 1. cbn. unfold HolderClient.event_fuel. cbn [HolderClient.await_response].
  unfold HolderClient.me. run. cbn [fst snd]. rewrite HolderClient.runs_outside_eq. cbn [fst snd].
  unfold HolderClient.read_frame_with_minor, HolderClient.read_some, HolderClient.kernel. run. unfold runs at 1. cbn.
  run. split; [done|]. unfold asked. f_equal. f_equal. unfold as_u32. apply N.mod_small. unfold u32_max in *. lia.
Qed.

Definition mismatch {A} : result persist_error A := invalid_argument "holder response does not match request".

Lemma refresh_mismatch b f enc rest tape : (0 < fuel)%nat ->
  let c := client b in let n := HolderClient.next_request_id c in
  HolderFrame.encode_frame_with_minor f (HolderClient.protocol_minor c) = Ok enc -> HolderFrame.frame_ok f ->
  0 < request_id f -> request_id f < n -> n < u32_max ->
  runs (refresh_inventory uid pid fuel) (b, (enc ++ rest) :: tape) (fun r s =>
    r = mismatch /\ s = (mkRuntime (asked (n + 1) c) (replay_bytes b) (cache b) false, rest :: tape)).
Proof.
  intros Hfuel c n He Hf H0 H1 H2. subst c n. unfold refresh_inventory. run. rewrite runs_by_client. cbn [fst snd].
  unfold HolderClient.inventory_snapshot, HolderClient.MAX_INVENTORY_RETRIES. cbn [HolderClient.inventory_attempts].
  unfold HolderClient.inventory_snapshot_once. destruct fuel as [|fuel']; [lia|]. cbn [HolderClient.pages]. run.
  eapply runs_mono; [apply (request_mismatch _ _ _ (client b) f enc rest tape); try done|].
  cbn beta. intros r s [-> ->]. cbn [fst snd]. unfold set_connected. run. done.
Qed.

Fixpoint refreshes (n : nat) : B (W := Tape) (list (result persist_error unit)) :=
  match n with
  | O => mret []
  | S n' => out ← attempt (refresh_inventory uid pid fuel); rest ← refreshes n'; mret (out :: rest)
  end.

Lemma refreshes_mismatch frames encs b tape : (0 < fuel)%nat -> frames <> [] ->
  let c := client b in let n := HolderClient.next_request_id c in
  0 < n - 1 -> n + lenN frames < u32_max ->
  Forall2 (fun f enc => HolderFrame.encode_frame_with_minor f (HolderClient.protocol_minor c) = Ok enc /\
    HolderFrame.frame_ok f) frames encs ->
  (forall i f, frames !! i = Some f -> request_id f = n - 1 + N.of_nat i) ->
  runs (refreshes (length frames)) (b, concat encs :: tape) (fun r s => exists outs,
    r = Ok outs /\ outs = replicate (length frames) mismatch /\ cache s.1 = cache b /\ connected s.1 = false).
Proof.
  intros Hfuel. revert encs b; induction frames as [|f frames IH]; intros encs b Hne c n H0 Hn Hall Hid; [done|].
  subst c n. inversion Hall as [|? enc ? encs' [He Hf] Hall']; subst. cbn [length refreshes concat]. run.
  rewrite lenN_cons in Hn. pose proof (Hid 0%nat f eq_refl) as Hf0.
  eapply runs_mono; [apply (refresh_mismatch b f enc (concat encs') tape); [done|exact He|exact Hf|lia..]|]. cbn beta. intros r s [-> ->]. run.
  destruct frames as [|f2 frames].
  { cbn [length refreshes]. run. by eexists. }
  eapply runs_mono; [apply IH; [done|..]|].
  - cbn. lia.
  - cbn. lia.
  - cbn. exact Hall'.
  - intros i g Hg. cbn [client asked HolderClient.set_next_request_id HolderClient.next_request_id].
    rewrite (Hid (S i) g Hg). lia.
  - cbn beta. intros r s (outs & -> & -> & Hc & Hd). run. eexists. split; [done|]. done.
Qed.

(** One answer that comes after the timeout makes the daemon deaf for good:
    a request of the daemon times out, the holder answers it and every later
    request in time and in order, and yet each refresh of the inventory fails,
    because it reads the answer to the request before it and takes that for an
    error which is not of kind [Io], so it does not connect again. *)
Theorem late_answer_desyncs b id frames encs : (0 < fuel)%nat -> frames <> [] ->
  let c := client b in let n := HolderClient.next_request_id c in
  0 < n -> n + lenN frames + 1 < u32_max ->
  Forall2 (fun f enc => HolderFrame.encode_frame_with_minor f (HolderClient.protocol_minor c) = Ok enc /\
    HolderFrame.frame_ok f) frames encs ->
  (forall i f, frames !! i = Some f -> request_id f = n + N.of_nat i) ->
  runs (out ← attempt (kill id); outs ← refreshes (length frames); mret (out, outs)) (b, [[]; concat encs])
    (fun r s => r = Ok (Err (IoError "read holder control header"), replicate (length frames) mismatch) /\
       cache s.1 = cache b /\ connected s.1 = false).
Proof.
  intros Hfuel Hne c n H0 Hn Hall Hid. subst c n. run. unfold kill, HolderClient.kill, HolderClient.operation.
  rewrite runs_by_client. cbn [fst snd]. run.
  assert (Hm : HolderClient.protocol_minor (client b) = 1 \/ HolderClient.protocol_minor (client b) = 2).
  { destruct Hall as [|f enc ? ? [He _]]; [done|]. by apply HolderFrame.encode_frame_iff in He as [? _]. }
  eapply runs_mono; [apply request_timeout; [|done|done|lia]|].
  { unfold Operation.encode_operation_request. by destruct (id =? 0). }
  cbn beta. intros r s [-> ->]. run. cbn [fst snd].
  eapply runs_mono; [apply (refreshes_mismatch frames encs); [done|done|..]|].
  - cbn. lia.
  - cbn. lia.
  - cbn. exact Hall.
  - intros i f Hf. cbn [client asked HolderClient.set_next_request_id HolderClient.next_request_id].
    rewrite (Hid i f Hf). lia.
  - cbn beta. intros r s (outs & -> & -> & Hc & Hd). run. done.
Qed.
End late.

(** ** Witnesses *)

#[local] Existing Instance Environment.bits_json.

Definition sample_client : HolderClient.HolderControlClient :=
  HolderClient.mkClient 4 (Reconcile.instance_id Reconcile.sample_holder) 900 (replicate 16 Byte.x01) 5 9 2 1 [].
Definition sample_backend : HolderRuntime := mkRuntime sample_client 4096 Reconcile.sample_holder true.

(** The holder's answers to [Kill] and to two requests for the inventory. *)
Definition sample_answers : list HolderFrame :=
  [ mkFrame HolderFrame.KillResp 0 5 9
      match Operation.encode_operation_response (Operation.mkResponse 1 Operation.StatusOk []) with Ok bs => bs | Err _ => [] end;
    mkFrame HolderFrame.InventoryResp 0 6 9
      match Inventory.encode_inventory_response (Inventory.mkResponse (entries Reconcile.sample_holder) None) with
      | Ok bs => bs | Err _ => [] end;
    mkFrame HolderFrame.InventoryResp 0 7 9
      match Inventory.encode_inventory_response (Inventory.mkResponse (entries Reconcile.sample_holder) None) with
      | Ok bs => bs | Err _ => [] end ].
Definition sample_encoded : list bytes :=
  map (fun f => match HolderFrame.encode_frame_with_minor f 2 with Ok bs => bs | Err _ => [] end) sample_answers.

Lemma sample_backend_ok : backend_ok sample_backend.
Proof. split; [|done]. split; [done|constructor]. Qed.

Lemma operations_pin_holder_witness :
  runs (refresh_inventory 1000 77 (S (N.to_nat u32_max))) (sample_backend, [concat sample_encoded])
    (fun r s => refreshed sample_backend r s.1).
Proof.
  destruct (operations_pin_holder 1000 77 (S (N.to_nat u32_max)) (Nat.lt_succ_diag_r _)
    (sample_backend, [concat sample_encoded]) sample_backend_ok) as [Hr _]. exact Hr.
Defined.

Lemma late_answer_desyncs_witness :
  runs (out ← attempt (kill 1); outs ← refreshes 1000 77 1 3; mret (out, outs)) (sample_backend, [[]; concat sample_encoded])
    (fun r s => r = Ok (Err (IoError "read holder control header"), replicate 3 mismatch) /\
       cache s.1 = cache sample_backend /\ connected s.1 = false).
Proof.
  apply (late_answer_desyncs 1000 77 1 sample_backend 1 sample_answers sample_encoded).
  - lia.
  - done.
  - reflexivity.
  - reflexivity.
  - repeat constructor; vm_compute; reflexivity.
  - intros [|[|[|i]]] f; cbn; intros [= <-]; reflexivity.
Defined.
End HolderBackend.
