(* ===== verification/HolderLink.v ===== *)
(** * HolderLink: the daemon's client and the holder, connected.

    The world of [HolderClient] is here the holder of [HolderServer] itself: a
    write of the daemon is a read of the holder's connection, each frame of it
    goes through [process_frame], and what the holder queues for that
    connection is what the daemon reads next.  The kernel delivers at once;
    what the holder's own system calls answer is [os]. *)
From S2P Require Import Prelude OrderedMap Bytes HolderWire HolderFrame HolderMessages HolderOperation Environment ShellState Effects ByteQueue HolderReactor HolderConnection HolderRuntime HolderServer.
From S2P Require Import HolderSafety HolderService Reconcile HolderClient HolderBackend.
From Stdlib Require Import Lia.
Import String.StringSyntax.
Import HolderFrame(HolderFrame, mkFrame, frame_ok, message_type, flags, request_id, payload).
Import Environment(SnapshotJson, SnapshotJsonLaws).
Import ShellState(EnvelopeJson, EnvelopeJsonLaws).
Import HolderServer(Server, Os, connections, runtime, reactor, writers, controller).
Import HolderClient(HolderControlClient).
Import HolderBackend(encode_request).
Local Open Scope N_scope.

Module HolderLink.

Record Link : Type := mkLink {
  server : Server;
  inbox : gmap N bytes;
  randoms : list bytes;
}.

Definition set_server (f : Server -> Server) (l : Link) : Link := mkLink (f (server l)) (inbox l) (randoms l).
Definition waiting (fd : N) (l : Link) : bytes := default [] (inbox l !! fd).

Section link.
Context `{SnapshotJson} `{EnvelopeJson}.
Context (os : Os) (uid pid : N).

(** The frames of one read, in order; an error closes the connection. *)
Fixpoint process (fd : N) (frames : list (N * HolderFrame)) (s : Server) : Server :=
  match frames with
  | [] => s
  | (minor, f) :: frames' =>
      match HolderServer.process_frame os fd minor f s with
      | Some (Ok _, s') => process fd frames' s'
      | Some (Err _, s') => HolderServer.disconnect os fd s'
      | None => HolderServer.disconnect os fd s
      end
  end.

(** What is queued for the daemon reaches it. *)
Definition collect (fd : N) (l : Link) : Link :=
  match connections (server l) !! fd with
  | Some c => mkLink (HolderServer.update fd (fun c => Connection.set_output c ByteQueue.empty) (server l))
      (<[fd := waiting fd l ++ ByteQueue.pending (Connection.output c)]> (inbox l)) (randoms l)
  | None => l
  end.

Definition deliver (fd : N) (bs : bytes) (l : Link) : bool * Link :=
  match connections (server l) !! fd with
  | None => (false, l)
  | Some c =>
      match HolderFrame.receive_chunks (Connection.accumulator c) [bs] with
      | Err _ => (true, set_server (HolderServer.disconnect os fd) l)
      | Ok (frames, acc) => (true, collect fd (set_server (fun s =>
          process fd frames (HolderServer.update fd (fun c => Connection.set_accumulator c acc) s)) l))
      end
  end.

Definition take_inbox (fd n : N) (l : Link) : option bytes * Link :=
  if n <=? lenN (waiting fd l)
  then (Some (takeN n (waiting fd l)), mkLink (server l) (<[fd := dropN n (waiting fd l)]> (inbox l)) (randoms l))
  else (None, mkLink (server l) (delete fd (inbox l)) (randoms l)).

(** The holder accepts a connection of the daemon. *)
Definition open_connection (l : Link) : option N * Link :=
  let fd := fresh (dom (connections (server l)) : gset N) in
  match HolderServer.accept_connection os (fd, pid, uid) (server l) with
  | Some (Ok _, s') => (Some fd, mkLink s' (delete fd (inbox l)) (randoms l))
  | _ => (None, l)
  end.

#[local] Instance link_sockets : Sockets Link := {|
  dial := open_connection;
  configure _ l := (true, l);
  write_all := deliver;
  read_exact := take_inbox;
  hang_up fd l := mkLink (HolderServer.disconnect os fd (server l)) (delete fd (inbox l)) (randoms l);
  urandom l := (head (randoms l), mkLink (server l) (inbox l) (tail (randoms l)));
  has_exited _ := Ok false;
  wait_exit l := (Ok tt, l);
  reap l := (Ok tt, l);
|}.

#[local] Instance link_laws : SocketsLaws Link.
Proof.
  intros fd n l bs l'. cbn. unfold take_inbox. destruct (N.leb_spec n (lenN (waiting fd l))); [|done].
  intros [= <- <-]. rewrite lenN_takeN. lia.
Qed.

(** The inbox of [fd] holds [bs] and the rest of the world is [l]. *)
Definition holds (fd : N) (s : Server) (w : Link) (bs : bytes) : Prop :=
  server w = s /\ waiting fd w = bs.

Lemma link_delivers fd s : HolderClient.delivers fd (holds fd s).
Proof.
  intros w b1 b2 [Hs Hb]. cbn. unfold take_inbox. rewrite Hb, lenN_app.
  destruct (N.leb_spec (lenN b1) (lenN b1 + lenN b2)); [|lia]. rewrite takeN_app, dropN_app by done.
  eexists. split; [done|]. split; [done|]. unfold waiting. cbn. by rewrite lookup_insert_eq.
Qed.

(** ** A request that is answered *)

Lemma receive_one f m enc : frame_ok f -> HolderFrame.encode_frame_with_minor f m = Ok enc ->
  HolderFrame.receive_chunks HolderFrame.new [enc] = Ok ([(m, f)], HolderFrame.new).
Proof.
  intros Hf He. pose proof (HolderFrame.encode_frame_size _ _ _ He) as [Hl Hb].
  cbn [HolderFrame.receive_chunks]. unfold HolderFrame.receive, HolderFrame.feed, HolderFrame.new.
  cbn [HolderFrame.buffer app]. unfold checked_add_usize. rewrite lenN_nil, N.add_0_l.
  unfold HolderFrame.MAX_HOLDER_ACCUMULATOR, HolderFrame.MAX_HOLDER_CONTROL_FRAME, HolderFrame.HOLDER_HEADER_SIZE,
    usize_max, u64_max in *.
  destruct (N.leb_spec (lenN enc) 18446744073709551615); [|lia]. cbn [ok_or]. rewrite ok_bind.
  destruct (N.ltb_spec (1024 * 1024 + 32) (lenN enc)); [lia|]. rewrite ok_bind. cbn [HolderFrame.buffer].
  destruct (length enc) as [|n] eqn:Hn; [unfold lenN in Hl; rewrite Hn in Hl; lia|].
  cbn [HolderFrame.read_all]. rewrite <- (app_nil_r enc).
  rewrite (HolderFrame.try_read_frame f m enc []) by done. rewrite ok_bind. cbn. done.
Qed.

Lemma update_same fd (f : Connection.t -> Connection.t) s c : connections s !! fd = Some c -> f c = c ->
  HolderServer.update fd f s = s.
Proof.
  intros Hc Hf. unfold HolderServer.update, HolderServer.set_connections. destruct s. cbn in *. f_equal.
  apply map_eq. intros j. rewrite lookup_alter. case_decide; [subst|done]. rewrite Hc. cbn. by rewrite Hf.
Qed.

(** The holder's end of a connection that waits for a request. *)
Record idle (fd minor : N) (s : Server) (c : Connection.t) : Prop := {
  idle_conn : connections s !! fd = Some c;
  idle_minor : Connection.protocol_minor c = minor;
  idle_acc : Connection.accumulator c = HolderFrame.new;
  idle_output : Connection.output c = ByteQueue.empty;
  idle_reactor : Reactor.modify (HolderServer.epoll_ctl os fd) fd true (reactor s) = Ok tt;
}.

Lemma queue_idle fd m s c g enc : idle fd m s c -> HolderFrame.encode_frame_with_minor g m = Ok enc ->
  lenN enc <= Connection.MAX_PENDING_OUTPUT ->
  HolderServer.queue_frame os fd g s = Some (Ok tt,
    HolderServer.set_connections <[fd := Connection.set_output c (ByteQueue.mk [enc] 0 (lenN enc))]> s).
Proof.
  intros [Hc Hm Ha Ho Hr] He Hl.
  assert (Hq : Connection.queue c g = Ok (Connection.set_output c (ByteQueue.mk [enc] 0 (lenN enc)))).
  { unfold Connection.queue. rewrite Hm, He. cbn [protocol]. rewrite Ho. cbn.
    unfold ByteQueue.push, checked_add_usize, usize_max, u64_max. cbn [ByteQueue.total ByteQueue.empty].
    rewrite N.add_0_l. unfold Connection.MAX_PENDING_OUTPUT in *.
    destruct (N.leb_spec (lenN enc) 18446744073709551615); [|lia].
    destruct (N.ltb_spec (1024 * 1024) (lenN enc)); [lia|]. done. }
  unfold HolderServer.queue_frame, mbind, M_bind, get, lift. rewrite Hc. cbn [ok_or]. rewrite Hq. cbn.
  unfold HolderServer.reactor_modify, mbind, M_bind, get, lift. cbn. by rewrite Hr.
Qed.

(** What one frame makes the holder queue is what arrives. *)
Lemma deliver_result fd m s c f req s2 c2 w : idle fd m s c ->
  frame_ok f -> HolderFrame.encode_frame_with_minor f m = Ok req ->
  HolderServer.process_frame os fd m f s = Some (Ok tt, s2) -> connections s2 !! fd = Some c2 ->
  holds fd s w [] -> exists w', write_all fd req w = (true, w') /\
    holds fd (HolderServer.update fd (fun c => Connection.set_output c ByteQueue.empty) s2) w'
      (ByteQueue.pending (Connection.output c2)).
Proof.
  intros Hi Hf Hreq Hp Hc2 [Hs Hb]. pose proof Hi as [Hc Hm Ha Ho Hr].
  cbn [write_all link_sockets]. unfold deliver. rewrite Hs, Hc, Ha, (receive_one f m req) by done.
  eexists. split; [done|].
  assert (Hup : HolderServer.update fd (fun c => Connection.set_accumulator c HolderFrame.new) s = s).
  { apply (update_same _ _ _ c Hc). destruct c; cbn in *. by subst. }
  unfold set_server. cbn [process server inbox randoms]. rewrite Hs, Hup, Hp.
  unfold collect. cbn [server inbox randoms process]. rewrite Hc2. split; [done|].
  unfold waiting in *. cbn. rewrite lookup_insert_eq. cbn. by rewrite Hb.
Qed.

(** A request is answered at once, and the holder is as before. *)
Lemma deliver_answer fd m s c f req g enc w : idle fd m s c ->
  frame_ok f -> HolderFrame.encode_frame_with_minor f m = Ok req ->
  HolderServer.process_frame os fd m f s = HolderServer.queue_frame os fd g s ->
  HolderFrame.encode_frame_with_minor g m = Ok enc -> lenN enc <= Connection.MAX_PENDING_OUTPUT ->
  holds fd s w [] -> exists w', write_all fd req w = (true, w') /\ holds fd s w' enc.
Proof.
  intros Hi Hf Hreq Hp He Hl Hw. pose proof Hi as [Hc Hm Ha Ho Hr]. rewrite (queue_idle fd m s c g enc) in Hp by done.
  destruct (deliver_result _ _ _ _ _ _ _ (Connection.set_output c (ByteQueue.mk [enc] 0 (lenN enc))) w Hi Hf Hreq Hp)
    as (w' & Hwr & Hh); [cbn; by rewrite lookup_insert_eq|done|]. exists w'. split; [done|].
  destruct Hh as [Hs Hb]. split.
  - rewrite Hs. unfold HolderServer.update, HolderServer.set_connections. destruct s; cbn in *. f_equal.
    apply map_eq. intros k. rewrite lookup_alter. case_decide as E; [subst|by rewrite lookup_insert_ne].
    rewrite lookup_insert_eq, Hc. cbn. f_equal. destruct c; cbn in *. by subst.
  - rewrite Hb. unfold ByteQueue.pending. cbn. by rewrite dropN_0, app_nil_r.
Qed.

(** A request whose answer is in the stream. *)
Lemma request_answered t kind bs k w s c f g req enc :
  let id := HolderClient.next_request_id k in let fd := HolderClient.stream k in
  let m := HolderClient.protocol_minor k in
  f = mkFrame t 0 id (HolderClient.generation k) bs -> frame_ok f -> frame_ok g ->
  HolderFrame.encode_frame_with_minor f m = Ok req ->
  request_id g = id -> message_type g = kind -> id <> 0 ->
  HolderClient.generation k <= HolderFrame.generation g ->
  idle fd m s c -> HolderServer.process_frame os fd m f s = HolderServer.queue_frame os fd g s ->
  HolderFrame.encode_frame_with_minor g m = Ok enc -> lenN enc <= Connection.MAX_PENDING_OUTPUT ->
  holds fd s w [] ->
  runs (HolderClient.request t kind bs) (k, w) (fun r st => r = Ok g /\ holds fd s st.2 [] /\
    st.1 = HolderClient.set_generation (HolderFrame.generation g)
             (HolderClient.set_next_request_id (as_u32 (id + 1)) k)).
Proof.
  intros id fd m -> Hf Hg Hreq Hid Hk Hnz Hgen Hi Hp He Hl Hw. subst id fd m.
  destruct (deliver_answer _ _ _ _ _ _ _ _ _ Hi Hf Hreq Hp He Hl Hw) as (w1 & Hwr & Hw1).
  unfold HolderClient.request, HolderClient.request_with_minor, HolderClient.fetch_request_id, HolderClient.me, HolderClient.change.
  run. cbn [fst snd]. destruct (N.eqb_spec (HolderClient.next_request_id k) 0); [lia|]. run. cbn [fst snd].
  rewrite HolderClient.runs_outside_eq. cbn [fst snd]. unfold HolderClient.write_frame_with_minor. run.
  cbn [HolderClient.generation HolderClient.set_next_request_id HolderClient.stream]. rewrite Hreq.
  cbn [HolderClient.protocol_error]. unfold HolderClient.write_some, HolderClient.kernel. run. cbn [fst snd].
  unfold runs at 1. rewrite Hwr. run. cbn [fst snd]. unfold HolderClient.event_fuel. cbn [HolderClient.await_response].
  unfold HolderClient.me. run. cbn [fst snd]. rewrite HolderClient.runs_outside_eq. cbn [fst snd].
  eapply runs_mono; [apply (HolderClient.read_frame_encoded _ _ _ _ [] _ _ (link_delivers _ s) He Hg)|].
  { by rewrite app_nil_r. }
  cbn beta. intros r w2 [-> Hw2]. rewrite Hid, N.eqb_refl, bool_decide_true by done. cbn [andb].
  unfold HolderClient.observe_generation, HolderClient.me, HolderClient.change. run. cbn [fst snd].
  cbn [HolderClient.generation HolderClient.set_next_request_id].
  destruct (N.ltb_spec (HolderFrame.generation g) (HolderClient.generation k)); [lia|]. by run.
Qed.

(** ** The inventory *)

(** [writers.contains_key] *)
Definition written (s : Server) (id : N) : bool := match writers s !! id with Some _ => true | None => false end.

Definition page (s : Server) (cursor : N) : Inventory.InventoryResponse :=
  HolderRuntime.mark_writers (written s)
    (HolderRuntime.inventory (runtime s) (Inventory.mkRequest cursor Inventory.MAX_INVENTORY_ENTRIES)).

Definition inventory_frame (id gen cursor : N) : HolderFrame := mkFrame HolderFrame.Inventory 0 id gen
  (Inventory.encode_inventory_request (Inventory.mkRequest cursor Inventory.MAX_INVENTORY_ENTRIES)).

Lemma process_inventory fd m s c cursor id gen p : idle fd m s c -> Connection.role c = Connection.Control ->
  cursor < Inventory.NO_CURSOR -> Inventory.encode_inventory_response (page s cursor) = Ok p ->
  HolderServer.process_frame os fd m (inventory_frame id gen cursor) s =
  HolderServer.queue_frame os fd
    (HolderServer.frame_for HolderFrame.InventoryResp id (HolderRuntime.generation (runtime s)) p) s.
Proof.
  intros [Hc Hm _ _ _] Hrole Hcur Hp.
  assert (Hd : Inventory.decode_inventory_request (Inventory.encode_inventory_request
    (Inventory.mkRequest cursor Inventory.MAX_INVENTORY_ENTRIES)) =
    Ok (Inventory.mkRequest cursor Inventory.MAX_INVENTORY_ENTRIES)).
  { apply (strict_iff (StrictCodec := Inventory.inventory_request_strict)); [|by split].
    unfold Inventory.encode_inventory_request. cbn [Inventory.cursor Inventory.limit].
    destruct (_ || _ || _); [done|]. unfold fits. rewrite lenN_app, lenN_u32_be, lenN_u16_be. done. }
  unfold HolderServer.process_frame, mbind, M_bind, get, unwrap. rewrite Hc, Hrole.
  unfold HolderServer.handle_control. cbn [message_type inventory_frame]. unfold mbind, M_bind, get, unwrap.
  rewrite Hc, Hm, N.eqb_refl. cbn [negb]. unfold HolderServer.handle_inventory, mbind, M_bind, lift. cbn [payload inventory_frame].
  rewrite Hd. cbn [protocol]. unfold get. unfold page, written in Hp. rewrite Hp. cbn [protocol].
  unfold HolderServer.respond, mbind, M_bind, get. cbn [request_id inventory_frame]. done.
Qed.

(** The sessions are well formed, and no clock went backwards. *)
Definition listable (s : Server) : Prop :=
  HolderRuntime.wf (runtime s) /\
  map_Forall (fun _ x => HolderRuntime.created_at_ms x <= HolderRuntime.last_active_at_ms x)
    (HolderRuntime.sessions (runtime s)).

Lemma page_codec s cursor : listable s -> exists p,
  Inventory.encode_inventory_response (page s cursor) = Ok p /\ lenN p <= 9478 /\
  Inventory.decode_inventory_response p = Ok (page s cursor).
Proof.
  intros [Hwf Ht].
  assert (Hok : Inventory.inventory_response_ok (page s cursor)).
  { apply HolderRuntime.page_response_ok; [done..|]. by split. }
  destruct (proj1 (proj2 Inventory.inventory_codecs) _ Hok) as (p & He & Hl & Hd). exists p.
  split_and!; [done| |done]. rewrite Hl. destruct Hok as [Hn _]. unfold Inventory.ENTRY_SIZE, Inventory.MAX_INVENTORY_ENTRIES in *. lia.
Qed.

Lemma page_next s cursor next : Inventory.next_cursor (page s cursor) = Some next -> cursor < next.
Proof.
  unfold page, HolderRuntime.mark_writers, HolderRuntime.inventory. cbn [Inventory.next_cursor Inventory.cursor Inventory.limit].
  set (l := filter _ _). destruct (dropN _ l) as [|y ys]; [done|]. rewrite fmap_last.
  destruct (last (takeN Inventory.MAX_INVENTORY_ENTRIES l)) as [x|] eqn:Hx; [|done]. cbn. intros [= <-].
  apply last_Some in Hx as [q Hq]. assert (Hin : x ∈ l).
  { rewrite <- (takeN_dropN Inventory.MAX_INVENTORY_ENTRIES l), Hq. set_solver. }
  subst l. by apply list_elem_of_filter in Hin as [Hgt _].
Qed.

Lemma page_nonempty s cursor next : Inventory.next_cursor (page s cursor) = Some next ->
  0 < lenN (Inventory.entries (page s cursor)).
Proof.
  unfold page, HolderRuntime.mark_writers, HolderRuntime.inventory. cbn [Inventory.next_cursor Inventory.entries Inventory.cursor Inventory.limit].
  destruct (dropN _ _) as [|y ys]; [done|]. rewrite fmap_last, lenN_map.
  destruct (takeN _ _) as [|x l]; [done|]. intros _. cbn [map]. rewrite lenN_cons. lia.
Qed.

(** The pages of the client are the walk over the holder's sessions. *)
Lemma pages_walk n cursor acc seen k w s c rest :
  let fd := HolderClient.stream k in
  idle fd (HolderClient.protocol_minor k) s c -> Connection.role c = Connection.Control -> listable s ->
  HolderClient.generation k <= HolderRuntime.generation (runtime s) -> is_u64 (HolderClient.generation k) ->
  0 < HolderClient.next_request_id k -> HolderClient.next_request_id k + lenN rest < u32_max ->
  HolderClient.protocol_minor k = 1 \/ HolderClient.protocol_minor k = 2 -> cursor < Inventory.NO_CURSOR ->
  (seen = None \/ seen = Some (HolderRuntime.generation (runtime s))) -> holds fd s w [] ->
  HolderRuntime.walk n (runtime s) cursor Inventory.MAX_INVENTORY_ENTRIES = Some rest ->
  runs (HolderClient.pages n cursor acc seen) (k, w) (fun r st => holds fd s st.2 [] /\
    HolderClient.generation st.1 = HolderRuntime.generation (runtime s) /\
    r = Ok (Some (Reconcile.mkSnapshot (HolderClient.instance_id k) (HolderRuntime.generation (runtime s))
                    (acc ++ map (HolderRuntime.mark_writer (written s)) rest)))).
Proof.
  revert cursor acc seen k w rest; induction n as [|n IH]; intros cursor acc seen k w rest fd Hi Hrole Hlist Hg Hg64 H1 H2 Hm Hcur Hseen Hw Hwalk; [done|].
  subst fd. cbn [HolderRuntime.walk] in Hwalk. cbn [HolderClient.pages]. run.
  destruct (page_codec s cursor Hlist) as (p & He & Hpl & Hd).
  set (g := HolderServer.frame_for HolderFrame.InventoryResp (HolderClient.next_request_id k)
    (HolderRuntime.generation (runtime s)) p).
  assert (Hrt : is_u64 (HolderRuntime.generation (runtime s))) by apply (HolderRuntime.rt_generation _ (proj1 Hlist)).
  assert (Hu : is_u32 (HolderClient.next_request_id k)) by (unfold is_u32, u32_max in *; lia).
  destruct (encode_request HolderFrame.Inventory (HolderClient.next_request_id k) (HolderClient.generation k)
    (Inventory.encode_inventory_request (Inventory.mkRequest cursor Inventory.MAX_INVENTORY_ENTRIES))
    (HolderClient.protocol_minor k) Hm) as [req Hreq].
  { unfold Inventory.encode_inventory_request. destruct (_ || _ || _); [done|].
    by rewrite lenN_app, lenN_u32_be, lenN_u16_be. }
  assert (Henc : exists enc, HolderFrame.encode_frame_with_minor g (HolderClient.protocol_minor k) = Ok enc /\
    lenN enc <= Connection.MAX_PENDING_OUTPUT).
  { eexists. split; [apply HolderFrame.encode_frame_iff; split_and!; [done|done| |done]|].
    - cbn. unfold HolderFrame.MAX_HOLDER_CONTROL_FRAME. lia.
    - rewrite lenN_app, HolderFrame.lenN_frame_header. cbn. unfold HolderFrame.HOLDER_HEADER_SIZE, Connection.MAX_PENDING_OUTPUT. lia. }
  destruct Henc as (enc & Henc & Hel).
  eapply runs_mono; [eapply (request_answered _ _ _ k w s c (inventory_frame (HolderClient.next_request_id k)
    (HolderClient.generation k) cursor) g req enc); try done; [lia|by apply (process_inventory _ _ s c)]|].
  cbn beta. intros r [k1 w1] (-> & Hw1 & Hk1). cbn [fst snd] in *. run. cbn [payload g HolderServer.frame_for].
  rewrite Hd. cbn [HolderClient.protocol_error]. cbn [HolderFrame.generation g HolderServer.frame_for].
  replace (match seen with Some g => _ | None => _ end) with false
    by (destruct Hseen as [->| ->]; [done|by rewrite N.eqb_refl]).
  assert (Hnext : Inventory.next_cursor (HolderRuntime.inventory (runtime s)
    (Inventory.mkRequest cursor Inventory.MAX_INVENTORY_ENTRIES)) = Inventory.next_cursor (page s cursor)) by done.
  assert (Hent : Inventory.entries (page s cursor) = map (HolderRuntime.mark_writer (written s))
    (Inventory.entries (HolderRuntime.inventory (runtime s) (Inventory.mkRequest cursor Inventory.MAX_INVENTORY_ENTRIES)))) by done.
  rewrite Hnext in Hwalk. rewrite Hent. destruct (Inventory.next_cursor (page s cursor)) as [next|] eqn:Hn.
  - destruct (N.leb_spec next cursor) as [Hle|Hlt]; [pose proof (page_next _ _ _ Hn); lia|].
    destruct (HolderRuntime.walk n (runtime s) next _) as [rest'|] eqn:Hrest; [|done]. injection Hwalk as <-.
    eapply runs_mono; [eapply (IH next _ _ k1 w1 rest'); subst k1; cbn; try done|].
    + unfold as_u32. rewrite N.mod_small by (unfold u32_max in *; lia). lia.
    + pose proof (page_nonempty _ _ _ Hn) as Hne. rewrite Hent, lenN_map in Hne. rewrite lenN_app in H2. cbn in Hne, H2.
      unfold as_u32. rewrite N.mod_small by (unfold u32_max in *; lia). lia.
    + destruct Hlist as [Hwf Htm].
      assert (Hok : Inventory.inventory_response_ok (page s cursor))
        by (apply HolderRuntime.page_response_ok; [done..|by split]).
      destruct Hok as (_ & _ & Hc'). by apply Hc'.
    + by right.
    + cbn beta. intros r st (Hst & Hgst & ->). split_and!; [by subst k1|done|]. subst k1. cbn. by rewrite map_app, app_assoc.
  - injection Hwalk as <-. unfold HolderClient.discard_events_through, HolderClient.me, HolderClient.change. run.
    cbn [fst snd]. subst k1. cbn. done.
Qed.

(** The holder [server l] serves the client [k] as controller, and their
    connection waits for a request. *)
Record serves (l : Link) (k : HolderControlClient) (c : Connection.t) : Prop := {
  sv_idle : idle (HolderClient.stream k) (HolderClient.protocol_minor k) (server l) c;
  sv_role : Connection.role c = Connection.Control;
  sv_inbox : waiting (HolderClient.stream k) l = [];
  sv_minor : HolderClient.protocol_minor k = 1 \/ HolderClient.protocol_minor k = 2;
  sv_generation : HolderClient.generation k <= HolderRuntime.generation (runtime (server l));
  sv_request : 0 < HolderClient.next_request_id k;
  sv_instance : HolderClient.instance_id k = HolderServer.instance_id (server l);
}.

(** C19: The daemon's cached inventory is the holder's table: when the daemon
    refreshes it over a connection the holder serves as controller ([serves];
    [connect_serves] says that a connection to a holder without a controller is
    one), the cache becomes exactly the holder's sessions, each once, in the
    order of the ids, with their writers, whatever the number of pages, under
    the holder's instance and generation; nothing changes in the holder.  This
    is so while no session's clock went backwards ([listable]); otherwise the
    refresh fails ([clock_step_breaks_inventory]). *)
Theorem inventory_reaches_daemon fuel b l c :
  let k := HolderBackend.client b in let s := server l in let n := lenN (ordered (HolderRuntime.sessions (runtime s))) in
  serves l k c -> listable s -> HolderClient.next_request_id k + n < u32_max -> n < N.of_nat fuel ->
  runs (HolderBackend.refresh_inventory uid pid fuel) (b, l) (fun r st => r = Ok tt /\ server st.2 = s /\
    HolderBackend.connected st.1 = true /\
    HolderBackend.cache st.1 = Reconcile.mkSnapshot (HolderServer.instance_id s) (HolderRuntime.generation (runtime s))
      (map (HolderRuntime.mark_writer (written s))
        (HolderRuntime.entries_of (ordered (HolderRuntime.sessions (runtime s)))))).
Proof.
  intros k s n [Hi Hrole Hw Hm Hg H1 Hinst] Hlist H2 Hf. subst k s n.
  assert (Hg64 : is_u64 (HolderClient.generation (HolderBackend.client b)))
    by (pose proof (HolderRuntime.rt_generation _ (proj1 Hlist)); unfold is_u64 in *; lia).
  assert (Hwalk : HolderRuntime.walk fuel (runtime (server l)) 0 Inventory.MAX_INVENTORY_ENTRIES =
    Some (HolderRuntime.entries_of (ordered (HolderRuntime.sessions (runtime (server l)))))).
  { apply (HolderRuntime.walk_from _ _ _ 0 []); try done; [|unfold lenN in Hf; lia].
    - apply Forall_forall. intros [id x] Hin%elem_of_ordered.
      destruct (HolderRuntime.session_of _ id x (proj1 Hlist) Hin) as [[_ Hid] _ _ _ _ _ _ _ _ _]. cbn. lia. }
  unfold HolderBackend.refresh_inventory. run. rewrite HolderBackend.runs_by_client. cbn [fst snd].
  unfold HolderClient.inventory_snapshot, HolderClient.MAX_INVENTORY_RETRIES. cbn [HolderClient.inventory_attempts].
  unfold HolderClient.inventory_snapshot_once. run.
  eapply runs_mono; [eapply (pages_walk fuel 0 [] None _ l (server l) c); try done|].
  - unfold HolderRuntime.entries_of. by rewrite lenN_map.
  - by left.
  - cbn beta. intros r [k1 w1] ([Hs Hw1] & _ & ->). cbn [fst snd] in *. run.
    unfold HolderBackend.set_cache, HolderBackend.set_connected. run. by rewrite <- Hinst.
Qed.

(** ** A second connection *)

(** The holder serves a controller whose connection is open. *)
Definition controlled (s : Server) : Prop := exists c, controller s = Some c /\
  is_Some (connections s !! HolderServer.ctl_fd c) /\ HolderServer.closes_within os (HolderServer.ctl_fd c) = false.

Definition nonce_ok (l : Link) : Prop := exists nonce rest, randoms l = nonce :: rest /\ id_ok nonce.

(** The kernel and the names of the two processes. *)
Record setting (s : Server) : Prop := {
  set_epoll : forall fd events, HolderServer.epoll_ctl os fd events = true;
  set_uid : is_u32 uid;
  set_pid : is_u32 pid /\ pid <> 0;
  set_holder : is_u32 (HolderServer.holder_pid os) /\ HolderServer.holder_pid os <> 0;
  set_instance : id_ok (HolderServer.instance_id s);
  set_generation : is_u64 (HolderRuntime.generation (runtime s));
}.

Definition hello_frame (nonce : bytes) : HolderFrame := mkFrame HolderFrame.ControlHello 0 1 0
  (Handshake.encode_control_hello (Handshake.mkControlHello uid pid nonce)).
Definition ack_frame (s : Server) (nonce : bytes) (status : Handshake.HelloStatus) : HolderFrame :=
  HolderServer.frame_for HolderFrame.ControlHelloAck 1 (HolderRuntime.generation (runtime s))
    (Handshake.encode_control_hello_ack (Handshake.mkControlHelloAck (HolderServer.holder_pid os)
       (HolderServer.instance_id s) nonce status)).

Lemma lenN_ack s nonce status : setting s -> id_ok nonce -> lenN (payload (ack_frame s nonce status)) = 37.
Proof.
  intros Hset [Hn _]. destruct (set_instance s Hset) as [Hi _]. cbn [payload ack_frame HolderServer.frame_for].
  unfold Handshake.encode_control_hello_ack. cbn [Handshake.holder_pid Handshake.ack_instance_id Handshake.ack_nonce Handshake.status].
  rewrite !lenN_app, lenN_u32_be, Hi, Hn. done.
Qed.

Lemma lenN_hello nonce : id_ok nonce -> lenN (payload (hello_frame nonce)) = 24.
Proof.
  intros [Hn _]. cbn [payload hello_frame]. unfold Handshake.encode_control_hello.
  cbn [Handshake.uid Handshake.daemon_pid Handshake.nonce]. by rewrite !lenN_app, !lenN_u32_be, Hn.
Qed.

(** How the holder answers a hello of the daemon. *)
Definition hello_status (s : Server) (status : Handshake.HelloStatus) : Prop :=
  controlled s /\ status = Handshake.Busy \/ controller s = None /\ status = Handshake.Accepted.

(** The answer is queued; a client that is accepted becomes the controller. *)
Lemma process_hello fd s nonce status enc : idle fd 1 s (Connection.new pid uid) -> hello_status s status -> setting s ->
  id_ok nonce -> HolderFrame.encode_frame_with_minor (ack_frame s nonce status) 1 = Ok enc ->
  exists s2 c2, HolderServer.process_frame os fd 1 (hello_frame nonce) s = Some (Ok tt, s2) /\
    connections s2 !! fd = Some c2 /\ ByteQueue.pending (Connection.output c2) = enc /\ runtime s2 = runtime s /\
    HolderServer.instance_id s2 = HolderServer.instance_id s /\ writers s2 = writers s /\
    (status = Handshake.Accepted -> Connection.role c2 = Connection.Control /\ idle fd 1
      (HolderServer.update fd (fun c => Connection.set_output c ByteQueue.empty) s2) (Connection.set_output c2 ByteQueue.empty)).
Proof.
  intros Hi Hst Hset Hn He. pose proof Hi as [Hc _ _ _ Hre].
  assert (Hd : Handshake.decode_control_hello (Handshake.encode_control_hello (Handshake.mkControlHello uid pid nonce)) =
    Ok (Handshake.mkControlHello uid pid nonce)).
  { apply (strict_iff (StrictCodec := Handshake.control_hello_strict)).
    - unfold fits. pose proof (lenN_hello nonce Hn) as Hl. cbn [payload hello_frame] in Hl. rewrite Hl. done.
    - split; [|done]. destruct Hset as [_ Hu [Hp Hp0] _ _ _]. unfold Handshake.control_hello_ok. cbn. done. }
  assert (Hdrop : HolderServer.drop_closed_controller os s = Some (Ok tt, s)).
  { unfold HolderServer.drop_closed_controller, mbind, M_bind, get. destruct Hst as [[(ctl & Hctl & [c0 Hc0] & Hopen) _]|[Hctl _]].
    - by rewrite Hctl, Hc0, Hopen.
    - by rewrite Hctl. }
  assert (Hs : match controller s with Some _ => Handshake.Busy | None => Handshake.Accepted end = status).
  { destruct Hst as [[(ctl & -> & _) ->]|[-> ->]]; done. }
  unfold HolderServer.process_frame, mbind, M_bind, get, unwrap. rewrite Hc. cbn [Connection.role Connection.new].
  unfold HolderServer.handle_hello. cbn [message_type hello_frame]. unfold HolderServer.handle_control_hello.
  cbn [negb]. change (1 =? HolderFrame.HOLDER_PROTOCOL_BASELINE_MINOR) with true. cbn [negb].
  unfold mbind, M_bind, get, unwrap, lift. rewrite Hdrop. cbn [payload hello_frame]. rewrite Hd. cbn [protocol]. rewrite Hc.
  cbn [Connection.peer_uid Connection.peer_pid Connection.new
    Handshake.uid Handshake.daemon_pid Handshake.nonce]. rewrite !N.eqb_refl, Hs. cbn [negb orb].
  change (HolderServer.frame_for HolderFrame.ControlHelloAck (request_id (hello_frame nonce)) (HolderRuntime.generation (runtime s))
    (Handshake.encode_control_hello_ack (Handshake.mkControlHelloAck (HolderServer.holder_pid os)
       (HolderServer.instance_id s) nonce status))) with (ack_frame s nonce status).
  assert (Hlen : lenN enc <= Connection.MAX_PENDING_OUTPUT).
  { apply HolderFrame.encode_frame_size in He as [-> _]. rewrite lenN_ack by done. done. }
  rewrite (queue_idle fd 1 s _ _ enc Hi He Hlen). unfold modify. destruct Hst as [[_ ->]|[_ ->]].
  - do 2 eexists. split; [done|]. unfold HolderServer.update. cbn. rewrite lookup_alter_eq, lookup_insert_eq.
    cbn. split; [done|]. unfold ByteQueue.pending. cbn. by rewrite dropN_0, app_nil_r.
  - do 2 eexists. split; [done|]. unfold HolderServer.update. cbn. rewrite lookup_alter_eq, lookup_insert_eq.
    cbn. split; [done|]. unfold ByteQueue.pending. cbn. rewrite dropN_0, app_nil_r. split_and!; [done..|]. intros _. split; [done|].
    split; cbn; [by rewrite lookup_alter_eq, lookup_alter_eq, lookup_insert_eq|done..].
Qed.

(** The new connection, before its hello. *)
Lemma dialled l : (forall fd events, HolderServer.epoll_ctl os fd events = true) -> exists fd l',
  open_connection l = (Some fd, l') /\ idle fd 1 (server l') (Connection.new pid uid) /\
  waiting fd l' = [] /\ randoms l' = randoms l /\ runtime (server l') = runtime (server l) /\
  controller (server l') = controller (server l) /\ HolderServer.instance_id (server l') = HolderServer.instance_id (server l) /\
  writers (server l') = writers (server l) /\
  (forall j c, connections (server l) !! j = Some c -> connections (server l') !! j = Some c).
Proof.
  intros He. unfold open_connection. set (fd := fresh _).
  assert (Hfresh : connections (server l) !! fd = None).
  { apply not_elem_of_dom. apply (is_fresh (dom (connections (server l)) : gset N)). }
  unfold HolderServer.accept_connection, mbind, M_bind, HolderServer.reactor_add, Reactor.add. rewrite He.
  unfold modify. exists fd. eexists. split; [reflexivity|]. cbn. split_and!; try done.
  - split; cbn; [by rewrite lookup_insert_eq|done|done|done|].
    unfold Reactor.modify. cbn. rewrite lookup_insert_eq. cbn. by rewrite He.
  - unfold waiting. cbn. by rewrite lookup_delete_eq.
  - intros j c Hj. rewrite lookup_insert_ne; [done|]. by intros <-; rewrite Hfresh in Hj.
Qed.

(** What [connect_baseline] returns. *)
Lemma connect_answered l status : hello_status (server l) status -> setting (server l) -> nonce_ok l ->
  runs (HolderClient.connect_baseline uid pid) l (fun r l' =>
    match status with
    | Handshake.Accepted => exists k c, r = Ok k /\ serves l' k c /\ runtime (server l') = runtime (server l) /\
        writers (server l') = writers (server l) /\ HolderServer.instance_id (server l') = HolderServer.instance_id (server l)
    | _ => r = invalid_argument "holder rejected control claim: {:?}"
    end).
Proof.
  intros Hst Hset (nonce & rest & Hr & Hn).
  destruct (dialled l (set_epoll _ Hset)) as (fd & l1 & Hdial & Hi & Hw & Hr1 & Hrt & Hc1 & Hi1 & Hwr1 & Hkeep).
  assert (Hst1 : hello_status (server l1) status).
  { destruct Hst as [[(ctl & Hctl & [c Hoc] & Hcl) ->]|[Hn1 ->]]; [left|right; by rewrite Hc1].
    split; [|done]. exists ctl. rewrite Hc1. split_and!; [done| |done]. exists c. by apply Hkeep. }
  assert (Hset1 : setting (server l1)) by (destruct Hset; split; rewrite ?Hi1, ?Hrt; done).
  set (s := server l1) in *.
  assert (Hack : exists enc, HolderFrame.encode_frame_with_minor (ack_frame s nonce status) 1 = Ok enc).
  { eexists. apply HolderFrame.encode_frame_iff. split_and!; [by left|done| |done]. by rewrite lenN_ack. }
  assert (Hhello : exists req, HolderFrame.encode_frame_with_minor (hello_frame nonce) 1 = Ok req).
  { eexists. apply HolderFrame.encode_frame_iff. split_and!; [by left|done| |done]. by rewrite lenN_hello. }
  destruct Hack as [enc Henc], Hhello as [req Hreq].
  destruct (process_hello fd s nonce status enc Hi Hst1 Hset1 Hn Henc) as (s2 & c2 & Hp & Hc2 & Hpend & Hrt2 & Hin2 & Hwr2 & Hacc).
  set (l2 := mkLink (server l1) (inbox l1) (tail (randoms l1))).
  assert (Hw2 : holds fd s l2 []) by done.
  assert (Hfok : frame_ok (hello_frame nonce)) by by split.
  destruct (deliver_result fd 1 s _ _ req s2 c2 l2 Hi Hfok Hreq Hp Hc2 Hw2) as (l3 & Hwr & Hl3). rewrite Hpend in Hl3.
  assert (Haok : frame_ok (ack_frame s nonce status)) by (split; [done|apply Hset1]).
  unfold HolderClient.connect_baseline, HolderClient.dropping, HolderClient.random_nonce, HolderClient.kernel.
  rewrite runs_bind. unfold runs at 1. cbn [dial link_sockets]. rewrite Hdial. rewrite runs_bind, runs_lift. cbn [ok_or].
  rewrite runs_bind, runs_attempt. rewrite runs_bind. unfold runs at 1. cbn [configure link_sockets]. rewrite runs_bind, runs_lift.
  rewrite runs_bind, runs_bind. unfold runs at 1. cbn [urandom link_sockets]. rewrite Hr1, Hr. cbn [head].
  rewrite runs_bind, runs_lift. cbn [ok_or]. destruct (is_zero16 nonce) eqn:Hz.
  { destruct Hn as [_ Hn]. apply is_zero16_false in Hn. by rewrite Hn in Hz. }
  rewrite runs_ret. rewrite runs_bind. unfold HolderClient.write_frame, HolderClient.write_frame_with_minor.
  rewrite runs_bind, runs_lift.
  change (HolderFrame.encode_frame_with_minor _ _) with (HolderFrame.encode_frame_with_minor (hello_frame nonce) 1).
  rewrite Hreq. cbn [HolderClient.protocol_error].
  unfold HolderClient.write_some, HolderClient.kernel. rewrite runs_bind. unfold runs at 1.
  replace (mkLink (server l1) (inbox l1) (tail (nonce :: rest))) with l2 by (subst l2; by rewrite Hr1, Hr).
  rewrite Hwr. rewrite runs_lift. rewrite runs_bind. unfold HolderClient.read_frame.
  destruct Hl3 as [Hs3 Hb3].
  eapply runs_mono; [apply (HolderClient.read_frame_encoded _ _ _ _ [] _ _ (link_delivers fd (server l3)) Henc Haok)|].
  { split; [done|]. by rewrite app_nil_r. }
  cbn beta. intros r l4 [-> [Hs4 Hb4]]. rewrite runs_bind, runs_lift.
  unfold HolderClient.validate_response. cbn [ack_frame HolderServer.frame_for request_id message_type flags].
  change (negb (1 =? 1) || negb (bool_decide (HolderFrame.ControlHelloAck = HolderFrame.ControlHelloAck)) || negb (0 =? 0)) with false.
  cbn iota. rewrite runs_bind, runs_lift.
  assert (Hfit : fits (payload (ack_frame s nonce status))) by (unfold fits; rewrite lenN_ack; done).
  rewrite (proj2 (strict_iff (StrictCodec := Handshake.control_hello_ack_strict) _
    (Handshake.mkControlHelloAck (HolderServer.holder_pid os) (HolderServer.instance_id s) nonce status) Hfit)).
  2:{ split; [|done]. destruct Hset1 as [_ _ _ [? ?] ? _]. unfold Handshake.control_hello_ack_ok. cbn. done. }
  cbn [HolderClient.protocol_error Handshake.ack_nonce Handshake.status]. rewrite bool_decide_true by done.
  destruct Hst as [[_ ->]|[_ ->]]; cbn; [by run|]. run. destruct (Hacc eq_refl) as [Hrole Hidle].
  do 2 eexists. split; [done|]. rewrite Hs4, Hs3. cbn [runtime HolderServer.update HolderServer.set_connections writers HolderServer.instance_id].
  rewrite Hrt2, Hin2, Hwr2. split_and!; [|by rewrite Hrt|by rewrite Hwr1|by rewrite Hi1].
  split; cbn; rewrite ?Hs4, ?Hs3; try done; cbn; [by left|by rewrite Hrt2].
Qed.

Lemma connect_baseline_refused l : controlled (server l) -> setting (server l) -> nonce_ok l ->
  runs (HolderClient.connect_baseline uid pid) l (fun r _ =>
    r = invalid_argument "holder rejected control claim: {:?}").
Proof. intros Hc. apply (connect_answered l Handshake.Busy). by left. Qed.

(** A client that connects to a holder without a controller is served. *)
Lemma connect_serves l : controller (server l) = None -> setting (server l) -> nonce_ok l ->
  runs (HolderClient.connect_baseline uid pid) l (fun r l' => exists k c, r = Ok k /\ serves l' k c /\
    runtime (server l') = runtime (server l) /\ writers (server l') = writers (server l) /\
    HolderServer.instance_id (server l') = HolderServer.instance_id (server l)).
Proof. intros Hc. apply (connect_answered l Handshake.Accepted). by right. Qed.

(** The daemon cannot replace a connection that only stopped answering in
    time: it says hello on the new connection while the old one, which is the
    holder's controller, is still open, so the holder answers [Busy], the
    daemon gives the new connection up and keeps the old one. *)
Theorem reconnect_refused k l : controlled (server l) -> setting (server l) -> nonce_ok l ->
  runs (HolderClient.reconnect uid pid) (k, l) (fun r st =>
    r = invalid_argument "holder rejected control claim: {:?}" /\ st.1 = k).
Proof.
  intros Hc Hset Hn. unfold HolderClient.reconnect, HolderClient.me. run. cbn [fst snd].
  rewrite HolderClient.runs_outside_eq. cbn [fst snd]. pose proof (connect_baseline_refused l Hc Hset Hn) as Hb.
  destruct (_ =? _).
  - eapply runs_mono; [exact Hb|]. by intros r l' ->.
  - unfold HolderClient.connect. run. eapply runs_mono; [exact Hb|]. by intros r l' ->.
Qed.
End link.

(** ** Witnesses: the sample holder, once its clients have read their answers *)

#[local] Existing Instances Environment.bits_json Environment.bits_json_laws.
#[local] Existing Instances ShellState.envelope_bits ShellState.envelope_bits_laws.

Definition drained (s : Server) : Server :=
  HolderServer.set_connections (fmap (fun c => Connection.set_output c ByteQueue.empty)) s.
Definition sample_server : Server := drained (HolderService.sample_after 5).
Definition sample_link : Link := mkLink sample_server ∅ [replicate 16 Byte.x22].
Definition linked_client : HolderControlClient :=
  HolderClient.mkClient 10 (HolderServer.instance_id sample_server) 50 HolderService.sample_nonce 2 0 1 0 [].
Definition linked_backend : HolderBackend.HolderRuntime :=
  HolderBackend.mkRuntime linked_client 4096
    (Reconcile.mkSnapshot (HolderServer.instance_id sample_server) 0 []) true.
Definition linked_os : Os := HolderService.calm_os [].

Lemma sample_idle : idle linked_os 10 1 sample_server
  (Connection.set_output (HolderService.sample_client 5 10) ByteQueue.empty).
Proof.
  split; [|vm_compute; reflexivity..]. cbn [connections sample_server drained HolderServer.set_connections].
  rewrite lookup_fmap, HolderService.sample_lookup; [reflexivity|vm_compute; reflexivity].
Qed.

Lemma all_sessions (P : N -> HolderRuntime.Session -> bool) (m : gmap N HolderRuntime.Session) :
  forallb (fun x => P x.1 x.2) (map_to_list m) = true -> map_Forall (fun i x => P i x = true) m.
Proof.
  intros Hf i x Hx. apply (proj1 (forallb_forall _ _) Hf (i, x)). by apply list_elem_of_In, elem_of_map_to_list.
Qed.

Lemma runtime_drained s : runtime (drained s) = runtime s.
Proof. reflexivity. Qed.

Lemma sample_listable : listable sample_server.
Proof.
  split.
  - unfold sample_server. rewrite runtime_drained. exact (HolderSafety.i_runtime _ _ (HolderService.running_inv True _ _ (HolderService.sample_running True 5))).
  - pose proof (all_sessions (fun _ x => HolderRuntime.created_at_ms x <=? HolderRuntime.last_active_at_ms x)
      (HolderRuntime.sessions (runtime sample_server))) as Ha.
    intros i x Hx. apply N.leb_le. apply (Ha ltac:(vm_compute; reflexivity) i x Hx).
Qed.

Lemma inventory_reaches_daemon_witness :
  runs (HolderBackend.refresh_inventory (H0 := link_sockets linked_os 1000 70) 1000 70 2) (linked_backend, sample_link)
    (fun r st => r = Ok tt /\
      Reconcile.entries (HolderBackend.cache st.1) = map (HolderRuntime.mark_writer (written sample_server))
        (HolderRuntime.entries_of (ordered (HolderRuntime.sessions (runtime sample_server))))).
Proof.
  eapply runs_mono; [apply (inventory_reaches_daemon linked_os 1000 70 2 linked_backend sample_link
    (Connection.set_output (HolderService.sample_client 5 10) ByteQueue.empty))|].
  - split; [exact sample_idle|vm_compute; reflexivity|reflexivity|by left|apply N.le_0_l|reflexivity|reflexivity].
  - exact sample_listable.
  - vm_compute. reflexivity.
  - vm_compute. reflexivity.
  - cbn beta. intros r st (Hr & _ & _ & Hc). split; [exact Hr|]. by rewrite Hc.
Defined.

Lemma reconnect_refused_witness :
  runs (HolderClient.reconnect (H0 := link_sockets linked_os 1000 70) 1000 70) (linked_client, sample_link)
    (fun r st => r = invalid_argument "holder rejected control claim: {:?}" /\ st.1 = linked_client).
Proof.
  apply (reconnect_refused linked_os 1000 70 linked_client sample_link).
  - exists (HolderServer.mkController 10 70 HolderService.sample_nonce 1 0). split; [vm_compute; reflexivity|].
    split; [|vm_compute; reflexivity]. eexists. exact (idle_conn _ _ _ _ _ sample_idle).
  - split; [reflexivity|reflexivity|by split|by split| |].
    + split; [vm_compute; reflexivity|]. intros Hz. by vm_compute in Hz.
    + exact (HolderRuntime.rt_generation _ (proj1 sample_listable)).
  - exists (replicate 16 Byte.x22), []. split; [reflexivity|]. split; [reflexivity|]. intros Hz. by vm_compute in Hz.
Defined.
End HolderLink.
