(* ===== verification/Migration.v ===== *)
(** * Migration: the versions of the metadata database.

    Models [MetadataStore::migrate] of [crates/persist-metadata/src/store.rs].
    A batch of statements that is not a transaction is durable statement by
    statement, so the process can die between two of them: [durable] lists the
    states a crash can leave. *)
From S2P Require Import Prelude Effects.
From Stdlib Require Import Lia.
Import String.StringSyntax.
Local Open Scope string_scope.
Local Open Scope list_scope.
Local Open Scope N_scope.

Module Migration.

(** The rows of [schema_version], the columns of [sessions], and whether
    [session_tags] exists; [None] for a table that does not exist. *)
Record Schema : Type := mkSchema {
  versions : option (list N);
  columns : option (list String.string);
  tags : bool;
}.

Definition blank : Schema := mkSchema None None false.

Definition SESSIONS : list String.string :=
  ["session_id"; "name"; "status"; "created_at"; "updated_at"; "closed_at"; "cwd"; "shell"; "exit_code"].

Inductive statement : Type :=
| CreateVersions            (* CREATE TABLE IF NOT EXISTS schema_version *)
| SeedVersion               (* INSERT .. SELECT 1 WHERE NOT EXISTS .. *)
| CreateSessions            (* CREATE TABLE IF NOT EXISTS sessions *)
| CreateTags                (* CREATE TABLE IF NOT EXISTS session_tags *)
| AddColumn (c : String.string)
| InsertVersion (v : N).

(** SQLite refuses a column that exists, and a table that does not. *)
Definition execute (st : statement) (s : Schema) : option Schema :=
  match st with
  | CreateVersions => Some (mkSchema (Some (default [] (versions s))) (columns s) (tags s))
  | SeedVersion =>
      rows ← versions s;
      Some (mkSchema (Some (match rows with [] => [1] | _ => rows end)) (columns s) (tags s))
  | CreateSessions => Some (mkSchema (versions s) (Some (default SESSIONS (columns s))) (tags s))
  | CreateTags => Some (mkSchema (versions s) (columns s) true)
  | AddColumn c =>
      cs ← columns s;
      if bool_decide (c ∈ cs) then None else Some (mkSchema (versions s) (Some (cs ++ [c])%list) (tags s))
  | InsertVersion v =>
      rows ← versions s; Some (mkSchema (Some (rows ++ [v])%list) (columns s) (tags s))
  end.

(** [BEGIN IMMEDIATE; ..; COMMIT] or not. *)
Record Batch : Type := mkBatch { transaction : bool; statements : list statement }.

Definition D (A : Type) : Type := M (list Schema) persist_error A.

(** The state is the durable states so far, the last one first. *)
Definition current (h : list Schema) : Schema := default blank (head h).

Fixpoint execute_each (operation : String.string) (l : list statement) : D unit :=
  match l with
  | [] => mret tt
  | st :: l' =>
      h ← get;
      match execute st (current h) with
      | Some s => _ ← modify (cons s); execute_each operation l'
      | None => fail (MetadataOperation operation)
      end
  end.

(** All the statements, or none. *)
Fixpoint execute_all (l : list statement) (s : Schema) : option Schema :=
  match l with [] => Some s | st :: l' => s' ← execute st s; execute_all l' s' end.

Definition execute_batch (operation : String.string) (b : Batch) : D unit :=
  if transaction b then
    h ← get;
    match execute_all (statements b) (current h) with
    | Some s => modify (cons s)
    | None => fail (MetadataOperation operation)
    end
  else execute_each operation (statements b).

Definition first_batch : Batch := mkBatch false [CreateVersions; SeedVersion; CreateSessions].

(** Version, operation and batch of each step. *)
Definition steps : list (N * String.string * Batch) := [
  (2, "migrate to schema version 2 (add note column)", mkBatch false [AddColumn "note"; InsertVersion 2]);
  (3, "migrate to schema version 3 (add session_tags table)", mkBatch false [CreateTags; InsertVersion 3]);
  (4, "migrate to schema version 4 (add pinned column)", mkBatch false [AddColumn "pinned"; InsertVersion 4]);
  (5, "migrate to schema version 5 (add locked column)", mkBatch false [AddColumn "locked"; InsertVersion 5]);
  (6, "migrate to schema version 6 (add env snapshot column)", mkBatch false [AddColumn "env_snapshot"; InsertVersion 6]);
  (7, "migrate to schema version 7 (add holder reconciliation fields)",
     mkBatch true [AddColumn "holder_instance"; AddColumn "holder_generation"; InsertVersion 7]) ].

(** [COALESCE(MAX(version), 0)], [unwrap_or(0)] *)
Definition version (s : Schema) : N := foldr N.max 0 (default [] (versions s)).

Definition migrate : D unit :=
  _ ← execute_batch "migrate metadata schema" first_batch;
  h ← get;
  let version := version (current h) in
  each (fun step => if version <? step.1.1 then execute_batch step.1.2 step.2 else mret tt) steps.

(** [migrate] of a database, and the states a crash can leave on the way. *)
Definition outcome (s : Schema) : option (result persist_error unit * Schema) :=
  '(r, h) ← migrate [s]; Some (r, current h).
Definition durable (s : Schema) : list Schema :=
  match migrate [s] with Some (_, h) => h | None => [] end.

(** The databases of the earlier versions of the program: the first batch and
    the steps up to [v], each complete. *)
Definition released (v : N) : Schema :=
  match (_ ← execute_batch "" first_batch;
         each (fun step => if step.1.1 <=? v then execute_batch step.1.2 step.2 else mret tt) steps) [blank] with
  | Some (_, h) => current h
  | None => blank
  end.

Definition COLUMNS : list String.string :=
  (SESSIONS ++ ["note"; "pinned"; "locked"; "env_snapshot"; "holder_instance"; "holder_generation"])%list.

#[local] Instance statement_eq_dec : EqDecision statement.
Proof. solve_decision. Defined.
#[export] Instance schema_eq_dec : EqDecision Schema.
Proof. solve_decision. Defined.

(** The column of the step to [v] exists, its version row does not. *)
Definition torn (v : N) (s : Schema) : bool :=
  (version s =? v - 1) &&
  existsb (fun step => (step.1.1 =? v) && negb (transaction step.2) &&
    existsb (fun st => match st with
      | AddColumn c => bool_decide (c ∈ default [] (columns s))
      | _ => false end) (statements step.2)) steps.

(** The databases that a start may find. *)
Definition starts : list Schema := blank :: map released [1; 2; 3; 4; 5; 6; 7].

Lemma starts_all s : s = blank \/ (exists v, 1 <= v <= 7 /\ s = released v) -> s ∈ starts.
Proof.
  intros [->|(v & Hv & ->)]; [left|right]. apply list_elem_of_fmap. exists v. split; [done|].
  assert (v = 1 \/ v = 2 \/ v = 3 \/ v = 4 \/ v = 5 \/ v = 6 \/ v = 7) as Hc by lia.
  repeat (destruct Hc as [->|Hc]; [set_solver|]). subst. set_solver.
Qed.

Definition completes (s : Schema) : bool :=
  match outcome s with Some (Ok tt, s') => bool_decide (s' = released 7) | _ => false end.
(** The migration fails, and the database is as it was. *)
Definition stuck (s : Schema) : bool :=
  match outcome s with Some (Err (MetadataOperation _), s') => bool_decide (s' = s) | _ => false end.
Definition torn_versions (s : Schema) : list N := filter (fun v => torn v s = true) [2; 4; 5; 6].

Definition crash_ok (s : Schema) : bool :=
  match torn_versions s with [] => completes s | _ => stuck s end.

(** C21: A database of any released version, and a new one, is brought to
    version 7 with every column and table, and running the migration again
    changes nothing. *)
Theorem migrate_complete s : s = blank \/ (exists v, 1 <= v <= 7 /\ s = released v) ->
  outcome s = Some (Ok tt, released 7) /\ version (released 7) = 7 /\
  columns (released 7) = Some COLUMNS /\ tags (released 7) = true /\
  outcome (released 7) = Some (Ok tt, released 7).
Proof.
  intros Hs%starts_all. assert (Hall : Forall (fun s => outcome s = Some (Ok tt, released 7)) starts).
  { repeat (apply List.Forall_cons; [vm_compute; reflexivity|]). apply List.Forall_nil. }
  split; [|by vm_compute]. rewrite Forall_forall in Hall. by apply Hall.
Qed.

(** C40: A crash during the migration of any released database leaves one that
    the next start completes, except between the two statements of a step that
    adds a column outside a transaction (versions 2, 4, 5 and 6): then every
    later start fails and changes nothing, because the column already exists
    and its version was not recorded. *)
Theorem migrate_crash s s' : s = blank \/ (exists v, 1 <= v <= 7 /\ s = released v) -> s' ∈ durable s ->
  (torn_versions s' = [] /\ outcome s' = Some (Ok tt, released 7)) \/
  (torn_versions s' <> [] /\ exists operation, outcome s' = Some (Err (MetadataOperation operation), s')).
Proof.
  intros Hs%starts_all Hd.
  assert (Hall : Forall (fun s => Forall (fun s' => crash_ok s' = true) (durable s)) starts).
  { apply (bool_decide_unpack _). vm_compute. exact I. }
  rewrite Forall_forall in Hall. specialize (Hall s Hs). rewrite Forall_forall in Hall. specialize (Hall s' Hd).
  unfold crash_ok in Hall. destruct (torn_versions s') eqn:Ht; [left|right]; (split; [done|]).
  - unfold completes in Hall. destruct (outcome s') as [[[[]|] x]|]; try done. by apply bool_decide_eq_true in Hall as ->.
  - unfold stuck in Hall. destruct (outcome s') as [[[|[]] x]|]; try done. apply bool_decide_eq_true in Hall as ->. by eexists.
Qed.

Lemma migrate_complete_witness :
  outcome (released 3) = Some (Ok tt, released 7) /\ columns (released 7) = Some COLUMNS.
Proof.
  destruct (migrate_complete (released 3)) as (H1 & _ & H2 & _); [right; exists 3; split; [lia|done]|].
  by split.
Defined.

(** A start of a version 3 database that dies after it added [pinned]. *)
Definition half_migrated : Schema :=
  mkSchema (Some [1; 2; 3]) (Some (SESSIONS ++ ["note"; "pinned"])%list) true.

Lemma migrate_crash_witness :
  (half_migrated ∈ durable (released 3)) /\
  exists operation, outcome half_migrated = Some (Err (MetadataOperation operation), half_migrated).
Proof.
  assert (Hd : half_migrated ∈ durable (released 3)) by (apply (bool_decide_unpack _); vm_compute; exact I).
  split; [exact Hd|].
  destruct (migrate_crash (released 3) half_migrated) as [[Ht _]|[_ Ho]];
    [right; exists 3; split; [lia|reflexivity]|exact Hd| |exact Ho].
  vm_compute in Ht. discriminate Ht.
Defined.
End Migration.
