(* ===== verification/Daemon.v ===== *)
(** * Daemon: the session manager and the threads of the daemon.

    Models the data and the pure parts of [crates/persistd/src/server.rs] (the
    build that ships: code under [cfg(test)] is left out, and so are the
    branches that only a manager without a holder takes, since [run_foreground]
    always gives it one), and [decode_environment] of
    [crates/persist-metadata/src/environment.rs].

    A thread of the daemon is a tree of calls ([Thread]): each call is one
    access to what the threads share (the manager, the metadata, the cached
    inventory, the holder, the system).  The locks of the code only restrict
    how the calls of different threads interleave, so what is proved of every
    interleaving of calls holds of the program. *)
From S2P Require Import Prelude OrderedMap Bytes Utf8 Environment LaunchEnvironment HolderMessages HolderSession ShellState Effects ClientFrame ClientMessages Metadata Reconcile HolderBackend.
From stdpp Require Import sorting pretty.
From Stdlib Require Import Lia.
Import String.StringSyntax.
Import Environment(SnapshotJson, EnvironmentSnapshot, EnvironmentPolicy, mkSnapshot).
Import Inventory(HolderSessionEntry, Running, Exited).
Import Metadata(SessionRecord, MetadataStore, Db, H).
Import Reconcile(ExitContext, mkExit, x_session_id, x_exit_code, x_cwd, x_environment, HolderInventorySnapshot).
Import ShellState(ShellStateIdentity).
Import ClientFrame(Frame, MessageType).
Import AttachContext(ConnectionEnvironment).
Local Open Scope N_scope.

Module Daemon.

(** ** Data *)

Record SessionInfo : Type := mkInfo { i_name : str; i_shell : option str }.

Record RecoveryContext : Type := mkContext { r_cwd : option str; r_environment : option EnvironmentSnapshot }.

Definition default_context : RecoveryContext := mkContext None None.

(** [a.or(b)] *)
Definition or_else {A} (a b : option A) : option A := match a with Some _ => a | None => b end.

Definition merge_with_fallback (self : RecoveryContext) (fallback : option RecoveryContext) : RecoveryContext :=
  let fallback := default default_context fallback in
  mkContext (or_else (r_cwd self) (r_cwd fallback)) (or_else (r_environment self) (r_environment fallback)).

Record ClosedSession : Type := mkClosed { c_exit_code : Z; c_recovery_context : RecoveryContext; c_holder_retire : bool }.

Record RecoveryEnvironmentConfig : Type := mkRecovery { include : list str; max_variables : N; max_bytes : N }.

(** Of an [Instant] only the nanoseconds since some origin matter. *)
Record SessionManager : Type := mkManager {
  session_info : gmap N SessionInfo;
  ring_buffer_size : N;
  replay_on_attach : bool;
  replay_bytes : N;
  session_log_enabled : bool;
  logs_dir : str;
  history_dir : str;
  runtime_dir : str;
  next_id : N;
  attached_sessions : gmap N N;
  ro_attached : gmap N (list N);
  last_activity : gmap N N;
  gc_idle_timeout : N;
  locked_sessions : gset N;
  orphaned_sessions : gset N;
  recovery_contexts : gmap N RecoveryContext;
  recovery_environment : RecoveryEnvironmentConfig;
}.

Definition set_session_info f (s : SessionManager) := mkManager (f (session_info s)) (ring_buffer_size s)
  (replay_on_attach s) (replay_bytes s) (session_log_enabled s) (logs_dir s) (history_dir s) (runtime_dir s)
  (next_id s) (attached_sessions s) (ro_attached s) (last_activity s) (gc_idle_timeout s) (locked_sessions s)
  (orphaned_sessions s) (recovery_contexts s) (recovery_environment s).
Definition set_next_id n (s : SessionManager) := mkManager (session_info s) (ring_buffer_size s)
  (replay_on_attach s) (replay_bytes s) (session_log_enabled s) (logs_dir s) (history_dir s) (runtime_dir s)
  n (attached_sessions s) (ro_attached s) (last_activity s) (gc_idle_timeout s) (locked_sessions s)
  (orphaned_sessions s) (recovery_contexts s) (recovery_environment s).
Definition set_attached_sessions f (s : SessionManager) := mkManager (session_info s) (ring_buffer_size s)
  (replay_on_attach s) (replay_bytes s) (session_log_enabled s) (logs_dir s) (history_dir s) (runtime_dir s)
  (next_id s) (f (attached_sessions s)) (ro_attached s) (last_activity s) (gc_idle_timeout s) (locked_sessions s)
  (orphaned_sessions s) (recovery_contexts s) (recovery_environment s).
Definition set_ro_attached f (s : SessionManager) := mkManager (session_info s) (ring_buffer_size s)
  (replay_on_attach s) (replay_bytes s) (session_log_enabled s) (logs_dir s) (history_dir s) (runtime_dir s)
  (next_id s) (attached_sessions s) (f (ro_attached s)) (last_activity s) (gc_idle_timeout s) (locked_sessions s)
  (orphaned_sessions s) (recovery_contexts s) (recovery_environment s).
Definition set_last_activity f (s : SessionManager) := mkManager (session_info s) (ring_buffer_size s)
  (replay_on_attach s) (replay_bytes s) (session_log_enabled s) (logs_dir s) (history_dir s) (runtime_dir s)
  (next_id s) (attached_sessions s) (ro_attached s) (f (last_activity s)) (gc_idle_timeout s) (locked_sessions s)
  (orphaned_sessions s) (recovery_contexts s) (recovery_environment s).
Definition set_locked_sessions f (s : SessionManager) := mkManager (session_info s) (ring_buffer_size s)
  (replay_on_attach s) (replay_bytes s) (session_log_enabled s) (logs_dir s) (history_dir s) (runtime_dir s)
  (next_id s) (attached_sessions s) (ro_attached s) (last_activity s) (gc_idle_timeout s) (f (locked_sessions s))
  (orphaned_sessions s) (recovery_contexts s) (recovery_environment s).
Definition set_orphaned_sessions o (s : SessionManager) := mkManager (session_info s) (ring_buffer_size s)
  (replay_on_attach s) (replay_bytes s) (session_log_enabled s) (logs_dir s) (history_dir s) (runtime_dir s)
  (next_id s) (attached_sessions s) (ro_attached s) (last_activity s) (gc_idle_timeout s) (locked_sessions s)
  o (recovery_contexts s) (recovery_environment s).
Definition set_recovery_contexts f (s : SessionManager) := mkManager (session_info s) (ring_buffer_size s)
  (replay_on_attach s) (replay_bytes s) (session_log_enabled s) (logs_dir s) (history_dir s) (runtime_dir s)
  (next_id s) (attached_sessions s) (ro_attached s) (last_activity s) (gc_idle_timeout s) (locked_sessions s)
  (orphaned_sessions s) (f (recovery_contexts s)) (recovery_environment s).

#[export] Instance log_state_eq_dec : EqDecision Inventory.HolderLogState.
Proof. solve_decision. Defined.

(** ** The manager *)

Definition default_recovery : RecoveryEnvironmentConfig := mkRecovery [] 128 (64 * 1024).

Definition new (ring_buffer_size : N) (session_log_enabled : bool) (logs_dir history_dir runtime_dir : str)
  : SessionManager :=
  mkManager ∅ ring_buffer_size true ring_buffer_size session_log_enabled logs_dir history_dir runtime_dir
    1 ∅ ∅ ∅ 0 ∅ ∅ ∅ default_recovery.

Definition set_locked (id : N) (locked : bool) : SessionManager -> SessionManager :=
  set_locked_sessions (fun l => if locked then {[id]} ∪ l else l ∖ {[id]}).

Definition load_metadata (records : list SessionRecord) (s : SessionManager) : SessionManager :=
  foldl (fun s r => set_locked (Metadata.session_id r) (Metadata.locked r)
    (set_session_info <[Metadata.session_id r := mkInfo (Metadata.name r) (Metadata.shell r)]> s)) s records.

Definition session_name (id : N) (s : SessionManager) : option str := i_name <$> session_info s !! id.
Definition session_shell (id : N) (s : SessionManager) : option str := session_info s !! id ≫= i_shell.

Definition record_recovery_context (id : N) (context : RecoveryContext) (s : SessionManager) : SessionManager :=
  match r_cwd context, r_environment context with
  | None, None => s
  | _, _ =>
      let stored := default default_context (recovery_contexts s !! id) in
      set_recovery_contexts <[id := mkContext (or_else (r_cwd context) (r_cwd stored))
        (or_else (r_environment context) (r_environment stored))]> s
  end.

Definition rename_session (id : N) (name : str) (s : SessionManager)
  : result persist_error unit * SessionManager :=
  match session_info s !! id with
  | None => (invalid_argument "session not found", s)
  | Some info => (Ok tt, set_session_info <[id := mkInfo name (i_shell info)]> s)
  end.

Definition is_orphaned (id : N) (s : SessionManager) : bool := bool_decide (id ∈ orphaned_sessions s).

(** [cached] is the inventory of the holder as the daemon last saw it. *)
Definition holder_entry (id : N) (cached : list HolderSessionEntry) (s : SessionManager)
  : option HolderSessionEntry :=
  if is_orphaned id s then None
  else list_find (fun e => Inventory.session_id e = id) cached ≫= fun x => Some x.2.

Definition has_runtime (id : N) (cached : list HolderSessionEntry) (s : SessionManager) : bool :=
  match holder_entry id cached s with Some _ => true | None => false end.

(** [sort_unstable] and [dedup] of the ids: as a set, in order. *)
Definition runtime_ids (cached : list HolderSessionEntry) (s : SessionManager) : list N :=
  merge_sort N.le (elements (list_to_set (C := gset N)
    (map Inventory.session_id (filter (fun e => is_orphaned (Inventory.session_id e) s = false) cached)))).

Definition active_writer_count (cached : list HolderSessionEntry) (s : SessionManager) : N :=
  N.of_nat (size (filter (fun id => is_orphaned id s = false) (dom (attached_sessions s)) ∪
    list_to_set (map Inventory.session_id (filter (fun e =>
      is_orphaned (Inventory.session_id e) s = false /\ Inventory.writer_active e = true) cached)))).

Definition degraded_log_count (cached : list HolderSessionEntry) (s : SessionManager) : N :=
  lenN (filter (fun e => is_orphaned (Inventory.session_id e) s = false /\
    Inventory.log_state e = Inventory.Degraded) cached).

Definition output_log_state (id : N) (cached : list HolderSessionEntry) (s : SessionManager) : str :=
  lit match Inventory.log_state <$> holder_entry id cached s with
      | Some Inventory.Healthy => "healthy"
      | Some Inventory.Degraded => "degraded"
      | Some Inventory.Disabled => "disabled"
      | None => "unavailable"
      end.

Definition is_attached (id : N) (s : SessionManager) : bool := bool_decide (is_Some (attached_sessions s !! id)).
Definition transfer_writer (id fd : N) (s : SessionManager) : SessionManager :=
  set_attached_sessions <[id := fd]> s.
Definition release_writer (id fd : N) (s : SessionManager) : bool * SessionManager :=
  if bool_decide (attached_sessions s !! id = Some fd)
  then (true, set_attached_sessions (delete id) s) else (false, s).

(** [now] is what [Instant::now] answers. *)
Definition record_activity (id now : N) : SessionManager -> SessionManager :=
  set_last_activity <[id := now]>.

Definition add_ro_client (id fd : N) : SessionManager -> SessionManager :=
  set_ro_attached (partial_alter (fun fds => Some (default [] fds ++ [fd])) id).
Definition remove_ro_client (id fd : N) : SessionManager -> SessionManager :=
  set_ro_attached (partial_alter (fun fds =>
    fds ← fds;
    match filter (fun f => f <> fd) fds with [] => None | fds' => Some fds' end) id).

Definition readonly_client_count (s : SessionManager) : N :=
  foldr (fun x n => lenN x.2 + n) 0 (map_to_list (ro_attached s)).

Definition finish_close (id : N) (s : SessionManager) : SessionManager :=
  set_recovery_contexts (delete id) (set_last_activity (delete id) (set_ro_attached (delete id)
    (set_attached_sessions (delete id) (set_session_info (delete id) s)))).

Definition NANOS : N := 1000000000.

(** [{:02}] *)
Definition two_digits (n : N) : str := Metadata.padded 2 n.

Definition idle_string (id now : N) (s : SessionManager) : str :=
  match last_activity s !! id with
  | Some instant =>
      let secs := (now - instant) / NANOS in
      if secs <? 60 then lit (pretty secs) ++ lit "s"
      else if secs <? 3600 then lit (pretty (secs / 60)) ++ lit "m" ++ two_digits (secs mod 60) ++ lit "s"
      else lit (pretty (secs / 3600)) ++ lit "h" ++ two_digits (secs mod 3600 / 60) ++ lit "m"
  | None => []
  end.

(** The condition of [gc_candidates] on one session. *)
Definition idle (id now : N) (s : SessionManager) : bool :=
  match last_activity s !! id with
  | None => true
  | Some last => gc_idle_timeout s <=? now - last
  end.

(** ** Names *)

Definition validate_session_name (name : str) : result persist_error unit :=
  if Metadata.blank name || existsb char_is_control (chars name) then invalid_argument "session name is invalid"
  else if 80 <? lenN name then invalid_argument "session name is too long"
  else Ok tt.

Definition generate_session_name (shell : str) (current_dir : option str) : str :=
  let shell_name := default (lit "sh") (Path.file_name (Path.components shell)) in
  let cwd_name := default (lit "?") ((fun p => default p (Path.file_name (Path.components p))) <$> current_dir) in
  shell_name ++ lit "@" ++ cwd_name.

(** [dir.join(name)] of a relative name *)
Definition join (dir name : str) : str :=
  match last dir with
  | Some b => if bool_decide (b = Path.slash) then dir ++ name else dir ++ Path.slash :: name
  | None => name
  end.
Definition decimal (n : N) : str := lit (pretty n).

(** ** Recovery contexts *)

Definition is_recoverable_environment_name (name : str) : bool :=
  bool_decide (name = lit "TERM") || bool_decide (name = lit "COLORTERM") || bool_decide (name = lit "LANG") ||
  starts_with (lit "LC_") name.

Definition recovery_environment_policy (c : RecoveryEnvironmentConfig) : result persist_error EnvironmentPolicy :=
  Environment.policy_new (include c) (max_variables c) (N.min (max_bytes c) usize_max).

(** [s.split(|b| b == sep)] *)
Fixpoint split_on (sep : byte) (s : bytes) : list bytes :=
  match s with
  | [] => [[]]
  | b :: s' =>
      if bool_decide (b = sep) then [] :: split_on sep s'
      else match split_on sep s' with p :: ps => (b :: p) :: ps | [] => [[b]] end
  end.

(** [s.split_once(sep)] *)
Fixpoint split_once (sep : byte) (s : str) : option (str * str) :=
  match s with
  | [] => None
  | b :: s' =>
      if bool_decide (b = sep) then Some ([], s')
      else '(l, r) ← split_once sep s'; Some (b :: l, r)
  end.

(** What [/proc/pid/environ] (at most 16 KiB of it) shows; a later definition
    of a name replaces an earlier one. *)
Definition environ_variables (raw : bytes) : gmap str str :=
  foldl (fun m x => <[x.1 := x.2]> m) ∅
    (filter (fun x => is_recoverable_environment_name x.1 = true)
      (omap (fun entry => text ← from_utf8 entry; split_once Byte.x3d text) (split_on Byte.x00 (takeN (16 * 1024) raw)))).

(** [dir] and [raw] are what reading [/proc/pid/cwd] and [/proc/pid/environ]
    gives. *)
Definition capture_recovery_context_pid `{SnapshotJson} (policy : EnvironmentPolicy) (dir : option str) (raw : option bytes)
  : RecoveryContext :=
  mkContext dir (raw ≫= fun raw =>
    match Environment.capture policy None (environ_variables raw) with Ok s => Some s | Err _ => None end).

(** [decode_environment]; [entries] is the list of entries that serde_json
    reads when the text is one object of strings. *)
Definition legacy_snapshot (policy : EnvironmentPolicy) (legacy : gmap str str) : EnvironmentSnapshot :=
  mkSnapshot Environment.SHELL_ENVIRONMENT_FORMAT_VERSION Environment.SHELL_ENVIRONMENT_POLICY_VERSION
    (Environment.fingerprint policy) legacy ∅ Environment.Preserved.

Definition decode_legacy_map (entries : str -> option (list (str * str))) (encoded : str)
  : result persist_error (gmap str str) :=
  ok_or (entries encoded ≫= Environment.visit_map ∅) (InvalidArgument "invalid legacy environment metadata").

Definition decode_environment `{SnapshotJson} (entries : str -> option (list (str * str)))
    (encoded : option str) (policy : EnvironmentPolicy) : result persist_error (option EnvironmentSnapshot) :=
  match encoded with
  | None => Ok None
  | Some encoded =>
      if Environment.MAX_SHELL_ENVIRONMENT_BYTES <? lenN encoded
      then invalid_argument "environment metadata exceeds size limit"
      else match Environment.decode_environment_snapshot encoded with
      | Ok snapshot => Some <$> Environment.filter_snapshot policy snapshot
      | Err _ =>
          legacy ← decode_legacy_map entries encoded;
          Some <$> Environment.filter_snapshot policy (legacy_snapshot policy legacy)
      end
  end.

End Daemon.
