(* ===== verification/DaemonThreads.v ===== *)
(** * DaemonThreads: threads of the daemon and how they interleave.

    A handler of [crates/persistd/src/server.rs] is a [Thread]: a tree of calls
    on what the threads share, which returns a [Result].  [run] executes one
    thread alone, [step] one call of some thread of a pool.  The holder is an
    interface ([HolderService]) that the backend of [HolderBackend.v]
    implements. *)
From S2P Require Import Prelude Bytes Environment HolderMessages HolderSession ShellState Effects ClientFrame ClientMessages Metadata Reconcile HolderClient HolderBackend Daemon.
From Stdlib Require Import Lia.
Import String.StringSyntax.
Import Environment(SnapshotJson).
Import Inventory(HolderSessionEntry).
Import Metadata(MetadataStore, Db, H).
Import Reconcile(ExitContext, HolderInventorySnapshot).
Import ShellState(ShellStateIdentity).
Import ClientFrame(Frame).
Import HolderBackend(HolderDataConnection).
Import Daemon(SessionManager).
Local Open Scope N_scope.

Module Threads.

(** ** Calls *)

(** What a thread asks the system. *)
Inductive question : Type -> Type :=
| Now : question N
| DetectShell : question str
| CurrentDir : question (option str)
| PrepareDirectories (operation : String.string) : question (result persist_error unit)
| ShellIdentity (dir : str) (id : N) : question (result persist_error ShellStateIdentity)
| ShellLaunch (shell : str) (id : N) (identity : ShellStateIdentity)
    : question (result persist_error (option (list str * list (str * str))))
| ProcCwd (pid : N) : question (option str)
| ProcEnviron (pid : N) : question (option bytes)
| ProcIdentity (pid : N) : question (str * str)
| ProcTree (pid : N) : question (list ClientMessages.ProcessTreeNode)
| ProcStats (pid : N) : question ClientMessages.ProcessStatsRespPayload
| AgentSocket (path : str) : question bool
| RotatedTail (id : N) : question (result persist_error bytes)
| Dashboard (request : Frame) : question bytes
| Pid : question N
(* [public_attach::run]: how often it observed the context, and its outcome *)
| Proxy (fd id : N) (data : HolderDataConnection) (initial_output : bytes) (read_write : bool)
    : question (nat * result persist_error (option ExitContext)).

(** The operations of the holder. *)
Inductive operation : Type -> Type :=
| Create (r : Session.CreateSessionRequest) : operation unit
| Close (id : N) : operation ExitContext
| GetExitContext (id : N) : operation ExitContext
| Retire (id : N) : operation unit
| Kill (id : N) : operation unit
| Attach (id : N) (mode : Session.HolderAttachMode) : operation HolderDataConnection
| Refresh : operation unit
| HasExited : operation bool
| MarkUnavailable : operation HolderInventorySnapshot
| IsConnected : operation bool.

Inductive call : Type -> Type :=
| Ask {A} (q : question A) : call A
| Sm {A} (f : SessionManager -> A * SessionManager) : call A
| Ms {A} (f : Db -> H A) : call (result persist_error A)
| Cached : call HolderInventorySnapshot
| Holder {A} (o : operation A) : call (result persist_error A)
(* [write_frame] to the nonblocking socket of a client: two [write_all], each of
   which stops at the first error *)
| Send (fd : N) (f : Frame) : call (result persist_error unit)
(* [libc::write] of one byte *)
| WriteByte (fd : N) (b : byte) : call unit.

Inductive Thread (A : Type) : Type :=
| Return (r : result persist_error A)
| Perform {B} (c : call B) (k : B -> Thread A).
Global Arguments Return {A} r.
Global Arguments Perform {A B} c k.

#[export] Instance Thread_ret : MRet Thread := fun A a => Return (Ok a).
#[export] Instance Thread_bind : MBind Thread := fun A B k =>
  fix go (t : Thread A) : Thread B :=
    match t with
    | Return (Ok a) => k a
    | Return (Err e) => Return (Err e)
    | Perform c k' => Perform c (fun b => go (k' b))
    end.

Definition fail {A} (e : persist_error) : Thread A := Return (Err e).
(** [c?] *)
Definition lift {A} (c : result persist_error A) : Thread A := Return c.
(** The call as a value. *)
Fixpoint attempt {A} (t : Thread A) : Thread (result persist_error A) :=
  match t with
  | Return r => Return (Ok r)
  | Perform c k => Perform c (fun b => attempt (k b))
  end.

Definition ask {A} (q : question A) : Thread A := Perform (Ask q) mret.
(** [manager.lock().unwrap().f()] *)
Definition sm {A} (f : SessionManager -> A) : Thread A := Perform (Sm (fun s => (f s, s))) mret.
Definition sm_update (f : SessionManager -> SessionManager) : Thread unit := Perform (Sm (fun s => (tt, f s))) mret.
Definition sm_call {A} (f : SessionManager -> A * SessionManager) : Thread A := Perform (Sm f) mret.
(** [metadata.lock().unwrap().f()?] *)
Definition ms {A} (f : Db -> H A) : Thread A := Perform (Ms f) lift.
Definition cached : Thread HolderInventorySnapshot := Perform Cached mret.
(** [holder.f()?] *)
Definition holder {A} (o : operation A) : Thread A := Perform (Holder o) lift.
(** [let _ = write_frame(fd, f)] *)
Definition send (fd : N) (f : Frame) : Thread unit := Perform (Send fd f) (fun _ => mret tt).
Definition write_byte (fd : N) (b : byte) : Thread unit := Perform (WriteByte fd b) mret.

(** [for x in l { f(x)?; }] *)
Fixpoint each {A} (f : A -> Thread unit) (l : list A) : Thread unit :=
  match l with [] => mret tt | x :: l' => _ ← f x; each f l' end.

Fixpoint repeat_thread (n : nat) (t : Thread unit) : Thread unit :=
  match n with O => mret tt | S n' => _ ← t; repeat_thread n' t end.

(** ** The holder as an interface *)

Class HolderService (B : Type) : Type := {
  inventory : B -> HolderInventorySnapshot;
  operate : forall A, operation A -> M B persist_error A;
}.

(** Every operation returns, and the holder stays the one it was. *)
Class HolderServiceLaws (B : Type) `{HolderService B} : Type := {
  sound : B -> Prop;
  operate_sound : forall A (o : operation A) b, sound b ->
    runs (operate A o) b (fun _ b' =>
      sound b' /\ Reconcile.instance_id (inventory b') = Reconcile.instance_id (inventory b));
  close_context : forall id b, sound b ->
    runs (operate ExitContext (Close id)) b (fun r _ => forall x, r = Ok x -> Reconcile.x_session_id x = id);
  exit_context : forall id b, sound b ->
    runs (operate ExitContext (GetExitContext id)) b (fun r _ => forall x, r = Ok x -> Reconcile.x_session_id x = id);
}.

(** ** Traces

    What a thread does, whatever the others and the system make of it: a call
    and any answer, then the rest. *)

Record event : Type := mkEvent { answered : Type; asked : call answered; given : answered }.
Global Arguments mkEvent {answered} asked given.

Inductive traces {A : Type} : Thread A -> list event -> Prop :=
| traces_stop t : traces t []
| traces_call C (c : call C) k b l : traces (k b) l -> traces (Perform c k) (mkEvent c b :: l).

(** A statement that the database did not execute. *)
Definition query_failed (e : event) : Prop :=
  match asked e in call X return X -> Prop with Ms _ => fun r => is_ok r = false | _ => fun _ => False end (given e).

(** ** Execution *)

(** [sent] is what was given to [write_frame] for each client, [wire] what the
    sockets of the clients took, and [tick] the number of calls made. *)
Record World (B : Type) : Type := mkWorld {
  manager : SessionManager;
  metadata : MetadataStore;
  backend : B;
  sent : list (N * Frame);
  wire : list (N * bytes);
  tick : nat;
}.
Global Arguments mkWorld {B} _ _ _ _ _ _.
Global Arguments manager {B} _.
Global Arguments metadata {B} _.
Global Arguments backend {B} _.
Global Arguments sent {B} _.
Global Arguments wire {B} _.
Global Arguments tick {B} _.

(** What a client's socket took, in order. *)
Definition received {B} (fd : N) (w : World B) : bytes := concat (map snd (List.filter (fun x => x.1 =? fd) (wire w))).

(** What the system and the database answer to the call number [n], and how
    many bytes of it the socket of a client takes. *)
Record Os : Type := mkOs { answer : nat -> forall A, question A -> A; database : nat -> Db; takes : nat -> N }.

(** The part of [bs] that a socket takes which takes [n] bytes. *)
Definition taken (n : N) (bs : bytes) : bytes := takeN (N.min n (lenN bs)) bs.

(** Where a write that takes [n] bytes of a frame stops. *)
Definition write_outcome (n : N) (f : Frame) : result persist_error unit :=
  if lenN (ClientFrame.write_frame f) <=? n then Ok tt
  else Err (IoError (if n <? ClientFrame.HEADER_SIZE then "write frame header" else "write frame payload")).

Section execution.
Context {B : Type} `{HolderService B} (os : Os).

Definition perform {A} (c : call A) (w : World B) : option (A * World B) :=
  match c in call A' return option (A' * World B) with
  | Ask q => Some (answer os (tick w) _ q, mkWorld (manager w) (metadata w) (backend w) (sent w) (wire w) (S (tick w)))
  | Sm f => let '(a, s) := f (manager w) in Some (a, mkWorld s (metadata w) (backend w) (sent w) (wire w) (S (tick w)))
  | Ms f => '(r, s) ← f (database os (tick w)) (metadata w);
            Some (r, mkWorld (manager w) s (backend w) (sent w) (wire w) (S (tick w)))
  | Cached => Some (inventory (backend w), mkWorld (manager w) (metadata w) (backend w) (sent w) (wire w) (S (tick w)))
  | Holder o => '(r, b) ← operate _ o (backend w);
                Some (r, mkWorld (manager w) (metadata w) b (sent w) (wire w) (S (tick w)))
  | Send fd f =>
      let n := takes os (tick w) in
      Some (write_outcome n f, mkWorld (manager w) (metadata w) (backend w) (sent w ++ [(fd, f)])
        (wire w ++ [(fd, taken n (ClientFrame.write_frame f))]) (S (tick w)))
  | WriteByte fd b =>
      Some (tt, mkWorld (manager w) (metadata w) (backend w) (sent w)
        (wire w ++ [(fd, taken (takes os (tick w)) [b])]) (S (tick w)))
  end.

(** One thread, alone. *)
Fixpoint run {A} (t : Thread A) (w : World B) : option (result persist_error A * World B) :=
  match t with
  | Return r => Some (r, w)
  | Perform c k => '(b, w') ← perform c w; run (k b) w'
  end.

(** The trace of that run. *)
Fixpoint log {A} (t : Thread A) (w : World B) : list event :=
  match t with
  | Return _ => []
  | Perform c k => match perform c w with Some (b, w') => mkEvent c b :: log (k b) w' | None => [] end
  end.

Lemma log_traces {A} (t : Thread A) w : traces t (log t w).
Proof.
  revert w. induction t as [r|X c k IH]; intros w; cbn; [apply traces_stop|].
  destruct (perform c w) as [[b w']|]; [|apply traces_stop]. by apply traces_call.
Qed.

Lemma log_bind {A C} (t : Thread A) (k : A -> Thread C) w :
  log (t ≫= k) w = log t w ++ match run t w with Some (Ok a, w') => log (k a) w' | _ => [] end.
Proof.
  revert w. induction t as [[a|e]|X c k' IH]; intros w; [done..|]. cbn.
  destruct (perform c w) as [[b w']|]; [|done]. cbn. f_equal. apply IH.
Qed.

(** One call of one thread of a pool; threads may start at any time. *)
Inductive step (starts : Thread unit -> Prop)
  : list (Thread unit) * World B -> list (Thread unit) * World B -> Prop :=
| step_call i (pool : list (Thread unit)) C (c : call C) k w b w' :
    pool !! i = Some (Perform c k) -> perform c w = Some (b, w') ->
    step starts (pool, w) (<[i := k b]> pool, w')
| step_start pool t w : starts t -> step starts (pool, w) (t :: pool, w).

(** [P] holds of the shared state as long as every call of the threads keeps
    it. *)
Definition keeps (P : World B -> Prop) {A} (c : call A) : Prop :=
  forall w b w', P w -> perform c w = Some (b, w') -> P w'.

Fixpoint all_calls (Q : forall A, call A -> Prop) {A} (t : Thread A) : Prop :=
  match t with
  | Return _ => True
  | Perform c k => Q _ c /\ forall b, all_calls Q (k b)
  end.
End execution.

(** ** Rules *)

Lemma all_calls_bind Q {A C} (t : Thread A) (k : A -> Thread C) :
  all_calls Q t -> (forall a, all_calls Q (k a)) -> all_calls Q (t ≫= k).
Proof.
  intros Ht Hk. induction t as [[a|e]|X c k' IH]; cbn; [apply Hk|done|].
  destruct Ht as [Hc Ht]. split; [done|]. intros b. apply IH, Ht.
Qed.

Lemma all_calls_attempt Q {A} (t : Thread A) : all_calls Q t -> all_calls Q (attempt t).
Proof. induction t as [r|X c k IH]; cbn; [done|]. intros [Hc Ht]. split; [done|]. intros b. apply IH, Ht. Qed.

Lemma all_calls_mono (Q Q' : forall A, call A -> Prop) {A} (t : Thread A) :
  (forall A c, Q A c -> Q' A c) -> all_calls Q t -> all_calls Q' t.
Proof. intros HQ. induction t as [r|X c k IH]; cbn; [done|]. intros [Hc Ht]. split; [by apply HQ|]. intros b. apply IH, Ht. Qed.

Lemma all_calls_log {B} `{HolderService B} (os : Os) (Q : forall A, call A -> Prop) {A} (t : Thread A) w :
  all_calls Q t -> Forall (fun e => Q _ (asked e)) (log os t w).
Proof.
  revert w. induction t as [r|X c k IH]; intros w; cbn; [done|]. intros [Hc Ht].
  destruct (perform os c w) as [[b w']|]; [|done]. constructor; [done|]. apply IH, Ht.
Qed.

(** [run] of a thread is a computation on the world: the rules of [runs]. *)
Section running.
Context {B : Type} `{HolderService B} (os : Os).

Definition ticked (w : World B) : World B := mkWorld (manager w) (metadata w) (backend w) (sent w) (wire w) (S (tick w)).

Lemma runs_thread_bind {A C} (t : Thread A) (k : A -> Thread C) w Q :
  runs (run os (t ≫= k)) w Q <-> runs (run os t) w (fun r w' =>
    match r with Ok a => runs (run os (k a)) w' Q | Err e => Q (Err e) w' end).
Proof.
  unfold runs. revert w. induction t as [[a|e]|X c k' IH]; intros w; [done..|].
  cbn. destruct (perform os c w) as [[b w']|]; [apply IH|done].
Qed.

Lemma runs_thread_attempt {A} (t : Thread A) w Q :
  runs (run os (attempt t)) w Q <-> runs (run os t) w (fun r w' => Q (Ok r) w').
Proof.
  unfold runs. revert w. induction t as [r|X c k' IH]; intros w; [done|].
  cbn. destruct (perform os c w) as [[b w']|]; [apply IH|done].
Qed.

Lemma runs_return {A} (r : result persist_error A) w Q : runs (run os (Return r)) w Q <-> Q r w.
Proof. done. Qed.
Lemma runs_ret_thread {A} (a : A) w Q : runs (run os (mret a)) w Q <-> Q (Ok a) w.
Proof. done. Qed.
Lemma runs_lift_thread {A} (r : result persist_error A) w Q : runs (run os (lift r)) w Q <-> Q r w.
Proof. done. Qed.
Lemma runs_fail_thread {A} e w (Q : result persist_error A -> World B -> Prop) : runs (run os (fail e)) w Q <-> Q (Err e) w.
Proof. done. Qed.
Lemma runs_ask {A} (q : question A) w Q : runs (run os (ask q)) w Q <-> Q (Ok (answer os (tick w) A q)) (ticked w).
Proof. done. Qed.
Lemma runs_sm {A} (f : SessionManager -> A) w Q : runs (run os (sm f)) w Q <-> Q (Ok (f (manager w))) (ticked w).
Proof. done. Qed.
Lemma runs_sm_update f w Q : runs (run os (sm_update f)) w Q <->
  Q (Ok tt) (mkWorld (f (manager w)) (metadata w) (backend w) (sent w) (wire w) (S (tick w))).
Proof. done. Qed.
Lemma runs_sm_call {A} (f : SessionManager -> A * SessionManager) w Q : runs (run os (sm_call f)) w Q <->
  Q (Ok (f (manager w)).1) (mkWorld (f (manager w)).2 (metadata w) (backend w) (sent w) (wire w) (S (tick w))).
Proof. unfold runs, sm_call. cbn. by destruct (f (manager w)). Qed.
Lemma runs_cached w Q : runs (run os cached) w Q <-> Q (Ok (inventory (backend w))) (ticked w).
Proof. done. Qed.
Lemma runs_send fd f w Q : runs (run os (send fd f)) w Q <->
  Q (Ok tt) (mkWorld (manager w) (metadata w) (backend w) (sent w ++ [(fd, f)])
    (wire w ++ [(fd, taken (takes os (tick w)) (ClientFrame.write_frame f))]) (S (tick w))).
Proof. done. Qed.
Lemma runs_write_byte fd b w Q : runs (run os (write_byte fd b)) w Q <->
  Q (Ok tt) (mkWorld (manager w) (metadata w) (backend w) (sent w)
    (wire w ++ [(fd, taken (takes os (tick w)) [b])]) (S (tick w))).
Proof. done. Qed.
Lemma runs_ms {A} (f : Db -> H A) w Q : runs (run os (ms f)) w Q <->
  runs (f (database os (tick w))) (metadata w) (fun r s => Q r (mkWorld (manager w) s (backend w) (sent w) (wire w) (S (tick w)))).
Proof. unfold runs, ms. cbn. by destruct (f _ _) as [[r s]|]. Qed.
Lemma runs_holder {A} (o : operation A) w Q : runs (run os (holder o)) w Q <->
  runs (operate A o) (backend w) (fun r b => Q r (mkWorld (manager w) (metadata w) b (sent w) (wire w) (S (tick w)))).
Proof. unfold runs, holder. cbn. by destruct (operate A o _) as [[r s]|]. Qed.
End running.

(** One step of a thread that runs alone. *)
Ltac thread_step := first
  [ rewrite runs_thread_bind | rewrite runs_thread_attempt | rewrite runs_return | rewrite runs_ret_thread
  | rewrite runs_lift_thread | rewrite runs_fail_thread | rewrite runs_ask | rewrite runs_sm_update | rewrite runs_sm_call
  | rewrite runs_sm | rewrite runs_cached | rewrite runs_send | rewrite runs_write_byte | rewrite runs_ms ].
Ltac thread := cbv beta iota zeta; repeat (thread_step; cbv beta iota zeta).

Section pools.
Context {B : Type} `{HolderService B} (os : Os).

(** An invariant kept by every call of every thread that may start holds in
    every reachable state. *)
Lemma pool_invariant (starts : Thread unit -> Prop) (P : World B -> Prop) :
  (forall t, starts t -> all_calls (fun A c => keeps os P c) t) ->
  forall w pool w', P w -> rtc (step os starts) ([], w) (pool, w') -> P w'.
Proof.
  intros Hs w pool w' Hw Hr.
  assert (Hpool : forall s s', rtc (step os starts) s s' -> P s.2 ->
    Forall (all_calls (fun A c => keeps os P c)) s.1 -> P s'.2 /\ Forall (all_calls (fun A c => keeps os P c)) s'.1).
  { induction 1 as [s|s1 s2 s3 Hst _ IH]; [done|]. intros HP Hf. apply IH; destruct Hst as [i p C c k w1 b w2 Hi Hp|p t w1 Ht]; cbn in *.
    - rewrite Forall_lookup in Hf. destruct (Hf i _ Hi) as [Hc _]. by eapply Hc.
    - done.
    - apply Forall_insert; [done|]. rewrite Forall_lookup in Hf. destruct (Hf i _ Hi) as [_ Hk]. apply Hk.
    - constructor; [by apply Hs|done]. }
  apply (Hpool _ _ Hr); [done|]. by constructor.
Qed.
End pools.

(** ** Monitors *)

(** A monitor follows a thread: in state [g] it permits some calls, and an
    event takes it to another state. *)
Record Monitor (G : Type) : Type := mkMonitor {
  permits : G -> forall A, call A -> Prop;
  after : G -> event -> G }.
Global Arguments permits {G} _ _ _ _.
Global Arguments after {G} _ _ _.

Section monitors.
Context {G : Type} (m : Monitor G).

(** Every call of [t] is permitted from [g], and the end is in [Q]. *)
Fixpoint watch {A} (g : G) (t : Thread A) (Q : result persist_error A -> G -> Prop) : Prop :=
  match t with
  | Return r => Q r g
  | Perform c k => permits m g _ c /\ forall b, watch (after m g (mkEvent c b)) (k b) Q
  end.

Lemma watch_mono {A} g (t : Thread A) (Q Q' : result persist_error A -> G -> Prop) :
  watch g t Q -> (forall r g', Q r g' -> Q' r g') -> watch g t Q'.
Proof.
  intros Ht HQ. revert g Ht. induction t as [r|X c k IH]; intros g; cbn; [apply HQ|].
  intros [Hc Ht]. split; [done|]. intros b. by apply IH.
Qed.

Lemma watch_bind {A C} g (t : Thread A) (k : A -> Thread C) Q :
  watch g (t ≫= k) Q <->
  watch g t (fun r g' => match r with Ok a => watch g' (k a) Q | Err e => Q (Err e) g' end).
Proof.
  revert g. induction t as [[a|e]|X c k' IH]; intros g; [done..|].
  cbn. split; intros [Hc Ht]; (split; [done|]); intros b; by apply IH.
Qed.

Lemma watch_attempt {A} g (t : Thread A) Q : watch g (attempt t) Q <-> watch g t (fun r g' => Q (Ok r) g').
Proof.
  revert g. induction t as [r|X c k' IH]; intros g; [done|].
  cbn. split; intros [Hc Ht]; (split; [done|]); intros b; by apply IH.
Qed.

(** Every result of [t] that is no error is in [P]. *)
Fixpoint yields {A} (P : A -> Prop) (t : Thread A) : Prop :=
  match t with
  | Return (Ok a) => P a
  | Return (Err _) => True
  | Perform c k => forall b, yields P (k b)
  end.

Lemma yields_bind {A C} (P : C -> Prop) (t : Thread A) (k : A -> Thread C) :
  (forall a, yields P (k a)) -> yields P (t ≫= k).
Proof. intros Hk. induction t as [[a|e]|X c k' IH]; cbn; [apply Hk|done|]. intros b. apply IH. Qed.

Lemma watch_yields {A} g (t : Thread A) P Q : watch g t Q -> yields P t ->
  watch g t (fun r g' => Q r g' /\ forall a, r = Ok a -> P a).
Proof.
  revert g. induction t as [[a|e]|X c k IH]; intros g; cbn; [by intros HQ HP; split; [|intros a' [= <-]]|done|].
  intros [Hc Ht] HP. split; [done|]. intros b. apply IH; [apply Ht|apply HP].
Qed.

(** What [watch] says of every trace. *)
Lemma watch_traces {A} g (t : Thread A) Q before e rest : watch g t Q -> traces t (before ++ e :: rest) ->
  permits m (foldl (after m) g before) _ (asked e).
Proof.
  revert g t. induction before as [|e' before IH]; intros g t Hw Ht; cbn in *.
  - inversion Ht; subst. by destruct Hw.
  - inversion Ht as [|C c k b l Hl]; subst. destruct Hw as [_ Hw]. cbn. by eapply IH.
Qed.
End monitors.

End Threads.

(** ** The backend implements the interface *)

Module BackendService.
Import Threads.

Section backend.
Context `{SnapshotJson} {W : Type} `{Sockets W}.
Context (uid pid : N) (fuel : nat).

Definition backend_operate (A : Type) (o : operation A) : M (HolderBackend.HolderRuntime * W) persist_error A :=
  match o in operation A return M (HolderBackend.HolderRuntime * W) persist_error A with
  | Create r => HolderBackend.create uid pid fuel r
  | Close id => HolderBackend.close id
  | GetExitContext id => HolderBackend.exit_context id
  | Retire id => HolderBackend.retire_exited uid pid fuel id
  | Kill id => HolderBackend.kill id
  | Attach id mode => HolderBackend.attach uid pid fuel id mode
  | Refresh => HolderBackend.refresh_inventory uid pid fuel
  | HasExited => s ← get; Effects.lift (has_exited s.2)
  | MarkUnavailable => HolderBackend.mark_unavailable
  | IsConnected => HolderBackend.is_connected
  end.

#[export] Instance backend_service : HolderService (HolderBackend.HolderRuntime * W) := {
  inventory := fun b => HolderBackend.cache b.1;
  operate := backend_operate }.

Context `{!SocketsLaws W}.

Lemma backend_same A (o : operation A) b : (N.to_nat u32_max < fuel)%nat -> HolderBackend.backend_ok b.1 ->
  runs (backend_operate A o) b (fun _ b' => HolderBackend.same_holder b.1 b'.1).
Proof.
  intros Hf Hb. destruct o; cbn [backend_operate].
  - apply HolderBackend.then_refresh; [done..|apply HolderClient.stays_create|by intros].
  - eapply runs_mono; [by apply HolderBackend.close_same|]. naive_solver.
  - eapply runs_mono; [by apply HolderBackend.exit_context_same|]. naive_solver.
  - apply HolderBackend.then_refresh; [done..|apply HolderClient.stays_operation|by intros].
  - apply HolderBackend.by_client_same; [done..|apply HolderClient.stays_operation|by intros].
  - by apply HolderBackend.attach_same.
  - apply HolderBackend.refresh_same; [done..|by intros].
  - run. by apply HolderBackend.same_holder_refl.
  - unfold HolderBackend.mark_unavailable, HolderBackend.set_connected, HolderBackend.set_cache, HolderBackend.me. by run.
  - unfold HolderBackend.is_connected. run. by apply HolderBackend.same_holder_refl.
Qed.

(** The fuel of an inventory: a page for each of the 2^32 session ids. *)
Context (enough : (N.to_nat u32_max < fuel)%nat).

#[export] Program Instance backend_laws : HolderServiceLaws (HolderBackend.HolderRuntime * W) := {
  sound b := HolderBackend.backend_ok b.1 }.
Next Obligation.
  intros A o b Hb. eapply runs_mono; [by apply backend_same|]. cbn beta. intros r b' (N1 & _ & N2 & _). split; [done|].
  cbn. destruct N1 as [_ N1]. destruct Hb as [_ Hb]. congruence.
Qed.
Next Obligation.
  intros id b Hb. eapply runs_mono; [by apply HolderBackend.close_same|]. naive_solver.
Qed.
Next Obligation.
  intros id b Hb. eapply runs_mono; [by apply HolderBackend.exit_context_same|]. naive_solver.
Qed.
End backend.
End BackendService.
