(* ===== verification/DaemonServer.v ===== *)
(** * DaemonServer: the handlers of the daemon.

    Models the operations of [SessionManager] that reach the holder or the
    system, [handle_client], [finalize_runtime_exit] and the periodic work of
    [run_foreground] in [crates/persistd/src/server.rs], as threads
    ([DaemonThreads.v]). *)
From S2P Require Import Prelude OrderedMap Bytes Utf8 Environment LaunchEnvironment HolderMessages HolderSession ShellState Effects ClientFrame ClientMessages Metadata Reconcile HolderClient HolderBackend Daemon DaemonThreads.
From stdpp Require Import sorting pretty.
From Stdlib Require Import Lia.
Import String.StringSyntax.
Import Environment(SnapshotJson, EnvironmentSnapshot, EnvironmentPolicy).
Import Inventory(HolderSessionEntry, Running, Exited).
Import Metadata(SessionRecord, MetadataStore, Db, H).
Import Reconcile(ExitContext, mkExit, x_session_id, x_exit_code, x_cwd, x_environment, HolderInventorySnapshot).
Import ClientFrame(Frame, MessageType).
Import AttachContext(ConnectionEnvironment, mkEnvironment).
Import Daemon(SessionManager, RecoveryContext, ClosedSession, mkContext, mkClosed, c_exit_code, c_recovery_context, c_holder_retire, r_cwd, r_environment).
Import Threads.
Local Open Scope N_scope.

Module DaemonServer.

#[local] Instance state_eq_dec : EqDecision Inventory.HolderSessionState.
Proof. solve_decision. Defined.

#[local] Existing Instances AttachContext.pair_le_dec ClientFrame.MessageType_eq_dec.

(** What [serde_json::json!] builds; an object is its fields, in order. *)
Inductive Json : Type :=
| Null | Bool (b : bool) | Number (n : Z) | Text (s : str)
| Empty | Field (name : String.string) (value rest : Json).
Global Arguments Field name%_string value rest.

Definition object (fields : list (String.string * Json)) : Json :=
  foldr (fun x rest => Field x.1 x.2 rest) Empty fields.

Section server.
Context `{SnapshotJson}.
(** [to_string] of an error, serde_json's text of a value, and its reading of
    a text that is one object of strings. *)
Context (show : persist_error -> str) (json_text : Json -> str) (entries_of : str -> option (list (str * str))).

Definition manager : Thread SessionManager := sm (fun s => s).

(** ** Operations of the manager *)

Definition recovery_environment_policy : Thread EnvironmentPolicy :=
  s ← manager; lift (Daemon.recovery_environment_policy (Daemon.recovery_environment s)).

Definition holder_binding : Thread (str * N) :=
  snapshot ← cached; mret (Reconcile.instance_hex snapshot, Reconcile.generation snapshot).

Definition holder_entry (id : N) : Thread (option HolderSessionEntry) :=
  s ← manager;
  snapshot ← cached;
  mret (Daemon.holder_entry id (Reconcile.entries snapshot) s).

Definition has_runtime (id : N) : Thread bool :=
  entry ← holder_entry id; mret (match entry with Some _ => true | None => false end).

Definition record_activity (id : N) : Thread unit :=
  now ← ask Now; sm_update (Daemon.record_activity id now).

Definition create_shell_identity (id : N) : Thread ShellState.ShellStateIdentity :=
  s ← manager; identity ← ask (ShellIdentity (Daemon.runtime_dir s) id); lift identity.

Definition prepare_directories (operation : String.string) : Thread unit :=
  prepared ← ask (PrepareDirectories operation); lift prepared.

Definition holder_create_request (id : N) (shell : str) (cwd : option str) (environment : list (str * str))
    (environment_unset : list str) (connection_env : ConnectionEnvironment) : Thread Session.CreateSessionRequest :=
  s ← manager;
  let history_file := Daemon.join (Daemon.history_dir s) (Daemon.decimal id) in
  _ ← prepare_directories "create holder history directory";
  _ ← (if Daemon.session_log_enabled s then
         _ ← prepare_directories "create Holder session log directory";
         prepare_directories "set Holder session log directory permissions"
       else mret tt);
  identity ← create_shell_identity id;
  prepared ← ask (ShellLaunch shell id identity);
  launch ← lift prepared;
  let arguments := match launch with Some (arguments, _) => arguments | None => [] end in
  let private := match launch with Some (_, environment) => environment | None => [] end in
  launch_environment ← lift (LaunchEnvironment.new environment environment_unset
    (AttachContext.iter connection_env) private);
  if u32_max <? Daemon.ring_buffer_size s then fail (InvalidArgument "ring buffer exceeds holder limit")
  else mret (Session.mkCreate id shell arguments cwd launch_environment (Some history_file)
    (Daemon.ring_buffer_size s)
    (if Daemon.session_log_enabled s
     then Some (Daemon.join (Daemon.logs_dir s) (Daemon.decimal id ++ lit ".log")) else None)
    (ShellState.state_file identity) (ShellState.id_incarnation identity)).

(** [self.next_id += 1] wraps in a release build. *)
Definition take_id : Thread N :=
  sm_call (fun s => (Daemon.next_id s, Daemon.set_next_id ((Daemon.next_id s + 1) mod 2 ^ 32) s)).

Definition create_with_shell (shell : option str) : Thread N :=
  id ← take_id;
  selected_shell ← match shell with Some shell => mret shell | None => ask DetectShell end;
  request ← holder_create_request id selected_shell None [] [] (mkEnvironment ∅);
  _ ← holder (Create request);
  current_dir ← ask CurrentDir;
  let name := Daemon.generate_session_name selected_shell current_dir in
  _ ← sm_update (Daemon.set_session_info <[id := Daemon.mkInfo name (Some selected_shell)]>);
  _ ← record_activity id;
  mret id.

Definition create : Thread N := shell ← ask DetectShell; create_with_shell (Some shell).

Definition saved_set (environment : option EnvironmentSnapshot) : list (str * str) :=
  match environment with
  | Some s => merge_sort AttachContext.pair_le (map_to_list (Environment.env_set s))
  | None => []
  end.
Definition saved_unset (environment : option EnvironmentSnapshot) : list str :=
  match environment with Some s => merge_sort str_le (elements (Environment.env_unset s)) | None => [] end.

Definition restore_closed_session (id : N) (name : str) (shell cwd : option str)
    (environment : option EnvironmentSnapshot) (connection_env : ConnectionEnvironment) : Thread unit :=
  running ← has_runtime id;
  if running : bool then fail (InvalidArgument "session is already running")
  else
    selected_shell ← match shell with Some shell => mret shell | None => ask DetectShell end;
    request ← holder_create_request id selected_shell cwd (saved_set environment) (saved_unset environment)
      connection_env;
    _ ← holder (Create request);
    _ ← sm_update (fun s => Daemon.set_next_id (N.max (Daemon.next_id s) (N.min (id + 1) u32_max)) s);
    _ ← sm_update (Daemon.set_session_info <[id := Daemon.mkInfo name (Some selected_shell)]>);
    record_activity id.

Definition kill_session (id : N) : Thread unit :=
  entry ← holder_entry id;
  match entry with Some _ => holder (Kill id) | None => mret tt end.

(** [capture_recovery_context_pid] *)
Definition capture (pid : N) (policy : EnvironmentPolicy) : Thread RecoveryContext :=
  dir ← ask (ProcCwd pid);
  raw ← ask (ProcEnviron pid);
  mret (Daemon.capture_recovery_context_pid policy dir raw).

Definition exit_of (id : N) (entry : HolderSessionEntry) (observed_exit : option ExitContext) : Thread ExitContext :=
  match observed_exit with
  | Some context =>
      if x_session_id context =? id then mret context
      else fail (InvalidArgument "observed Holder exit context has wrong session")
  | None =>
      if bool_decide (Inventory.state entry = Exited) then
        if Inventory.exit_context_available entry then holder (GetExitContext id)
        else
          exit_code ← lift (ok_or (Inventory.exit_code entry)
            (InvalidArgument "exited Holder session is missing exit code"));
          mret (mkExit id exit_code None None)
      else holder (Close id)
  end.

Definition prepare_close (id : N) (observed_exit : option ExitContext) : Thread (option ClosedSession) :=
  entry ← holder_entry id;
  match entry with
  | None => mret None
  | Some entry =>
      policy ← recovery_environment_policy;
      direct_context ← capture (Inventory.shell_pid entry) policy;
      stored_context ← sm (fun s => Daemon.recovery_contexts s !! id);
      context ← exit_of id entry observed_exit;
      let side_context := mkContext (x_cwd context)
        (x_environment context ≫= fun snapshot =>
           match Environment.filter_snapshot policy snapshot with Ok s => Some s | Err _ => None end) in
      mret (Some (mkClosed (x_exit_code context)
        (Daemon.merge_with_fallback side_context
           (Some (Daemon.merge_with_fallback direct_context stored_context))) true))
  end.

Definition finish_close (id : N) : Thread unit := sm_update (Daemon.finish_close id).

Definition close_session (id : N) : Thread (option ClosedSession) :=
  closed ← prepare_close id None;
  match closed with
  | Some c =>
      _ ← (if c_holder_retire c then holder (Retire id) else mret tt);
      _ ← finish_close id;
      mret closed
  | None => mret closed
  end.

Definition metadata_then_retire (persist_metadata retire_holder : Thread unit) : Thread unit :=
  _ ← persist_metadata; retire_holder.

Definition encoded_environment (context : RecoveryContext) : Thread (option str) :=
  match r_environment context with
  | None => mret None
  | Some snapshot =>
      policy ← attempt recovery_environment_policy;
      mret match policy with
      | Ok policy => match Reconcile.encode_environment snapshot policy with Ok t => Some t | Err _ => None end
      | Err _ => None
      end
  end.

Definition finalize_runtime_exit (id : N) (observed_exit : option ExitContext) : Thread unit :=
  found ← prepare_close id observed_exit;
  closed ← lift (ok_or found (InvalidArgument "session not found"));
  environment ← encoded_environment (c_recovery_context closed);
  _ ← metadata_then_retire
    (ms (fun db => Metadata.close_session_with_context db id (c_exit_code closed)
       (r_cwd (c_recovery_context closed)) environment))
    (if c_holder_retire closed then holder (Retire id) else mret tt);
  finish_close id.

(** ** Messages *)

(** [write_frame(stream, &Frame { .. })], whose result is ignored. *)
Definition respond (fd : N) (kind : MessageType) (payload : bytes) : Thread unit :=
  send fd (ClientFrame.mkFrame kind 0 0 payload).

Definition op_resp (fd : N) (kind : MessageType) (result : result persist_error unit) : Thread unit :=
  respond fd kind match result with
  | Ok _ => ClientMessages.encode_op_resp true []
  | Err e => ClientMessages.encode_op_resp false (show e)
  end.

(** [.ok().flatten()] and [.unwrap_or_default()] of a query *)
Definition get_session (id : N) : Thread (option SessionRecord) :=
  found ← attempt (ms (fun db => Metadata.get_session db id));
  mret match found with Ok r => r | Err _ => None end.
Definition is_locked (r : option SessionRecord) : bool := match r with Some r => Metadata.locked r | None => false end.
Definition is_pinned (r : option SessionRecord) : bool := match r with Some r => Metadata.pinned r | None => false end.
Definition tags_of (id : N) : Thread (list str) :=
  found ← attempt (ms (fun db => Metadata.list_session_tags db id));
  mret match found with Ok tags => tags | Err _ => [] end.
Definition has_tags (id : N) : Thread bool :=
  tags ← tags_of id; mret (negb (bool_decide (tags = []))).

Definition handle_hello (fd : N) : Thread unit :=
  pid ← ask Pid;
  respond fd ClientFrame.HelloAck (ClientMessages.encode_hello_ack
    (ClientMessages.mkHelloAck 0 ClientFrame.ATTACH_CONTEXT_PROTOCOL_MINOR pid ClientMessages.Accepted)).

Definition create_bound : Thread (N * str * option str * (str * N)) :=
  id ← create;
  name ← sm (Daemon.session_name id);
  shell ← sm (Daemon.session_shell id);
  binding ← holder_binding;
  mret (id, default [] name, shell, binding).

Definition new_session : Thread (N * str) :=
  created ← attempt create_bound;
  match created with
  | Ok (id, name, shell, (instance, generation)) =>
      cwd ← ask CurrentDir;
      metadata_result ← attempt (
        _ ← ms (fun db => Metadata.create_session db id name cwd shell);
        ms (fun db => Metadata.reconcile_running db id instance generation));
      match metadata_result with
      | Ok _ => mret (id, name)
      | Err _ => _ ← attempt (close_session id); mret (0, [])
      end
  | Err _ => mret (0, [])
  end.

Definition handle_new_session (fd : N) : Thread unit :=
  created ← new_session;
  respond fd ClientFrame.NewSessionResp (ClientMessages.encode_new_session_resp created.1 created.2).

(** *** Lists *)

Definition has_note (note : option str) : bool :=
  match note with Some n => negb (bool_decide (n = [])) | None => false end.

Definition runtime_entry (runtime : HolderSessionEntry) : Thread ClientMessages.SessionEntry :=
  let id := Inventory.session_id runtime in
  s ← manager;
  record ← get_session id;
  tagged ← has_tags id;
  identity ← ask (ProcIdentity (Inventory.shell_pid runtime));
  now ← ask Now;
  let status :=
    if Daemon.is_orphaned id s then "orphan"
    else if Daemon.is_attached id s then "attached"
    else if bool_decide (Inventory.state runtime = Running) then "running" else "closed" in
  mret (ClientMessages.mkEntry id
    (default (match record with Some r => Metadata.name r | None => lit "session-" ++ Daemon.decimal id end)
       (Daemon.session_name id s))
    (lit status) (Inventory.exit_code runtime) (record ≫= Metadata.closed_at)
    (has_note (record ≫= Metadata.note)) tagged (is_pinned record) (is_locked record)
    (Daemon.idle_string id now s)
    (if bool_decide (identity.1 = []) then None else Some (Inventory.shell_pid runtime)) identity.1 identity.2).

(** [sessions] is the list so far: an id is listed once. *)
Fixpoint runtime_entries (l : list HolderSessionEntry) (sessions : list ClientMessages.SessionEntry)
  : Thread (list ClientMessages.SessionEntry) :=
  match l with
  | [] => mret sessions
  | runtime :: l' =>
      if existsb (fun e => ClientMessages.session_id e =? Inventory.session_id runtime) sessions
      then runtime_entries l' sessions
      else entry ← runtime_entry runtime; runtime_entries l' (sessions ++ [entry])
  end.

Definition is_ended (status : str) : bool := bool_decide (status = lit "closed") || bool_decide (status = lit "lost").

Definition closed_entry (r : SessionRecord) (tagged : bool) : ClientMessages.SessionEntry :=
  ClientMessages.mkEntry (Metadata.session_id r) (Metadata.name r) (Metadata.status r) (Metadata.exit_code r)
    (Metadata.closed_at r) (has_note (Metadata.note r)) tagged (Metadata.pinned r) (Metadata.locked r) [] None [] [].

Fixpoint closed_entries (l : list SessionRecord) (sessions : list ClientMessages.SessionEntry)
  : Thread (list ClientMessages.SessionEntry) :=
  match l with
  | [] => mret sessions
  | r :: l' =>
      tagged ← has_tags (Metadata.session_id r);
      closed_entries l' (sessions ++ [closed_entry r tagged])
  end.

Definition list_sessions : Thread (list ClientMessages.SessionEntry) :=
  snapshot ← cached;
  sessions ← runtime_entries (Reconcile.entries snapshot) [];
  records ← attempt (ms Metadata.list_sessions);
  let records := match records with Ok l => l | Err _ => [] end in
  closed_entries (filter (fun r => is_ended (Metadata.status r) = true /\
    Metadata.session_id r ∉ map ClientMessages.session_id sessions) records) sessions.

Definition handle_list_sessions (fd : N) : Thread unit :=
  sessions ← list_sessions;
  respond fd ClientFrame.ListSessionsResp (ClientMessages.encode_list_sessions_resp sessions).

Definition tagged_entry (record : SessionRecord) : Thread ClientMessages.SessionEntry :=
  let id := Metadata.session_id record in
  s ← manager;
  runtime ← holder_entry id;
  identity ← match runtime with Some e => ask (ProcIdentity (Inventory.shell_pid e)) | None => mret ([], []) end;
  now ← ask Now;
  let status :=
    if Daemon.is_attached id s then lit "attached"
    else match runtime with
    | Some e => if bool_decide (Inventory.state e = Running) then lit "running" else Metadata.status record
    | None => Metadata.status record
    end in
  mret (ClientMessages.mkEntry id (default (Metadata.name record) (Daemon.session_name id s)) status
    (Daemon.or_else (runtime ≫= Inventory.exit_code) (Metadata.exit_code record)) (Metadata.closed_at record)
    (has_note (Metadata.note record)) true (Metadata.pinned record) (Metadata.locked record)
    (Daemon.idle_string id now s)
    (if bool_decide (identity.1 = []) then None else Inventory.shell_pid <$> runtime) identity.1 identity.2).

Fixpoint collect {A C} (f : A -> Thread C) (l : list A) : Thread (list C) :=
  match l with
  | [] => mret []
  | x :: l' => y ← f x; ys ← collect f l'; mret (y :: ys)
  end.

Definition handle_list_sessions_by_tag (fd : N) (tag : str) : Thread unit :=
  found ← attempt (ms (fun db => Metadata.find_sessions_by_tag db tag));
  records ← collect get_session match found with Ok ids => ids | Err _ => [] end;
  sessions ← collect tagged_entry (omap id records);
  respond fd ClientFrame.ListSessionsResp (ClientMessages.encode_list_sessions_resp sessions).

(** *** Reports *)

Definition empty_process_stats : ClientMessages.ProcessStatsRespPayload := ClientMessages.mkStats None 0 0 0 0 0.

Definition handle_process_tree (fd id : N) : Thread unit :=
  entry ← holder_entry id;
  nodes ← match entry with Some e => ask (ProcTree (Inventory.shell_pid e)) | None => mret [] end;
  respond fd ClientFrame.ProcessTreeResp (ClientMessages.encode_process_tree_resp nodes).

Definition handle_process_stats (fd id : N) : Thread unit :=
  entry ← holder_entry id;
  stats ← match entry with Some e => ask (ProcStats (Inventory.shell_pid e)) | None => mret empty_process_stats end;
  respond fd ClientFrame.ProcessStatsResp (ClientMessages.encode_process_stats_resp stats).

Definition MAX_JSON_RESPONSE_BYTES : N := 16 * 1024.

Definition bounded_json (value error : Json) : str :=
  let json := json_text value in
  if lenN json <=? MAX_JSON_RESPONSE_BYTES then json else json_text error.

Definition snapshot_json (id : N) (value : Json) : str :=
  bounded_json value (object [("session_id"%string, Number (Z.of_N id)); ("error"%string, Text (lit "snapshot exceeds output limit"))]).

Definition metrics_json (value : Json) : str :=
  bounded_json value (object [("error"%string, Text (lit "metrics exceeds output limit"))]).

Definition optional {A} (f : A -> Json) (o : option A) : Json := match o with Some a => f a | None => Null end.
Definition number (n : N) : Json := Number (Z.of_N n).

(** [runtime_process_info] *)
Definition runtime_process_info (id : N) : Thread (option (option N * str * str)) :=
  entry ← holder_entry id;
  match entry with
  | None => mret None
  | Some e =>
      identity ← ask (ProcIdentity (Inventory.shell_pid e));
      mret (Some (if bool_decide (identity.1 = []) then None else Some (Inventory.shell_pid e), identity.1, identity.2))
  end.

Definition snapshot_value (r : SessionRecord) (tagged writer_active : bool) (log_path : option str)
    (log_state : str) (runtime : option (option N * str * str)) : Json :=
  object [
    ("session_id", number (Metadata.session_id r)); ("name", Text (Metadata.name r));
    ("status", Text (Metadata.status r)); ("created_at", Text (Metadata.created_at r));
    ("updated_at", Text (Metadata.updated_at r)); ("closed_at", optional Text (Metadata.closed_at r));
    ("cwd", optional Text (Metadata.cwd r)); ("shell", optional Text (Metadata.shell r));
    ("exit_code", optional Number (Metadata.exit_code r)); ("locked", Bool (Metadata.locked r));
    ("pinned", Bool (Metadata.pinned r)); ("has_note", Bool (match Metadata.note r with Some _ => true | None => false end));
    ("has_tags", Bool tagged); ("writer_active", Bool writer_active);
    ("output_log_path", optional Text log_path); ("output_log_state", Text log_state);
    ("foreground_pid", optional number (runtime ≫= fun x => x.1.1));
    ("foreground_name", optional Text (snd ∘ fst <$> runtime));
    ("foreground_cmd", optional Text (snd <$> runtime)) ]%string.

Definition handle_session_snapshot (fd id : N) : Thread unit :=
  record ← get_session id;
  tagged ← match record with Some _ => has_tags id | None => mret false end;
  runtime ← runtime_process_info id;
  s ← manager;
  snapshot ← cached;
  let log_path := if Daemon.session_log_enabled s
    then Some (Daemon.join (Daemon.logs_dir s) (Daemon.decimal id ++ lit ".log")) else None in
  respond fd ClientFrame.SessionSnapshotResp (ClientMessages.encode_note_get_resp
    match record with
    | Some r => snapshot_json id (snapshot_value r tagged (Daemon.is_attached id s) log_path
        (Daemon.output_log_state id (Reconcile.entries snapshot) s) runtime)
    | None => json_text (object [("session_id"%string, number id); ("error"%string, Text (lit "session not found"))])
    end).

Definition count (P : SessionRecord -> bool) (l : list SessionRecord) : Json :=
  number (lenN (filter (fun r => P r = true) l)).

Definition metrics_value (pid : N) (diagnostics : Json) (records : list SessionRecord)
    (runtime : list HolderSessionEntry) (s : SessionManager) : Json :=
  let with_status st r := bool_decide (Metadata.status r = lit st) in
  object [
    ("daemon", object [("pid", number pid)]);
    ("holder", diagnostics);
    ("sessions", object [
       ("total", number (lenN records)); ("running", count (with_status "running") records);
       ("closed", count (with_status "closed") records); ("lost", count (with_status "lost") records);
       ("locked", count Metadata.locked records); ("pinned", count Metadata.pinned records);
       ("runtime", number (lenN (Daemon.runtime_ids runtime s)));
       ("active_writers", number (Daemon.active_writer_count runtime s));
       ("readonly_clients", number (Daemon.readonly_client_count s));
       ("log_degraded", number (Daemon.degraded_log_count runtime s)) ]) ]%string.

(** [holder_pid] is the process id of the holder. *)
Definition holder_diagnostics (holder_pid : N) : Thread Json :=
  snapshot ← cached;
  connected ← attempt (holder IsConnected);
  mret (object [
    ("pid", number holder_pid); ("instance", Text (Reconcile.instance_hex snapshot));
    ("connected", Bool (match connected with Ok b => b | Err _ => false end)) ]%string).

Definition handle_metrics (holder_pid fd : N) : Thread unit :=
  records ← attempt (ms Metadata.list_sessions);
  json ← match records with
    | Ok records =>
        pid ← ask Pid;
        diagnostics ← holder_diagnostics holder_pid;
        s ← manager;
        snapshot ← cached;
        mret (metrics_json (metrics_value pid diagnostics records (Reconcile.entries snapshot) s))
    | Err _ => mret (json_text (object [("error"%string, Text (lit "metadata store not available"))]))
    end;
  respond fd ClientFrame.MetricsResp (ClientMessages.encode_note_get_resp json).

(** The dashboard service answers, or stands in, for itself. *)
Definition handle_dashboard (fd : N) (kind : MessageType) (frame : Frame) : Thread unit :=
  response ← ask (Dashboard frame);
  send fd (ClientFrame.mkFrame kind 0 (ClientFrame.request_id frame) response).

(** *** Attaching *)

Definition valid_agent_socket (path : str) : Thread bool :=
  if Path.is_absolute path then ask (AgentSocket path) else mret false.

Definition keep_variable (variable : str * str) : Thread bool :=
  if bool_decide (variable.1 = lit "SSH_AUTH_SOCK") then valid_agent_socket variable.2 else mret true.

Definition validate_connection_environment (context : ConnectionEnvironment) : Thread ConnectionEnvironment :=
  let variables := AttachContext.iter context in
  kept ← collect keep_variable variables;
  mret (default (mkEnvironment ∅)
    (AttachContext.from_pairs (omap (fun x : _ * bool => if x.2 then Some x.1 else None) (zip variables kept)))).

Definition closed_attach_history (id : N) : Thread bytes :=
  s ← manager;
  if negb (Daemon.replay_on_attach s) || negb (Daemon.session_log_enabled s) || (Daemon.replay_bytes s =? 0)
  then mret []
  else history ← ask (RotatedTail id); mret match history with Ok h => h | Err _ => [] end.

Definition observe (id : N) (policy : EnvironmentPolicy) : Thread unit :=
  entry ← holder_entry id;
  match entry with
  | Some entry =>
      context ← capture (Inventory.shell_pid entry) policy;
      sm_update (Daemon.record_recovery_context id context)
  | None => mret tt
  end.

(** The callback of the proxy. *)
Definition observe_context (id : N) : Thread unit :=
  policy ← attempt recovery_environment_policy;
  match policy with Ok policy => observe id policy | Err _ => mret tt end.

Definition restore (record : SessionRecord) (id : N) (connection_env : ConnectionEnvironment) : Thread unit :=
  policy ← recovery_environment_policy;
  environment ← lift (Daemon.decode_environment entries_of (Metadata.env_snapshot record) policy);
  restore_closed_session id (Metadata.name record) (Metadata.shell record) (Metadata.cwd record) environment
    connection_env.

Definition reopen (id : N) : Thread unit :=
  binding ← holder_binding;
  _ ← ms (fun db => Metadata.reopen_session db id);
  ms (fun db => Metadata.reconcile_running db id binding.1 binding.2).

(** The output shown before the session's own: that of a closed session that
    the request starts again. *)
Definition reopen_closed (record : SessionRecord) (id : N) (connection_env : ConnectionEnvironment) : Thread bytes :=
  history ← closed_attach_history id;
  restored ← attempt (restore record id connection_env);
  match restored with
  | Ok _ =>
      metadata_result ← attempt (reopen id);
      match metadata_result with
      | Ok _ => mret history
      | Err _ => _ ← attempt (close_session id); mret history
      end
  | Err _ => mret []
  end.

Definition attach_resp (fd : N) (locked : bool) (data : result persist_error (option HolderBackend.HolderDataConnection))
  : Thread unit :=
  let error_msg := match data with Ok (Some _) => [] | Ok None => lit "not found" | Err e => show e end in
  respond fd ClientFrame.AttachResp (ClientMessages.encode_attach_resp
    (match data with Ok (Some _) => true | _ => false end) (if locked then lit "session is locked" else error_msg)).

(** [exists.then(|| holder.attach(..)).transpose()] *)
Definition attach_data (exists' : bool) (id : N) (mode : Session.HolderAttachMode)
  : Thread (result persist_error (option HolderBackend.HolderDataConnection)) :=
  if exists' then attempt (data ← holder (Attach id mode); mret (Some data)) else mret (Ok None).

(** What follows the end of the proxy. *)
Definition after_proxy (id : N) (outcome : option ExitContext) : Thread unit :=
  match outcome with
  | Some context => _ ← attempt (finalize_runtime_exit id (Some context)); mret tt
  | None => _ ← attempt (holder Refresh); mret tt
  end.

(** While a client holds the seat of a session. *)
Definition serve_writer (fd id : N) (data : HolderBackend.HolderDataConnection) (initial_output : bytes) : Thread unit :=
  _ ← holder Refresh;
  _ ← record_activity id;
  _ ← sm_update (Daemon.transfer_writer id fd);
  policy ← recovery_environment_policy;
  _ ← observe id policy;
  ended ← ask (Proxy fd id data initial_output true);
  _ ← repeat_thread ended.1 (observe_context id);
  outcome ← lift ended.2;
  _ ← sm_call (Daemon.release_writer id fd);
  after_proxy id outcome.

Definition handle_attach (fd : N) (payload : AttachContext.DecodedAttachPayload) : Thread unit :=
  let id := AttachContext.session_id payload in
  connection_env ← validate_connection_environment (AttachContext.connection_env payload);
  record ← get_session id;
  let locked := is_locked record in
  runtime_exists ← has_runtime id;
  initial_output ← match record with
    | Some r =>
        if negb locked && negb runtime_exists && bool_decide (Metadata.status r = lit "closed")
        then reopen_closed r id connection_env else mret []
    | None => mret []
    end;
  exists' ← (if locked then mret false else has_runtime id);
  data ← attach_data exists' id Session.ReadWrite;
  _ ← attach_resp fd locked data;
  match data with
  | Ok (Some data) => serve_writer fd id data initial_output
  | _ => mret tt
  end.

Definition serve_reader (fd id : N) (data : HolderBackend.HolderDataConnection) : Thread unit :=
  _ ← sm_update (Daemon.add_ro_client id fd);
  ended ← ask (Proxy fd id data [] false);
  outcome ← lift ended.2;
  _ ← sm_update (Daemon.remove_ro_client id fd);
  after_proxy id outcome.

Definition handle_attach_read_only (fd : N) (payload : AttachContext.DecodedAttachPayload) : Thread unit :=
  let id := AttachContext.session_id payload in
  _ ← validate_connection_environment (AttachContext.connection_env payload);
  record ← get_session id;
  let locked := is_locked record in
  exists' ← (if locked then mret false else has_runtime id);
  data ← attach_data exists' id Session.ReadOnly;
  _ ← attach_resp fd locked data;
  match data with
  | Ok (Some data) => serve_reader fd id data
  | _ => mret tt
  end.

(** *** Changes of a session *)

Definition handle_rename (fd id : N) (name : str) : Thread unit :=
  result ← attempt (
    _ ← lift (Daemon.validate_session_name name);
    known ← sm (Daemon.session_name id);
    _ ← lift (ok_or known (InvalidArgument "session not found"));
    _ ← ms (fun db => Metadata.rename_session db id name);
    renamed ← sm_call (Daemon.rename_session id name);
    lift renamed);
  op_resp fd ClientFrame.RenameResp result.

Definition handle_note_set (fd id : N) (note : str) : Thread unit :=
  result ← attempt (ms (fun db => Metadata.set_session_note db id (if bool_decide (note = []) then None else Some note)));
  op_resp fd ClientFrame.NoteSetResp result.

Definition handle_note_get (fd id : N) : Thread unit :=
  record ← get_session id;
  respond fd ClientFrame.NoteGetResp (ClientMessages.encode_note_get_resp (default [] (record ≫= Metadata.note))).

(** [foreign_keys] is a setting of the database connection. *)
Definition handle_tag_add (foreign_keys : bool) (fd id : N) (tag : str) : Thread unit :=
  result ← attempt (ms (fun db => Metadata.add_session_tag foreign_keys db id tag));
  op_resp fd ClientFrame.TagAddResp result.

Definition handle_tag_remove (fd id : N) (tag : str) : Thread unit :=
  result ← attempt (ms (fun db => Metadata.remove_session_tag db id tag));
  op_resp fd ClientFrame.TagRemoveResp result.

Definition handle_tag_list (fd id : N) : Thread unit :=
  tags ← tags_of id;
  respond fd ClientFrame.TagListResp (ClientMessages.encode_tag_list_resp tags).

Definition handle_pin_set (fd id : N) (pinned : bool) : Thread unit :=
  result ← attempt (ms (fun db => Metadata.set_session_pinned db id pinned));
  op_resp fd ClientFrame.PinSetResp result.

Definition handle_lock_set (fd id : N) (locked : bool) : Thread unit :=
  result ← attempt (ms (fun db => Metadata.set_session_locked db id locked));
  _ ← (if is_ok result then sm_update (Daemon.set_locked id locked) else mret tt);
  op_resp fd ClientFrame.LockSetResp result.

Definition handle_close (fd id : N) : Thread unit :=
  result ← attempt (finalize_runtime_exit id None);
  op_resp fd ClientFrame.CloseResp result.

Definition kill_and_finalize (id : N) : Thread unit := _ ← kill_session id; finalize_runtime_exit id None.

Definition handle_kill (fd id : N) : Thread unit :=
  record ← get_session id;
  result ← attempt (if is_locked record then fail (InvalidArgument "session is locked") else kill_and_finalize id);
  op_resp fd ClientFrame.KillResp result.

(** *** Signals and detaching *)

Definition handle_detach (fd : N) (payload : option N) : Thread unit :=
  match payload with
  | Some id => _ ← sm_call (Daemon.release_writer id fd); mret tt
  | None => mret tt
  end.

Definition handle_detach_signal (fd id : N) : Thread unit :=
  writer ← sm (fun s => Daemon.attached_sessions s !! id);
  _ ← match writer with Some writer => write_byte writer (byte_of 1) | None => mret tt end;
  respond fd ClientFrame.DetachSignalResp (ClientMessages.encode_op_resp true []).

Definition handle_signal (fd : N) : Thread unit :=
  respond fd ClientFrame.SignalResp (ClientMessages.encode_op_resp false (lit "no foreground process group")).

(** ** The loop of a client *)

Context (holder_pid : N) (foreign_keys : bool).

(** [if let Some(payload) = decode(..)] *)
Definition decoded {A} (payload : option A) (f : A -> Thread unit) : Thread unit :=
  match payload with Some a => f a | None => mret tt end.

Definition handle_frame (fd : N) (frame : Frame) : Thread unit :=
  let payload := ClientFrame.payload frame in
  let detached := ClientMessages.decode_detach payload in
  match ClientFrame.msg_type frame with
  | ClientFrame.Hello => handle_hello fd
  | ClientFrame.NewSession => handle_new_session fd
  | ClientFrame.ListSessions => handle_list_sessions fd
  | ClientFrame.ProcessTree => decoded detached (handle_process_tree fd)
  | ClientFrame.ProcessStats => decoded detached (handle_process_stats fd)
  | ClientFrame.SessionSnapshot => decoded detached (handle_session_snapshot fd)
  | ClientFrame.Metrics => handle_metrics holder_pid fd
  | ClientFrame.DashboardSummary => handle_dashboard fd ClientFrame.DashboardSummaryResp frame
  | ClientFrame.DashboardTrend => handle_dashboard fd ClientFrame.DashboardTrendResp frame
  | ClientFrame.Attach => decoded (AttachContext.decode_attach payload) (handle_attach fd)
  | ClientFrame.AttachReadOnly => decoded (AttachContext.decode_attach payload) (handle_attach_read_only fd)
  | ClientFrame.Detach => handle_detach fd detached
  | ClientFrame.DetachSignal => decoded detached (handle_detach_signal fd)
  | ClientFrame.Signal => decoded (ClientMessages.decode_signal payload) (fun _ => handle_signal fd)
  | ClientFrame.Rename => decoded (ClientMessages.decode_rename payload) (fun x => handle_rename fd x.1 x.2)
  | ClientFrame.NoteSet => decoded (ClientMessages.decode_note payload) (fun x => handle_note_set fd x.1 x.2)
  | ClientFrame.NoteGet => decoded detached (handle_note_get fd)
  | ClientFrame.TagAdd => decoded (ClientMessages.decode_tag payload) (fun x => handle_tag_add foreign_keys fd x.1 x.2)
  | ClientFrame.TagRemove => decoded (ClientMessages.decode_tag payload) (fun x => handle_tag_remove fd x.1 x.2)
  | ClientFrame.TagList => decoded detached (handle_tag_list fd)
  | ClientFrame.PinSet => decoded (ClientMessages.decode_pin payload) (fun x => handle_pin_set fd x.1 x.2)
  | ClientFrame.LockSet => decoded (ClientMessages.decode_lock payload) (fun x => handle_lock_set fd x.1 x.2)
  | ClientFrame.ListSessionsByTag => decoded (ClientMessages.decode_note_get_resp payload) (handle_list_sessions_by_tag fd)
  | ClientFrame.Close => decoded detached (handle_close fd)
  | ClientFrame.Kill => decoded detached (handle_kill fd)
  | ClientFrame.Ping => send fd (ClientFrame.mkFrame ClientFrame.Pong 0 (ClientFrame.request_id frame) [])
  | _ => mret tt
  end.

(** [while let Ok(Some(frame)) = acc.try_read()]; a [Detach] leaves this loop,
    not the connection.  A frame has at least 12 bytes, so a round for each
    byte is enough. *)
Fixpoint handle_frames (fuel : nat) (fd : N) (acc : ClientFrame.FrameAccumulator) : Thread ClientFrame.FrameAccumulator :=
  match fuel with
  | O => mret acc
  | S fuel' =>
      match ClientFrame.try_read acc with
      | Ok (Some frame, acc') =>
          _ ← handle_frame fd frame;
          if bool_decide (ClientFrame.msg_type frame = ClientFrame.Detach) then mret acc'
          else handle_frames fuel' fd acc'
      | _ => mret acc
      end
  end.

(** [reads] is what each read of the connection gives, until it fails. *)
Fixpoint client_loop (fd : N) (acc : ClientFrame.FrameAccumulator) (reads : list bytes) : Thread unit :=
  match reads with
  | [] => mret tt
  | chunk :: reads' =>
      let fed := ClientFrame.feed acc chunk in
      acc ← handle_frames (S (length (ClientFrame.buf fed))) fd fed;
      client_loop fd acc reads'
  end.

Definition handle_client (fd : N) (reads : list bytes) : Thread unit := client_loop fd ClientFrame.new reads.

(** ** Periodic work *)

(** [gc_candidates] on one session of [runtime_ids]; [pinned] is the query of
    the metadata. *)
Definition gc_candidate (id now : N) (pinned : Thread bool) : Thread bool :=
  s ← manager;
  if Daemon.is_attached id s then mret false
  else
    is_pinned ← pinned;
    mret (negb is_pinned && negb (bool_decide (id ∈ Daemon.locked_sessions s)) && Daemon.idle id now s).

Definition gc_candidates : Thread (list N) :=
  s ← manager;
  if Daemon.gc_idle_timeout s =? 0 then mret []
  else
    now ← ask Now;
    snapshot ← cached;
    let ids := Daemon.runtime_ids (Reconcile.entries snapshot) s in
    kept ← collect (fun id => gc_candidate id now (record ← get_session id; mret (is_pinned record))) ids;
    mret (omap (fun x : N * bool => if x.2 then Some x.1 else None) (zip ids kept)).

(** The collection in [run_foreground]: the sessions removed. *)
Definition collect_garbage : Thread (list N) :=
  candidates ← gc_candidates;
  removed ← collect (fun id => done ← attempt (kill_and_finalize id); mret (is_ok done)) candidates;
  mret (omap (fun x : N * bool => if x.2 then Some x.1 else None) (zip candidates removed)).

(** The missing working directory and context of one session that ended. *)
Definition add_exit_context (contexts : gmap N ExitContext) (entry : HolderSessionEntry) : Thread (gmap N ExitContext) :=
  let id := Inventory.session_id entry in
  fallback ← ask (ProcCwd (Inventory.shell_pid entry));
  match contexts !! id with
  | Some context =>
      mret match x_cwd context with
      | None => <[id := mkExit (x_session_id context) (x_exit_code context) fallback (x_environment context)]> contexts
      | Some _ => contexts
      end
  | None =>
      exit_code ← lift (ok_or (Inventory.exit_code entry) (InvalidArgument "exited Holder session is missing exit code"));
      mret (<[id := mkExit id exit_code fallback None]> contexts)
  end.

Fixpoint fold_thread {A C} (f : C -> A -> Thread C) (c : C) (l : list A) : Thread C :=
  match l with [] => mret c | x :: l' => c' ← f c x; fold_thread f c' l' end.

(** [HolderRuntime::exit_contexts] *)
Definition exit_contexts (snapshot : HolderInventorySnapshot) : Thread (gmap N ExitContext) :=
  fold_thread (fun contexts entry =>
    context ← holder (GetExitContext (Inventory.session_id entry));
    mret (<[Inventory.session_id entry := context]> contexts)) ∅
    (filter (fun e => Inventory.exit_context_available e = true) (Reconcile.entries snapshot)).

Definition collect_exit_contexts (snapshot : HolderInventorySnapshot) : Thread (gmap N ExitContext) :=
  contexts ← exit_contexts snapshot;
  fold_thread add_exit_context contexts
    (filter (fun e => Inventory.state e = Exited) (Reconcile.entries snapshot)).

(** [reconcile_metadata] under the lock of the metadata: one call.  [order] is
    the order of a [HashMap]. *)
Definition reconcile (order : list SessionRecord -> list SessionRecord) (policy : EnvironmentPolicy)
    (snapshot : HolderInventorySnapshot) (contexts : gmap N ExitContext) : Thread Reconcile.ReconciliationResult :=
  ms (fun db => Reconcile.reconcile_metadata policy snapshot contexts (fun _ => db) db order).

Definition refresh_and_reconcile (order : list SessionRecord -> list SessionRecord) (policy : EnvironmentPolicy)
  : Thread Reconcile.ReconciliationResult :=
  _ ← holder Refresh;
  snapshot ← cached;
  contexts ← collect_exit_contexts snapshot;
  reconcile order policy snapshot contexts.

Definition retire_ended (id : N) : Thread unit :=
  retired ← attempt (holder (Retire id));
  match retired with Ok _ => finish_close id | Err _ => mret tt end.

(** The periodic refresh; the answer is whether the holder is lost. *)
Definition refresh (order : list SessionRecord -> list SessionRecord) (policy : EnvironmentPolicy) : Thread bool :=
  refreshed ← attempt (refresh_and_reconcile order policy);
  match refreshed with
  | Ok reconciliation =>
      _ ← sm_update (Daemon.set_orphaned_sessions (Reconcile.orphaned_sessions reconciliation));
      _ ← each retire_ended (Reconcile.exited_sessions reconciliation);
      mret false
  | Err _ =>
      exited ← attempt (holder HasExited);
      if match exited with Ok b => b | Err _ => false end then
        snapshot ← holder MarkUnavailable;
        reconciled ← attempt (reconcile order policy snapshot ∅);
        match reconciled with
        | Ok reconciliation =>
            _ ← sm_update (Daemon.set_orphaned_sessions (Reconcile.orphaned_sessions reconciliation));
            mret true
        | Err _ => mret false
        end
      else mret false
  end.

(** ** Start-up *)

(** What the configuration gives [run_foreground]. *)
Record Config : Type := mkConfig {
  ring_buffer_default : N;
  replay_on_attach : bool;
  replay_bytes : N;
  session_log : bool;
  sessions_dir : str;
  histories_dir : str;
  run_dir : str;
  recovery : Daemon.RecoveryEnvironmentConfig;
  gc_timeout : N;
}.

Definition configured (c : Config) (records : list SessionRecord) (orphans : gset N) (next : N) : SessionManager :=
  let s := Daemon.load_metadata records
    (Daemon.new (ring_buffer_default c) (session_log c) (sessions_dir c) (histories_dir c) (run_dir c)) in
  Daemon.mkManager (Daemon.session_info s) (Daemon.ring_buffer_size s) (replay_on_attach c) (replay_bytes c)
    (Daemon.session_log_enabled s) (Daemon.logs_dir s) (Daemon.history_dir s) (run_dir c) next
    (Daemon.attached_sessions s) (Daemon.ro_attached s) (Daemon.last_activity s) (gc_timeout c)
    (Daemon.locked_sessions s) orphans (Daemon.recovery_contexts s) (recovery c).

Definition holder_next (snapshot : HolderInventorySnapshot) : result persist_error N :=
  let ids := map Inventory.session_id (Reconcile.entries snapshot) in
  match ids with
  | [] => Ok 1
  | _ =>
      let id := foldr N.max 0 ids in
      if u32_max <? id + 1 then invalid_argument "session id space exhausted" else Ok (id + 1)
  end.

(** [run_foreground] up to the loop, with the holder connected and the
    database open. *)
Definition startup (c : Config) (order : list SessionRecord -> list SessionRecord) : Thread unit :=
  snapshot ← cached;
  contexts ← collect_exit_contexts snapshot;
  policy ← lift (Daemon.recovery_environment_policy (recovery c));
  reconciliation ← reconcile order policy snapshot contexts;
  _ ← each (fun id => holder (Retire id)) (Reconcile.exited_sessions reconciliation);
  records ← ms Metadata.list_sessions;
  metadata_next ← ms Metadata.next_session_id;
  holder_next ← lift (holder_next snapshot);
  sm_update (fun _ => configured c records (Reconcile.orphaned_sessions reconciliation) (N.max metadata_next holder_next)).
End server.
End DaemonServer.
