(* ===== verification/DaemonSamples.v ===== *)
(** * DaemonSamples: a small holder and system to run the daemon's threads on.

    The concrete inputs of the witnesses: a holder that does at once what it is
    told, a system and database that always answer, and sockets that take
    everything. *)
From S2P Require Import Prelude Bytes Environment LaunchEnvironment HolderMessages HolderSession ShellState Effects ClientFrame ClientMessages Metadata Reconcile HolderBackend Daemon DaemonThreads DaemonServer.
Import String.StringSyntax.
Import Inventory(HolderSessionEntry, Running, Exited).
Import Metadata(MetadataStore, Db, mkDb).
Import Reconcile(HolderInventorySnapshot, mkSnapshot, mkExit, entries).
Import Threads.
Local Open Scope N_scope.

Module Samples.

Definition entry (id : N) (state : Inventory.HolderSessionState) : HolderSessionEntry :=
  Inventory.mkEntry id (1000 + id) state (match state with Running => None | Exited => Some 0%Z end)
    0 0 0 false Inventory.Disabled false.

Definition toy_inventory (l : list HolderSessionEntry) : HolderInventorySnapshot :=
  mkSnapshot (replicate 16 Byte.x01) 1 l.
Definition change_entries (f : list HolderSessionEntry -> list HolderSessionEntry) (s : HolderInventorySnapshot)
  : HolderInventorySnapshot := mkSnapshot (Reconcile.instance_id s) (Reconcile.generation s) (f (entries s)).

Definition toy_operate (A : Type) (o : operation A) : M HolderInventorySnapshot persist_error A :=
  match o in operation A return M HolderInventorySnapshot persist_error A with
  | Create r => modify (change_entries (fun l => l ++ [entry (Session.session_id r) Running]))
  | Close id => mret (mkExit id 0 None None)
  | GetExitContext id => mret (mkExit id 0 None None)
  | Retire id => modify (change_entries (filter (fun e => Inventory.session_id e <> id)))
  | Kill _ => mret tt
  | Attach _ _ => mret (HolderBackend.mkData 9 4)
  | Refresh => mret tt
  | HasExited => mret false
  | MarkUnavailable => _ ← modify (change_entries (fun _ => [])); get
  | IsConnected => mret true
  end.

#[export] Instance toy_service : HolderService HolderInventorySnapshot :=
  {| inventory := fun s => s; operate := toy_operate |}.
#[export] Instance toy_laws : HolderServiceLaws HolderInventorySnapshot.
Proof.
  refine {| sound := fun _ => True |}.
  - intros A o b _. by destruct o; cbn; run.
  - intros id b _. cbn. run. by intros x [= <-].
  - intros id b _. cbn. run. by intros x [= <-].
Defined.

(** [proxy] is how every proxy ends. *)
Definition toy_answer (proxy : result persist_error (option Reconcile.ExitContext)) (n : nat) (A : Type)
  (q : question A) : A :=
  match q in question A return A with
  | Now => N.of_nat n
  | DetectShell => lit "/bin/sh"
  | CurrentDir => Some (lit "/home/user")
  | PrepareDirectories _ => Ok tt
  | ShellIdentity dir id => Ok (ShellState.mkIdentity id (replicate 16 Byte.x02) (Daemon.join dir (lit "state.json")))
  | ShellLaunch _ _ _ => Ok None
  | ProcCwd _ => Some (lit "/tmp")
  | ProcEnviron _ => None
  | ProcIdentity _ => (lit "sh", lit "/bin/sh")
  | ProcTree _ => []
  | ProcStats _ => DaemonServer.empty_process_stats
  | AgentSocket _ => false
  | RotatedTail _ => Ok []
  | Dashboard _ => []
  | Pid => 7
  | Proxy _ _ _ _ _ => (O, proxy)
  end.

Definition toy_os (proxy : result persist_error (option Reconcile.ExitContext)) : Os :=
  mkOs (toy_answer proxy) (fun _ => mkDb (lit "2026-07-20T12:00:00Z") true) (fun _ => u32_max).

Definition manager0 : Daemon.SessionManager :=
  Daemon.set_next_id 10 (Daemon.new 4096 false (lit "/data/logs") (lit "/data/history") (lit "/run/p")).

Definition row (id : N) (status : String.string) (locked : bool) : Metadata.SessionRecord :=
  Metadata.mkRecord id (lit "work") (lit status) (lit "t0") (lit "t0") None None None None None false locked None None None.

Definition store (rows : list Metadata.SessionRecord) : MetadataStore :=
  Metadata.mkStore (list_to_map (map (fun r => (Metadata.session_id r, r)) rows)) ∅.

Definition world (manager : Daemon.SessionManager) (rows : list Metadata.SessionRecord) (l : list HolderSessionEntry)
  : World HolderInventorySnapshot := mkWorld manager (store rows) (toy_inventory l) [] [] 0.

(** The text of errors and of values. *)
Definition show (e : persist_error) : str :=
  match e with
  | InvalidArgument m => lit m | InternalError m => lit m | DaemonAlreadyRunning => lit "running"
  | IoError m => lit m | MetadataOperation m => lit m
  end.
Definition json_text (j : DaemonServer.Json) : str := lit "{}".
Definition no_entries (text : str) : option (list (str * str)) := None.

Definition frame (kind : ClientFrame.MessageType) (payload : bytes) : ClientFrame.Frame :=
  ClientFrame.mkFrame kind 0 1 payload.

#[export] Existing Instance Environment.bits_json.
Definition handle (f : ClientFrame.Frame) : Thread unit :=
  DaemonServer.handle_frame show json_text no_entries 99 true 4 f.
End Samples.
