(* ===== verification/DaemonCalls.v ===== *)
(** * DaemonCalls: the calls of the daemon's threads.

    Most threads neither answer a client nor retire a session: they make
    [internal] calls only ([inner]). *)
From S2P Require Import Prelude Bytes OrderedMap Environment LaunchEnvironment ShellState HolderMessages HolderSession Effects ClientFrame ClientMessages Metadata Reconcile MetadataTypes HolderBackend Daemon DaemonThreads DaemonServer.
From Stdlib Require Import Lia.
Import String.StringSyntax.
Import Environment(SnapshotJson).
Import Metadata(SessionRecord, MetadataStore, Db, H).
Import Threads.
Import MetadataTypes.
Import DaemonServer(Json).
Local Open Scope N_scope.

Module DaemonCalls.

(** ** Rules of [all_calls] *)

Section rules.
Context (Q : forall A, call A -> Prop).

Lemma all_calls_each {A} (f : A -> Thread unit) l : (forall x, all_calls Q (f x)) -> all_calls Q (each f l).
Proof. intros Hf. induction l as [|x l IH]; [done|]. cbn. by apply all_calls_bind. Qed.
Lemma all_calls_collect {A C} (f : A -> Thread C) l : (forall x, all_calls Q (f x)) -> all_calls Q (DaemonServer.collect f l).
Proof. intros Hf. induction l as [|x l IH]; [done|]. cbn. apply all_calls_bind; [done|]. intros a. by apply all_calls_bind. Qed.
Lemma all_calls_fold {A C} (f : C -> A -> Thread C) c l :
  (forall c x, all_calls Q (f c x)) -> all_calls Q (DaemonServer.fold_thread f c l).
Proof. intros Hf. revert c. induction l as [|x l IH]; intros c; [done|]. cbn. by apply all_calls_bind. Qed.
Lemma all_calls_repeat n t : all_calls Q t -> all_calls Q (repeat_thread n t).
Proof. intros Ht. induction n as [|n IH]; [done|]. cbn. by apply all_calls_bind. Qed.
End rules.

(** ** Internal threads *)

(** A statement of the database answers, and keeps the metadata well formed. *)
Definition total {A} (f : Db -> H A) : Prop := forall db, orderly (f db).

Definition internal {A} (c : call A) : Prop :=
  match c with
  | Send _ _ | WriteByte _ _ => False
  | Holder o => match o with Retire _ => False | _ => True end
  | Ms f => total f
  | _ => True
  end.

Definition inner {A} (t : Thread A) : Prop := all_calls (@internal) t.

Lemma inner_calls (Q : forall A, call A -> Prop) {A} (t : Thread A) : (forall A c, internal c -> Q A c) -> inner t -> all_calls Q t.
Proof. apply all_calls_mono. Qed.

(** ** Rules *)

Lemma inner_bind {A C} (t : Thread A) (k : A -> Thread C) : inner t -> (forall a, inner (k a)) -> inner (t ≫= k).
Proof. apply all_calls_bind. Qed.
Lemma inner_attempt {A} (t : Thread A) : inner t -> inner (attempt t).
Proof. apply all_calls_attempt. Qed.
Lemma inner_return {A} (r : result persist_error A) : inner (Return r).
Proof. done. Qed.
Lemma inner_perform {A} (c : call A) : internal c -> inner (Perform c mret).
Proof. by split. Qed.
Lemma inner_perform_result {A} (c : call (result persist_error A)) : internal c -> inner (Perform c lift).
Proof. by split. Qed.

Lemma inner_each {A} (f : A -> Thread unit) l : (forall x, inner (f x)) -> inner (each f l).
Proof. apply all_calls_each. Qed.
Lemma inner_collect {A C} (f : A -> Thread C) l : (forall x, inner (f x)) -> inner (DaemonServer.collect f l).
Proof. apply all_calls_collect. Qed.
Lemma inner_fold {A C} (f : C -> A -> Thread C) c l : (forall c x, inner (f c x)) -> inner (DaemonServer.fold_thread f c l).
Proof. apply all_calls_fold. Qed.
Lemma inner_repeat n t : inner t -> inner (repeat_thread n t).
Proof. apply all_calls_repeat. Qed.

Create HintDb inner.
#[export] Hint Resolve inner_attempt inner_return inner_each inner_collect inner_fold inner_repeat inner_perform
  inner_perform_result : inner.
#[export] Hint Extern 1 (total _) => (intros ?; solve [eauto with orderly]) : inner.
#[export] Hint Extern 2 (internal (Ask _)) => exact I : inner.
#[export] Hint Extern 2 (internal (Sm _)) => exact I : inner.
#[export] Hint Extern 2 (internal Cached) => exact I : inner.
#[export] Hint Extern 2 (internal (Holder _)) => exact I : inner.
#[export] Hint Extern 2 (internal (Ms _)) => (change (internal (Ms ?f)) with (total f)) : inner.
#[global] Opaque inner.

Ltac inner_unfold := unfold ask, sm, sm_update, sm_call, ms, Threads.cached, holder, lift, fail, DaemonServer.manager.
Ltac inner := repeat first
  [ solve [eauto with inner]
  | apply inner_bind; [|intros ?]
  | apply inner_attempt | apply inner_each; intros ? | apply inner_collect; intros ? | apply inner_fold; intros ? ?
  | apply inner_repeat
  | match goal with |- inner (match ?x with _ => _ end) => destruct x end
  | progress inner_unfold ].

(** ** The threads *)

Section threads.
Context `{SnapshotJson} (entries_of : str -> option (list (str * str))).

Lemma inner_holder_entry id : inner (DaemonServer.holder_entry id).
Proof. unfold DaemonServer.holder_entry. inner. Qed.
Lemma inner_policy : inner DaemonServer.recovery_environment_policy.
Proof. unfold DaemonServer.recovery_environment_policy. inner. Qed.
Lemma inner_binding : inner DaemonServer.holder_binding.
Proof. unfold DaemonServer.holder_binding. inner. Qed.
Lemma inner_capture pid policy : inner (DaemonServer.capture pid policy).
Proof. unfold DaemonServer.capture. inner. Qed.
Lemma inner_get_session id : inner (DaemonServer.get_session id).
Proof. unfold DaemonServer.get_session. inner. Qed.
Lemma inner_tags_of id : inner (DaemonServer.tags_of id).
Proof. unfold DaemonServer.tags_of. inner. Qed.
Lemma inner_activity id : inner (DaemonServer.record_activity id).
Proof. unfold DaemonServer.record_activity. inner. Qed.
#[local] Hint Resolve inner_holder_entry inner_policy inner_binding inner_capture inner_get_session inner_tags_of inner_activity : inner.

Lemma inner_has_runtime id : inner (DaemonServer.has_runtime id).
Proof. unfold DaemonServer.has_runtime. inner. Qed.
Lemma inner_has_tags id : inner (DaemonServer.has_tags id).
Proof. unfold DaemonServer.has_tags. inner. Qed.
Lemma inner_create_request id shell cwd set unset env :
  inner (DaemonServer.holder_create_request id shell cwd set unset env).
Proof. unfold DaemonServer.holder_create_request, DaemonServer.prepare_directories, DaemonServer.create_shell_identity. inner. Qed.
Lemma inner_prepare_close id observed : inner (DaemonServer.prepare_close id observed).
Proof. unfold DaemonServer.prepare_close, DaemonServer.exit_of. inner. Qed.
Lemma inner_encoded_environment context : inner (DaemonServer.encoded_environment context).
Proof. unfold DaemonServer.encoded_environment. inner. Qed.
Lemma inner_finish_close id : inner (DaemonServer.finish_close id).
Proof. unfold DaemonServer.finish_close. inner. Qed.
Lemma inner_validate context : inner (DaemonServer.validate_connection_environment context).
Proof.
  unfold DaemonServer.validate_connection_environment, DaemonServer.keep_variable, DaemonServer.valid_agent_socket. inner.
Qed.
Lemma inner_observe id policy : inner (DaemonServer.observe id policy).
Proof. unfold DaemonServer.observe. inner. Qed.
#[local] Hint Resolve inner_has_runtime inner_has_tags inner_create_request inner_prepare_close inner_encoded_environment
  inner_finish_close inner_validate inner_observe : inner.

Lemma inner_kill_session id : inner (DaemonServer.kill_session id).
Proof. unfold DaemonServer.kill_session. inner. Qed.
Lemma inner_observe_context id : inner (DaemonServer.observe_context id).
Proof. unfold DaemonServer.observe_context. inner. Qed.
Lemma inner_history id : inner (DaemonServer.closed_attach_history id).
Proof. unfold DaemonServer.closed_attach_history. inner. Qed.
Lemma inner_attach_data b id mode : inner (DaemonServer.attach_data b id mode).
Proof. unfold DaemonServer.attach_data. inner. Qed.
Lemma inner_runtime_entries l sessions : inner (DaemonServer.runtime_entries l sessions).
Proof.
  revert sessions. induction l as [|e l IH]; intros sessions; cbn [DaemonServer.runtime_entries]; [apply inner_return|]. destruct (existsb _ _); [apply IH|].
  unfold DaemonServer.runtime_entry. inner.
Qed.
Lemma inner_closed_entries l sessions : inner (DaemonServer.closed_entries l sessions).
Proof. revert sessions. induction l as [|e l IH]; intros sessions; cbn [DaemonServer.closed_entries]; [apply inner_return|]. inner. Qed.
#[local] Hint Resolve inner_kill_session inner_observe_context inner_history inner_attach_data
  inner_runtime_entries inner_closed_entries : inner.

Lemma inner_new_bound : inner DaemonServer.create_bound.
Proof. unfold DaemonServer.create_bound, DaemonServer.create, DaemonServer.create_with_shell, DaemonServer.take_id. inner. Qed.
Lemma inner_restore record id env : inner (DaemonServer.restore entries_of record id env).
Proof. unfold DaemonServer.restore, DaemonServer.restore_closed_session. inner. Qed.
Lemma inner_reopen id : inner (DaemonServer.reopen id).
Proof. unfold DaemonServer.reopen. inner. Qed.
Lemma inner_collect_exit_contexts snapshot : inner (DaemonServer.collect_exit_contexts snapshot).
Proof. unfold DaemonServer.collect_exit_contexts, DaemonServer.exit_contexts, DaemonServer.add_exit_context. inner. Qed.
Lemma inner_gc_candidates : inner DaemonServer.gc_candidates.
Proof. unfold DaemonServer.gc_candidates, DaemonServer.gc_candidate. inner. Qed.
Lemma inner_reconcile order policy snapshot contexts : inner (DaemonServer.reconcile order policy snapshot contexts).
Proof. unfold DaemonServer.reconcile. inner. Qed.
Lemma inner_list_sessions : inner DaemonServer.list_sessions.
Proof. unfold DaemonServer.list_sessions. inner. Qed.
Lemma inner_tagged_entry r : inner (DaemonServer.tagged_entry r).
Proof. unfold DaemonServer.tagged_entry. inner. Qed.
Lemma inner_process_info id : inner (DaemonServer.runtime_process_info id).
Proof. unfold DaemonServer.runtime_process_info. inner. Qed.
Lemma inner_diagnostics pid : inner (DaemonServer.holder_diagnostics pid).
Proof. unfold DaemonServer.holder_diagnostics. inner. Qed.
#[local] Hint Resolve inner_new_bound inner_restore inner_reopen inner_collect_exit_contexts inner_gc_candidates
  inner_reconcile inner_list_sessions inner_tagged_entry inner_process_info inner_diagnostics : inner.
End threads.

#[export] Hint Resolve
  inner_holder_entry inner_policy inner_binding inner_capture inner_get_session inner_tags_of
  inner_activity inner_has_runtime inner_has_tags inner_create_request inner_prepare_close inner_encoded_environment
  inner_finish_close inner_validate inner_observe inner_kill_session inner_observe_context inner_history
  inner_attach_data inner_runtime_entries inner_closed_entries inner_new_bound inner_restore inner_reopen
  inner_collect_exit_contexts inner_gc_candidates inner_reconcile inner_list_sessions inner_tagged_entry inner_process_info
  inner_diagnostics : inner.
End DaemonCalls.
