(* ===== verification/DaemonSafety.v ===== *)
(** * DaemonSafety: what the threads of the daemon never do.

    Facts about every trace of a task of the daemon, whatever the other
    threads, the holder, the database and the system answer. *)
From S2P Require Import Prelude Bytes Environment LaunchEnvironment ShellState HolderMessages HolderSession Effects ClientFrame ClientMessages Metadata Reconcile HolderBackend Daemon DaemonThreads DaemonServer DaemonSamples DaemonCalls.
From Stdlib Require Import Lia.
Import String.StringSyntax.
Import Environment(SnapshotJson).
Import Metadata(SessionRecord, MetadataStore, Db, H).
Import Reconcile(HolderInventorySnapshot, recorded).
Import Threads.
Import DaemonCalls.
Import DaemonServer(Json).
Import ClientFrame(MessageType, NewSession, AttachReadOnly).
Local Open Scope N_scope.

Module DaemonSafety.

(** ** Tasks *)

Section tasks.
Context `{SnapshotJson} (show : persist_error -> str) (json_text : Json -> str)
  (entries_of : str -> option (list (str * str))) (holder_pid : N) (foreign_keys : bool).

(** What the daemon does in one go: the answer to one frame of a client, and
    the periodic work. *)
Inductive task : forall A, Thread A -> Prop :=
| task_frame fd frame : task unit (DaemonServer.handle_frame show json_text entries_of holder_pid foreign_keys fd frame)
| task_collect : task (list N) DaemonServer.collect_garbage
| task_refresh order policy : task bool (DaemonServer.refresh order policy)
| task_startup c order : task unit (DaemonServer.startup c order).

(** ** A session is retired when its end is on record *)

(** The answer of this access to the metadata shows that the end of session
    [id] is on record. *)
Definition records {A} (f : Db -> H A) (r : result persist_error A) (id : N) : Prop :=
  is_ok r = true /\ forall db s s', f db s = Some (r, s') -> recorded s' id.

(** The event puts the end of session [id] on record, or it is the task itself
    that had the holder create the session. *)
Definition accounts (e : event) (id : N) : Prop :=
  match asked e in call A return A -> Prop with
  | Ms f => fun r => records f r id
  | Holder o => fun _ => match o with Create request => Session.session_id request = id | _ => False end
  | _ => fun _ => False
  end (given e).

(** An inventory lists each session once. *)
Definition sane (e : event) : Prop :=
  match asked e in call A return A -> Prop with
  | Cached => fun snapshot => NoDup (map Inventory.session_id (Reconcile.entries snapshot))
  | Holder o => match o in operation A return result persist_error A -> Prop with
      | MarkUnavailable => fun r => match r with
          | Ok snapshot => NoDup (map Inventory.session_id (Reconcile.entries snapshot)) | Err _ => True end
      | _ => fun _ => True
      end
  | _ => fun _ => True
  end (given e).

Definition retires {A} (c : call A) : option N :=
  match c with Holder o => match o with Retire id => Some id | _ => None end | _ => None end.

(** The sessions accounted for so far; all of them after an inventory that is
    not sane. *)
Definition recorder : Monitor (N -> Prop) := {|
  permits g A c := match retires c with Some id => g id | None => True end;
  after g e := fun id => g id \/ accounts e id \/ ~ sane e |}.

(** Calls that retire nothing. *)
Definition calm {A} (t : Thread A) : Prop := all_calls (fun A c => retires c = None) t.

Definition grows {A} (g : N -> Prop) : result persist_error A -> (N -> Prop) -> Prop :=
  fun _ g' => forall id, g id -> g' id.

Lemma watch_calm {A} g (t : Thread A) : calm t -> watch recorder g t (grows g).
Proof.
  unfold calm. revert g. induction t as [r|X c k IH]; intros g; cbn; [by intros _ id|].
  intros [Hc Ht]. rewrite Hc. split; [done|]. intros b.
  eapply watch_mono; [apply IH, Ht|]. intros r g' Hg id Hid. apply Hg. by left.
Qed.

Lemma watch_calm_bind {A C} g (t : Thread A) (k : A -> Thread C) Q : calm t ->
  (forall a g', (forall id, g id -> g' id) -> watch recorder g' (k a) Q) ->
  (forall e g', (forall id, g id -> g' id) -> Q (Err e) g') -> watch recorder g (t ≫= k) Q.
Proof.
  intros Ht Hk He. rewrite watch_bind. eapply watch_mono; [by apply watch_calm|].
  intros [a|e] g' Hg; [by apply Hk|by apply He].
Qed.

(** *** Calm threads *)

Lemma calm_bind {A C} (t : Thread A) (k : A -> Thread C) : calm t -> (forall a, calm (k a)) -> calm (t ≫= k).
Proof. apply all_calls_bind. Qed.
Lemma calm_attempt {A} (t : Thread A) : calm t -> calm (attempt t).
Proof. apply all_calls_attempt. Qed.
Lemma calm_inner {A} (t : Thread A) : inner t -> calm t.
Proof.
  apply DaemonCalls.inner_calls. intros X c Hc. destruct c as [| | | |Y o| |]; try done. by destruct o.
Qed.
Lemma calm_return {A} (r : result persist_error A) : calm (Return r).
Proof. done. Qed.
Lemma calm_perform {A} (c : call A) : retires c = None -> calm (Perform c mret).
Proof. done. Qed.
Lemma calm_perform_ignored {A} (c : call A) : retires c = None -> calm (Perform c (fun _ => mret tt)).
Proof. done. Qed.
Lemma calm_perform_result {A} (c : call (result persist_error A)) : retires c = None -> calm (Perform c lift).
Proof. done. Qed.

Lemma calm_each {A} (f : A -> Thread unit) l : (forall x, calm (f x)) -> calm (each f l).
Proof. apply all_calls_each. Qed.
Lemma calm_collect {A C} (f : A -> Thread C) l : (forall x, calm (f x)) -> calm (DaemonServer.collect f l).
Proof. apply all_calls_collect. Qed.
Lemma calm_fold {A C} (f : C -> A -> Thread C) c l : (forall c x, calm (f c x)) -> calm (DaemonServer.fold_thread f c l).
Proof. apply all_calls_fold. Qed.
Lemma calm_repeat n t : calm t -> calm (repeat_thread n t).
Proof. apply all_calls_repeat. Qed.

End tasks.

Create HintDb calm.
#[local] Hint Resolve calm_attempt calm_return calm_each calm_collect calm_fold calm_repeat : calm.
#[local] Hint Resolve calm_perform calm_perform_ignored calm_perform_result calm_inner : calm.
#[local] Hint Extern 1 (retires _ = None) => reflexivity : calm.
#[local] Opaque calm.
Ltac calm_unfold := unfold ask, sm, sm_update, sm_call, ms, Threads.cached, holder, send, write_byte, lift, fail,
  DaemonServer.respond, DaemonServer.op_resp, DaemonServer.manager.
Ltac calm := repeat first
  [ solve [eauto with calm inner]
  | apply calm_bind; [|intros ?]
  | apply calm_attempt | apply calm_each; intros ? | apply calm_collect; intros ? | apply calm_fold; intros ? ?
  | apply calm_repeat
  | match goal with |- calm (match ?x with _ => _ end) => destruct x end
  | progress calm_unfold ].

Section handlers.
Context `{SnapshotJson} (show : persist_error -> str) (json_text : Json -> str)
  (entries_of : str -> option (list (str * str))).

Lemma calm_attach_resp fd locked data : calm (DaemonServer.attach_resp show fd locked data).
Proof. unfold DaemonServer.attach_resp. calm. Qed.
#[local] Hint Resolve calm_attach_resp : calm.

(** The frames whose handler may retire a session. *)
Definition may_retire (kind : MessageType) : bool :=
  match kind with NewSession | ClientFrame.Attach | AttachReadOnly | ClientFrame.Close | ClientFrame.Kill => true | _ => false end.

Lemma calm_handle_frame holder_pid foreign_keys fd frame : may_retire (ClientFrame.msg_type frame) = false ->
  calm (DaemonServer.handle_frame show json_text entries_of holder_pid foreign_keys fd frame).
Proof.
  destruct frame as [kind fl id payload]. cbn [ClientFrame.msg_type]. unfold DaemonServer.handle_frame.
  destruct kind; try discriminate; intros _; cbn [ClientFrame.msg_type ClientFrame.payload ClientFrame.request_id];
    unfold DaemonServer.decoded; try (calm; fail).
  all: unfold DaemonServer.handle_hello, DaemonServer.handle_list_sessions, DaemonServer.list_sessions,
    DaemonServer.handle_detach, DaemonServer.handle_rename, DaemonServer.handle_detach_signal,
    DaemonServer.handle_signal, DaemonServer.handle_note_set, DaemonServer.handle_note_get, DaemonServer.handle_tag_add,
    DaemonServer.handle_tag_remove, DaemonServer.handle_tag_list, DaemonServer.handle_list_sessions_by_tag,
    DaemonServer.tagged_entry, DaemonServer.handle_pin_set, DaemonServer.handle_lock_set,
    DaemonServer.handle_process_tree, DaemonServer.handle_process_stats, DaemonServer.handle_session_snapshot,
    DaemonServer.runtime_process_info, DaemonServer.handle_metrics, DaemonServer.holder_diagnostics,
    DaemonServer.handle_dashboard; calm.
Qed.
(** *** Threads that retire *)

Definition safe {A} (g : N -> Prop) (t : Thread A) : Prop := watch recorder g t (grows g).

Lemma grows_trans {A C} (g g' g'' : N -> Prop) (r : result persist_error A) (r' : result persist_error C) :
  grows g r g' -> grows g' r' g'' -> grows g r' g''.
Proof. intros H1 H2 id Hid. apply H2, H1, Hid. Qed.

Lemma safe_calm {A} g (t : Thread A) : calm t -> safe g t.
Proof. apply watch_calm. Qed.

Lemma safe_bind {A C} g (t : Thread A) (k : A -> Thread C) : safe g t ->
  (forall a g', (forall id, g id -> g' id) -> safe g' (k a)) -> safe g (t ≫= k).
Proof.
  intros Ht Hk. unfold safe. rewrite watch_bind. eapply watch_mono; [exact Ht|]. intros [a|e] g' Hg; [|exact Hg].
  eapply watch_mono; [by apply Hk|]. intros r g'' Hg'. by eapply (grows_trans (A := A) g g' g'' (Ok a)).
Qed.

Lemma safe_attempt {A} g (t : Thread A) : safe g t -> safe g (attempt t).
Proof. intros Ht. unfold safe. rewrite watch_attempt. exact Ht. Qed.

Lemma safe_each {A} (P : A -> Prop) (f : A -> Thread unit) l (g : N -> Prop) :
  (forall x g', P x -> (forall id, g id -> g' id) -> safe g' (f x)) -> Forall P l -> safe g (each f l).
Proof.
  intros Hf Hl. revert g Hf. induction Hl as [|x l Hx Hl IH]; intros g Hf; cbn [each]; [apply safe_calm, calm_return|].
  apply safe_bind; [by apply Hf|]. intros _ g' Hg. apply IH. intros y g'' Hy Hg'. apply Hf; auto.
Qed.

Lemma safe_collect {A C} (f : A -> Thread C) l g : (forall x g, safe g (f x)) -> safe g (DaemonServer.collect f l).
Proof.
  intros Hf. revert g. induction l as [|x l IH]; intros g; cbn [DaemonServer.collect]; [apply safe_calm, calm_return|].
  apply safe_bind; [apply Hf|]. intros a g1 _. apply safe_bind; [apply IH|]. intros; apply safe_calm, calm_return.
Qed.

Lemma safe_retire (g : N -> Prop) id : g id -> safe g (holder (Retire id)).
Proof. intros Hg. split; [exact Hg|]. intros b i Hi. by left. Qed.

Lemma close_records id code dir env db s s' :
  Metadata.close_session_with_context db id code dir env s = Some (Ok tt, s') -> recorded s' id.
Proof.
  unfold Metadata.close_session_with_context, Metadata.update. destruct (Metadata.answers db); [|done].
  intros [= <-] row. cbn. rewrite lookup_alter_eq. intros (r & _ & ->)%fmap_Some. by cbn.
Qed.

Lemma safe_metadata_then_retire (g : N -> Prop) id code dir env retire :
  safe g (DaemonServer.metadata_then_retire
    (ms (fun db => Metadata.close_session_with_context db id code dir env))
    (if retire : bool then holder (Retire id) else mret tt)).
Proof.
  unfold DaemonServer.metadata_then_retire, safe. split; [done|]. intros [[]|e]; [|by intros i Hi; left].
  cbn [lift mbind Thread_bind]. eapply watch_mono.
  - destruct retire; [apply safe_retire|by apply safe_calm, calm_return].
    right; left. split; [done|]. intros. by eapply close_records.
  - intros r g' Hg i Hi. apply Hg. by left.
Qed.

Lemma safe_finalize g id observed : safe g (DaemonServer.finalize_runtime_exit id observed).
Proof.
  unfold DaemonServer.finalize_runtime_exit. apply safe_bind; [apply safe_calm; eauto with calm inner|]. intros found g1 _.
  apply safe_bind; [apply safe_calm; calm|]. intros closed g2 _.
  apply safe_bind; [apply safe_calm; eauto with calm inner|]. intros env g3 _.
  apply safe_bind; [apply safe_metadata_then_retire|]. intros _ g4 _. apply safe_calm; eauto with calm inner.
Qed.

Lemma safe_close_session (g : N -> Prop) id : g id -> safe g (DaemonServer.close_session id).
Proof.
  intros Hg. unfold DaemonServer.close_session. apply safe_bind; [apply safe_calm; eauto with calm inner|]. intros [c|] g1 H1.
  - apply safe_bind; [destruct (Daemon.c_holder_retire c); [by apply safe_retire, H1|apply safe_calm, calm_return]|].
    intros _ g2 _. apply safe_calm. calm.
  - apply safe_calm, calm_return.
Qed.

(** The task accounts for the session it creates. *)
Definition creates {A} (g : N -> Prop) (id : A -> N) : result persist_error A -> (N -> Prop) -> Prop :=
  fun r g' => (forall i, g i -> g' i) /\ forall a, r = Ok a -> g' (id a).

Lemma creates_bind {A C} g (t : Thread A) (k : A -> Thread C) (id : C -> N) : calm t ->
  (forall a g', (forall i, g i -> g' i) -> watch recorder g' (k a) (creates g' id)) ->
  watch recorder g (t ≫= k) (creates g id).
Proof.
  intros Ht Hk. apply watch_calm_bind; [done| |by intros e g' Hg; split].
  intros a g' Hg. eapply watch_mono; [by apply Hk|]. intros r g'' [H1 H2]. split; [|done]. intros i Hi. by apply H1, Hg.
Qed.

Lemma creates_yields {A} (g : N -> Prop) i (t : Thread A) (id : A -> N) : g i -> calm t -> yields (fun a => id a = i) t ->
  watch recorder g t (creates g id).
Proof.
  intros Hg Ht Hy. eapply watch_mono; [apply watch_yields; [by apply watch_calm|exact Hy]|].
  intros r g' [H1 H2]. split; [exact H1|]. intros a Ha. rewrite (H2 a Ha). by apply H1.
Qed.

Lemma watch_create (g : N -> Prop) request {A} (k : unit -> Thread A) (id : A -> N) :
  (forall g' : N -> Prop, (forall i, g i -> g' i) -> g' (Session.session_id request) -> watch recorder g' (k tt) (creates g' id)) ->
  watch recorder g (holder (Create request) ≫= k) (creates g id).
Proof.
  intros Hk. split; [done|]. intros [[]|e]; [|split; [by intros i Hi; left|done]]. cbn.
  eapply watch_mono; [apply Hk|].
  - intros i Hi. by left.
  - right; left. done.
  - intros r g' [H1 H2]. split; [|done]. intros i Hi. apply H1. by left.
Qed.

Lemma request_id id shell cwd set unset env :
  yields (fun r => Session.session_id r = id) (DaemonServer.holder_create_request id shell cwd set unset env).
Proof.
  unfold DaemonServer.holder_create_request. repeat (apply yields_bind; intros ?). by destruct (_ <? _).
Qed.

(** A request for [id], and what follows when the holder has created it. *)
Lemma watch_request {A} (g : N -> Prop) i shell cwd set unset env (k : unit -> Thread A) (id : A -> N) :
  (forall g' : N -> Prop, (forall j, g j -> g' j) -> g' i -> watch recorder g' (k tt) (creates g' id)) ->
  watch recorder g (request ← DaemonServer.holder_create_request i shell cwd set unset env;
    holder (Create request) ≫= k) (creates g id).
Proof.
  intros Hk. rewrite watch_bind. eapply watch_mono.
  { apply watch_yields; [apply watch_calm; eauto with calm inner|apply request_id]. }
  intros [request|e] g' [Hg Hr]; [|by split]. specialize (Hr request eq_refl).
  eapply watch_mono; [apply watch_create|].
  - intros g'' H1 H2. rewrite Hr in H2. apply Hk; [|done]. intros j Hj. by apply H1, Hg.
  - intros r g'' [H1 H2]. split; [|done]. intros j Hj. by apply H1, Hg.
Qed.

Lemma watch_create_with_shell g shell : watch recorder g (DaemonServer.create_with_shell shell) (creates g id).
Proof.
  unfold DaemonServer.create_with_shell. apply creates_bind; [unfold DaemonServer.take_id; calm|]. intros i g1 H1.
  apply creates_bind; [calm|]. intros selected g2 H2. apply watch_request. intros g3 H3 Hi.
  apply (creates_yields _ i); [done|calm|]. by repeat (apply yields_bind; intros ?).
Qed.

Lemma watch_restore_closed g i name shell cwd environment env :
  watch recorder g (DaemonServer.restore_closed_session i name shell cwd environment env) (creates g (fun _ => i)).
Proof.
  unfold DaemonServer.restore_closed_session. apply creates_bind; [eauto with calm inner|]. intros [|] g1 H1; [by split|].
  apply creates_bind; [calm|]. intros selected g2 H2. apply watch_request. intros g3 H3 Hi.
  apply (creates_yields _ i); [done|calm|]. by repeat (apply yields_bind; intros ?).
Qed.
Lemma safe_new_session g : safe g DaemonServer.new_session.
Proof.
  unfold DaemonServer.new_session, safe. rewrite watch_bind, watch_attempt.
  assert (Hc : watch recorder g DaemonServer.create_bound (creates g (fun x => x.1.1.1))).
  { unfold DaemonServer.create_bound, DaemonServer.create. rewrite watch_bind. eapply watch_mono.
    { apply creates_bind; [calm|]. intros shell g1 H1. apply watch_create_with_shell. }
    intros [i|e] g1 [H1 H2]; [|by split]. eapply watch_mono.
    { apply (creates_yields g1 i _ (fun x => x.1.1.1)); [by apply (H2 i)|calm|]. by repeat (apply yields_bind; intros ?). }
    intros r g2 [H3 H4]. split; [|done]. intros j Hj. by apply H3, H1. }
  eapply watch_mono; [exact Hc|]. intros [[[[i name] shell] [instance generation]]|e] g1 [H1 H2]; [|done].
  specialize (H2 _ eq_refl). cbn [fst] in H2. eapply watch_mono; [|intros r g2; apply (grows_trans (A := unit) g g1 g2 (Ok tt)); exact H1].
  apply safe_bind; [apply safe_calm; calm|]. intros cwd g2 Hg2. apply safe_bind; [apply safe_calm; calm|].
  intros [[]|e] g3 Hg3; [apply safe_calm, calm_return|].
  apply safe_bind; [apply safe_attempt, safe_close_session; auto|]. intros; apply safe_calm, calm_return.
Qed.

Lemma safe_reopen_closed g record i env : safe g (DaemonServer.reopen_closed entries_of record i env).
Proof.
  unfold DaemonServer.reopen_closed. apply safe_bind; [apply safe_calm; eauto with calm inner|]. intros history g1 _.
  unfold safe. rewrite watch_bind, watch_attempt. eapply watch_mono.
  { unfold DaemonServer.restore. apply (creates_bind _ _ _ (fun _ => i)); [eauto with calm inner|]. intros policy g2 _.
    apply creates_bind; [calm|]. intros environment g3 _. apply watch_restore_closed. }
  intros [[]|e] g2 [H1 H2]; [specialize (H2 tt eq_refl)|done].
  eapply watch_mono; [|intros r g3; apply (grows_trans (A := unit) g1 g2 g3 (Ok tt)); exact H1].
  apply safe_bind; [apply safe_calm; unfold DaemonServer.reopen; calm|]. intros [[]|e] g3 H3; [apply safe_calm, calm_return|].
  apply safe_bind; [apply safe_attempt, safe_close_session; auto|]. intros; apply safe_calm, calm_return.
Qed.

Lemma safe_after_proxy g i outcome : safe g (DaemonServer.after_proxy i outcome).
Proof.
  unfold DaemonServer.after_proxy. destruct outcome as [x|]; [|apply safe_calm; calm].
  apply safe_bind; [apply safe_attempt, safe_finalize|]. intros; apply safe_calm, calm_return.
Qed.

Lemma safe_serve_writer g fd i data out : safe g (DaemonServer.serve_writer fd i data out).
Proof.
  unfold DaemonServer.serve_writer. repeat (apply safe_bind; [apply safe_calm; calm|intros ? ? _]).
  apply safe_after_proxy.
Qed.

Lemma safe_serve_reader g fd i data : safe g (DaemonServer.serve_reader fd i data).
Proof.
  unfold DaemonServer.serve_reader. repeat (apply safe_bind; [apply safe_calm; calm|intros ? ? _]).
  apply safe_after_proxy.
Qed.

Lemma safe_attach g fd payload : safe g (DaemonServer.handle_attach show entries_of fd payload).
Proof.
  unfold DaemonServer.handle_attach. cbv zeta.
  do 3 (apply safe_bind; [apply safe_calm; calm|intros ? ? _]).
  apply safe_bind; [|intros out g1 _].
  { destruct a0 as [r|]; [destruct (_ && _ && _); [apply safe_reopen_closed|]|]; apply safe_calm, calm_return. }
  do 3 (apply safe_bind; [apply safe_calm; calm|intros ? ? _]).
  destruct a3 as [[data|]|e]; [apply safe_serve_writer|apply safe_calm, calm_return..].
Qed.

Lemma safe_attach_read_only g fd payload : safe g (DaemonServer.handle_attach_read_only show fd payload).
Proof.
  unfold DaemonServer.handle_attach_read_only. cbv zeta.
  do 5 (apply safe_bind; [apply safe_calm; calm|intros ? ? _]).
  destruct a2 as [[data|]|e]; [apply safe_serve_reader|apply safe_calm, calm_return..].
Qed.

Lemma safe_kill g i : safe g (DaemonServer.kill_and_finalize i).
Proof.
  unfold DaemonServer.kill_and_finalize. apply safe_bind; [apply safe_calm; eauto with calm inner|].
  intros _ g1 _. apply safe_finalize.
Qed.

Lemma safe_handle_frame holder_pid foreign_keys g fd frame :
  safe g (DaemonServer.handle_frame show json_text entries_of holder_pid foreign_keys fd frame).
Proof.
  destruct (may_retire (ClientFrame.msg_type frame)) eqn:Hm; [|by apply safe_calm, calm_handle_frame].
  destruct frame as [kind fl rid payload]. unfold DaemonServer.handle_frame, DaemonServer.decoded.
  cbn [ClientFrame.msg_type ClientFrame.payload] in *. destruct kind; try discriminate Hm.
  - unfold DaemonServer.handle_new_session. apply safe_bind; [apply safe_new_session|]. intros; apply safe_calm; calm.
  - destruct (AttachContext.decode_attach payload); [apply safe_attach|apply safe_calm, calm_return].
  - destruct (AttachContext.decode_attach payload); [apply safe_attach_read_only|apply safe_calm, calm_return].
  - destruct (ClientMessages.decode_detach payload); [|apply safe_calm, calm_return].
    unfold DaemonServer.handle_close. apply safe_bind; [apply safe_attempt, safe_finalize|]. intros; apply safe_calm; calm.
  - destruct (ClientMessages.decode_detach payload); [|apply safe_calm, calm_return].
    unfold DaemonServer.handle_kill. apply safe_bind; [apply safe_calm; calm|]. intros r g1 _.
    apply safe_bind; [apply safe_attempt; destruct (DaemonServer.is_locked r); [apply safe_calm; calm|apply safe_kill]|].
    intros; apply safe_calm; calm.
Qed.

Lemma safe_collect_garbage g : safe g DaemonServer.collect_garbage.
Proof.
  unfold DaemonServer.collect_garbage. apply safe_bind.
  { apply safe_calm. unfold DaemonServer.gc_candidates, DaemonServer.gc_candidate. calm. }
  intros candidates g1 _. apply safe_bind; [|intros; apply safe_calm, calm_return].
  apply safe_collect. intros x g2. apply safe_bind; [apply safe_attempt, safe_kill|]. intros; apply safe_calm, calm_return.
Qed.
(** *** Reconciling *)

Definition reports (g : N -> Prop) : result persist_error Reconcile.ReconciliationResult -> (N -> Prop) -> Prop :=
  fun r g' => (forall i, g i -> g' i) /\ forall acc, r = Ok acc -> forall i, i ∈ Reconcile.exited_sessions acc -> g' i.

Lemma reports_bind {A} g (t : Thread A) k : calm t ->
  (forall a g', (forall i, g i -> g' i) -> watch recorder g' (k a) (reports g')) ->
  watch recorder g (t ≫= k) (reports g).
Proof.
  intros Ht Hk. apply watch_calm_bind; [done| |by intros e g' Hg; split].
  intros a g' Hg. eapply watch_mono; [by apply Hk|]. intros r g'' [H1 H2]. split; [|done]. intros i Hi. by apply H1, Hg.
Qed.

Definition distinct (snapshot : HolderInventorySnapshot) : Prop :=
  NoDup (map Inventory.session_id (Reconcile.entries snapshot)).

Lemma watch_reconcile (g : N -> Prop) order policy snapshot contexts : distinct snapshot \/ (forall i, g i) ->
  watch recorder g (DaemonServer.reconcile order policy snapshot contexts) (reports g).
Proof.
  intros Hd. split; [done|]. intros [acc|e]; [|split; [by intros i Hi; left|done]].
  split; [by intros i Hi; left|]. intros acc' [= <-] i Hi. destruct Hd as [Hd|Hg]; [|by left].
  right; left. split; [done|]. intros db s s' Hrun.
  pose proof (Reconcile.reconcile_records policy snapshot contexts (fun _ => db) db order s Hd) as Hr.
  unfold runs in Hr. rewrite Hrun in Hr. by apply (Hr acc).
Qed.

Lemma watch_cached {A} (g : N -> Prop) (k : HolderInventorySnapshot -> Thread A) Q :
  (forall snapshot g', (forall i, g i -> g' i) -> distinct snapshot \/ (forall i, g' i) -> watch recorder g' (k snapshot) Q) ->
  watch recorder g (Threads.cached ≫= k) Q.
Proof.
  intros Hk. split; [done|]. intros snapshot. apply Hk; [by intros i Hi; left|].
  destruct (decide (distinct snapshot)) as [Hd|Hd]; [by left|]. right. intros i. right; right. exact Hd.
Qed.

Lemma reports_grow (g g' g'' : N -> Prop) r : (forall i, g i -> g' i) -> reports g' r g'' -> reports g r g''.
Proof. intros Hg [H1 H2]. split; [|done]. intros i Hi. by apply H1, Hg. Qed.

Lemma watch_refresh_and_reconcile g order policy :
  watch recorder g (DaemonServer.refresh_and_reconcile order policy) (reports g).
Proof.
  unfold DaemonServer.refresh_and_reconcile. apply reports_bind; [calm|]. intros _ g1 H1.
  apply watch_cached. intros snapshot g2 H2 Hd. eapply watch_mono; [|intros r g'; by apply (reports_grow g1 g2)].
  apply reports_bind; [by apply calm_inner, inner_collect_exit_contexts|]. intros contexts g3 H3. apply watch_reconcile.
  destruct Hd as [Hd|Hd]; [by left|right; auto].
Qed.

Lemma safe_retire_all (g : N -> Prop) (f : N -> Thread unit) l : (forall i (g : N -> Prop), g i -> safe g (f i)) ->
  (forall i, i ∈ l -> g i) -> safe g (each f l).
Proof.
  intros Hf Hl. apply (safe_each (fun i => g i)); [intros i g' Hi Hg; apply Hf; auto|]. by apply Forall_forall.
Qed.

Lemma safe_reported {A} (g : N -> Prop) (t : Thread Reconcile.ReconciliationResult) (k : _ -> Thread A) :
  watch recorder g t (reports g) ->
  (forall acc (g' : N -> Prop), (forall i, i ∈ Reconcile.exited_sessions acc -> g' i) -> safe g' (k acc)) ->
  safe g (t ≫= k).
Proof.
  intros Ht Hk. unfold safe. rewrite watch_bind. eapply watch_mono; [exact Ht|]. intros [acc|e] g' [H1 H2]; [|exact H1].
  eapply watch_mono; [by apply Hk, H2|]. intros r g'' Hg. by eapply (grows_trans (A := unit) g g' g'' (Ok tt)).
Qed.

Lemma safe_retire_ended (g : N -> Prop) i : g i -> safe g (DaemonServer.retire_ended i).
Proof.
  intros Hg. unfold DaemonServer.retire_ended. apply safe_bind; [by apply safe_attempt, safe_retire|].
  intros [[]|e] g1 _; apply safe_calm; [eauto with calm inner|apply calm_return].
Qed.

Lemma safe_refresh g order policy : safe g (DaemonServer.refresh order policy).
Proof.
  unfold DaemonServer.refresh, safe. rewrite watch_bind, watch_attempt.
  eapply watch_mono; [apply watch_refresh_and_reconcile|]. intros [acc|e] g1 [H1 H2].
  - eapply watch_mono; [|intros r g2; apply (grows_trans (A := unit) g g1 g2 (Ok tt)); exact H1].
    apply safe_bind; [apply safe_calm; calm|]. intros _ g2 Hg2.
    apply safe_bind; [|intros; apply safe_calm, calm_return].
    apply safe_retire_all; [intros; by apply safe_retire_ended|]. intros i Hi. by apply Hg2, (H2 acc).
  - eapply watch_mono; [|intros r g2; apply (grows_trans (A := unit) g g1 g2 (Ok tt)); exact H1].
    apply safe_bind; [apply safe_calm; calm|]. intros exited g2 _.
    destruct (match exited with Ok b => b | Err _ => false end); [|apply safe_calm, calm_return].
    apply safe_calm. unfold DaemonServer.reconcile. calm.
Qed.

Lemma safe_startup g c order : safe g (DaemonServer.startup c order).
Proof.
  unfold DaemonServer.startup. apply watch_cached. intros snapshot g1 H1 Hd.
  eapply watch_mono; [|intros r g2; apply (grows_trans (A := unit) g g1 g2 (Ok tt)); exact H1].
  apply safe_bind; [apply safe_calm, calm_inner, inner_collect_exit_contexts|]. intros contexts g2 H2.
  apply safe_bind; [apply safe_calm; calm|]. intros policy g3 H3.
  apply safe_reported; [apply watch_reconcile; destruct Hd as [Hd|Hd]; [by left|right; auto]|].
  intros acc g4 H4. apply safe_bind; [by apply safe_retire_all; [intros; by apply safe_retire|]|].
  intros _ g5 _. apply safe_calm. calm.
Qed.
End handlers.

(** ** The theorem *)

Lemma recorder_ghost before (g : N -> Prop) i : Forall sane before -> foldl (after recorder) g before i ->
  g i \/ Exists (fun e => accounts e i) before.
Proof.
  revert g. induction before as [|e before IH]; intros g Hs Hi; cbn in *; [by left|].
  apply Forall_cons in Hs as [He Hs]. destruct (IH _ Hs Hi) as [[Hg|[Ha|Hn]]|Hx]; [by left| |done|].
  - right. by apply Exists_cons_hd.
  - right. by apply Exists_cons_tl.
Qed.

(** C1: Whatever the other threads, the holder, the database and the system do
    in between, the daemon tells the holder to forget a session only after the
    same task had the metadata record its end (its row, if it has one, is
    closed with an exit code), or if the task itself created the session and
    gives up; so a crash at any point loses no exit that was not recorded.
    (For holder inventories that list a session once.) *)
Theorem retired_after_recorded `{SnapshotJson} show json_text entries_of holder_pid foreign_keys
    {A} (t : Thread A) before i r rest :
  task show json_text entries_of holder_pid foreign_keys A t -> Forall sane before ->
  traces t (before ++ mkEvent (Holder (Retire i)) r :: rest) -> Exists (fun e => accounts e i) before.
Proof.
  intros Ht Hs Htr.
  assert (Hw : safe (fun _ => False) t).
  { destruct Ht; [apply safe_handle_frame|apply safe_collect_garbage|apply safe_refresh|apply safe_startup]. }
  pose proof (watch_traces _ _ _ _ _ _ _ Hw Htr) as Hp. cbn in Hp.
  by apply recorder_ghost in Hp as [[]|].
Qed.

#[local] Existing Instances Samples.toy_service Environment.bits_json.

(** A client closes session 5. *)
Definition closing : Thread unit := Samples.handle (Samples.frame ClientFrame.Close (ClientMessages.encode_detach 5)).
Definition closing_log : list event :=
  log (Samples.toy_os (Ok None)) closing
    (Samples.world Samples.manager0 [Samples.row 5 "running" false] [Samples.entry 5 Inventory.Running]).

Lemma retired_after_recorded_witness : exists before r rest,
  closing_log = before ++ mkEvent (Holder (Retire 5)) r :: rest /\ Exists (fun e => accounts e 5) before.
Proof.
  assert (Hr : closing_log !! 8%nat = Some (mkEvent (Holder (Retire 5)) (Ok tt))) by (vm_compute; reflexivity).
  pose proof (take_drop_middle closing_log 8 _ Hr) as Hl.
  exists (take 8 closing_log), (Ok tt), (drop 9 closing_log). split; [exact (eq_sym Hl)|].
  apply (retired_after_recorded Samples.show Samples.json_text Samples.no_entries 99 true closing _ _ (Ok tt) (drop 9 closing_log)).
  - apply task_frame.
  - apply (Forall_fmap sane (fun P => P)). vm_compute.
    repeat (apply List.Forall_cons; [first [exact I|apply NoDup_singleton]|]). apply List.Forall_nil.
  - exact (eq_ind_r (traces closing) (log_traces _ _ _) Hl).
Defined.
End DaemonSafety.
