(* ===== verification/DaemonService.v ===== *)
(** * DaemonService: what the daemon does for its clients.

    Theorems about a thread that runs alone ([run]): the outcome of closing,
    creating and attaching to a session, of the collection of idle sessions and
    of the start, over any holder that keeps the promises of
    [HolderServiceLaws]. *)
From S2P Require Import Prelude OrderedMap Bytes Environment LaunchEnvironment ShellState HolderMessages HolderSession Effects ClientFrame ClientMessages Metadata Reconcile HolderBackend Daemon DaemonThreads DaemonServer DaemonSamples DaemonCalls.
From stdpp Require Import sorting.
From Stdlib Require Import Lia.
Import String.StringSyntax.
Import Environment(SnapshotJson).
Import Inventory(HolderSessionEntry, Running, Exited).
Import Metadata(SessionRecord, MetadataStore, Db, H, sessions, session_tags, set_context, set_status).
Import Reconcile(ExitContext, x_session_id, x_exit_code, x_cwd, HolderInventorySnapshot).
Import Daemon(ClosedSession, c_exit_code, c_recovery_context, c_holder_retire, r_cwd, r_environment).
Import Threads.
Import DaemonCalls.
Import DaemonServer(Json).
Import ClientFrame(MessageType, NewSession, AttachReadOnly).
Local Open Scope N_scope.

Module DaemonService.

(** ** Threads that only look *)

(** Calls that change neither the manager nor the metadata, ask nothing of the
    holder and answer no client. *)
Definition reading {A} (c : call A) : Prop :=
  match c with
  | Sm f => forall s, (f s).2 = s
  | Ms f => forall db s, runs (f db) s (fun _ s' => s' = s)
  | Holder _ | Send _ _ | WriteByte _ _ => False
  | _ => True
  end.

Definition reads {A} (t : Thread A) : Prop := all_calls (@reading) t.

(** Threads that end with no error, whatever they are answered. *)
Fixpoint sure {A} (t : Thread A) : Prop :=
  match t with
  | Return (Ok _) => True
  | Return (Err _) => False
  | Perform c k => forall b, sure (k b)
  end.

Lemma sure_bind {A C} (t : Thread A) (k : A -> Thread C) : sure t -> (forall a, sure (k a)) -> sure (t ≫= k).
Proof. intros Ht Hk. induction t as [[a|e]|X c k' IH]; cbn in *; [apply Hk|done|]. intros b. by apply IH. Qed.
Lemma sure_attempt {A} (t : Thread A) : sure (attempt t).
Proof. induction t as [r|X c k IH]; [done|]. intros b. apply IH. Qed.
Lemma sure_collect {A C} (f : A -> Thread C) l : (forall x, sure (f x)) -> sure (DaemonServer.collect f l).
Proof. intros Hf. induction l as [|x l IH]; [done|]. cbn. apply sure_bind; [done|]. intros a. by apply sure_bind. Qed.

Section service.
Context `{SnapshotJson} {B : Type} `{HolderService B} `{!HolderServiceLaws B} (os : Os).

Definition unchanged (w w' : World B) : Prop :=
  manager w' = manager w /\ metadata w' = metadata w /\ sent w' = sent w /\ sound (backend w').

Lemma unchanged_refl w : sound (backend w) -> unchanged w w.
Proof. done. Qed.
Lemma unchanged_trans w1 w2 w3 : unchanged w1 w2 -> unchanged w2 w3 -> unchanged w1 w3.
Proof. intros (E1 & E2 & E3 & _) (F1 & F2 & F3 & Hs). unfold unchanged. rewrite F1, F2, F3. done. Qed.

Lemma operate_any {A} (o : operation A) w (Q : result persist_error A -> World B -> Prop) : sound (backend w) ->
  (forall r w', unchanged w w' -> Q r w') -> runs (run os (holder o)) w Q.
Proof.
  intros Hs HQ. rewrite runs_holder. eapply runs_mono; [by apply operate_sound|]. cbn beta. intros r b [Hb _].
  by apply HQ.
Qed.

Definition later (n : nat) (w : World B) : World B :=
  mkWorld (Threads.manager w) (metadata w) (backend w) (sent w) (wire w) n.

(** A thread that only looks returns, and changes nothing. *)
Lemma reads_spec {A} (t : Thread A) w (Q : result persist_error A -> World B -> Prop) : reads t ->
  (forall r n, Q r (later n w)) -> runs (run os t) w Q.
Proof.
  unfold reads. intros Ht HQ. assert (HQ' : forall r n, Q r (later n (later (tick w) w))) by done. clear HQ.
  assert (E : w = later (tick w) w) by by destruct w. rewrite E. clear E. generalize (tick w). revert Ht.
  induction t as [r|X c k IH]; intros Ht n; [apply (HQ' r n)|]. destruct Ht as [Hc Hk].
  unfold runs. cbn [run mbind option_bind].
  destruct c as [Y q|Y f|Y f| |Y o|fd f|fd b0]; cbn [perform later Threads.manager metadata tick]; cbn in Hc; try done.
  - cbn. apply (IH _ (Hk _) (S n)).
  - specialize (Hc (Threads.manager w)). destruct (f (Threads.manager w)) as [a s]. cbn in Hc |- *. subst s. apply (IH _ (Hk _) (S n)).
  - specialize (Hc (database os n) (Threads.metadata w)). unfold runs in Hc.
    destruct (f _ (Threads.metadata w)) as [[a s]|]; [|done]. cbn. subst s. apply (IH _ (Hk _) (S n)).
  - cbn. apply (IH _ (Hk _) (S n)).
Qed.

Lemma runs_sure {A} (t : Thread A) w Q : sure t -> runs (run os t) w Q -> runs (run os t) w (fun r w' => (exists a, r = Ok a) /\ Q r w').
Proof.
  unfold runs. revert w. induction t as [[a|e]|X c k IH]; intros w Ht; cbn in Ht; [intros HQ; cbn; by eauto|done|].
  cbn. destruct (perform os c w) as [[b w']|]; [|done]. by apply IH.
Qed.

Lemma reads_unchanged {A} (t : Thread A) w (Q : result persist_error A -> World B -> Prop) : reads t -> sound (backend w) ->
  (forall r w', unchanged w w' -> Q r w') -> runs (run os t) w Q.
Proof. intros Ht Hs HQ. apply reads_spec; [done|]. intros r n. by apply HQ. Qed.

Lemma reads_seq {A C} (t : Thread A) (k : A -> Thread C) : reads t -> (forall a, reads (k a)) -> reads (t ≫= k).
Proof. apply all_calls_bind. Qed.
Lemma reads_attempt {A} (t : Thread A) : reads t -> reads (attempt t).
Proof. apply all_calls_attempt. Qed.
Lemma reads_return {A} (r : result persist_error A) : reads (Return r).
Proof. done. Qed.
Lemma reads_perform {A} (c : call A) : reading c -> reads (Perform c mret).
Proof. by split. Qed.
Lemma reads_perform_result {A} (c : call (result persist_error A)) : reading c -> reads (Perform c lift).
Proof. by split. Qed.
Lemma reads_collect {A C} (f : A -> Thread C) l : (forall x, reads (f x)) -> reads (DaemonServer.collect f l).
Proof. apply all_calls_collect. Qed.
Lemma reads_sm {A} (f : Daemon.SessionManager -> A) : reading (Sm (fun s => (f s, s))).
Proof. done. Qed.
Lemma reads_get_session id : reading (Ms (fun db => Metadata.get_session db id)).
Proof. intros db s. unfold Metadata.get_session. destruct (Metadata.answers db); by run. Qed.
Lemma reads_calls (Q : forall A, call A -> Prop) {A} (t : Thread A) : (forall A c, reading c -> Q A c) -> reads t -> all_calls Q t.
Proof. apply all_calls_mono. Qed.
End service.

Create HintDb reads.
#[export] Hint Resolve reads_attempt reads_return reads_collect reads_perform reads_perform_result reads_sm
  reads_get_session : reads.
#[export] Hint Extern 2 (reading (Ask _)) => exact I : reads.
#[export] Hint Extern 2 (reading Cached) => exact I : reads.
#[global] Opaque reads.

Ltac reads := repeat first
  [ solve [eauto with reads]
  | apply reads_seq; [|intros ?]
  | apply reads_attempt | apply reads_collect; intros ?
  | match goal with |- reads (match ?x with _ => _ end) => destruct x end
  | progress inner_unfold ].

Lemma reads_holder_entry id : reads (DaemonServer.holder_entry id).
Proof. unfold DaemonServer.holder_entry. reads. Qed.
Lemma reads_has_runtime id : reads (DaemonServer.has_runtime id).
Proof. unfold DaemonServer.has_runtime, DaemonServer.holder_entry. reads. Qed.
Lemma reads_policy : reads DaemonServer.recovery_environment_policy.
Proof. unfold DaemonServer.recovery_environment_policy. reads. Qed.
Lemma reads_session id : reads (DaemonServer.get_session id).
Proof. unfold DaemonServer.get_session. reads. Qed.
Lemma reads_capture `{SnapshotJson} pid policy : reads (DaemonServer.capture pid policy).
Proof. unfold DaemonServer.capture. reads. Qed.
Lemma reads_encoded `{SnapshotJson} context : reads (DaemonServer.encoded_environment context).
Proof. unfold DaemonServer.encoded_environment, DaemonServer.recovery_environment_policy. reads. Qed.
Lemma reads_validate context : reads (DaemonServer.validate_connection_environment context).
Proof.
  unfold DaemonServer.validate_connection_environment, DaemonServer.keep_variable, DaemonServer.valid_agent_socket. reads.
Qed.
Lemma sure_validate context : sure (DaemonServer.validate_connection_environment context).
Proof.
  unfold DaemonServer.validate_connection_environment. apply sure_bind; [|done]. apply sure_collect. intros [n v].
  unfold DaemonServer.keep_variable, DaemonServer.valid_agent_socket. by repeat case_match.
Qed.
#[export] Hint Resolve reads_holder_entry reads_has_runtime reads_policy reads_session reads_capture
  reads_encoded reads_validate : reads.

Section closing.
Context `{SnapshotJson} {B : Type} `{HolderService B} `{!HolderServiceLaws B} (os : Os).

(** ** Closing a session *)

Definition found (id : N) (w : World B) : option HolderSessionEntry :=
  Daemon.holder_entry id (Reconcile.entries (inventory (backend w))) (Threads.manager w).

(** What the daemon is told of an end, by a caller that observed it or by the
    holder [b]. *)
Definition learned (id : N) (e : HolderSessionEntry) (observed : option ExitContext) (b : B) (x : ExitContext) : Prop :=
  x_session_id x = id /\
  match observed with
  | Some c => x = c
  | None =>
      match Inventory.state e with
      | Running => exists b', operate _ (Close id) b = Some (Ok x, b')
      | Exited =>
          if Inventory.exit_context_available e then exists b', operate _ (GetExitContext id) b = Some (Ok x, b')
          else Inventory.exit_code e = Some (x_exit_code x) /\ x_cwd x = None
      end
  end.

Lemma runs_exit_context (o : operation ExitContext) id w (Q : result persist_error ExitContext -> World B -> Prop) :
  o = GetExitContext id \/ o = Close id -> sound (backend w) ->
  (forall r w', unchanged w w' ->
    (forall x, r = Ok x -> x_session_id x = id /\ exists b', operate _ o (backend w) = Some (Ok x, b')) -> Q r w') ->
  runs (run os (holder o)) w Q.
Proof.
  intros Ho Hs HQ. rewrite runs_holder. pose proof (operate_sound _ o _ Hs) as S1.
  assert (S2 : runs (operate _ o) (backend w) (fun r _ => forall x, r = Ok x -> x_session_id x = id)).
  { destruct Ho as [-> | ->]; [by apply exit_context|by apply close_context]. }
  unfold runs in *. destruct (operate _ o _) as [[r b]|]; [|done]. apply HQ; [by destruct S1|].
  intros x ->. split; [by apply S2|by exists b].
Qed.

Lemma runs_exit_of id e observed w (Q : result persist_error ExitContext -> World B -> Prop) : sound (backend w) ->
  (forall r w', unchanged w w' -> (forall x, r = Ok x -> learned id e observed (backend w) x) -> Q r w') ->
  runs (run os (DaemonServer.exit_of id e observed)) w Q.
Proof.
  intros Hs HQ. unfold DaemonServer.exit_of. unfold learned in HQ. destruct observed as [c|].
  { destruct (N.eqb_spec (x_session_id c) id) as [E|E]; thread; apply HQ; try done. by intros x [= <-]. }
  case_bool_decide as Hx; [rewrite Hx in HQ|].
  - destruct (Inventory.exit_context_available e); [eapply runs_exit_context; [by left|done..]|].
    destruct (Inventory.exit_code e) as [code|]; thread; apply HQ; try done. by intros x [= <-].
  - destruct (Inventory.state e); [|done]. eapply runs_exit_context; [by right|done..].
Qed.

(** What [prepare_close] finds. *)
Definition prepared (id : N) (w : World B) (observed : option ExitContext) (r : result persist_error (option ClosedSession))
  : Prop :=
  match r with
  | Ok None => found id w = None
  | Ok (Some c) => exists e x, found id w = Some e /\ learned id e observed (backend w) x /\ c_exit_code c = x_exit_code x /\
      (x_cwd x <> None -> r_cwd (c_recovery_context c) = x_cwd x)
  | Err _ => found id w <> None
  end.

Lemma runs_prepare_close id observed w (Q : result persist_error (option ClosedSession) -> World B -> Prop) :
  sound (backend w) -> (forall r w', unchanged w w' -> prepared id w observed r -> Q r w') ->
  runs (run os (DaemonServer.prepare_close id observed)) w Q.
Proof.
  intros Hs HQ. unfold DaemonServer.prepare_close, DaemonServer.holder_entry, DaemonServer.manager. thread.
  change (Daemon.holder_entry id _ _) with (found id w). destruct (found id w) as [e|] eqn:He; [|thread; by apply HQ].
  rewrite runs_thread_bind. apply reads_spec; [solve [reads]|]. intros r1 n1. destruct r1 as [policy|]; [|by apply HQ; [|cbn; rewrite He]].
  rewrite runs_thread_bind. apply reads_spec; [solve [reads]|]. intros r2 n2.
  destruct r2 as [direct|]; [|by apply HQ; [|cbn; rewrite He]]. thread.
  apply runs_exit_of; [done|]. intros r3 w3 Hend Hx.
  destruct r3 as [x|]; thread; (apply HQ; [done|cbn; rewrite He]); [|done].
  exists e, x. split_and!; [done|by apply Hx|done|]. cbn. by destruct (x_cwd x).
Qed.

(** The row of [id], if there is one, is closed as [x] says, and the rest of
    the metadata stays. *)
Definition end_recorded (id : N) (x : ExitContext) (m m' : MetadataStore) : Prop :=
  session_tags m' = session_tags m /\ (forall j, j <> id -> sessions m' !! j = sessions m !! j) /\
  match sessions m !! id with
  | None => sessions m' !! id = None
  | Some row => exists row', sessions m' !! id = Some row' /\ Metadata.status row' = lit "closed" /\
      Metadata.exit_code row' = Some (x_exit_code x) /\ is_Some (Metadata.closed_at row') /\
      (x_cwd x <> None -> Metadata.cwd row' = x_cwd x) /\ (Metadata.cwd row <> None -> Metadata.cwd row' <> None) /\
      Metadata.name row' = Metadata.name row /\ Metadata.note row' = Metadata.note row /\
      Metadata.pinned row' = Metadata.pinned row /\ Metadata.locked row' = Metadata.locked row
  end.

Lemma runs_close id code dir env x w (Q : result persist_error unit -> World B -> Prop) :
  code = x_exit_code x -> (x_cwd x <> None -> dir = x_cwd x) ->
  (forall r s, match r with Ok _ => end_recorded id x (metadata w) s | Err _ => s = metadata w end ->
    Q r (mkWorld (Threads.manager w) s (backend w) (sent w) (wire w) (S (tick w)))) ->
  runs (run os (ms (fun db => Metadata.close_session_with_context db id code dir env))) w Q.
Proof.
  intros -> Hd HQ. rewrite runs_ms. unfold Metadata.close_session_with_context, Metadata.update.
  destruct (Metadata.answers (database os (tick w))); run; [|by apply HQ].
  apply HQ. unfold end_recorded. cbn. split; [done|]. split; [intros j Hj; by rewrite lookup_alter_ne|].
  rewrite lookup_alter. case_decide; [|done]. destruct (sessions (metadata w) !! id) as [row|]; [|done].
  eexists. split; [done|]. cbn. split_and!; try done; [intros Hx; rewrite Hd by done; by destruct (x_cwd x)|].
  intros Hc. by destruct dir, (Metadata.cwd row).
Qed.

Lemma runs_retire c id w (Q : result persist_error unit -> World B -> Prop) : sound (backend w) ->
  (forall r w', unchanged w w' -> Q r w') ->
  runs (run os (if c_holder_retire c then holder (Retire id) else mret tt)) w Q.
Proof. intros Hs HQ. destruct (c_holder_retire c); [by apply operate_any|]. thread. by apply HQ. Qed.

(** How closing a session in the world [w] ends. *)
Definition finalized (id : N) (observed : option ExitContext) (w : World B) (r : result persist_error unit) (w' : World B)
  : Prop :=
  sound (backend w') /\ sent w' = sent w /\
  match r with
  | Ok _ => exists e x, found id w = Some e /\ learned id e observed (backend w) x /\
      end_recorded id x (metadata w) (metadata w') /\
      Threads.manager w' = Daemon.finish_close id (Threads.manager w)
  | Err err => Threads.manager w' = Threads.manager w /\
      match found id w with
      | None => err = InvalidArgument "session not found" /\ metadata w' = metadata w
      | Some e => metadata w' = metadata w \/
          exists x, learned id e observed (backend w) x /\ end_recorded id x (metadata w) (metadata w')
      end
  end.

Lemma runs_finalize id observed w : sound (backend w) ->
  runs (run os (DaemonServer.finalize_runtime_exit id observed)) w (finalized id observed w).
Proof.
  intros Hs. unfold finalized, DaemonServer.finalize_runtime_exit. rewrite runs_thread_bind.
  apply runs_prepare_close; [done|]. intros r w1 (M1 & D1 & S1 & Hs1) Hp.
  destruct r as [[c|]|err]; cbn in Hp; cbv beta iota.
  - destruct Hp as (e & x & He & Hx & Hc & Hd). cbn [ok_or]. thread. rewrite He.
    eapply reads_unchanged; [solve [reads]|done|]. intros r2 w2 (M2 & D2 & S2 & Hs2).
    destruct r2 as [environment|]; [|rewrite M2, D2, S2; by split_and!; [..|left]].
    unfold DaemonServer.metadata_then_retire. rewrite !runs_thread_bind.
    apply (runs_close id _ _ environment x); [done..|]. intros r3 m Hm. rewrite D2, D1 in Hm.
    destruct r3 as [_|]; [|subst m; cbn; rewrite M2, S2; by split_and!; [..|left]].
    apply runs_retire; [done|]. intros r4 w4 (M4 & D4 & S4 & Hs4). cbn in M4, D4, S4.
    destruct r4 as [_|]; [|rewrite M4, D4, S4, M2, S2; split_and!; [done..|right; by exists x]].
    unfold DaemonServer.finish_close. thread. cbn. rewrite S4, S2, M4, M2, M1, D4. split_and!; [done..|]. by exists e, x.
  - cbn [ok_or]. thread. rewrite Hp. by split_and!.
  - destruct (found id w) as [e|]; [|done]. split_and!; [done..|by left].
Qed.

(** C5: Closing a session returns, whatever the holder, the system and the
    database answer.  When it succeeds, the row of the session, and no other, is
    closed with the exit code that the holder answered to this very request (or
    that its inventory has, or that the caller observed, for this session only)
    and the working directory that came with it, if one did, keeping the row's
    name, note and marks, and the daemon forgets the session.  When it fails, the
    daemon still knows the session, and the metadata is untouched or already
    says how the session ended; a session without a runtime is refused and
    nothing changes. *)
Theorem finalize_outcome id observed w : sound (backend w) ->
  exists r w', run os (DaemonServer.finalize_runtime_exit id observed) w = Some (r, w') /\ finalized id observed w r w'.
Proof. intros Hs. by apply runs_eq, runs_finalize. Qed.
End closing.

Section locked.
Context `{SnapshotJson} {B : Type} `{HolderService B} (os : Os).
Context (show : persist_error -> str) (json_text : Json -> str) (entries_of : str -> option (list (str * str))).
Context (holder_pid : N) (foreign_keys : bool).

(** ** Locked sessions *)

(** The client asks to kill session [id], or for a connection to it. *)
Definition asks_for (id : N) (f : ClientFrame.Frame) : Prop :=
  (ClientFrame.msg_type f = ClientFrame.Kill /\ ClientMessages.decode_detach (ClientFrame.payload f) = Some id) \/
  ((ClientFrame.msg_type f = ClientFrame.Attach \/ ClientFrame.msg_type f = AttachReadOnly) /\
   exists p, AttachContext.decode_attach (ClientFrame.payload f) = Some p /\ AttachContext.session_id p = id).

Definition refusal (f : ClientFrame.Frame) : ClientFrame.Frame :=
  match ClientFrame.msg_type f with
  | ClientFrame.Kill => ClientFrame.mkFrame ClientFrame.KillResp 0 0
      (ClientMessages.encode_op_resp false (show (InvalidArgument "session is locked")))
  | _ => ClientFrame.mkFrame ClientFrame.AttachResp 0 0
      (ClientMessages.encode_attach_resp false (lit "session is locked"))
  end.

(** The answer [f], of which the socket took [bs]. *)
Definition replied (fd : N) (f : ClientFrame.Frame) (bs : bytes) (n : nat) (w : World B) : World B :=
  mkWorld (Threads.manager w) (metadata w) (backend w) (sent w ++ [(fd, f)]) (wire w ++ [(fd, bs)]) n.

Lemma runs_get_session id w Q : Metadata.answers (database os (tick w)) = true ->
  runs (run os (DaemonServer.get_session id)) w Q <-> Q (Ok (sessions (metadata w) !! id)) (later (S (tick w)) w).
Proof.
  intros Ha. unfold DaemonServer.get_session. thread. unfold Metadata.get_session. rewrite Ha.
  split; intros HQ; run; by thread.
Qed.

(** Either the query for the lock fails, or it is what is stored. *)
Lemma log_get_session {A} id (k : option SessionRecord -> Thread A) w : Metadata.answers (database os (tick w)) = false ->
  Exists query_failed (log os (record ← DaemonServer.get_session id; k record) w).
Proof.
  intros Ha. rewrite log_bind. apply Exists_app. left. unfold DaemonServer.get_session. rewrite log_bind. apply Exists_app. left.
  cbn [ms attempt log perform]. unfold Metadata.get_session. rewrite Ha. by apply Exists_cons_hd.
Qed.

Section refused.
Context (id fd : N) (row : SessionRecord) (Hl : Metadata.locked row = true).

(** [t] answers [f], and does nothing else, or a query fails. *)
Definition refuses (f : ClientFrame.Frame) (t : Thread unit) (w : World B) : Prop :=
  Exists query_failed (log os t w) \/
  exists n, run os t w = Some (Ok tt, replied fd f (taken (takes os n) (ClientFrame.write_frame f)) (S n) w).

Lemma refuses_runs f t w :
  runs (run os t) w (fun r w' => r = Ok tt /\ exists n, w' = replied fd f (taken (takes os n) (ClientFrame.write_frame f)) (S n) w) ->
  refuses f t w.
Proof. intros (r & w' & Hr & -> & n & ->)%runs_eq. right. by exists n. Qed.

Lemma refused_kill w : sessions (metadata w) !! id = Some row ->
  refuses (ClientFrame.mkFrame ClientFrame.KillResp 0 0
    (ClientMessages.encode_op_resp false (show (InvalidArgument "session is locked")))) (DaemonServer.handle_kill show fd id) w.
Proof.
  intros Hrow. destruct (Metadata.answers (database os (tick w))) eqn:Ha; [|by left; apply log_get_session].
  apply refuses_runs. unfold DaemonServer.handle_kill. rewrite runs_thread_bind, runs_get_session by done. cbv beta iota.
  unfold DaemonServer.is_locked. rewrite Hrow, Hl. unfold DaemonServer.op_resp, DaemonServer.respond. thread.
  split; [done|]. eexists. reflexivity.
Qed.

Lemma run_bind {A C} (t : Thread A) (k : A -> Thread C) w :
  run os (t ≫= k) w = match run os t w with
    | Some (Ok a, w') => run os (k a) w' | Some (Err e, w') => Some (Err e, w') | None => None end.
Proof.
  revert w. induction t as [[a|e]|X c k' IH]; intros w; [done..|]. cbn. destruct (perform os c w) as [[b w']|]; [apply IH|done].
Qed.

(** After what only looks. *)
Lemma refuses_after {A} f (t : Thread A) (k : A -> Thread unit) w : reads t -> sure t ->
  (forall a n, refuses f (k a) (later n w)) -> refuses f (t ≫= k) w.
Proof.
  intros Ht Hs Hk. assert (Hr : runs (run os t) w (fun r w' => (exists a, r = Ok a) /\ exists n, w' = later n w)).
  { apply runs_sure; [done|]. apply reads_spec; [done|]. intros r n. by exists n. }
  apply runs_eq in Hr as (r & w' & Hr & [a ->] & n & ->). destruct (Hk a n) as [Hx|[m Hx]].
  - left. rewrite log_bind, Hr. apply Exists_app. by right.
  - right. exists m. by rewrite run_bind, Hr.
Qed.

Lemma refused_attach p w : AttachContext.session_id p = id -> sessions (metadata w) !! id = Some row ->
  refuses (ClientFrame.mkFrame ClientFrame.AttachResp 0 0 (ClientMessages.encode_attach_resp false (lit "session is locked")))
    (DaemonServer.handle_attach show entries_of fd p) w /\
  refuses (ClientFrame.mkFrame ClientFrame.AttachResp 0 0 (ClientMessages.encode_attach_resp false (lit "session is locked")))
    (DaemonServer.handle_attach_read_only show fd p) w.
Proof.
  intros Hp Hrow. split; [unfold DaemonServer.handle_attach|unfold DaemonServer.handle_attach_read_only]; rewrite Hp.
  all: apply refuses_after; [solve [reads]|apply sure_validate|]; intros env n.
  all: destruct (Metadata.answers (database os (tick (later n w)))) eqn:Ha; [|by left; apply log_get_session].
  all: apply refuses_runs; rewrite runs_thread_bind, runs_get_session by done; cbv beta iota.
  all: cbn [later metadata]; rewrite Hrow; unfold DaemonServer.is_locked; rewrite Hl; cbn [negb andb].
  1: unfold DaemonServer.has_runtime, DaemonServer.holder_entry, DaemonServer.manager.
  all: unfold DaemonServer.attach_data, DaemonServer.attach_resp, DaemonServer.respond; thread; split; [done|]; eexists; reflexivity.
Qed.
End refused.

(** C20: While a session is locked, a request to kill it, to attach to it or to
    watch it is answered with "session is locked" and has no other effect: the
    manager, the metadata and the holder stay as they are, and the client's
    socket is given that answer; unless a query of the database fails while the
    request is handled (then the session counts as not locked). *)
Theorem locked_session_untouched id row f fd w :
  sessions (metadata w) !! id = Some row -> Metadata.locked row = true -> asks_for id f ->
  let t := DaemonServer.handle_frame show json_text entries_of holder_pid foreign_keys fd f in
  Exists query_failed (log os t w) \/
  exists n, run os t w =
    Some (Ok tt, replied fd (refusal f) (taken (takes os n) (ClientFrame.write_frame (refusal f))) (S n) w).
Proof.
  intros Hrow Hl Hf. cbv zeta. unfold DaemonServer.handle_frame, refusal. destruct Hf as [[-> Hp]|[Hk (p & Hp & Hi)]]; rewrite Hp; cbn [DaemonServer.decoded].
  - by eapply refused_kill.
  - destruct (refused_attach id fd row Hl p w Hi Hrow) as [H2 H3]. destruct Hk as [-> | ->]; [exact H2|exact H3].
Qed.
End locked.

#[local] Existing Instances Samples.toy_service Samples.toy_laws Environment.bits_json.

(** Session 5 is running and is closed. *)
Definition running_world : World HolderInventorySnapshot :=
  Samples.world Samples.manager0 [Samples.row 5 "running" false] [Samples.entry 5 Running].

Lemma finalize_outcome_witness : exists r w',
  run (Samples.toy_os (Ok None)) (DaemonServer.finalize_runtime_exit 5 None) running_world = Some (r, w') /\
  finalized 5 None running_world r w' /\ is_ok r = true.
Proof.
  destruct (finalize_outcome (Samples.toy_os (Ok None)) 5 None running_world) as (r & w' & Hr & Hf); [vm_compute; exact I|].
  exists r, w'. split; [exact Hr|]. split; [exact Hf|].
  assert (E : (fun x => is_ok x.1) <$> run (Samples.toy_os (Ok None)) (DaemonServer.finalize_runtime_exit 5 None) running_world
    = Some true) by (vm_compute; reflexivity).
  rewrite Hr in E. cbn in E. congruence.
Defined.

(** Session 5 is locked, and a client asks to kill it. *)
Definition locked_world : World HolderInventorySnapshot :=
  Samples.world Samples.manager0 [Samples.row 5 "running" true] [Samples.entry 5 Running].
Definition kill_five : Thread unit := Samples.handle (Samples.frame ClientFrame.Kill (ClientMessages.encode_detach 5)).

Lemma locked_session_untouched_witness :
  Exists query_failed (log (Samples.toy_os (Ok None)) kill_five locked_world) \/
  exists n bs, run (Samples.toy_os (Ok None)) kill_five locked_world =
  Some (Ok tt, mkWorld Samples.manager0 (Samples.store [Samples.row 5 "running" true])
    (Samples.toy_inventory [Samples.entry 5 Running])
    [(4, ClientFrame.mkFrame ClientFrame.KillResp 0 0 (ClientMessages.encode_op_resp false (lit "session is locked")))] [(4, bs)] n).
Proof.
  destruct (locked_session_untouched (Samples.toy_os (Ok None)) Samples.show Samples.json_text Samples.no_entries 99 true 5
    (Samples.row 5 "running" true) (Samples.frame ClientFrame.Kill (ClientMessages.encode_detach 5)) 4 locked_world) as [Hf|[n Hn]].
  - vm_compute. reflexivity.
  - reflexivity.
  - left. split; [reflexivity|]. vm_compute. reflexivity.
  - left. exact Hf.
  - right. eexists _, _. exact Hn.
Defined.

(** A database that does not answer the first query, and every one after it. *)
Definition flaky_os : Os :=
  mkOs (Samples.toy_answer (Ok None)) (fun n => Metadata.mkDb (lit "2026-07-20T12:00:00Z") (negb (Nat.eqb n 0))) (fun _ => u32_max).

(** The check of the lock fails open: when its query fails, a locked session is
    killed, and the client is told that all is well. *)
Example lock_fails_open :
  (fun x => (Metadata.status <$> sessions (metadata x.2) !! 5, Reconcile.entries (backend x.2), map snd (sent x.2)))
    <$> run flaky_os kill_five locked_world
  = Some (Some (lit "closed"), [], [ClientFrame.mkFrame ClientFrame.KillResp 0 0 (ClientMessages.encode_op_resp true [])]).
Proof. vm_compute. reflexivity. Qed.

End DaemonService.
