(* ===== verification/DaemonGarbage.v ===== *)
(** * DaemonGarbage: the collection of idle sessions.

    [gc_candidates] and the collection in [run_foreground]
    ([crates/persistd/src/server.rs]): which sessions it ends, and that it
    leaves all the others alone. *)
From S2P Require Import Prelude OrderedMap Bytes Environment HolderMessages HolderSession Effects ClientFrame ClientMessages Metadata Reconcile HolderBackend Daemon DaemonThreads DaemonServer DaemonSamples DaemonCalls DaemonService.
From stdpp Require Import sorting.
From Stdlib Require Import Lia.
Import String.StringSyntax.
Import Environment(SnapshotJson).
Import Inventory(HolderSessionEntry, Running, Exited).
Import Metadata(SessionRecord, MetadataStore, Db, H, sessions).
Import Reconcile(ExitContext, HolderInventorySnapshot).
Import Threads.
Import DaemonService.
Local Open Scope N_scope.

Module DaemonGarbage.

Section garbage.
Context `{SnapshotJson} {B : Type} `{HolderService B} `{!HolderServiceLaws B} (os : Os).

(** ** What is asked of the holder *)

(** The session that an operation of the holder is about. *)
Definition target {A} (o : operation A) : option N :=
  match o with
  | Create r => Some (Session.session_id r)
  | Close id | GetExitContext id | Retire id | Kill id | Attach id _ => Some id
  | Refresh | HasExited | MarkUnavailable | IsConnected => None
  end.

(** The holder is asked for nothing but operations on the sessions in [P]. *)
Definition concerns (P : N -> Prop) A (c : call A) : Prop :=
  match c with Holder o => exists id, target o = Some id /\ P id | _ => True end.

Lemma concerns_mono (P Q : N -> Prop) : (forall id, P id -> Q id) -> forall A (c : call A), concerns P A c -> concerns Q A c.
Proof. intros HPQ A []; cbn; naive_solver. Qed.

Lemma reads_concern P {A} (t : Thread A) : reads t -> all_calls (concerns P) t.
Proof. apply reads_calls. by intros X []. Qed.

Lemma concerns_holder {A} (o : operation A) id : target o = Some id -> all_calls (concerns (fun i => i = id)) (holder o).
Proof. intros Ht. split; [|done]. by exists id. Qed.

Lemma concerns_exit_of id e observed : all_calls (concerns (fun i => i = id)) (DaemonServer.exit_of id e observed).
Proof.
  unfold DaemonServer.exit_of. destruct observed; [by case_match|]. case_bool_decide; [|by apply concerns_holder].
  destruct (Inventory.exit_context_available e); [by apply concerns_holder|]. by apply all_calls_bind.
Qed.

Lemma concerns_prepare_close id observed : all_calls (concerns (fun i => i = id)) (DaemonServer.prepare_close id observed).
Proof.
  unfold DaemonServer.prepare_close. apply all_calls_bind; [apply reads_concern, reads_holder_entry|]. intros [e|]; [|done].
  apply all_calls_bind; [apply reads_concern, reads_policy|]. intros policy.
  apply all_calls_bind; [apply reads_concern, reads_capture|]. intros direct.
  apply all_calls_bind; [by apply reads_concern, reads_perform|]. intros stored.
  apply all_calls_bind; [apply concerns_exit_of|]. done.
Qed.

Lemma concerns_kill_and_finalize id : all_calls (concerns (fun i => i = id)) (DaemonServer.kill_and_finalize id).
Proof.
  unfold DaemonServer.kill_and_finalize, DaemonServer.kill_session. apply all_calls_bind.
  - apply all_calls_bind; [apply reads_concern, reads_holder_entry|]. intros [e|]; [by apply concerns_holder|done].
  - intros _. unfold DaemonServer.finalize_runtime_exit, DaemonServer.metadata_then_retire.
    apply all_calls_bind; [apply concerns_prepare_close|]. intros found. apply all_calls_bind; [done|]. intros closed.
    apply all_calls_bind; [apply reads_concern, reads_encoded|]. intros environment.
    apply all_calls_bind; [|done]. apply all_calls_bind; [done|]. intros _. destruct (Daemon.c_holder_retire closed); [by apply concerns_holder|done].
Qed.

Lemma concerns_collect {C} (f : N -> Thread C) l : (forall id, all_calls (concerns (fun i => i = id)) (f id)) ->
  all_calls (concerns (fun i => i ∈ l)) (DaemonServer.collect f l).
Proof.
  intros Hf. induction l as [|x l IH]; [done|]. cbn [DaemonServer.collect].
  apply all_calls_bind; [|intros a; apply all_calls_bind; [|done]].
  - eapply all_calls_mono; [apply concerns_mono|apply Hf]. intros i ->. apply elem_of_cons. by left.
  - eapply all_calls_mono; [apply concerns_mono|apply IH]. intros i Hi. apply elem_of_cons. by right.
Qed.

(** ** The candidates *)

Definition is_candidate (now : N) (w : World B) (id : N) : bool :=
  negb (Daemon.is_attached id (Threads.manager w)) && negb (DaemonServer.is_pinned (sessions (metadata w) !! id)) &&
  negb (bool_decide (id ∈ Daemon.locked_sessions (Threads.manager w))) && Daemon.idle id now (Threads.manager w).

Lemma omap_zip {A} (f : A -> bool) (l : list A) :
  omap (fun x : A * bool => if x.2 then Some x.1 else None) (zip l (map f l)) = filter (fun x => f x = true) l.
Proof.
  induction l as [|x l IH]; [done|]. rewrite filter_cons. cbn [map zip zip_with omap list_omap]. fold (zip l (map f l)).
  change (list_omap ?A ?B ?h) with (omap (M := list) h) in *. rewrite <- IH. cbn [fst snd]. case_decide as E; [by rewrite E|].
  by destruct (f x).
Qed.

(** [collect] of threads that look, and answer what [g] says. *)
Lemma runs_collect {A C} (f : A -> Thread C) (g : A -> C) l w Q :
  (forall x n, runs (run os (f x)) (later n w) (fun r w' => r = Ok (g x) /\ exists n', w' = later n' w)) ->
  (forall n, Q (Ok (map g l)) (later n w)) -> forall n, runs (run os (DaemonServer.collect f l)) (later n w) Q.
Proof.
  intros Hf. revert Q. induction l as [|x l IH]; intros Q HQ n; cbn [DaemonServer.collect map].
  - apply runs_ret_thread, HQ.
  - rewrite runs_thread_bind. eapply runs_mono; [apply Hf|]. cbv beta. intros r w' [-> [n' ->]]. cbv beta iota.
    rewrite runs_thread_bind. apply IH. intros m. apply runs_ret_thread, HQ.
Qed.

Lemma runs_gc_candidate now w n id : (forall n, Metadata.answers (database os n) = true) ->
  runs (run os (DaemonServer.gc_candidate id now (record ← DaemonServer.get_session id; mret (DaemonServer.is_pinned record))))
    (later n w) (fun r w' => r = Ok (is_candidate now w id) /\ exists n', w' = later n' w).
Proof.
  intros Ha. unfold DaemonServer.gc_candidate, DaemonServer.manager, is_candidate. thread.
  cbn [later ticked Threads.manager]. destruct (Daemon.is_attached id (Threads.manager w)).
  - thread. split; [done|]. by eexists.
  - rewrite !runs_thread_bind, runs_get_session by done. thread. split; [done|]. by eexists.
Qed.

Definition candidates (now : N) (w : World B) : list N :=
  if Daemon.gc_idle_timeout (Threads.manager w) =? 0 then []
  else filter (fun id => is_candidate now w id = true)
    (Daemon.runtime_ids (Reconcile.entries (inventory (backend w))) (Threads.manager w)).

Lemma runs_gc_candidates w (Q : result persist_error (list N) -> World B -> Prop) :
  (forall n, Metadata.answers (database os n) = true) ->
  (forall now n, Q (Ok (candidates now w)) (later n w)) -> runs (run os DaemonServer.gc_candidates) w Q.
Proof.
  intros Ha HQ. unfold DaemonServer.gc_candidates, DaemonServer.manager. thread. unfold candidates in HQ.
  destruct (Daemon.gc_idle_timeout (Threads.manager w) =? 0); thread; [by apply (HQ 0)|].
  set (now := answer _ _ _ _). match goal with |- runs (run _ (DaemonServer.collect _ ?l)) _ _ => set (ids := l) end.
  match goal with |- runs _ ?w1 _ => change w1 with (later (S (S (S (tick w)))) w) end.
  apply (runs_collect _ (is_candidate now w)); [intros x n; by apply runs_gc_candidate|].
  intros n. thread. rewrite omap_zip. apply HQ.
Qed.

(** ** The collection *)

(** What the daemon knows of a session. *)
Definition known (id : N) (w : World B) :=
  (sessions (metadata w) !! id, Daemon.session_info (Threads.manager w) !! id,
   Daemon.attached_sessions (Threads.manager w) !! id, Daemon.ro_attached (Threads.manager w) !! id).

Definition spares (P : N -> Prop) (w w' : World B) : Prop :=
  sound (backend w') /\ sent w' = sent w /\ forall id, ~ P id -> known id w' = known id w.

(** The session is closed and forgotten. *)
Definition gone (id : N) (w : World B) : Prop :=
  Daemon.session_info (Threads.manager w) !! id = None /\ Daemon.attached_sessions (Threads.manager w) !! id = None /\
  forall row, sessions (metadata w) !! id = Some row ->
    Metadata.status row = lit "closed" /\ is_Some (Metadata.exit_code row).

Lemma spares_known (P : N -> Prop) w w' id : spares P w w' -> ~ P id -> gone id w -> gone id w'.
Proof.
  intros (_ & _ & Hk) HP. specialize (Hk id HP). unfold known in Hk. injection Hk as E1 E2 E3 _.
  unfold gone. by rewrite E1, E2, E3.
Qed.

Lemma finalized_spares id observed w w1 r w' : unchanged w w1 -> finalized id observed w1 r w' ->
  spares (fun i => i = id) w w' /\ (is_ok r = true -> gone id w').
Proof.
  intros (M1 & D1 & S1 & _) (Hs & Hsent & Hf). destruct r as [u|err]; cbn [is_ok].
  - destruct Hf as (e & x & _ & _ & (Ht & Hj & Hrow) & Hm). rewrite M1 in Hm. rewrite D1 in Hj, Hrow. split.
    + split_and!; [done|by rewrite Hsent|]. intros i Hi. unfold known. rewrite Hj, Hm by done. unfold Daemon.finish_close.
      cbn. by rewrite !lookup_delete_ne by done.
    + intros _. unfold gone. rewrite Hm. unfold Daemon.finish_close. cbn. rewrite !lookup_delete_eq. split_and!; [done..|].
      intros row Hr. destruct (sessions (metadata w) !! id) as [row0|]; [|congruence].
      destruct Hrow as (row' & Hr' & Hst & Hex & _). rewrite Hr in Hr'. injection Hr' as <-. rewrite Hst, Hex. by split.
  - split; [|done]. split_and!; [done|by rewrite Hsent|]. intros i Hi. destruct Hf as [Hm Hd].
    assert (Hsame : sessions (metadata w') !! i = sessions (metadata w) !! i).
    { destruct (found id w1); [|by destruct Hd as [_ Hd]; rewrite Hd, D1].
      destruct Hd as [Hd|(x & _ & _ & Hj & _)]; [by rewrite Hd, D1|by rewrite Hj, D1]. }
    unfold known. by rewrite Hsame, Hm, M1.
Qed.

Lemma runs_kill_and_finalize id w : sound (backend w) ->
  runs (run os (DaemonServer.kill_and_finalize id)) w (fun r w' =>
    spares (fun i => i = id) w w' /\ (is_ok r = true -> gone id w')).
Proof.
  intros Hs. unfold DaemonServer.kill_and_finalize, DaemonServer.kill_session, DaemonServer.holder_entry, DaemonServer.manager.
  assert (Hrest : forall (r : result persist_error unit) w1, unchanged w w1 ->
    match r with
    | Ok _ => runs (run os (DaemonServer.finalize_runtime_exit id None)) w1 (fun r w' =>
        spares (fun i => i = id) w w' /\ (is_ok r = true -> gone id w'))
    | Err err => spares (fun i => i = id) w w1 /\ (is_ok (Err err : result persist_error unit) = true -> gone id w1)
    end).
  { intros r w1 Hw. destruct r as [u|err].
    - eapply runs_mono; [apply runs_finalize, Hw|]. cbv beta. intros r2 w2 Hf. by eapply finalized_spares.
    - split; [|done]. destruct Hw as (M & D & S1 & Hs1). split_and!; [done..|]. intros i _. unfold known. by rewrite M, D. }
  thread. match goal with |- context [match ?o with Some _ => _ | None => _ end] => destruct o end.
  - apply operate_any; [done|]. intros r w1 Hw. by apply (Hrest r w1).
  - thread. by apply (Hrest (Ok tt)).
Qed.

Lemma runs_collection l w : NoDup l -> sound (backend w) ->
  runs (run os (DaemonServer.collect (fun id => done ← attempt (DaemonServer.kill_and_finalize id); mret (is_ok done)) l)) w
    (fun r w' => exists flags, r = Ok flags /\ spares (fun id => id ∈ l) w w' /\
       forall id, (id, true) ∈ zip l flags -> gone id w').
Proof.
  revert w. induction l as [|i l IH]; intros w Hn Hs; cbn [DaemonServer.collect].
  { thread. exists []. split; [done|]. split; [by split_and!|]. intros id Hi. by apply not_elem_of_nil in Hi. }
  apply NoDup_cons in Hn as [Hi Hn]. thread.
  eapply runs_mono; [by apply runs_kill_and_finalize|]. cbv beta. intros r w1 [(Hs1 & Hsent & Hk) Hg]. thread.
  eapply runs_mono; [by apply IH|]. cbv beta. intros r2 w2 (flags & -> & Hsp & Hgone). thread.
  exists (is_ok r :: flags). split; [done|]. split.
  - destruct Hsp as (Hs2 & Hsent2 & Hk2). split_and!; [done|by rewrite Hsent2|].
    intros id Hid. rewrite not_elem_of_cons in Hid. rewrite Hk2, Hk; naive_solver.
  - intros id Hid. cbn in Hid. apply elem_of_cons in Hid as [E|Hid]; [|by apply Hgone].
    injection E as -> E. eapply spares_known; [exact Hsp|exact Hi|by apply Hg].
Qed.

(** A session the collection may end: it has a runtime that is not an orphan's,
    nobody writes to it, it is neither pinned nor locked, and nothing was
    recorded of it for the time that is configured. *)
Definition idle_session (now id : N) (w : World B) : Prop :=
  let s := Threads.manager w in
  Daemon.gc_idle_timeout s <> 0 /\
  (exists e, e ∈ Reconcile.entries (inventory (backend w)) /\ Inventory.session_id e = id) /\
  Daemon.is_orphaned id s = false /\ Daemon.attached_sessions s !! id = None /\ (id ∉ Daemon.locked_sessions s) /\
  (forall row, sessions (metadata w) !! id = Some row -> Metadata.pinned row = false) /\
  (forall last, Daemon.last_activity s !! id = Some last -> Daemon.gc_idle_timeout s <= now - last).

Lemma elem_of_runtime_ids id l s : id ∈ Daemon.runtime_ids l s <->
  (exists e, e ∈ l /\ Inventory.session_id e = id) /\ Daemon.is_orphaned id s = false.
Proof.
  unfold Daemon.runtime_ids. rewrite merge_sort_Permutation, elem_of_elements, elem_of_list_to_set, list_elem_of_fmap.
  setoid_rewrite list_elem_of_filter. split; [by intros (e & -> & Ho & Hin); split; [exists e|]|].
  intros [(e & Hin & <-) Ho]. by exists e.
Qed.

Lemma candidates_idle now w id : id ∈ candidates now w <-> idle_session now id w.
Proof.
  unfold candidates, idle_session. cbv zeta.
  destruct (N.eqb_spec (Daemon.gc_idle_timeout (Threads.manager w)) 0) as [E|E];
    [by split; [intros ?%not_elem_of_nil|intros []]|].
  rewrite list_elem_of_filter, elem_of_runtime_ids. unfold is_candidate. rewrite !andb_true_iff, !negb_true_iff.
  assert (Hp : DaemonServer.is_pinned (sessions (metadata w) !! id) = false <->
    (forall row, sessions (metadata w) !! id = Some row -> Metadata.pinned row = false)).
  { unfold DaemonServer.is_pinned. destruct (sessions (metadata w) !! id); naive_solver. }
  assert (Ha : Daemon.is_attached id (Threads.manager w) = false <-> Daemon.attached_sessions (Threads.manager w) !! id = None).
  { unfold Daemon.is_attached. by rewrite bool_decide_eq_false, eq_None_not_Some. }
  assert (Hi : Daemon.idle id now (Threads.manager w) = true <-> forall last,
    Daemon.last_activity (Threads.manager w) !! id = Some last -> Daemon.gc_idle_timeout (Threads.manager w) <= now - last).
  { unfold Daemon.idle. destruct (Daemon.last_activity (Threads.manager w) !! id) as [last|]; [rewrite N.leb_le|]; naive_solver. }
  rewrite Hp, Ha, Hi, bool_decide_eq_false. naive_solver.
Qed.

Lemma NoDup_candidates now w : NoDup (candidates now w).
Proof.
  unfold candidates. case_match; [apply NoDup_nil_2|]. apply NoDup_filter. unfold Daemon.runtime_ids.
  rewrite merge_sort_Permutation. apply NoDup_elements.
Qed.

(** The collection once its candidates are chosen. *)
Definition end_all (l : list N) : Thread (list N) :=
  removed ← DaemonServer.collect (fun id => done ← attempt (DaemonServer.kill_and_finalize id); mret (is_ok done)) l;
  mret (omap (fun x : N * bool => if x.2 then Some x.1 else None) (zip l removed)).

Lemma reads_gc_candidates : reads DaemonServer.gc_candidates.
Proof. unfold DaemonServer.gc_candidates, DaemonServer.gc_candidate, DaemonServer.manager. reads. Qed.

Lemma run_gc_candidates w : (forall n, Metadata.answers (database os n) = true) ->
  exists now n, run os DaemonServer.gc_candidates w = Some (Ok (candidates now w), later n w).
Proof.
  intros Ha. assert (Hr : runs (run os DaemonServer.gc_candidates) w
    (fun r w' => exists now n, r = Ok (candidates now w) /\ w' = later n w)) by (apply runs_gc_candidates; eauto).
  apply runs_eq in Hr as (r & w' & Hr & now & n & -> & ->). by exists now, n.
Qed.

(** What the collection asks of the holder concerns its candidates. *)
Lemma collection_concerns w now n : run os DaemonServer.gc_candidates w = Some (Ok (candidates now w), later n w) ->
  Forall (fun e => concerns (fun id => id ∈ candidates now w) _ (asked e)) (log os DaemonServer.collect_garbage w).
Proof.
  intros Hr. change DaemonServer.collect_garbage with (DaemonServer.gc_candidates ≫= end_all). rewrite log_bind, Hr.
  apply Forall_app. split; apply all_calls_log.
  - apply reads_concern, reads_gc_candidates.
  - apply all_calls_bind; [|done]. apply concerns_collect. intros id.
    apply all_calls_bind; [|done]. apply all_calls_attempt, concerns_kill_and_finalize.
Qed.

End garbage.

(** ** An example *)

#[local] Existing Instances Samples.toy_service Samples.toy_laws Environment.bits_json.

(** Sessions 5 and 6 are idle; session 6 is locked. *)
Definition idle_world : World HolderInventorySnapshot :=
  Samples.world (Daemon.mkManager (Daemon.session_info Samples.manager0) 4096 true 4096 false [] [] [] 10 ∅ ∅ ∅ 60
      {[6]} ∅ ∅ Daemon.default_recovery)
    [Samples.row 5 "running" false; Samples.row 6 "running" true] [Samples.entry 5 Running; Samples.entry 6 Running].

End DaemonGarbage.
