(* ===== verification/DaemonTypes.v ===== *)
(** * DaemonTypes: what every interleaving of the daemon's threads keeps.

    All threads of [crates/persistd/src/server.rs] at once: the metadata stays
    well formed whatever order their calls come in. *)
From S2P Require Import Prelude OrderedMap Bytes Environment ShellState HolderMessages HolderSession Effects ClientFrame ClientMessages Metadata Reconcile MetadataTypes HolderBackend Daemon DaemonThreads DaemonServer DaemonSamples DaemonCalls DaemonSafety.
From Stdlib Require Import Lia.
Import String.StringSyntax.
Import Environment(SnapshotJson).
Import Inventory(Running, Exited).
Import Metadata(SessionRecord, MetadataStore, Db, H).
Import MetadataTypes.
Import Reconcile(HolderInventorySnapshot).
Import Threads.
Import DaemonCalls.
Local Open Scope N_scope.

Module DaemonTypes.

(** Calls whose statements keep the metadata well formed; [answers] says whether
    they may answer a client. *)
Definition tidy_call (answers : bool) {A} (c : call A) : Prop :=
  match c with Ms f => total f | Send _ _ | WriteByte _ _ => answers = true | _ => True end.
Definition tidy (answers : bool) {A} (t : Thread A) : Prop := all_calls (@tidy_call answers) t.

Lemma tidy_bind b {A C} (t : Thread A) (k : A -> Thread C) : tidy b t -> (forall a, tidy b (k a)) -> tidy b (t ≫= k).
Proof. apply all_calls_bind. Qed.
Lemma tidy_attempt b {A} (t : Thread A) : tidy b t -> tidy b (attempt t).
Proof. apply all_calls_attempt. Qed.
Lemma tidy_inner b {A} (t : Thread A) : inner t -> tidy b t.
Proof. apply DaemonCalls.inner_calls. intros X c Hc. by destruct c. Qed.
Lemma tidy_return b {A} (r : result persist_error A) : tidy b (Return r).
Proof. done. Qed.
Lemma tidy_perform b {A} (c : call A) : tidy_call b c -> tidy b (Perform c mret).
Proof. by split. Qed.
Lemma tidy_perform_ignored b {A} (c : call A) : tidy_call b c -> tidy b (Perform c (fun _ => mret tt)).
Proof. by split. Qed.
Lemma tidy_perform_result b {A} (c : call (result persist_error A)) : tidy_call b c -> tidy b (Perform c lift).
Proof. by split. Qed.
Lemma tidy_each b {A} (f : A -> Thread unit) l : (forall x, tidy b (f x)) -> tidy b (each f l).
Proof. apply all_calls_each. Qed.
Lemma tidy_collect b {A C} (f : A -> Thread C) l : (forall x, tidy b (f x)) -> tidy b (DaemonServer.collect f l).
Proof. apply all_calls_collect. Qed.
Lemma tidy_repeat b n t : tidy b t -> tidy b (repeat_thread n t).
Proof. apply all_calls_repeat. Qed.

Lemma tidy_calls b {A} (t : Thread A) : tidy b t -> all_calls (@tidy_call b) t.
Proof. done. Qed.

Create HintDb tidy.
#[export] Hint Resolve tidy_attempt tidy_return tidy_each tidy_collect tidy_repeat : tidy.
#[export] Hint Resolve tidy_perform tidy_perform_ignored tidy_perform_result tidy_inner : tidy.
#[export] Hint Extern 1 (tidy_call _ (Ms ?f)) => (change (total f)) : tidy.
#[export] Hint Extern 2 (tidy_call _ _) => first [exact I|reflexivity] : tidy.
#[global] Opaque tidy.
Ltac tidy := repeat first
  [ solve [eauto with tidy inner]
  | apply tidy_bind; [|intros ?]
  | apply tidy_attempt | apply tidy_each; intros ? | apply tidy_collect; intros ? | apply tidy_repeat
  | match goal with |- tidy _ (match ?x with _ => _ end) => destruct x end
  | progress (unfold ask, sm, sm_update, sm_call, ms, Threads.cached, holder, send, write_byte, lift, fail,
      DaemonServer.respond, DaemonServer.op_resp, DaemonServer.manager) ].

Section tasks.
Context `{SnapshotJson} (show : persist_error -> str) (json_text : DaemonServer.Json -> str)
  (entries_of : str -> option (list (str * str))) (holder_pid : N) (foreign_keys : bool).

Lemma tidy_finalize b id observed : tidy b (DaemonServer.finalize_runtime_exit id observed).
Proof. unfold DaemonServer.finalize_runtime_exit, DaemonServer.metadata_then_retire. tidy. Qed.
Lemma tidy_close_session b id : tidy b (DaemonServer.close_session id).
Proof. unfold DaemonServer.close_session. tidy. Qed.
#[local] Hint Resolve tidy_finalize tidy_close_session : tidy.

Lemma tidy_new_session b : tidy b DaemonServer.new_session.
Proof. unfold DaemonServer.new_session. tidy. Qed.
Lemma tidy_reopen_closed b record id env : tidy b (DaemonServer.reopen_closed entries_of record id env).
Proof. unfold DaemonServer.reopen_closed. tidy. Qed.
Lemma tidy_after_proxy b id outcome : tidy b (DaemonServer.after_proxy id outcome).
Proof. unfold DaemonServer.after_proxy. tidy. Qed.
Lemma tidy_kill_and_finalize b id : tidy b (DaemonServer.kill_and_finalize id).
Proof. unfold DaemonServer.kill_and_finalize. tidy. Qed.
#[local] Hint Resolve tidy_new_session tidy_reopen_closed tidy_after_proxy tidy_kill_and_finalize : tidy.

Lemma tidy_serve_writer b fd id data initial_output : tidy b (DaemonServer.serve_writer fd id data initial_output).
Proof. unfold DaemonServer.serve_writer. tidy. Qed.
Lemma tidy_serve_reader b fd id data : tidy b (DaemonServer.serve_reader fd id data).
Proof. unfold DaemonServer.serve_reader. tidy. Qed.
#[local] Hint Resolve tidy_serve_writer tidy_serve_reader : tidy.

Lemma tidy_handle_attach fd payload : tidy true (DaemonServer.handle_attach show entries_of fd payload).
Proof. unfold DaemonServer.handle_attach, DaemonServer.attach_resp. tidy. Qed.
Lemma tidy_handle_attach_read_only fd payload : tidy true (DaemonServer.handle_attach_read_only show fd payload).
Proof. unfold DaemonServer.handle_attach_read_only, DaemonServer.attach_resp. tidy. Qed.
#[local] Hint Resolve tidy_handle_attach tidy_handle_attach_read_only : tidy.

Lemma tidy_handle_frame fd frame : tidy true (DaemonServer.handle_frame show json_text entries_of holder_pid foreign_keys fd frame).
Proof.
  destruct frame as [kind fl id payload]. unfold DaemonServer.handle_frame, DaemonServer.decoded.
  destruct kind; cbn [ClientFrame.msg_type ClientFrame.payload ClientFrame.request_id];
    unfold DaemonServer.handle_hello, DaemonServer.handle_list_sessions, DaemonServer.handle_new_session,
    DaemonServer.handle_detach, DaemonServer.handle_rename, DaemonServer.handle_detach_signal,
    DaemonServer.handle_signal, DaemonServer.handle_note_set, DaemonServer.handle_note_get, DaemonServer.handle_tag_add,
    DaemonServer.handle_tag_remove, DaemonServer.handle_tag_list, DaemonServer.handle_list_sessions_by_tag,
    DaemonServer.handle_pin_set, DaemonServer.handle_lock_set, DaemonServer.handle_close, DaemonServer.handle_kill,
    DaemonServer.handle_process_tree, DaemonServer.handle_process_stats, DaemonServer.handle_session_snapshot,
    DaemonServer.handle_metrics, DaemonServer.handle_dashboard; tidy.
Qed.

Lemma tidy_refresh order policy : tidy true (DaemonServer.refresh order policy).
Proof. unfold DaemonServer.refresh, DaemonServer.refresh_and_reconcile, DaemonServer.retire_ended. tidy. Qed.

Lemma tidy_task {A} (t : Thread A) : DaemonSafety.task show json_text entries_of holder_pid foreign_keys A t -> tidy true t.
Proof.
  intros []; [apply tidy_handle_frame| |apply tidy_refresh|].
  - unfold DaemonServer.collect_garbage. tidy.
  - unfold DaemonServer.startup. tidy.
Qed.

(** ** All threads *)

(** A thread of the pool does one task; threads of clients do one after the
    other, which is one order of many. *)
Inductive starts : Thread unit -> Prop :=
| start A (t : Thread A) : DaemonSafety.task show json_text entries_of holder_pid foreign_keys A t ->
    starts (_ ← attempt t; mret tt).

Context {B : Type} `{HolderService B} (os : Os).

Lemma tidy_keeps {A} (c : call A) : tidy_call true c -> keeps (B := B) os (fun w => well_formed (metadata w)) c.
Proof.
  intros Hc w b w' Hw. destruct c as [X q|X f|X f| |X o|fd f|fd b0]; cbn [perform].
  1, 4, 6, 7: by intros [= _ <-].
  - destruct (f (manager w)) as [a s]. by intros [= _ <-].
  - specialize (Hc (database os (tick w)) (metadata w)). unfold runs in Hc.
    destruct (f _ (metadata w)) as [[r s]|]; [|done]. cbn. intros [= _ <-]. by apply Hc.
  - destruct (operate X o (backend w)) as [[r s]|]; [|done]. cbn. by intros [= _ <-].
Qed.

(** C6: However the tasks of the daemon's threads interleave, call by call, and
    whatever the holder, the system and the database answer, the metadata keeps
    its type: a row is under its own id, is running, closed or lost, has an exit
    code and a closing time exactly when it is closed, and names a holder by 32
    hexadecimal digits with a generation that fits the column, or none; no tag is
    blank or has a space. *)
Theorem metadata_stays_well_formed w pool w' : rtc (step os starts) ([], w) (pool, w') ->
  well_formed (metadata w) -> well_formed (metadata w').
Proof.
  intros Hr Hw. refine (pool_invariant os starts (fun w => well_formed (metadata w)) _ w pool w' Hw Hr).
  intros t [A t' Ht]. apply (all_calls_mono (@tidy_call true)); [intros X c; apply tidy_keeps|].
  apply all_calls_bind; [by apply all_calls_attempt, tidy_calls, tidy_task|done].
Qed.
End tasks.
#[export] Hint Resolve tidy_finalize tidy_close_session tidy_new_session tidy_reopen_closed tidy_after_proxy
  tidy_kill_and_finalize tidy_serve_writer tidy_serve_reader : tidy.

#[local] Existing Instances Samples.toy_service Environment.bits_json.

(** A thread locks session 5. *)
Definition locking : Thread unit :=
  _ ← attempt (Samples.handle (Samples.frame ClientFrame.LockSet (ClientMessages.encode_lock 5 true))); mret tt.
Definition before_lock : World HolderInventorySnapshot :=
  Samples.world Samples.manager0 [Samples.row 5 "running" false] [Samples.entry 5 Running].

Lemma metadata_stays_well_formed_witness : exists pool w',
  rtc (step (Samples.toy_os (Ok None)) (starts Samples.show Samples.json_text Samples.no_entries 99 true))
    ([], before_lock) (pool, w') /\
  well_formed (metadata w') /\ Metadata.locked <$> Metadata.sessions (metadata w') !! 5 = Some true.
Proof.
  assert (Hr : exists pool w',
    rtc (step (Samples.toy_os (Ok None)) (starts Samples.show Samples.json_text Samples.no_entries 99 true))
      ([], before_lock) (pool, w') /\ Metadata.locked <$> Metadata.sessions (metadata w') !! 5 = Some true).
  { eexists _, _. split.
    - eapply rtc_l; [apply (step_start _ _ _ locking), start, DaemonSafety.task_frame|].
      apply rtc_once. eapply (step_call _ _ 0%nat); reflexivity.
    - vm_compute. reflexivity. }
  destruct Hr as (pool & w' & Hr & Hl). exists pool, w'. split; [exact Hr|]. split; [|exact Hl].
  apply (metadata_stays_well_formed _ _ _ _ _ _ _ _ _ Hr). split.
  - apply map_Forall_singleton. split; [reflexivity|]. split; [left; split; [reflexivity|split; reflexivity]|exact I].
  - intros id tag Hin. vm_compute in Hin. discriminate Hin.
Defined.
End DaemonTypes.
