(* ===== verification/DaemonStart.v ===== *)
(** * DaemonStart: the state the daemon starts in.

    [run_foreground] of [crates/persistd/src/server.rs] up to its loop: what the
    manager holds when the first client is accepted. *)
From S2P Require Import Prelude OrderedMap Bytes Environment ShellState HolderMessages Effects ClientFrame ClientMessages Metadata Reconcile MetadataTypes HolderBackend Daemon DaemonThreads DaemonServer DaemonSamples DaemonCalls DaemonService DaemonGarbage.
From Stdlib Require Import Lia.
Import String.StringSyntax.
Import Environment(SnapshotJson).
Import Inventory(HolderSessionEntry, Running, Exited).
Import Metadata(SessionRecord, MetadataStore, Db, H, sessions).
Import MetadataTypes(well_formed, orderly, row_ok, orderly_reconcile).
Import Reconcile(ExitContext, HolderInventorySnapshot).
Import Threads.
Import DaemonService.
Local Open Scope N_scope.

Module DaemonStart.

(** ** Rows loaded *)

Definition info_of (r : SessionRecord) : Daemon.SessionInfo := Daemon.mkInfo (Metadata.name r) (Metadata.shell r).

Lemma load_metadata_kept l s : let s' := Daemon.load_metadata l s in
  Daemon.attached_sessions s' = Daemon.attached_sessions s /\ Daemon.ro_attached s' = Daemon.ro_attached s /\
  Daemon.last_activity s' = Daemon.last_activity s /\ Daemon.recovery_contexts s' = Daemon.recovery_contexts s.
Proof.
  revert s. induction l as [|r l IH]; intros s; [done|]. exact (IH (Daemon.set_locked (Metadata.session_id r) (Metadata.locked r)
    (Daemon.set_session_info <[Metadata.session_id r := info_of r]> s))).
Qed.

Lemma load_metadata_other l s id : id ∉ map Metadata.session_id l -> let s' := Daemon.load_metadata l s in
  Daemon.session_info s' !! id = Daemon.session_info s !! id /\
  (id ∈ Daemon.locked_sessions s' <-> id ∈ Daemon.locked_sessions s).
Proof.
  revert s. induction l as [|r l IH]; intros s; [done|]. cbn [map]. rewrite not_elem_of_cons. intros [Hr Hl]. cbn.
  destruct (IH (Daemon.set_locked (Metadata.session_id r) (Metadata.locked r)
    (Daemon.set_session_info <[Metadata.session_id r := info_of r]> s)) Hl) as [E1 E2].
  unfold Daemon.load_metadata, info_of in *. rewrite E1, E2. split; [by apply lookup_insert_ne|].
  unfold Daemon.set_locked. cbn. destruct (Metadata.locked r); set_solver.
Qed.

Lemma load_metadata_row l s r : NoDup (map Metadata.session_id l) -> r ∈ l -> let s' := Daemon.load_metadata l s in
  Daemon.session_info s' !! Metadata.session_id r = Some (info_of r) /\
  (Metadata.session_id r ∈ Daemon.locked_sessions s' <-> Metadata.locked r = true).
Proof.
  revert s. induction l as [|x l IH]; intros s; [by intros _ ?%not_elem_of_nil|]. cbn [map].
  intros [Hx Hl]%NoDup_cons [->|Hr]%elem_of_cons; [|by apply IH].
  destruct (load_metadata_other l (Daemon.set_locked (Metadata.session_id x) (Metadata.locked x)
    (Daemon.set_session_info <[Metadata.session_id x := info_of x]> s)) (Metadata.session_id x) Hx) as [E1 E2].
  unfold Daemon.load_metadata, info_of in *. cbn. rewrite E1, E2. split; [by apply lookup_insert_eq|].
  unfold Daemon.set_locked. cbn. destruct (Metadata.locked x); set_solver.
Qed.

(** The whole table loaded. *)
Lemma load_metadata_table m s : map_Forall row_ok (sessions m) -> Daemon.session_info s = ∅ -> Daemon.locked_sessions s = ∅ ->
  let s' := Daemon.load_metadata (map snd (ordered (sessions m))) s in
  (forall id, Daemon.session_info s' !! id = info_of <$> sessions m !! id) /\
  (forall id, id ∈ Daemon.locked_sessions s' <-> exists r, sessions m !! id = Some r /\ Metadata.locked r = true).
Proof.
  intros Hk Hi Hl s'. set (l := map snd (ordered (sessions m))) in *.
  assert (Hids : map Metadata.session_id l = (ordered (sessions m)).*1).
  { unfold l. rewrite map_map. apply map_ext_in. intros [k x] Hx%list_elem_of_In%elem_of_ordered. by apply (Hk k x). }
  assert (Hn : NoDup (map Metadata.session_id l)) by (rewrite Hids; apply ordered_NoDup).
  assert (Hrow : forall id r, sessions m !! id = Some r -> Metadata.session_id r = id /\ r ∈ l).
  { intros id r Hr. split; [by apply (Hk id r)|]. apply list_elem_of_fmap. exists (id, r). split; [done|]. by apply elem_of_ordered. }
  assert (Hnone : forall id, sessions m !! id = None -> id ∉ map Metadata.session_id l).
  { intros id Hr. rewrite Hids. intros ([k x] & -> & Hx%elem_of_ordered)%list_elem_of_fmap. cbn in Hr. congruence. }
  split; intros id; destruct (sessions m !! id) as [r|] eqn:Hr.
  - destruct (Hrow id r Hr) as [<- Hin]. by apply (load_metadata_row l s r).
  - destruct (load_metadata_other l s id (Hnone id Hr)) as [E _]. unfold s'. by rewrite E, Hi.
  - destruct (Hrow id r Hr) as [<- Hin]. destruct (load_metadata_row l s r Hn Hin) as [_ E]. unfold s'. rewrite E. naive_solver.
  - destruct (load_metadata_other l s id (Hnone id Hr)) as [_ E]. unfold s'. rewrite E, Hl. set_solver.
Qed.
(** ** Threads that look, and ask the holder *)

Definition asking {A} (c : call A) : Prop := match c with Holder _ => True | _ => reading c end.
Definition asks {A} (t : Thread A) : Prop := all_calls (@asking) t.

Section start.
Context `{SnapshotJson} {B : Type} `{HolderService B} `{!HolderServiceLaws B} (os : Os).

Lemma asks_spec {A} (t : Thread A) w (Q : result persist_error A -> World B -> Prop) : asks t -> sound (backend w) ->
  (forall r w', unchanged w w' -> Q r w') -> runs (run os t) w Q.
Proof.
  unfold asks. revert w. induction t as [r|X c k IH]; intros w Ht Hs HQ; [by apply HQ|]. destruct Ht as [Hc Hk].
  assert (Hone : match perform os c w with Some (_, w') => unchanged w w' | None => False end).
  { destruct c as [Y q|Y f|Y f| |Y o|fd f|fd b0]; try done; cbn [perform].
    - cbn in Hc. specialize (Hc (manager w)). destruct (f (manager w)) as [a s]. cbn in Hc |- *. by subst.
    - cbn in Hc. specialize (Hc (database os (tick w)) (metadata w)). unfold runs in Hc.
      destruct (f _ (metadata w)) as [[r s]|]; [|done]. cbn. by subst.
    - pose proof (operate_sound Y o (backend w) Hs) as Ho. unfold runs in Ho.
      destruct (operate Y o (backend w)) as [[r b]|]; [|done]. cbn. by destruct Ho. }
  unfold runs in *. cbn. destruct (perform os c w) as [[b w']|]; [|done]. cbn.
  apply IH; [apply Hk|apply Hone|]. intros r w2 Hw2. apply HQ. by eapply unchanged_trans.
Qed.

Lemma asks_collect_exit_contexts snapshot : asks (DaemonServer.collect_exit_contexts snapshot).
Proof.
  unfold DaemonServer.collect_exit_contexts, DaemonServer.exit_contexts, asks.
  apply all_calls_bind; [apply DaemonCalls.all_calls_fold|intros; apply DaemonCalls.all_calls_fold]; intros contexts e.
  - split; [done|]. by intros [x|err].
  - unfold DaemonServer.add_exit_context. split; [done|]. intros dir. cbn. destruct (contexts !! _); [done|].
    by destruct (Inventory.exit_code e).
Qed.

(** ** Fresh ids *)

Lemma foldr_max_le l id : id ∈ l -> id <= foldr N.max 0 l.
Proof. induction l as [|x l IH]; [by intros ?%not_elem_of_nil|]. cbn. intros [->|Hi]%elem_of_cons; [lia|]. specialize (IH Hi). lia. Qed.

Lemma max_id_le m id : is_Some (sessions m !! id) -> id <= Metadata.max_id m.
Proof.
  intros [r Hr]. unfold Metadata.max_id. apply elem_of_map_to_list in Hr. revert Hr.
  induction (map_to_list (sessions m)) as [|[k x] l IH]; [by intros ?%not_elem_of_nil|]. cbn.
  intros [[= -> ->]|Hi]%elem_of_cons; [lia|]. specialize (IH Hi). lia.
Qed.

Lemma next_session_id_fresh db m (Q : result persist_error N -> MetadataStore -> Prop) :
  (forall e, Q (Err e) m) ->
  (forall n, (forall id, is_Some (sessions m !! id) -> id < n) -> n <= u32_max -> Q (Ok n) m) ->
  runs (Metadata.next_session_id db) m Q.
Proof.
  intros N1 N2. unfold Metadata.next_session_id. destruct (Metadata.answers db); run; [|by apply N1].
  destruct (N.ltb_spec u32_max (Metadata.max_id m)); run; [by apply N1|].
  destruct (N.ltb_spec u32_max (Metadata.max_id m + 1)); run; [by apply N1|]. apply N2; [|done].
  intros id Hid%max_id_le. lia.
Qed.

Lemma holder_next_fresh snapshot n : DaemonServer.holder_next snapshot = Ok n ->
  (forall e, e ∈ Reconcile.entries snapshot -> Inventory.session_id e < n) /\ n <= u32_max.
Proof.
  unfold DaemonServer.holder_next. intros Hn.
  assert (Hmax : forall e, e ∈ Reconcile.entries snapshot ->
    Inventory.session_id e <= foldr N.max 0 (map Inventory.session_id (Reconcile.entries snapshot))).
  { intros e He. apply foldr_max_le. apply list_elem_of_fmap. by exists e. }
  destruct (map Inventory.session_id (Reconcile.entries snapshot)) as [|i l] eqn:E.
  - injection Hn as <-. split; [|done]. intros e He. apply map_eq_nil in E. rewrite E in He. by apply not_elem_of_nil in He.
  - destruct (N.ltb_spec u32_max (foldr N.max 0 (i :: l) + 1)); [discriminate|]. injection Hn as <-.
    split; [|done]. intros e He. specialize (Hmax e He). cbn [foldr] in *. lia.
Qed.

(** ** The start *)

(** The manager [s] of a daemon that starts with the metadata [m] and the
    inventory [snapshot]. *)
Definition starts_as (c : DaemonServer.Config) (m : MetadataStore) (snapshot : HolderInventorySnapshot)
    (s : Daemon.SessionManager) : Prop :=
  (forall id, is_Some (sessions m !! id) -> id < Daemon.next_id s) /\
  (forall e, e ∈ Reconcile.entries snapshot -> Inventory.session_id e < Daemon.next_id s) /\
  Daemon.next_id s <= u32_max /\
  (forall id, Daemon.session_info s !! id = info_of <$> sessions m !! id) /\
  (forall id, id ∈ Daemon.locked_sessions s <-> exists row, sessions m !! id = Some row /\ Metadata.locked row = true) /\
  Daemon.attached_sessions s = ∅ /\ Daemon.ro_attached s = ∅ /\ Daemon.last_activity s = ∅ /\
  Daemon.gc_idle_timeout s = DaemonServer.gc_timeout c.

Lemma configured_starts c m snapshot orphans n1 n2 : map_Forall row_ok (sessions m) ->
  (forall id, is_Some (sessions m !! id) -> id < n1) -> n1 <= u32_max -> DaemonServer.holder_next snapshot = Ok n2 ->
  starts_as c m snapshot (DaemonServer.configured c (map snd (ordered (sessions m))) orphans (N.max n1 n2)).
Proof.
  intros Hm N1 N2 [N3 N4]%holder_next_fresh. unfold DaemonServer.configured.
  set (s0 := Daemon.new _ _ _ _ _). destruct (load_metadata_table m s0 Hm) as [Hi Hl]; [done..|].
  destruct (load_metadata_kept (map snd (ordered (sessions m))) s0) as (E1 & E2 & E3 & _).
  split_and!; cbn; [intros id Hid%N1; lia|intros e He%N3; lia|lia|exact Hi|exact Hl|exact E1|exact E2|exact E3|done].
Qed.

Lemma runs_startup c order w : sound (backend w) -> well_formed (metadata w) ->
  runs (run os (DaemonServer.startup c order)) w (fun r w' => sent w' = sent w /\ well_formed (metadata w') /\
    match r with
    | Err _ => Threads.manager w' = Threads.manager w
    | Ok _ => starts_as c (metadata w') (inventory (backend w)) (Threads.manager w')
    end).
Proof.
  intros Hs Hw. unfold DaemonServer.startup. thread.
  apply asks_spec; [apply asks_collect_exit_contexts|done|]. intros contexts w1 (M1 & D1 & S1 & Hs1).
  destruct contexts as [contexts|]; [|rewrite M1, D1, S1; by split_and!]. thread.
  destruct (Daemon.recovery_environment_policy _) as [policy|]; [|rewrite M1, D1, S1; by split_and!].
  unfold DaemonServer.reconcile. thread. eapply runs_mono; [apply orderly_reconcile|]. cbv beta. intros r m Hm.
  rewrite D1 in Hm. specialize (Hm Hw). destruct r as [acc|]; [|cbn; rewrite M1, S1; by split_and!].
  thread. apply asks_spec; [apply DaemonCalls.all_calls_each; by intros id; split; [|intros []]|exact Hs1|].
  intros r w2 (M2 & D2 & S2 & Hs2). cbn in M2, D2, S2.
  destruct r as [_|]; [|rewrite M2, D2, S2, M1, S1; by split_and!]. thread.
  unfold Metadata.list_sessions. destruct (Metadata.answers _); run; [|cbn; rewrite M2, D2, S2, M1, S1; by split_and!].
  thread. apply next_session_id_fresh; cbn.
  { intros e. rewrite M2, D2, S2, M1, S1. by split_and!. }
  intros n1 Hn1 Hn2. rewrite D2 in *. thread. destruct (DaemonServer.holder_next _) as [n2|] eqn:En.
  - thread. cbn. rewrite S2, S1. split_and!; [done..|]. apply configured_starts; [apply Hm|done..].
  - cbn. rewrite M2, S2, M1, S1. by split_and!.
Qed.

(** C18: The start of the daemon returns, whatever the holder, the system and the
    database answer.  When it fails the manager is as before; when it succeeds
    the next id is above every id of the metadata and of the holder and is a
    32-bit number, the names and the locks in memory are those of the rows, and
    nobody is attached; the metadata stays well formed. *)
Theorem startup_state c order w : sound (backend w) -> well_formed (metadata w) ->
  exists r w', run os (DaemonServer.startup c order) w = Some (r, w') /\ sent w' = sent w /\ well_formed (metadata w') /\
    match r with
    | Err _ => Threads.manager w' = Threads.manager w
    | Ok _ => starts_as c (metadata w') (inventory (backend w)) (Threads.manager w')
    end.
Proof. intros Hs Hw. by apply runs_eq, runs_startup. Qed.

(** When the daemon restarts with a collection of idle sessions configured,
    every session that is neither pinned nor locked is idle at once, whenever it
    was last used: the time of its last use is not kept. *)
Theorem restart_forgets_activity c order w w' now id e row : sound (backend w) -> well_formed (metadata w) ->
  run os (DaemonServer.startup c order) w = Some (Ok tt, w') -> DaemonServer.gc_timeout c <> 0 ->
  e ∈ Reconcile.entries (inventory (backend w')) -> Inventory.session_id e = id ->
  Daemon.is_orphaned id (Threads.manager w') = false -> sessions (metadata w') !! id = Some row ->
  Metadata.pinned row = false -> Metadata.locked row = false -> DaemonGarbage.idle_session now id w'.
Proof.
  intros Hs Hw Hr Hc He Hid Ho Hrow Hp Hl. pose proof (runs_startup c order w Hs Hw) as Hst. unfold runs in Hst.
  rewrite Hr in Hst. destruct Hst as (_ & _ & _ & _ & _ & _ & Hlock & Ha & _ & Hact & Hgc).
  unfold DaemonGarbage.idle_session. cbv zeta. rewrite Hgc, Ha, Hact. split_and!; [done|by exists e|done|done| | |].
  - rewrite Hlock. intros (row' & Hrow' & Hl'). congruence.
  - intros row' Hrow'. congruence.
  - intros last Hlast. by rewrite lookup_empty in Hlast.
Qed.
End start.

(** ** An example *)

#[local] Existing Instances Samples.toy_service Samples.toy_laws Environment.bits_json.

Definition config : DaemonServer.Config := DaemonServer.mkConfig 4096 true 4096 false [] [] [] Daemon.default_recovery 60.
(** Session 5 runs and a daemon starts. *)
Definition starting : World HolderInventorySnapshot :=
  Samples.world Samples.manager0 [Samples.row 5 "running" false] [Samples.entry 5 Running].

Lemma starting_ok : well_formed (metadata starting).
Proof.
  split; [|by intros id tag ?%elem_of_empty]. apply map_Forall_singleton. split; [done|]. split; [by left|done].
Qed.

Lemma startup_state_witness : exists r w',
  run (Samples.toy_os (Ok None)) (DaemonServer.startup config (fun l => l)) starting = Some (r, w') /\
  starts_as config (metadata w') (inventory (backend starting)) (manager w').
Proof.
  destruct (startup_state (Samples.toy_os (Ok None)) config (fun l => l) starting) as (r & w' & Hr & _ & _ & Hst);
    [vm_compute; exact I|exact starting_ok|].
  exists r, w'. split; [exact Hr|].
  assert (E : (fun x => is_ok x.1) <$> run (Samples.toy_os (Ok None)) (DaemonServer.startup config (fun l => l)) starting
    = Some true) by (vm_compute; reflexivity).
  rewrite Hr in E. cbn in E. destruct r; [exact Hst|discriminate E].
Defined.

(** The world after that start. *)
Definition started : World HolderInventorySnapshot :=
  match run (Samples.toy_os (Ok None)) (DaemonServer.startup config (fun l => l)) starting with
  | Some (_, w) => w | None => starting
  end.

Lemma restart_forgets_activity_witness : DaemonGarbage.idle_session 0 5 started.
Proof.
  assert (Hrow : exists row, sessions (metadata started) !! 5 = Some row /\ Metadata.pinned row = false /\
    Metadata.locked row = false) by (eexists; split; [vm_compute; reflexivity|split; reflexivity]).
  destruct Hrow as (row & Hrow & Hp & Hl).
  apply (restart_forgets_activity (Samples.toy_os (Ok None)) config (fun l => l) starting started 0 5
    (Samples.entry 5 Running) row); try assumption.
  - vm_compute. exact I.
  - exact starting_ok.
  - vm_compute. reflexivity.
  - vm_compute. discriminate.
  - apply list_elem_of_singleton. vm_compute. reflexivity.
  - reflexivity.
  - vm_compute. reflexivity.
Defined.
End DaemonStart.
