(* ===== verification/DaemonAnswers.v ===== *)
(** * DaemonAnswers: every request is answered.

    [handle_client] of [crates/persistd/src/server.rs]: a handler returns, and
    writes its client one answer of the type that belongs to the request, of
    which the socket takes what it takes. *)
From S2P Require Import Prelude OrderedMap Bytes Environment ShellState HolderMessages HolderSession Effects ClientFrame ClientMessages Metadata Reconcile MetadataTypes HolderBackend Daemon DaemonThreads DaemonServer DaemonSamples DaemonCalls DaemonSafety DaemonTypes DaemonService.
From Stdlib Require Import Lia.
Import String.StringSyntax.
Import Environment(SnapshotJson).
Import Inventory(Running, Exited).
Import Metadata(SessionRecord, MetadataStore, Db, H).
Import Reconcile(HolderInventorySnapshot).
Import ClientFrame(MessageType, Frame).
Import Threads.
Import DaemonCalls.
Import DaemonTypes.
Import MetadataTypes.
Import DaemonService(sure, sure_bind, sure_attempt, sure_collect).
Local Open Scope N_scope.

Module DaemonAnswers.

(** ** Threads that return *)

Section returning.
Context {B : Type} `{HolderService B} `{!HolderServiceLaws B} (os : Os).

Lemma tidy_runs {A} (t : Thread A) w : DaemonTypes.tidy true t -> sound (backend w) ->
  runs (run os t) w (fun _ w' => sound (backend w')).
Proof.
  intros Ht. apply DaemonTypes.tidy_calls in Ht. revert w.
  induction t as [r|X c k IH]; intros w Hs; [done|]. destruct Ht as [Hc Hk].
  assert (Hone : match perform os c w with Some (_, w') => sound (backend w') | None => False end).
  { destruct c as [Y q|Y f|Y f| |Y o|fd f|fd b0]; try done; cbn [perform].
    - by destruct (f (manager w)).
    - cbn in Hc. specialize (Hc (database os (tick w)) (metadata w)). unfold runs in Hc.
      destruct (f _ (metadata w)) as [[r s]|]; [|done]. by cbn.
    - pose proof (operate_sound Y o (backend w) Hs) as Ho. unfold runs in Ho.
      destruct (operate Y o (backend w)) as [[r b]|]; [|done]. by destruct Ho. }
  unfold runs in *. cbn. destruct (perform os c w) as [[b w']|]; [|done]. by apply IH.
Qed.
End returning.

(** ** Threads that answer once *)

Section once.
Context (fd : N) (kind : MessageType).

(** [t] sends [n] answers of that type to [fd], on every path, and nothing else. *)
Fixpoint answer_count (n : nat) {A} (t : Thread A) : Prop :=
  match t with
  | Return _ => n = O
  | Perform c k =>
      match c in call X return (X -> Thread A) -> Prop with
      | Send fd' f => fun k => fd' = fd /\ ClientFrame.msg_type f = kind /\
          match n with O => False | S n' => forall b, answer_count n' (k b) end
      | WriteByte _ _ => fun _ => False
      | _ => fun k => forall b, answer_count n (k b)
      end k
  end.

Definition silent {A} (t : Thread A) : Prop := DaemonTypes.tidy false t.

(** A thread that sends nothing and cannot fail, and what follows. *)
Lemma count_quiet n {A C} (t : Thread A) (k : A -> Thread C) : silent t -> sure t -> (forall a, answer_count n (k a)) ->
  answer_count n (t ≫= k).
Proof.
  intros Hi Ht Hk. apply DaemonTypes.tidy_calls in Hi. induction t as [[a|e]|X c k' IH]; cbn in *; [apply Hk|done|].
  destruct Hi as [Hc Hi]. destruct c; try done; intros b; by apply IH.
Qed.

(** A thread that sends nothing, at the end. *)
Lemma count_rest {A} (t : Thread A) : silent t -> answer_count 0 t.
Proof.
  intros Hi. apply DaemonTypes.tidy_calls in Hi. induction t as [r|X c k' IH]; [done|].
  destruct Hi as [Hc Hi]. destruct c; try done; intros b; by apply IH.
Qed.

Lemma count_respond {C} payload (t : Thread C) : answer_count 0 t ->
  answer_count 1 (_ ← DaemonServer.respond fd kind payload; t).
Proof. intros Ht. split_and!; [done..|]. by intros []. Qed.
Lemma count_responds payload : answer_count 1 (DaemonServer.respond fd kind payload).
Proof. by split_and!. Qed.
End once.

(** ** The handlers *)

Section sure.
Context `{SnapshotJson} (show : persist_error -> str) (json_text : DaemonServer.Json -> str)
  (entries_of : str -> option (list (str * str))).

Lemma sure_get_session id : sure (DaemonServer.get_session id).
Proof. apply sure_bind; [apply sure_attempt|done]. Qed.
Lemma sure_tags_of id : sure (DaemonServer.tags_of id).
Proof. apply sure_bind; [apply sure_attempt|done]. Qed.
Lemma sure_has_tags id : sure (DaemonServer.has_tags id).
Proof. apply sure_bind; [apply sure_tags_of|done]. Qed.
Lemma sure_runtime_entries l sessions : sure (DaemonServer.runtime_entries l sessions).
Proof.
  revert sessions. induction l as [|e l IH]; intros sessions; cbn [DaemonServer.runtime_entries]; [done|].
  destruct (existsb _ _); [apply IH|]. apply sure_bind; [|intros; apply IH].
  unfold DaemonServer.runtime_entry. apply sure_bind; [done|]. intros s.
  apply sure_bind; [apply sure_get_session|]. intros record. apply sure_bind; [apply sure_has_tags|done].
Qed.
Lemma sure_closed_entries l sessions : sure (DaemonServer.closed_entries l sessions).
Proof.
  revert sessions. induction l as [|r l IH]; intros sessions; cbn [DaemonServer.closed_entries]; [done|].
  apply sure_bind; [apply sure_has_tags|]. intros. apply IH.
Qed.
Lemma sure_list_sessions : sure DaemonServer.list_sessions.
Proof.
  unfold DaemonServer.list_sessions. apply sure_bind; [done|]. intros snapshot. apply sure_bind; [apply sure_runtime_entries|]. intros sessions.
  apply sure_bind; [apply sure_attempt|]. intros. apply sure_closed_entries.
Qed.
Lemma sure_tagged_entry r : sure (DaemonServer.tagged_entry r).
Proof.
  unfold DaemonServer.tagged_entry. apply sure_bind; [done|]. intros s. apply sure_bind; [done|]. intros runtime. by destruct runtime. Qed.
Lemma sure_process_info id : sure (DaemonServer.runtime_process_info id).
Proof. apply sure_bind; [done|]. intros entry. by destruct entry. Qed.
Lemma sure_diagnostics pid : sure (DaemonServer.holder_diagnostics pid).
Proof. unfold DaemonServer.holder_diagnostics. apply sure_bind; [done|]. intros snapshot. apply sure_bind; [apply sure_attempt|done]. Qed.
Lemma sure_new_session : sure DaemonServer.new_session.
Proof.
  apply sure_bind; [apply sure_attempt|]. intros [[[[id name] shell] [instance generation]]|e]; [|done]. apply sure_bind; [done|]. intros dir.
  apply sure_bind; [apply sure_attempt|]. intros [[]|e]; [done|]. apply sure_bind; [apply sure_attempt|done].
Qed.
Lemma sure_reopen_closed record id env : sure (DaemonServer.reopen_closed entries_of record id env).
Proof.
  apply sure_bind.
  - unfold DaemonServer.closed_attach_history. apply sure_bind; [done|]. intros s. by case_match.
  - intros history. apply sure_bind; [apply sure_attempt|]. intros [[]|e]; [|done].
    apply sure_bind; [apply sure_attempt|]. intros [[]|e]; [done|]. apply sure_bind; [apply sure_attempt|done].
Qed.
Lemma sure_attach_data b id mode : sure (DaemonServer.attach_data b id mode).
Proof. unfold DaemonServer.attach_data. destruct b; [apply sure_attempt|done]. Qed.
End sure.

Create HintDb sure.
#[local] Hint Resolve sure_attempt sure_get_session sure_tags_of sure_has_tags sure_list_sessions sure_tagged_entry
  sure_process_info sure_diagnostics sure_new_session sure_reopen_closed sure_attach_data DaemonService.sure_validate : sure.
#[local] Hint Extern 1 (sure (Perform _ mret)) => (intros ?; exact I) : sure.
#[local] Hint Extern 1 (sure (mret _)) => exact I : sure.
#[local] Hint Extern 1 (sure (DaemonServer.has_runtime _)) => done : sure.
#[local] Hint Extern 1 (sure (DaemonServer.holder_entry _)) => done : sure.
#[local] Hint Extern 1 (sure (ask _)) => done : sure.
#[local] Hint Extern 3 (sure (DaemonServer.collect _ _)) => (apply sure_collect; intros; solve [eauto with sure]) : sure.
#[local] Hint Extern 4 (sure (match ?x with _ => _ end)) => (destruct x; solve [eauto with sure]) : sure.
Ltac sure := repeat first [done | solve [eauto with sure] | case_match | apply sure_bind; [|intros ?]].
Ltac silent := unfold silent; DaemonTypes.tidy.

(** The steps of a handler to its answer. *)
Ltac answer := repeat match goal with
  | |- answer_count _ _ 1 (DaemonServer.respond _ _ _) => apply count_responds
  | |- answer_count _ _ 1 (DaemonServer.respond _ _ _ ≫= _) => apply count_respond
  | |- answer_count _ _ 1 (_ ≫= _) => apply count_quiet; [solve [silent]|solve [sure]|intros ?]
  | |- answer_count _ _ 1 (send _ _) => by split_and!
  | |- answer_count _ _ O _ => solve [apply count_rest; silent]
  end.

Definition when {A} (kind : MessageType) (payload : option A) : option MessageType :=
  match payload with Some _ => Some kind | None => None end.

(** The type of the answer to a request; none to a message that is no request
    or cannot be read. *)
Definition reply_kind (f : Frame) : option MessageType :=
  let p := ClientFrame.payload f in
  let session := ClientMessages.decode_detach p in
  match ClientFrame.msg_type f with
  | ClientFrame.Hello => Some ClientFrame.HelloAck
  | ClientFrame.NewSession => Some ClientFrame.NewSessionResp
  | ClientFrame.ListSessions => Some ClientFrame.ListSessionsResp
  | ClientFrame.ListSessionsByTag => when ClientFrame.ListSessionsResp (ClientMessages.decode_note_get_resp p)
  | ClientFrame.ProcessTree => when ClientFrame.ProcessTreeResp (session)
  | ClientFrame.ProcessStats => when ClientFrame.ProcessStatsResp (session)
  | ClientFrame.SessionSnapshot => when ClientFrame.SessionSnapshotResp (session)
  | ClientFrame.Metrics => Some ClientFrame.MetricsResp
  | ClientFrame.DashboardSummary => Some ClientFrame.DashboardSummaryResp
  | ClientFrame.DashboardTrend => Some ClientFrame.DashboardTrendResp
  | ClientFrame.Attach | ClientFrame.AttachReadOnly => when ClientFrame.AttachResp (AttachContext.decode_attach p)
  | ClientFrame.DetachSignal => when ClientFrame.DetachSignalResp (session)
  | ClientFrame.Signal => when ClientFrame.SignalResp (ClientMessages.decode_signal p)
  | ClientFrame.Rename => when ClientFrame.RenameResp (ClientMessages.decode_rename p)
  | ClientFrame.NoteSet => when ClientFrame.NoteSetResp (ClientMessages.decode_note p)
  | ClientFrame.NoteGet => when ClientFrame.NoteGetResp (session)
  | ClientFrame.TagAdd => when ClientFrame.TagAddResp (ClientMessages.decode_tag p)
  | ClientFrame.TagRemove => when ClientFrame.TagRemoveResp (ClientMessages.decode_tag p)
  | ClientFrame.TagList => when ClientFrame.TagListResp (session)
  | ClientFrame.PinSet => when ClientFrame.PinSetResp (ClientMessages.decode_pin p)
  | ClientFrame.LockSet => when ClientFrame.LockSetResp (ClientMessages.decode_lock p)
  | ClientFrame.Close => when ClientFrame.CloseResp (session)
  | ClientFrame.Kill => when ClientFrame.KillResp (session)
  | ClientFrame.Ping => Some ClientFrame.Pong
  | _ => None
  end.

Section answers.
Context `{SnapshotJson} (show : persist_error -> str) (json_text : DaemonServer.Json -> str)
  (entries_of : str -> option (list (str * str))) (holder_pid : N) (foreign_keys : bool).

Lemma count_attach fd p : answer_count fd ClientFrame.AttachResp 1 (DaemonServer.handle_attach show entries_of fd p).
Proof.
  unfold DaemonServer.handle_attach, DaemonServer.attach_resp. answer.
Qed.

Lemma count_attach_read_only fd p :
  answer_count fd ClientFrame.AttachResp 1 (DaemonServer.handle_attach_read_only show fd p).
Proof. unfold DaemonServer.handle_attach_read_only, DaemonServer.attach_resp. answer. Qed.

Lemma count_handle_frame fd f : ClientFrame.msg_type f <> ClientFrame.DetachSignal -> match reply_kind f with
  | Some kind => answer_count fd kind 1 (DaemonServer.handle_frame show json_text entries_of holder_pid foreign_keys fd f)
  | None => silent (DaemonServer.handle_frame show json_text entries_of holder_pid foreign_keys fd f)
  end.
Proof.
  destruct f as [kind fl id payload]. unfold DaemonServer.handle_frame, DaemonServer.decoded, reply_kind.
  cbn [ClientFrame.msg_type]. intros Hd. destruct kind; try done; cbn [ClientFrame.msg_type ClientFrame.payload ClientFrame.request_id]; unfold when;
    repeat match goal with |- context [match ?o with Some _ => Some _ | None => None end] => destruct o end.
  all: lazymatch goal with
    | |- silent _ => unfold DaemonServer.handle_detach; silent
    | |- answer_count _ _ _ (DaemonServer.handle_attach _ _ _ _) => apply count_attach
    | |- answer_count _ _ _ (DaemonServer.handle_attach_read_only _ _ _) => apply count_attach_read_only
    | |- _ => unfold DaemonServer.handle_hello, DaemonServer.handle_list_sessions, DaemonServer.handle_new_session,
        DaemonServer.handle_rename, DaemonServer.handle_signal,
        DaemonServer.handle_note_set, DaemonServer.handle_note_get, DaemonServer.handle_tag_add,
        DaemonServer.handle_tag_remove, DaemonServer.handle_tag_list, DaemonServer.handle_list_sessions_by_tag,
        DaemonServer.handle_pin_set, DaemonServer.handle_lock_set, DaemonServer.handle_close, DaemonServer.handle_kill,
        DaemonServer.handle_process_tree, DaemonServer.handle_process_stats, DaemonServer.handle_session_snapshot,
        DaemonServer.handle_metrics, DaemonServer.handle_dashboard, DaemonServer.op_resp; answer
    end.
Qed.

Context {B : Type} `{HolderService B} `{!HolderServiceLaws B} (os : Os).

(** What a client's socket takes of an answer. *)
Definition on_wire (x : N * Frame) (y : N * bytes) : Prop :=
  y.1 = x.1 /\ exists i, y.2 = taken (takes os i) (ClientFrame.write_frame x.2).

(** What the client was sent when a thread ended. *)
Lemma count_runs fd kind n {A} (t : Thread A) w r w' : answer_count fd kind n t -> run os t w = Some (r, w') ->
  exists l m, sent w' = sent w ++ l /\ wire w' = wire w ++ m /\ length l = n /\ Forall2 on_wire l m /\
    Forall (fun x => x.1 = fd /\ ClientFrame.msg_type x.2 = kind) l.
Proof.
  revert n w. induction t as [r'|X c k IH]; intros n w; cbn [answer_count run].
  { intros -> [= _ ->]. exists [], []. rewrite !app_nil_r. by split_and!. }
  intros Hc Hr. destruct (perform os c w) as [[b w1]|] eqn:Hp; [|done]. cbn in Hr.
  destruct c as [Y q|Y f|Y f| |Y o|fd' f|fd' b0]; cbn [perform] in Hp.
  - injection Hp as _ <-. exact (IH b n _ (Hc b) Hr).
  - destruct (f (manager w)). injection Hp as _ <-. exact (IH b n _ (Hc b) Hr).
  - destruct (f _ (metadata w)) as [[r0 s]|]; [|done]. injection Hp as _ <-. exact (IH b n _ (Hc b) Hr).
  - injection Hp as _ <-. exact (IH b n _ (Hc b) Hr).
  - destruct (operate Y o (backend w)) as [[r0 s]|]; [|done]. injection Hp as _ <-. exact (IH b n _ (Hc b) Hr).
  - destruct Hc as (-> & Hf & Hk). destruct n as [|n]; [done|]. injection Hp as _ <-.
    destruct (IH b n _ (Hk b) Hr) as (l & m & El & Em & Hlen & H2 & Hall).
    exists ((fd, f) :: l), ((fd, taken (takes os (tick w)) (ClientFrame.write_frame f)) :: m). rewrite El, Em. cbn.
    rewrite <- !app_assoc. split_and!; [done|done|by rewrite Hlen| |by apply List.Forall_cons].
    constructor; [|done]. split; [done|]. by exists (tick w).
  - done.
Qed.

(** The byte that a request to detach puts into the stream of the client that
    is attached to the session, before it is answered. *)
Definition stray (mgr : Daemon.SessionManager) (f : Frame) (m : list (N * bytes)) : Prop :=
  m = [] \/ ClientFrame.msg_type f = ClientFrame.DetachSignal /\ exists id writer i,
    ClientMessages.decode_detach (ClientFrame.payload f) = Some id /\ Daemon.attached_sessions mgr !! id = Some writer /\
    m = [(writer, taken (takes os i) [byte_of 1])].

Lemma detach_signal_answer fd id w : exists m i,
  run os (DaemonServer.handle_detach_signal fd id) w = Some (Ok tt, mkWorld (manager w) (metadata w) (backend w)
    (sent w ++ [(fd, ClientFrame.mkFrame ClientFrame.DetachSignalResp 0 0 (ClientMessages.encode_op_resp true []))])
    (wire w ++ m ++ [(fd, taken (takes os i)
      (ClientFrame.write_frame (ClientFrame.mkFrame ClientFrame.DetachSignalResp 0 0 (ClientMessages.encode_op_resp true []))))]) (S i)) /\
  (m = [] \/ exists writer i, Daemon.attached_sessions (manager w) !! id = Some writer /\
    m = [(writer, taken (takes os i) [byte_of 1])]).
Proof.
  unfold DaemonServer.handle_detach_signal. cbn. destruct (Daemon.attached_sessions (manager w) !! id) as [writer|] eqn:Ew; cbn.
  - eexists [(writer, _)], _. split; [by rewrite <- app_assoc|]. right. by eexists _, _.
  - eexists [], _. split; [done|]. by left.
Qed.

End answers.

#[local] Existing Instances Samples.toy_service Samples.toy_laws Environment.bits_json.

End DaemonAnswers.
