(* ===== verification/DaemonRaces.v ===== *)
(** * DaemonRaces: two defects of the daemon's bookkeeping.

    Runs of [crates/persistd/src/server.rs] after which the manager's memory and
    the facts disagree. *)
From S2P Require Import Prelude OrderedMap Bytes Environment HolderMessages HolderSession Effects ClientFrame ClientMessages Metadata Reconcile MetadataTypes HolderBackend Daemon DaemonThreads DaemonServer DaemonSamples DaemonCalls DaemonSafety DaemonTypes DaemonService DaemonGarbage.
From Stdlib Require Import Lia.
Import String.StringSyntax.
Import Environment(SnapshotJson).
Import Inventory(Running, Exited).
Import Metadata(SessionRecord, MetadataStore, Db, H).
Import Reconcile(HolderInventorySnapshot).
Import Threads.
Import DaemonService.
Local Open Scope N_scope.

Module DaemonRaces.

(** ** A seat that is never given back *)

Section seats.
Context `{SnapshotJson} {B : Type} `{HolderService B} `{!HolderServiceLaws B} (os : Os).

Lemma record_keeps_seats id context s :
  Daemon.attached_sessions (Daemon.record_recovery_context id context s) = Daemon.attached_sessions s.
Proof. unfold Daemon.record_recovery_context. by destruct (Daemon.r_cwd context), (Daemon.r_environment context). Qed.

Lemma runs_observe id policy w (Q : result persist_error unit -> World B -> Prop) :
  (forall w', Daemon.attached_sessions (manager w') = Daemon.attached_sessions (manager w) -> Q (Ok tt) w') ->
  runs (run os (DaemonServer.observe id policy)) w Q.
Proof.
  intros HQ. unfold DaemonServer.observe, DaemonServer.holder_entry, DaemonServer.manager, DaemonServer.capture. thread.
  destruct (Daemon.holder_entry _ _ _); thread; apply HQ; cbn; [apply record_keeps_seats|done].
Qed.

(** When the proxy of a writing client ends with an error (its connection
    breaks while output is pending, say), the handler returns that error and the
    session stays attached to the client that is gone, so that no collection
    takes it for idle. *)
Theorem proxy_error_keeps_seat fd id data out err policy b w :
  (forall n, answer os n _ (Proxy fd id data out true) = (O, Err err)) ->
  operate _ Refresh (backend w) = Some (Ok tt, b) ->
  Daemon.recovery_environment_policy (Daemon.recovery_environment (manager w)) = Ok policy ->
  exists w', run os (DaemonServer.serve_writer fd id data out) w = Some (Err err, w') /\
    Daemon.attached_sessions (manager w') !! id = Some fd /\ forall now, ~ DaemonGarbage.idle_session now id w'.
Proof.
  intros Hproxy Hb Hp.
  assert (Hr : runs (run os (DaemonServer.serve_writer fd id data out)) w (fun r w' =>
    r = Err err /\ Daemon.attached_sessions (manager w') !! id = Some fd)).
  { unfold DaemonServer.serve_writer, DaemonServer.record_activity, DaemonServer.recovery_environment_policy, DaemonServer.manager.
    thread. rewrite runs_holder. unfold runs at 1. rewrite Hb. thread. cbn [manager].
    change (Daemon.recovery_environment (Daemon.transfer_writer _ _ _)) with (Daemon.recovery_environment (manager w)).
    rewrite Hp. rewrite runs_thread_bind. apply runs_observe. intros w' Hw'. thread. rewrite Hproxy. cbn. thread.
    split; [done|]. cbn. rewrite Hw'. apply lookup_insert_eq. }
  apply runs_eq in Hr as (r & w' & Hr & -> & Hseat). exists w'. split_and!; [done..|].
  intros now (_ & _ & _ & Ha & _). congruence.
Qed.
End seats.

#[local] Existing Instances Samples.toy_service Samples.toy_laws Environment.bits_json.

Definition broken : Os := Samples.toy_os (Err (IoError "poll public holder proxy")).
Definition connected : World HolderInventorySnapshot :=
  Samples.world Samples.manager0 [Samples.row 5 "running" false] [Samples.entry 5 Running].

Lemma proxy_error_keeps_seat_witness : exists w',
  run broken (DaemonServer.serve_writer 4 5 (HolderBackend.mkData 9 4) [] ) connected
    = Some (Err (IoError "poll public holder proxy"), w') /\
  Daemon.attached_sessions (manager w') !! 5 = Some 4.
Proof.
  assert (Hp : exists policy, Daemon.recovery_environment_policy (Daemon.recovery_environment (manager connected)) = Ok policy)
    by (eexists; vm_compute; reflexivity).
  destruct Hp as [policy Hp].
  destruct (proxy_error_keeps_seat broken 4 5 (HolderBackend.mkData 9 4) [] (IoError "poll public holder proxy") policy
    (Samples.toy_inventory [Samples.entry 5 Running]) connected) as (w' & Hr & Hseat & _).
  - intros n. reflexivity.
  - reflexivity.
  - exact Hp.
  - exists w'. split; [exact Hr|exact Hseat].
Defined.

(** ** A lock that is lost *)

Definition starts : Thread unit -> Prop :=
  DaemonTypes.starts Samples.show Samples.json_text Samples.no_entries 99 true.

Definition set_lock (locked : bool) : Thread unit :=
  _ ← attempt (Samples.handle (Samples.frame ClientFrame.LockSet (ClientMessages.encode_lock 5 locked))); mret tt.

Lemma set_lock_starts locked : starts (set_lock locked).
Proof. apply DaemonTypes.start, DaemonSafety.task_frame. Qed.

(** Session 5 is idle and not locked. *)
Definition unlocked : World HolderInventorySnapshot :=
  Samples.world (Daemon.mkManager (Daemon.session_info Samples.manager0) 4096 true 4096 false [] [] [] 10 ∅ ∅ ∅ 60
      ∅ ∅ ∅ Daemon.default_recovery)
    [Samples.row 5 "running" false] [Samples.entry 5 Running].

(** The calls of the two threads, by the place of the thread in the pool. *)
Fixpoint calls (order : list nat) (s : list (Thread unit) * World HolderInventorySnapshot)
  : option (list (Thread unit) * World HolderInventorySnapshot) :=
  match order with
  | [] => Some s
  | i :: order' =>
      match s.1 !! i with
      | Some (Perform c k) =>
          '(b, w) ← perform (Samples.toy_os (Ok None)) c s.2;
          calls order' (<[i := k b]> s.1, w)
      | _ => None
      end
  end.

Lemma calls_steps order s s' : calls order s = Some s' -> rtc (step (Samples.toy_os (Ok None)) starts) s s'.
Proof.
  revert s. induction order as [|i order IH]; intros [pool w]; cbn; [by intros [= ->]|].
  destruct (pool !! i) as [[r|X c k]|] eqn:Hi; try done. destruct (perform _ c w) as [[b w1]|] eqn:Hp; [|done].
  cbn. intros Hs. eapply rtc_l; [by eapply step_call|]. by apply IH.
Qed.

(** Two clients set the lock of a session at the same time, one to locked
    and one to unlocked.  There is an order of the daemon's steps in which both
    are told that it worked and the metadata, which is what the user is shown,
    says locked; but the manager has the session as not locked, and the
    collection of idle sessions then ends it. *)
Theorem concurrent_locks_diverge : exists pool w w', rtc (step (Samples.toy_os (Ok None)) starts) ([], unlocked) (pool, w) /\
  pool = [mret tt; mret tt] /\
  map (fun x => ClientFrame.payload x.2) (sent w) = [ClientMessages.encode_op_resp true []; ClientMessages.encode_op_resp true []] /\
  Metadata.locked <$> Metadata.sessions (metadata w) !! 5 = Some true /\
  run (Samples.toy_os (Ok None)) DaemonServer.collect_garbage w = Some (Ok [5], w') /\ DaemonGarbage.gone 5 w'.
Proof.
  assert (Hc : exists s, calls [1; 0; 0; 1; 0; 1]%nat ([set_lock true; set_lock false], unlocked) = Some s /\
    s.1 = [mret tt; mret tt] /\
    map (fun x => ClientFrame.payload x.2) (sent s.2) = [ClientMessages.encode_op_resp true []; ClientMessages.encode_op_resp true []] /\
    Metadata.locked <$> Metadata.sessions (metadata s.2) !! 5 = Some true /\
    exists w', run (Samples.toy_os (Ok None)) DaemonServer.collect_garbage s.2 = Some (Ok [5], w') /\
      Daemon.session_info (manager w') !! 5 = None /\ Daemon.attached_sessions (manager w') !! 5 = None /\
      (fun row => (Metadata.status row, Metadata.exit_code row)) <$> Metadata.sessions (metadata w') !! 5
        = Some (lit "closed", Some 0%Z)).
  { eexists. split; [vm_compute; reflexivity|]. split; [vm_compute; reflexivity|]. split; [vm_compute; reflexivity|].
    split; [vm_compute; reflexivity|]. eexists. split; [vm_compute; reflexivity|]. split_and!; vm_compute; reflexivity. }
  destruct Hc as ([pool w] & Hc & Hpool & Hsent & Hl & w' & Hr & Hi & Ha & Hrow). exists pool, w, w'. cbn in Hpool, Hsent, Hl.
  split_and!; [|exact Hpool|exact Hsent|exact Hl|exact Hr|].
  - eapply rtc_l; [apply step_start, (set_lock_starts false)|].
    eapply rtc_l; [apply step_start, (set_lock_starts true)|]. by apply calls_steps in Hc.
  - split; [exact Hi|]. split; [exact Ha|]. intros row Hrow'. rewrite Hrow' in Hrow. cbn in Hrow. injection Hrow as -> ->. by split.
Qed.
End DaemonRaces.
