(* ===== verification/PublicAttach.v ===== *)
(** * PublicAttach: the proxy between a client and the holder.

    Models [crates/persistd/src/public_attach.rs] and
    [public_attach/pending_writes.rs]: while a client is attached, [run] passes
    its input to the holder's data connection and the session's output to the
    client, after the output of an earlier life of the session ([history]).

    What the kernel answers in one turn of the loop is a [Round]; the timer
    ([context_timer.rs]) is part of it.  [typed] and [heard] record the frames
    read from the client and from the holder, [arrived] the bytes of the
    client. *)
From S2P Require Import Prelude Bytes Environment HolderWire HolderFrame HolderMessages HolderOperation ByteQueue ClientFrame ClientMessages Reconcile.
From Stdlib Require Import Lia.
Import String.StringSyntax.
Import Environment(SnapshotJson).
Import HolderFrame(HolderFrame, HolderMessageType, HolderFrameAccumulator).
Import ClientFrame(Frame, FrameAccumulator, MessageType).
Import ByteQueue(write_result, Wrote, WouldBlock, WriteFailed, wf, pending).
Import Reconcile(ExitContext, mkExit).
Local Open Scope N_scope.

Module PublicAttach.

#[local] Existing Instance HolderFrame.HolderMessageType_eq_dec.

(** ** [PendingWrites] *)

Definition MAX_PROXY_QUEUE : N := 1024 * 1024.
Abbreviation PendingWrites := ByteQueue.t.

Definition push (q : PendingWrites) (data : bytes) : result persist_error PendingWrites :=
  let total := N.min (ByteQueue.total q + lenN data) usize_max in
  if MAX_PROXY_QUEUE <? total then invalid_argument "public holder proxy queue limit exceeded"
  else Ok (ByteQueue.mk (ByteQueue.items q ++ [data]) (ByteQueue.offset q) total).

Definition has_data (q : PendingWrites) : bool := match ByteQueue.items q with [] => false | _ => true end.
Definition remaining_capacity (q : PendingWrites) : N := MAX_PROXY_QUEUE - ByteQueue.total q.

(** [writes] is what the kernel answers to the calls of [write]; after them it
    would block.  [sent] is what it took. *)
Fixpoint flush (writes : list write_result) (q : PendingWrites) (sent : bytes)
  : result persist_error unit * PendingWrites * bytes :=
  match ByteQueue.items q, writes with
  | [], _ | _, [] | _, WouldBlock :: _ => (Ok tt, q, sent)
  | _, WriteFailed :: _ => (Err (IoError "write public holder proxy"), q, sent)
  | front :: rest, Wrote n :: writes' =>
      let slice := dropN (ByteQueue.offset q) front in
      let count := N.min n (lenN slice) in
      flush writes' (ByteQueue.advance q front rest count) (sent ++ takeN count slice)
  end.

(** ** [InitialOutput] *)

Definition PUBLIC_FRAME_HEADER : N := 12.
Definition HISTORY_FRAME_PAYLOAD : N := 64 * 1024.

Record InitialOutput : Type := mkOutput { h_bytes : bytes; h_offset : N }.
Definition new_output (bs : bytes) : InitialOutput := mkOutput bs 0.
Definition is_done (h : InitialOutput) : bool := h_offset h =? lenN (h_bytes h).

Definition public_bytes (kind : MessageType) (payload : bytes) : bytes :=
  ClientFrame.write_frame (ClientFrame.mkFrame kind 0 0 payload).

(** Each turn takes a byte of the history: its length is enough fuel. *)
Fixpoint fill_loop (fuel : nat) (h : InitialOutput) (output : PendingWrites)
  : result persist_error (InitialOutput * PendingWrites) :=
  match fuel with
  | O => Ok (h, output)
  | S fuel' =>
      if is_done h then Ok (h, output)
      else
        let capacity := remaining_capacity output in
        if capacity <=? PUBLIC_FRAME_HEADER then Ok (h, output)
        else
          let count := N.min (N.min (lenN (h_bytes h) - h_offset h) HISTORY_FRAME_PAYLOAD) (capacity - PUBLIC_FRAME_HEADER) in
          output ← push output (public_bytes ClientFrame.Stdout (slice (h_bytes h) (h_offset h) (h_offset h + count)));
          fill_loop fuel' (mkOutput (h_bytes h) (h_offset h + count)) output
  end.

Definition fill (h : InitialOutput) (output : PendingWrites) : result persist_error (InitialOutput * PendingWrites) :=
  fill_loop (S (N.to_nat (lenN (h_bytes h) - h_offset h))) h output.

(** ** The state of the proxy *)

Record Proxy : Type := mkProxy {
  public_frames : FrameAccumulator;
  holder_frames : HolderFrameAccumulator;
  to_public : PendingWrites;
  to_holder : PendingWrites;
  history : InitialOutput;
  writer : bool;
  sent_public : bytes;
  sent_holder : bytes;
  typed : list (bool * Frame);
  heard : list HolderFrame;
  observed : nat;
  arrived : bytes }.

Definition set_public f (s : Proxy) := mkProxy (f (public_frames s)) (holder_frames s) (to_public s) (to_holder s)
  (history s) (writer s) (sent_public s) (sent_holder s) (typed s) (heard s) (observed s) (arrived s).
Definition set_holder f (s : Proxy) := mkProxy (public_frames s) (f (holder_frames s)) (to_public s) (to_holder s)
  (history s) (writer s) (sent_public s) (sent_holder s) (typed s) (heard s) (observed s) (arrived s).
Definition set_to_public q (s : Proxy) := mkProxy (public_frames s) (holder_frames s) q (to_holder s)
  (history s) (writer s) (sent_public s) (sent_holder s) (typed s) (heard s) (observed s) (arrived s).
Definition set_to_holder q (s : Proxy) := mkProxy (public_frames s) (holder_frames s) (to_public s) q
  (history s) (writer s) (sent_public s) (sent_holder s) (typed s) (heard s) (observed s) (arrived s).
Definition set_history h (s : Proxy) := mkProxy (public_frames s) (holder_frames s) (to_public s) (to_holder s)
  h (writer s) (sent_public s) (sent_holder s) (typed s) (heard s) (observed s) (arrived s).
Definition set_writer b (s : Proxy) := mkProxy (public_frames s) (holder_frames s) (to_public s) (to_holder s)
  (history s) b (sent_public s) (sent_holder s) (typed s) (heard s) (observed s) (arrived s).
Definition set_sent_public f (s : Proxy) := mkProxy (public_frames s) (holder_frames s) (to_public s) (to_holder s)
  (history s) (writer s) (f (sent_public s)) (sent_holder s) (typed s) (heard s) (observed s) (arrived s).
Definition set_sent_holder f (s : Proxy) := mkProxy (public_frames s) (holder_frames s) (to_public s) (to_holder s)
  (history s) (writer s) (sent_public s) (f (sent_holder s)) (typed s) (heard s) (observed s) (arrived s).
Definition set_typed f (s : Proxy) := mkProxy (public_frames s) (holder_frames s) (to_public s) (to_holder s)
  (history s) (writer s) (sent_public s) (sent_holder s) (f (typed s)) (heard s) (observed s) (arrived s).
Definition set_heard f (s : Proxy) := mkProxy (public_frames s) (holder_frames s) (to_public s) (to_holder s)
  (history s) (writer s) (sent_public s) (sent_holder s) (typed s) (f (heard s)) (observed s) (arrived s).
Definition set_observed n (s : Proxy) := mkProxy (public_frames s) (holder_frames s) (to_public s) (to_holder s)
  (history s) (writer s) (sent_public s) (sent_holder s) (typed s) (heard s) n (arrived s).
Definition add_arrived bs (s : Proxy) := mkProxy (public_frames s) (holder_frames s) (to_public s) (to_holder s)
  (history s) (writer s) (sent_public s) (sent_holder s) (typed s) (heard s) (observed s) (arrived s ++ bs).

Definition push_public (kind : MessageType) (payload : bytes) (s : Proxy) : result persist_error Proxy :=
  q ← push (to_public s) (public_bytes kind payload); Ok (set_to_public q s).

(** [map_err(|error| protocol_error(context, error))] *)
Definition protocol_error {A} (message : String.string) (c : result HolderProtocolError A) : result persist_error A :=
  match c with Ok a => Ok a | Err _ => Err (InvalidArgument message) end.
Arguments protocol_error {A} message%_string c.

Definition holder_bytes (kind : HolderMessageType) (payload : bytes) (minor : N) : result persist_error bytes :=
  protocol_error "encode holder data: {error:?}"
    (HolderFrame.encode_frame_with_minor (HolderFrame.mkFrame kind 0 0 0 payload) minor).

Definition push_holder (kind : HolderMessageType) (payload : bytes) (minor : N) (s : Proxy) : result persist_error Proxy :=
  bs ← holder_bytes kind payload minor;
  q ← push (to_holder s) bs; Ok (set_to_holder q s).

Definition holder_resize_payload (rows cols : N) : option bytes :=
  if (0 <? rows) && (0 <? cols) then Some (Operation.encode_resize_request (Operation.mkResize rows cols)) else None.

Section proxy.
Context `{SnapshotJson} (session_id holder_minor : N).

(** ** The client *)

(** The body of the loop of [read_public]: the flag is false when the client
    leaves. *)
Definition public_frame (frame : Frame) (s : Proxy) : result persist_error (bool * Proxy) :=
  let s := set_typed (fun l => l ++ [(writer s, frame)]) s in
  match ClientFrame.msg_type frame with
  | ClientFrame.Stdin =>
      if writer s then s ← push_holder HolderFrame.Input (ClientFrame.payload frame) holder_minor s; Ok (true, s)
      else Ok (true, s)
  | ClientFrame.Resize =>
      if writer s then
        match ClientMessages.decode_resize (ClientFrame.payload frame) with
        | Some (rows, cols) =>
            match holder_resize_payload rows cols with
            | Some payload => s ← push_holder HolderFrame.Resize payload holder_minor s; Ok (true, s)
            | None => Ok (true, s)
            end
        | None => Ok (true, s)
        end
      else Ok (true, s)
  | ClientFrame.Signal =>
      if writer s then
        match ClientMessages.decode_signal (ClientFrame.payload frame) with
        | Some (_, signal) =>
            s ← push_holder HolderFrame.Signal (Operation.encode_signal_request signal) holder_minor s;
            s ← push_public ClientFrame.SignalResp (ClientMessages.encode_op_resp true []) s;
            Ok (true, s)
        | None => Ok (true, s)
        end
      else Ok (true, s)
  | ClientFrame.Detach | ClientFrame.Close => Ok (false, s)
  | ClientFrame.Ping => s ← push_public ClientFrame.Pong [] s; Ok (true, s)
  | _ => Ok (true, s)
  end.

(** [while let Some(frame) = frames.try_read()?]: a frame has at least 12
    bytes. *)
Fixpoint public_loop (fuel : nat) (s : Proxy) : result persist_error (bool * Proxy) :=
  match fuel with
  | O => Ok (true, s)
  | S fuel' =>
      '(frame, acc) ← ClientFrame.try_read (public_frames s);
      match frame with
      | None => Ok (true, set_public (fun _ => acc) s)
      | Some frame =>
          '(stays, s) ← public_frame frame (set_public (fun _ => acc) s);
          if stays : bool then public_loop fuel' s else Ok (false, s)
      end
  end.

(** What [read] answers: at most 64 KiB. *)
Inductive read_result : Type := Chunk (bs : bytes) | Eof | Again | ReadFailed.

Definition read_public (r : read_result) (s : Proxy) : result persist_error (bool * Proxy) :=
  match r with
  | Eof => Ok (false, s)
  | ReadFailed => Err (IoError "read public attach proxy")
  | Chunk _ | Again =>
      let bs := match r with Chunk bs => bs | _ => [] end in
      let s := add_arrived bs (set_public (fun acc => ClientFrame.feed acc bs) s) in
      public_loop (S (length (ClientFrame.buf (public_frames s)))) s
  end.

(** ** The holder *)

Definition exited_event (payload : bytes) : result persist_error ExitContext :=
  if holder_minor =? HolderFrame.HOLDER_PROTOCOL_MINOR then
    e ← protocol_error "SessionExited v2: {error:?}" (Operation.decode_session_exited_event_v2 payload);
    Ok (mkExit (Operation.session_id e) (Operation.exit_code e) (Operation.cwd e) (Operation.environment e))
  else
    e ← protocol_error "SessionExited: {error:?}" (Operation.decode_session_exited_event payload);
    Ok (mkExit (Operation.v1_session_id e) (Operation.v1_exit_code e) (Operation.v1_cwd e) None).

(** The body of the loop of [read_holder]: the answer ends the proxy. *)
Definition holder_frame (frame : HolderFrame) (s : Proxy) : result persist_error (option (option ExitContext) * Proxy) :=
  let s := set_heard (fun l => l ++ [frame]) s in
  match HolderFrame.message_type frame with
  | HolderFrame.Output =>
      s ← push_public ClientFrame.Stdout (HolderFrame.payload frame) s; Ok (None, s)
  | HolderFrame.WriteGranted | HolderFrame.WriteRevoked =>
      event ← protocol_error "writer event: {error:?}" (Operation.decode_operation_request (HolderFrame.payload frame));
      if negb (event =? session_id) then invalid_argument "holder writer event session mismatch"
      else
        let granted := bool_decide (HolderFrame.message_type frame = HolderFrame.WriteGranted) in
        s ← push_public (if granted then ClientFrame.WriteGranted else ClientFrame.WriteRevoked)
          (ClientMessages.encode_writer_control session_id) (set_writer granted s);
        Ok (None, s)
  | HolderFrame.SessionExited =>
      context ← exited_event (HolderFrame.payload frame);
      if negb (Reconcile.x_session_id context =? session_id) then invalid_argument "holder exit event session mismatch"
      else
        s ← push_public ClientFrame.SessionExited
          (ClientMessages.encode_session_exited session_id (Reconcile.x_exit_code context)) s;
        Ok (Some (Some (mkExit session_id (Reconcile.x_exit_code context) (Reconcile.x_cwd context)
          (Reconcile.x_environment context))), s)
  | _ => Ok (None, s)
  end.

Fixpoint holder_loop (fuel : nat) (s : Proxy) : result persist_error (option (option ExitContext) * Proxy) :=
  match fuel with
  | O => Ok (None, s)
  | S fuel' =>
      '(frame, acc) ← protocol_error "decode holder data: {error:?}"
        (HolderFrame.try_read_with_minor (holder_frames s) holder_minor);
      match frame with
      | None => Ok (None, set_holder (fun _ => acc) s)
      | Some frame =>
          '(ended, s) ← holder_frame frame (set_holder (fun _ => acc) s);
          match ended with Some outcome => Ok (Some outcome, s) | None => holder_loop fuel' s end
      end
  end.

Definition read_holder (r : read_result) (s : Proxy) : result persist_error (option (option ExitContext) * Proxy) :=
  match r with
  | Eof => Ok (Some None, s)
  | Again => Ok (None, s)
  | ReadFailed => Err (IoError "read holder data proxy")
  | Chunk bs =>
      acc ← protocol_error "accumulate holder data: {error:?}" (HolderFrame.feed (holder_frames s) bs);
      let s := set_holder (fun _ => acc) s in
      holder_loop (S (length (HolderFrame.buffer (holder_frames s)))) s
  end.

(** ** The loop *)

(** What happens at one of the two descriptors in a turn: whether it can be
    read, what the read answers, whether it can be written, what the writes
    answer, and whether it failed. *)
Record Ready : Type := mkReady {
  can_read : bool; read_answer : read_result; can_write : bool; writes : list write_result; failed : bool }.

(** [pollfd]: writing is asked for only when there is something to write. *)
Definition pollfd (pending : bool) (r : Ready) : Ready :=
  mkReady (can_read r) (read_answer r) (can_write r && pending) (writes r) (failed r).

Inductive Round : Type :=
| Interrupted
| PollFailed
| Polled (public holder : Ready) (timer : option bool).

Definition flush_public (answers : list write_result) (s : Proxy) : result persist_error unit * Proxy :=
  let '(r, q, sent) := flush answers (to_public s) [] in
  (r, set_sent_public (fun l => l ++ sent) (set_to_public q s)).
Definition flush_holder (answers : list write_result) (s : Proxy) : result persist_error unit * Proxy :=
  let '(r, q, sent) := flush answers (to_holder s) [] in
  (r, set_sent_holder (fun l => l ++ sent) (set_to_holder q s)).

(** How a turn of the loop ends. *)
Inductive turn : Type :=
| Goes (s : Proxy)
| Ends (outcome : result persist_error (option ExitContext)) (s : Proxy).

(** [s] is the state at the error, of which only the logs matter. *)
Definition try_turn {A} (r : result persist_error A) (s : Proxy) (k : A -> turn) : turn :=
  match r with Ok a => k a | Err e => Ends (Err e) s end.

(** The timer, the writes and the failures. *)
Definition finish_round (public holder : Ready) (timer : option bool) (s : Proxy) : turn :=
  match timer with
  | Some false => Ends (Err (IoError "read attach context timer")) s
  | _ =>
      let s := match timer with Some _ => set_observed (S (observed s)) s | None => s end in
      let '(flushed, s) := if can_write public then flush_public (writes public) s else (Ok tt, s) in
      try_turn flushed s (fun _ =>
        let filled := if can_write public then fill (history s) (to_public s) else Ok (history s, to_public s) in
        try_turn filled s (fun x =>
          let s := set_to_public x.2 (set_history x.1 s) in
          let '(flushed, s) := if can_write holder then flush_holder (writes holder) s else (Ok tt, s) in
          try_turn flushed s (fun _ =>
            if failed public || failed holder then Ends (Ok None) s else Goes s)))
  end.

Definition round (r : Round) (s : Proxy) : turn :=
  match r with
  | Interrupted => Goes s
  | PollFailed => Ends (Err (IoError "poll public holder proxy")) s
  | Polled public holder timer =>
      let history_pending := negb (is_done (history s)) || has_data (to_public s) in
      let public := pollfd (has_data (to_public s)) public in
      let holder := pollfd (has_data (to_holder s)) holder in
      let reads := negb history_pending in
      try_turn (if reads && can_read public then read_public (read_answer public) s else Ok (true, s)) s (fun x =>
        let s := x.2 in
        if negb x.1 then Ends (Ok None) s
        else
          try_turn (if reads && can_read holder then read_holder (read_answer holder) s else Ok (None, s)) s (fun y =>
            let s := y.2 in
            match y.1 with
            | Some outcome => Ends (Ok outcome) (flush_public (writes public) s).2
            | None => finish_round public holder timer s
            end))
  end.

Fixpoint rounds (l : list Round) (s : Proxy) : turn :=
  match l with
  | [] => Goes s
  | r :: l' => match round r s with Goes s => rounds l' s | Ends outcome s => Ends outcome s end
  end.

Definition start (initial_output : bytes) (read_write : bool) : result persist_error Proxy :=
  '(h, q) ← fill (new_output initial_output) ByteQueue.empty;
  Ok (mkProxy ClientFrame.new HolderFrame.new q ByteQueue.empty h read_write [] [] [] [] O []).

(** [run], up to the turns that [l] describes; [armed] is whether the timer
    could be started. *)
Definition run (initial_output : bytes) (read_write armed : bool) (l : list Round) : turn + persist_error :=
  match start initial_output read_write with
  | Ok s => if armed then inl (rounds l s) else inr (IoError "create attach context timer")
  | Err e => inr e
  end.
End proxy.

(** ** The queues *)

Lemma push_ok q data q' : wf q -> data <> [] -> push q data = Ok q' ->
  wf q' /\ pending q' = pending q ++ data /\ ByteQueue.total q' <= MAX_PROXY_QUEUE.
Proof.
  intros Hwf Hd. unfold push. destruct (N.ltb_spec MAX_PROXY_QUEUE (N.min (ByteQueue.total q + lenN data) usize_max)) as [Hl|Hl];
    [discriminate|]. intros [= <-].
  assert (Hmax : MAX_PROXY_QUEUE < usize_max) by reflexivity.
  assert (Ht : N.min (ByteQueue.total q + lenN data) usize_max = ByteQueue.total q + lenN data) by lia. rewrite Ht in *.
  apply (ByteQueue.push_wf MAX_PROXY_QUEUE q data); [done..|]. unfold ByteQueue.push, checked_add_usize.
  destruct (N.leb_spec (ByteQueue.total q + lenN data) usize_max); [|lia].
  destruct (N.ltb_spec MAX_PROXY_QUEUE (ByteQueue.total q + lenN data)); [lia|done].
Qed.

Lemma push_fits q data : ByteQueue.total q + lenN data <= MAX_PROXY_QUEUE -> is_ok (push q data) = true.
Proof. intros Hl. unfold push. destruct (N.ltb_spec MAX_PROXY_QUEUE (N.min (ByteQueue.total q + lenN data) usize_max)); [lia|done]. Qed.

Lemma flush_ok writes q sent : wf q -> exists more, let '(r, q', sent') := flush writes q sent in
  sent' = sent ++ more /\ wf q' /\ pending q = more ++ pending q' /\ ByteQueue.total q' <= ByteQueue.total q.
Proof.
  revert q sent. induction writes as [|w writes IH]; intros q sent Hwf; cbn [flush].
  { exists []. destruct (ByteQueue.items q); by rewrite app_nil_r. }
  destruct (ByteQueue.items q) as [|front rest] eqn:E; [exists []; by rewrite app_nil_r|].
  destruct w as [n| |]; [|exists []; by rewrite app_nil_r..]. cbv zeta.
  set (count := N.min n (lenN (dropN (ByteQueue.offset q) front))).
  destruct (N.eq_dec count 0) as [Hz|Hz].
  - assert (Hq : ByteQueue.advance q front rest count = q).
    { unfold ByteQueue.advance. rewrite Hz, N.add_0_r, N.sub_0_r. destruct Hwf as [_ Ho _]. rewrite E in Ho.
      destruct (N.eqb_spec (ByteQueue.offset q) (lenN front)); [lia|]. destruct q; cbn in *. by rewrite E. }
    rewrite Hq. destruct (IH q (sent ++ takeN count (dropN (ByteQueue.offset q) front)) Hwf) as (more & Hm).
    exists more. rewrite Hz in *. destruct (flush writes q _) as [[r q'] sent']. cbn in Hm.
    rewrite app_nil_r in Hm. exact Hm.
  - destruct (ByteQueue.advance_wf q front rest count Hwf E ltac:(lia)) as (Hwf' & Hp & _).
    destruct (IH _ (sent ++ takeN count (dropN (ByteQueue.offset q) front)) Hwf') as (more & Hm).
    exists (takeN count (dropN (ByteQueue.offset q) front) ++ more).
    destruct (flush writes _ _) as [[r q'] sent']. destruct Hm as (-> & Hw & Hm & Ht). rewrite Hp, Hm, !app_assoc.
    split_and!; [done..|]. etransitivity; [exact Ht|]. unfold ByteQueue.advance. case_match; cbn; lia.
Qed.

Lemma public_bytes_size kind payload : lenN (public_bytes kind payload) = PUBLIC_FRAME_HEADER + lenN payload.
Proof.
  unfold public_bytes, ClientFrame.write_frame, PUBLIC_FRAME_HEADER. cbn. rewrite !lenN_app, !lenN_u32_be, !lenN_u16_be. lia.
Qed.
Lemma public_bytes_some kind payload : public_bytes kind payload <> [].
Proof. intros E. apply (f_equal lenN) in E. rewrite public_bytes_size in E. unfold PUBLIC_FRAME_HEADER in E. rewrite lenN_nil in E. lia. Qed.

(** A frame of the holder is within the limit of its type. *)
Lemma heard_payload acc minor f acc' : HolderFrame.try_read_with_minor acc minor = Ok (Some f, acc') ->
  lenN (HolderFrame.payload f) <= HolderFrame.max_payload (HolderFrame.message_type f).
Proof.
  unfold HolderFrame.try_read_with_minor. intros H. inv_ok. destruct x as [[[m g]|] acc1]; [|discriminate H].
  destruct (m =? minor); [|discriminate H]. injection H as <- <-. unfold HolderFrame.try_read_supported in Hok.
  destruct (_ <? HolderFrame.HOLDER_HEADER_SIZE) in Hok; [discriminate Hok|]. cbv zeta in Hok.
  destruct (_ <? _) in Hok; [discriminate Hok|]. apply bind_Ok_inv in Hok as (n & _ & Hok).
  destruct (_ <? _) in Hok; [discriminate Hok|]. apply bind_Ok_inv in Hok as (h & Hd & Hok). injection Hok as _ -> _.
  unfold HolderFrame.decode_frame_with_minor in Hd. inv_ok. destruct x as [[len [[[t fl] rid] gen]] r]. inv_ok. boolp. subst.
  cbn [HolderFrame.payload HolderFrame.message_type]. unfold checked_add_usize in *. destruct (_ <=? _) in *; [|discriminate].
  injection Hok1 as <-. rewrite lenN_dropN. lia.
Qed.

(** ** What each side is told *)

Section relay.
Context `{SnapshotJson} (session_id holder_minor : N) (h0 : bytes) (read_write : bool).
Abbreviation exited_event := (exited_event holder_minor).

(** The frame that the client gets for a frame of the holder. *)
Definition to_client (f : HolderFrame) : option (MessageType * bytes) :=
  match HolderFrame.message_type f with
  | HolderFrame.Output => Some (ClientFrame.Stdout, HolderFrame.payload f)
  | HolderFrame.WriteGranted => Some (ClientFrame.WriteGranted, ClientMessages.encode_writer_control session_id)
  | HolderFrame.WriteRevoked => Some (ClientFrame.WriteRevoked, ClientMessages.encode_writer_control session_id)
  | HolderFrame.SessionExited =>
      match exited_event (HolderFrame.payload f) with
      | Ok c => Some (ClientFrame.SessionExited, ClientMessages.encode_session_exited session_id (Reconcile.x_exit_code c))
      | Err _ => None
      end
  | _ => None
  end.

(** The frame that the holder gets for a frame of the client. *)
Definition to_session (x : bool * Frame) : option (HolderMessageType * bytes) :=
  if x.1 then
    match ClientFrame.msg_type x.2 with
    | ClientFrame.Stdin => Some (HolderFrame.Input, ClientFrame.payload x.2)
    | ClientFrame.Resize =>
        '(rows, cols) ← ClientMessages.decode_resize (ClientFrame.payload x.2);
        payload ← holder_resize_payload rows cols;
        Some (HolderFrame.Resize, payload)
    | ClientFrame.Signal =>
        '(_, signal) ← ClientMessages.decode_signal (ClientFrame.payload x.2);
        Some (HolderFrame.Signal, Operation.encode_signal_request signal)
    | _ => None
    end
  else None.

(** Answers of the proxy itself. *)
Definition is_reply (kind : MessageType) : bool :=
  match kind with ClientFrame.Pong | ClientFrame.SignalResp => true | _ => false end.

Definition public_stream (s : Proxy) : bytes := sent_public s ++ pending (to_public s).
Definition holder_stream (s : Proxy) : bytes := sent_holder s ++ pending (to_holder s).
Definition encoded (fs : list (MessageType * bytes)) : bytes := concat (map (fun x => public_bytes x.1 x.2) fs).

Definition unreplied (fs : list (MessageType * bytes)) : list (MessageType * bytes) :=
  filter (fun x => is_reply x.1 = false) fs.

(** A frame that the client accepts. *)
Definition fits_client (x : MessageType * bytes) : Prop := lenN x.2 <= ClientFrame.limit x.1.

(** Besides the answers of the proxy itself, [fs] is the history as far as it
    was taken, then the frames for what the holder sent, in order; the client
    accepts each of them. *)
Definition shows (s : Proxy) (fs : list (MessageType * bytes)) : Prop :=
  Forall fits_client fs /\ exists hist, unreplied fs = hist ++ omap to_client (heard s) /\
    Forall (fun x => x.1 = ClientFrame.Stdout) hist /\ concat (map snd hist) = takeN (h_offset (history s)) h0 /\
    (is_done (history s) = false -> heard s = []).

Record relays (s : Proxy) : Prop := {
  relays_queues : wf (to_public s) /\ wf (to_holder s);
  relays_bounds : ByteQueue.total (to_public s) <= MAX_PROXY_QUEUE /\ ByteQueue.total (to_holder s) <= MAX_PROXY_QUEUE;
  relays_history : h_bytes (history s) = h0 /\ h_offset (history s) <= lenN h0;
  relays_public : exists fs, public_stream s = encoded fs /\ shows s fs;
  relays_holder : exists encs, holder_stream s = concat encs /\
    Forall2 (fun x enc => holder_bytes x.1 x.2 holder_minor = Ok enc) (omap to_session (typed s)) encs;
  relays_writer : read_write = false -> Forall (fun f => HolderFrame.message_type f <> HolderFrame.WriteGranted) (heard s) ->
    writer s = false /\ Forall (fun x => x.1 = false) (typed s) }.

Lemma encoded_app fs gs : encoded (fs ++ gs) = encoded fs ++ encoded gs.
Proof. unfold encoded. by rewrite map_app, concat_app. Qed.

Lemma unreplied_snoc fs kind payload :
  unreplied (fs ++ [(kind, payload)]) = unreplied fs ++ if is_reply kind then [] else [(kind, payload)].
Proof. unfold unreplied. rewrite filter_app. by destruct kind. Qed.

(** The parts of [relays] do not depend on the accumulators. *)
Lemma relays_same s s' : to_public s' = to_public s -> to_holder s' = to_holder s -> history s' = history s ->
  sent_public s' = sent_public s -> sent_holder s' = sent_holder s -> typed s' = typed s -> heard s' = heard s ->
  writer s' = writer s -> relays s -> relays s'.
Proof.
  intros E1 E2 E3 E4 E5 E6 E7 E8 [R1 R2 R3 R4 R5 R6]. split; unfold public_stream, holder_stream, shows in *.
  all: rewrite ?E1, ?E2, ?E3, ?E4, ?E5, ?E6, ?E7, ?E8; done.
Qed.

(** A frame more for the client. *)
Lemma push_public_inv kind payload s s' : wf (to_public s) -> push_public kind payload s = Ok s' ->
  exists q, s' = set_to_public q s /\ wf q /\ ByteQueue.total q <= MAX_PROXY_QUEUE /\
    public_stream s' = public_stream s ++ encoded [(kind, payload)].
Proof.
  intros Hwf. unfold push_public. destruct (push (to_public s) (public_bytes kind payload)) as [q|] eqn:Hq; [|discriminate].
  cbn. intros [= <-]. destruct (push_ok _ _ _ Hwf (public_bytes_some kind payload) Hq) as (Hw & Hp & Ht). exists q.
  split_and!; [done..|]. unfold public_stream, encoded. cbn. by rewrite Hp, app_nil_r, app_assoc.
Qed.

Lemma relays_reply kind payload s s' : is_reply kind = true -> fits_client (kind, payload) -> relays s -> push_public kind payload s = Ok s' -> relays s'.
Proof.
  intros Hk Hfit [[R1 R1'] R2 R3 (fs & Hfs & Hall' & Hsh) R5 R6] Hp. apply push_public_inv in Hp as (q & -> & Hq & Ht & Hs); [|done].
  split; [by split|by split; [|apply R2]|done| |done|done].
  exists (fs ++ [(kind, payload)]). split; [by rewrite Hs, Hfs, encoded_app|].
  split; [by apply Forall_app_2; [|constructor]|].
  destruct Hsh as (hist & Hf & Hall). exists hist. by rewrite unreplied_snoc, Hk, app_nil_r.
Qed.

(** A frame of the holder, and what the client is told of it. *)
Lemma relays_told f kind payload w s s' : relays s -> is_done (history s) = true -> to_client f = Some (kind, payload) ->
  fits_client (kind, payload) -> is_reply kind = false -> (w = true -> w = writer s \/ HolderFrame.message_type f = HolderFrame.WriteGranted) ->
  push_public kind payload (set_writer w (set_heard (fun l => l ++ [f]) s)) = Ok s' -> relays s'.
Proof.
  intros [[R1 R1'] R2 R3 (fs & Hfs & Hall' & Hsh) R5 R6] Hd Hc Hfit Hk Hw Hp.
  apply push_public_inv in Hp as (q & -> & Hq & Ht & Hs); [|done].
  split; [by split|by split; [|apply R2]|done| |done|].
  - exists (fs ++ [(kind, payload)]). split; [rewrite Hs, encoded_app, <- Hfs; done|].
    split; [by apply Forall_app_2; [|constructor]|].
    destruct Hsh as (hist & Hf & Hall & Hcat & _). exists hist. cbn. rewrite unreplied_snoc, Hf, Hk, omap_app. cbn. rewrite Hc.
    rewrite app_assoc. split_and!; [done..|]. congruence.
  - intros Hr Hall. apply Forall_app in Hall as [Hall Hf]. apply Forall_cons in Hf as [Hf _].
    destruct (R6 Hr Hall) as [Hws Hty]. split; [|done]. destruct w; [|done]. destruct (Hw eq_refl); [congruence|done].
Qed.

Lemma relays_unheard f s : relays s -> is_done (history s) = true -> to_client f = None ->
  relays (set_heard (fun l => l ++ [f]) s).
Proof.
  intros [R1 R2 R3 (fs & Hfs & Hall' & Hsh) R5 R6] Hd Hc. split; cbn; [done|done|done| |done|].
  - exists fs. split; [done|]. split; [done|]. destruct Hsh as (hist & Hf & Hall & Hcat & _). exists hist. cbn.
    rewrite omap_app. cbn. rewrite Hc, app_nil_r. split_and!; [done..|]. congruence.
  - intros Hr Hall. apply Forall_app in Hall as [Hall _]. by apply R6.
Qed.

(** A frame of the client, and what the holder is told of it. *)
Lemma relays_typed_none frame s : relays s -> to_session (writer s, frame) = None ->
  relays (set_typed (fun l => l ++ [(writer s, frame)]) s).
Proof.
  intros [R1 R2 R3 R4 (encs & He & Hall) R6] Hc. split; cbn; [done..| |].
  - exists encs. split; [done|]. rewrite omap_app. cbn. by rewrite Hc, app_nil_r.
  - intros Hr Hg. destruct (R6 Hr Hg) as [Hw Hty]. split; [done|]. apply Forall_app. split; [done|]. by constructor.
Qed.

Lemma relays_typed frame kind payload s s' : relays s -> to_session (writer s, frame) = Some (kind, payload) ->
  push_holder kind payload holder_minor (set_typed (fun l => l ++ [(writer s, frame)]) s) = Ok s' -> relays s'.
Proof.
  intros [[R1 R1'] R2 R3 R4 (encs & He & Hall) R6] Hc. unfold push_holder.
  destruct (holder_bytes kind payload holder_minor) as [enc|] eqn:Henc; [|discriminate]. cbn.
  destruct (push (to_holder s) enc) as [q|] eqn:Hq; [|discriminate]. cbn. intros [= <-].
  assert (Hne : enc <> []).
  { unfold holder_bytes, protocol_error in Henc. destruct (HolderFrame.encode_frame_with_minor _ _) as [e|] eqn:E; [|discriminate].
    injection Henc as <-. apply HolderFrame.encode_frame_size in E as [E _]. intros ->. rewrite lenN_nil in E. unfold HolderFrame.HOLDER_HEADER_SIZE in E. lia. }
  destruct (push_ok _ _ _ R1' Hne Hq) as (Hw & Hp & Ht).
  split; cbn; [by split|by split; [apply R2|]|done|done| |].
  - exists (encs ++ [enc]). unfold holder_stream in *. cbn. rewrite Hp, app_assoc, He, concat_app. cbn. rewrite app_nil_r.
    split; [done|]. rewrite omap_app. cbn. rewrite Hc. apply Forall2_app; [done|]. by constructor.
  - intros Hr Hg. destruct (R6 Hr Hg) as [Hw' Hty]. split; [done|]. apply Forall_app. split; [done|]. by constructor.
Qed.

Lemma history_push_public kind payload s s' : push_public kind payload s = Ok s' -> history s' = history s.
Proof. unfold push_public. destruct (push _ _); [|discriminate]. cbn. by intros [= <-]. Qed.
Lemma history_push_holder kind payload m s s' : push_holder kind payload m s = Ok s' -> history s' = history s.
Proof.
  unfold push_holder. destruct (holder_bytes _ _ _); [|discriminate]. cbn. destruct (push _ _); [|discriminate].
  cbn. by intros [= <-].
Qed.

Definition carries (s s' : Proxy) : Prop := relays s' /\ history s' = history s.

Lemma carries_heard_none frame s : relays s -> to_session (writer s, frame) = None ->
  carries s (set_typed (fun l => l ++ [(writer s, frame)]) s).
Proof. intros R Hn. split; [by apply relays_typed_none|done]. Qed.

Lemma public_frame_carries frame s stays s' : relays s -> public_frame holder_minor frame s = Ok (stays, s') -> carries s s'.
Proof.
  intros R. pose proof (carries_heard_none frame s R) as Hnone.
  pose proof (fun k p s' => relays_typed frame k p s s' R) as Hsome.
  unfold public_frame, to_session in *. cbv zeta. cbn [fst snd writer set_typed] in *.
  destruct (ClientFrame.msg_type frame); try (intros [= <- <-]; apply Hnone; by destruct (writer s)).
  - destruct (writer s); [|intros [= <- <-]; by apply Hnone].
    destruct (ClientMessages.decode_signal _) as [[x signal]|]; [|intros [= <- <-]; by apply Hnone]. cbn in *.
    destruct (push_holder _ _ _ _) as [s1|] eqn:E; [|discriminate]. cbn.
    destruct (push_public _ _ s1) as [s2|] eqn:E2; [|discriminate]. cbn. intros [= <- <-].
    split; [refine (relays_reply ClientFrame.SignalResp _ _ _ eq_refl _ _ E2); [by vm_compute|]; by eapply Hsome|].
    apply history_push_holder in E. apply history_push_public in E2. by rewrite E2, E.
  - destruct (push_public _ _ _) as [s1|] eqn:E; [|discriminate]. cbn. intros [= <- <-].
    split; [|by apply history_push_public in E].
    refine (relays_reply ClientFrame.Pong _ _ _ eq_refl _ _ E); [by vm_compute|]. apply Hnone. by destruct (writer s).
  - destruct (writer s); [|intros [= <- <-]; by apply Hnone].
    destruct (push_holder _ _ _ _) as [s1|] eqn:E; [|discriminate]. cbn. intros [= <- <-].
    split; [by eapply Hsome|]. by apply history_push_holder in E.
  - destruct (writer s); [|intros [= <- <-]; by apply Hnone].
    destruct (ClientMessages.decode_resize _) as [[rows cols]|]; [|intros [= <- <-]; by apply Hnone]. cbn in *.
    destruct (holder_resize_payload rows cols) as [payload|]; [|intros [= <- <-]; by apply Hnone]. cbn in *.
    destruct (push_holder _ _ _ _) as [s1|] eqn:E; [|discriminate]. cbn. intros [= <- <-].
    split; [by eapply Hsome|]. by apply history_push_holder in E.
Qed.

Lemma carries_trans s1 s2 s3 : history s2 = history s1 -> carries s2 s3 -> carries s1 s3.
Proof. intros E [R Eh]. split; [done|congruence]. Qed.

Lemma public_loop_carries fuel : forall s stays s', relays s -> public_loop holder_minor fuel s = Ok (stays, s') -> carries s s'.
Proof.
  induction fuel as [|fuel IH]; intros s stays s' R; cbn [public_loop]; [by intros [= <- <-]|].
  intros Hr. inv_ok. destruct x as [[frame|] acc].
  - inv_ok. destruct x as [go s1]. set (s0 := set_public (fun _ => acc) s) in *.
    assert (R0 : relays s0) by (eapply relays_same; [..|exact R]; done).
    destruct (public_frame_carries frame s0 go s1 R0 Hok0) as [R1 E1].
    destruct go; [|injection Hr as <- <-; by split].
    eapply (carries_trans s s1); [done|]. by eapply IH.
  - injection Hr as <- <-. split; [|done]. eapply relays_same; [..|exact R]; done.
Qed.

Lemma read_public_carries r s stays s' : relays s -> read_public holder_minor r s = Ok (stays, s') -> carries s s'.
Proof.
  intros R. unfold read_public. set (f := fun bs => add_arrived bs (set_public (fun acc => ClientFrame.feed acc bs) s)).
  assert (R0 : forall bs, relays (f bs)) by (intros bs; eapply relays_same; [..|exact R]; done).
  destruct r as [bs| | |]; cbv zeta; [|by intros [= <- <-]| |discriminate].
  - intros Hr. eapply (carries_trans s (f bs)); [done|]. eapply public_loop_carries; [apply R0|exact Hr].
  - intros Hr. eapply (carries_trans s (f [])); [done|]. eapply public_loop_carries; [apply R0|exact Hr].
Qed.

(** What it means that the proxy ends with an outcome. *)
Definition last_word (outcome : option ExitContext) (s : Proxy) : Prop :=
  forall c, outcome = Some c -> exists l f e, heard s = l ++ [f] /\ HolderFrame.message_type f = HolderFrame.SessionExited /\
    exited_event (HolderFrame.payload f) = Ok e /\ Reconcile.x_session_id c = session_id /\ Reconcile.x_session_id e = session_id /\
    Reconcile.x_exit_code c = Reconcile.x_exit_code e /\ Reconcile.x_cwd c = Reconcile.x_cwd e /\
    Reconcile.x_environment c = Reconcile.x_environment e.

Lemma heard_push_public kind payload s s' : push_public kind payload s = Ok s' -> heard s' = heard s.
Proof. unfold push_public. destruct (push _ _); [|discriminate]. cbn. by intros [= <-]. Qed.

Lemma to_client_fits f kind payload : lenN (HolderFrame.payload f) <= HolderFrame.max_payload (HolderFrame.message_type f) ->
  to_client f = Some (kind, payload) -> fits_client (kind, payload).
Proof.
  unfold to_client, fits_client. intros Hsz. destruct (HolderFrame.message_type f); try discriminate; intros Hc.
  - destruct (exited_event (HolderFrame.payload f)) as [e|]; [|discriminate]. injection Hc as <- <-. cbn [fst snd].
    unfold ClientMessages.encode_session_exited. rewrite lenN_app, lenN_u32_be. unfold i32_be. rewrite lenN_u32_be. done.
  - by injection Hc as <- <-.
  - by injection Hc as <- <-.
  - by injection Hc as <- <-.
Qed.

Lemma protocol_error_Ok {A} message (c : result HolderProtocolError A) a : protocol_error message c = Ok a -> c = Ok a.
Proof. destruct c; [by intros [= ->]|discriminate]. Qed.

Lemma holder_frame_carries frame s ended s' : lenN (HolderFrame.payload frame) <= HolderFrame.max_payload (HolderFrame.message_type frame) ->
  relays s -> is_done (history s) = true ->
  holder_frame session_id holder_minor frame s = Ok (ended, s') ->
  carries s s' /\ forall outcome, ended = Some outcome -> last_word outcome s'.
Proof.
  intros Hsz R Hd Hr. unfold holder_frame in Hr. cbv zeta in Hr. pose proof (fun k p => to_client_fits frame k p Hsz) as Hfit. clear Hsz.
  assert (Hcar : forall kind payload w, to_client frame = Some (kind, payload) -> is_reply kind = false ->
    (w = true -> w = writer s \/ HolderFrame.message_type frame = HolderFrame.WriteGranted) ->
    push_public kind payload (set_writer w (set_heard (fun l => l ++ [frame]) s)) = Ok s' -> carries s s').
  { clear Hr. intros kind payload w Hc Hk Hw Hp. split; [eapply relays_told; [..|exact Hp]; eauto|]. by apply history_push_public in Hp. }
  clear Hfit.
  assert (Hid : set_heard (fun l => l ++ [frame]) s = set_writer (writer s) (set_heard (fun l => l ++ [frame]) s)) by done.
  unfold to_client in *.
  destruct (HolderFrame.message_type frame) eqn:Hm;
    try (injection Hr as <- <-; split; [|by intros ? [=]]; split; [|done]; apply relays_unheard; [done..|]; unfold to_client; by rewrite Hm).
  all: inv_ok; subst.
  - (* SessionExited *)
    split; [eapply (Hcar _ _ (writer s)); [by rewrite Hok|done|tauto|exact Hok0]|].
    intros outcome [= <-] c [= <-]. apply heard_push_public in Hok0. rewrite Hok0.
    destruct (N.eqb_spec (Reconcile.x_session_id x) session_id); [|discriminate]. by exists (heard s), frame, x.
  - (* Output *)
    split; [|by intros ? [=]]. eapply (Hcar _ _ (writer s)); [done|done|tauto|exact Hok].
  - split; [|by intros ? [=]]. eapply (Hcar _ _ true); [done|done|by right|exact Hok0].
  - split; [|by intros ? [=]]. eapply (Hcar _ _ false); [done|done|done|exact Hok0].
Qed.

Lemma holder_loop_carries fuel : forall s ended s', relays s -> is_done (history s) = true ->
  holder_loop session_id holder_minor fuel s = Ok (ended, s') ->
  carries s s' /\ forall outcome, ended = Some outcome -> last_word outcome s'.
Proof.
  induction fuel as [|fuel IH]; intros s ended s' R Hd; cbn [holder_loop]; [by intros [= <- <-]|].
  intros Hr. inv_ok. destruct x as [[frame|] acc].
  - inv_ok. destruct x as [out s1]. set (s0 := set_holder (fun _ => acc) s) in *.
    assert (R0 : relays s0) by (eapply relays_same; [..|exact R]; done).
    apply protocol_error_Ok, heard_payload in Hok. destruct (holder_frame_carries frame s0 out s1 Hok R0 Hd Hok0) as [[R1 E1] Hlast].
    destruct out as [outcome|]; [injection Hr as <- <-; split; [by split|done]|].
    destruct (IH s1 ended s' R1 ltac:(by rewrite E1) Hr) as [Hc Hl]. split; [|done]. by eapply (carries_trans s s1).
  - injection Hr as <- <-. split; [|done]. split; [|done]. eapply relays_same; [..|exact R]; done.
Qed.

Lemma read_holder_carries r s ended s' : relays s -> is_done (history s) = true ->
  read_holder session_id holder_minor r s = Ok (ended, s') ->
  carries s s' /\ forall outcome, ended = Some outcome -> last_word outcome s'.
Proof.
  intros R Hd. unfold read_holder. destruct r as [bs| | |]; [|intros [= <- <-]; split; [by split|]; by intros ? [= <-] c [=]
    |intros [= <- <-]; split; [by split|by intros ? [=]]|discriminate].
  intros Hr. inv_ok. set (s0 := set_holder (fun _ => x) s) in *.
  assert (R0 : relays s0) by (eapply relays_same; [..|exact R]; done).
  destruct (holder_loop_carries _ s0 ended s' R0 Hd Hr) as [Hc Hl]. split; [|done]. by eapply (carries_trans s s0).
Qed.

Lemma takeN_slice (l : bytes) i n : i + n <= lenN l -> takeN i l ++ slice l i (i + n) = takeN (i + n) l.
Proof.
  intros Hl. rewrite (slice_split l i (i + n)) at 3 by lia. rewrite app_assoc. symmetry. apply takeN_app.
  rewrite lenN_app, lenN_takeN, lenN_slice by lia. lia.
Qed.

(** A piece of the history more for the client. *)
Lemma relays_filled n q s : relays s -> is_done (history s) = false -> 0 < n -> h_offset (history s) + n <= lenN h0 -> n <= HISTORY_FRAME_PAYLOAD ->
  push (to_public s) (public_bytes ClientFrame.Stdout (slice h0 (h_offset (history s)) (h_offset (history s) + n))) = Ok q ->
  relays (set_to_public q (set_history (mkOutput h0 (h_offset (history s) + n)) s)).
Proof.
  intros [[R1 R1'] R2 [R3 R3'] (fs & Hfs & Hall' & Hsh) R5 R6] Hd Hn Hl Hsz Hp.
  destruct (push_ok _ _ _ R1 (public_bytes_some _ _) Hp) as (Hw & Hq & Ht).
  split; [by split|by split; [|apply R2]|by split| |done|done].
  destruct Hsh as (hist & Hf & Hall & Hcat & Hnone). pose proof (Hnone Hd) as Hh.
  set (piece := slice h0 (h_offset (history s)) (h_offset (history s) + n)) in *.
  exists (fs ++ [(ClientFrame.Stdout, piece)]). split.
  - unfold public_stream in *. cbn. rewrite encoded_app, <- Hfs, Hq, app_assoc. unfold encoded. cbn. by rewrite app_nil_r.
  - split.
    { apply Forall_app_2; [done|]. constructor; [|done]. unfold fits_client, piece. cbn [fst snd]. rewrite lenN_slice by lia.
      change (ClientFrame.limit ClientFrame.Stdout) with HISTORY_FRAME_PAYLOAD. lia. }
    exists (hist ++ [(ClientFrame.Stdout, piece)]). cbn. rewrite unreplied_snoc, Hf, Hh. cbn. rewrite app_nil_r.
    split_and!; [by rewrite app_nil_r| | |done].
    + apply Forall_app. by split; [|constructor].
    + rewrite map_app, concat_app, Hcat. cbn. rewrite app_nil_r. apply takeN_slice. lia.
Qed.

Lemma fill_loop_relays fuel : forall s, relays s -> lenN h0 - h_offset (history s) < N.of_nat fuel ->
  exists h q, fill_loop fuel (history s) (to_public s) = Ok (h, q) /\ relays (set_to_public q (set_history h s)) /\
    (is_done h = true \/ remaining_capacity q <= PUBLIC_FRAME_HEADER).
Proof.
  induction fuel as [|fuel IH]; intros s R Hfuel; [lia|]. cbn [fill_loop].
  pose proof (relays_history _ R) as [E Hle]. pose proof (relays_bounds _ R) as [Hb _].
  assert (Hsame : relays (set_to_public (to_public s) (set_history (history s) s))) by (eapply relays_same; [..|exact R]; done).
  destruct (is_done (history s)) eqn:Hd; [by exists (history s), (to_public s); eauto|]. cbv zeta.
  destruct (N.leb_spec (remaining_capacity (to_public s)) PUBLIC_FRAME_HEADER) as [Hcap|Hcap];
    [by exists (history s), (to_public s); eauto|].
  assert (Hlt : h_offset (history s) < lenN h0).
  { unfold is_done in Hd. rewrite E in Hd. destruct (N.eqb_spec (h_offset (history s)) (lenN h0)); [done|lia]. }
  rewrite E. set (count := N.min _ (_ - _)).
  assert (Hc : 0 < count /\ count <= lenN h0 - h_offset (history s) /\ count <= remaining_capacity (to_public s) - PUBLIC_FRAME_HEADER).
  { unfold count, HISTORY_FRAME_PAYLOAD. lia. }
  destruct Hc as (Hc1 & Hc2 & Hc3). unfold remaining_capacity in Hc3, Hcap.
  assert (Hc4 : count <= HISTORY_FRAME_PAYLOAD) by (unfold count; lia).
  set (frame := public_bytes _ _).
  assert (Hfit : is_ok (push (to_public s) frame) = true).
  { apply push_fits. unfold frame. rewrite public_bytes_size, lenN_slice by lia. lia. }
  destruct (push (to_public s) frame) as [q|] eqn:Hp; [|discriminate]. cbn [mbind result_bind].
  assert (R' : relays (set_to_public q (set_history (mkOutput h0 (h_offset (history s) + count)) s))).
  { apply relays_filled; [done..|lia|unfold count, HISTORY_FRAME_PAYLOAD; lia|exact Hp]. }
  destruct (IH _ R') as (h' & q' & Hf & Hrel & Hend); [cbn; lia|]. exists h', q'. split; [exact Hf|]. split; [|done].
  eapply relays_same; [..|exact Hrel]; done.
Qed.

Lemma fill_relays s : relays s -> exists h q, fill (history s) (to_public s) = Ok (h, q) /\
  relays (set_to_public q (set_history h s)) /\ (is_done h = true \/ remaining_capacity q <= PUBLIC_FRAME_HEADER).
Proof.
  intros R. apply fill_loop_relays; [done|]. pose proof (relays_history _ R) as [-> _]. lia.
Qed.

Lemma flush_public_relays writes s : relays s -> relays (flush_public writes s).2.
Proof.
  intros [[R1 R1'] [R2 R2'] R3 R4 R5 R6]. unfold flush_public.
  destruct (flush_ok writes (to_public s) [] R1) as (more & Hm). destruct (flush writes (to_public s) []) as [[r q] sent].
  destruct Hm as (-> & Hw & Hp & Ht).
  split; [by split|split; [cbn; lia|done]|done| |done|done]. destruct R4 as (fs & Hfs & Hsh). exists fs. split; [|done].
  unfold public_stream in *. cbn. by rewrite <- Hfs, Hp, app_assoc.
Qed.

Lemma flush_holder_relays writes s : relays s -> relays (flush_holder writes s).2.
Proof.
  intros [[R1 R1'] [R2 R2'] R3 R4 R5 R6]. unfold flush_holder.
  destruct (flush_ok writes (to_holder s) [] R1') as (more & Hm). destruct (flush writes (to_holder s) []) as [[r q] sent].
  destruct Hm as (-> & Hw & Hp & Ht).
  split; [by split|split; [done|cbn; lia]|done|done| |done]. destruct R5 as (fs & Hfs & Hsh). exists fs. split; [|done].
  unfold holder_stream in *. cbn. by rewrite <- Hfs, Hp, app_assoc.
Qed.

(** What holds after a turn. *)
Definition after (t : turn) : Prop :=
  match t with
  | Goes s => relays s
  | Ends outcome s => relays s /\ forall c, outcome = Ok (Some c) -> last_word (Some c) s
  end.

Lemma after_error e s : relays s -> after (Ends (Err e) s).
Proof. by split. Qed.
Lemma after_none s : relays s -> after (Ends (Ok None) s).
Proof. split; [done|by intros ? [=]]. Qed.

Lemma finish_round_after public holder timer s : relays s -> after (finish_round public holder timer s).
Proof.
  intros R. unfold finish_round.
  set (s0 := match timer with Some _ => set_observed (S (observed s)) s | None => s end).
  assert (R0 : relays s0) by (destruct timer; [eapply relays_same; [..|exact R]|]; done).
  assert (Hgo : after (let '(flushed, s) := if can_write public then flush_public (writes public) s0 else (Ok tt, s0) in
    try_turn flushed s (fun _ =>
      try_turn (if can_write public then fill (history s) (to_public s) else Ok (history s, to_public s)) s (fun x =>
        let s := set_to_public x.2 (set_history x.1 s) in
        let '(flushed, s) := if can_write holder then flush_holder (writes holder) s else (Ok tt, s) in
        try_turn flushed s (fun _ => if failed public || failed holder then Ends (Ok None) s else Goes s))))).
  { assert (R1 : relays (if can_write public then flush_public (writes public) s0 else (Ok tt, s0)).2)
      by (destruct (can_write public); [by apply flush_public_relays|done]).
    destruct (if can_write public then _ else _) as [[u|e] s1]; [|by apply after_error]. cbn [try_turn snd] in *.
    assert (Hf : exists h q, (if can_write public then fill (history s1) (to_public s1) else Ok (history s1, to_public s1)) = Ok (h, q) /\
      relays (set_to_public q (set_history h s1))).
    { destruct (can_write public); [destruct (fill_relays s1 R1) as (h & q & ? & ? & _); by exists h, q|].
      exists (history s1), (to_public s1). split; [done|]. eapply relays_same; [..|exact R1]; done. }
    destruct Hf as (h & q & -> & R2). cbn [try_turn fst snd]. cbv zeta. set (s2 := set_to_public q (set_history h s1)) in *.
    assert (R3 : relays (if can_write holder then flush_holder (writes holder) s2 else (Ok tt, s2)).2)
      by (destruct (can_write holder); [by apply flush_holder_relays|done]).
    destruct (if can_write holder then _ else _) as [[v|e] s3]; [|by apply after_error]. cbn [try_turn snd] in *.
    destruct (_ || _); [|done]. by apply after_none. }
  destruct timer as [[|]|]; [exact Hgo|by apply after_error|exact Hgo].
Qed.

Lemma round_after r s : relays s -> after (round session_id holder_minor r s).
Proof.
  intros R. destruct r as [| |public holder timer]; cbn [round]; [done|by apply after_error|]. cbv zeta.
  set (public' := pollfd _ public). set (holder' := pollfd _ holder).
  set (reads := negb (_ || _)).
  assert (Hreads : reads = true -> is_done (history s) = true).
  { unfold reads. destruct (is_done (history s)); done. }
  destruct (if reads && can_read public' then read_public holder_minor (read_answer public') s else Ok (true, s)) as [[stays s1]|e] eqn:E1;
    cbn [try_turn fst snd]; [|by apply after_error].
  assert (C1 : carries s s1).
  { destruct (reads && can_read public'); [by eapply read_public_carries|]. injection E1 as <- <-. by split. }
  destruct C1 as [R1 Hh1]. destruct stays; cbn [negb]; [|by apply after_none].
  destruct (if reads && can_read holder' then read_holder session_id holder_minor (read_answer holder') s1 else Ok (None, s1))
    as [[ended s2]|e] eqn:E2; cbn [try_turn fst snd]; [|by apply after_error].
  assert (C2 : carries s1 s2 /\ forall outcome, ended = Some outcome -> last_word outcome s2).
  { destruct (reads && can_read holder') eqn:Hr; [|injection E2 as <- <-; split; [by split|by intros ? [=]]].
    apply andb_true_iff in Hr as [Hr _]. eapply read_holder_carries; [done| |exact E2]. rewrite Hh1. by apply Hreads. }
  destruct C2 as [[R2 Hh2] Hlast]. destruct ended as [outcome|]; [|by apply finish_round_after].
  split; [by apply flush_public_relays|]. intros c [= ->]. pose proof (Hlast _ eq_refl) as Hl.
  assert (Eh : heard (flush_public (writes public') s2).2 = heard s2).
  { unfold flush_public. destruct (flush _ _ _) as [[r q] sent]. done. }
  intros c' Hc'. rewrite Eh. by apply Hl.
Qed.

Lemma rounds_after l : forall s, relays s -> after (rounds session_id holder_minor l s).
Proof.
  induction l as [|r l IH]; intros s R; cbn [rounds]; [done|]. pose proof (round_after r s R) as Ha.
  destruct (round session_id holder_minor r s) as [s'|outcome s']; [by apply IH|done].
Qed.

Lemma start_relays : exists s, start h0 read_write = Ok s /\ relays s.
Proof.
  set (s := mkProxy ClientFrame.new HolderFrame.new ByteQueue.empty ByteQueue.empty (new_output h0) read_write [] [] [] [] O []).
  assert (R : relays s).
  { pose proof ByteQueue.empty_wf as Hq.
    split; cbn; [by split|by split|split; [done|lia]| | |by intros ->].
    - exists []. split; [done|]. split; [done|]. by exists [].
    - exists []. split; [done|constructor]. }
  destruct (fill_relays s R) as (h & q & Hf & R' & _). unfold start.
  change (fill (new_output h0) ByteQueue.empty = Ok (h, q)) in Hf. rewrite Hf. cbn [mbind result_bind].
  eexists. split; [done|]. eapply relays_same; [..|exact R']; done.
Qed.

(** C7: While a client is attached, for every behaviour of the kernel, every
    input and every output, the proxy starts (unless its timer
    cannot be created), and at every turn and at its end,
    errors included: what the client was sent followed by what is queued for it
    is a sequence of frames within the client's limits that, apart from the answers of the proxy itself,
    is the saved output (whole before anything else is read) followed by one
    frame for each output, writer change and exit that the holder sent, in
    order; what the holder was sent and is queued is the encoding of the input,
    window sizes and signals typed while the client was the writer, in order,
    and nothing else; neither queue exceeds 1 MiB; a client attached read-only
    that was never granted the seat has sent nothing; and the proxy ends with
    the exit of a session only when the last frame it heard is the exit of this
    session, with that status, directory and environment. *)
Theorem proxy_relays armed l :
  match run session_id holder_minor h0 read_write armed l with inl t => after t | inr _ => armed = false end.
Proof.
  destruct start_relays as (s & Hs & R). unfold run. rewrite Hs. destruct armed; [by apply rounds_after|done].
Qed.
End relay.

(** ** What the client typed *)

Section typed.
Context `{SnapshotJson} (session_id holder_minor : N).

(** What was typed are the frames of the bytes that arrived. *)
Definition follows (s : Proxy) : Prop := forall fs future,
  Forall ClientFrame.frame_ok fs -> arrived s ++ future = concat (map ClientFrame.write_frame fs) ->
  exists fs2, fs = map snd (typed s) ++ fs2 /\ ClientFrame.buf (public_frames s) ++ future = concat (map ClientFrame.write_frame fs2).

Definition same_input (s s' : Proxy) : Prop :=
  public_frames s' = public_frames s /\ typed s' = typed s /\ arrived s' = arrived s.

Lemma follows_same s s' : same_input s s' -> follows s -> follows s'.
Proof. unfold follows. by intros (-> & -> & ->). Qed.

Lemma push_public_input kind payload s s' : push_public kind payload s = Ok s' -> same_input s s'.
Proof. unfold push_public. destruct (push _ _); [|discriminate]. by intros [= <-]. Qed.
Lemma push_holder_input kind payload m s s' : push_holder kind payload m s = Ok s' -> same_input s s'.
Proof.
  unfold push_holder. destruct (holder_bytes _ _ _); [|discriminate]. cbn. destruct (push _ _); [|discriminate]. by intros [= <-].
Qed.
Lemma same_input_trans s1 s2 s3 : same_input s1 s2 -> same_input s2 s3 -> same_input s1 s3.
Proof. intros (E1 & E2 & E3) (F1 & F2 & F3). by split_and!; etransitivity. Qed.

Lemma public_frame_input frame s stays s' : public_frame holder_minor frame s = Ok (stays, s') ->
  same_input (set_typed (fun l => l ++ [(writer s, frame)]) s) s'.
Proof.
  unfold public_frame. cbv zeta. intros Hr. set (s0 := set_typed _ s) in *.
  destruct (ClientFrame.msg_type frame); try (by injection Hr as <- <-).
  all: repeat case_match; inv_ok; simplify_eq; try done.
  all: repeat match goal with
    | H : push_public _ _ _ = Ok _ |- _ => apply push_public_input in H
    | H : push_holder _ _ _ _ = Ok _ |- _ => apply push_holder_input in H
    end; try done; by eapply same_input_trans.
Qed.

Lemma public_loop_follows fuel : forall s stays s', follows s -> public_loop holder_minor fuel s = Ok (stays, s') -> follows s'.
Proof.
  induction fuel as [|fuel IH]; intros s stays s' Hf Hr; cbn [public_loop] in Hr; [by injection Hr as <- <-|].
  apply bind_Ok_inv in Hr as ([[frame|] acc] & Ht & Hr).
  - apply bind_Ok_inv in Hr as ([go s1] & Hp & Hr). apply public_frame_input in Hp.
    assert (H1 : follows s1).
    { eapply follows_same; [exact Hp|]. intros fs future Hok Ha. destruct (Hf fs future Hok Ha) as (fs2 & -> & Hb).
      apply Forall_app in Hok as [_ Hok]. destruct (ClientFrame.try_read_stream _ _ _ _ _ Hok Hb Ht) as (fs3 & -> & Hb').
      exists fs3. cbn. rewrite map_app, <- app_assoc. by split. }
    destruct go; [by eapply IH|]. by injection Hr as <- <-.
  - injection Hr as <- <-. assert (acc = public_frames s) as ->; [|eapply follows_same; [|exact Hf]; done].
    unfold ClientFrame.try_read in Ht. repeat case_match; inv_ok; try discriminate; by simplify_eq.
Qed.

Lemma read_public_follows r s stays s' : follows s -> read_public holder_minor r s = Ok (stays, s') -> follows s'.
Proof.
  intros Hf. unfold read_public.
  assert (Hadd : forall bs, follows (add_arrived bs (set_public (fun acc => ClientFrame.feed acc bs) s))).
  { intros bs fs future Hok. cbn. rewrite <- !app_assoc. by apply Hf. }
  destruct r as [bs| | |]; cbv zeta; [|by intros [= <- <-]| |discriminate]; intros Hr; eapply public_loop_follows; [|exact Hr| |exact Hr]; apply Hadd.
Qed.

Lemma holder_frame_input frame s ended s' : holder_frame session_id holder_minor frame s = Ok (ended, s') -> same_input s s'.
Proof.
  unfold holder_frame. cbv zeta. intros Hr.
  destruct (HolderFrame.message_type frame); try (by injection Hr as <- <-).
  all: inv_ok; subst.
  all: match goal with H : push_public _ _ _ = Ok _ |- _ => apply push_public_input in H; exact H end.
Qed.

Lemma holder_loop_input fuel : forall s ended s', holder_loop session_id holder_minor fuel s = Ok (ended, s') -> same_input s s'.
Proof.
  induction fuel as [|fuel IH]; intros s ended s' Hr; cbn [holder_loop] in Hr; [by injection Hr as <- <-|].
  apply bind_Ok_inv in Hr as ([[frame|] acc] & Ht & Hr); [|by injection Hr as <- <-].
  apply bind_Ok_inv in Hr as ([out s1] & Hp & Hr). apply holder_frame_input in Hp.
  eapply same_input_trans; [exact Hp|]. destruct out; [by injection Hr as <- <-|]. by eapply IH.
Qed.

Lemma read_holder_input r s ended s' : read_holder session_id holder_minor r s = Ok (ended, s') -> same_input s s'.
Proof.
  unfold read_holder. destruct r as [bs| | |]; [|by intros [= <- <-]|by intros [= <- <-]|discriminate].
  intros Hr. apply bind_Ok_inv in Hr as (acc & _ & Hr). by apply holder_loop_input in Hr.
Qed.

Lemma flush_public_input l s : same_input s (flush_public l s).2.
Proof. unfold flush_public. by destruct (flush _ _ _) as [[r q] bs]. Qed.
Lemma flush_holder_input l s : same_input s (flush_holder l s).2.
Proof. unfold flush_holder. by destruct (flush _ _ _) as [[r q] bs]. Qed.

Definition state_of (t : turn) : Proxy := match t with Goes s => s | Ends _ s => s end.

Lemma finish_round_input public holder timer s : same_input s (state_of (finish_round public holder timer s)).
Proof.
  unfold finish_round. set (s0 := match timer with Some _ => _ | None => s end). assert (H0 : same_input s s0) by (by destruct timer).
  assert (H1 : same_input s (if can_write public then flush_public (writes public) s0 else (Ok tt, s0)).2).
  { eapply same_input_trans; [exact H0|]. destruct (can_write public); [apply flush_public_input|done]. }
  destruct timer as [[|]|]; [|exact H0|].
  all: destruct (if can_write public then flush_public _ _ else _) as [[u|e] s1]; cbn [try_turn snd state_of] in *; [|exact H1].
  all: destruct (if can_write public then fill _ _ else _) as [[h q]|e]; cbn [try_turn fst snd state_of] in *; [|exact H1].
  all: set (s2 := set_to_public q (set_history h s1)) in *; assert (H2 : same_input s s2) by exact H1.
  all: assert (H3 : same_input s (if can_write holder then flush_holder (writes holder) s2 else (Ok tt, s2)).2)
    by (eapply same_input_trans; [exact H2|]; destruct (can_write holder); [apply flush_holder_input|done]).
  all: destruct (if can_write holder then flush_holder _ _ else _) as [[v|e] s3]; cbn [try_turn snd state_of] in *; [|exact H3].
  all: by destruct (_ || _).
Qed.

Lemma round_follows r s : follows s -> follows (state_of (round session_id holder_minor r s)).
Proof.
  intros Hf. destruct r as [| |public holder timer]; cbn [round]; [done|done|]. cbv zeta.
  set (public' := pollfd _ public). set (holder' := pollfd _ holder). set (reads := negb (_ || _)).
  destruct (if reads && can_read public' then read_public _ _ s else _) as [[stays s1]|e] eqn:E1; cbn [try_turn fst snd]; [|done].
  assert (H1 : follows s1).
  { destruct (reads && can_read public'); [by eapply read_public_follows|]. by injection E1 as <- <-. }
  destruct stays; cbn [negb]; [|done].
  destruct (if reads && can_read holder' then read_holder _ _ _ s1 else _) as [[ended s2]|e] eqn:E2; cbn [try_turn fst snd]; [|done].
  assert (H2 : follows s2).
  { destruct (reads && can_read holder'); [apply read_holder_input in E2; by eapply follows_same|]. by injection E2 as <- <-. }
  destruct ended as [outcome|]; (eapply follows_same; [|exact H2]); [apply flush_public_input|apply finish_round_input].
Qed.

Lemma rounds_follows l : forall s, follows s -> follows (state_of (rounds session_id holder_minor l s)).
Proof.
  induction l as [|r l IH]; intros s Hf; cbn [rounds]; [done|]. pose proof (round_follows r s Hf) as H1.
  destruct (round session_id holder_minor r s) as [s'|outcome s']; [by apply IH|done].
Qed.

Lemma start_follows h0 read_write s : start h0 read_write = Ok s -> follows s.
Proof.
  unfold start. intros Hs. apply bind_Ok_inv in Hs as ([h q] & _ & Hs). injection Hs as <-.
  intros fs future _ Ha. exists fs. by split.
Qed.
End typed.

(** ** A run *)

Section sample.
#[local] Existing Instance Environment.bits_json.

Definition sample_exit : bytes :=
  match Operation.encode_session_exited_event_v2 (Operation.mkExited 7 3%Z None None) with Ok bs => bs | Err _ => [] end.
Definition sample_frame kind payload : bytes :=
  match holder_bytes kind payload HolderFrame.HOLDER_PROTOCOL_MINOR with Ok bs => bs | Err _ => [] end.
Definition idle : Ready := mkReady false Again false [] false.
Definition drains : Ready := mkReady false Again true [Wrote 1000; Wrote 1000; Wrote 1000; Wrote 1000] false.
Definition sample_rounds : list Round :=
  [ Polled drains idle None;
    Polled (mkReady true (Chunk (public_bytes ClientFrame.Stdin (lit "ls"))) false [] false) idle (Some true);
    Polled idle drains None;
    Polled idle (mkReady true (Chunk (sample_frame HolderFrame.Output (lit "a"))) false [] false) None;
    Polled drains (mkReady true (Chunk []) false [] false) None;
    Polled drains (mkReady true (Chunk (sample_frame HolderFrame.SessionExited sample_exit)) false [] false) None ].

(** The saved output, then one command, its output and the exit. *)
Example sample_run :
  match run 7 HolderFrame.HOLDER_PROTOCOL_MINOR (lit "old") true true sample_rounds with
  | inl (Ends (Ok (Some c)) s) =>
      Reconcile.x_exit_code c = 3%Z /\
      sent_public s = public_bytes ClientFrame.Stdout (lit "old") ++ public_bytes ClientFrame.Stdout (lit "a") ++
        public_bytes ClientFrame.SessionExited (ClientMessages.encode_session_exited 7 3%Z) /\
      sent_holder s = sample_frame HolderFrame.Input (lit "ls")
  | _ => False
  end.
Proof. vm_compute. done. Qed.
End sample.
End PublicAttach.
