(* ===== verification/Text.v ===== *)
(** * Text: the functions of Rust's [str] that the code reads text with.

    [trim], [split_whitespace], [to_ascii_lowercase] and the parsing of numbers, on the UTF-8 bytes of a string. *)
From S2P Require Import Prelude Bytes Utf8 Daemon.
From stdpp Require Import pretty.
From Stdlib Require Import Lia.
Import String.StringSyntax.
Local Open Scope N_scope.

Module Text.

(** ** White space *)

(** [char::is_whitespace]: Unicode's White_Space. *)
Definition char_is_whitespace (c : bytes) : bool :=
  match map byte_val c with
  | [b] => ((9 <=? b) && (b <=? 13)) || (b =? 32)
  | [0xc2; b] => (b =? 0x85) || (b =? 0xa0)
  | [0xe1; 0x9a; b] => b =? 0x80
  | [0xe2; 0x80; b] => ((0x80 <=? b) && (b <=? 0x8a)) || (b =? 0xa8) || (b =? 0xa9) || (b =? 0xaf)
  | [0xe2; 0x81; b] => b =? 0x9f
  | [0xe3; 0x80; b] => b =? 0x80
  | _ => false
  end.

Fixpoint skip_white (cs : list bytes) : list bytes :=
  match cs with c :: cs' => if char_is_whitespace c then skip_white cs' else cs | [] => [] end.

Definition trim (s : str) : str := concat (rev (skip_white (rev (skip_white (chars s))))).

(** The words of a string, of which [word] has been read. *)
Fixpoint words (cs : list bytes) (word : str) : list str :=
  match cs with
  | [] => match word with [] => [] | _ => [word] end
  | c :: cs' =>
      if char_is_whitespace c then match word with [] => words cs' [] | _ => word :: words cs' [] end
      else words cs' (word ++ c)
  end.
Definition split_whitespace (s : str) : list str := words (chars s) [].

(** ** Case *)

Definition to_ascii_lowercase (s : str) : str :=
  map (fun b => if is_ascii_upper b then byte_of (byte_val b + 32) else b) s.

(** ** Numbers *)

Definition value_from (acc : N) (s : str) : N := fold_left (fun v b => 10 * v + (byte_val b - 48)) s acc.

(** [s.parse()] as an unsigned number of at most [max]. *)
Definition parse_digits (max : N) (s : str) : option N :=
  if match s with [] => true | _ => negb (forallb is_ascii_digit s) end then None
  else if max <? value_from 0 s then None else Some (value_from 0 s).
Definition parse_unsigned (max : N) (s : str) : option N :=
  match s with b :: s' => if byte_val b =? 43 then parse_digits max s' else parse_digits max s | [] => None end.

(** [s.find(|c| !c.is_ascii_digit())] and [split_at]. *)
Fixpoint split_number (s : str) : str * str :=
  match s with
  | [] => ([], [])
  | b :: s' => if is_ascii_digit b then let '(n, u) := split_number s' in (b :: n, u) else ([], s)
  end.

(** ** Lines *)

Definition newline : byte := byte_of 10.
Definition strip_return (line : str) : str :=
  match last line with Some b => if byte_val b =? 13 then takeN (lenN line - 1) line else line | None => line end.

(** [s.lines()]: a carriage return belongs to the newline that follows it. *)
Fixpoint lines_of (pieces : list str) : list str :=
  match pieces with
  | [] => []
  | [piece] => match piece with [] => [] | _ => [piece] end
  | piece :: pieces' => strip_return piece :: lines_of pieces'
  end.
Definition lines (s : str) : list str := lines_of (Daemon.split_on newline s).

(** ** Numbers that were written in decimal *)

Lemma value_from_app acc a b : value_from acc (a ++ b) = value_from (value_from acc a) b.
Proof. apply fold_left_app. Qed.

Lemma pretty_N_char_value x : x < 10 -> byte_val (Ascii.byte_of_ascii (pretty_N_char x)) = 48 + x.
Proof. intros Hx. destruct x as [|p]; [done|]. do 4 (destruct p as [p|p|]; try done; try lia). Qed.

Lemma value_pretty_go x s : value_from 0 (lit (pretty_N_go x s)) = value_from x (lit s).
Proof.
  revert s. induction (N.lt_wf_0 x) as [x _ IH]; intros s. destruct (decide (x = 0)) as [->|Hx]; [by rewrite pretty_N_go_0|].
  rewrite pretty_N_go_step by lia. rewrite IH by (apply N.div_lt; lia).
  change (value_from (x / 10) (Ascii.byte_of_ascii (pretty_N_char (x mod 10)) :: lit s) = value_from x (lit s)).
  pose proof (N.mod_lt x 10 ltac:(lia)). unfold value_from. cbn [fold_left]. f_equal.
  rewrite pretty_N_char_value by done. rewrite (N.add_comm 48), N.add_sub. symmetry. by apply N.div_mod.
Qed.

Lemma digits_pretty_go x s : forallb is_ascii_digit (lit s) = true -> forallb is_ascii_digit (lit (pretty_N_go x s)) = true.
Proof.
  revert s. induction (N.lt_wf_0 x) as [x _ IH]; intros s Hs. destruct (decide (x = 0)) as [->|Hx]; [by rewrite pretty_N_go_0|].
  rewrite pretty_N_go_step by lia. apply IH; [apply N.div_lt; lia|].
  pose proof (N.mod_lt x 10 ltac:(lia)) as Hm.
  change (is_ascii_digit (Ascii.byte_of_ascii (pretty_N_char (x mod 10))) && forallb is_ascii_digit (lit s) = true).
  rewrite Hs, andb_true_r. unfold is_ascii_digit.
  rewrite pretty_N_char_value by done. generalize dependent (x mod 10). intros m Hm. apply andb_true_iff. split; apply N.leb_le; lia.
Qed.

Lemma decimal_value n : value_from 0 (Daemon.decimal n) = n.
Proof.
  unfold Daemon.decimal, pretty, pretty_N. case_decide as Hn; [by rewrite Hn|]. by rewrite value_pretty_go.
Qed.
Lemma decimal_is_digits n : forallb is_ascii_digit (Daemon.decimal n) = true.
Proof. unfold Daemon.decimal, pretty, pretty_N. case_decide as Hn; [done|]. by apply digits_pretty_go. Qed.
Lemma decimal_nonempty n : Daemon.decimal n <> [].
Proof.
  intros E. pose proof (decimal_value n) as Hv. rewrite E in Hv. cbn in Hv. subst n. vm_compute in E. discriminate.
Qed.

(** A number that was printed is read again. *)
Lemma parse_decimal max n : n <= max -> parse_digits max (Daemon.decimal n) = Some n.
Proof.
  intros Hn. unfold parse_digits. rewrite decimal_value, decimal_is_digits. pose proof (decimal_nonempty n).
  destruct (Daemon.decimal n); [done|]. cbn. by destruct (N.ltb_spec max n); [lia|].
Qed.

Lemma split_number_decimal n unit_ : match unit_ with b :: _ => is_ascii_digit b = false | [] => True end ->
  split_number (Daemon.decimal n ++ unit_) = (Daemon.decimal n, unit_).
Proof.
  intros Hu. pose proof (decimal_is_digits n) as Hd. induction (Daemon.decimal n) as [|b l IH]; cbn [app].
  - destruct unit_ as [|b u]; [done|]. cbn. by rewrite Hu.
  - cbn in Hd. apply andb_true_iff in Hd as [Hb Hl]. cbn. by rewrite Hb, IH.
Qed.

(** No other character is in a number. *)
Lemma decimal_free c n : is_ascii_digit c = false -> c ∉ Daemon.decimal n.
Proof.
  intros Hc Hin. pose proof (decimal_is_digits n) as Hd. rewrite forallb_forall in Hd.
  apply list_elem_of_In, Hd in Hin. congruence.
Qed.

(** ** Trimming *)

Lemma chars_ascii s : forallb is_ascii_byte s = true -> chars s = map (fun b => [b]) s.
Proof.
  unfold chars. induction s as [|b s IH]; [done|]. cbn [forallb]. intros [Hb Hs]%andb_true_iff.
  cbn [utf8_chunks map]. unfold utf8_width. unfold is_ascii_byte in Hb. rewrite Hb. cbn. by rewrite IH.
Qed.

Lemma head_of_rev {A} (l : list A) : head (rev l) = last l.
Proof. induction l as [|x l _] using rev_ind; [done|]. by rewrite rev_app_distr, last_snoc. Qed.

(** Text without white space at its ends. *)
Lemma trim_id s : forallb is_ascii_byte s = true ->
  (forall b, head s = Some b -> char_is_whitespace [b] = false) ->
  (forall b, last s = Some b -> char_is_whitespace [b] = false) -> trim s = s.
Proof.
  intros Ha Hh Hl. unfold trim. rewrite chars_ascii by done.
  assert (Hskip : forall t, (forall b, head t = Some b -> char_is_whitespace [b] = false) ->
    skip_white (map (fun b : Byte.byte => [b]) t) = map (fun b => [b]) t).
  { intros [|b t] Ht; [done|]. cbn [map skip_white]. by rewrite (Ht b). }
  rewrite Hskip by done. rewrite <- map_rev, Hskip by (intros b; rewrite head_of_rev; apply Hl).
  rewrite <- map_rev, rev_involutive. clear. induction s as [|b s IH]; [done|]. cbn. by rewrite IH.
Qed.

Lemma alnum_plain b : is_ascii_alphanumeric b = true -> is_ascii_byte b = true /\ char_is_whitespace [b] = false.
Proof. by destruct b. Qed.
Lemma alpha_not_digit b : is_ascii_alphabetic b = true -> is_ascii_digit b = false.
Proof. by destruct b. Qed.

Lemma trim_alnum s : forallb is_ascii_alphanumeric s = true -> trim s = s.
Proof.
  rewrite forallb_forall. intros Hs. apply trim_id.
  - apply forallb_forall. intros b Hb. by apply alnum_plain, Hs.
  - intros b Hb. apply alnum_plain, Hs. destruct s; [done|]. left. by injection Hb.
  - intros b Hb. apply alnum_plain, Hs, list_elem_of_In. by apply last_Some_elem_of.
Qed.
End Text.
