(* ===== verification/LogFiles.v ===== *)
(** * LogFiles: the files of the session logs.

    Models the thread of [crates/persist-holder/src/log_worker.rs], whose queue
    is HolderRuntime.v's [LogWorker]: [worker_loop] opens, rotates and appends to
    the log of each session.  [Disk] is what these system calls do to a
    directory tree of names and inodes; every call asks the kernel first, which
    may answer with a fault. *)
From S2P Require Import Prelude Bytes Effects HolderRuntime Daemon Text.
From stdpp Require Import pretty functions.
From Stdlib Require Import Lia.
Import String.StringSyntax.
Local Open Scope N_scope.

(** ** System calls *)

Module Disk.

Inductive Kind : Type := Regular | Directory | Symlink | Other.
#[export] Instance Kind_eq_dec : EqDecision Kind.
Proof. solve_decision. Defined.

Record Inode : Type := mkInode { kind : Kind; uid : N; mode : N; contents : bytes }.

(** [me] is the user, [umask] its file mode creation mask. *)
Record Disk : Type := mkDisk { names : gmap str N; inodes : gmap N Inode; next : N; me : N; umask : N }.

(** The answer to a call: it works, it fails, or (a write) it fails after [n]
    bytes. *)
Inductive answer : Type := Fine | Fault | Partial (n : N).
Inductive io_error : Type := IoFailed.

Record World : Type := mkWorld { disk : Disk; answers : list answer }.
Abbreviation IO := (M World io_error).

Definition set_disk (f : Disk -> Disk) (w : World) : World := mkWorld (f (disk w)) (answers w).
Definition set_names (f : gmap str N -> gmap str N) (d : Disk) : Disk := mkDisk (f (names d)) (inodes d) (next d) (me d) (umask d).
Definition set_inodes (f : gmap N Inode -> gmap N Inode) (d : Disk) : Disk := mkDisk (names d) (f (inodes d)) (next d) (me d) (umask d).

Definition lookup_file (d : Disk) (path : str) : option Inode := names d !! path ≫= fun ino => inodes d !! ino.

(** The next answer; the kernel is well when there is none. *)
Definition ask_kernel : IO answer := fun w =>
  match answers w with [] => Some (Ok Fine, w) | a :: l => Some (Ok a, mkWorld (disk w) l) end.
Definition call : IO unit := a ← ask_kernel; match a with Fine => mret tt | _ => fail IoFailed end.

(** [O_CREAT] of a missing file. *)
Definition create (path : str) (mode_ : N) (d : Disk) : Disk :=
  mkDisk (<[path := next d]> (names d)) (<[next d := mkInode Regular (me d) (N.ldiff mode_ (umask d)) []]> (inodes d))
    (next d + 1) (me d) (umask d).

(** [open(O_CREAT | O_APPEND | O_NOFOLLOW)]: the inode. *)
Definition open_append (path : str) (mode_ : N) : IO N :=
  _ ← call; w ← get;
  match names (disk w) !! path with
  | None => _ ← modify (set_disk (create path mode_)); mret (next (disk w))
  | Some ino =>
      match kind <$> inodes (disk w) !! ino with
      | Some (Regular | Other) => mret ino
      | _ => fail IoFailed
      end
  end.

(** [file.metadata()] *)
Definition metadata (ino : N) : IO Inode := _ ← call; w ← get; unwrap (inodes (disk w) !! ino).

(** [file.write_all(data)] of a file opened for appending. *)
Definition write_all (ino : N) (data : bytes) : IO unit :=
  a ← ask_kernel;
  let append bs := modify (set_disk (set_inodes (alter (fun f => mkInode (kind f) (uid f) (mode f) (contents f ++ bs)) ino))) in
  match a with
  | Fine => append data
  | Fault => fail IoFailed
  | Partial n => _ ← append (takeN n data); fail IoFailed
  end.

Definition remove_file (path : str) : IO unit :=
  _ ← call; w ← get;
  match kind <$> lookup_file (disk w) path with
  | None | Some Directory => fail IoFailed
  | _ => modify (set_disk (set_names (delete path)))
  end.

(** [path.exists()]; a call that fails says no. *)
Definition exists_path (path : str) : IO bool :=
  r ← attempt call; w ← get;
  mret (is_ok r && bool_decide (is_Some (lookup_file (disk w) path))).

(** [rename] of a file, which replaces another file. *)
Definition rename (old new : str) : IO unit :=
  _ ← call; w ← get;
  match names (disk w) !! old, kind <$> lookup_file (disk w) old, kind <$> lookup_file (disk w) new with
  | Some ino, Some Directory, Some _ | Some ino, _, Some Directory => fail IoFailed
  | Some ino, _, _ => modify (set_disk (set_names (fun m => <[new := ino]> (delete old m))))
  | None, _, _ => fail IoFailed
  end.
(** ** What the calls do to a well-formed disk *)

(** No hard links, and no name of an inode that does not exist yet. *)
Record wf (d : Disk) : Prop := {
  wf_links : forall p q ino, names d !! p = Some ino -> names d !! q = Some ino -> p = q;
  wf_next : forall p ino, names d !! p = Some ino -> ino < next d;
  wf_inodes : forall p ino, names d !! p = Some ino -> is_Some (inodes d !! ino) }.

(** A call without a fault that leads from a disk to another. *)
Definition goes {A} (m : IO A) (d : Disk) (a : A) (d' : Disk) : Prop := m (mkWorld d []) = Some (Ok a, mkWorld d' []).

Lemma call_fine d : call (mkWorld d []) = Some (Ok tt, mkWorld d []).
Proof. done. Qed.

Lemma goes_bind {A B} (m : IO A) (k : A -> IO B) d a d' b d'' : goes m d a d' -> goes (k a) d' b d'' -> goes (m ≫= k) d b d''.
Proof. unfold goes, mbind, M_bind. by intros -> ->. Qed.

Lemma lookup_file_name d path f : lookup_file d path = Some f <-> exists ino, names d !! path = Some ino /\ inodes d !! ino = Some f.
Proof.
  unfold lookup_file. destruct (names d !! path) as [ino|]; cbn; [|naive_solver]. split; [by exists ino|].
  intros (i & [= <-] & ?). done.
Qed.

Lemma lookup_file_none d path : wf d -> lookup_file d path = None <-> names d !! path = None.
Proof.
  intros Hwf. unfold lookup_file. destruct (names d !! path) as [ino|] eqn:E; cbn; [|done].
  destruct (wf_inodes d Hwf path ino E) as [f ->]. done.
Qed.

(** [d'] is [d] but for the names of [ps]. *)
Definition only (ps : str -> Prop) (d d' : Disk) : Prop :=
  (forall p, ~ ps p -> lookup_file d' p = lookup_file d p /\ names d' !! p = names d !! p) /\
  me d' = me d /\ umask d' = umask d.

Lemma only_refl ps d : only ps d d.
Proof. done. Qed.
Lemma only_trans ps qs d1 d2 d3 : only ps d1 d2 -> only qs d2 d3 -> only (fun p => ps p \/ qs p) d1 d3.
Proof.
  intros (H1 & E1 & U1) (H2 & E2 & U2). split; [|split; congruence]. intros p Hp.
  destruct (H1 p) as [L1 N1], (H2 p) as [L2 N2]; [tauto..|]. split; congruence.
Qed.
Lemma only_mono (ps qs : str -> Prop) d d' : (forall p, ps p -> qs p) -> only ps d d' -> only qs d d'.
Proof. intros Hs [H1 H2]. split; [|done]. intros p Hp. apply H1. naive_solver. Qed.

Lemma create_ok path m d : wf d -> names d !! path = None ->
  wf (create path m d) /\ lookup_file (create path m d) path = Some (mkInode Regular (me d) (N.ldiff m (umask d)) []) /\
  only (fun p => p = path) d (create path m d).
Proof.
  intros [H1 H2 H3] Hn. unfold create, lookup_file. split_and!; cbn.
  - split; cbn.
    + intros p q ino. rewrite !lookup_insert_Some. intros [[<- <-]|[? Hp]] [[<- ?]|[? Hq]]; try done.
      * by apply H2 in Hq; lia.
      * subst. apply H2 in Hp; lia.
      * by eapply H1.
    + intros p ino. rewrite lookup_insert_Some. intros [[_ <-]|[_ Hp]]; [lia|]. apply H2 in Hp. lia.
    + intros p ino. rewrite lookup_insert_Some. intros [[_ <-]|[_ Hp]]; [by rewrite lookup_insert_eq|].
      rewrite lookup_insert_ne by (apply H2 in Hp; lia). by eapply H3.
  - by rewrite lookup_insert_eq; cbn; rewrite lookup_insert_eq.
  - split; [|done]. intros p Hp. unfold lookup_file. cbn. rewrite lookup_insert_ne by done. split; [|done].
    destruct (names d !! p) as [ino|] eqn:E; [cbn|done]. by rewrite lookup_insert_ne by (apply H2 in E; lia).
Qed.

Lemma append_ok ino path f bs d : wf d -> names d !! path = Some ino -> inodes d !! ino = Some f ->
  let d' := set_inodes (alter (fun f => mkInode (kind f) (uid f) (mode f) (contents f ++ bs)) ino) d in
  goes (write_all ino bs) d tt d' /\ wf d' /\
  lookup_file d' path = Some (mkInode (kind f) (uid f) (mode f) (contents f ++ bs)) /\
  names d' = names d /\ only (fun p => p = path) d d'.
Proof.
  intros [H1 H2 H3] Hn Hi. split_and!; [done| | |done|].
  - split; cbn; [done|done|]. intros p i Hp. rewrite lookup_alter_is_Some. by eapply H3.
  - unfold lookup_file. cbn. rewrite Hn. cbn. by rewrite lookup_alter_eq, Hi.
  - split; [|done]. intros p Hp. unfold lookup_file. cbn. split; [|done].
    destruct (names d !! p) as [i|] eqn:E; [cbn|done]. rewrite lookup_alter_ne; [done|]. intros <-. by apply Hp, (H1 p path ino).
Qed.

Lemma remove_ok path f d : wf d -> lookup_file d path = Some f -> kind f <> Directory ->
  let d' := set_names (delete path) d in
  goes (remove_file path) d tt d' /\ wf d' /\ lookup_file d' path = None /\ only (fun p => p = path) d d'.
Proof.
  intros [H1 H2 H3] Hf Hk. split_and!.
  - unfold goes, remove_file, mbind, M_bind. rewrite call_fine. cbn -[lookup_file set_names].
    rewrite Hf. cbn. by destruct (kind f).
  - split; cbn; [|intros p ino [_ Hp]%lookup_delete_Some; by eauto..].
    intros p q ino [_ Hp]%lookup_delete_Some [_ Hq]%lookup_delete_Some. by eapply H1.
  - unfold lookup_file. cbn. by rewrite lookup_delete_eq.
  - split; [|done]. intros p Hp. unfold lookup_file. cbn. by rewrite lookup_delete_ne by done.
Qed.

Lemma rename_ok old new f d : wf d -> old <> new -> lookup_file d old = Some f -> kind f <> Directory ->
  (forall g, lookup_file d new = Some g -> kind g <> Directory) ->
  exists d', goes (rename old new) d tt d' /\ wf d' /\ lookup_file d' new = Some f /\ lookup_file d' old = None /\
    only (fun p => p = old \/ p = new) d d'.
Proof.
  intros [H1 H2 H3] Hne Hf Hk Hg. pose proof (proj1 (lookup_file_name _ _ _) Hf) as (ino & Hn & Hi).
  exists (set_names (fun m => <[new := ino]> (delete old m)) d). split_and!.
  - unfold goes, rename, mbind, M_bind. rewrite call_fine. cbn -[lookup_file set_names]. rewrite Hn, Hf. destruct (lookup_file d new) as [g|]; cbn; [|by destruct (kind f)].
    specialize (Hg g eq_refl). by destruct (kind f), (kind g).
  - split; cbn.
    + intros p q i. rewrite !lookup_insert_Some, !lookup_delete_Some.
      intros [[<- <-]|(? & ? & Hp)] [[<- ?]|(? & ? & Hq)]; try done; [|subst|].
      * by destruct (H1 old q ino Hn Hq).
      * by destruct (H1 old p i Hn Hp).
      * by eapply H1.
    + intros p i. rewrite lookup_insert_Some, lookup_delete_Some. naive_solver.
    + intros p i. rewrite lookup_insert_Some, lookup_delete_Some. naive_solver.
  - unfold lookup_file. cbn. by rewrite lookup_insert_eq.
  - unfold lookup_file. cbn. by rewrite lookup_insert_ne, lookup_delete_eq by done.
  - split; [|done]. intros p Hp. unfold lookup_file. cbn. by rewrite lookup_insert_ne, lookup_delete_ne by (intros <-; tauto).
Qed.

Lemma exists_ok path d : goes (exists_path path) d (bool_decide (is_Some (lookup_file d path))) d.
Proof. done. Qed.
End Disk.

(** ** The thread *)

Module LogFiles.
Import Disk.

Definition LOG_MODE : N := 384.  (* 0o600 *)

Record LogFile : Type := mkLog { file : N; bytes_written : N }.

(** [files] of [worker_loop], and the disk. *)
Record State : Type := mkState { files : gmap str LogFile; world : World }.
Definition set_files f (s : State) : State := mkState (f (files s)) (world s).
Definition io {A} (m : IO A) : M State io_error A := zoom world (fun w s => mkState (files s) w) m.

Definition rotated_path (path : str) (number : N) : str := path ++ lit "." ++ Daemon.decimal number.

Definition open_log (path : str) : IO LogFile :=
  ino ← open_append path LOG_MODE;
  meta ← metadata ino;
  w ← get;
  if negb (bool_decide (kind meta = Regular)) || negb (uid meta =? me (disk w)) || negb (N.land (mode meta) 63 =? 0)
  then fail IoFailed
  else mret (mkLog ino (lenN (contents meta))).

(** [(1..max_files).rev()] *)
Definition rotations (max_files : N) : list N := map N.of_nat (rev (seq 1 (N.to_nat max_files - 1))).

Definition shift_log (path : str) (number : N) : IO unit :=
  there ← exists_path (rotated_path path number);
  if there : bool then rename (rotated_path path number) (rotated_path path (number + 1)) else mret tt.

Definition rotate_log (path : str) (max_files : N) : IO LogFile :=
  _ ← attempt (remove_file (rotated_path path max_files));
  _ ← each (shift_log path) (rotations max_files);
  _ ← (if 0 <? max_files then rename path (rotated_path path 1) else remove_file path);
  open_log path.

Definition set_log (path : str) (log : LogFile) : M State io_error unit := modify (set_files (insert path log)).
Definition get_log (path : str) : M State io_error LogFile := s ← get; unwrap (files s !! path).

Definition write_item (item : LogWorker.LogItem) (max_file_size max_files : N) : M State io_error unit :=
  let path := LogWorker.path item in
  let size := lenN (LogWorker.data item) in
  s ← get;
  _ ← (match files s !! path with Some _ => mret tt | None => log ← io (open_log path); set_log path log end);
  log ← get_log path;
  _ ← (if max_file_size <? saturating_add_u64 (bytes_written log) size
       then log ← io (rotate_log path max_files); set_log path log else mret tt);
  log ← get_log path;
  _ ← io (write_all (file log) (LogWorker.data item));
  set_log path (mkLog (file log) (saturating_add_u64 (bytes_written log) size)).

(** One turn of [worker_loop]. *)
Definition worker_turn (max_file_size max_files : N) (q : LogWorker.t) (s : State) : option (LogWorker.t * State) :=
  match LogWorker.items q with
  | [] => Some (q, s)
  | item :: _ =>
      match write_item item max_file_size max_files s with
      | Some (Ok _, s) => Some (LogWorker.work true q, s)
      | Some (Err _, s) => Some (LogWorker.work false q, set_files (delete (LogWorker.path item)) s)
      | None => None
      end
  end.

(** [worker_loop] until the queue is empty: [fuel] is its length. *)
Fixpoint worker_loop (fuel : nat) (max_file_size max_files : N) (q : LogWorker.t) (s : State)
  : option (LogWorker.t * State) :=
  match fuel with
  | O => Some (q, s)
  | S fuel' =>
      '(q, s) ← worker_turn max_file_size max_files q s;
      worker_loop fuel' max_file_size max_files q s
  end.

(** ** The segments of a log *)

(** The current file of a log and its rotated files, newest first. *)
Definition segment_path (path : str) (i : nat) : str := match i with O => path | _ => rotated_path path (N.of_nat i) end.

Lemma rotated_path_long path n : (length path < length (rotated_path path n))%nat.
Proof. unfold rotated_path. rewrite !length_app. cbn. lia. Qed.

Lemma log_name_inj : Inj eq eq Daemon.decimal.
Proof. intros n m E. unfold Daemon.decimal, lit in E. apply (f_equal String.string_of_list_byte) in E.
  rewrite !String.string_of_list_byte_of_string in E. by apply pretty_N_inj. Qed.

Lemma segment_path_inj path i j : segment_path path i = segment_path path j -> i = j.
Proof.
  destruct i as [|i], j as [|j]; cbn [segment_path]; [done| | |].
  - intros E. pose proof (rotated_path_long path (N.of_nat (S j))). rewrite <- E in *. lia.
  - intros E. pose proof (rotated_path_long path (N.of_nat (S i))). rewrite E in *. lia.
  - unfold rotated_path. intros E%app_inv_head%app_inv_head%log_name_inj. lia.
Qed.

(** The log file of the user [me]. *)
Definition log_inode (d : Disk) (data : bytes) : Inode := mkInode Regular (me d) LOG_MODE data.

Definition plain (d : Disk) (path : str) : Prop := forall f, lookup_file d path = Some f -> kind f <> Directory.

Definition of_log (path p : str) : Prop := p = path \/ exists k, p = rotated_path path k.

Lemma of_log_segment path i : of_log path (segment_path path i).
Proof. destruct i as [|i]; [by left|right]. by exists (N.of_nat (S i)). Qed.

Lemma shift_step path i d : wf d -> plain d (segment_path path (S i)) -> lookup_file d (segment_path path (S (S i))) = None ->
  exists d', goes (shift_log path (N.of_nat (S i))) d tt d' /\ wf d' /\
    lookup_file d' (segment_path path (S (S i))) = lookup_file d (segment_path path (S i)) /\
    lookup_file d' (segment_path path (S i)) = None /\
    only (fun p => p = segment_path path (S i) \/ p = segment_path path (S (S i))) d d'.
Proof.
  intros Hwf Hp Hn. assert (Hne : segment_path path (S i) <> segment_path path (S (S i))) by (intros E%segment_path_inj; lia).
  assert (E : rotated_path path (N.of_nat (S i) + 1) = segment_path path (S (S i))).
  { cbn [segment_path]. f_equal. lia. }
  unfold shift_log. rewrite E. change (rotated_path path (N.of_nat (S i))) with (segment_path path (S i)).
  destruct (lookup_file d (segment_path path (S i))) as [f|] eqn:Hf.
  - destruct (rename_ok (segment_path path (S i)) (segment_path path (S (S i))) f d Hwf Hne Hf (Hp f Hf)) as (d' & Hg & Hw & L1 & L2 & Ho).
    { intros g. by rewrite Hn. }
    exists d'. split_and!; [|done..]. eapply goes_bind; [apply exists_ok|]. rewrite Hf. exact Hg.
  - exists d. split_and!; [|done..]. eapply goes_bind; [apply exists_ok|]. by rewrite Hf.
Qed.

Lemma each_cons {A} (f : A -> IO unit) x l d d' d'' : goes (f x) d tt d' -> goes (each f l) d' tt d'' -> goes (each f (x :: l)) d tt d''.
Proof. intros Hf Hl. cbn. eapply goes_bind; [exact Hf|exact Hl]. Qed.

Lemma shift_ok path n : forall d, wf d -> (forall i, (1 <= i <= n)%nat -> plain d (segment_path path i)) ->
  lookup_file d (segment_path path (S n)) = None ->
  exists d', goes (each (shift_log path) (map N.of_nat (rev (seq 1 n)))) d tt d' /\ wf d' /\
    (forall i, (1 <= i <= n)%nat -> lookup_file d' (segment_path path (S i)) = lookup_file d (segment_path path i)) /\
    lookup_file d' (segment_path path 1) = None /\
    only (fun p => exists i, (1 <= i <= S n)%nat /\ p = segment_path path i) d d'.
Proof.
  induction n as [|n IH]; intros d Hwf Hp Hn.
  { exists d. split_and!; try done. lia. }
  rewrite seq_S, rev_app_distr. cbn [rev app map]. change (1 + n)%nat with (S n).
  destruct (shift_step path n d Hwf (Hp (S n) ltac:(lia)) Hn) as (d1 & G1 & W1 & L1 & L2 & O1).
  assert (Hsame : forall i, (1 <= i <= n)%nat -> lookup_file d1 (segment_path path i) = lookup_file d (segment_path path i)).
  { intros i Hi. apply O1. intros [E|E]; apply segment_path_inj in E; lia. }
  destruct (IH d1 W1) as (d2 & G2 & W2 & L3 & L4 & O2); [|done|].
  { intros i Hi f. rewrite (Hsame i Hi). apply Hp. lia. }
  exists d2. split_and!; [|done| |done|].
  - by eapply each_cons.
  - intros i Hi. destruct (decide (i = S n)) as [->|Hne].
    + rewrite <- L1. apply O2. intros (j & Hj & E). apply segment_path_inj in E. lia.
    + rewrite L3 by lia. apply Hsame. lia.
  - eapply only_mono; [|eapply only_trans; [exact O1|exact O2]]. cbn. intros p [[->| ->]|(i & Hi & ->)].
    + exists (S n). split; [lia|done].
    + exists (S (S n)). split; [lia|done].
    + exists i. split; [lia|done].
Qed.

(** [path] has the segments [segs], and its other names are free. *)
Definition holds (d : Disk) (path : str) (max_files : N) (segs : list bytes) : Prop :=
  (length segs <= S (N.to_nat max_files))%nat /\
  forall i, (i <= N.to_nat max_files)%nat -> lookup_file d (segment_path path i) = log_inode d <$> segs !! i.

Definition mask_ok (d : Disk) : Prop := N.ldiff LOG_MODE (umask d) = LOG_MODE.

Lemma only_mask ps d d' : only ps d d' -> mask_ok d -> mask_ok d'.
Proof. intros (_ & _ & E). unfold mask_ok. by rewrite E. Qed.
Lemma only_inode ps d d' data : only ps d d' -> log_inode d' data = log_inode d data.
Proof. intros (_ & E & _). unfold log_inode. by rewrite E. Qed.

Lemma holds_plain d path max_files segs i : holds d path max_files segs -> (i <= N.to_nat max_files)%nat ->
  plain d (segment_path path i).
Proof. intros [_ H] Hi f. rewrite (H i Hi). destruct (segs !! i); [|done]. by intros [= <-]. Qed.

Lemma open_log_new path d : wf d -> mask_ok d -> lookup_file d path = None ->
  goes (open_log path) d (mkLog (next d) 0) (create path LOG_MODE d).
Proof.
  intros Hwf Hm Hl. apply lookup_file_none in Hl; [|done]. unfold open_log.
  eapply goes_bind. { unfold open_append, goes, mbind, M_bind. rewrite call_fine. cbn -[create]. by rewrite Hl. }
  assert (Hi : inodes (create path LOG_MODE d) !! next d = Some (log_inode d [])).
  { unfold create, log_inode, mask_ok in *. cbn [inodes]. by rewrite lookup_insert_eq, Hm. }
  eapply goes_bind. { unfold metadata, goes, mbind, M_bind. rewrite call_fine. cbn -[create]. unfold unwrap. by rewrite Hi. }
  unfold goes, mbind, M_bind. cbn -[create]. rewrite bool_decide_true by done. cbn. by rewrite N.eqb_refl.
Qed.

Lemma open_log_old path d data : wf d -> lookup_file d path = Some (log_inode d data) ->
  exists ino, names d !! path = Some ino /\ goes (open_log path) d (mkLog ino (lenN data)) d.
Proof.
  intros Hwf (ino & Hn & Hi)%lookup_file_name. exists ino. split; [done|]. unfold open_log.
  eapply goes_bind. { unfold open_append, goes, mbind, M_bind. rewrite call_fine. cbn. by rewrite Hn, Hi. }
  eapply goes_bind. { unfold metadata, goes, mbind, M_bind. rewrite call_fine. cbn. unfold unwrap. by rewrite Hi. }
  unfold goes, mbind, M_bind. cbn. rewrite bool_decide_true by done. by rewrite N.eqb_refl.
Qed.

Lemma try_remove path d : wf d ->
  exists r d', goes (attempt (remove_file path)) d r d' /\ wf d' /\ (plain d path -> lookup_file d' path = None) /\
    only (fun p => p = path) d d'.
Proof.
  intros Hwf. destruct (lookup_file d path) as [f|] eqn:Hf.
  - destruct (decide (kind f = Directory)) as [Hk|Hk].
    + exists (Err IoFailed), d. split_and!; [|done|by intros Hp; destruct (Hp f Hf)|done].
      unfold goes, attempt, remove_file, mbind, M_bind. rewrite call_fine. cbn -[lookup_file]. rewrite Hf. cbn. by rewrite Hk.
    + destruct (remove_ok path f d Hwf Hf Hk) as (Hg & Hw & Hl & Ho). eexists _, _. split; [|by split_and!].
      unfold goes, attempt in *. by rewrite Hg.
  - exists (Err IoFailed), d. split; [|done]. unfold goes, attempt, remove_file, mbind, M_bind. rewrite call_fine.
    cbn -[lookup_file]. by rewrite Hf.
Qed.

(** The files make room, the oldest having been removed. *)
Lemma rotate_moves path max_files cur rest d d1 : wf d1 -> holds d path max_files (cur :: rest) ->
  only (fun p => p = rotated_path path max_files) d d1 ->
  (plain d (rotated_path path max_files) -> lookup_file d1 (rotated_path path max_files) = None) ->
  exists d3, goes (_ ← each (shift_log path) (rotations max_files);
      if 0 <? max_files then rename path (rotated_path path 1) else remove_file path) d1 tt d3 /\ wf d3 /\
    lookup_file d3 path = None /\
    (forall i, (i < N.to_nat max_files)%nat ->
      lookup_file d3 (segment_path path (S i)) = lookup_file d (segment_path path i)) /\ only (of_log path) d1 d3.
Proof.
  intros W1 Hh O1 L1. pose proof Hh as [Hlen Hseg].
  assert (Hcur : lookup_file d path = Some (log_inode d cur)) by exact (Hseg 0%nat ltac:(lia)).
  assert (Hcur1 : lookup_file d1 path = Some (log_inode d cur)).
  { rewrite <- Hcur. apply O1. intros E. pose proof (rotated_path_long path max_files). rewrite <- E in *. lia. }
  destruct (N.to_nat max_files) as [|m] eqn:Em.
  - assert (max_files = 0) as -> by lia. destruct (remove_ok path _ d1 W1 Hcur1 ltac:(done)) as (G & W & L & O).
    eexists. split_and!; [|exact W|exact L|lia|eapply only_mono; [|exact O]; by intros ? ->; left].
    eapply goes_bind; [|exact G]. done.
  - assert (Hsame : forall i, (i <= m)%nat -> lookup_file d1 (segment_path path i) = lookup_file d (segment_path path i)).
    { intros i Hi. apply O1. replace (rotated_path path max_files) with (segment_path path (S m)) by (cbn; f_equal; lia).
      intros E%segment_path_inj. lia. }
    assert (Hmax : rotated_path path max_files = segment_path path (S m)) by (cbn; f_equal; lia).
    destruct (shift_ok path m d1 W1) as (d2 & G2 & W2 & L2 & N2 & O2).
    { intros i Hi f. rewrite Hsame by lia. apply (holds_plain d path max_files (cur :: rest)); [done|lia]. }
    { rewrite <- Hmax. apply L1. rewrite Hmax. apply (holds_plain d path max_files (cur :: rest)); [done|lia]. }
    assert (Hcur2 : lookup_file d2 path = Some (log_inode d cur)).
    { rewrite <- Hcur1. apply O2. intros (i & Hi & E). apply (segment_path_inj path 0) in E. lia. }
    destruct (rename_ok path (segment_path path 1) (log_inode d cur) d2 W2) as (d3 & G3 & W3 & L3 & L4 & O3); [|exact Hcur2|done| |].
    { intros E. by apply (segment_path_inj path 0 1) in E. }
    { intros g. by rewrite N2. }
    exists d3. split_and!; [|done|done| |].
    + eapply goes_bind; [unfold rotations; rewrite Em; cbn [Nat.sub]; rewrite Nat.sub_0_r; exact G2|].
      destruct (N.ltb_spec 0 max_files); [|lia]. exact G3.
    + intros [|i] Hi; [by rewrite L3|]. transitivity (lookup_file d2 (segment_path path (S (S i)))).
      * apply O3. intros [E|E]; [apply (segment_path_inj path _ 0) in E|apply segment_path_inj in E]; lia.
      * rewrite L2 by lia. apply Hsame. lia.
    + eapply only_mono; [|eapply only_trans; [exact O2|exact O3]]. cbn.
      intros p [(i & _ & ->)|[->| ->]]; [apply of_log_segment|by left|apply (of_log_segment path 1)].
Qed.

(** What a rotation leaves: an empty file, and the old segments but for the
    oldest. *)
Lemma rotate_ok path max_files cur rest d : wf d -> mask_ok d -> holds d path max_files (cur :: rest) ->
  exists d' log, goes (rotate_log path max_files) d log d' /\ wf d' /\
    holds d' path max_files ([] :: take (N.to_nat max_files) (cur :: rest)) /\
    names d' !! path = Some (file log) /\ bytes_written log = 0 /\ only (of_log path) d d'.
Proof.
  intros Hwf Hm Hh. pose proof Hh as [Hlen Hseg].
  destruct (try_remove (rotated_path path max_files) d Hwf) as (r & d1 & G1 & W1 & L1 & O1).
  destruct (rotate_moves path max_files cur rest d d1 W1 Hh O1 L1) as (d3 & G3 & W3 & L3 & S3 & O3).
  assert (O13 : only (of_log path) d d3).
  { eapply only_mono; [|eapply only_trans; [exact O1|exact O3]]. cbn. intros p [->|Hp]; [|done]. right. by exists max_files. }
  assert (Hm3 : mask_ok d3) by by eapply only_mask. apply lookup_file_none in L3 as N3; [|done].
  destruct (create_ok path LOG_MODE d3 W3 N3) as (W4 & L4 & O4). rewrite Hm3 in L4.
  exists (create path LOG_MODE d3), (mkLog (next d3) 0). split_and!; [|done| | |done|].
  - unfold rotate_log. eapply goes_bind; [exact G1|]. pose proof (open_log_new path d3 W3 Hm3 L3) as G4.
    revert G3. unfold goes, mbind, M_bind. destruct (each _ _ _) as [[[u|e] w]|]; [|done..]. intros ->. exact G4.
  - split; [cbn; rewrite length_take; lia|]. intros [|i] Hi; [exact L4|].
    assert (E : ([] :: take (N.to_nat max_files) (cur :: rest)) !! S i = (cur :: rest) !! i) by (apply lookup_take_lt; lia).
    rewrite E. clear E.
    transitivity (lookup_file d3 (segment_path path (S i))); [apply O4; intros E; apply (segment_path_inj path _ 0) in E; lia|].
    rewrite S3, Hseg by lia. destruct ((cur :: rest) !! i) as [data|]; [|done]. cbn. f_equal.
    unfold log_inode. destruct O13 as (_ & E & _). cbn. by rewrite E.
  - unfold create. cbn. by rewrite lookup_insert_eq.
  - eapply only_mono; [|eapply only_trans; [exact O13|exact O4]]. cbn. intros p [Hp| ->]; [done|by left].
Qed.

(** ** Writing an item *)

(** What one write does to the segments. *)
Definition opened (segs : list bytes) : list bytes := match segs with [] => [[]] | _ => segs end.
Definition full (max_file_size : N) (segs : list bytes) (data : bytes) : bool :=
  match segs with cur :: _ => max_file_size <? saturating_add_u64 (lenN cur) (lenN data) | [] => false end.
Definition extend (data : bytes) (segs : list bytes) : list bytes :=
  match segs with cur :: rest => (cur ++ data) :: rest | [] => [data] end.
Definition add (max_file_size max_files : N) (segs : list bytes) (data : bytes) : list bytes :=
  let segs := opened segs in
  extend data (if full max_file_size segs data then [] :: take (N.to_nat max_files) segs else segs).

(** The handle [log] is of the current file of the log. *)
Record at_log (d : Disk) (path : str) (max_files : N) (segs : list bytes) (log : LogFile) : Prop := {
  at_wf : wf d; at_mask : mask_ok d; at_holds : holds d path max_files segs;
  at_name : names d !! path = Some (file log);
  at_size : exists cur rest, segs = cur :: rest /\ N.min (bytes_written log) u64_max = N.min (lenN cur) u64_max }.

Lemma open_at path max_files segs d : wf d -> mask_ok d -> holds d path max_files segs ->
  exists d' log, goes (open_log path) d log d' /\ at_log d' path max_files (opened segs) log /\ only (of_log path) d d'.
Proof.
  intros Hwf Hm Hh. pose proof Hh as [Hlen Hseg]. pose proof (Hseg 0%nat ltac:(lia)) as H0. cbn [segment_path] in H0.
  destruct segs as [|cur rest]; cbn in H0.
  - apply lookup_file_none in H0 as Hn; [|done]. destruct (create_ok path LOG_MODE d Hwf Hn) as (W & L & O). rewrite Hm in L.
    eexists _, _. split_and!; [by apply open_log_new| |eapply only_mono; [|exact O]; by intros ? ->; left].
    split; [done|by eapply only_mask| |by cbn; rewrite lookup_insert_eq|by exists [], []].
    split; [cbn; lia|]. intros [|i] Hi; [exact L|]. 
    transitivity (lookup_file d (segment_path path (S i))); [apply O; intros E; apply (segment_path_inj path _ 0) in E; lia|].
    by rewrite Hseg.
  - destruct (open_log_old path d cur Hwf H0) as (ino & Hn & G). exists d, (mkLog ino (lenN cur)).
    split_and!; [done| |done]. split; try done. by exists cur, rest.
Qed.

Lemma rotate_at path max_files segs log d : at_log d path max_files segs log ->
  exists d' log', goes (rotate_log path max_files) d log' d' /\
    at_log d' path max_files ([] :: take (N.to_nat max_files) segs) log' /\ only (of_log path) d d'.
Proof.
  intros [Hwf Hm Hh _ (cur & rest & -> & _)].
  destruct (rotate_ok path max_files cur rest d Hwf Hm Hh) as (d' & log' & G & W & Hh' & Hn & Hz & O).
  exists d', log'. split_and!; [done| |done]. split; [done|by eapply only_mask|done|done|].
  eexists [], _. split; [done|]. by rewrite Hz.
Qed.

Lemma extend_at path max_files segs log data d : at_log d path max_files segs log ->
  exists d', goes (write_all (file log) data) d tt d' /\
    at_log d' path max_files (extend data segs) (mkLog (file log) (saturating_add_u64 (bytes_written log) (lenN data))) /\
    only (of_log path) d d'.
Proof.
  intros [Hwf Hm Hh Hn (cur & rest & -> & Hs)]. pose proof Hh as [Hlen Hseg]. pose proof (Hseg 0%nat ltac:(lia)) as H0.
  apply lookup_file_name in H0 as (ino & Hn' & Hi). assert (ino = file log) as -> by (cbn in Hn'; congruence).
  destruct (append_ok (file log) path _ data d Hwf Hn Hi) as (G & W & L & En & O). cbn [kind uid mode contents log_inode] in *.
  eexists. split_and!; [exact G| |eapply only_mono; [|exact O]; by intros ? ->; left].
  split; [done|by eapply only_mask| |done|].
  - split; [done|]. intros [|i] Hi'; [exact L|].
    transitivity (lookup_file d (segment_path path (S i))); [apply O; intros E; apply (segment_path_inj path _ 0) in E; lia|].
    by apply Hseg.
  - exists (cur ++ data), rest. split; [done|]. cbn. unfold saturating_add_u64. rewrite lenN_app. lia.
Qed.

Lemma full_at path max_files segs log data max_file_size d : max_file_size <= u64_max -> at_log d path max_files segs log ->
  (max_file_size <? saturating_add_u64 (bytes_written log) (lenN data)) = full max_file_size segs data.
Proof.
  intros Hmax [_ _ _ _ (cur & rest & -> & Hs)]. cbn. unfold saturating_add_u64. f_equal. lia.
Qed.

(** ** The thread over the logs of all sessions *)

Section logs.
Context (path_of : N -> str) (max_file_size max_files : N).
Context (path_of_inj : forall id id' p, of_log (path_of id) p -> of_log (path_of id') p -> id = id').
Context (max_size_u64 : max_file_size <= u64_max).
(** The directory of the logs. *)
Context (dir : str) (dir_node : option Inode) (user : N) (dir_apart : forall id, ~ of_log (path_of id) dir).
Implicit Types (segs : N -> list bytes).

(** The disk of [s] holds the logs [segs], and the open handles are of their
    current files. *)
Record logs_at (s : State) segs : Prop := {
  logs_fine : answers (world s) = []; logs_dir : lookup_file (disk (world s)) dir = dir_node; logs_user : me (disk (world s)) = user;
  logs_wf : wf (disk (world s)); logs_mask : mask_ok (disk (world s));
  logs_holds : forall id, holds (disk (world s)) (path_of id) max_files (segs id);
  logs_open : forall id log, files s !! path_of id = Some log -> at_log (disk (world s)) (path_of id) max_files (segs id) log }.

Lemma path_of_eq id id' : path_of id = path_of id' -> id = id'.
Proof. intros E. apply (path_of_inj id id' (path_of id)); [by left|left; by rewrite E]. Qed.

Lemma other_path id id' i : id <> id' -> ~ of_log (path_of id) (segment_path (path_of id') i).
Proof. intros Hne Hp. apply Hne. eapply path_of_inj; [exact Hp|apply of_log_segment]. Qed.

Lemma other_holds id id' d d' l : id <> id' -> only (of_log (path_of id)) d d' ->
  holds d (path_of id') max_files l -> holds d' (path_of id') max_files l.
Proof.
  intros Hne [O [E _]] [Hl Hs]. split; [done|]. intros i Hi. destruct (O (segment_path (path_of id') i)) as [-> _]; [by apply other_path|].
  rewrite Hs by done. unfold log_inode. by rewrite E.
Qed.

(** A call about the log [id] that leaves it open. *)
Lemma logs_step s segs id d' log l : logs_at s segs -> at_log d' (path_of id) max_files l log ->
  only (of_log (path_of id)) (disk (world s)) d' ->
  logs_at (mkState (<[path_of id := log]> (files s)) (mkWorld d' [])) (<[id := l]> segs).
Proof.
  intros [F D U W M Hh Ho] A O. split; cbn; [done| | |apply A|apply A| |].
  - rewrite <- D. apply O, dir_apart.
  - rewrite <- U. apply O.
  - intros id'. destruct (decide (id = id')) as [<-|Hne]; [rewrite fn_lookup_insert; apply A|].
    rewrite fn_lookup_insert_ne by done. by eapply other_holds.
  - intros id' log'. rewrite lookup_insert_Some. intros [[E <-]|[Hne Hf]].
    + apply path_of_eq in E as <-. by rewrite fn_lookup_insert.
    + assert (Hid : id <> id') by (by intros <-). rewrite fn_lookup_insert_ne by done.
      destruct (Ho id' log' Hf) as [_ _ H3 H4 H5]. split; [apply A|apply A|by eapply other_holds| |done].
      rewrite <- H4. destruct O as [O _]. apply (O (path_of id')). apply (other_path id id' 0). done.
Qed.

Lemma logs_ext s segs segs' : (forall id, segs id = segs' id) -> logs_at s segs -> logs_at s segs'.
Proof.
  intros E [F D U W M Hh Ho]. split; try done; intros id; [rewrite <- E; apply Hh|].
  intros log Hl. rewrite <- E. by apply Ho.
Qed.

(** The logs are [segs], but for [l] of the session [id]. *)
Definition logs_with (s : State) segs id (l : list bytes) : Prop := logs_at s (<[id := l]> segs).

Lemma logs_with_step s segs id l d' log l' : logs_with s segs id l -> at_log d' (path_of id) max_files l' log ->
  only (of_log (path_of id)) (disk (world s)) d' ->
  logs_with (mkState (<[path_of id := log]> (files s)) (mkWorld d' [])) segs id l'.
Proof.
  intros L A O. eapply logs_ext; [|by eapply logs_step]. intros i. destruct (decide (id = i)) as [<-|Hne].
  - by rewrite !fn_lookup_insert.
  - by rewrite !fn_lookup_insert_ne.
Qed.

Lemma logs_with_open s segs id l log : logs_with s segs id l -> files s !! path_of id = Some log ->
  at_log (disk (world s)) (path_of id) max_files l log.
Proof. intros L Hf. pose proof (logs_open _ _ L id log Hf) as A. by rewrite fn_lookup_insert in A. Qed.

Lemma logs_with_holds s segs id l : logs_with s segs id l -> holds (disk (world s)) (path_of id) max_files l.
Proof. intros L. pose proof (logs_holds _ _ L id) as A. by rewrite fn_lookup_insert in A. Qed.

(** A call of the disk, whose outcome is the handle [log]. *)
Lemma io_goes {A} (m : IO A) s d a d' : world s = mkWorld d [] -> goes m d a d' ->
  io m s = Some (Ok a, mkState (files s) (mkWorld d' [])).
Proof. intros E G. unfold io, zoom. rewrite E. unfold goes in G. by rewrite G. Qed.

Lemma logs_world s segs : logs_at s segs -> world s = mkWorld (disk (world s)) [].
Proof. intros L. pose proof (logs_fine _ _ L). destruct (world s). cbn in *. congruence. Qed.

(** One call that replaces the handle of a log. *)
Lemma io_set_log s segs id l m d' log l' : logs_with s segs id l -> goes m (disk (world s)) log d' ->
  at_log d' (path_of id) max_files l' log -> only (of_log (path_of id)) (disk (world s)) d' ->
  exists s', (log ← io m; set_log (path_of id) log) s = Some (Ok tt, s') /\ logs_with s' segs id l' /\
    files s' !! path_of id = Some log.
Proof.
  intros L G A O. exists (mkState (<[path_of id := log]> (files s)) (mkWorld d' [])). split_and!.
  - unfold mbind, M_bind. rewrite (io_goes m s _ _ _ (logs_world _ _ L) G). done.
  - by eapply logs_with_step.
  - cbn. by rewrite lookup_insert_eq.
Qed.

Lemma write_item_logs s segs id data : logs_at s segs ->
  exists s', write_item (LogWorker.mkItem id (path_of id) data) max_file_size max_files s = Some (Ok tt, s') /\
    logs_at s' (<[id := add max_file_size max_files (segs id) data]> segs).
Proof.
  intros L0. assert (L : logs_with s segs id (segs id)).
  { eapply logs_ext; [|exact L0]. intros i. destruct (decide (id = i)) as [<-|?]; by rewrite ?fn_lookup_insert, ?fn_lookup_insert_ne. }
  unfold write_item. cbn [LogWorker.path LogWorker.data]. cbv zeta.
  assert (H1 : exists s1 log, (match files s !! path_of id with Some _ => mret tt | None => log ← io (open_log (path_of id)); set_log (path_of id) log end) s = Some (Ok tt, s1) /\
    logs_with s1 segs id (opened (segs id)) /\ files s1 !! path_of id = Some log).
  { destruct (files s !! path_of id) as [log|] eqn:Hf.
    - exists s, log. split_and!; [done| |done]. destruct (logs_with_open _ _ _ _ _ L Hf) as [_ _ _ _ (cur & rest & E & _)].
      by rewrite E in *.
    - destruct (open_at (path_of id) max_files (segs id) (disk (world s))) as (d' & log & G & A & O);
        [apply L|apply L|by eapply logs_with_holds|].
      destruct (io_set_log _ _ _ _ _ _ _ _ L G A O) as (s1 & E & L1 & Hl). by exists s1, log. }
  destruct H1 as (s1 & log1 & E1 & L1 & Hf1).
  set (l1 := opened (segs id)) in *. pose proof (logs_with_open _ _ _ _ _ L1 Hf1) as A1.
  set (b := max_file_size <? saturating_add_u64 (bytes_written log1) (lenN data)).
  assert (Hb : b = full max_file_size l1 data) by by eapply full_at.
  set (l2 := if full max_file_size l1 data then [] :: take (N.to_nat max_files) l1 else l1).
  assert (H2 : exists s2 log, (if b then log ← io (rotate_log (path_of id) max_files); set_log (path_of id) log else mret tt) s1 = Some (Ok tt, s2) /\
    logs_with s2 segs id l2 /\ files s2 !! path_of id = Some log).
  { unfold l2. rewrite Hb. destruct (full _ _ _).
    - destruct (rotate_at _ _ _ _ _ A1) as (d' & log & G & A & O).
      destruct (io_set_log _ _ _ _ _ _ _ _ L1 G A O) as (s2 & E & L2 & Hl). by exists s2, log.
    - by exists s1, log1. }
  destruct H2 as (s2 & log2 & E2 & L2 & Hf2). pose proof (logs_with_open _ _ _ _ _ L2 Hf2) as A2.
  destruct (extend_at _ _ _ _ data _ A2) as (d3 & G3 & A3 & O3).
  exists (mkState (<[path_of id := mkLog (file log2) (saturating_add_u64 (bytes_written log2) (lenN data))]> (files s2)) (mkWorld d3 [])).
  split; [|exact (logs_with_step _ _ _ _ _ _ _ L2 A3 O3)].
  unfold mbind, M_bind in *. cbn [get]. rewrite E1. unfold get_log, mbind, M_bind. cbn [get]. unfold unwrap. rewrite Hf1.
  fold b. rewrite E2. cbn [get]. rewrite Hf2. by rewrite (io_goes _ s2 _ _ _ (logs_world _ _ L2) G3).
Qed.

(** The items of a queue, one after the other. *)
Definition add_item segs (item : LogWorker.LogItem) : N -> list bytes :=
  <[LogWorker.item_session_id item := add max_file_size max_files (segs (LogWorker.item_session_id item)) (LogWorker.data item)]> segs.
Definition own_path (item : LogWorker.LogItem) : Prop := LogWorker.path item = path_of (LogWorker.item_session_id item).

Lemma worker_turn_logs q s segs item rest : logs_at s segs -> LogWorker.items q = item :: rest -> own_path item ->
  exists s', worker_turn max_file_size max_files q s = Some (LogWorker.work true q, s') /\ logs_at s' (add_item segs item).
Proof.
  intros L E Hp. destruct item as [id path data]. unfold own_path in Hp. cbn in Hp. subst path.
  destruct (write_item_logs s segs id data L) as (s' & Hw & L'). exists s'. split; [|done].
  unfold worker_turn. by rewrite E, Hw.
Qed.

Lemma worker_loop_logs items : forall q s segs, logs_at s segs -> LogWorker.items q = items -> Forall own_path items ->
  exists q' s', worker_loop (length items) max_file_size max_files q s = Some (q', s') /\ LogWorker.items q' = [] /\
    LogWorker.failures q' = LogWorker.failures q /\ logs_at s' (foldl add_item segs items).
Proof.
  induction items as [|item items IH]; intros q s segs L E Hall; cbn [length worker_loop foldl]; [by exists q, s|].
  inversion Hall as [|? ? Hp Hall']; subst. destruct (worker_turn_logs q s segs item items L E Hp) as (s1 & Ht & L1).
  rewrite Ht. cbn [mbind option_bind].
  destruct (IH (LogWorker.work true q) s1 _ L1) as (q' & s' & Hl & Hi & Hf & L'); [by unfold LogWorker.work; rewrite E|done|].
  exists q', s'. split_and!; [done|done| |done]. rewrite Hf. unfold LogWorker.work. by rewrite E.
Qed.

(** What was written to the log of [id], and what is left of it. *)
Definition data_of (id : N) (items : list LogWorker.LogItem) : bytes :=
  concat (map LogWorker.data (filter (fun item => LogWorker.item_session_id item = id) items)).
Definition log_history (l : list bytes) : bytes := concat (rev l).

(** Nothing is dropped but the oldest bytes, and not before [max_file_size]
    bytes are kept. *)
Definition kept (all : bytes) (l : list bytes) : Prop :=
  exists dropped, all = dropped ++ log_history l /\ (dropped = [] \/ (0 < max_files -> max_file_size < lenN (log_history l))).

Lemma history_split n l : log_history l = log_history (drop n l) ++ log_history (take n l).
Proof. unfold log_history. by rewrite <- concat_app, <- rev_app_distr, take_drop. Qed.

Lemma kept_add all l data : kept all l -> kept (all ++ data) (add max_file_size max_files l data).
Proof.
  intros (dropped & -> & Hd). unfold add.
  assert (Ho : log_history (opened l) = log_history l) by by destruct l.
  assert (Hx : forall l, log_history (extend data l) = log_history l ++ data).
  { intros [|cur rest]; unfold log_history; cbn; [by rewrite app_nil_r|]. rewrite !concat_app. cbn. by rewrite !app_nil_r, app_assoc. }
  destruct (opened l) as [|cur rest] eqn:El; [by destruct l|]. unfold kept. rewrite Hx. destruct (full max_file_size (cur :: rest) data) eqn:Hf.
  - unfold full in Hf. apply N.ltb_lt in Hf. unfold saturating_add_u64 in Hf.
    assert (Hn : log_history ([] :: take (N.to_nat max_files) (cur :: rest)) = log_history (take (N.to_nat max_files) (cur :: rest))).
    { unfold log_history. cbn [rev]. rewrite concat_app. cbn. by rewrite !app_nil_r. }
    rewrite Hn. exists (dropped ++ log_history (drop (N.to_nat max_files) (cur :: rest))). split.
    + rewrite <- Ho, (history_split (N.to_nat max_files)), !app_assoc. done.
    + right. intros Hm. rewrite lenN_app. destruct (N.to_nat max_files) as [|m] eqn:Em; [lia|]. cbn [take].
      unfold log_history. cbn [rev]. rewrite concat_app, lenN_app. cbn. rewrite app_nil_r. lia.
  - rewrite Ho. exists dropped. split; [by rewrite app_assoc|]. destruct Hd as [->|Hd]; [by left|right].
    intros Hm. specialize (Hd Hm). rewrite lenN_app. lia.
Qed.

Lemma kept_items items id : forall segs all, kept all (segs id) ->
  kept (all ++ data_of id items) (foldl add_item segs items id).
Proof.
  induction items as [|item items IH]; intros segs all Hk; [by rewrite app_nil_r|]. cbn [foldl]. unfold data_of.
  rewrite filter_cons. destruct (decide (LogWorker.item_session_id item = id)) as [<-|Hne].
  - cbn [map concat]. rewrite app_assoc. apply IH. unfold add_item. rewrite fn_lookup_insert. by apply kept_add.
  - apply IH. unfold add_item. by rewrite fn_lookup_insert_ne.
Qed.
End logs.

(** ** The paths of the sessions *)

Definition session_log (id : N) : str := Daemon.decimal id ++ lit ".log".
Definition session_path (logs_dir : str) (id : N) : str := Daemon.join logs_dir (session_log id).

Definition dot : Byte.byte := Byte.x2e.

Lemma split_at_dot (a b a' b' : str) : dot ∉ a -> dot ∉ a' -> a ++ dot :: b = a' ++ dot :: b' -> a = a' /\ b = b'.
Proof.
  revert a'. induction a as [|x a IH]; intros [|y a'] Ha Ha' E; cbn in E.
  - by injection E.
  - injection E as <- _. set_solver.
  - injection E as -> _. set_solver.
  - injection E as <- E. destruct (IH a') as [-> ->]; [set_solver..|done|done].
Qed.

Lemma join_app dir : exists pre, (length dir <= length pre)%nat /\ forall name, Daemon.join dir name = pre ++ name.
Proof.
  unfold Daemon.join. case_match eqn:E; [case_bool_decide|exists []; by apply last_None in E as ->].
  - by exists dir.
  - eexists (dir ++ [_]). rewrite length_app. split; [lia|]. intros. by rewrite <- app_assoc.
Qed.

Lemma session_path_inj dir id id' p : of_log (session_path dir id) p -> of_log (session_path dir id') p -> id = id'.
Proof.
  destruct (join_app dir) as (pre & _ & Hpre).
  assert (Hend : forall i, of_log (session_path dir i) p -> exists rest, p = pre ++ Daemon.decimal i ++ dot :: rest).
  { intros i. unfold session_path. rewrite Hpre. unfold session_log. intros [->|(k & ->)].
    - exists (lit "log"). done.
    - exists (lit "log" ++ lit "." ++ Daemon.decimal k).
      unfold rotated_path. by rewrite <- !app_assoc. }
  intros (r & ->)%Hend (r' & E)%Hend. apply app_inv_head in E.
  apply split_at_dot in E as [E _]; [by apply log_name_inj|by apply Text.decimal_free..].
Qed.

Lemma session_path_apart dir id : ~ of_log (session_path dir id) dir.
Proof.
  destruct (join_app dir) as (pre & Hlen & Hpre). unfold session_path. rewrite Hpre. unfold session_log.
  intros [E|(k & E)]; apply (f_equal length) in E; unfold rotated_path in E; rewrite !length_app in E; cbn in E; lia.
Qed.
End LogFiles.
