(* ===== verification/AttachHistory.v ===== *)
(** * AttachHistory: the saved output of a closed session.

    Models [crates/persistd/src/attach_history.rs], which reads the end of the
    files that LogFiles.v writes, newest first, and of
    [SessionManager::closed_attach_history] what bounds it. *)
From S2P Require Import Prelude Bytes Effects HolderRuntime Daemon Text LogFiles.
From stdpp Require Import pretty functions.
From Stdlib Require Import Lia.
Import String.StringSyntax.
Local Open Scope N_scope.

Module AttachHistory.
Import Disk.
Import LogFiles(session_log, session_path, segment_path, rotated_path, holds, log_inode, log_history, kept, logs_at).

Definition LOG_MODE : N := 384.  (* 0o600 *)
Definition LOG_DIR_MODE : N := 448.  (* 0o700 *)
Definition MAX_ROTATED_FILES : N := 1024.

Abbreviation Reader := (M World persist_error).

(** [.map_err(|source| io_error(operation, source))] *)
Definition io_error {A} (operation : String.string) (m : IO A) : Reader A := fun w =>
  match m w with
  | Some (Ok a, w) => Some (Ok a, w)
  | Some (Err _, w) => Some (Err (IoError operation), w)
  | None => None
  end.
Arguments io_error {A} operation%_string m.

(** [open] without [O_CREAT]: [None] when there is no such name.  [opens] are
    the kinds that the flags allow; [name] is what is passed. *)
Definition open_file (nul operation : String.string) (opens : Kind -> bool) (name path : str) : Reader (option N) :=
  if has_nul name then fail (InvalidArgument nul)
  else
    _ ← io_error operation call; w ← get;
    match names (disk w) !! path with
    | None => mret None
    | Some ino =>
        match kind <$> inodes (disk w) !! ino with
        | Some k => if opens k then mret (Some ino) else fail (IoError operation)
        | None => mret None
        end
    end.
Arguments open_file (nul operation)%_string opens name path.

Definition open_log_directory (path : str) : Reader (option N) :=
  open_file "session log directory contains NUL" "open session log directory" (fun k => bool_decide (k = Directory)) path path.

(** [name] of [directory]. *)
Definition open_log_at (directory : str) (name : str) : Reader (option N) :=
  open_file "session log name contains NUL" "open session replay log" (fun k => negb (bool_decide (k = Symlink)))
    name (Daemon.join directory name).

Definition validate_directory (directory expected_uid : N) : Reader unit :=
  meta ← io_error "inspect session log directory" (metadata directory);
  if negb (bool_decide (kind meta = Directory)) || negb (uid meta =? expected_uid) ||
     negb (N.land (mode meta) 511 =? LOG_DIR_MODE)
  then fail (InvalidArgument "unsafe session log directory") else mret tt.

Definition validate_log (file expected_uid : N) : Reader unit :=
  meta ← io_error "inspect session replay log" (metadata file);
  if negb (bool_decide (kind meta = Regular)) || negb (uid meta =? expected_uid) ||
     negb (N.land (mode meta) 511 =? LOG_MODE)
  then fail (InvalidArgument "unsafe session replay log") else mret tt.

(** The last [n] bytes. *)
Definition last_bytes (n : N) (l : bytes) : bytes := dropN (lenN l - n) l.

(** [read_exact] after [seek(End(-count))], which the file is long enough for. *)
Definition read_end (file count : N) : IO bytes :=
  meta ← metadata file; mret (last_bytes count (contents meta)).

Definition read_tail (file max_bytes : N) : Reader bytes :=
  meta ← io_error "inspect session replay log length" (metadata file);
  let count := N.min (lenN (contents meta)) max_bytes in
  if count =? 0 then mret []
  else if 9223372036854775807 <? count then fail (InvalidArgument "session replay length exceeds i64")
  else
    _ ← io_error "seek session replay log" call;
    io_error "read session replay log" (read_end file count).

Definition log_name (session_id rotation : N) : str :=
  if rotation =? 0 then session_log session_id else session_log session_id ++ lit "." ++ Daemon.decimal rotation.

(** The loop over the rotations, which gathers the segments newest first. *)
Fixpoint read_segments (directory : str) (session_id expected_uid : N) (l : list N) (remaining : N) (segments : list bytes)
  : Reader (list bytes) :=
  match l with
  | [] => mret segments
  | rotation :: l' =>
      file ← open_log_at directory (log_name session_id rotation);
      match file with
      | None => read_segments directory session_id expected_uid l' remaining segments
      | Some file =>
          _ ← validate_log file expected_uid;
          bs ← read_tail file remaining;
          let remaining := remaining - lenN bs in
          let segments := segments ++ [bs] in
          if remaining =? 0 then mret segments
          else read_segments directory session_id expected_uid l' remaining segments
      end
  end.

(** [0..=max_files] *)
Definition all_rotations (max_files : N) : list N := map N.of_nat (seq 0 (S (N.to_nat max_files))).

Definition read_rotated_tail_for_uid (logs_dir : str) (session_id max_files max_bytes expected_uid : N) : Reader bytes :=
  if max_bytes =? 0 then mret []
  else if MAX_ROTATED_FILES <? max_files then fail (InvalidArgument "session log rotation count exceeds replay limit")
  else
    directory ← open_log_directory logs_dir;
    match directory with
    | None => mret []
    | Some directory =>
        _ ← validate_directory directory expected_uid;
        segments ← read_segments logs_dir session_id expected_uid (all_rotations max_files) max_bytes [];
        mret (concat (rev segments))
    end.

Definition read_rotated_tail (logs_dir : str) (session_id max_files max_bytes : N) : Reader bytes :=
  w ← get; read_rotated_tail_for_uid logs_dir session_id max_files max_bytes (me (disk w)).


(** ** What is read *)

(** A call without a fault, which changes nothing. *)
Definition reads {A} (m : Reader A) (d : Disk) (a : A) : Prop := m (mkWorld d []) = Some (Ok a, mkWorld d []).

Lemma reads_then {A B} (m : Reader A) (k : A -> Reader B) d a b : reads m d a -> reads (k a) d b -> reads (m ≫= k) d b.
Proof. unfold reads, mbind, M_bind. by intros ->. Qed.

Lemma last_bytes_app n h c : last_bytes n (h ++ c) = last_bytes (n - lenN c) h ++ last_bytes n c.
Proof.
  unfold last_bytes. destruct (N.leb_spec (lenN c) n) as [Hl|Hl].
  - rewrite dropN_app_le by (rewrite lenN_app; lia). rewrite lenN_app, (dropN_zero (lenN c - n)) by lia. do 2 f_equal. lia.
  - rewrite dropN_app_r by (rewrite lenN_app; lia). rewrite lenN_app, (dropN_ge (lenN h - (n - lenN c))) by lia. cbn. f_equal. lia.
Qed.
Lemma last_bytes_all n l : lenN l <= n -> last_bytes n l = l.
Proof. intros Hl. unfold last_bytes. replace (lenN l - n) with 0 by lia. apply dropN_0. Qed.
Lemma last_bytes_0 n l : n = 0 -> last_bytes n l = [].
Proof. intros ->. apply dropN_ge. lia. Qed.
Lemma lenN_last_bytes n l : lenN (last_bytes n l) = N.min n (lenN l).
Proof. unfold last_bytes. rewrite lenN_dropN. lia. Qed.
Lemma last_bytes_min n l : last_bytes (N.min (lenN l) n) l = last_bytes n l.
Proof. unfold last_bytes. f_equal. lia. Qed.
Lemma last_bytes_suffix n a b : n <= lenN b -> last_bytes n (a ++ b) = last_bytes n b.
Proof. intros Hl. rewrite last_bytes_app, (last_bytes_0 (n - lenN b)) by lia. done. Qed.

Lemma open_file_reads nul operation opens name path d f : has_nul name = false ->
  lookup_file d path = Some f -> opens (kind f) = true ->
  exists ino, inodes d !! ino = Some f /\ reads (open_file nul operation opens name path) d (Some ino).
Proof.
  intros Hn (ino & Hp & Hi)%lookup_file_name Ho. exists ino. split; [done|]. unfold reads, open_file. rewrite Hn.
  unfold mbind, M_bind, io_error. rewrite call_fine. cbn. rewrite Hp, Hi. cbn. by rewrite Ho.
Qed.

Lemma open_file_missing nul operation opens name path d : has_nul name = false -> lookup_file d path = None ->
  reads (open_file nul operation opens name path) d None.
Proof.
  intros Hn Hp. unfold reads, open_file. rewrite Hn. unfold mbind, M_bind, io_error. rewrite call_fine. cbn.
  unfold lookup_file in Hp. destruct (names d !! path) as [ino|]; [|done]. cbn in Hp. by rewrite Hp.
Qed.

Lemma metadata_reads operation ino d f : inodes d !! ino = Some f -> reads (io_error operation (metadata ino)) d f.
Proof. intros Hi. unfold reads, io_error, metadata, mbind, M_bind. rewrite call_fine. cbn. unfold unwrap. by rewrite Hi. Qed.

Lemma validate_log_reads ino d data : inodes d !! ino = Some (log_inode d data) -> reads (validate_log ino (me d)) d tt.
Proof. intros Hi. unfold validate_log. eapply reads_then; [by apply metadata_reads|]. cbn. by rewrite N.eqb_refl. Qed.

Lemma read_tail_reads ino d data n : inodes d !! ino = Some (log_inode d data) -> n <= isize_max ->
  reads (read_tail ino n) d (last_bytes n data).
Proof.
  intros Hi Hn. unfold read_tail. eapply reads_then; [by apply metadata_reads|]. cbn [contents log_inode]. cbv zeta.
  destruct (N.eqb_spec (N.min (lenN data) n) 0) as [Hz|Hz].
  { rewrite <- last_bytes_min, last_bytes_0 by done. done. }
  unfold isize_max in Hn. destruct (N.ltb_spec 9223372036854775807 (N.min (lenN data) n)); [lia|].
  eapply reads_then; [done|]. unfold read_end, reads, io_error. unfold mbind, M_bind.
  pose proof (metadata_reads "" ino d _ Hi) as Hm. unfold reads, io_error in Hm.
  destruct (metadata ino (mkWorld d [])) as [[[f|e] w]|]; [|done..]. injection Hm as -> ->. cbn. by rewrite last_bytes_min.
Qed.

Lemma has_nul_app a b : has_nul (a ++ b) = has_nul a || has_nul b.
Proof. apply existsb_app. Qed.
Lemma has_nul_decimal n : has_nul (Daemon.decimal n) = false.
Proof.
  apply not_true_iff_false. unfold has_nul. rewrite existsb_exists. intros (b & Hb & E). apply N.eqb_eq in E.
  pose proof (Text.decimal_is_digits n) as Hd. rewrite forallb_forall in Hd. apply Hd in Hb. unfold is_ascii_digit in Hb.
  by rewrite E in Hb.
Qed.
Lemma has_nul_log_name id rotation : has_nul (log_name id rotation) = false.
Proof. unfold log_name, session_log. case_match; by rewrite !has_nul_app, !has_nul_decimal. Qed.

(** The names that are read are those that are written. *)
Lemma log_name_path dir id i : Daemon.join dir (log_name id (N.of_nat i)) = segment_path (session_path dir id) i.
Proof.
  destruct (LogFiles.join_app dir) as (pre & _ & Hpre). unfold log_name. rewrite Hpre.
  destruct i as [|i]; [cbn; unfold session_path; by rewrite Hpre|].
  destruct (N.eqb_spec (N.of_nat (S i)) 0); [lia|]. cbn [segment_path]. unfold rotated_path, session_path.
  by rewrite Hpre, <- !app_assoc.
Qed.

Lemma log_history_cons cur rest : log_history (cur :: rest) = log_history rest ++ cur.
Proof. unfold log_history. cbn [rev]. rewrite concat_app. cbn. by rewrite app_nil_r. Qed.

Lemma read_segments_reads dir id max_files segs d n : holds d (session_path dir id) max_files segs ->
  forall i remaining acc, (i + n = S (N.to_nat max_files))%nat -> 0 < remaining <= isize_max ->
  exists tails, reads (read_segments dir id (me d) (map N.of_nat (seq i n)) remaining acc) d (acc ++ tails) /\
    concat (rev tails) = last_bytes remaining (log_history (drop i segs)).
Proof.
  intros [Hlen Hseg]. induction n as [|n IH]; intros i remaining acc Hi Hr; cbn [seq map read_segments].
  { exists []. rewrite app_nil_r. split; [done|]. by rewrite drop_ge by lia. }
  assert (Hp : lookup_file d (Daemon.join dir (log_name id (N.of_nat i))) = log_inode d <$> segs !! i).
  { rewrite log_name_path. apply Hseg. lia. }
  destruct (segs !! i) as [cur|] eqn:E; cbn in Hp.
  - destruct (open_file_reads "session log name contains NUL" "open session replay log" (fun k => negb (bool_decide (k = Symlink)))
      (log_name id (N.of_nat i)) _ d _ (has_nul_log_name id _) Hp) as (ino & Hino & Ho); [done|].
    rewrite (drop_S segs cur i) by done. rewrite log_history_cons, last_bytes_app.
    set (bs := last_bytes remaining cur).
    assert (Hbs : remaining - lenN bs = remaining - lenN cur) by (unfold bs; rewrite lenN_last_bytes; lia).
    destruct (N.eqb_spec (remaining - lenN bs) 0) as [Hz|Hz].
    + exists [bs]. split; [|cbn; rewrite last_bytes_0, app_nil_r by lia; done].
      eapply reads_then; [exact Ho|]. eapply reads_then; [by eapply validate_log_reads|].
      eapply reads_then; [apply read_tail_reads; [exact Hino|lia]|]. fold bs. cbv zeta.
      by rewrite (proj2 (N.eqb_eq _ _) Hz).
    + destruct (IH (S i) (remaining - lenN bs) (acc ++ [bs]) ltac:(lia) ltac:(lia)) as (tails & Ht & Hc).
      exists (bs :: tails). split.
      * eapply reads_then; [exact Ho|]. eapply reads_then; [by eapply validate_log_reads|].
        eapply reads_then; [apply read_tail_reads; [exact Hino|lia]|]. fold bs. cbv zeta.
        rewrite (proj2 (N.eqb_neq _ _) Hz). by rewrite <- app_assoc in Ht.
      * cbn [rev]. rewrite concat_app, Hc, Hbs. cbn. by rewrite app_nil_r.
  - destruct (IH (S i) remaining acc ltac:(lia) Hr) as (tails & Ht & Hc). exists tails. split.
    + refine (reads_then _ _ _ None _ _ Ht). apply open_file_missing; [apply has_nul_log_name|done].
    + rewrite Hc. apply lookup_ge_None in E. by rewrite !drop_ge by lia.
Qed.

(** The directory of the logs is a directory of the user with mode 0700. *)
Definition private_directory (dir : str) (node : option Inode) (user : N) : Prop :=
  has_nul dir = false /\ exists m c, node = Some (mkInode Directory user m c) /\ N.land m 511 = LOG_DIR_MODE.

Lemma read_rotated_tail_reads dir id max_files max_bytes segs d : private_directory dir (lookup_file d dir) (me d) ->
  holds d (session_path dir id) max_files segs -> max_files <= MAX_ROTATED_FILES -> max_bytes <= isize_max ->
  reads (read_rotated_tail dir id max_files max_bytes) d (last_bytes max_bytes (log_history segs)).
Proof.
  intros (Hnul & m & c & Hd & Hm) Hh Hf Hb. unfold read_rotated_tail. eapply reads_then; [done|].
  unfold read_rotated_tail_for_uid. cbn [disk]. destruct (N.eqb_spec max_bytes 0) as [->|Hz]; [by rewrite last_bytes_0|].
  destruct (N.ltb_spec MAX_ROTATED_FILES max_files); [lia|].
  destruct (open_file_reads "session log directory contains NUL" "open session log directory" (fun k => bool_decide (k = Directory))
    dir dir d _ Hnul Hd) as (ino & Hino & Ho); [done|].
  eapply reads_then; [exact Ho|]. eapply reads_then.
  { unfold validate_directory. eapply reads_then; [by apply metadata_reads|]. cbn. by rewrite N.eqb_refl, Hm. }
  destruct (read_segments_reads dir id max_files segs d (S (N.to_nat max_files)) Hh 0 max_bytes []) as (tails & Ht & Hc); [lia|lia|].
  eapply reads_then; [exact Ht|]. cbn [app]. rewrite Hc. done.
Qed.

(** C11: The output that is shown when a closed session is attached is what was
    logged, to the byte.  Whatever items the log thread takes from its queue,
    for any sessions in any order, it writes them all, rotating the files of
    each log; reading back at most [max_bytes] bytes of the log of a session,
    across all rotated files, then gives exactly the last [max_bytes] bytes
    written for it (all of them when there are fewer), provided that at least
    one and at most [MAX_ROTATED_FILES] = 1024 rotated files are kept, that no
    more is asked for than the size at which files are rotated, and that the
    kernel does not fail. *)
Theorem saved_output_is_tail dir node user max_file_size max_files max_bytes q s :
  private_directory dir node user ->
  logs_at (session_path dir) max_files dir node user s (fun _ => []) ->
  Forall (LogFiles.own_path (session_path dir)) (LogWorker.items q) ->
  0 < max_files <= MAX_ROTATED_FILES -> max_bytes <= max_file_size <= u64_max -> max_bytes <= isize_max ->
  exists q' s', LogFiles.worker_loop (length (LogWorker.items q)) max_file_size max_files q s = Some (q', s') /\
    LogWorker.items q' = [] /\ LogWorker.failures q' = LogWorker.failures q /\
    forall id, read_rotated_tail dir id max_files max_bytes (LogFiles.world s') =
      Some (Ok (last_bytes max_bytes (LogFiles.data_of id (LogWorker.items q))), LogFiles.world s').
Proof.
  intros Hdir L Hall Hf Hb Hi.
  destruct (LogFiles.worker_loop_logs (session_path dir) max_file_size max_files (LogFiles.session_path_inj dir) ltac:(lia)
    dir node user (LogFiles.session_path_apart dir) (LogWorker.items q) q s (fun _ => []) L eq_refl Hall)
    as (q' & s' & Hw & Hq & Hfail & L').
  exists q', s'. split_and!; [done..|]. intros id.
  rewrite (LogFiles.logs_world _ _ _ _ _ _ _ L').
  destruct (LogFiles.kept_items max_file_size max_files ltac:(lia) (LogWorker.items q) id (fun _ => []) []) as (dropped & Hd & Hk);
    [by exists []; split; [|left]|]. cbn [app] in Hd. rewrite Hd.
  assert (Hl : last_bytes max_bytes (dropped ++ log_history (foldl (LogFiles.add_item max_file_size max_files) (fun _ => []) (LogWorker.items q) id)) =
    last_bytes max_bytes (log_history (foldl (LogFiles.add_item max_file_size max_files) (fun _ => []) (LogWorker.items q) id))).
  { destruct Hk as [->|Hk]; [done|]. apply last_bytes_suffix. specialize (Hk ltac:(lia)). lia. }
  rewrite Hl. apply (read_rotated_tail_reads dir id max_files max_bytes).
  - by rewrite (LogFiles.logs_dir _ _ _ _ _ _ _ L'), (LogFiles.logs_user _ _ _ _ _ _ _ L').
  - apply (LogFiles.logs_holds _ _ _ _ _ _ _ L').
  - lia.
  - done.
Qed.

(** ** Bounds *)

(** Whatever the kernel answers, the disk is left alone, and a result is in
    [Q]. *)
Definition quiet {A} (m : Reader A) (Q : A -> Prop) : Prop :=
  forall w r w', m w = Some (r, w') -> disk w' = disk w /\ forall a, r = Ok a -> Q a.

Lemma quiet_ret {A} (a : A) (Q : A -> Prop) : Q a -> quiet (mret a) Q.
Proof. intros Ha w r w' [= <- <-]. split; [done|]. by intros b [= <-]. Qed.
Lemma quiet_fail {A} e (Q : A -> Prop) : quiet (fail e) Q.
Proof. intros w r w' [= <- <-]. by split. Qed.
Lemma quiet_get (Q : World -> Prop) : (forall w, Q w) -> quiet get Q.
Proof. intros HQ w r w' [= <- <-]. split; [done|]. by intros b [= <-]. Qed.
Lemma quiet_bind {A B} (m : Reader A) (k : A -> Reader B) (P : A -> Prop) Q :
  quiet m P -> (forall a, P a -> quiet (k a) Q) -> quiet (m ≫= k) Q.
Proof.
  intros Hm Hk w r w'. unfold mbind, M_bind. destruct (m w) as [[[a|e] w1]|] eqn:E; [| |done].
  - destruct (Hm _ _ _ E) as [Hd Ha]. intros (Hd' & Hq)%(Hk a (Ha a eq_refl)). split; [congruence|done].
  - intros [= <- <-]. destruct (Hm _ _ _ E). by split.
Qed.
Lemma quiet_mono {A} (m : Reader A) (P Q : A -> Prop) : quiet m P -> (forall a, P a -> Q a) -> quiet m Q.
Proof. intros Hm HPQ w r w' E. destruct (Hm w r w' E). naive_solver. Qed.

(** The cases of the kernel's next answer and of an inode. *)
Ltac kernel_cases ino :=
  intros [d [|[| |?] l]] r w'; unfold io_error, read_end, metadata, call, ask_kernel, unwrap, mret, M_ret, mbind, M_bind; cbn;
  try destruct (inodes d !! ino); intros; simplify_eq.

Lemma quiet_call operation : quiet (io_error operation call) (fun _ => True).
Proof. kernel_cases 0; by split. Qed.
Lemma quiet_metadata operation ino : quiet (io_error operation (metadata ino)) (fun _ => True).
Proof. kernel_cases ino; by split. Qed.
Lemma quiet_read_end operation ino n : quiet (io_error operation (read_end ino n)) (fun bs => lenN bs <= n).
Proof. kernel_cases ino; (split; [done|]); intros ? [= <-]; rewrite lenN_last_bytes; lia. Qed.

Lemma quiet_open nul operation opens name path : quiet (open_file nul operation opens name path) (fun _ => True).
Proof.
  unfold open_file. case_match; [apply quiet_fail|]. apply (quiet_bind _ _ (fun _ => True)); [apply quiet_call|intros _ _].
  apply (quiet_bind _ _ (fun _ => True)); [by apply quiet_get|]. intros w _.
  repeat case_match; first [by apply quiet_ret|apply quiet_fail].
Qed.

Lemma quiet_read_tail ino n : quiet (read_tail ino n) (fun bs => lenN bs <= n).
Proof.
  unfold read_tail. apply (quiet_bind _ _ (fun _ => True)); [apply quiet_metadata|intros meta _]. cbv zeta.
  case_match; [apply quiet_ret; rewrite lenN_nil; lia|]. case_match; [apply quiet_fail|].
  apply (quiet_bind _ _ (fun _ => True)); [apply quiet_call|intros _ _].
  eapply quiet_mono; [apply quiet_read_end|]. cbn. lia.
Qed.

Lemma quiet_read_segments dir id user l : forall remaining acc,
  quiet (read_segments dir id user l remaining acc) (fun segs => lenN (concat segs) <= lenN (concat acc) + remaining).
Proof.
  induction l as [|rotation l IH]; intros remaining acc; cbn [read_segments]; [apply quiet_ret; lia|].
  apply (quiet_bind _ _ (fun _ => True)); [apply quiet_open|]. intros [file|] _; [|apply IH].
  apply (quiet_bind _ _ (fun _ => True)).
  { unfold validate_log. apply (quiet_bind _ _ (fun _ => True)); [apply quiet_metadata|intros meta _].
    case_match; [apply quiet_fail|by apply quiet_ret]. }
  intros _ _. eapply quiet_bind; [apply quiet_read_tail|]. cbn. intros bs Hbs. cbv zeta.
  assert (Hl : lenN (concat (acc ++ [bs])) = lenN (concat acc) + lenN bs) by (rewrite concat_app, lenN_app; cbn; by rewrite app_nil_r).
  case_match; [apply quiet_ret; lia|]. eapply quiet_mono; [apply IH|]. cbn. intros segs. lia.
Qed.

Lemma lenN_concat_rev (l : list bytes) : lenN (concat (rev l)) = lenN (concat l).
Proof. induction l as [|x l IH]; [done|]. cbn [rev]. rewrite concat_app. cbn. rewrite app_nil_r, !lenN_app, IH. lia. Qed.

(** Whatever is on the disk and whatever the kernel answers, reading the
    saved output changes nothing on the disk and never returns more than
    [max_bytes] bytes. *)
Lemma saved_output_bounded dir id max_files max_bytes w r w' :
  read_rotated_tail dir id max_files max_bytes w = Some (r, w') ->
  disk w' = disk w /\ forall bs, r = Ok bs -> lenN bs <= max_bytes.
Proof.
  revert w r w'. apply (quiet_bind _ _ (fun _ => True)); [by apply quiet_get|]. intros w _. unfold read_rotated_tail_for_uid.
  case_match; [apply quiet_ret; rewrite lenN_nil; lia|]. case_match; [apply quiet_fail|].
  apply (quiet_bind _ _ (fun _ => True)); [apply quiet_open|].
  intros [directory|] _; [|apply quiet_ret; rewrite lenN_nil; lia].
  apply (quiet_bind _ _ (fun _ => True)).
  { unfold validate_directory. apply (quiet_bind _ _ (fun _ => True)); [apply quiet_metadata|intros meta _].
    case_match; [apply quiet_fail|by apply quiet_ret]. }
  intros _ _. eapply quiet_bind; [apply quiet_read_segments|]. cbn. intros segs Hs. apply quiet_ret.
  rewrite lenN_concat_rev, lenN_nil in *. lia.
Qed.

(** ** A run *)

Definition sample_dir : str := lit "/logs".
Definition sample_disk : Disk := mkDisk {[sample_dir := 1]} {[1 := mkInode Directory 1000 16832 []]} 2 1000 63.
Definition sample_state : LogFiles.State := LogFiles.mkState ∅ (mkWorld sample_disk []).
Definition sample_item id data := LogWorker.mkItem id (session_path sample_dir id) (lit data).
Definition sample_queue : LogWorker.t :=
  LogWorker.mk [sample_item 7 "abc"; sample_item 8 "x"; sample_item 7 "def"; sample_item 7 "gh"; sample_item 7 "ij"] 11 [].

Lemma sample_wf : wf sample_disk.
Proof.
  split; cbn.
  - intros p q ino [-> ?]%lookup_singleton_Some [-> ?]%lookup_singleton_Some. done.
  - intros p ino [_ <-]%lookup_singleton_Some. lia.
  - intros p ino [_ <-]%lookup_singleton_Some. by eexists.
Qed.

Lemma sample_logs max_files : logs_at (session_path sample_dir) max_files sample_dir
  (Some (mkInode Directory 1000 16832 [])) 1000 sample_state (fun _ => []).
Proof.
  split; try done; [apply sample_wf|]. intros id. split; [cbn; lia|]. intros i _. rewrite lookup_nil. cbn [fmap option_fmap option_map].
  apply lookup_file_none; [apply sample_wf|]. apply lookup_singleton_None. intros E.
  apply (LogFiles.session_path_apart sample_dir id).
  pose proof (LogFiles.of_log_segment (session_path sample_dir id) i) as Ho. by rewrite <- E in Ho.
Qed.

Lemma saved_output_is_tail_witness :
  exists q' s', LogFiles.worker_loop 5 4 2 sample_queue sample_state = Some (q', s') /\
    LogWorker.items q' = [] /\ LogWorker.failures q' = [] /\
    read_rotated_tail sample_dir 7 2 4 (LogFiles.world s') = Some (Ok (lit "ghij"), LogFiles.world s').
Proof.
  destruct (saved_output_is_tail sample_dir (Some (mkInode Directory 1000 16832 [])) 1000 4 2 4 sample_queue sample_state)
    as (q' & s' & Hw & Hi & Hf & Hr); [split; [reflexivity|by eexists _, _]|apply sample_logs|by repeat constructor|done..|].
  exists q', s'. split_and!; [done..|]. exact (Hr 7).
Defined.

End AttachHistory.
