(* ===== verification/Config.v ===== *)
(** * Config: the configuration of the client, the daemon and the holder.

    Models [crates/persist-core/src/config.rs], [config/values.rs] and
    [config/sections.rs]: the values with units, the sections and their
    defaults, the layers (defaults, system file, user file) and the validation.
    The TOML parser is a parameter, [TomlParser]; what its visitors do with a
    value is modelled. *)
From S2P Require Import Prelude Bytes Utf8 Environment ShellState Daemon Text.
From Stdlib Require Import Lia.
Import String.StringSyntax.
Local Open Scope N_scope.

Module Config.

(** ** Values *)

(** The messages of the code, by what they are about. *)
Inductive value_error : Type := Empty | NoNumber | BadNumber | BadUnit | TooLarge | Negative.

Definition KB : N := 1024.
Definition MB : N := 1024 * KB.
Definition GB : N := 1024 * MB.
Definition TB : N := 1024 * GB.

Definition is_one_of (s : str) (names : list String.string) : bool :=
  existsb (fun name => bool_decide (s = lit name)) names.

Definition checked_mul_u64 (a b : N) : option N := if a * b <=? u64_max then Some (a * b) else None.

(** The number and the unit of a value: what both parsers begin with. *)
Definition number_and_unit (value : str) : result value_error (N * str) :=
  let value := Text.trim value in
  match value with
  | [] => Err Empty
  | _ =>
      let '(number, unit_) := Text.split_number value in
      match number with
      | [] => Err NoNumber
      | _ => n ← ok_or (Text.parse_digits u64_max number) BadNumber; Ok (n, Text.to_ascii_lowercase (Text.trim unit_))
      end
  end.

Definition size_multiplier (unit_ : str) : option N :=
  if is_one_of unit_ [""; "b"]%string then Some 1
  else if is_one_of unit_ ["k"; "kb"; "kib"]%string then Some KB
  else if is_one_of unit_ ["m"; "mb"; "mib"]%string then Some MB
  else if is_one_of unit_ ["g"; "gb"; "gib"]%string then Some GB
  else if is_one_of unit_ ["t"; "tb"; "tib"]%string then Some TB
  else None.

Abbreviation ByteSize := N (only parsing).
Definition parse_size (value : str) : result value_error ByteSize :=
  '(number, unit_) ← number_and_unit value;
  multiplier ← ok_or (size_multiplier unit_) BadUnit;
  ok_or (checked_mul_u64 number multiplier) TooLarge.

Definition show_size (bytes : ByteSize) : str :=
  if (GB <=? bytes) && (bytes mod GB =? 0) then Daemon.decimal (bytes / GB) ++ lit "GB"
  else if (MB <=? bytes) && (bytes mod MB =? 0) then Daemon.decimal (bytes / MB) ++ lit "MB"
  else if (KB <=? bytes) && (bytes mod KB =? 0) then Daemon.decimal (bytes / KB) ++ lit "KB"
  else Daemon.decimal bytes ++ lit "B".

(** A [Duration], which the values keep in whole milliseconds. *)
Record DurationValue : Type := mkDuration { as_secs : N; subsec_millis : N }.
Definition from_secs (seconds : N) : DurationValue := mkDuration seconds 0.
Definition from_millis (milliseconds : N) : DurationValue := mkDuration (milliseconds / 1000) (milliseconds mod 1000).
Definition as_millis (d : DurationValue) : N := as_secs d * 1000 + subsec_millis d.
Definition is_zero (d : DurationValue) : bool := (as_secs d =? 0) && (subsec_millis d =? 0).

Definition parse_duration (value : str) : result value_error DurationValue :=
  '(number, unit_) ← number_and_unit value;
  if is_one_of unit_ [""; "s"; "sec"; "secs"; "second"; "seconds"]%string then Ok (from_secs number)
  else if is_one_of unit_ ["ms"; "millisecond"; "milliseconds"]%string then Ok (from_millis number)
  else if is_one_of unit_ ["m"; "min"; "mins"; "minute"; "minutes"]%string
  then from_secs <$> ok_or (checked_mul_u64 number 60) TooLarge
  else if is_one_of unit_ ["h"; "hr"; "hrs"; "hour"; "hours"]%string
  then from_secs <$> ok_or (checked_mul_u64 number (60 * 60)) TooLarge
  else Err BadUnit.

Definition show_duration (d : DurationValue) : str :=
  let seconds := as_secs d in
  if negb (subsec_millis d =? 0) then Daemon.decimal (as_millis d) ++ lit "ms"
  else if (3600 <=? seconds) && (seconds mod 3600 =? 0) then Daemon.decimal (seconds / 3600) ++ lit "h"
  else if (60 <=? seconds) && (seconds mod 60 =? 0) then Daemon.decimal (seconds / 60) ++ lit "m"
  else Daemon.decimal seconds ++ lit "s".

(** A TOML value that a visitor gets: integers are [i64]. *)
Inductive toml_value : Type := TomlInteger (z : Z) | TomlString (s : str).

Definition visit_size (v : toml_value) : result value_error ByteSize :=
  match v with
  | TomlInteger z => if (0 <=? z)%Z then Ok (Z.to_N z) else Err Negative
  | TomlString s => parse_size s
  end.
Definition visit_duration (v : toml_value) : result value_error DurationValue :=
  match v with
  | TomlInteger z => if (0 <=? z)%Z then Ok (from_secs (Z.to_N z)) else Err Negative
  | TomlString s => parse_duration s
  end.

Inductive LogLevel : Type := Error | Warn | Info | Debug | Trace.
Definition parse_level (value : str) : option LogLevel :=
  let value := Text.to_ascii_lowercase (Text.trim value) in
  if is_one_of value ["error"]%string then Some Error
  else if is_one_of value ["warn"; "warning"]%string then Some Warn
  else if is_one_of value ["info"]%string then Some Info
  else if is_one_of value ["debug"]%string then Some Debug
  else if is_one_of value ["trace"]%string then Some Trace
  else None.
Definition show_level (l : LogLevel) : str :=
  match l with Error => lit "error" | Warn => lit "warn" | Info => lit "info" | Debug => lit "debug" | Trace => lit "trace" end.

(** ** What is printed is read again *)

Lemma number_and_unit_decimal n unit_ : n <= u64_max -> forallb is_ascii_alphabetic unit_ = true ->
  number_and_unit (Daemon.decimal n ++ unit_) = Ok (n, Text.to_ascii_lowercase unit_).
Proof.
  intros Hn Hu. assert (Ha : forall s, forallb is_ascii_alphabetic s = true -> forallb is_ascii_alphanumeric s = true).
  { intros s. rewrite !forallb_forall. intros H b Hb. unfold is_ascii_alphanumeric. by rewrite (H b Hb). }
  unfold number_and_unit. rewrite Text.trim_alnum.
  2:{ rewrite forallb_app, (Ha _ Hu), andb_true_r. pose proof (Text.decimal_is_digits n) as Hd.
      rewrite forallb_forall in *. intros b Hb. unfold is_ascii_alphanumeric. by rewrite (Hd b Hb), orb_true_r. }
  cbv zeta. rewrite Text.split_number_decimal.
  2:{ destruct unit_ as [|b u]; [done|]. cbn in Hu. apply andb_true_iff in Hu as [Hb _]. by apply Text.alpha_not_digit. }
  rewrite Text.parse_decimal, Text.trim_alnum by auto. pose proof (Text.decimal_nonempty n) as Hne.
  destruct (Daemon.decimal n) as [|b l]; [done|]. done.
Qed.

(** The printing of a size: a number and a unit that divides it. *)
Lemma show_size_unit bytes : exists n unit_ m, show_size bytes = Daemon.decimal n ++ unit_ /\ bytes = n * m /\
  forallb is_ascii_alphabetic unit_ = true /\ size_multiplier (Text.to_ascii_lowercase unit_) = Some m /\ 0 < m.
Proof.
  assert (Hdiv : forall m, bytes mod m = 0 -> 0 < m -> bytes = bytes / m * m).
  { intros m Hm Hp. rewrite N.mul_comm. pose proof (N.div_mod bytes m ltac:(lia)). lia. }
  unfold show_size.
  destruct ((GB <=? bytes) && (bytes mod GB =? 0)) eqn:E3; [|destruct ((MB <=? bytes) && (bytes mod MB =? 0)) eqn:E2;
    [|destruct ((KB <=? bytes) && (bytes mod KB =? 0)) eqn:E1]].
  - apply andb_true_iff in E3 as [_ E%N.eqb_eq]. eexists _, _, GB. split_and!; [done|by apply Hdiv|done..].
  - apply andb_true_iff in E2 as [_ E%N.eqb_eq]. eexists _, _, MB. split_and!; [done|by apply Hdiv|done..].
  - apply andb_true_iff in E1 as [_ E%N.eqb_eq]. eexists _, _, KB. split_and!; [done|by apply Hdiv|done..].
  - eexists bytes, _, 1. split_and!; [done|lia|done..].
Qed.

Lemma show_duration_unit d : subsec_millis d < 1000 -> as_secs d <= u64_max ->
  (subsec_millis d = 0 \/ as_millis d <= u64_max) -> parse_duration (show_duration d) = Ok d.
Proof.
  intros Hs Hb Hm. destruct d as [secs ms]. unfold show_duration. cbn [as_secs subsec_millis] in *.
  assert (Hdiv : forall m, secs mod m = 0 -> 0 < m -> secs = secs / m * m).
  { intros m Hz Hp. rewrite N.mul_comm. pose proof (N.div_mod secs m ltac:(lia)). lia. }
  assert (Hle : forall m, secs / m <= u64_max).
  { intros m. destruct (N.eq_dec m 0) as [->|Hne]; [by destruct secs|]. etransitivity; [|exact Hb]. by apply N.Div0.div_le_upper_bound; nia. }
  unfold parse_duration. destruct (N.eqb_spec ms 0) as [->|Hz]; cbn [negb].
  - destruct ((3600 <=? secs) && (secs mod 3600 =? 0)) eqn:E2; [|destruct ((60 <=? secs) && (secs mod 60 =? 0)) eqn:E1].
    + apply andb_true_iff in E2 as [_ E%N.eqb_eq]. rewrite number_and_unit_decimal by auto. cbn -[N.div N.mul].
      unfold checked_mul_u64. change (60 * 60) with 3600. rewrite <- (Hdiv 3600) by done. destruct (N.leb_spec secs u64_max); [done|lia].
    + apply andb_true_iff in E1 as [_ E%N.eqb_eq]. rewrite number_and_unit_decimal by auto. cbn -[N.div N.mul].
      unfold checked_mul_u64. rewrite <- (Hdiv 60) by done. destruct (N.leb_spec secs u64_max); [done|lia].
    + by rewrite number_and_unit_decimal by auto.
  - rewrite number_and_unit_decimal by (destruct Hm; done). cbn -[N.div N.modulo].
    unfold from_millis, as_millis. cbn [as_secs subsec_millis]. do 2 f_equal.
    + rewrite N.div_add_l, N.div_small by lia. lia.
    + rewrite N.add_comm, N.Div0.mod_add. by apply N.mod_small.
Qed.

(** ** Sections *)

Record DaemonConfig : Type := mkDaemon {
  auto_start : bool; idle_exit : bool; idle_exit_after : DurationValue; gc_idle_timeout : DurationValue;
  gc_interval : DurationValue }.
Record RuntimeConfig : Type := mkRuntime { socket_dir : str }.
Record SessionConfig : Type := mkSession { new_session_on_ssh : bool; default_shell : str; kill_grace : DurationValue }.
Record RingBufferConfig : Type := mkRing {
  default_size : ByteSize; max_size : ByteSize; replay_on_attach : bool; replay_bytes : ByteSize }.
Record LoggingConfig : Type := mkLogging {
  session_log : bool; max_file_size : ByteSize; max_files : N; retention_days : N; flush_interval : DurationValue }.
Record InternalLogConfig : Type := mkInternal {
  level : LogLevel; daemon_log : str; client_log : str; internal_max_file_size : ByteSize; internal_max_files : N }.
Record SecurityConfig : Type := mkSecurity { allow_root_attach_others : bool; enable_input_recording : bool }.
Record SshConfig : Type := mkSsh { auto_hook : bool; bypass_env : str }.
Record RecoveryEnvironmentConfig : Type := mkRecovery { include : list str; max_variables : N; max_bytes : ByteSize }.

Definition default_daemon : DaemonConfig := mkDaemon true true (from_secs (10 * 60)) (from_secs 0) (from_secs 60).
Definition default_session : SessionConfig := mkSession true [] (from_secs 3).
Definition default_ring : RingBufferConfig := mkRing (8 * 1024 * 1024) (128 * 1024 * 1024) true (512 * 1024).
Definition default_logging : LoggingConfig := mkLogging true (100 * 1024 * 1024) 10 30 (from_secs 1).
Definition default_security : SecurityConfig := mkSecurity false false.
Definition default_ssh : SshConfig := mkSsh true (lit "PERSIST_DISABLE").
Definition default_recovery : RecoveryEnvironmentConfig := mkRecovery [] 128 (64 * 1024).

(** The same sections with optional fields, as a file has them. *)
Record PartialDaemonConfig : Type := mkPartialDaemon {
  p_auto_start : option bool; p_idle_exit : option bool; p_idle_exit_after : option DurationValue;
  p_gc_idle_timeout : option DurationValue; p_gc_interval : option DurationValue }.
Record PartialRuntimeConfig : Type := mkPartialRuntime { p_socket_dir : option str }.
Record PartialSessionConfig : Type := mkPartialSession {
  p_new_session_on_ssh : option bool; p_default_shell : option str; p_kill_grace : option DurationValue }.
Record PartialRingBufferConfig : Type := mkPartialRing {
  p_default_size : option ByteSize; p_max_size : option ByteSize; p_replay_on_attach : option bool;
  p_replay_bytes : option ByteSize }.
Record PartialLoggingConfig : Type := mkPartialLogging {
  p_session_log : option bool; p_max_file_size : option ByteSize; p_max_files : option N;
  p_retention_days : option N; p_flush_interval : option DurationValue }.
Record PartialInternalLogConfig : Type := mkPartialInternal {
  p_level : option LogLevel; p_daemon_log : option str; p_client_log : option str;
  p_internal_max_file_size : option ByteSize; p_internal_max_files : option N }.
Record PartialSecurityConfig : Type := mkPartialSecurity {
  p_allow_root_attach_others : option bool; p_enable_input_recording : option bool }.
Record PartialSshConfig : Type := mkPartialSsh { p_auto_hook : option bool; p_bypass_env : option str }.
Record PartialRecoveryEnvironmentConfig : Type := mkPartialRecovery {
  p_include : option (list str); p_max_variables : option N; p_max_bytes : option ByteSize }.
Record PartialConfig : Type := mkPartial {
  p_daemon : option PartialDaemonConfig; p_runtime : option PartialRuntimeConfig; p_session : option PartialSessionConfig;
  p_ring_buffer : option PartialRingBufferConfig; p_logging : option PartialLoggingConfig;
  p_internal_log : option PartialInternalLogConfig; p_security : option PartialSecurityConfig; p_ssh : option PartialSshConfig;
  p_recovery : option (option PartialRecoveryEnvironmentConfig) }.

(** [if let Some(value) = partial.field { self.field = value; }] *)
Definition set {A} (field : option A) (old : A) : A := match field with Some value => value | None => old end.

Definition apply_daemon (p : PartialDaemonConfig) (c : DaemonConfig) : DaemonConfig :=
  mkDaemon (set (p_auto_start p) (auto_start c)) (set (p_idle_exit p) (idle_exit c)) (set (p_idle_exit_after p) (idle_exit_after c))
    (set (p_gc_idle_timeout p) (gc_idle_timeout c)) (set (p_gc_interval p) (gc_interval c)).
Definition apply_session (p : PartialSessionConfig) (c : SessionConfig) : SessionConfig :=
  mkSession (set (p_new_session_on_ssh p) (new_session_on_ssh c)) (set (p_default_shell p) (default_shell c))
    (set (p_kill_grace p) (kill_grace c)).
Definition apply_ring (p : PartialRingBufferConfig) (c : RingBufferConfig) : RingBufferConfig :=
  mkRing (set (p_default_size p) (default_size c)) (set (p_max_size p) (max_size c))
    (set (p_replay_on_attach p) (replay_on_attach c)) (set (p_replay_bytes p) (replay_bytes c)).
Definition apply_logging (p : PartialLoggingConfig) (c : LoggingConfig) : LoggingConfig :=
  mkLogging (set (p_session_log p) (session_log c)) (set (p_max_file_size p) (max_file_size c))
    (set (p_max_files p) (max_files c)) (set (p_retention_days p) (retention_days c)) (set (p_flush_interval p) (flush_interval c)).
Definition apply_security (p : PartialSecurityConfig) (c : SecurityConfig) : SecurityConfig :=
  mkSecurity (set (p_allow_root_attach_others p) (allow_root_attach_others c))
    (set (p_enable_input_recording p) (enable_input_recording c)).
Definition apply_ssh (p : PartialSshConfig) (c : SshConfig) : SshConfig :=
  mkSsh (set (p_auto_hook p) (auto_hook c)) (set (p_bypass_env p) (bypass_env c)).
Definition apply_recovery (p : option PartialRecoveryEnvironmentConfig) (c : RecoveryEnvironmentConfig) : RecoveryEnvironmentConfig :=
  match p with
  | Some p => mkRecovery (set (p_include p) (include c)) (set (p_max_variables p) (max_variables c)) (set (p_max_bytes p) (max_bytes c))
  | None => c
  end.

(** ** Paths *)

Record ConfigPaths : Type := mkPaths {
  config_dir : str; data_dir : str; state_dir : str; runtime_dir : str; socket_path : str; holder_socket_path : str }.

(** [base.join(path)]: an absolute path replaces the base. *)
Definition path_join (base path : str) : str := if Path.is_absolute path then path else Daemon.join base path.

Definition socket_of (runtime_dir : str) : str := path_join runtime_dir (lit "persist.sock").
Definition holder_socket_of (runtime_dir : str) : str := path_join runtime_dir (lit "holder.sock").

Definition from_base_dirs (home : str) (config_home data_home state_home : option str) (runtime_base : str) : ConfigPaths :=
  let runtime_dir := path_join runtime_base (lit "persistshell") in
  mkPaths (path_join (set config_home (path_join home (lit ".config"))) (lit "persistshell"))
    (path_join (set data_home (path_join home (lit ".local/share"))) (lit "persistshell"))
    (path_join (set state_home (path_join home (lit ".local/state"))) (lit "persistshell"))
    runtime_dir (socket_of runtime_dir) (holder_socket_of runtime_dir).

Definition set_runtime_dir (dir : str) (p : ConfigPaths) : ConfigPaths :=
  mkPaths (config_dir p) (data_dir p) (state_dir p) dir (socket_of dir) (holder_socket_of dir).

(** The errors of [PersistError] that loading has. *)
Inductive config_error : Type :=
| MissingEnvironment (name : String.string)
| ConfigRead (path : str)
| ConfigParse (path : str)
| ConfigValidation (message : String.string).
Arguments MissingEnvironment name%_string.
Arguments ConfigValidation message%_string.

Section load.
(** The variables of the process. *)
Context (var : str -> option str).

(** [env::var(name)], which has to be UTF-8. *)
Definition env_var (name : String.string) (missing : String.string) : result config_error str :=
  ok_or (v ← var (lit name); from_utf8 v) (MissingEnvironment missing).
Arguments env_var (name missing)%_string.

Definition runtime_dir_from_uid : result config_error str :=
  uid ← env_var "UID" "XDG_RUNTIME_DIR or UID"; Ok (path_join (lit "/run/user") uid).

Definition from_environment : result config_error ConfigPaths :=
  home ← ok_or (var (lit "HOME")) (MissingEnvironment "HOME");
  runtime_base ← match var (lit "XDG_RUNTIME_DIR") with Some value => Ok value | None => runtime_dir_from_uid end;
  Ok (from_base_dirs home (var (lit "XDG_CONFIG_HOME")) (var (lit "XDG_DATA_HOME")) (var (lit "XDG_STATE_HOME")) runtime_base).

(** [value.replace("%UID%", uid)], past [skip] bytes of a match. *)
Fixpoint replace_uid (uid : str) (skip : nat) (value : str) : str :=
  match value, skip with
  | [], _ => []
  | _ :: value', S skip' => replace_uid uid skip' value'
  | b :: value', O => if starts_with (lit "%UID%") value then uid ++ replace_uid uid 4 value' else b :: replace_uid uid 0 value'
  end.

Definition expand_uid_template (value : str) : result config_error str :=
  if contains (lit "%UID%") value then uid ← env_var "UID" "UID"; Ok (replace_uid uid 0 value) else Ok value.

Definition apply_runtime (p : PartialRuntimeConfig) (c : RuntimeConfig) : result config_error RuntimeConfig :=
  match p_socket_dir p with Some value => mkRuntime <$> expand_uid_template value | None => Ok c end.
Definition apply_path (field : option str) (old : str) : result config_error str :=
  match field with Some value => expand_uid_template value | None => Ok old end.
Definition apply_internal (p : PartialInternalLogConfig) (c : InternalLogConfig) : result config_error InternalLogConfig :=
  daemon_log_ ← apply_path (p_daemon_log p) (daemon_log c);
  client_log_ ← apply_path (p_client_log p) (client_log c);
  Ok (mkInternal (set (p_level p) (level c)) daemon_log_ client_log_
    (set (p_internal_max_file_size p) (internal_max_file_size c)) (set (p_internal_max_files p) (internal_max_files c))).

(** ** The configuration *)

Record Config : Type := mkConfig {
  paths : ConfigPaths; daemon : DaemonConfig; runtime : RuntimeConfig; session : SessionConfig; ring_buffer : RingBufferConfig;
  logging : LoggingConfig; internal_log : InternalLogConfig; security : SecurityConfig; ssh : SshConfig;
  recovery : RecoveryEnvironmentConfig }.

Definition default_internal (state_dir : str) : InternalLogConfig :=
  mkInternal Info (path_join state_dir (lit "daemon.log")) (path_join state_dir (lit "client.log")) (20 * 1024 * 1024) 5.

Definition default_with_paths (p : ConfigPaths) : Config :=
  mkConfig p default_daemon (mkRuntime (runtime_dir p)) default_session default_ring default_logging
    (default_internal (state_dir p)) default_security default_ssh default_recovery.

Definition apply_with {A B} (f : A -> B -> B) (section : option A) (old : B) : B :=
  match section with Some p => f p old | None => old end.
Definition try_apply {A B} (f : A -> B -> result config_error B) (section : option A) (old : B) : result config_error B :=
  match section with Some p => f p old | None => Ok old end.

Definition apply_partial (p : PartialConfig) (c : Config) : result config_error Config :=
  runtime_ ← try_apply apply_runtime (p_runtime p) (runtime c);
  let paths_ := match p_runtime p with Some _ => set_runtime_dir (socket_dir runtime_) (paths c) | None => paths c end in
  internal_ ← try_apply apply_internal (p_internal_log p) (internal_log c);
  Ok (mkConfig paths_ (apply_with apply_daemon (p_daemon p) (daemon c)) runtime_ (apply_with apply_session (p_session p) (session c))
    (apply_with apply_ring (p_ring_buffer p) (ring_buffer c)) (apply_with apply_logging (p_logging p) (logging c)) internal_
    (apply_with apply_security (p_security p) (security c)) (apply_with apply_ssh (p_ssh p) (ssh c))
    (apply_with apply_recovery (p_recovery p) (recovery c))).

(** ** Validation *)

Definition require (ok : bool) (message : String.string) : result config_error unit :=
  if ok then Ok tt else Err (ConfigValidation message).
Arguments require ok message%_string.

Definition validate_non_empty_path (path : str) (message : String.string) : result config_error unit :=
  require match path with [] => false | _ => true end message.
Definition validate_absolute_path (path : str) (message : String.string) : result config_error unit :=
  require (Path.is_absolute path) message.
Definition validate_non_zero_size (value : ByteSize) (message : String.string) : result config_error unit :=
  require (negb (value =? 0)) message.
Definition validate_non_zero_duration (value : DurationValue) (message : String.string) : result config_error unit :=
  require (negb (is_zero value)) message.
Arguments validate_non_empty_path path message%_string.
Arguments validate_absolute_path path message%_string.
Arguments validate_non_zero_size value message%_string.
Arguments validate_non_zero_duration value message%_string.

Definition validate (c : Config) : result config_error unit :=
  _ ← validate_non_empty_path (socket_dir (runtime c)) "runtime.socket_dir must not be empty";
  _ ← require (Path.is_absolute (socket_dir (runtime c))) "runtime.socket_dir must be an absolute path";
  _ ← validate_non_zero_duration (kill_grace (session c)) "session.kill_grace must be greater than zero";
  _ ← validate_non_zero_size (default_size (ring_buffer c)) "ring_buffer.default_size must be greater than zero";
  _ ← validate_non_zero_size (max_size (ring_buffer c)) "ring_buffer.max_size must be greater than zero";
  _ ← validate_non_zero_size (max_file_size (logging c)) "logging.max_file_size must be greater than zero";
  _ ← validate_non_zero_duration (flush_interval (logging c)) "logging.flush_interval must be greater than zero";
  _ ← validate_non_empty_path (daemon_log (internal_log c)) "internal_log.daemon_log must not be empty";
  _ ← validate_non_empty_path (client_log (internal_log c)) "internal_log.client_log must not be empty";
  _ ← validate_absolute_path (daemon_log (internal_log c)) "internal_log.daemon_log must be an absolute path";
  _ ← validate_absolute_path (client_log (internal_log c)) "internal_log.client_log must be an absolute path";
  _ ← validate_non_zero_size (internal_max_file_size (internal_log c)) "internal_log.max_file_size must be greater than zero";
  _ ← (if idle_exit (daemon c)
       then validate_non_zero_duration (idle_exit_after (daemon c)) "daemon.idle_exit_after must be greater than zero" else Ok tt);
  _ ← require (default_size (ring_buffer c) <=? max_size (ring_buffer c)) "ring_buffer.default_size must not exceed ring_buffer.max_size";
  _ ← require (replay_bytes (ring_buffer c) <=? max_size (ring_buffer c)) "ring_buffer.replay_bytes must not exceed ring_buffer.max_size";
  _ ← require (negb (max_files (logging c) =? 0)) "logging.max_files must be greater than zero";
  _ ← require (negb (retention_days (logging c) =? 0)) "logging.retention_days must be greater than zero";
  _ ← require (negb (internal_max_files (internal_log c) =? 0)) "internal_log.max_files must be greater than zero";
  _ ← require match Text.trim (bypass_env (ssh c)) with [] => false | _ => true end "ssh.bypass_env must not be empty";
  _ ← require (negb (allow_root_attach_others (security c))) "security.allow_root_attach_others is not supported in Phase 1";
  require (is_ok (Environment.policy_new (include (recovery c)) (max_variables (recovery c)) (N.min (max_bytes (recovery c)) usize_max)))
    "recovery.environment is invalid: {error}".
End load.

(** ** Files *)

(** [toml::from_str::<PartialConfig>]. *)
Class TomlParser := toml_from_str : str -> option PartialConfig.

(** What reading a file answers. *)
Inductive file_answer : Type := NotFound | ReadFailed | Content (s : str).

Section files.
Context `{TomlParser} (var : str -> option str) (read_to_string : str -> file_answer).

Definition load_partial_config (path : str) : result config_error (option PartialConfig) :=
  match read_to_string path with
  | NotFound => Ok None
  | ReadFailed => Err (ConfigRead path)
  | Content content => Some <$> ok_or (toml_from_str content) (ConfigParse path)
  end.

Definition apply_config_file (c : Config) (path : str) : result config_error Config :=
  p ← load_partial_config path;
  match p with Some p => apply_partial var p c | None => Ok c end.

Record ConfigLoadOptions : Type := mkOptions { load_paths : ConfigPaths; system_config_path : str; user_config_path : str }.
Definition options_from_environment : result config_error ConfigLoadOptions :=
  p ← from_environment var;
  Ok (mkOptions p (lit "/etc/persistshell/config.toml") (path_join (config_dir p) (lit "config.toml"))).

Definition load_config (options : ConfigLoadOptions) : result config_error Config :=
  let c := default_with_paths (load_paths options) in
  c ← apply_config_file c (system_config_path options);
  c ← apply_config_file c (user_config_path options);
  _ ← validate c;
  Ok c.

Definition load_default_config : result config_error Config :=
  p ← from_environment var;
  let c := default_with_paths p in
  _ ← validate c;
  Ok c.
End files.

(** ** What loading gives *)

Lemma require_Ok ok message u : require ok message = Ok u <-> ok = true.
Proof. unfold require. destruct ok, u; split; done. Qed.

(** What the rest of the program relies on. *)
Record config_ok (c : Config) : Prop := {
  ok_socket_dir : Path.is_absolute (socket_dir (runtime c)) = true;
  ok_sockets : runtime_dir (paths c) = socket_dir (runtime c) /\ socket_path (paths c) = socket_of (socket_dir (runtime c)) /\
    holder_socket_path (paths c) = holder_socket_of (socket_dir (runtime c));
  ok_logs : Path.is_absolute (daemon_log (internal_log c)) = true /\ Path.is_absolute (client_log (internal_log c)) = true;
  ok_kill_grace : is_zero (kill_grace (session c)) = false;
  ok_idle_exit : idle_exit (daemon c) = true -> is_zero (idle_exit_after (daemon c)) = false;
  ok_ring : 0 < default_size (ring_buffer c) <= max_size (ring_buffer c);
  ok_replay : replay_bytes (ring_buffer c) <= max_size (ring_buffer c);
  ok_rotation : 0 < max_file_size (logging c) /\ 0 < max_files (logging c);
  ok_policy : exists policy, Environment.policy_new (include (recovery c)) (max_variables (recovery c))
    (N.min (max_bytes (recovery c)) usize_max) = Ok policy;
  ok_bypass : Text.trim (bypass_env (ssh c)) <> []; ok_root : allow_root_attach_others (security c) = false }.

(** The sockets follow the directory. *)
Definition coherent (c : Config) : Prop :=
  runtime_dir (paths c) = socket_dir (runtime c) /\ socket_path (paths c) = socket_of (socket_dir (runtime c)) /\
  holder_socket_path (paths c) = holder_socket_of (socket_dir (runtime c)).

Lemma validate_ok c : coherent c -> validate c = Ok tt -> config_ok c.
Proof.
  intros Hc. unfold validate, validate_non_empty_path, validate_absolute_path, validate_non_zero_size, validate_non_zero_duration.
  intros Hv. inv_ok. rewrite ?require_Ok in *. split; try done.
  all: repeat match goal with H : negb _ = true |- _ => apply negb_true_iff in H end.
  all: rewrite ?N.eqb_neq, ?N.leb_le in *; try lia; try done.
  - intros Hi. by rewrite Hi, require_Ok, negb_true_iff in Hok11.
  - by destruct (Environment.policy_new _ _ _) as [policy|]; [exists policy|].
  - by destruct (Text.trim _).
Qed.

Section loaded.
Context `{TomlParser} (var : str -> option str) (read_to_string : str -> file_answer).

(** The file that a layer is read from, when there is one. *)
Definition file_of (path : str) : option PartialConfig :=
  match load_partial_config read_to_string path with Ok p => p | Err _ => None end.

Lemma apply_config_file_Ok c path c' : apply_config_file var read_to_string c path = Ok c' ->
  match file_of path with Some p => apply_partial var p c = Ok c' | None => c' = c end.
Proof.
  unfold apply_config_file, file_of. destruct (load_partial_config _ path) as [[p|]|]; cbn; [done|by intros [= <-]|done].
Qed.

Lemma apply_partial_coherent p c c' : coherent c -> apply_partial var p c = Ok c' -> coherent c'.
Proof.
  intros Hc Ha. unfold apply_partial in Ha. inv_ok. subst c'. unfold coherent. cbn.
  destruct (p_runtime p) as [pr|]; [done|]. cbn in Hok. by injection Hok as <-.
Qed.

Lemma apply_config_file_coherent c path c' : coherent c -> apply_config_file var read_to_string c path = Ok c' -> coherent c'.
Proof.
  intros Hc Ha%apply_config_file_Ok. destruct (file_of path) as [p|]; [by eapply apply_partial_coherent|by subst].
Qed.

(** A configuration that loads, from whatever files and environment, is
    consistent: the sockets are in the configured directory, which is absolute,
    as are the log files; the sizes and times that [validate] checks are not
    zero; the ring buffer has a positive size within its maximum, which also
    bounds what is replayed; at least one rotated log is kept; the rules for
    saved environments make a policy; and nothing that is unsupported is turned
    on.  It is not enough for the other parts: the holder has a maximum of its
    own for ring buffers, and the reader of saved output one for rotated files. *)
Theorem loaded_config_valid options c :
  options_from_environment var = Ok options -> load_config var read_to_string options = Ok c -> config_ok c.
Proof.
  intros Ho Hl. unfold options_from_environment in Ho. inv_ok. subst options. unfold load_config in Hl. inv_ok. subst.
  apply validate_ok; [|done]. eapply apply_config_file_coherent; [|exact Hok1]. eapply apply_config_file_coherent; [|exact Hok0].
  unfold from_environment in Hok. inv_ok. subst. done.
Qed.

(** The value that one layer, then the layers together give a field of a
    section: the user's file before the system's. *)
Definition layer {A B} (file : option PartialConfig) (section : PartialConfig -> option A) (field : A -> option B) : option B :=
  p ← file; s ← section p; field s.
Definition first {B} (user system : option B) : option B := match user with Some value => Some value | None => system end.
Definition setting {A B} (options : ConfigLoadOptions) (section : PartialConfig -> option A) (field : A -> option B) : option B :=
  first (layer (file_of (user_config_path options)) section field) (layer (file_of (system_config_path options)) section field).

(** A path, when its template expands. *)
Definition expanded (value : str) : str := match expand_uid_template var value with Ok path => path | Err _ => value end.
Definition recovery_section (p : PartialConfig) : option PartialRecoveryEnvironmentConfig := r ← p_recovery p; r.

Lemma expanded_Ok value path : expand_uid_template var value = Ok path -> expanded value = path.
Proof. unfold expanded. by intros ->. Qed.

Lemma apply_path_Ok field old path : apply_path var field old = Ok path -> path = set (expanded <$> field) old.
Proof. unfold apply_path. destruct field as [v|]; cbn; [by intros <-%expanded_Ok|by intros [= <-]]. Qed.

Lemma apply_runtime_Ok p c c' : try_apply (apply_runtime var) p c = Ok c' ->
  socket_dir c' = set (expanded <$> (s ← p; p_socket_dir s)) (socket_dir c).
Proof.
  destruct p as [p|]; cbn; [|by intros [= <-]]. unfold apply_runtime. destruct (p_socket_dir p) as [v|]; cbn; [|by intros [= <-]].
  intros Hr. inv_ok. subst c'. by apply expanded_Ok in Hok.
Qed.

Lemma apply_internal_Ok p c c' : try_apply (apply_internal var) p c = Ok c' ->
  c' = mkInternal (set (s ← p; p_level s) (level c)) (set (expanded <$> (s ← p; p_daemon_log s)) (daemon_log c))
    (set (expanded <$> (s ← p; p_client_log s)) (client_log c)) (set (s ← p; p_internal_max_file_size s) (internal_max_file_size c))
    (set (s ← p; p_internal_max_files s) (internal_max_files c)).
Proof.
  destruct p as [p|]; cbn; [|destruct c; by intros [= <-]]. unfold apply_internal. intros Hi. inv_ok. subst c'.
  by apply apply_path_Ok in Hok as ->, Hok0 as ->.
Qed.

(** The configuration after one file, setting by setting. *)
Definition with_layer (p : option PartialConfig) (c c' : Config) : Prop :=
  let get {A B} (section : PartialConfig -> option A) (field : A -> option B) := set (layer p section field) in
  let path {A} (section : PartialConfig -> option A) field := set (expanded <$> layer p section field) in
  daemon c' = mkDaemon (get p_daemon p_auto_start (auto_start (daemon c))) (get p_daemon p_idle_exit (idle_exit (daemon c)))
    (get p_daemon p_idle_exit_after (idle_exit_after (daemon c))) (get p_daemon p_gc_idle_timeout (gc_idle_timeout (daemon c)))
    (get p_daemon p_gc_interval (gc_interval (daemon c))) /\
  socket_dir (runtime c') = path p_runtime p_socket_dir (socket_dir (runtime c)) /\
  session c' = mkSession (get p_session p_new_session_on_ssh (new_session_on_ssh (session c)))
    (get p_session p_default_shell (default_shell (session c))) (get p_session p_kill_grace (kill_grace (session c))) /\
  ring_buffer c' = mkRing (get p_ring_buffer p_default_size (default_size (ring_buffer c)))
    (get p_ring_buffer p_max_size (max_size (ring_buffer c))) (get p_ring_buffer p_replay_on_attach (replay_on_attach (ring_buffer c)))
    (get p_ring_buffer p_replay_bytes (replay_bytes (ring_buffer c))) /\
  logging c' = mkLogging (get p_logging p_session_log (session_log (logging c)))
    (get p_logging p_max_file_size (max_file_size (logging c))) (get p_logging p_max_files (max_files (logging c)))
    (get p_logging p_retention_days (retention_days (logging c))) (get p_logging p_flush_interval (flush_interval (logging c))) /\
  internal_log c' = mkInternal (get p_internal_log p_level (level (internal_log c)))
    (path p_internal_log p_daemon_log (daemon_log (internal_log c))) (path p_internal_log p_client_log (client_log (internal_log c)))
    (get p_internal_log p_internal_max_file_size (internal_max_file_size (internal_log c)))
    (get p_internal_log p_internal_max_files (internal_max_files (internal_log c))) /\
  security c' = mkSecurity (get p_security p_allow_root_attach_others (allow_root_attach_others (security c)))
    (get p_security p_enable_input_recording (enable_input_recording (security c))) /\
  ssh c' = mkSsh (get p_ssh p_auto_hook (auto_hook (ssh c))) (get p_ssh p_bypass_env (bypass_env (ssh c))) /\
  recovery c' = mkRecovery (get recovery_section p_include (include (recovery c)))
    (get recovery_section p_max_variables (max_variables (recovery c))) (get recovery_section p_max_bytes (max_bytes (recovery c))).

Lemma apply_layer p c c' : match p with Some p => apply_partial var p c = Ok c' | None => c' = c end -> with_layer p c c'.
Proof.
  intros Ha. unfold with_layer. destruct p as [p|]; [|subst c'; split_and!; by destruct c as [? [] [] [] [] [] [] [] [] []]].
  unfold apply_partial in Ha. inv_ok. subst c'. apply apply_runtime_Ok in Hok. apply apply_internal_Ok in Hok0.
  cbn [daemon runtime session ring_buffer logging internal_log security ssh recovery]. unfold apply_with, layer, recovery_section. cbn [mbind option_bind].
  split_and!; [|done| | | |done| | |].
  - destruct (p_daemon p); [done|by destruct (daemon c)].
  - destruct (p_session p); [done|by destruct (session c)].
  - destruct (p_ring_buffer p); [done|by destruct (ring_buffer c)].
  - destruct (p_logging p); [done|by destruct (logging c)].
  - destruct (p_security p); [done|by destruct (security c)].
  - destruct (p_ssh p); [done|by destruct (ssh c)].
  - destruct (p_recovery p) as [[r|]|]; [done|by destruct (recovery c)..].
Qed.

Lemma set_set {A} (user system : option A) (old : A) : set user (set system old) = set (first user system) old.
Proof. by destruct user. Qed.
Lemma set_set_path (user system : option str) old :
  set (expanded <$> user) (set (expanded <$> system) old) = set (expanded <$> first user system) old.
Proof. by destruct user. Qed.

(** C22: Every setting of a configuration that loads is the one of the user's
    file, when that has it, else the one of the system's file, else the default;
    paths are expanded. *)
Theorem config_layers options c : load_config var read_to_string options = Ok c ->
  let get {A B} (section : PartialConfig -> option A) (field : A -> option B) := set (setting options section field) in
  let path {A} (section : PartialConfig -> option A) field := set (expanded <$> setting options section field) in
  daemon c = mkDaemon (get p_daemon p_auto_start true) (get p_daemon p_idle_exit true)
    (get p_daemon p_idle_exit_after (from_secs 600)) (get p_daemon p_gc_idle_timeout (from_secs 0))
    (get p_daemon p_gc_interval (from_secs 60)) /\
  socket_dir (runtime c) = path p_runtime p_socket_dir (runtime_dir (load_paths options)) /\
  session c = mkSession (get p_session p_new_session_on_ssh true) (get p_session p_default_shell [])
    (get p_session p_kill_grace (from_secs 3)) /\
  ring_buffer c = mkRing (get p_ring_buffer p_default_size 8388608) (get p_ring_buffer p_max_size 134217728)
    (get p_ring_buffer p_replay_on_attach true) (get p_ring_buffer p_replay_bytes 524288) /\
  logging c = mkLogging (get p_logging p_session_log true) (get p_logging p_max_file_size 104857600)
    (get p_logging p_max_files 10) (get p_logging p_retention_days 30) (get p_logging p_flush_interval (from_secs 1)) /\
  internal_log c = mkInternal (get p_internal_log p_level Info)
    (path p_internal_log p_daemon_log (path_join (state_dir (load_paths options)) (lit "daemon.log")))
    (path p_internal_log p_client_log (path_join (state_dir (load_paths options)) (lit "client.log")))
    (get p_internal_log p_internal_max_file_size 20971520) (get p_internal_log p_internal_max_files 5) /\
  security c = mkSecurity (get p_security p_allow_root_attach_others false) (get p_security p_enable_input_recording false) /\
  ssh c = mkSsh (get p_ssh p_auto_hook true) (get p_ssh p_bypass_env (lit "PERSIST_DISABLE")) /\
  recovery c = mkRecovery (get recovery_section p_include []) (get recovery_section p_max_variables 128)
    (get recovery_section p_max_bytes 65536).
Proof.
  intros Hl get path. subst get path. unfold load_config in Hl. inv_ok. subst c.
  apply apply_config_file_Ok, apply_layer in Hok, Hok0. unfold with_layer in Hok, Hok0.
  destruct Hok as (D1 & R1 & S1 & B1 & L1 & I1 & E1 & H1 & V1), Hok0 as (D2 & R2 & S2 & B2 & L2 & I2 & E2 & H2 & V2).
  rewrite D2, D1, R2, R1, S2, S1, B2, B1, L2, L1, I2, I1, E2, E1, H2, H1, V2, V1.
  cbn [auto_start idle_exit idle_exit_after gc_idle_timeout gc_interval new_session_on_ssh default_shell kill_grace default_size max_size
    replay_on_attach replay_bytes session_log max_file_size max_files retention_days flush_interval level daemon_log client_log
    internal_max_file_size internal_max_files allow_root_attach_others enable_input_recording auto_hook bypass_env include
    max_variables max_bytes].
  rewrite !set_set_path, !set_set. done.
Qed.
End loaded.

(** ** What a value with a unit may be *)

Lemma number_and_unit_bound value n unit_ : number_and_unit value = Ok (n, unit_) -> n <= u64_max.
Proof.
  unfold number_and_unit. destruct (Text.trim value) as [|b l]; [done|]. destruct (Text.split_number (b :: l)) as [[|d number] u]; [done|].
  intros Hn. inv_ok. subst. unfold Text.parse_digits in Hok. repeat case_match; simplify_eq. by apply N.ltb_ge.
Qed.

Lemma checked_mul_bound a b n : checked_mul_u64 a b = Some n -> n <= u64_max.
Proof. unfold checked_mul_u64. destruct (N.leb_spec (a * b) u64_max); [by intros [= <-]|done]. Qed.

Lemma parse_duration_fits value d : parse_duration value = Ok d ->
  subsec_millis d < 1000 /\ as_secs d <= u64_max /\ (subsec_millis d = 0 \/ as_millis d <= u64_max).
Proof.
  unfold parse_duration. intros Hd. inv_ok. destruct x as [n unit_]. pose proof (number_and_unit_bound _ _ _ Hok) as Hn.
  pose proof (N.mod_lt n 1000 ltac:(done)) as Hm. pose proof (N.div_mod n 1000 ltac:(done)) as Hdm.
  repeat case_match; inv_ok; subst; cbn -[N.div N.modulo N.mul]; try done.
  - split_and!; [done|done|by left].
  - unfold as_millis. cbn [from_millis as_secs subsec_millis].
    generalize dependent (n / 1000). generalize dependent (n mod 1000). intros r Hr q E. split_and!; [done|lia|right; lia].
  - apply checked_mul_bound in Hok0. split_and!; [done|done|by left].
  - apply checked_mul_bound in Hok0. split_and!; [done|done|by left].
Qed.

(** A size that is accepted, from text or from a number, is at most
    [u64::MAX], without wrapping, and what is printed for it is read back as the
    same size; likewise durations, to the millisecond, and log levels. *)
Theorem config_values_roundtrip :
  (forall value n, parse_size value = Ok n -> n <= u64_max /\ parse_size (show_size n) = Ok n) /\
  (forall value d, parse_duration value = Ok d -> as_secs d <= u64_max /\ parse_duration (show_duration d) = Ok d) /\
  (forall l, parse_level (show_level l) = Some l).
Proof.
  split_and!.
  - intros value n Hv. assert (Hn : n <= u64_max).
    { unfold parse_size in Hv. inv_ok. destruct x as [number u]. inv_ok. by eapply checked_mul_bound. }
    split; [done|]. destruct (show_size_unit n) as (k & u & m & -> & E & Hu & Hm & Hp).
    unfold parse_size. rewrite number_and_unit_decimal by (done || nia). cbn [mbind result_bind]. rewrite Hm. cbn [ok_or mbind result_bind].
    unfold checked_mul_u64. rewrite <- E. by destruct (N.leb_spec n u64_max); [|lia].
  - intros value d Hd. apply parse_duration_fits in Hd as (H1 & H2 & H3). split; [done|]. by apply show_duration_unit.
  - by intros [].
Qed.

(** ** A run *)

Section sample.
#[local] Instance sample_parser : TomlParser := fun content =>
  if bool_decide (content = lit "[ring_buffer] default_size = 1MB")
  then size ← match parse_size (lit " 1MB ") with Ok n => Some n | Err _ => None end;
       Some (mkPartial None None None (Some (mkPartialRing (Some size) None None None)) None None None None None)
  else if bool_decide (content = lit "[runtime] socket_dir = /run/%UID%")
  then Some (mkPartial None (Some (mkPartialRuntime (Some (lit "/run/%UID%")))) None None None None None None None)
  else None.

Definition sample_var (name : str) : option str :=
  if bool_decide (name = lit "HOME") then Some (lit "/home/alice")
  else if bool_decide (name = lit "UID") then Some (lit "1000") else None.
Definition sample_files (path : str) : file_answer :=
  if bool_decide (path = lit "/etc/persistshell/config.toml") then Content (lit "[runtime] socket_dir = /run/%UID%")
  else if bool_decide (path = lit "/home/alice/.config/persistshell/config.toml") then Content (lit "[ring_buffer] default_size = 1MB")
  else NotFound.
Definition sample_options : ConfigLoadOptions :=
  match options_from_environment sample_var with Ok o => o | Err _ => mkOptions (mkPaths [] [] [] [] [] []) [] [] end.
Definition sample_config : Config :=
  match load_config sample_var sample_files sample_options with Ok c => c | Err _ => default_with_paths (load_paths sample_options) end.

Lemma loaded_config_valid_witness :
  socket_path (paths sample_config) = lit "/run/1000/persist.sock" /\ default_size (ring_buffer sample_config) = MB /\
  config_ok sample_config.
Proof.
  split; [vm_compute; reflexivity|]. split; [vm_compute; reflexivity|].
  apply (loaded_config_valid sample_var sample_files sample_options); vm_compute; reflexivity.
Defined.

Lemma config_layers_witness : socket_dir (runtime sample_config) = lit "/run/1000" /\
  replay_bytes (ring_buffer sample_config) = 524288.
Proof.
  destruct (config_layers sample_var sample_files sample_options sample_config) as (_ & -> & _ & -> & _);
    [vm_compute; reflexivity|]. split; vm_compute; reflexivity.
Defined.
End sample.
End Config.
