(* ===== verification/DashboardWire.v ===== *)
(** * DashboardWire: the messages of the dashboard.

    Models [crates/persist-ipc/src/dashboard.rs], [dashboard/codec.rs] and
    [dashboard/wire.rs], whose reader is the cursor of ClientMessages.v. *)
From S2P Require Import Prelude Bytes ClientFrame ClientMessages.
From Stdlib Require Import Lia.
Local Open Scope N_scope.

Module DashboardWire.
Import Cursor(C, Reads, take, u8, u16, u32, u64, times, lift, reads_ret, reads_bind, reads_last, reads_skip, reads_lift,
  reads_u8, reads_u16, reads_u32, reads_u64, reads_times).

Definition MAX_SUMMARY_PAGE : N := 128.
Definition MAX_TREND_POINTS : N := 240.

Inductive Completeness : Type := Complete | Partial | Stale | Unavailable.
#[export] Instance Completeness_eq_dec : EqDecision Completeness.
Proof. solve_decision. Defined.

Inductive CollectionStatus : Type := CollectionComplete | CollectionPartial | CollectionUnavailable.
#[export] Instance CollectionStatus_eq_dec : EqDecision CollectionStatus.
Proof. solve_decision. Defined.

Record DashboardSummaryRequest : Type := mkSummaryRequest { cursor : N; limit : N }.

Record DaemonMetrics : Type := mkDaemonMetrics {
  pid : N; d_rates_available : bool; d_cpu_milli_percent : N; d_rss_kib : N; d_read_bytes_per_sec : N;
  d_write_bytes_per_sec : N; session_count : N; runtime_count : N; active_writer_count : N; readonly_client_count : N }.

Record SessionMetrics : Type := mkSessionMetrics {
  session_id : N; process_count : N; rates_available : bool; cpu_milli_percent : N; rss_kib : N; read_bytes_per_sec : N;
  write_bytes_per_sec : N; foreground_pid : option N; writer_active : bool; collection_status : CollectionStatus }.

Record DashboardSummaryResponse : Type := mkSummary {
  sampled_at_ms : N; completeness : Completeness; daemon : DaemonMetrics; sessions : list SessionMetrics; next_cursor : option N }.

Inductive TrendScope : Type := ScopeDaemon | ScopeSession (id : N).
#[export] Instance TrendScope_eq_dec : EqDecision TrendScope.
Proof. solve_decision. Defined.
Inductive TrendRange : Type := FifteenMinutes | Hour | Day.

Record DashboardTrendRequest : Type := mkTrendRequest { scope : TrendScope; range : TrendRange; max_points : N }.

Record TrendPoint : Type := mkPoint {
  timestamp_ms : N; cpu_avg_milli_percent : N; cpu_peak_milli_percent : N; rss_avg_kib : N; rss_peak_kib : N; read_bytes : N;
  write_bytes : N; process_count_peak : N; p_session_count : N; p_runtime_count : N; p_active_writer_count : N;
  p_readonly_client_count : N }.

Record DashboardTrendResponse : Type := mkTrend { t_sampled_at_ms : N; t_completeness : Completeness; points : list TrendPoint }.

(** ** wire.rs *)

Definition encode_completeness (value : Completeness) : N :=
  match value with Complete => 0 | Partial => 1 | Stale => 2 | Unavailable => 3 end.
Definition decode_completeness (value : N) : option Completeness :=
  match value with 0 => Some Complete | 1 => Some Partial | 2 => Some Stale | 3 => Some Unavailable | _ => None end.
Definition encode_collection_status (value : CollectionStatus) : N :=
  match value with CollectionComplete => 0 | CollectionPartial => 1 | CollectionUnavailable => 2 end.
Definition decode_collection_status (value : N) : option CollectionStatus :=
  match value with 0 => Some CollectionComplete | 1 => Some CollectionPartial | 2 => Some CollectionUnavailable | _ => None end.

Definition put_u8 (value : N) : bytes := [byte_of value].

(** A decoder that reads with [p] and calls [finish]. *)
Definition finished {A} (p : C A) (payload : bytes) : option A :=
  '(a, offset) ← p payload 0; if offset =? lenN payload then Some a else None.

(** ** codec.rs *)

Definition SUMMARY_REQUEST_SIZE : N := 6.
Definition TREND_REQUEST_SIZE : N := 8.
Definition NO_VALUE : N := u32_max.

Definition summary_request_ok (r : DashboardSummaryRequest) : bool :=
  negb (cursor r =? NO_VALUE) && (0 <? limit r) && (limit r <=? MAX_SUMMARY_PAGE).

Definition encode_summary_request (r : DashboardSummaryRequest) : bytes :=
  if (cursor r =? NO_VALUE) || (limit r =? 0) || (MAX_SUMMARY_PAGE <? limit r) then []
  else u32_be (cursor r) ++ u16_be (limit r).

Definition decode_summary_request (payload : bytes) : option DashboardSummaryRequest :=
  if negb (lenN payload =? SUMMARY_REQUEST_SIZE) then None
  else
    r ← Cursor.run (cursor ← u32; limit ← u16; mret (mkSummaryRequest cursor limit)) payload;
    if summary_request_ok r then Some r else None.

Definition encode_range (r : TrendRange) : N := match r with FifteenMinutes => 0 | Hour => 1 | Day => 2 end.
Definition decode_range (value : N) : option TrendRange :=
  match value with 0 => Some FifteenMinutes | 1 => Some Hour | 2 => Some Day | _ => None end.

Definition encode_trend_request (r : DashboardTrendRequest) : bytes :=
  if (max_points r =? 0) || (MAX_TREND_POINTS <? max_points r) then []
  else
    match scope r with
    | ScopeSession 0 => []
    | ScopeDaemon => put_u8 0 ++ u32_be 0 ++ put_u8 (encode_range (range r)) ++ u16_be (max_points r)
    | ScopeSession id => put_u8 1 ++ u32_be id ++ put_u8 (encode_range (range r)) ++ u16_be (max_points r)
    end.

Definition decode_scope (tag id : N) : option TrendScope :=
  match tag with
  | 0 => if id =? 0 then Some ScopeDaemon else None
  | 1 => if 0 <? id then Some (ScopeSession id) else None
  | _ => None
  end.

Definition decode_trend_request (payload : bytes) : option DashboardTrendRequest :=
  if negb (lenN payload =? TREND_REQUEST_SIZE) then None
  else
    Cursor.run (
      tag ← u8; id ← u32; scope ← lift (decode_scope tag id);
      code ← u8; range ← lift (decode_range code);
      max_points ← u16;
      lift (if (0 <? max_points) && (max_points <=? MAX_TREND_POINTS) then Some (mkTrendRequest scope range max_points) else None))
    payload.

Definition encode_daemon (d : DaemonMetrics) : bytes :=
  u32_be (pid d) ++ put_u8 (ClientMessages.of_bool (d_rates_available d)) ++ u32_be (d_cpu_milli_percent d) ++
  u64_be (d_rss_kib d) ++ u64_be (d_read_bytes_per_sec d) ++ u64_be (d_write_bytes_per_sec d) ++ u32_be (session_count d) ++
  u32_be (runtime_count d) ++ u32_be (active_writer_count d) ++ u32_be (readonly_client_count d).

Definition decode_bool (value : N) : option bool := match value with 0 => Some false | 1 => Some true | _ => None end.

Definition decode_daemon : C DaemonMetrics :=
  pid ← u32; flag ← u8; rates ← lift (decode_bool flag); cpu ← u32; rss ← u64; rd ← u64; wr ← u64;
  n1 ← u32; n2 ← u32; n3 ← u32; n4 ← u32;
  mret (mkDaemonMetrics pid rates cpu rss rd wr n1 n2 n3 n4).

Definition encode_session (s : SessionMetrics) : bytes :=
  u32_be (session_id s) ++ u32_be (process_count s) ++ put_u8 (ClientMessages.of_bool (rates_available s)) ++
  u32_be (cpu_milli_percent s) ++ u64_be (rss_kib s) ++ u64_be (read_bytes_per_sec s) ++ u64_be (write_bytes_per_sec s) ++
  u32_be (default 0 (foreground_pid s)) ++ put_u8 (ClientMessages.of_bool (writer_active s)) ++
  put_u8 (encode_collection_status (collection_status s)).

Definition decode_session : C SessionMetrics :=
  id ← u32; _ ← lift (if id =? 0 then None else Some tt);
  processes ← u32; flag ← u8; rates ← lift (decode_bool flag); cpu ← u32; rss ← u64; rd ← u64; wr ← u64;
  fg ← u32; active ← u8; writer ← lift (decode_bool active); code ← u8; status ← lift (decode_collection_status code);
  mret (mkSessionMetrics id processes rates cpu rss rd wr (if fg =? 0 then None else Some fg) writer status).

Definition encode_summary_response (r : DashboardSummaryResponse) : bytes :=
  if (MAX_SUMMARY_PAGE <? lenN (sessions r)) || bool_decide (next_cursor r = Some NO_VALUE) ||
     existsb (fun s => (session_id s =? 0) || bool_decide (foreground_pid s = Some 0)) (sessions r)
  then []
  else
    u64_be (sampled_at_ms r) ++ put_u8 (encode_completeness (completeness r)) ++ u32_be (default NO_VALUE (next_cursor r)) ++
    encode_daemon (daemon r) ++ u16_be (as_u16 (lenN (sessions r))) ++ concat (map encode_session (sessions r)).

Definition decode_summary_response (payload : bytes) : option DashboardSummaryResponse :=
  finished (
    sampled ← u64; code ← u8; completeness ← lift (decode_completeness code);
    next ← u32; daemon ← decode_daemon; count ← u16;
    _ ← lift (if MAX_SUMMARY_PAGE <? count then None else Some tt);
    sessions ← times (N.to_nat count) decode_session;
    mret (mkSummary sampled completeness daemon sessions (if next =? NO_VALUE then None else Some next))) payload.

Definition encode_trend_point (p : TrendPoint) : bytes :=
  u64_be (timestamp_ms p) ++ u32_be (cpu_avg_milli_percent p) ++ u32_be (cpu_peak_milli_percent p) ++ u64_be (rss_avg_kib p) ++
  u64_be (rss_peak_kib p) ++ u64_be (read_bytes p) ++ u64_be (write_bytes p) ++ u32_be (process_count_peak p) ++
  u32_be (p_session_count p) ++ u32_be (p_runtime_count p) ++ u32_be (p_active_writer_count p) ++ u32_be (p_readonly_client_count p).

Definition decode_trend_point : C TrendPoint :=
  at_ ← u64; avg ← u32; peak ← u32; rss ← u64; rss_peak ← u64; rd ← u64; wr ← u64;
  n1 ← u32; n2 ← u32; n3 ← u32; n4 ← u32; n5 ← u32;
  mret (mkPoint at_ avg peak rss rss_peak rd wr n1 n2 n3 n4 n5).

Definition encode_trend_response (r : DashboardTrendResponse) : bytes :=
  if MAX_TREND_POINTS <? lenN (points r) then []
  else
    u64_be (t_sampled_at_ms r) ++ put_u8 (encode_completeness (t_completeness r)) ++ u16_be (as_u16 (lenN (points r))) ++
    concat (map encode_trend_point (points r)).

Definition decode_trend_response (payload : bytes) : option DashboardTrendResponse :=
  finished (
    sampled ← u64; code ← u8; completeness ← lift (decode_completeness code); count ← u16;
    _ ← lift (if MAX_TREND_POINTS <? count then None else Some tt);
    points ← times (N.to_nat count) decode_trend_point;
    mret (mkTrend sampled completeness points)) payload.

(** ** Round trips *)

(** The values are of their types. *)
Definition daemon_ok (d : DaemonMetrics) : Prop :=
  is_u32 (pid d) /\ is_u32 (d_cpu_milli_percent d) /\ is_u64 (d_rss_kib d) /\ is_u64 (d_read_bytes_per_sec d) /\
  is_u64 (d_write_bytes_per_sec d) /\ is_u32 (session_count d) /\ is_u32 (runtime_count d) /\ is_u32 (active_writer_count d) /\
  is_u32 (readonly_client_count d).
Definition session_ok (s : SessionMetrics) : Prop :=
  is_u32 (session_id s) /\ is_u32 (process_count s) /\ is_u32 (cpu_milli_percent s) /\ is_u64 (rss_kib s) /\
  is_u64 (read_bytes_per_sec s) /\ is_u64 (write_bytes_per_sec s) /\ is_u32 (default 0 (foreground_pid s)).
Definition point_ok (p : TrendPoint) : Prop :=
  is_u64 (timestamp_ms p) /\ is_u32 (cpu_avg_milli_percent p) /\ is_u32 (cpu_peak_milli_percent p) /\ is_u64 (rss_avg_kib p) /\
  is_u64 (rss_peak_kib p) /\ is_u64 (read_bytes p) /\ is_u64 (write_bytes p) /\ is_u32 (process_count_peak p) /\
  is_u32 (p_session_count p) /\ is_u32 (p_runtime_count p) /\ is_u32 (p_active_writer_count p) /\ is_u32 (p_readonly_client_count p).

Lemma finished_reads {A} (p : C A) bs a : Reads p bs a -> finished p bs = Some a.
Proof.
  intros H. unfold finished. specialize (H [] []). cbn [app] in H. rewrite app_nil_r, lenN_nil in H. rewrite H.
  cbn. by rewrite N.eqb_refl.
Qed.

(** One field after the other. *)
Ltac read_field :=
  lazymatch goal with
  | |- Reads (mret _) _ _ => apply reads_ret
  | |- Reads (lift _ ≫= _) _ _ => eapply reads_skip; [apply reads_lift|]
  | |- Reads (lift _) _ _ => apply reads_lift
  | |- Reads (_ ≫= _) (_ ++ _) _ => eapply reads_bind; [first [apply reads_u8 | apply reads_u16 | apply reads_u32 | apply reads_u64]|]
  | |- Reads (_ ≫= _) _ _ => eapply reads_last; [first [apply reads_u8 | apply reads_u16 | apply reads_u32 | apply reads_u64]|]
  end.

Lemma flag_u8 b : is_u8 (ClientMessages.of_bool b).
Proof. by destruct b. Qed.
Lemma decode_of_bool b : decode_bool (ClientMessages.of_bool b) = Some b.
Proof. by destruct b. Qed.
Lemma completeness_u8 c : is_u8 (encode_completeness c) /\ decode_completeness (encode_completeness c) = Some c.
Proof. by destruct c. Qed.
Lemma status_u8 c : is_u8 (encode_collection_status c) /\ decode_collection_status (encode_collection_status c) = Some c.
Proof. by destruct c. Qed.
Lemma range_u8 r : is_u8 (encode_range r) /\ decode_range (encode_range r) = Some r.
Proof. by destruct r. Qed.

Create HintDb fields.
#[local] Hint Resolve flag_u8 decode_of_bool : fields.
#[local] Hint Extern 1 (is_u8 (encode_completeness _)) => apply completeness_u8 : fields.
#[local] Hint Extern 1 (decode_completeness _ = _) => apply completeness_u8 : fields.
#[local] Hint Extern 1 (is_u8 (encode_collection_status _)) => apply status_u8 : fields.
#[local] Hint Extern 1 (decode_collection_status _ = _) => apply status_u8 : fields.
#[local] Hint Extern 1 (is_u8 (encode_range _)) => apply range_u8 : fields.
#[local] Hint Extern 1 (decode_range _ = _) => apply range_u8 : fields.
Ltac fields := repeat (read_field; eauto with fields); try done.

Lemma reads_daemon d : daemon_ok d -> Reads decode_daemon (encode_daemon d) d.
Proof. intros (? & ? & ? & ? & ? & ? & ? & ? & ?). destruct d. unfold decode_daemon, encode_daemon, put_u8. fields. Qed.

Lemma reads_point p : point_ok p -> Reads decode_trend_point (encode_trend_point p) p.
Proof. intros (? & ? & ? & ? & ? & ? & ? & ? & ? & ? & ? & ?). destruct p. unfold decode_trend_point, encode_trend_point. fields. Qed.

Lemma reads_metrics s : session_ok s -> session_id s <> 0 -> foreground_pid s <> Some 0 -> Reads decode_session (encode_session s) s.
Proof.
  intros (? & ? & ? & ? & ? & ? & ?) Hid Hfg. destruct s as [id n r cpu rss rd wr fg w st]. unfold decode_session, encode_session, put_u8.
  cbn [session_id process_count cpu_milli_percent rss_kib read_bytes_per_sec write_bytes_per_sec foreground_pid rates_available
    writer_active collection_status] in *.
  eapply reads_bind; [by apply reads_u32|]. destruct (N.eqb_spec id 0); [done|].
  assert (Hget : (if default 0 fg =? 0 then None else Some (default 0 fg)) = fg).
  { destruct fg as [p|]; cbn; [|done]. by destruct (N.eqb_spec p 0) as [->|]. }
  fields. rewrite Hget. fields.
Qed.

Definition summary_ok (r : DashboardSummaryResponse) : Prop :=
  is_u64 (sampled_at_ms r) /\ daemon_ok (daemon r) /\ lenN (sessions r) <= MAX_SUMMARY_PAGE /\
  Forall (fun s => session_ok s /\ session_id s <> 0 /\ foreground_pid s <> Some 0) (sessions r) /\
  is_u32 (default 0 (next_cursor r)) /\ next_cursor r <> Some NO_VALUE.
Definition trend_ok (r : DashboardTrendResponse) : Prop :=
  is_u64 (t_sampled_at_ms r) /\ lenN (points r) <= MAX_TREND_POINTS /\ Forall point_ok (points r).

Lemma count_fits n m : n <= m -> m < 2 ^ 16 -> is_u16 (as_u16 n) /\ as_u16 n = n.
Proof. intros Hn Hm. unfold is_u16, as_u16. rewrite N.mod_small by lia. lia. Qed.

Lemma summary_roundtrip r : summary_ok r -> decode_summary_response (encode_summary_response r) = Some r.
Proof.
  intros (H1 & Hd & Hl & Hs & Hc & Hn). unfold encode_summary_response.
  rewrite (proj2 (N.ltb_ge _ _) Hl), bool_decide_false by done. cbn [orb].
  assert (He : existsb (fun s => (session_id s =? 0) || bool_decide (foreground_pid s = Some 0)) (sessions r) = false).
  { apply not_true_iff_false. rewrite existsb_exists. intros (s & Hin & E). rewrite Forall_forall in Hs.
    apply list_elem_of_In, Hs in Hin as (_ & Hid & Hfg). by rewrite (proj2 (N.eqb_neq _ _) Hid), bool_decide_false in E. }
  rewrite He. apply finished_reads. destruct (count_fits _ _ Hl ltac:(done)) as [Hu Ec]. unfold put_u8.
  assert (Hnext : is_u32 (default NO_VALUE (next_cursor r))) by (revert Hc; destruct (next_cursor r); [done|intros _; reflexivity]).
  assert (Hget : (if default NO_VALUE (next_cursor r) =? NO_VALUE then None else Some (default NO_VALUE (next_cursor r))) = next_cursor r).
  { revert Hn. destruct (next_cursor r) as [c|]; intros Hn; [|done]. change (default NO_VALUE (Some c)) with c.
    destruct (N.eqb_spec c NO_VALUE); [exfalso; by subst|done]. }
  eapply reads_bind; [by apply reads_u64|]. eapply reads_bind; [apply reads_u8, completeness_u8|].
  eapply reads_skip; [apply reads_lift, completeness_u8|]. eapply reads_bind; [by apply reads_u32|].
  eapply reads_bind; [by apply reads_daemon|]. eapply reads_bind; [by apply reads_u16|]. rewrite Ec.
  rewrite (proj2 (N.ltb_ge _ _) Hl). eapply reads_skip; [by apply reads_lift|].
  eapply reads_last.
  - apply (reads_times decode_session encode_session id (sessions r)); [unfold lenN; lia|].
    eapply Forall_impl; [exact Hs|]. intros s (? & ? & ?). by apply reads_metrics.
  - rewrite Hget, map_id. destruct r. apply reads_ret.
Qed.

Lemma trend_roundtrip r : trend_ok r -> decode_trend_response (encode_trend_response r) = Some r.
Proof.
  intros (H1 & Hl & Hs). unfold encode_trend_response. rewrite (proj2 (N.ltb_ge _ _) Hl). apply finished_reads.
  destruct (count_fits _ _ Hl ltac:(done)) as [Hu Ec]. unfold put_u8.
  eapply reads_bind; [by apply reads_u64|]. eapply reads_bind; [apply reads_u8, completeness_u8|].
  eapply reads_skip; [apply reads_lift, completeness_u8|]. eapply reads_bind; [by apply reads_u16|]. rewrite Ec.
  rewrite (proj2 (N.ltb_ge _ _) Hl). eapply reads_skip; [by apply reads_lift|].
  eapply reads_last.
  - apply (reads_times decode_trend_point encode_trend_point id (points r)); [unfold lenN; lia|].
    eapply Forall_impl; [exact Hs|]. intros p Hp. by apply reads_point.
  - rewrite map_id. destruct r. apply reads_ret.
Qed.

Lemma summary_request_roundtrip r : is_u32 (cursor r) -> summary_request_ok r = true ->
  decode_summary_request (encode_summary_request r) = Some r.
Proof.
  intros Hc Hok. pose proof Hok as Hok'. unfold summary_request_ok in Hok'. rewrite !andb_true_iff, negb_true_iff in Hok'.
  destruct Hok' as [[E1 E2%N.ltb_lt] E3%N.leb_le]. unfold encode_summary_request.
  rewrite E1, (proj2 (N.eqb_neq (limit r) 0)), (proj2 (N.ltb_ge MAX_SUMMARY_PAGE (limit r))) by lia. cbn [orb].
  unfold decode_summary_request. rewrite lenN_app, lenN_u32_be, lenN_u16_be. cbn [N.eqb N.add negb Pos.eqb Pos.add SUMMARY_REQUEST_SIZE].
  rewrite (Cursor.run_reads_all _ _ r); [cbn; by rewrite Hok|].
  eapply reads_bind; [by apply reads_u32|]. eapply reads_last; [apply reads_u16; unfold is_u16, MAX_SUMMARY_PAGE in *; lia|].
  destruct r. apply reads_ret.
Qed.

Lemma trend_request_roundtrip r : match scope r with ScopeSession id => is_u32 id /\ id <> 0 | ScopeDaemon => True end ->
  0 < max_points r <= MAX_TREND_POINTS -> decode_trend_request (encode_trend_request r) = Some r.
Proof.
  intros Hs [H1 H2]. unfold encode_trend_request.
  rewrite (proj2 (N.eqb_neq (max_points r) 0)), (proj2 (N.ltb_ge MAX_TREND_POINTS (max_points r))) by lia. cbn [orb].
  set (tail := put_u8 (encode_range (range r)) ++ u16_be (max_points r)).
  assert (Hread : forall tag id, is_u8 tag -> is_u32 id -> decode_scope tag id = Some (scope r) ->
    decode_trend_request (put_u8 tag ++ u32_be id ++ tail) = Some r).
  { intros tag id Ht Hid Hd. unfold decode_trend_request, tail. rewrite !lenN_app, lenN_u32_be, lenN_u16_be.
    change (lenN (put_u8 tag)) with 1. change (lenN (put_u8 (encode_range (range r)))) with 1.
    cbn [N.eqb N.add negb Pos.eqb Pos.add TREND_REQUEST_SIZE].
    apply Cursor.run_reads_all. unfold put_u8.
    eapply reads_bind; [by apply reads_u8|]. eapply reads_bind; [by apply reads_u32|].
    eapply reads_skip; [by apply reads_lift|]. eapply reads_bind; [apply reads_u8, range_u8|].
    eapply reads_skip; [apply reads_lift, range_u8|].
    eapply reads_last; [apply reads_u16; unfold is_u16, MAX_TREND_POINTS in *; lia|].
    rewrite (proj2 (N.ltb_lt _ _) H1), (proj2 (N.leb_le _ _) H2). destruct r. by apply reads_lift. }
  destruct (scope r) as [|id] eqn:E; [by apply Hread|]. destruct Hs as [Hid Hne].
  assert (Hd : decode_scope 1 id = Some (ScopeSession id)).
  { unfold decode_scope. destruct (N.ltb_spec 0 id); [done|lia]. }
  destruct id as [|p]; [done|]. by apply Hread.
Qed.

(** ** Sizes *)

Lemma lenN_concat_map {A} (f : A -> bytes) n l : (forall x, lenN (f x) = n) -> lenN (concat (map f l)) = n * lenN l.
Proof. intros Hf. induction l as [|x l IH]; [cbn; by rewrite N.mul_0_r|]. cbn [map concat]. rewrite lenN_app, Hf, IH, lenN_cons. lia. Qed.

Lemma lenN_session s : lenN (encode_session s) = 43.
Proof. unfold encode_session. rewrite !lenN_app, !lenN_u32_be, !lenN_u64_be. done. Qed.
Lemma lenN_daemon d : lenN (encode_daemon d) = 49.
Proof. unfold encode_daemon. rewrite !lenN_app, !lenN_u32_be, !lenN_u64_be. done. Qed.
Lemma lenN_point p : lenN (encode_trend_point p) = 68.
Proof. unfold encode_trend_point. rewrite !lenN_app, !lenN_u32_be, !lenN_u64_be. done. Qed.

(** Every dashboard message that satisfies the limits of its kind, with
    fields of their width, is read back as it was written; and the encodings
    of answers, whatever their contents, fit in a control frame. *)
Theorem dashboard_codecs :
  (forall r, is_u32 (cursor r) -> summary_request_ok r = true -> decode_summary_request (encode_summary_request r) = Some r) /\
  (forall r, match scope r with ScopeSession id => is_u32 id /\ id <> 0 | ScopeDaemon => True end ->
    0 < max_points r <= MAX_TREND_POINTS -> decode_trend_request (encode_trend_request r) = Some r) /\
  (forall r, summary_ok r -> decode_summary_response (encode_summary_response r) = Some r) /\
  (forall r, trend_ok r -> decode_trend_response (encode_trend_response r) = Some r) /\
  (forall r, lenN (encode_summary_response r) <= 5568 <= ClientFrame.MAX_CONTROL_FRAME) /\
  (forall r, lenN (encode_trend_response r) <= 16331 <= ClientFrame.MAX_CONTROL_FRAME).
Proof.
  split_and!; [apply summary_request_roundtrip|apply trend_request_roundtrip|apply summary_roundtrip|apply trend_roundtrip|intros r..].
  - split; [|done]. unfold encode_summary_response. destruct (N.ltb_spec MAX_SUMMARY_PAGE (lenN (sessions r))) as [|Hl]; cbn [orb]; [done|].
    destruct (_ || _); [done|]. rewrite !lenN_app, lenN_daemon, (lenN_concat_map _ 43), lenN_u64_be, lenN_u32_be, lenN_u16_be
      by apply lenN_session. change (lenN (put_u8 (encode_completeness (completeness r)))) with 1. unfold MAX_SUMMARY_PAGE in Hl. lia.
  - split; [|done]. unfold encode_trend_response. destruct (N.ltb_spec MAX_TREND_POINTS (lenN (points r))) as [|Hl]; [done|].
    rewrite !lenN_app, (lenN_concat_map _ 68), lenN_u64_be, lenN_u16_be by apply lenN_point.
    change (lenN (put_u8 (encode_completeness (t_completeness r)))) with 1. unfold MAX_TREND_POINTS in Hl. lia.
Qed.
End DashboardWire.
