(* ===== verification/Dashboard.v ===== *)
(** * Dashboard: the samples of the daemon's dashboard.

    Models [crates/persistd/src/dashboard/model.rs] (rates from two samples),
    [aggregate.rs] (points of a trend from the samples of a window) and
    [history.rs] (the samples kept, within bounds on time, number and memory).
    Sizes of the Rust types are parameters of the history. *)
From S2P Require Import Prelude DashboardWire.
From stdpp Require Import sorting.
From Stdlib Require Import Lia.
Import DashboardWire(Completeness, Complete, Partial, Stale, Unavailable, CollectionStatus, CollectionComplete,
  DaemonMetrics, mkDaemonMetrics, SessionMetrics, mkSessionMetrics, TrendScope, ScopeDaemon, ScopeSession, TrendPoint, mkPoint,
  MAX_TREND_POINTS).
#[local] Existing Instances DashboardWire.CollectionStatus_eq_dec DashboardWire.Completeness_eq_dec.
Local Open Scope N_scope.

(** ** Sums and maxima over lists *)

Section sums.
Context {A : Type} (g : A -> N).

Definition sumN (l : list A) : N := foldr (fun x n => g x + n) 0 l.
Definition maxN (l : list A) : N := foldr (fun x n => N.max (g x) n) 0 l.

Lemma sumN_cons x l : sumN (x :: l) = g x + sumN l.
Proof. done. Qed.
Lemma maxN_cons x l : maxN (x :: l) = N.max (g x) (maxN l).
Proof. done. Qed.

Lemma sumN_elem l i x : l !! i = Some x -> g x <= sumN l.
Proof.
  revert i. induction l as [|y l IH]; intros [|i]; [done..|intros [= ->]|cbn [lookup list_lookup]; intros Hi%IH]; rewrite sumN_cons; lia.
Qed.
Lemma maxN_elem l i x : l !! i = Some x -> g x <= maxN l.
Proof.
  revert i. induction l as [|y l IH]; intros [|i]; [done..|intros [= ->]|cbn [lookup list_lookup]; intros Hi%IH]; rewrite maxN_cons; lia.
Qed.

Lemma sumN_alter f l i x : l !! i = Some x -> sumN (alter f i l) + g x = sumN l + g (f x).
Proof.
  revert i. induction l as [|y l IH]; intros [|i]; [done..|intros [= ->]|cbn [lookup list_lookup]; intros Hi%IH].
  - change (alter f 0%nat (x :: l)) with (f x :: l). rewrite !sumN_cons. lia.
  - change (alter f (S i) (y :: l)) with (y :: alter f i l). rewrite !sumN_cons. lia.
Qed.
Lemma maxN_alter f l i x : l !! i = Some x -> g x <= g (f x) -> maxN (alter f i l) = N.max (maxN l) (g (f x)).
Proof.
  intros Hi Hg. revert i Hi. induction l as [|y l IH]; intros [|i]; [done..|intros [= ->]|cbn [lookup list_lookup]; intros Hi%IH].
  - change (alter f 0%nat (x :: l)) with (f x :: l). rewrite !maxN_cons. lia.
  - change (alter f (S i) (y :: l)) with (y :: alter f i l). rewrite !maxN_cons. lia.
Qed.
End sums.
#[global] Arguments sumN : simpl never.
#[global] Arguments maxN : simpl never.

(** ** Rates *)

Module Model.

Definition u128_max : N := 2 ^ 128 - 1.
Definition saturating_mul_u128 (a b : N) : N := N.min (a * b) u128_max.
Definition checked_sub (a b : N) : option N := if b <=? a then Some (a - b) else None.

Record RawCounters : Type := mkCounters {
  user_ticks : N; system_ticks : N; rss_kib : N; read_bytes : N; write_bytes : N; process_count : N }.
Record RawDaemonSample : Type := mkRawDaemon {
  pid : N; counters : RawCounters; session_count : N; runtime_count : N; active_writer_count : N; readonly_client_count : N }.
Record RawSessionSample : Type := mkRawSession {
  session_id : N; session_counters : RawCounters; foreground_pid : option N; writer_active : bool;
  collection_status : CollectionStatus }.
Record RawSample : Type := mkRaw {
  raw_sampled_at_ms : N; raw_monotonic_ms : N; clock_ticks_per_second : N; raw_completeness : Completeness;
  raw_daemon : RawDaemonSample; raw_sessions : list RawSessionSample }.

Record DerivedDaemon : Type := mkDerivedDaemon {
  daemon_metrics : DaemonMetrics; daemon_process_count : N; daemon_read_delta : N; daemon_write_delta : N }.
Record DerivedSession : Type := mkDerivedSession {
  session_metrics : SessionMetrics; session_read_delta : N; session_write_delta : N }.
Record DerivedSample : Type := mkDerived {
  sampled_at_ms : N; monotonic_ms : N; completeness : Completeness; daemon : DerivedDaemon; sessions : list DerivedSession }.

Definition data_age_ms (s : DerivedSample) (now_ms : N) : N := now_ms - sampled_at_ms s.

Record Rates : Type := mkRates {
  available : bool; cpu_milli_percent : N; read_bytes_per_sec : N; write_bytes_per_sec : N; read_delta : N; write_delta : N }.
Definition no_rates : Rates := mkRates false 0 0 0 0 0.

Definition bytes_per_second (bytes elapsed_ms : N) : N := N.min (saturating_mul_u128 bytes 1000 / elapsed_ms) u64_max.

Definition calculate_rates (previous current : RawCounters) (elapsed_ms ticks_per_second : N) : option Rates :=
  if (elapsed_ms =? 0) || (ticks_per_second =? 0) then None
  else
    user ← checked_sub (user_ticks current) (user_ticks previous);
    system ← checked_sub (system_ticks current) (system_ticks previous);
    rd ← checked_sub (read_bytes current) (read_bytes previous);
    wr ← checked_sub (write_bytes current) (write_bytes previous);
    let cpu := saturating_mul_u128 (saturating_mul_u128 (user + system) 100000) 1000 / (ticks_per_second * elapsed_ms) in
    Some (mkRates true (N.min cpu u32_max) (bytes_per_second rd elapsed_ms) (bytes_per_second wr elapsed_ms) rd wr).

Definition derived_daemon (raw : RawDaemonSample) (rates : Rates) : DerivedDaemon :=
  mkDerivedDaemon
    (mkDaemonMetrics (pid raw) (available rates) (cpu_milli_percent rates) (rss_kib (counters raw)) (read_bytes_per_sec rates)
      (write_bytes_per_sec rates) (session_count raw) (runtime_count raw) (active_writer_count raw) (readonly_client_count raw))
    (process_count (counters raw)) (read_delta rates) (write_delta rates).

Definition derived_session (raw : RawSessionSample) (rates : Rates) : DerivedSession :=
  mkDerivedSession
    (mkSessionMetrics (session_id raw) (process_count (session_counters raw)) (available rates) (cpu_milli_percent rates)
      (rss_kib (session_counters raw)) (read_bytes_per_sec rates) (write_bytes_per_sec rates) (foreground_pid raw)
      (writer_active raw) (collection_status raw))
    (read_delta rates) (write_delta rates).

(** [collect] into a [HashMap]: the last of several entries stays. *)
Definition previous_sessions (previous : option RawSample) : gmap N RawCounters :=
  match previous with
  | Some sample => list_to_map (rev (map (fun s => (session_id s, session_counters s)) (raw_sessions sample)))
  | None => ∅
  end.

Definition derive_sample (previous : option RawSample) (current : RawSample) : DerivedSample :=
  let elapsed := e ← (p ← previous; checked_sub (raw_monotonic_ms current) (raw_monotonic_ms p)); if 0 <? e then Some e else None in
  let ticks := clock_ticks_per_second current in
  let daemon_rates := p ← previous; e ← elapsed; calculate_rates (counters (raw_daemon p)) (counters (raw_daemon current)) e ticks in
  let session_rates s := prior ← previous_sessions previous !! session_id s; e ← elapsed; calculate_rates prior (session_counters s) e ticks in
  mkDerived (raw_sampled_at_ms current) (raw_monotonic_ms current) (raw_completeness current)
    (derived_daemon (raw_daemon current) (default no_rates daemon_rates))
    (map (fun s => derived_session s (default no_rates (session_rates s))) (raw_sessions current)).
End Model.

(** ** Trends *)

Module Aggregate.
Import Model(DerivedSample, DerivedSession, sampled_at_ms, monotonic_ms, completeness, daemon, sessions).

Record TrendSeries : Type := mkSeries { series_completeness : Completeness; points : list TrendPoint }.
Definition unavailable : TrendSeries := mkSeries Unavailable [].

Record Metric : Type := mkMetric {
  complete : bool; rates_available : bool; cpu_milli_percent : N; rss_kib : N; read_bytes_delta : N; write_bytes_delta : N;
  process_count : N; session_count : N; runtime_count : N; active_writer_count : N; readonly_client_count : N }.

Definition session_metric (l : list DerivedSession) (id : N) : option Metric :=
  match List.find (fun s => DashboardWire.session_id (Model.session_metrics s) =? id) l with
  | Some s =>
      let m := Model.session_metrics s in
      Some (mkMetric (bool_decide (DashboardWire.collection_status m = CollectionComplete)) (DashboardWire.rates_available m)
        (DashboardWire.cpu_milli_percent m) (DashboardWire.rss_kib m) (Model.session_read_delta s) (Model.session_write_delta s)
        (DashboardWire.process_count m) 0 0 0 0)
  | None => None
  end.

Definition metric_for (sample : DerivedSample) (scope : TrendScope) : option Metric :=
  match scope with
  | ScopeDaemon =>
      let d := daemon sample in let m := Model.daemon_metrics d in
      Some (mkMetric true (DashboardWire.d_rates_available m) (DashboardWire.d_cpu_milli_percent m) (DashboardWire.d_rss_kib m)
        (Model.daemon_read_delta d) (Model.daemon_write_delta d) (Model.daemon_process_count d) (DashboardWire.session_count m)
        (DashboardWire.runtime_count m) (DashboardWire.active_writer_count m) (DashboardWire.readonly_client_count m))
  | ScopeSession id => session_metric (sessions sample) id
  end.

(** Sums are of type [u128]; only those of bytes saturate in the code. *)
Record Accumulator : Type := mkAcc {
  timestamp_ms : N; cpu_sum : N; cpu_count : N; cpu_peak : N; rss_sum : N; rss_count : N; rss_peak : N; read_bytes : N;
  write_bytes : N; process_count_peak : N; a_session_count : N; a_runtime_count : N; a_active_writer_count : N;
  a_readonly_client_count : N }.
Definition empty_acc : Accumulator := mkAcc 0 0 0 0 0 0 0 0 0 0 0 0 0 0.

Definition saturating_add_u128 (a b : N) : N := N.min (a + b) Model.u128_max.

Definition add (at_ : N) (m : Metric) (a : Accumulator) : Accumulator :=
  let r := rates_available m in
  mkAcc at_
    (if r then cpu_sum a + cpu_milli_percent m else cpu_sum a) (if r then cpu_count a + 1 else cpu_count a)
    (if r then N.max (cpu_peak a) (cpu_milli_percent m) else cpu_peak a)
    (rss_sum a + rss_kib m) (rss_count a + 1) (N.max (rss_peak a) (rss_kib m))
    (if r then saturating_add_u128 (read_bytes a) (read_bytes_delta m) else read_bytes a)
    (if r then saturating_add_u128 (write_bytes a) (write_bytes_delta m) else write_bytes a)
    (N.max (process_count_peak a) (process_count m)) (N.max (a_session_count a) (session_count m))
    (N.max (a_runtime_count a) (runtime_count m)) (N.max (a_active_writer_count a) (active_writer_count m))
    (N.max (a_readonly_client_count a) (readonly_client_count m)).

Definition saturating_u64 (value : N) : N := N.min value u64_max.
Definition average_u32 (sum count : N) : N := if count =? 0 then 0 else N.min (sum / count) u32_max.
Definition average_u64 (sum count : N) : N := if count =? 0 then 0 else saturating_u64 (sum / count).

Definition finish (a : Accumulator) : TrendPoint :=
  mkPoint (timestamp_ms a) (average_u32 (cpu_sum a) (cpu_count a)) (cpu_peak a) (average_u64 (rss_sum a) (rss_count a))
    (rss_peak a) (saturating_u64 (read_bytes a)) (saturating_u64 (write_bytes a)) (process_count_peak a) (a_session_count a)
    (a_runtime_count a) (a_active_writer_count a) (a_readonly_client_count a).

Section aggregate.
Context (timestamp : DerivedSample -> N) (scope : TrendScope) (start_ms end_ms max_points : N).

(** [div_ceil], for a number of points that is not zero. *)
Definition width : N := N.max ((end_ms - start_ms + (max_points - 1)) / max_points) 1.

Definition in_window (s : DerivedSample) : bool := (start_ms <? timestamp s) && (timestamp s <=? end_ms).
Definition index_of (s : DerivedSample) : N := N.min ((timestamp s - start_ms - 1) / width) (max_points - 1).

(** The body of the loop. *)
Definition add_sample (st : list (option Accumulator) * Completeness) (s : DerivedSample) : list (option Accumulator) * Completeness :=
  let '(buckets, c) := st in
  if in_window s then
    match metric_for s scope with
    | None => st
    | Some m =>
        let c := if negb (bool_decide (completeness s = Complete)) || negb (complete m) || negb (rates_available m) then Partial else c in
        (alter (fun b => Some (add (sampled_at_ms s) m (default empty_acc b))) (N.to_nat (index_of s)) buckets, c)
    end
  else st.

Definition aggregate_by (frames : list DerivedSample) : TrendSeries :=
  let '(buckets, c) := fold_left add_sample frames (replicate (N.to_nat max_points) None, Complete) in
  let points := map finish (omap id buckets) in
  mkSeries (match points with [] => Unavailable | _ => c end) points.
End aggregate.

Definition aggregate (frames : list DerivedSample) (scope : TrendScope) (start_ms end_ms max_points : N) : TrendSeries :=
  aggregate_by monotonic_ms scope start_ms end_ms max_points frames.
Definition aggregate_wall (frames : list DerivedSample) (scope : TrendScope) (start_ms end_ms max_points : N) : TrendSeries :=
  aggregate_by sampled_at_ms scope start_ms end_ms max_points frames.

(** ** Nothing is lost and nothing counted twice *)

Section totals.
Context (timestamp : DerivedSample -> N) (scope : TrendScope) (start_ms end_ms max_points : N) (max_points_pos : 0 < max_points).
Abbreviation step := (add_sample timestamp scope start_ms end_ms max_points).
Abbreviation index := (index_of timestamp start_ms end_ms max_points).

(** What the samples of the window say about the scope. *)
Definition metric_in (s : DerivedSample) : option Metric := if in_window timestamp start_ms end_ms s then metric_for s scope else None.
Definition window (frames : list DerivedSample) : list Metric := omap metric_in frames.

Lemma index_bound s : index s < max_points.
Proof. unfold index_of. pose proof (N.le_min_r ((timestamp s - start_ms - 1) / width start_ms end_ms max_points) (max_points - 1)) as Hm. revert Hm. generalize (N.min ((timestamp s - start_ms - 1) / width start_ms end_ms max_points) (max_points - 1)). lia. Qed.

(** A quantity of the accumulators, summed over the buckets that are used. *)
Definition of_bucket (f : Accumulator -> N) (b : option Accumulator) : N := match b with Some a => f a | None => 0 end.

Lemma step_length st s : length (step st s).1 = length st.1.
Proof.
  destruct st as [buckets c]. unfold add_sample. destruct (in_window _ _ _ s), (metric_for s scope); [|done..]. apply length_alter.
Qed.

(** One sample, from a state with the right number of buckets. *)
Lemma step_cases buckets c s : length buckets = N.to_nat max_points ->
  match metric_in s with
  | None => step (buckets, c) s = (buckets, c)
  | Some m => exists b c', buckets !! N.to_nat (index s) = Some b /\
      step (buckets, c) s = (alter (fun b => Some (add (sampled_at_ms s) m (default empty_acc b))) (N.to_nat (index s)) buckets, c')
  end.
Proof.
  intros Hl. unfold metric_in, add_sample. destruct (in_window _ _ _ s); [|done]. destruct (metric_for s scope) as [m|]; [|done].
  destruct (lookup_lt_is_Some_2 buckets (N.to_nat (index s))) as [b Hb]; [pose proof (index_bound s); lia|]. by eexists b, _.
Qed.

Definition quantity (f : Metric -> N) (m : Metric) : N := if rates_available m then f m else 0.

Lemma window_cons s frames : window (s :: frames) = match metric_in s with Some m => m :: window frames | None => window frames end.
Proof. done. Qed.

(** A saturating sum. *)
Lemma total_sum (fa : Accumulator -> N) (fm : Metric -> N) frames : forall st,
  fa empty_acc = 0 ->
  (forall t m a, fa (add t m a) = if rates_available m then saturating_add_u128 (fa a) (fm m) else fa a) ->
  length st.1 = N.to_nat max_points ->
  sumN (of_bucket fa) st.1 + sumN (quantity fm) (window frames) <= u64_max ->
  sumN (of_bucket fa) (fold_left step frames st).1 = sumN (of_bucket fa) st.1 + sumN (quantity fm) (window frames).
Proof.
  intros st H0 Hadd. revert st. induction frames as [|s frames IH]; intros [buckets c] Hl Hle; cbn [fold_left fst] in *.
  { change (window []) with (@nil Metric). change (sumN (quantity fm) []) with 0. lia. }
  pose proof (step_cases buckets c s Hl) as Hs. rewrite window_cons in *. destruct (metric_in s) as [m|]; [|rewrite Hs; by apply IH].
  destruct Hs as (b & c' & Hb & ->). set (f := fun b => Some (add _ _ _)). rewrite sumN_cons in *.
  pose proof (sumN_alter (of_bucket fa) f buckets _ b Hb) as Ha. pose proof (sumN_elem (of_bucket fa) buckets _ b Hb) as He.
  assert (Hf : of_bucket fa (f b) = of_bucket fa b + quantity fm m).
  { unfold f. cbn [of_bucket]. rewrite Hadd. unfold quantity in *. assert (Hu : u64_max < Model.u128_max) by reflexivity.
    destruct (rates_available m); [unfold saturating_add_u128|];
      (destruct b as [a|]; [change (default empty_acc (Some a)) with a|change (default empty_acc None) with empty_acc; rewrite H0]);
      cbn [of_bucket] in *; lia. }
  rewrite IH; cbn [fst]; [lia|by rewrite length_alter|lia].
Qed.

(** A maximum. *)
Lemma total_max (fa : Accumulator -> N) (fm : Metric -> N) frames : forall st,
  fa empty_acc = 0 -> (forall t m a, fa (add t m a) = N.max (fa a) (fm m)) -> length st.1 = N.to_nat max_points ->
  maxN (of_bucket fa) (fold_left step frames st).1 = N.max (maxN (of_bucket fa) st.1) (maxN fm (window frames)).
Proof.
  intros st H0 Hadd. revert st. induction frames as [|s frames IH]; intros [buckets c] Hl; cbn [fold_left fst] in *.
  { change (window []) with (@nil Metric). change (maxN fm []) with 0. lia. }
  pose proof (step_cases buckets c s Hl) as Hs. rewrite window_cons. destruct (metric_in s) as [m|]; [|rewrite Hs; by apply IH].
  destruct Hs as (b & c' & Hb & ->). rewrite IH; cbn [fst] in *; [|by rewrite length_alter]. rewrite maxN_cons.
  assert (Hf : of_bucket fa (Some (add (sampled_at_ms s) m (default empty_acc b))) = N.max (of_bucket fa b) (fm m)).
  { cbn [of_bucket]. rewrite Hadd. destruct b as [a|]; [done|]. change (default empty_acc None) with empty_acc. rewrite H0. done. }
  pose proof (maxN_elem (of_bucket fa) buckets _ b Hb). rewrite (maxN_alter _ _ _ _ b Hb) by (rewrite Hf; lia). rewrite Hf. lia.
Qed.

Lemma sum_points (fp : TrendPoint -> N) (fa : Accumulator -> N) buckets : (forall a, fp (finish a) = N.min (fa a) u64_max) ->
  sumN (of_bucket fa) buckets <= u64_max -> sumN fp (map finish (omap id buckets)) = sumN (of_bucket fa) buckets.
Proof.
  intros Hf. induction buckets as [|[a|] l IH]; [done| |exact IH].
  change (map finish (omap id (Some a :: l))) with (finish a :: map finish (omap id l)). rewrite !sumN_cons, Hf. cbn [of_bucket].
  intros Hle. rewrite IH by lia. lia.
Qed.
Lemma max_points_of (fp : TrendPoint -> N) (fa : Accumulator -> N) buckets : (forall a, fp (finish a) = fa a) ->
  maxN fp (map finish (omap id buckets)) = maxN (of_bucket fa) buckets.
Proof.
  intros Hf. induction buckets as [|[a|] l IH]; [done| |].
  - change (map finish (omap id (Some a :: l))) with (finish a :: map finish (omap id l)). by rewrite !maxN_cons, Hf, IH.
  - change (map finish (omap id (None :: l))) with (map finish (omap id l)). rewrite maxN_cons, IH. cbn [of_bucket]. lia.
Qed.

Lemma sum_none f n : sumN (of_bucket f) (replicate n None) = 0.
Proof. induction n as [|n IH]; [done|]. cbn [replicate]. by rewrite sumN_cons, IH. Qed.
Lemma max_none f n : maxN (of_bucket f) (replicate n None) = 0.
Proof. induction n as [|n IH]; [done|]. cbn [replicate]. by rewrite maxN_cons, IH. Qed.

Lemma fold_length frames : forall st, length (fold_left step frames st).1 = length st.1.
Proof. induction frames as [|s frames IH]; intros st; cbn [fold_left]; [done|]. by rewrite IH, step_length. Qed.

(** From the empty buckets to the points. *)
Definition buckets_of (frames : list DerivedSample) : list (option Accumulator) :=
  (fold_left step frames (replicate (N.to_nat max_points) None, Complete)).1.
Lemma points_of frames :
  points (aggregate_by timestamp scope start_ms end_ms max_points frames) = map finish (omap id (buckets_of frames)).
Proof. unfold aggregate_by, buckets_of. by destruct (fold_left _ _ _). Qed.
Lemma buckets_length frames : length (buckets_of frames) = N.to_nat max_points.
Proof. unfold buckets_of. rewrite fold_length. apply length_replicate. Qed.

Lemma points_sum (fp : TrendPoint -> N) (fa : Accumulator -> N) (fm : Metric -> N) frames :
  (forall a, fp (finish a) = N.min (fa a) u64_max) -> fa empty_acc = 0 ->
  (forall t m a, fa (add t m a) = if rates_available m then saturating_add_u128 (fa a) (fm m) else fa a) ->
  sumN (quantity fm) (window frames) <= u64_max ->
  sumN fp (points (aggregate_by timestamp scope start_ms end_ms max_points frames)) = sumN (quantity fm) (window frames).
Proof.
  intros Hf H0 Hadd Hle. rewrite points_of.
  assert (Hs : sumN (of_bucket fa) (buckets_of frames) = sumN (quantity fm) (window frames)).
  { unfold buckets_of. rewrite (total_sum fa fm); cbn [fst]; [by rewrite sum_none|done..|apply length_replicate|by rewrite sum_none]. }
  rewrite (sum_points _ fa), Hs; [done|done|by rewrite Hs].
Qed.

(** The points of a trend account for the samples of its window: there are
    at most [max_points]; the bytes read, and the bytes written, over all points
    are those of all samples of the window whose rates are known, each once
    (while the total fits 64 bits); and the highest memory use over the points
    is the highest of the samples. *)
Theorem trend_conserves frames :
  let series := aggregate_by timestamp scope start_ms end_ms max_points frames in
  lenN (points series) <= max_points /\
  (sumN (quantity read_bytes_delta) (window frames) <= u64_max ->
   sumN DashboardWire.read_bytes (points series) = sumN (quantity read_bytes_delta) (window frames)) /\
  (sumN (quantity write_bytes_delta) (window frames) <= u64_max ->
   sumN DashboardWire.write_bytes (points series) = sumN (quantity write_bytes_delta) (window frames)) /\
  maxN DashboardWire.rss_peak_kib (points series) = maxN rss_kib (window frames).
Proof.
  cbn zeta. split_and!.
  - rewrite points_of. unfold lenN. rewrite length_map. pose proof (buckets_length frames) as Hl.
    assert (Ho : forall l : list (option Accumulator), (length (omap id l) <= length l)%nat).
    { induction l as [|[a|] l IH]; cbn in *; lia. }
    specialize (Ho (buckets_of frames)). lia.
  - by apply points_sum with (fa := read_bytes).
  - by apply points_sum with (fa := write_bytes).
  - rewrite points_of, (max_points_of _ rss_peak) by done. unfold buckets_of.
    rewrite (total_max _ rss_kib); [cbn [fst]; rewrite max_none; lia|done..|apply length_replicate].
Qed.
End totals.
End Aggregate.

(** ** The samples kept *)

Module History.
Import Model(DerivedSample, DerivedSession, sampled_at_ms, monotonic_ms, completeness, daemon, sessions).

Definition MEMORY_LIMIT_BYTES : N := 64 * 1024 * 1024.
Definition HISTORY_WINDOW_MS : N := 60 * 60 * 1000.
Definition HISTORY_FRAME_LIMIT : N := 720.

Record BoundedHistory : Type := mkHistory {
  frames : list DerivedSample; memory_bytes : N; base_bytes : N; max_bytes : N; max_age_ms : N; max_frames : N }.

Section sizes.
(** [size_of::<DerivedSample>()], [size_of::<DerivedSession>()] and the memory
    of the structure and its queue. *)
Context (size_sample size_session size_base : N).

Definition sample_bytes (s : DerivedSample) : N := size_sample + lenN (sessions s) * size_session.

(** [None]: the assertion fails. *)
Definition with_limits (max_bytes max_age_ms max_frames : N) : option BoundedHistory :=
  if size_base + size_sample <=? max_bytes
  then Some (mkHistory [] size_base size_base max_bytes max_age_ms (N.max max_frames 1)) else None.
Definition new : option BoundedHistory := with_limits MEMORY_LIMIT_BYTES HISTORY_WINDOW_MS HISTORY_FRAME_LIMIT.

Definition session_le (a b : DerivedSession) : Prop :=
  DashboardWire.session_id (Model.session_metrics a) <= DashboardWire.session_id (Model.session_metrics b).
#[export] Instance session_le_dec : RelDecision session_le.
Proof. intros a b. unfold session_le. apply _. Defined.

Definition limit_sample (h : BoundedHistory) (s : DerivedSample) : DerivedSample :=
  let sorted := merge_sort session_le (sessions s) in
  let max_sessions := (max_bytes h - base_bytes h - size_sample) / size_session in
  if max_sessions <? lenN sorted
  then Model.mkDerived (sampled_at_ms s) (monotonic_ms s) Partial (daemon s) (takeN max_sessions sorted)
  else Model.mkDerived (sampled_at_ms s) (monotonic_ms s) (completeness s) (daemon s) sorted.

Definition with_frames (l : list DerivedSample) (memory : N) (h : BoundedHistory) : BoundedHistory :=
  mkHistory l memory (base_bytes h) (max_bytes h) (max_age_ms h) (max_frames h).

(** The two loops of [push]: each turn removes the oldest sample, so the length
    of the queue is enough fuel. *)
Fixpoint drop_while (full : N -> N -> DerivedSample -> bool) (l : list DerivedSample) (memory : N) : list DerivedSample * N :=
  match l with
  | [] => ([], memory)
  | oldest :: l' => if full (lenN l) memory oldest then drop_while full l' (memory - sample_bytes oldest) else (l, memory)
  end.

Definition push (s : DerivedSample) (h : BoundedHistory) : BoundedHistory :=
  let s := limit_sample h s in
  let size := sample_bytes s in
  let '(l, memory) := drop_while (fun len memory _ => (max_frames h <=? len) || (max_bytes h <? saturating_add_usize memory size))
    (frames h) (memory_bytes h) in
  let '(l, memory) := drop_while (fun _ _ oldest => max_age_ms h <? monotonic_ms s - monotonic_ms oldest)
    (l ++ [s]) (memory + size) in
  with_frames l memory h.

Definition latest (h : BoundedHistory) : option DerivedSample := last (frames h).
Definition oldest_monotonic_ms (h : BoundedHistory) : option N := monotonic_ms <$> head (frames h).

Definition trend (h : BoundedHistory) (scope : TrendScope) (now_ms window_ms max_points : N) : Aggregate.TrendSeries :=
  if (window_ms =? 0) || (max_points =? 0) || (MAX_TREND_POINTS <? max_points) then Aggregate.unavailable
  else Aggregate.aggregate (frames h) scope (now_ms - window_ms) now_ms max_points.

Definition minute_series (h : BoundedHistory) (scope : TrendScope) (start_ms : N) : Aggregate.TrendSeries :=
  Aggregate.aggregate_wall (frames h) scope start_ms (saturating_add_u64 start_ms 60000) 1.
Definition minute (h : BoundedHistory) (scope : TrendScope) (start_ms : N) : option TrendPoint :=
  head (Aggregate.points (minute_series h scope start_ms)).

Definition session_ids_wall (h : BoundedHistory) (start_ms end_ms : N) : list N :=
  merge_sort N.le (elements (list_to_set (flat_map (fun s => map (fun x => DashboardWire.session_id (Model.session_metrics x)) (sessions s))
    (filter (fun s => start_ms < sampled_at_ms s <= end_ms) (frames h))) : gset N)).

(** ** The bounds *)

Section bounds.
Context (session_pos : 0 < size_session).

Definition bytes_of (l : list DerivedSample) : N := sumN sample_bytes l.

Lemma drop_while_spec full l m0 : exists dropped rest, l = dropped ++ rest /\
  drop_while full l (m0 + bytes_of l) = (rest, m0 + bytes_of rest) /\
  (forall s rest', rest = s :: rest' -> full (lenN rest) (m0 + bytes_of rest) s = false) /\
  (forall s l', l = s :: l' -> full (lenN l) (m0 + bytes_of l) s = false -> dropped = []) /\
  (forall l' x, l = l' ++ [x] -> (forall n m, full n m x = false) -> exists kept, l' = dropped ++ kept /\ rest = kept ++ [x]).
Proof.
  induction l as [|s l IH]; [exists [], []; split_and!; try done; by intros [|? l']|]. cbn [drop_while]. destruct (full _ _ s) eqn:E.
  - destruct IH as (dropped & rest & Hl & Hd & Hr & _ & Hx). exists (s :: dropped), rest.
    assert (Hm : m0 + bytes_of (s :: l) - sample_bytes s = m0 + bytes_of l) by (unfold bytes_of; rewrite sumN_cons; lia).
    rewrite Hm. split_and!; [by rewrite Hl|done|done|intros ? ? [= <- <-]; congruence|].
    intros [|s' l'] x; cbn; intros [= -> ->] Hf; [by rewrite Hf in E|]. destruct (Hx l' x) as (kept & -> & ->); [done..|]. by exists kept.
  - exists [], (s :: l). split_and!; [done|done|by intros ? ? [= <- <-]|done|]. intros l' x -> _. by exists l'.
Qed.

(** What every operation keeps: the counter is right and within its limit. *)
Record inv (h : BoundedHistory) : Prop := {
  inv_memory : memory_bytes h = base_bytes h + bytes_of (frames h);
  inv_room : base_bytes h + size_sample <= max_bytes h;
  inv_max : memory_bytes h <= max_bytes h;
  inv_usize : max_bytes h < usize_max;
  inv_frames : lenN (frames h) <= max_frames h;
  inv_one : 1 <= max_frames h }.

(** Two histories with the same limits. *)
Definition same_limits (h h' : BoundedHistory) : Prop :=
  base_bytes h' = base_bytes h /\ max_bytes h' = max_bytes h /\ max_age_ms h' = max_age_ms h /\ max_frames h' = max_frames h.

Lemma limit_same h h' s : same_limits h h' -> limit_sample h' s = limit_sample h s.
Proof. unfold limit_sample. by intros (-> & -> & _). Qed.

Lemma limit_fits h s : inv h -> base_bytes h + sample_bytes (limit_sample h s) <= max_bytes h.
Proof.
  intros Hi. pose proof (inv_room _ Hi) as Hroom. unfold limit_sample, sample_bytes.
  pose proof (N.Div0.mul_div_le (max_bytes h - base_bytes h - size_sample) size_session) as Hd. revert Hd.
  generalize ((max_bytes h - base_bytes h - size_sample) / size_session). intros n Hd.
  destruct (n <? _) eqn:E; cbn [sessions].
  - assert (lenN (takeN n (merge_sort session_le (sessions s))) <= n) by (rewrite lenN_takeN; lia). nia.
  - apply N.ltb_ge in E. nia.
Qed.
Lemma limit_time h s : monotonic_ms (limit_sample h s) = monotonic_ms s.
Proof. unfold limit_sample. by destruct (_ <? _). Qed.

(** One sample: the frames are a suffix of the old ones and the new one. *)
Lemma push_spec h s : inv h -> let s' := limit_sample h s in
  inv (push s h) /\ same_limits h (push s h) /\
  (exists dropped kept, frames h = dropped ++ kept /\ frames (push s h) = kept ++ [s']) /\
  (forall f, head (frames (push s h)) = Some f -> monotonic_ms s - monotonic_ms f <= max_age_ms h) /\
  (lenN (frames h) < max_frames h -> base_bytes h + bytes_of (frames h ++ [s']) <= max_bytes h ->
   (forall f, f ∈ frames h -> monotonic_ms s - monotonic_ms f <= max_age_ms h) -> frames (push s h) = frames h ++ [s']).
Proof.
  intros Hi s'. pose proof Hi as [Hmem Hroom Hmax Hu Hf H1]. pose proof (limit_fits h s Hi) as Hfit. fold s' in Hfit.
  assert (Hb : forall l, bytes_of (l ++ [s']) = bytes_of l + sample_bytes s').
  { unfold bytes_of. intros l. induction l as [|x l IH]; cbn [app]; rewrite !sumN_cons, ?IH; [change (sumN sample_bytes []) with 0|]; lia. }
  unfold push. fold s'. rewrite Hmem.
  set (full1 := fun len memory (_ : DerivedSample) => _). set (full2 := fun (_ _ : N) oldest => _).
  destruct (drop_while_spec full1 (frames h) (base_bytes h)) as (d1 & r1 & Hl1 & -> & Hr1 & Hn1 & _).
  replace (base_bytes h + bytes_of r1 + sample_bytes s') with (base_bytes h + bytes_of (r1 ++ [s'])) by (rewrite Hb; lia).
  destruct (drop_while_spec full2 (r1 ++ [s']) (base_bytes h)) as (d2 & r2 & Hl2 & -> & Hr2 & Hn2 & Hx2).
  destruct (Hx2 r1 s' eq_refl) as (kept & Ek & Er); [intros ? ?; unfold full2; apply N.ltb_ge; lia|].
  clear Hx2. subst r1 r2.
  assert (Hroom1 : lenN (d2 ++ kept) < max_frames h /\ base_bytes h + bytes_of (d2 ++ kept) + sample_bytes s' <= max_bytes h).
  { destruct (d2 ++ kept) as [|x r] eqn:E; [change (bytes_of []) with 0; change (lenN []) with 0; lia|].
    specialize (Hr1 x r eq_refl). unfold full1, saturating_add_usize in Hr1. apply orb_false_iff in Hr1 as [?%N.leb_gt ?%N.ltb_ge]. lia. }
  assert (Happ : forall l l', bytes_of (l ++ l') = bytes_of l + bytes_of l').
  { unfold bytes_of. induction l as [|x l IH]; intros l'; cbn [app]; rewrite ?sumN_cons, ?IH; [change (sumN sample_bytes []) with 0|]; lia. }
  rewrite lenN_app, Happ in Hroom1. unfold with_frames. split_and!.
  - split; cbn; try done; rewrite ?Hb; [lia|]. rewrite lenN_app. change (lenN [s']) with 1. lia.
  - done.
  - exists (d1 ++ d2), kept. cbn. by rewrite Hl1, app_assoc.
  - cbn. intros f Hh. destruct (kept ++ [s']) as [|x r]; [done|]. injection Hh as ->. specialize (Hr2 f r eq_refl).
    unfold full2 in Hr2. apply N.ltb_ge in Hr2. unfold s' in Hr2. by rewrite limit_time in Hr2.
  - intros Hlen Hbytes Hage. cbn. rewrite Hb in Hbytes. assert (d1 = []) as ->.
    { destruct (frames h) as [|x l] eqn:E; [by destruct d1|]. apply (Hn1 x l); [done|].
      unfold full1, saturating_add_usize. apply orb_false_iff. split; [apply N.leb_gt|apply N.ltb_ge]; lia. }
    assert (d2 = []) as ->; [|by rewrite Hl1]. cbn in Hl1. destruct d2 as [|x d2]; [done|]. apply (Hn2 x (d2 ++ kept ++ [s'])).
    + cbn. by rewrite app_assoc.
    + unfold full2. apply N.ltb_ge. unfold s'. rewrite limit_time. apply Hage. rewrite Hl1. apply list_elem_of_here.
Qed.

(** All samples of a run, and what the history makes of them. *)
Definition record (h : BoundedHistory) (samples : list DerivedSample) : BoundedHistory := fold_left (fun h s => push s h) samples h.
Lemma record_snoc h samples s : record h (samples ++ [s]) = push s (record h samples).
Proof. unfold record. by rewrite fold_left_app. Qed.

Lemma record_inv h samples : inv h -> inv (record h samples) /\ same_limits h (record h samples).
Proof.
  intros Hi. induction samples as [|s samples (IHi & IHs)] using rev_ind; [done|]. rewrite record_snoc.
  destruct (push_spec (record h samples) s IHi) as (Hp & Hs & _). split; [done|].
  destruct IHs as (? & ? & ? & ?), Hs as (? & ? & ? & ?). repeat split; congruence.
Qed.

Lemma record_suffix h samples : inv h -> frames h = [] ->
  exists dropped, map (limit_sample h) samples = dropped ++ frames (record h samples).
Proof.
  intros Hi H0. induction samples as [|s samples (dropped & IH)] using rev_ind; [exists []; cbn; by rewrite H0|].
  destruct (record_inv h samples Hi) as (Hir & Hs). rewrite record_snoc, map_app, IH.
  destruct (push_spec _ s Hir) as (_ & _ & (d & kept & Hf & ->) & _). exists (dropped ++ d). rewrite Hf. cbn.
  by rewrite (limit_same _ _ s Hs), <- !app_assoc.
Qed.

Lemma record_last h samples : inv h -> frames h = [] -> last (frames (record h samples)) = last (map (limit_sample h) samples).
Proof.
  intros Hi H0. destruct samples as [|s samples _] using rev_ind; [cbn; by rewrite H0|].
  destruct (record_inv h samples Hi) as (Hir & Hs). rewrite record_snoc, map_app.
  destruct (push_spec _ s Hir) as (_ & _ & (d & kept & _ & ->) & _). cbn [map]. by rewrite !last_snoc, (limit_same _ _ s Hs).
Qed.

Lemma record_all h samples : inv h -> frames h = [] -> lenN samples <= max_frames h ->
  base_bytes h + bytes_of (map (limit_sample h) samples) <= max_bytes h ->
  (forall s t, s ∈ samples -> t ∈ samples -> monotonic_ms t - monotonic_ms s <= max_age_ms h) ->
  frames (record h samples) = map (limit_sample h) samples.
Proof.
  intros Hi H0. induction samples as [|s samples IH] using rev_ind; [done|]. rewrite lenN_app, map_app. cbn [map].
  change (lenN [s]) with 1. intros Hl Hb Ha. assert (Hap : forall l, bytes_of l <= bytes_of (l ++ [limit_sample h s])).
  { unfold bytes_of. induction l as [|x l IHl]; cbn [app]; rewrite ?sumN_cons; [change (sumN sample_bytes []) with 0|]; lia. }
  specialize (Hap (map (limit_sample h) samples)). destruct (record_inv h samples Hi) as (Hir & Hs). pose proof Hs as (Hs1 & Hs2 & Hs3 & Hs4).
  assert (Hf : frames (record h samples) = map (limit_sample h) samples).
  { apply IH; [lia|lia|]. intros x y Hx Hy. apply Ha; set_solver. }
  destruct (push_spec _ s Hir) as (_ & _ & _ & _ & Hp). rewrite (limit_same _ _ s Hs), Hf, Hs1, Hs2, Hs3, Hs4 in Hp.
  rewrite record_snoc. apply Hp; [unfold lenN in *; rewrite length_map; lia|done|].
  intros f Hin. apply list_elem_of_fmap in Hin as (x & -> & Hx). rewrite limit_time. apply Ha; set_solver.
Qed.

(** C39: The history of samples stays within its bounds, whatever is recorded:
    the counter of memory is the memory of the samples kept and never exceeds
    the limit, nor their number theirs; the samples kept are the newest ones, the
    last one always among them; when the clock does not run backwards they are
    all within the age limit of the last; and nothing is dropped before a limit
    is reached. *)
Theorem history_bounded max_b max_age max_f h samples :
  max_b < usize_max -> with_limits max_b max_age max_f = Some h ->
  let h' := record h samples in
  let all := map (limit_sample h) samples in
  memory_bytes h' = size_base + bytes_of (frames h') /\ memory_bytes h' <= max_b /\ lenN (frames h') <= N.max max_f 1 /\
  (exists dropped, all = dropped ++ frames h') /\ last (frames h') = last all /\
  (StronglySorted (fun a b => monotonic_ms a <= monotonic_ms b) samples ->
   forall f newest, f ∈ frames h' -> last samples = Some newest -> monotonic_ms newest - monotonic_ms f <= max_age) /\
  (lenN samples <= max_f -> size_base + bytes_of all <= max_b ->
   (forall s t, s ∈ samples -> t ∈ samples -> monotonic_ms t - monotonic_ms s <= max_age) -> frames h' = all).
Proof.
  intros Hu Hw. unfold with_limits in Hw. destruct (_ <=? max_b) eqn:Eb; [|done]. injection Hw as <-. apply N.leb_le in Eb.
  set (h := mkHistory _ _ _ _ _ _). cbn zeta.
  assert (Hi : inv h). { split; cbn; try lia. change (bytes_of []) with 0. lia. change (lenN []) with 0. lia. }
  destruct (record_inv h samples Hi) as ([Hm _ Hx _ Hf _] & (Hs1 & Hs2 & _ & Hs4)). rewrite Hs1 in Hm. rewrite Hs2 in Hx. rewrite Hs4 in Hf.
  split_and!; [done|done|done|by apply record_suffix|by apply record_last| |].
  - intros Hsort f newest Hin Hn. destruct samples as [|s samples _] using rev_ind; [done|]. rewrite last_snoc in Hn. injection Hn as ->.
    destruct (record_suffix h (samples ++ [newest]) Hi eq_refl) as (dropped & Hd).
    destruct (record_inv h samples Hi) as (Hir & (_ & _ & Ha & _)). rewrite record_snoc in *.
    destruct (push_spec _ newest Hir) as (_ & _ & _ & Hh & _). rewrite Ha in Hh.
    destruct (frames (push newest (record h samples))) as [|o fs] eqn:E; [set_solver|]. specialize (Hh o eq_refl).
    enough (monotonic_ms o <= monotonic_ms f) by (change (max_age_ms h) with max_age in Hh; lia).
    assert (Hst : StronglySorted (fun a b => monotonic_ms a <= monotonic_ms b) (dropped ++ o :: fs)).
    { rewrite <- Hd. refine (StronglySorted_fmap (limit_sample h) _ _ _ _ Hsort). intros a b. by rewrite !limit_time. }
    apply StronglySorted_app in Hst as (_ & _ & Hst). apply StronglySorted_inv in Hst as [_ Hst].
    apply elem_of_cons in Hin as [->|Hin]; [lia|]. rewrite Forall_forall in Hst. by apply Hst.
  - intros Hl Hb Ha. apply record_all; [done..| |done|done]. change (max_frames h) with (N.max max_f 1). lia.
Qed.
End bounds.
End sizes.
End History.

(** ** On concrete samples *)

Module Examples.

Definition sample_at (t : N) : Model.DerivedSample :=
  Model.mkDerived t t Complete
    (Model.mkDerivedDaemon (mkDaemonMetrics 7 true 50 (1000 + t) 3 4 1 1 0 0) 1 (10 * t) t)
    [Model.mkDerivedSession (mkSessionMetrics 3 1 true 20 500 1 1 None false CollectionComplete) 5 6].
Definition two_samples : list Model.DerivedSample := [sample_at 1; sample_at 2].

Lemma trend_conserves_witness :
  sumN DashboardWire.read_bytes (Aggregate.points (Aggregate.aggregate two_samples ScopeDaemon 0 10 4)) = 30 /\
  maxN DashboardWire.rss_peak_kib (Aggregate.points (Aggregate.aggregate two_samples (ScopeSession 3) 0 10 4)) = 500.
Proof.
  split.
  - destruct (Aggregate.trend_conserves Model.monotonic_ms ScopeDaemon 0 10 4 eq_refl two_samples) as (_ & Hr & _).
    exact (Hr ltac:(vm_compute; discriminate)).
  - exact (proj2 (proj2 (proj2 (Aggregate.trend_conserves Model.monotonic_ms (ScopeSession 3) 0 10 4 eq_refl two_samples)))).
Defined.

(** Room for the samples of two and a half sessions: the oldest is dropped. *)
Lemma history_bounded_witness :
  exists h, History.with_limits 100 50 500 60 2 = Some h /\
  History.memory_bytes (History.record 100 10 h [sample_at 1; sample_at 2; sample_at 3]) = 270.
Proof.
  destruct (History.with_limits 100 50 500 60 2) as [h|] eqn:E; [|discriminate E].
  exists h. split; [reflexivity|].
  destruct (History.history_bounded 100 10 50 eq_refl 500 60 2 h [sample_at 1; sample_at 2; sample_at 3] eq_refl E) as (Hm & _).
  refine (eq_trans Hm _). injection E as <-. vm_compute. reflexivity.
Defined.

(** The rates of two samples a second apart. *)
Example rates_of_a_second :
  Model.calculate_rates (Model.mkCounters 100 50 0 1000 2000 1) (Model.mkCounters 140 60 0 3000 2000 1) 1000 100 =
  Some (Model.mkRates true 50000 2000 0 2000 0).
Proof. reflexivity. Qed.
End Examples.
