(* ===== verification/MetricFormat.v ===== *)
(** * MetricFormat: the records of the dashboard's minutes, as bytes.

    Models [crates/persistd/src/dashboard/format.rs].  Its [Reader] is that of
    the holder protocol, line by line ([holder/wire.rs], HolderWire.v), with
    errors of its own: [format_error] renames them. *)
From S2P Require Import Prelude Bytes HolderWire DashboardWire.
From Stdlib Require Import Lia.
Import DashboardWire(Completeness, Complete, Partial, Stale, Unavailable, TrendPoint, mkPoint, encode_completeness, encode_trend_point,
  timestamp_ms, point_ok).
Import Reader(R, u8, u16, u32, u64, lift, Parses, put_u8, put_u16, put_u32, put_u64).
Local Open Scope N_scope.

Module MetricFormat.

Inductive FormatError : Type := Truncated | Trailing | Magic | Version | Invalid | Limit.

Definition format_error (e : HolderProtocolError) : FormatError :=
  match e with
  | HolderWire.Truncated => Truncated
  | HolderWire.Trailing => Trailing
  | HolderWire.PayloadTooLarge => Limit
  | _ => Invalid
  end.

Definition map_err {E F A} (f : E -> F) (c : result E A) : result F A :=
  match c with Ok a => Ok a | Err e => Err (f e) end.

Definition SEGMENT_HEADER_SIZE : N := 24.
Definition RECORD_HEADER_SIZE : N := 8.
Definition SESSION_POINT_SIZE : N := 73.
Definition VERSION : N := 1.
Definition MAGIC : bytes := lit "PSMETRIC".

Record SegmentHeader : Type := mkHeader { hour_start_ms : N; sequence : N }.
Record SessionMinuteRecord : Type := mkSessionMinute { session_id : N; s_completeness : Completeness; point : TrendPoint }.
Record MinuteRecord : Type := mkMinute {
  record_ms : N; completeness : Completeness; daemon : TrendPoint; sessions : list SessionMinuteRecord }.

(** ** The header of a segment *)

Definition encode_segment_header (h : SegmentHeader) : bytes :=
  MAGIC ++ u16_be VERSION ++ u16_be 0 ++ u64_be (hour_start_ms h) ++ u32_be (sequence h).

Definition decode_segment_header (payload : bytes) : result FormatError SegmentHeader :=
  if lenN payload <? SEGMENT_HEADER_SIZE then Err Truncated
  else if SEGMENT_HEADER_SIZE <? lenN payload then Err Trailing
  else if negb (bool_decide (slice payload 0 8 = MAGIC)) then Err Magic
  else if negb (be_val (slice payload 8 10) =? VERSION) then Err Version
  else if negb (be_val (slice payload 10 12) =? 0) then Err Invalid
  else Ok (mkHeader (be_val (slice payload 12 20)) (be_val (slice payload 20 24))).

(** ** The checksum *)

(** One turn of the inner loop. *)
Definition crc_round (crc : N) : N :=
  let mask := (2 ^ 32 - N.land crc 1) mod 2 ^ 32 in
  N.lxor (N.shiftr crc 1) (N.land 0xEDB88320 mask).
Definition crc_byte (crc : N) (b : byte) : N := Nat.iter 8 crc_round (N.lxor crc (byte_val b)).
Definition crc32 (payload : bytes) : N := N.lxor u32_max (fold_left crc_byte payload u32_max).

(** ** Minutes *)

Definition timestamps_match (r : MinuteRecord) : bool :=
  (timestamp_ms (daemon r) =? record_ms r) && forallb (fun s => timestamp_ms (point s) =? record_ms r) (sessions r).

(** [any(|session| session.session_id == 0 || !seen.insert(session.session_id))] *)
Fixpoint bad_ids (seen : gset N) (l : list SessionMinuteRecord) : bool :=
  match l with
  | [] => false
  | s :: l' => (session_id s =? 0) || bool_decide (session_id s ∈ seen) || bad_ids ({[session_id s]} ∪ seen) l'
  end.

(** The bytes are those of [dashboard/codec.rs]. *)
Definition encode_point (p : TrendPoint) : bytes := encode_trend_point p.
Definition encode_session (s : SessionMinuteRecord) : bytes :=
  put_u32 (session_id s) ++ put_u8 (encode_completeness (s_completeness s)) ++ encode_point (point s).

Definition encode_minute (r : MinuteRecord) : result FormatError bytes :=
  if u16_max <? lenN (sessions r) then Err Limit
  else if negb (timestamps_match r) then Err Invalid
  else if bad_ids ∅ (sessions r) then Err Invalid
  else Ok (put_u64 (record_ms r) ++ put_u8 (encode_completeness (completeness r)) ++ encode_point (daemon r) ++
    put_u16 (as_u16 (lenN (sessions r))) ++ concat (map encode_session (sessions r))).

Definition decode_completeness (value : N) : result HolderProtocolError Completeness :=
  match value with
  | 0 => Ok Complete | 1 => Ok Partial | 2 => Ok Stale | 3 => Ok Unavailable | _ => Err InvalidField
  end.

Definition decode_point : R TrendPoint :=
  at_ ← u64; avg ← u32; peak ← u32; rss ← u64; rss_peak ← u64; rd ← u64; wr ← u64;
  n1 ← u32; n2 ← u32; n3 ← u32; n4 ← u32; n5 ← u32;
  mret (mkPoint at_ avg peak rss rss_peak rd wr n1 n2 n3 n4 n5).

Definition decode_session (seen : gset N) : R SessionMinuteRecord :=
  id ← u32;
  _ ← Reader.guard ((id =? 0) || bool_decide (id ∈ seen)) InvalidField;
  code ← u8; c ← lift (decode_completeness code); p ← decode_point;
  mret (mkSessionMinute id c p).

Fixpoint decode_sessions (count : nat) (seen : gset N) : R (list SessionMinuteRecord) :=
  match count with
  | O => mret []
  | S n => s ← decode_session seen; l ← decode_sessions n ({[session_id s]} ∪ seen); mret (s :: l)
  end.

(** The check that [count] sessions fit in what is left. *)
Definition room (count : N) : R unit := fun r =>
  match checked_add_usize (Reader.offset r) (count * SESSION_POINT_SIZE) with
  | None => Err PayloadTooLarge
  | Some expected => if lenN (Reader.bytes r) <? expected then Err HolderWire.Truncated else Ok (tt, r)
  end.

Definition read_sessions (count : N) : R (list SessionMinuteRecord) :=
  _ ← room count; decode_sessions (N.to_nat count) ∅.

Definition read_minute : R MinuteRecord :=
  at_ ← u64; code ← u8; c ← lift (decode_completeness code); d ← decode_point; count ← u16;
  l ← read_sessions count; mret (mkMinute at_ c d l).

Definition decode_minute (payload : bytes) : result FormatError MinuteRecord :=
  map_err format_error (
    r ← Reader.run read_minute payload;
    if negb (timestamps_match r) then Err InvalidField else Ok r).

Definition frame_record (r : MinuteRecord) (max_bytes : N) : result FormatError bytes :=
  payload ← encode_minute r;
  if (max_bytes <? lenN payload) || (u32_max <? lenN payload) then Err Limit
  else Ok (put_u32 (as_u32 (lenN payload)) ++ put_u32 (crc32 payload) ++ payload).

(** ** The decoder accepts what the encoder writes, and nothing else *)

(** The values are of their types. *)
Definition session_ok (s : SessionMinuteRecord) : Prop := is_u32 (session_id s) /\ point_ok (point s).
Definition minute_ok (r : MinuteRecord) : Prop := is_u64 (record_ms r) /\ point_ok (daemon r) /\ Forall session_ok (sessions r).

Lemma completeness_iff code c : decode_completeness code = Ok c <-> code = encode_completeness c.
Proof.
  split; [|intros ->; by destruct c].
  destruct code as [|[[p|p|]|[p|p|]|]]; cbn; intros Hd; try discriminate Hd; by injection Hd as <-.
Qed.

#[export] Instance point_parses : Parses decode_point (fun p bs => bs = encode_point p /\ point_ok p).
Proof.
  eapply Reader.parses_ext; [unfold decode_point; apply _|]. intros p bs. unfold encode_point, encode_trend_point, point_ok. split.
  - intros H. pinv. split; [|done]. by rewrite ?app_nil_r.
  - destruct p as [at_ avg peak rss rss_peak rd wr n1 n2 n3 n4 n5]. cbn. intros (-> & ? & ? & ? & ? & ? & ? & ? & ? & ? & ? & ? & ?).
    pex at_. pex avg. pex peak. pex rss. pex rss_peak. pex rd. pex wr. pex n1. pex n2. pex n3. pex n4. pex n5. all: pend.
Qed.
#[global] Typeclasses Opaque decode_point.

Definition fresh (seen : gset N) (s : SessionMinuteRecord) : Prop := session_id s <> 0 /\ session_id s ∉ seen.

#[export] Instance session_parses seen : Parses (decode_session seen)
  (fun s bs => bs = encode_session s /\ session_ok s /\ fresh seen s).
Proof.
  eapply Reader.parses_ext; [unfold decode_session; apply _|]. intros s bs. unfold encode_session, session_ok, fresh. split.
  - intros H. pinv. repeat match goal with H : decode_completeness _ = Ok _ |- _ => apply completeness_iff in H as -> end.
    cbn [session_id point s_completeness]. split_and!; try done.
  - destruct s as [id c p]. cbn. intros (-> & (Hid & Hp) & Hne & Hseen). pex id. exists tt, [].
    eexists. split; [split; [|done]|split].
    + apply orb_false_iff. split; [by apply N.eqb_neq|by apply bool_decide_eq_false].
    + pex (encode_completeness c). { apply DashboardWire.completeness_u8. } pex c. { by apply completeness_iff. } pex p. all: pend.
    + done.
    + pnorm.
Qed.
#[global] Typeclasses Opaque decode_session.

#[export] Instance sessions_parses count : forall seen, Parses (decode_sessions count seen)
  (fun l bs => length l = count /\ bs = concat (map encode_session l) /\ Forall session_ok l /\ bad_ids seen l = false).
Proof.
  induction count as [|n IH]; intros seen; cbn [decode_sessions].
  - eapply Reader.parses_ext; [apply _|]. intros l bs. cbn. split; [intros [-> ->]; done|].
    intros (Hl & -> & _). by destruct l.
  - eapply Reader.parses_ext; [apply _|]. intros l bs. cbn. split.
    + intros (s & b1 & ? & (-> & Hs & Hid & Hseen) & (l' & ? & ? & (<- & -> & Hl & Hb) & [-> ->] & ->) & ->). rewrite app_nil_r.
      cbn. split_and!; [done|done|by constructor|]. rewrite Hb, orb_false_r. apply orb_false_iff.
      split; [by apply N.eqb_neq|by apply bool_decide_eq_false].
    + intros (Hl & -> & Hok & Hb). destruct l as [|s l]; [done|]. injection Hl as <-. inversion Hok as [|? ? Hs Hl']; subst.
      cbn in Hb. rewrite !orb_false_iff, N.eqb_neq, bool_decide_eq_false in Hb. destruct Hb as [[Hid Hseen] Hb].
      exists s; eexists _, _; split; [done|split]. { exists l; eexists _, _; split; [done|split; [done|reflexivity]]. } pend.
Qed.

Lemma lenN_encode_session s : lenN (encode_session s) = SESSION_POINT_SIZE.
Proof. unfold encode_session, encode_point. rewrite !lenN_app, DashboardWire.lenN_point. unfold put_u32. by rewrite lenN_u32_be. Qed.
Lemma lenN_encode_sessions l : lenN (concat (map encode_session l)) = SESSION_POINT_SIZE * lenN l.
Proof. apply DashboardWire.lenN_concat_map, lenN_encode_session. Qed.

#[export] Instance read_sessions_parses count : Parses (read_sessions count)
  (fun l bs => lenN l = count /\ bs = concat (map encode_session l) /\ Forall session_ok l /\ bad_ids ∅ l = false).
Proof.
  intros r l r' Hw. unfold read_sessions. pose proof (sessions_parses (N.to_nat count) ∅ r l r' Hw) as Hp. split.
  - unfold mbind, Reader.R_bind, room. destruct (checked_add_usize _ _) as [e|]; [|done]. destruct (_ <? _); [done|].
    intros (bs & (Hl & ?) & Hs)%Hp. exists bs. split; [|done]. split; [unfold lenN; lia|done].
  - intros (bs & (Hl & -> & Hrest) & Hs). unfold mbind, Reader.R_bind, room.
    destruct (Hs) as (pre & post & Hr & _). destruct Hw as [_ Hf].
    assert (Hb : lenN (Reader.bytes r) = lenN pre + SESSION_POINT_SIZE * count + lenN post /\ Reader.offset r = lenN pre).
    { rewrite Hr. cbn. rewrite !lenN_app, lenN_encode_sessions, Hl. split; [lia|done]. }
    destruct Hb as [Hb Ho]. rewrite Ho. unfold checked_add_usize, fits, isize_max, usize_max, u64_max in *.
    rewrite (proj2 (N.leb_le _ _)) by lia. rewrite (proj2 (N.ltb_ge _ _)) by lia.
    apply Hp. eexists. split; [|done]. split_and!; [unfold lenN in Hl; lia|done|apply Hrest..].
Qed.
#[global] Typeclasses Opaque read_sessions.

Lemma count_u16 {A} (l : list A) : lenN l <= u16_max -> as_u16 (lenN l) = lenN l.
Proof. intros Hl. unfold as_u16. apply N.mod_small. change (2 ^ 16) with 65536. unfold u16_max in Hl. lia. Qed.

Lemma minute_iff r bs : minute_ok r /\ encode_minute r = Ok bs <->
  minute_ok r /\ lenN (sessions r) <= u16_max /\ timestamps_match r = true /\ bad_ids ∅ (sessions r) = false /\
  bs = put_u64 (record_ms r) ++ put_u8 (encode_completeness (completeness r)) ++ encode_point (daemon r) ++
    put_u16 (lenN (sessions r)) ++ concat (map encode_session (sessions r)).
Proof.
  unfold encode_minute. destruct (N.ltb_spec u16_max (lenN (sessions r))) as [|Hl]; [split; [intros [_ ?]; discriminate|intros (_ & ? & _); lia]|].
  rewrite (count_u16 _ Hl). destruct (timestamps_match r), (bad_ids ∅ (sessions r)); cbn; naive_solver.
Qed.

Lemma map_err_Ok {E F A} (f : E -> F) (c : result E A) a : map_err f c = Ok a <-> c = Ok a.
Proof. destruct c; cbn; split; congruence. Qed.

Lemma read_minute_strict : StrictCodec (fun r => match encode_minute r with Ok bs => Ok bs | Err _ => Err InvalidField end)
  (fun payload => r ← Reader.run read_minute payload; if negb (timestamps_match r) then Err InvalidField else Ok r) minute_ok.
Proof.
  eapply strict_checked; [unfold read_minute; apply _|]. intros [at_ c d l] bs.
  assert (He : forall P, (match encode_minute (mkMinute at_ c d l) with Ok bs => Ok bs | Err _ => Err InvalidField end = Ok bs) /\ P <->
    encode_minute (mkMinute at_ c d l) = Ok bs /\ P) by (intros P; destruct (encode_minute _); [split; intros [[= ->] ?]; done|split; intros [? _]; discriminate]).
  rewrite (and_comm (minute_ok _)), He, (and_comm _ (minute_ok _)), minute_iff, negb_false_iff. unfold minute_ok. cbn. split.
  - intros [H Ht]. pinv. repeat match goal with H : decode_completeness _ = Ok _ |- _ => apply completeness_iff in H as -> end.
    split_and!; try done. unfold u16_max. match goal with H : is_u16 _ |- _ => unfold is_u16 in H; change (2 ^ 16) with 65536 in H; lia end.
  - intros ((Hat & Hd & Hl) & Hn & Ht & Hb & ->). split; [|done].
    pex at_. pex (encode_completeness c). { apply DashboardWire.completeness_u8. } pex c. { by apply completeness_iff. } pex d. pex (lenN l).
    { unfold is_u16. change (2 ^ 16) with 65536. unfold u16_max in Hn. lia. }
    exists l; eexists _, _; split; [done|split; [done|reflexivity]]. all: pend.
Qed.

(** The file format of a minute is canonical: the decoder accepts exactly
    the bytes the encoder writes for some record (whose fields are of their
    width), and gives that record. *)
Theorem minute_format_canonical payload r : fits payload ->
  decode_minute payload = Ok r <-> minute_ok r /\ encode_minute r = Ok payload.
Proof.
  intros Hf. unfold decode_minute. rewrite map_err_Ok, (strict_iff (StrictCodec := read_minute_strict) payload r Hf).
  destruct (encode_minute r); [split; intros [? [= ->]]; done|split; intros [_ ?]; discriminate].
Qed.

(** ** What the checksum detects *)

Lemma land_1 a : N.land a 1 = N.b2n (N.odd a).
Proof. destruct a as [|[p|p|]]; try done. Qed.

Lemma crc_round_eq c : crc_round c = N.lxor (N.shiftr c 1) (if N.odd c then 0xEDB88320 else 0).
Proof. unfold crc_round. rewrite land_1. by destruct (N.odd c). Qed.

(** The low bits of the state come out again, as they are: the state may
    be combined with later bytes at once. *)
Lemma crc_round_lxor c z : crc_round (N.lxor c (N.shiftl z 1)) = N.lxor (crc_round c) z.
Proof.
  rewrite !crc_round_eq. rewrite N.shiftr_lxor, N.shiftr_shiftl_l, N.shiftl_0_r by lia.
  assert (Ho : N.odd (N.lxor c (N.shiftl z 1)) = N.odd c).
  { rewrite <- !N.bit0_odd, N.lxor_spec, N.shiftl_spec_low by lia. by destruct (N.testbit c 0). }
  rewrite Ho, !N.lxor_assoc. f_equal. apply N.lxor_comm.
Qed.

Lemma crc_rounds_lxor k c z : Nat.iter k crc_round (N.lxor c (N.shiftl z (N.of_nat k))) = N.lxor (Nat.iter k crc_round c) z.
Proof.
  revert z. induction k as [|k IH]; intros z; [by rewrite N.shiftl_0_r|].
  replace (N.shiftl z (N.of_nat (S k))) with (N.shiftl (N.shiftl z 1) (N.of_nat k)) by (rewrite N.shiftl_shiftl; f_equal; lia).
  cbn [Nat.iter nat_rect]. change (nat_rect _ ?a (fun _ => crc_round) k) with (Nat.iter k crc_round a).
  rewrite IH. apply crc_round_lxor.
Qed.

Definition uncrc_round (r : N) : N :=
  if N.testbit r 31 then N.shiftl (N.lxor r 0xEDB88320) 1 + 1 else N.shiftl r 1.

Lemma bit_above a n : a < 2 ^ n -> N.testbit a n = false.
Proof.
  intros Ha. destruct (N.eq_dec a 0) as [->|Hne]; [apply N.bits_0|]. apply N.bits_above_log2.
  apply N.log2_lt_pow2; lia.
Qed.
Lemma shiftr_lt a n m : a < 2 ^ (n + m) -> N.shiftr a m < 2 ^ n.
Proof. intros Ha. rewrite N.shiftr_div_pow2. apply N.Div0.div_lt_upper_bound. by rewrite <- N.pow_add_r, N.add_comm. Qed.
Lemma lxor_lt a b n : a < 2 ^ n -> b < 2 ^ n -> N.lxor a b < 2 ^ n.
Proof.
  intros Ha Hb. destruct (N.eq_dec (N.lxor a b) 0) as [->|Hne]; [lia|]. apply N.log2_lt_pow2; [lia|].
  eapply N.le_lt_trans; [apply N.log2_lxor|].
  assert (Hl : forall x, x < 2 ^ n -> 0 < x -> N.log2 x < n) by (intros; by apply N.log2_lt_pow2).
  destruct (N.eq_dec a 0) as [->|]; destruct (N.eq_dec b 0) as [->|]; [done|..]; cbn [N.log2].
  - rewrite N.max_0_l. apply Hl; lia.
  - rewrite N.max_0_r. apply Hl; lia.
  - apply N.max_lub_lt; apply Hl; lia.
Qed.

Lemma uncrc_crc c : c < 2 ^ 32 -> uncrc_round (crc_round c) = c.
Proof.
  intros Hc. unfold uncrc_round. rewrite crc_round_eq. assert (Hs : N.shiftr c 1 < 2 ^ 31) by (by apply shiftr_lt).
  rewrite N.lxor_spec, (bit_above _ _ Hs), xorb_false_l. assert (Hd : c = 2 * N.shiftr c 1 + N.b2n (N.odd c)).
  { rewrite <- N.div2_spec. apply N.div2_odd. }
  destruct (N.odd c); cbn [N.b2n] in Hd.
  - replace (N.testbit 0xEDB88320 31) with true by reflexivity. rewrite N.lxor_assoc, N.lxor_nilpotent, N.lxor_0_r.
    rewrite N.shiftl_mul_pow2. change (2 ^ 1) with 2. lia.
  - rewrite N.bits_0, N.lxor_0_r, N.shiftl_mul_pow2. change (2 ^ 1) with 2. lia.
Qed.

Lemma crc_round_u32 c : c < 2 ^ 32 -> crc_round c < 2 ^ 32.
Proof.
  intros Hc. rewrite crc_round_eq. apply lxor_lt; [|by destruct (N.odd c)].
  eapply N.lt_trans; [by apply (shiftr_lt c 31 1)|done].
Qed.
Lemma crc_rounds_u32 k c : c < 2 ^ 32 -> Nat.iter k crc_round c < 2 ^ 32.
Proof. intros Hc. induction k as [|k IH]; [done|]. by apply crc_round_u32. Qed.
Lemma crc_rounds_inj k c c' : c < 2 ^ 32 -> c' < 2 ^ 32 -> Nat.iter k crc_round c = Nat.iter k crc_round c' -> c = c'.
Proof.
  intros Hc Hc'. induction k as [|k IH]; [done|]. intros E. apply IH. rewrite <- (uncrc_crc _ (crc_rounds_u32 k c Hc)).
  rewrite <- (uncrc_crc _ (crc_rounds_u32 k c' Hc')). by f_equal.
Qed.

(** Bytes as one word, the first one lowest. *)
Fixpoint le_word (w : bytes) : N :=
  match w with [] => 0 | b :: w' => N.lxor (byte_val b) (N.shiftl (le_word w') 8) end.

Lemma crc_fold w : forall c, fold_left crc_byte w c = Nat.iter (8 * length w) crc_round (N.lxor c (le_word w)).
Proof.
  induction w as [|b w IH]; intros c; cbn [fold_left length le_word]; [by rewrite N.lxor_0_r|].
  rewrite IH. replace (8 * S (length w))%nat with (8 * length w + 8)%nat by lia. rewrite Nat.iter_add. f_equal.
  unfold crc_byte. rewrite <- (crc_rounds_lxor 8). f_equal. by rewrite N.lxor_assoc.
Qed.

Lemma le_word_lt w : le_word w < 2 ^ (8 * lenN w).
Proof.
  induction w as [|b w IH]; [done|]. cbn [le_word]. rewrite lenN_cons. replace (8 * (1 + lenN w)) with (8 + 8 * lenN w) by lia.
  apply lxor_lt.
  - eapply N.lt_le_trans; [apply byte_val_lt|]. change 256 with (2 ^ 8). apply N.pow_le_mono_r; lia.
  - rewrite N.shiftl_mul_pow2, N.pow_add_r, N.mul_comm. by apply N.mul_lt_mono_pos_l.
Qed.

Lemma le_word_inj w w' : length w = length w' -> le_word w = le_word w' -> w = w'.
Proof.
  revert w'. induction w as [|b w IH]; intros [|b' w'] Hl; try done. cbn [le_word]. intros E.
  assert (Hx : forall b x, N.shiftr (N.lxor (byte_val b) (N.shiftl x 8)) 8 = x).
  { intros c x. rewrite N.shiftr_lxor, N.shiftr_shiftl_l, N.shiftl_0_r by lia.
    rewrite N.shiftr_div_pow2, N.div_small by apply byte_val_lt. apply N.lxor_0_l. }
  assert (Hw : le_word w = le_word w') by (by rewrite <- (Hx b (le_word w)), E, Hx).
  f_equal; [|apply IH; [by injection Hl|done]]. apply byte_val_inj. rewrite Hw in E.
  apply (f_equal (fun x => N.lxor x (N.shiftl (le_word w') 8))) in E.
  by rewrite !N.lxor_assoc, N.lxor_nilpotent, !N.lxor_0_r in E.
Qed.

Lemma crc_byte_u32 c b : c < 2 ^ 32 -> crc_byte c b < 2 ^ 32.
Proof. intros Hc. apply crc_rounds_u32, lxor_lt; [done|]. eapply N.lt_trans; [apply byte_val_lt|done]. Qed.
Lemma crc_fold_u32 w : forall c, c < 2 ^ 32 -> fold_left crc_byte w c < 2 ^ 32.
Proof. induction w as [|b w IH]; intros c Hc; [done|]. by apply IH, crc_byte_u32. Qed.

Lemma crc_fold_inj w c c' : lenN w <= 4 -> c < 2 ^ 32 -> c' < 2 ^ 32 -> fold_left crc_byte w c = fold_left crc_byte w c' -> c = c'.
Proof.
  intros Hl Hc Hc'. rewrite !crc_fold. assert (Hw : le_word w < 2 ^ 32).
  { eapply N.lt_le_trans; [apply le_word_lt|]. apply N.pow_le_mono_r; lia. }
  intros E. apply crc_rounds_inj in E; [|by apply lxor_lt..].
  apply (f_equal (fun x => N.lxor x (le_word w))) in E. by rewrite !N.lxor_assoc, N.lxor_nilpotent, !N.lxor_0_r in E.
Qed.
Lemma crc_suffix_inj w : forall c c', c < 2 ^ 32 -> c' < 2 ^ 32 -> fold_left crc_byte w c = fold_left crc_byte w c' -> c = c'.
Proof.
  induction w as [|b w IH]; intros c c' Hc Hc' E; [done|]. cbn [fold_left] in E.
  apply IH in E; [|by apply crc_byte_u32..]. apply (crc_fold_inj [b]); [by rewrite lenN_cons, lenN_nil|done..].
Qed.

(** The checksum of a record detects every error that is confined to four
    neighbouring bytes: two payloads that differ only there have different
    checksums. *)
Theorem crc32_detects_bursts before w w' after :
  length w = length w' -> lenN w <= 4 -> w <> w' -> crc32 (before ++ w ++ after) <> crc32 (before ++ w' ++ after).
Proof.
  intros Hl Hw Hne E. unfold crc32 in E. rewrite !fold_left_app in E.
  set (c := fold_left crc_byte before u32_max) in E. assert (Hc : c < 2 ^ 32) by (by apply crc_fold_u32).
  apply (f_equal (N.lxor u32_max)) in E. rewrite <- !N.lxor_assoc, N.lxor_nilpotent, !N.lxor_0_l in E.
  apply crc_suffix_inj in E; [|by apply crc_fold_u32..]. rewrite !crc_fold, Hl in E.
  assert (Hx : forall v, length v = length w' -> le_word v < 2 ^ 32).
  { intros v Hv. eapply N.lt_le_trans; [apply le_word_lt|]. apply N.pow_le_mono_r; [lia|]. unfold lenN in *. rewrite Hv, <- Hl. lia. }
  apply crc_rounds_inj in E; [|by apply lxor_lt; [|apply Hx]..].
  apply (f_equal (N.lxor c)) in E. rewrite <- !N.lxor_assoc, N.lxor_nilpotent, !N.lxor_0_l in E.
  by apply Hne, le_word_inj.
Qed.

Lemma crc32_u32 p : is_u32 (crc32 p).
Proof. apply lxor_lt; [done|by apply crc_fold_u32]. Qed.

(** ** Frames and headers *)

Lemma frame_iff r max f : frame_record r max = Ok f <->
  exists p, encode_minute r = Ok p /\ lenN p <= max /\ is_u32 (lenN p) /\ f = u32_be (lenN p) ++ u32_be (crc32 p) ++ p.
Proof.
  unfold frame_record, is_u32. destruct (encode_minute r) as [p|e]; [rewrite ok_bind|split; [done|by intros (? & ? & _)]].
  destruct (N.ltb_spec max (lenN p)); [split; [done|intros (? & [= <-] & ? & _); lia]|].
  destruct (N.ltb_spec u32_max (lenN p)) as [|Hu]; cbn [orb].
  { split; [done|]. intros (? & [= <-] & _ & Hu & _). change (2 ^ 32) with 4294967296 in Hu. unfold u32_max in *. lia. }
  assert (Hl : lenN p < 2 ^ 32) by (change (2 ^ 32) with 4294967296; unfold u32_max in Hu; lia).
  unfold as_u32. rewrite N.mod_small by done. split; [intros [= <-]; by exists p|by intros (? & [= <-] & _ & _ & ->)].
Qed.

Lemma lenN_segment_header h : lenN (encode_segment_header h) = SEGMENT_HEADER_SIZE.
Proof. unfold encode_segment_header. rewrite !lenN_app, !lenN_u16_be, lenN_u64_be, lenN_u32_be. done. Qed.

Lemma segment_header_roundtrip h : is_u64 (hour_start_ms h) -> is_u32 (sequence h) ->
  decode_segment_header (encode_segment_header h) = Ok h.
Proof.
  intros Hh Hs. unfold decode_segment_header. rewrite lenN_segment_header, N.ltb_irrefl. unfold encode_segment_header.
  set (a := u64_be (hour_start_ms h)). set (b := u32_be (sequence h)).
  assert (Ha : lenN a = 8) by apply lenN_u64_be. assert (Hb : lenN b = 4) by apply lenN_u32_be.
  change (MAGIC ++ u16_be VERSION ++ u16_be 0 ++ a ++ b) with ((MAGIC ++ u16_be VERSION ++ u16_be 0) ++ a ++ b).
  set (c := MAGIC ++ u16_be VERSION ++ u16_be 0). assert (Hc : lenN c = 12) by reflexivity.
  rewrite !(slice_app_l c) by (rewrite Hc; lia). change (slice c 0 8) with MAGIC. rewrite bool_decide_true by done.
  change (be_val (slice c 8 10)) with 1. change (be_val (slice c 10 12)) with 0. cbn [N.eqb VERSION negb Pos.eqb].
  rewrite !(slice_app_r c) by (rewrite Hc; lia). rewrite Hc. change (12 - 12) with 0. change (20 - 12) with 8. change (24 - 12) with 12.
  rewrite slice_prefix by done. rewrite slice_app_r by (rewrite Ha; lia). rewrite Ha. rewrite slice_all by (rewrite ?Hb; lia).
  unfold a, b. rewrite u64_be_val, u32_be_val by done. by destruct h.
Qed.

Lemma slice_join (l : bytes) i j k : i <= j -> j <= k -> slice l i j ++ slice l j k = slice l i k.
Proof.
  intros Hij Hjk. unfold slice. rewrite <- (takeN_dropN (j - i) (takeN (k - i) (dropN i l))). f_equal.
  - unfold takeN. rewrite take_take. f_equal. lia.
  - unfold takeN, dropN. rewrite skipn_firstn_comm, drop_drop. do 2 f_equal; lia.
Qed.

Lemma segment_header_canonical bs h : decode_segment_header bs = Ok h ->
  bs = encode_segment_header h /\ is_u64 (hour_start_ms h) /\ is_u32 (sequence h).
Proof.
  unfold decode_segment_header. destruct (N.ltb_spec (lenN bs) SEGMENT_HEADER_SIZE); [done|].
  destruct (N.ltb_spec SEGMENT_HEADER_SIZE (lenN bs)); [done|]. assert (Hl : lenN bs = 24) by (unfold SEGMENT_HEADER_SIZE in *; lia).
  case_bool_decide as Hm; cbn [negb]; [|done]. destruct (N.eqb_spec (be_val (slice bs 8 10)) VERSION) as [Hv|]; cbn [negb]; [|done].
  destruct (N.eqb_spec (be_val (slice bs 10 12)) 0) as [Hz|]; cbn [negb]; [|done]. intros [= <-]. unfold encode_segment_header.
  cbn [hour_start_ms sequence].
  assert (Hb : forall k i j, N.of_nat k = j - i -> j <= 24 -> be_bytes k (be_val (slice bs i j)) = slice bs i j).
  { intros k i j Hk Hj. apply be_bytes_val. assert (lenN (slice bs i j) = j - i) by (apply lenN_slice; lia). unfold lenN in *. lia. }
  assert (Hlt : forall i j, j <= 24 -> be_val (slice bs i j) < 256 ^ (j - i)).
  { intros i j Hj. eapply N.lt_le_trans; [apply be_val_lt|]. rewrite lenN_slice by lia. done. }
  split_and!; [|exact (Hlt 12 20 ltac:(lia))|exact (Hlt 20 24 ltac:(lia))].
  rewrite <- Hm, <- Hv, <- Hz. unfold u16_be, u64_be, u32_be. rewrite !Hb by lia.
  rewrite !slice_join by lia. symmetry. by apply slice_all.
Qed.

(** The check value of CRC-32 (ISO-HDLC). *)
Example crc32_check : crc32 (lit "123456789") = 0xCBF43926.
Proof. vm_compute. reflexivity. Qed.

Lemma crc32_detects_bursts_witness : crc32 (lit "metrics of an hour") <> crc32 (lit "metrice Of an hour").
Proof. exact (crc32_detects_bursts (lit "metric") (lit "s o") (lit "e O") (lit "f an hour") eq_refl ltac:(vm_compute; discriminate) ltac:(discriminate)). Defined.
End MetricFormat.
