(* ===== verification/MetricStorage.v ===== *)
(** * MetricStorage: the files of the dashboard's minutes.

    Models [crates/persistd/src/dashboard/storage.rs], [storage_reader.rs] and
    [storage_security.rs], and the thread of [writer.rs], over the disk of
    LogFiles.v.  Every system call asks the kernel first, which may answer with
    a fault.  The errors of these functions are told apart by nobody. *)
From S2P Require Import Prelude Bytes Utf8 Effects HolderRuntime Daemon Text LogFiles HolderWire DashboardWire MetricFormat.
From stdpp Require Import sorting.
From Stdlib Require Import Lia.
Import String.StringSyntax.
Import Disk.
Import MetricFormat(MinuteRecord, mkMinute, record_ms, SegmentHeader, mkHeader, hour_start_ms, sequence, encode_segment_header,
  decode_segment_header, frame_record, decode_minute, crc32, SEGMENT_HEADER_SIZE, RECORD_HEADER_SIZE, minute_ok).
Local Open Scope N_scope.

(** ** More system calls *)

Module Calls.

Definition slash : byte := byte_of 47.

(** The name of an entry of [dir]. *)
Definition entry_name (dir path : str) : option str :=
  let prefix := Daemon.join dir [] in
  if starts_with prefix path then
    let name := dropN (lenN prefix) path in
    if bool_decide (slash ∈ name) then None else Some name
  else None.

(** [fs::read_dir(dir)], in some order. *)
Definition entries (dir : str) (d : Disk) : list str := omap (fun e => entry_name dir e.1) (map_to_list (names d)).
Definition read_dir (dir : str) : IO (list str) := _ ← call; w ← get; mret (entries dir (disk w)).

(** [fs::symlink_metadata(path)]; [None]: there is no such file. *)
Definition symlink_metadata (path : str) : IO (option Inode) := _ ← call; w ← get; mret (lookup_file (disk w) path).

(** What a descriptor refers to. *)
Definition file_of (ino : N) : IO Inode := w ← get; match inodes (disk w) !! ino with Some f => mret f | None => fail IoFailed end.

(** [open] of an existing file with [O_NOFOLLOW], for reading or writing. *)
Definition open_existing (path : str) : IO N :=
  _ ← call; w ← get;
  match names (disk w) !! path, kind <$> lookup_file (disk w) path with
  | Some ino, Some (Regular | Other) => mret ino
  | _, _ => fail IoFailed
  end.

(** [open] with [O_CREAT | O_EXCL]. *)
Definition open_new (path : str) (mode_ : N) : IO N :=
  _ ← call; w ← get;
  match names (disk w) !! path with
  | Some _ => fail IoFailed
  | None => _ ← modify (set_disk (create path mode_)); mret (next (disk w))
  end.

Definition make_dir (path : str) (mode_ : N) (d : Disk) : Disk :=
  mkDisk (<[path := next d]> (names d)) (<[next d := mkInode Directory (me d) (N.ldiff mode_ (umask d)) []]> (inodes d))
    (next d + 1) (me d) (umask d).
Definition create_dir (path : str) (mode_ : N) : IO unit :=
  _ ← call; w ← get;
  match names (disk w) !! path with
  | Some _ => fail IoFailed
  | None => modify (set_disk (make_dir path mode_))
  end.

(** [file.metadata()?.len()] and [fs::metadata(path)?.len()]. *)
Definition file_len (ino : N) : IO N := _ ← call; f ← file_of ino; mret (lenN (contents f)).
Definition path_len (path : str) : IO N :=
  _ ← call; w ← get;
  match lookup_file (disk w) path with Some f => mret (lenN (contents f)) | None => fail IoFailed end.

(** [read_exact] of [n] bytes at [offset]. *)
Definition read_exact (ino offset n : N) : IO bytes :=
  _ ← call; f ← file_of ino;
  if lenN (contents f) <? offset + n then fail IoFailed else mret (slice (contents f) offset (offset + n)).

(** [file.set_len(n)] to at most the present length. *)
Definition truncate (ino n : N) (d : Disk) : Disk :=
  set_inodes (alter (fun f => mkInode (kind f) (uid f) (mode f) (takeN n (contents f))) ino) d.
Definition set_len (ino n : N) : IO unit := _ ← call; modify (set_disk (truncate ino n)).
End Calls.

Module MetricStorage.
Import Calls.

Record StorageLimits : Type := mkLimits {
  max_segments : N; max_total_bytes : N; max_segment_bytes : N; max_record_bytes : N; max_directory_entries : N }.
Definition default_limits : StorageLimits := mkLimits 24 (128 * 1024 * 1024) (128 * 1024 * 1024) (1024 * 1024) 32.

Record LoadReport : Type := mkReport { records : list MinuteRecord; skipped_segments : N; repaired_tails : N }.
Record CurrentSegment : Type := mkCurrent { c_hour_ms : N; c_path : str; c_file : N; c_bytes : N }.
Record Storage : Type := mkStorage {
  dir : str; limits : StorageLimits; current : option CurrentSegment; last_timestamp_ms : option N }.

(** ** storage_security.rs *)

Definition ensure_private_directory (path : str) : IO unit :=
  found ← symlink_metadata path;
  _ ← match found with
      | Some f => if bool_decide (kind f = Directory) then mret tt else fail IoFailed
      | None => create_dir path 448
      end;
  found ← symlink_metadata path; w ← get;
  match found with
  | Some f => if negb (uid f =? me (disk w)) || negb (N.land (mode f) 511 =? 448) then fail IoFailed else mret tt
  | None => fail IoFailed
  end.

Definition private (d : Disk) (f : Inode) : bool :=
  bool_decide (kind f = Regular) && (uid f =? me d) && (N.land (mode f) 511 =? 384).

Definition verify_private_file (path : str) : IO unit :=
  found ← symlink_metadata path; w ← get;
  match found with
  | Some f => if private (disk w) f then mret tt else fail IoFailed
  | None => fail IoFailed
  end.

(** ** Names of segments *)

(** [{n:0width}] *)
Definition padded (width : nat) (n : N) : str :=
  replicate (width - length (Daemon.decimal n)) (byte_of 48) ++ Daemon.decimal n.
Definition segment_name (hour sequence : N) : str :=
  lit "segment-" ++ padded 20 hour ++ lit "-" ++ padded 10 sequence ++ lit ".pmt".

Definition ends_with (suffix s : str) : bool := starts_with (rev suffix) (rev s).

(** [split_once('-')] *)
Fixpoint split_once (c : byte) (s : str) : option (str * str) :=
  match s with
  | [] => None
  | b :: s' => if bool_decide (b = c) then Some ([], s') else '(x, y) ← split_once c s'; Some (b :: x, y)
  end.

Definition strip_prefix (p s : str) : option str := if starts_with p s then Some (dropN (lenN p) s) else None.
Definition strip_suffix (p s : str) : option str := if ends_with p s then Some (takeN (lenN s - lenN p) s) else None.

Definition parse_segment_name (name : str) : option (N * N) :=
  name ← from_utf8 name;
  value ← strip_prefix (lit "segment-") name;
  value ← strip_suffix (lit ".pmt") value;
  '(hour, sequence) ← split_once (byte_of 45) value;
  hour ← Text.parse_unsigned u64_max hour;
  sequence ← Text.parse_unsigned u32_max sequence;
  Some (hour, sequence).

Definition is_segment (name : str) : bool :=
  bool_decide (is_Some (from_utf8 name)) && starts_with (lit "segment-") name && ends_with (lit ".pmt") name.

(** The sorted names of the segments in the directory. *)
Definition segment_names (dir : str) (d : Disk) : list str := merge_sort str_le (List.filter is_segment (entries dir d)).
Definition segment_paths (dir : str) : IO (list str) :=
  r ← attempt (read_dir dir);
  mret match r with Ok l => merge_sort str_le (List.filter is_segment l) | Err _ => [] end.

Definition next_sequence (paths : list str) (hour : N) : N :=
  match List.filter (fun p => p.1 =? hour) (omap parse_segment_name paths) with
  | [] => 0
  | l => N.min (foldr (fun p n => N.max p.2 n) 0 l + 1) u32_max
  end.

(** ** Reading a segment *)

(** The loop over the records of a file of length [len]; a turn reads at least
    a header, so that the length is enough fuel. *)
Fixpoint read_records (fuel : nat) (limits : StorageLimits) (ino len hour offset : N) (records : list MinuteRecord)
  : IO (list MinuteRecord * bool) :=
  match fuel with
  | O => panic
  | S fuel =>
      if len <=? offset then mret (records, false)
      else
        let remaining := len - offset in
        if remaining <? RECORD_HEADER_SIZE then _ ← set_len ino offset; mret (records, true)
        else
          _ ← call;
          header ← read_exact ino offset RECORD_HEADER_SIZE;
          let payload_len := be_val (slice header 0 4) in
          let expected_crc := be_val (slice header 4 8) in
          if max_record_bytes limits <? payload_len then fail IoFailed
          else
            let framed_len := RECORD_HEADER_SIZE + payload_len in
            if remaining <? framed_len then _ ← set_len ino offset; mret (records, true)
            else
              payload ← read_exact ino (offset + RECORD_HEADER_SIZE) payload_len;
              if negb (crc32 payload =? expected_crc) then fail IoFailed
              else
                match decode_minute payload with
                | Err _ => fail IoFailed
                | Ok record =>
                    if negb (record_ms record / 3600000 * 3600000 =? hour) then fail IoFailed
                    else read_records fuel limits ino len hour (offset + framed_len) (records ++ [record])
                end
  end.

Definition read_segment (path : str) (limits : StorageLimits) : IO (list MinuteRecord * bool) :=
  _ ← verify_private_file path;
  ino ← open_existing path;
  len ← file_len ino;
  if max_segment_bytes limits <? len then fail IoFailed
  else
    header ← read_exact ino 0 SEGMENT_HEADER_SIZE;
    match decode_segment_header header with
    | Err _ => fail IoFailed
    | Ok segment => read_records (S (N.to_nat len)) limits ino len (hour_start_ms segment) SEGMENT_HEADER_SIZE []
    end.

(** ** storage.rs *)

Definition validate_limits (l : StorageLimits) : IO unit :=
  if (max_segments l =? 0) || (max_total_bytes l <? SEGMENT_HEADER_SIZE) || (max_segment_bytes l <? SEGMENT_HEADER_SIZE) ||
     (max_record_bytes l =? 0) || (max_directory_entries l <? max_segments l)
  then fail IoFailed else mret tt.

Definition open (path : str) (limits : StorageLimits) : IO Storage :=
  _ ← validate_limits limits;
  _ ← ensure_private_directory path;
  l ← read_dir path;
  if max_directory_entries limits <? lenN l then fail IoFailed
  else
    l ← read_dir path;
    _ ← each (fun name => match parse_segment_name name with
                          | Some _ => verify_private_file (Daemon.join path name) | None => mret tt end) l;
    mret (mkStorage path limits None None).

Definition create_segment (s : Storage) (hour : N) : IO CurrentSegment :=
  l ← read_dir (dir s);
  if max_directory_entries (limits s) <=? lenN l then fail IoFailed
  else
    paths ← segment_paths (dir s);
    let sequence := next_sequence paths hour in
    let path := segment_name hour sequence in
    ino ← open_new (Daemon.join (dir s) path) 384;
    _ ← write_all ino (encode_segment_header (mkHeader hour sequence));
    _ ← verify_private_file (Daemon.join (dir s) path);
    mret (mkCurrent hour path ino SEGMENT_HEADER_SIZE).

(** The loop of [resume_segment] over the paths, newest first. *)
Fixpoint resume_from (s : Storage) (hour at_ append_bytes : N) (paths : list str) : IO (option (CurrentSegment * option N)) :=
  match paths with
  | [] => mret None
  | path :: paths' =>
      if negb (bool_decide (fst <$> parse_segment_name path = Some hour)) then resume_from s hour at_ append_bytes paths'
      else
        r ← attempt (read_segment (Daemon.join (dir s) path) (limits s));
        match r with
        | Err _ => resume_from s hour at_ append_bytes paths'
        | Ok (records, _) =>
            let last_timestamp := record_ms <$> last records in
            if match last_timestamp with Some t => at_ <? t | None => false end then mret None
            else
              len ← path_len (Daemon.join (dir s) path);
              if max_segment_bytes (limits s) <? len + append_bytes then mret None
              else
                ino ← open_existing (Daemon.join (dir s) path);
                mret (Some (mkCurrent hour path ino len, last_timestamp))
        end
  end.

Definition resume_segment (s : Storage) (hour at_ append_bytes : N) : IO (option (CurrentSegment * option N)) :=
  paths ← segment_paths (dir s);
  resume_from s hour at_ append_bytes (rev paths).

(** The sum of the sizes, each file being verified. *)
Fixpoint total_size (dir : str) (paths : list str) (sum : N) : IO N :=
  match paths with
  | [] => mret sum
  | path :: paths' =>
      _ ← verify_private_file (Daemon.join dir path);
      len ← path_len (Daemon.join dir path);
      total_size dir paths' (saturating_add_u64 sum len)
  end.

Fixpoint rotate_loop (fuel : nat) (s : Storage) : IO unit :=
  match fuel with
  | O => panic
  | S fuel =>
      paths ← segment_paths (dir s);
      total ← total_size (dir s) paths 0;
      if (lenN paths <=? max_segments (limits s)) && (total <=? max_total_bytes (limits s)) then mret tt
      else
        match List.find (fun path => negb (bool_decide (c_path <$> current s = Some path))) paths with
        | None => fail IoFailed
        | Some oldest => _ ← remove_file (Daemon.join (dir s) oldest); rotate_loop fuel s
        end
  end.

(** A turn that goes on removes a file. *)
Definition rotate (s : Storage) : IO unit := w ← get; rotate_loop (S (size (names (disk w)))) s.

(** [&mut self] and the disk. *)
Record State : Type := mkState { storage : Storage; world : World }.
Abbreviation SIO := (M State io_error).
Definition io {A} (m : IO A) : SIO A := zoom world (fun w s => mkState (storage s) w) m.
Definition set_storage (f : Storage -> Storage) (s : State) : State := mkState (f (storage s)) (world s).
Definition set_current (c : option CurrentSegment) (s : Storage) : Storage := mkStorage (dir s) (limits s) c (last_timestamp_ms s).
Definition set_last (t : option N) (s : Storage) : Storage := mkStorage (dir s) (limits s) (current s) t.

Definition hour_of (at_ : N) : N := at_ / 3600000 * 3600000.

(** Whether the record needs a new segment. *)
Definition needs_new (s : Storage) (at_ size : N) : bool :=
  match current s with
  | None => true
  | Some c =>
      negb (c_hour_ms c =? hour_of at_) || (max_segment_bytes (limits s) <? c_bytes c + size) ||
      match last_timestamp_ms s with Some last => at_ <? last | None => false end
  end.

Definition append (record : MinuteRecord) : SIO unit :=
  s ← get;
  let l := limits (storage s) in
  framed ← lift (MetricFormat.map_err (fun _ => IoFailed) (frame_record record (max_record_bytes l)));
  let size := lenN framed in
  let at_ := record_ms record in
  if (max_segment_bytes l <? size + SEGMENT_HEADER_SIZE) || (max_total_bytes l <? size + SEGMENT_HEADER_SIZE) then fail IoFailed
  else
    _ ← match current (storage s) with
        | Some _ => mret tt
        | None =>
            r ← io (resume_segment (storage s) (hour_of at_) at_ size);
            match r with
            | Some (c, last) => modify (set_storage (fun s => set_last last (set_current (Some c) s)))
            | None => mret tt
            end
        end;
    s ← get;
    _ ← (if needs_new (storage s) at_ size
         then c ← io (create_segment (storage s) (hour_of at_)); modify (set_storage (set_current (Some c)))
         else mret tt);
    s ← get;
    c ← unwrap (current (storage s));
    _ ← io (write_all (c_file c) framed);
    _ ← modify (set_storage (fun s =>
          set_last (Some at_) (set_current (Some (mkCurrent (c_hour_ms c) (c_path c) (c_file c) (c_bytes c + size))) s)));
    s ← get;
    io (rotate (storage s)).

Definition record_le (a b : MinuteRecord) : Prop := record_ms a <= record_ms b.
#[export] Instance record_le_dec : RelDecision record_le.
Proof. intros a b. unfold record_le. apply _. Defined.

Fixpoint load_segments (s : Storage) (paths : list str) (report : LoadReport) : IO LoadReport :=
  match paths with
  | [] => mret report
  | path :: paths' =>
      r ← attempt (read_segment (Daemon.join (dir s) path) (limits s));
      load_segments s paths' match r with
        | Ok (l, repaired) =>
            mkReport (records report ++ l) (skipped_segments report) (if repaired : bool then repaired_tails report + 1 else repaired_tails report)
        | Err _ => mkReport (records report) (skipped_segments report + 1) (repaired_tails report)
        end
  end.

Definition load : SIO LoadReport :=
  s ← get;
  paths ← io (segment_paths (dir (storage s)));
  report ← io (load_segments (storage s) paths (mkReport [] 0 0));
  mret (mkReport (merge_sort record_le (records report)) (skipped_segments report) (repaired_tails report)).

Definition flush : SIO unit :=
  s ← get; match current (storage s) with Some _ => io call | None => mret tt end.

(** ** writer.rs *)

Record WriterStatus : Type := mkStatus {
  available : bool; loaded_records : N; skipped : N; repaired : N; write_failures : N }.

Inductive WriterCommand : Type := Append (record : MinuteRecord) | Load.

Record Writer : Type := mkWriter { files : State; status : WriterStatus; last_timestamp : option N; replies : list (option LoadReport) }.

Definition record_failure (s : WriterStatus) : WriterStatus :=
  mkStatus false (loaded_records s) (skipped s) (repaired s) (saturating_add_u64 (write_failures s) 1).

(** One command of the loop; [None]: the thread panics. *)
Definition writer_command (c : WriterCommand) (w : Writer) : option Writer :=
  match c with
  | Append record =>
      if bool_decide (last_timestamp w = Some (record_ms record)) then Some w
      else
        '(r, st) ← append record (files w);
        Some match r with
             | Ok _ => mkWriter st (status w) (Some (record_ms record)) (replies w)
             | Err _ => mkWriter st (record_failure (status w)) (last_timestamp w) (replies w)
             end
  | Load =>
      '(r, st) ← load (files w);
      Some (mkWriter st (status w) (last_timestamp w) (replies w ++ [match r with Ok report => Some report | Err _ => None end]))
  end.

Fixpoint writer_commands (l : list WriterCommand) (w : Writer) : option Writer :=
  match l with [] => Some w | c :: l' => w ← writer_command c w; writer_commands l' w end.

(** [run_writer], given the commands that will be sent; without a storage each
    [Load] is answered with nothing. *)
Definition run_writer (path : str) (limits : StorageLimits) (l : list WriterCommand) (d : World) : option Writer :=
  let stopped d := mkWriter (mkState (mkStorage path limits None None) d) (mkStatus false 0 0 0 0) None
    (omap (fun c => match c with Load => Some None | Append _ => None end) l) in
  '(r, d) ← open path limits d;
  match r with
  | Err _ => Some (stopped d)
  | Ok s =>
      '(r, st) ← load (mkState s d);
      match r with
      | Err _ => Some (stopped (world st))
      | Ok report =>
          w ← writer_commands l (mkWriter st (mkStatus true (lenN (records report)) (skipped_segments report) (repaired_tails report) 0)
                (record_ms <$> last (records report)) []);
          '(r, st) ← flush (files w);
          Some (mkWriter st (match r with Ok _ => status w | Err _ => record_failure (status w) end) (last_timestamp w) (replies w))
      end
  end.

(** ** What a segment holds *)

(** [fs] are the frames of [rs]. *)
Definition framed (max : N) (r : MinuteRecord) (f : bytes) : Prop := frame_record r max = Ok f.
Definition of_hour (hour : N) (r : MinuteRecord) : Prop := minute_ok r /\ hour_of (record_ms r) = hour.

Lemma framed_parts max r f : framed max r f -> minute_ok r -> max <= u32_max ->
  RECORD_HEADER_SIZE <= lenN f /\ be_val (slice f 0 4) + 8 = lenN f /\ be_val (slice f 0 4) <= max /\
  be_val (slice f 4 8) = crc32 (dropN 8 f) /\ decode_minute (dropN 8 f) = Ok r.
Proof.
  intros (p & He & Hm & Hu & ->)%MetricFormat.frame_iff Hok Hmax. pose proof (MetricFormat.crc32_u32 p) as Hc.
  set (a := u32_be (lenN p)). set (b := u32_be (crc32 p)).
  assert (Ha : lenN a = 4) by apply lenN_u32_be. assert (Hb : lenN b = 4) by apply lenN_u32_be.
  rewrite !lenN_app, Ha, Hb. rewrite slice_prefix by done. rewrite (slice_app a) by (rewrite ?Ha, ?Hb; lia).
  unfold a at 1 2, b at 1. rewrite !u32_be_val by done. rewrite app_assoc, dropN_app by (rewrite lenN_app, Ha, Hb; done).
  unfold RECORD_HEADER_SIZE. split_and!; [lia|lia|done|done|]. apply MetricFormat.minute_format_canonical; [|done].
  unfold fits, isize_max. unfold u32_max in *. lia.
Qed.

Lemma slice_slice (l : bytes) i j a b : j <= lenN l -> a <= b -> b <= j - i -> i = 0 -> slice (slice l i j) a b = slice l a b.
Proof.
  intros Hj Hab Hb ->. rewrite N.sub_0_r in Hb. rewrite <- (takeN_dropN j l) at 2. rewrite slice_app_l by (rewrite lenN_takeN; lia).
  unfold slice at 2. by rewrite dropN_0, N.sub_0_r.
Qed.
Lemma slice_to_end (l : bytes) i : slice l i (lenN l) = dropN i l.
Proof. unfold slice. apply takeN_ge. rewrite lenN_dropN. lia. Qed.

(** What a crash may leave of a frame. *)
Definition torn (max : N) (t : bytes) : Prop :=
  exists r f u, framed max r f /\ minute_ok r /\ f = t ++ u /\ u <> [].

Lemma torn_parts max t : torn max t -> max <= u32_max ->
  lenN t < RECORD_HEADER_SIZE \/
  (RECORD_HEADER_SIZE <= lenN t /\ be_val (slice t 0 4) <= max /\ lenN t < RECORD_HEADER_SIZE + be_val (slice t 0 4)).
Proof.
  intros (r & f & u & Hf & Hok & -> & Hu) Hmax. destruct (framed_parts _ _ _ Hf Hok Hmax) as (_ & Hl & Hm & _).
  destruct (N.ltb_spec (lenN t) RECORD_HEADER_SIZE) as [|H8]; [by left|]. right. unfold RECORD_HEADER_SIZE in *.
  rewrite (slice_app_l t) in Hl, Hm by lia. rewrite lenN_app in Hl. assert (lenN u <> 0) by (by intros ?%lenN_0_inv). lia.
Qed.

(** Calls without a fault. *)
Lemma read_exact_ok d ino f offset n : inodes d !! ino = Some f -> offset + n <= lenN (contents f) ->
  goes (read_exact ino offset n) d (slice (contents f) offset (offset + n)) d.
Proof.
  intros Hi Hn. unfold goes, read_exact, file_of, mbind, M_bind. rewrite call_fine. cbn. rewrite Hi. cbn.
  by rewrite (proj2 (N.ltb_ge _ _) Hn).
Qed.
Lemma set_len_ok d ino n : goes (set_len ino n) d tt (truncate ino n d).
Proof. done. Qed.

(** The disk after a reader cut the file at the end of what it could read. *)
Definition cut (ino n : N) (t : bytes) (d : Disk) : Disk := match t with [] => d | _ => truncate ino n d end.

Lemma read_records_ok l d ino f hour rs fs t : inodes d !! ino = Some f -> max_record_bytes l <= u32_max ->
  Forall2 (framed (max_record_bytes l)) rs fs -> Forall (of_hour hour) rs -> (t = [] \/ torn (max_record_bytes l) t) ->
  forall pre acc fuel, contents f = pre ++ concat fs ++ t -> (length (concat fs ++ t) < fuel)%nat ->
  goes (read_records fuel l ino (lenN (contents f)) hour (lenN pre) acc) d
    (acc ++ rs, match t with [] => false | _ => true end) (cut ino (lenN pre + lenN (concat fs)) t d).
Proof.
  intros Hi Hmax HF. induction HF as [|r f1 rs fs Hf1 HF IH]; intros Hok Ht pre acc fuel Hc Hfuel;
    (destruct fuel as [|fuel]; [lia|]); cbn [read_records].
  - cbn [concat app] in *. change (lenN (concat [])) with 0 in *. rewrite Hc, lenN_app. destruct t as [|b t].
    + rewrite (proj2 (N.leb_le _ _)) by (rewrite lenN_nil; lia). by rewrite app_nil_r.
    + destruct Ht as [|Ht]; [done|]. rewrite (proj2 (N.leb_gt _ _)) by (rewrite lenN_cons; lia).
      replace (lenN pre + lenN (b :: t) - lenN pre) with (lenN (b :: t)) by lia. unfold cut. rewrite N.add_0_r, app_nil_r.
      destruct (torn_parts _ _ Ht Hmax) as [H8|(H8 & Hm & Hl)]; [by rewrite (proj2 (N.ltb_lt _ _) H8)|].
      rewrite (proj2 (N.ltb_ge _ _) H8). eapply goes_bind; [apply call_fine|].
      eapply goes_bind; [apply (read_exact_ok _ _ f); [done|rewrite Hc, lenN_app; lia]|].
      rewrite Hc, slice_app_r by lia. rewrite N.sub_diag. replace (lenN pre + RECORD_HEADER_SIZE - lenN pre) with 8 by (unfold RECORD_HEADER_SIZE; lia).
      assert (Hs : slice (slice (b :: t) 0 8) 0 4 = slice (b :: t) 0 4).
      { unfold slice. rewrite !dropN_0, !N.sub_0_r. unfold takeN. rewrite take_take. f_equal. }
      rewrite Hs, (proj2 (N.ltb_ge _ _) Hm), (proj2 (N.ltb_lt _ _) Hl). done.
  - inversion Hok as [|? ? [Hr Hh] Hok']; subst. destruct (framed_parts _ _ _ Hf1 Hr Hmax) as (H8 & Hl1 & Hm & Hcrc & Hd).
    cbn [concat] in *. rewrite <- app_assoc in Hc, Hfuel.
    set (rest := concat fs ++ t) in *. unfold RECORD_HEADER_SIZE in *.
    assert (Hlen : lenN (contents f) = lenN pre + lenN f1 + lenN rest) by (rewrite Hc, !lenN_app; lia).
    assert (Hslice : forall i j, j <= lenN f1 -> slice (contents f) (lenN pre + i) (lenN pre + j) = slice f1 i j).
    { intros i j Hj. rewrite Hc, slice_app_r by lia. replace (lenN pre + i - lenN pre) with i by lia.
      replace (lenN pre + j - lenN pre) with j by lia. by apply slice_app_l. }
    rewrite (proj2 (N.leb_gt _ _)) by lia. rewrite (proj2 (N.ltb_ge _ 8)) by lia.
    eapply goes_bind; [apply call_fine|]. eapply goes_bind; [apply (read_exact_ok _ _ f); [done|lia]|].
    assert (Hhead : slice (contents f) (lenN pre) (lenN pre + 8) = slice f1 0 8) by (rewrite <- (N.add_0_r (lenN pre)) at 1; by apply Hslice).
    rewrite Hhead, !(slice_slice f1 0 8) by lia. rewrite (proj2 (N.ltb_ge _ _) Hm), (proj2 (N.ltb_ge _ _)) by lia.
    eapply goes_bind; [apply (read_exact_ok _ _ f); [done|lia]|]. rewrite <- N.add_assoc, Hslice by lia.
    replace (8 + be_val (slice f1 0 4)) with (lenN f1) by lia. rewrite slice_to_end, Hcrc, N.eqb_refl, Hd.
    change (record_ms r / 3600000 * 3600000) with (hour_of (record_ms r)). rewrite N.eqb_refl. cbn [negb].
    specialize (IH Hok' Ht (pre ++ f1) (acc ++ [r]) fuel). rewrite lenN_app, <- !app_assoc in IH.
    rewrite lenN_app, N.add_assoc. apply IH; [done|]. rewrite length_app in Hfuel. unfold lenN in *. lia.
Qed.

(** A prefix of frames is some of them and a torn one. *)
Lemma take_frames max rs fs : Forall2 (framed max) rs fs -> Forall minute_ok rs -> forall m, exists k t,
  takeN m (concat fs) = concat (take k fs) ++ t /\ (t = [] \/ torn max t) /\
  (k <= length fs)%nat /\ ((k < length fs)%nat -> m < lenN (concat (take (S k) fs))).
Proof.
  intros HF. induction HF as [|r f rs fs Hf HF IH]; intros Hok m.
  - exists 0%nat, []. split_and!; [|by left|done|cbn; lia]. cbn. unfold takeN. apply take_nil.
  - inversion Hok as [|? ? Hr Hok']; subst. destruct (N.ltb_spec m (lenN f)) as [Hm|Hm].
    + exists 0%nat, (takeN m f). cbn [take concat app]. rewrite takeN_app_le by lia. split_and!; [done| |lia|].
      * right. exists r, f, (dropN m f). rewrite takeN_dropN. split_and!; [done..|]. intros Hn%(f_equal lenN).
        rewrite lenN_dropN, lenN_nil in Hn. lia.
      * intros _. rewrite take_0. cbn. by rewrite app_nil_r.
    + destruct (IH Hok' (m - lenN f)) as (k & t & Ht & Htorn & Hk & Hlt). exists (S k), t. cbn [take concat length].
      split_and!; [|done|lia|].
      * rewrite <- app_assoc, <- Ht. unfold takeN. rewrite take_app. unfold lenN in *. rewrite take_ge by lia. do 2 f_equal. lia.
      * intros Hl. change (take (S (S k)) (f :: fs)) with (f :: take (S k) fs). cbn [concat]. rewrite lenN_app.
        assert (m - lenN f < lenN (concat (take (S k) fs))) by (apply Hlt; lia). lia.
Qed.

(** The contents of a segment with records [rs]. *)
Definition segment_bytes (h : SegmentHeader) (fs : list bytes) : bytes := encode_segment_header h ++ concat fs.

Lemma verify_ok d path f : lookup_file d path = Some f -> private d f = true -> goes (verify_private_file path) d tt d.
Proof. intros Hf Hp. unfold goes, verify_private_file, symlink_metadata, mbind, M_bind. rewrite call_fine. cbn. rewrite Hf. cbn. by rewrite Hp. Qed.
Lemma private_kind d f : private d f = true -> kind f = Regular.
Proof. unfold private. rewrite !andb_true_iff, bool_decide_eq_true. by intros [[? _] _]. Qed.
Lemma open_ok d path ino f : names d !! path = Some ino -> inodes d !! ino = Some f -> kind f = Regular ->
  goes (open_existing path) d ino d.
Proof.
  intros Hn Hi Hk. unfold goes, open_existing, mbind, M_bind. rewrite call_fine. cbn. unfold lookup_file. rewrite Hn. cbn.
  rewrite Hi. cbn. by rewrite Hk.
Qed.
Lemma file_len_ok d ino f : inodes d !! ino = Some f -> goes (file_len ino) d (lenN (contents f)) d.
Proof. intros Hi. unfold goes, file_len, file_of, mbind, M_bind. rewrite call_fine. cbn. by rewrite Hi. Qed.

Lemma read_segment_ok l d path ino f h rs fs t : names d !! path = Some ino -> inodes d !! ino = Some f -> private d f = true ->
  is_u64 (hour_start_ms h) -> is_u32 (sequence h) -> max_record_bytes l <= u32_max -> lenN (contents f) <= max_segment_bytes l ->
  Forall2 (framed (max_record_bytes l)) rs fs -> Forall (of_hour (hour_start_ms h)) rs -> (t = [] \/ torn (max_record_bytes l) t) ->
  contents f = segment_bytes h fs ++ t ->
  goes (read_segment path l) d (rs, match t with [] => false | _ => true end) (cut ino (lenN (segment_bytes h fs)) t d).
Proof.
  intros Hn Hi Hp Hh Hs Hmax Hlen HF Hok Ht Hc. unfold segment_bytes in Hc. rewrite <- app_assoc in Hc.
  pose proof (MetricFormat.lenN_segment_header h) as Hhl. unfold read_segment.
  assert (Hl : lookup_file d path = Some f) by (unfold lookup_file; rewrite Hn; done).
  eapply goes_bind; [by eapply verify_ok|]. eapply goes_bind; [by eapply open_ok, private_kind|].
  eapply goes_bind; [by apply file_len_ok|]. rewrite (proj2 (N.ltb_ge _ _) Hlen).
  eapply goes_bind; [apply (read_exact_ok _ _ f); [done|rewrite Hc, lenN_app; lia]|].
  rewrite N.add_0_l, Hc, slice_prefix by done. rewrite MetricFormat.segment_header_roundtrip by done. rewrite <- Hc.
  unfold segment_bytes. rewrite lenN_app, <- Hhl. apply (read_records_ok l d ino f _ rs fs t Hi Hmax HF Hok Ht _ [] _ Hc).
  rewrite Hc. unfold lenN. rewrite !length_app. lia.
Qed.

(** C31: A crash while records are appended costs at most the record that was
    being written: whatever part of a segment reached the disk, once its header
    is complete, reading it gives exactly the records that are there in whole,
    in order, and cuts the file back to them. *)
Theorem segment_crash_safe l d path ino f h rs fs n :
  names d !! path = Some ino -> inodes d !! ino = Some f -> private d f = true ->
  is_u64 (hour_start_ms h) -> is_u32 (sequence h) -> max_record_bytes l <= u32_max -> lenN (contents f) <= max_segment_bytes l ->
  Forall2 (framed (max_record_bytes l)) rs fs -> Forall (of_hour (hour_start_ms h)) rs ->
  SEGMENT_HEADER_SIZE <= n -> contents f = takeN n (segment_bytes h fs) ->
  exists k repaired d', goes (read_segment path l) d (take k rs, repaired) d' /\
    contents <$> lookup_file d' path = Some (segment_bytes h (take k fs)) /\
    lenN (segment_bytes h (take k fs)) <= n /\ ((k < length rs)%nat -> n < lenN (segment_bytes h (take (S k) fs))).
Proof.
  intros Hn Hi Hp Hh Hs Hmax Hlen HF Hok H24 Hc.
  pose proof (MetricFormat.lenN_segment_header h) as Hhl.
  destruct (take_frames _ _ _ HF (Forall_impl _ _ _ Hok (fun r H => proj1 H)) (n - SEGMENT_HEADER_SIZE)) as (k & t & Htake & Ht & Hk & Hlt).
  assert (Hc' : contents f = segment_bytes h (take k fs) ++ t).
  { rewrite Hc. unfold segment_bytes. rewrite <- app_assoc, <- Htake. unfold takeN. rewrite take_app.
    unfold lenN in *. rewrite take_ge by lia. do 2 f_equal. lia. }
  exists k, (match t with [] => false | _ => true end), (cut ino (lenN (segment_bytes h (take k fs))) t d). split_and!.
  - eapply read_segment_ok; try done; [by apply Forall2_take|by apply Forall_take].
  - unfold lookup_file. destruct t as [|b t]; cbn [cut].
    + rewrite Hn. cbn. rewrite Hi. cbn. by rewrite Hc', app_nil_r.
    + cbn. rewrite Hn. cbn. rewrite lookup_alter_eq, Hi. cbn. f_equal. rewrite Hc'. by apply takeN_app.
  - assert (Hle : lenN (contents f) <= n) by (rewrite Hc, lenN_takeN; lia). rewrite Hc', lenN_app in Hle. lia.
  - rewrite (Forall2_length _ _ _ HF). intros Hkl%Hlt. unfold segment_bytes. rewrite lenN_app, Hhl. unfold SEGMENT_HEADER_SIZE in *. lia.
Qed.

(** ** Runs without faults, backwards *)

Definition settled {A} (m : IO A) : Prop := forall d r w, m (mkWorld d []) = Some (r, w) -> answers w = [].

Lemma settled_bind {A B} (m : IO A) (k : A -> IO B) : settled m -> (forall a, settled (k a)) -> settled (m ≫= k).
Proof.
  intros Hm Hk d r w. unfold mbind, M_bind. destruct (m _) as [[[a|e] [d' a']]|] eqn:E; [|intros [= <- <-]; by eapply Hm|done].
  apply Hm in E. cbn in E. subst. apply Hk.
Qed.
Lemma settled_ret {A} (a : A) : settled (mret a).
Proof. by intros d r w [= <- <-]. Qed.
Lemma settled_fail {A} : settled (fail (A := A) IoFailed).
Proof. by intros d r w [= <- <-]. Qed.
Lemma settled_panic {A} : settled (panic (A := A)).
Proof. by intros d r w. Qed.
Lemma settled_call : settled call.
Proof. by intros d r w [= <- <-]. Qed.
Lemma settled_get : settled get.
Proof. by intros d r w [= <- <-]. Qed.
Lemma settled_modify f : settled (modify (set_disk f)).
Proof. by intros d r w [= <- <-]. Qed.
Lemma settled_attempt {A} (m : IO A) : settled m -> settled (attempt m).
Proof. intros Hm d r w. unfold attempt. destruct (m _) as [[x w']|] eqn:E; [|done]. intros [= <- <-]. by eapply Hm. Qed.
Create HintDb settled.
#[local] Hint Resolve settled_ret settled_fail settled_panic settled_call settled_get settled_modify settled_attempt : settled.
Ltac settled := repeat first [ progress auto with settled | apply settled_bind; [|intros ?] | case_match ].

Lemma settled_file_of ino : settled (file_of ino).
Proof. unfold file_of. settled. Qed.
#[local] Hint Resolve settled_file_of : settled.
Lemma settled_verify path : settled (verify_private_file path).
Proof. unfold verify_private_file, symlink_metadata. settled. Qed.
Lemma settled_open path : settled (open_existing path).
Proof. unfold open_existing. settled. Qed.
Lemma settled_file_len ino : settled (file_len ino).
Proof. unfold file_len. settled. Qed.
Lemma settled_path_len path : settled (path_len path).
Proof. unfold path_len. settled. Qed.
Lemma settled_read_exact ino a b : settled (read_exact ino a b).
Proof. unfold read_exact. settled. Qed.
Lemma settled_set_len ino n : settled (set_len ino n).
Proof. unfold set_len. settled. Qed.
#[local] Hint Resolve settled_verify settled_open settled_file_len settled_path_len settled_read_exact settled_set_len : settled.
Lemma settled_read_records fuel l ino len hour : forall offset acc, settled (read_records fuel l ino len hour offset acc).
Proof. induction fuel as [|fuel IH]; intros offset acc; cbn [read_records]; settled. Qed.
#[local] Hint Resolve settled_read_records : settled.
Lemma settled_read_segment path l : settled (read_segment path l).
Proof. unfold read_segment. settled. Qed.
#[local] Hint Resolve settled_read_segment : settled.

Lemma goes_inv {A B} (m : IO A) (k : A -> IO B) d b d'' : settled m -> goes (m ≫= k) d b d'' ->
  exists a d', goes m d a d' /\ goes (k a) d' b d''.
Proof.
  intros Hm. unfold goes, mbind, M_bind. destruct (m _) as [[[a|e] [d' a']]|] eqn:E; [|done..].
  pose proof (Hm _ _ _ E) as Ha. cbn in Ha. subst a'. intros Hk. by exists a, d'.
Qed.
Lemma goes_ret_inv {A} (a b : A) d d' : goes (mret a) d b d' -> b = a /\ d' = d.
Proof. by intros [= <- <-]. Qed.
Lemma goes_call_inv d u d' : goes call d u d' -> d' = d.
Proof. by intros [= _ <-]. Qed.

Lemma verify_inv d path u d' : goes (verify_private_file path) d u d' ->
  d' = d /\ exists f, lookup_file d path = Some f /\ private d f = true.
Proof.
  unfold goes, verify_private_file, symlink_metadata, mbind, M_bind. rewrite call_fine. cbn.
  destruct (lookup_file d path) as [f|]; [|done]. cbn. destruct (private d f) eqn:E; [|done]. intros [= _ <-]. by eauto.
Qed.
Lemma open_inv d path ino d' : goes (open_existing path) d ino d' -> d' = d /\ names d !! path = Some ino.
Proof.
  unfold goes, open_existing, mbind, M_bind. rewrite call_fine. cbn.
  destruct (names d !! path) as [i|]; [|done]. destruct (kind <$> _) as [[]|]; try done; by intros [= <- <-].
Qed.
Lemma file_len_inv d ino n d' : goes (file_len ino) d n d' -> d' = d /\ exists f, inodes d !! ino = Some f /\ n = lenN (contents f).
Proof.
  unfold goes, file_len, file_of, mbind, M_bind. rewrite call_fine. cbn. destruct (inodes d !! ino) as [f|]; [|done].
  intros [= <- <-]. by eauto.
Qed.
Lemma read_exact_inv d ino f offset n bs d' : inodes d !! ino = Some f -> goes (read_exact ino offset n) d bs d' ->
  d' = d /\ offset + n <= lenN (contents f) /\ bs = slice (contents f) offset (offset + n).
Proof.
  intros Hi. unfold goes, read_exact, file_of, mbind, M_bind. rewrite call_fine. cbn. rewrite Hi. cbn.
  destruct (N.ltb_spec (lenN (contents f)) (offset + n)); [done|]. by intros [= <- <-].
Qed.

(** What was read successfully is a segment with a torn or no end. *)
Lemma frame_of_bytes l bs r hour : lenN bs < 2 ^ 32 -> lenN bs <= max_record_bytes l -> decode_minute bs = Ok r -> hour_of (record_ms r) = hour ->
  framed (max_record_bytes l) r (u32_be (lenN bs) ++ u32_be (crc32 bs) ++ bs) /\ of_hour hour r.
Proof.
  intros Hl Hm [Hok He]%MetricFormat.minute_format_canonical Hh; [|unfold fits, isize_max; change (2 ^ 32) with 4294967296 in Hl; lia].
  split; [|done]. apply MetricFormat.frame_iff. by exists bs.
Qed.

Lemma read_records_inv l d ino f hour : inodes d !! ino = Some f -> forall fuel pre tail acc rs rep d',
  contents f = pre ++ tail -> goes (read_records fuel l ino (lenN (contents f)) hour (lenN pre) acc) d (rs, rep) d' ->
  exists rs' fs t, rs = acc ++ rs' /\ tail = concat fs ++ t /\ Forall2 (framed (max_record_bytes l)) rs' fs /\
    Forall (of_hour hour) rs' /\ d' = cut ino (lenN pre + lenN (concat fs)) t d.
Proof.
  intros Hi. induction fuel as [|fuel IH]; intros pre tail acc rs rep d' Hc Hg; [done|]. cbn [read_records] in Hg.
  assert (Hlen : lenN (contents f) = lenN pre + lenN tail) by (by rewrite Hc, lenN_app).
  destruct (N.leb_spec (lenN (contents f)) (lenN pre)) as [Hle|Hle].
  { apply goes_ret_inv in Hg as [[= -> ->] ->]. assert (tail = []) as -> by (apply lenN_0_inv; lia).
    exists [], [], []. by rewrite app_nil_r. }
  assert (Hcut : forall b, goes (_ ← set_len ino (lenN pre); mret (acc, b)) d (rs, rep) d' ->
    exists rs' fs t, rs = acc ++ rs' /\ tail = concat fs ++ t /\ Forall2 (framed (max_record_bytes l)) rs' fs /\
    Forall (of_hour hour) rs' /\ d' = cut ino (lenN pre + lenN (concat fs)) t d).
  { intros b Hs. apply goes_inv in Hs as ([] & d1 & Hs & Hret); [|apply settled_set_len]. apply goes_ret_inv in Hret as [[= -> ->] ->].
    injection Hs as <-. exists [], [], tail. cbn [concat app]. rewrite app_nil_r. split_and!; try done.
    destruct tail; [change (lenN []) with 0 in Hlen; lia|]. cbn [cut]. f_equal. change (lenN []) with 0. lia. }
  destruct (_ <? RECORD_HEADER_SIZE) eqn:E8 in Hg; [by eapply Hcut|]. apply N.ltb_ge in E8.
  apply goes_inv in Hg as (? & ? & Hg1 & Hg); [|apply settled_call]. apply goes_call_inv in Hg1 as ->.
  apply goes_inv in Hg as (header & ? & Hg1 & Hg); [|apply settled_read_exact]. apply (read_exact_inv _ _ _ _ _ _ _ Hi) in Hg1 as (-> & Hl1 & ->).
  assert (Htail : forall i j, slice (contents f) (lenN pre + i) (lenN pre + j) = slice tail i j).
  { intros i j. rewrite Hc, slice_app_r by lia. f_equal; lia. }
  assert (Hhead : slice (contents f) (lenN pre) (lenN pre + RECORD_HEADER_SIZE) = slice tail 0 8)
    by (rewrite <- (N.add_0_r (lenN pre)) at 1; apply Htail).
  unfold RECORD_HEADER_SIZE in *. rewrite Hhead in Hg. rewrite !(slice_slice tail 0 8) in Hg by lia.
  set (n := be_val (slice tail 0 4)) in *. destruct (N.ltb_spec (max_record_bytes l) n) as [|Hmax]; [done|].
  destruct (_ <? 8 + n) eqn:En in Hg; [by eapply Hcut|]. apply N.ltb_ge in En.
  apply goes_inv in Hg as (payload & ? & Hg1 & Hg); [|apply settled_read_exact].
  apply (read_exact_inv _ _ _ _ _ _ _ Hi) in Hg1 as (-> & Hl2 & ->). rewrite <- N.add_assoc, Htail in Hg.
  set (payload := slice tail 8 (8 + n)) in *. destruct (N.eqb_spec (crc32 payload) (be_val (slice tail 4 8))) as [Hcrc|]; [|done].
  cbn [negb] in Hg. destruct (decode_minute payload) as [r|] eqn:Ed; [|done].
  destruct (N.eqb_spec (record_ms r / 3600000 * 3600000) hour) as [Hh|]; [|done]. cbn [negb] in Hg.
  assert (Hp : lenN payload = n) by (unfold payload; rewrite lenN_slice by lia; lia).
  assert (Hn : n < 2 ^ 32).
  { unfold n. eapply N.lt_le_trans; [apply be_val_lt|]. rewrite lenN_slice by lia. done. }
  destruct (frame_of_bytes l payload r hour) as [Hf Hok]; [by rewrite Hp|by rewrite Hp|done|done|].
  set (fr := u32_be (lenN payload) ++ u32_be (crc32 payload) ++ payload) in *.
  assert (Hb : forall i j, j - i = 4 -> j <= lenN tail -> u32_be (be_val (slice tail i j)) = slice tail i j).
  { intros i j Hij Hj. apply be_bytes_val. assert (lenN (slice tail i j) = j - i) by (apply lenN_slice; lia). unfold lenN in *. lia. }
  assert (Hfr : fr = takeN (8 + n) tail).
  { unfold fr. rewrite Hp, Hcrc. unfold n. rewrite !Hb by lia. fold n. unfold payload.
    rewrite !MetricFormat.slice_join by lia. unfold slice. by rewrite dropN_0, N.sub_0_r. }
  assert (Ht : tail = fr ++ dropN (8 + n) tail) by (by rewrite Hfr, takeN_dropN).
  assert (Hlf : lenN fr = 8 + n) by (rewrite Hfr, lenN_takeN; lia).
  replace (lenN pre + (8 + n)) with (lenN (pre ++ fr)) in Hg by (rewrite lenN_app; lia).
  apply (IH (pre ++ fr) (dropN (8 + n) tail)) in Hg as (rs' & fs & t & -> & Hd & HF & Hoks & ->); [|by rewrite <- app_assoc, <- Ht].
  exists (r :: rs'), (fr :: fs), t. cbn [concat]. split_and!; [by rewrite <- app_assoc|by rewrite <- app_assoc, <- Hd|by constructor|by constructor|].
  f_equal. rewrite !lenN_app. lia.
Qed.

(** [path] holds the records [rs] under the header [h], and nothing else. *)
Definition holds (l : StorageLimits) (d : Disk) (path : str) (ino : N) (h : SegmentHeader) (rs : list MinuteRecord) : Prop :=
  names d !! path = Some ino /\ is_u64 (hour_start_ms h) /\ is_u32 (sequence h) /\ Forall (of_hour (hour_start_ms h)) rs /\
  exists f fs, inodes d !! ino = Some f /\ private d f = true /\ Forall2 (framed (max_record_bytes l)) rs fs /\
    contents f = segment_bytes h fs.

Lemma read_segment_inv l path d rs rep d' : goes (read_segment path l) d (rs, rep) d' ->
  exists ino h, holds l d' path ino h rs /\ names d' = names d.
Proof.
  unfold read_segment. intros Hg.
  apply goes_inv in Hg as ([] & ? & Hg1 & Hg); [|apply settled_verify]. apply verify_inv in Hg1 as (-> & f & Hf & Hp).
  apply goes_inv in Hg as (ino & ? & Hg1 & Hg); [|apply settled_open]. apply open_inv in Hg1 as (-> & Hn).
  apply goes_inv in Hg as (len & ? & Hg1 & Hg); [|apply settled_file_len]. apply file_len_inv in Hg1 as (-> & f' & Hi & ->).
  unfold lookup_file in Hf. rewrite Hn in Hf. cbn in Hf. rewrite Hi in Hf. injection Hf as ->.
  destruct (_ <? _); [done|]. apply goes_inv in Hg as (header & ? & Hg1 & Hg); [|apply settled_read_exact].
  apply (read_exact_inv _ _ _ _ _ _ _ Hi) in Hg1 as (-> & Hl & ->). destruct (decode_segment_header _) as [h|] eqn:Eh; [|done].
  apply MetricFormat.segment_header_canonical in Eh as (Eh & Hh & Hs). exists ino, h. rewrite N.add_0_l in *.
  assert (Hc : contents f = encode_segment_header h ++ dropN SEGMENT_HEADER_SIZE (contents f)).
  { rewrite <- Eh. unfold slice. by rewrite dropN_0, N.sub_0_r, takeN_dropN. }
  rewrite <- (MetricFormat.lenN_segment_header h) in Hg.
  apply (read_records_inv l d ino f _ Hi _ _ _ [] _ _ _ Hc) in Hg as (rs' & fs & t & -> & Ht & HF & Hok & ->). cbn [app] in *.
  rewrite Ht in Hc. split; [|by destruct t]. split_and!; [by destruct t|done..|].
  destruct t as [|b t]; cbn [cut].
  - exists f, fs. rewrite app_nil_r in Hc. by split_and!.
  - set (n := lenN (encode_segment_header h) + lenN (concat fs)).
    exists (mkInode (kind f) (uid f) (mode f) (takeN n (contents f))), fs. split_and!; [|done|done|].
    + cbn. by rewrite lookup_alter_eq, Hi.
    + cbn [contents]. rewrite Hc, app_assoc. unfold segment_bytes, n. apply takeN_app. by rewrite lenN_app.
Qed.

(** The open segment, as [current] describes it. *)
Definition is_current (s : Storage) (d : Disk) (c : CurrentSegment) (h : SegmentHeader) (rs : list MinuteRecord) : Prop :=
  c_hour_ms c = hour_start_ms h /\ holds (limits s) d (Daemon.join (dir s) (c_path c)) (c_file c) h rs.

(** The calls of the directory. *)
Lemma settled_read_dir p : settled (read_dir p).
Proof. unfold read_dir. settled. Qed.
Lemma settled_segment_paths p : settled (segment_paths p).
Proof. unfold segment_paths. apply settled_bind; [apply settled_attempt, settled_read_dir|intros ?; apply settled_ret]. Qed.
Lemma segment_paths_inv p d l d' : goes (segment_paths p) d l d' -> d' = d /\ l = segment_names p d.
Proof. by intros [= <- <-]. Qed.
#[local] Hint Resolve settled_read_dir settled_segment_paths : settled.

Lemma attempt_inv {A} (m : IO A) d r d' : settled m -> goes (attempt m) d r d' ->
  match r with Ok a => goes m d a d' | Err e => m (mkWorld d []) = Some (Err e, mkWorld d' []) end.
Proof. intros Hm. unfold goes, attempt. destruct (m _) as [[[a|e] w]|] eqn:E; [| |done]; by intros [= <- <-]. Qed.

(** Reading may cut files, and does nothing else. *)
Definition trimmed (d d' : Disk) : Prop :=
  names d' = names d /\ forall ino f', inodes d' !! ino = Some f' -> exists f n, inodes d !! ino = Some f /\ contents f' = takeN n (contents f).
Definition trims {A} (m : IO A) : Prop := forall w r w', m w = Some (r, w') -> trimmed (disk w) (disk w').

Lemma trimmed_refl d : trimmed d d.
Proof. split; [done|]. intros ino f Hf. exists f, (lenN (contents f)). by rewrite takeN_ge. Qed.
Lemma trimmed_trans d1 d2 d3 : trimmed d1 d2 -> trimmed d2 d3 -> trimmed d1 d3.
Proof.
  intros [N1 H1] [N2 H2]. split; [congruence|]. intros ino f3 (f2 & n & Hf2 & ->)%H2. destruct (H1 _ _ Hf2) as (f1 & m & Hf1 & ->).
  exists f1, (N.min n m). split; [done|]. unfold takeN. rewrite take_take. f_equal. lia.
Qed.
Lemma trims_bind {A B} (m : IO A) (k : A -> IO B) : trims m -> (forall a, trims (k a)) -> trims (m ≫= k).
Proof.
  intros Hm Hk w r w'. unfold mbind, M_bind. destruct (m w) as [[[a|e] w1]|] eqn:E; [|intros [= <- <-]; by eapply Hm|done].
  intros Hr%Hk. eapply trimmed_trans; [by eapply Hm|done].
Qed.
Lemma trims_ret {A} (a : A) : trims (mret a).
Proof. intros w r w' [= <- <-]. apply trimmed_refl. Qed.
Lemma trims_fail {A} : trims (fail (A := A) IoFailed).
Proof. intros w r w' [= <- <-]. apply trimmed_refl. Qed.
Lemma trims_panic {A} : trims (panic (A := A)).
Proof. by intros w r w'. Qed.
Lemma trims_call : trims call.
Proof.
  intros w r w'. unfold call, ask_kernel, mbind, M_bind. destruct (answers w) as [|[] ?]; intros [= <- <-]; apply trimmed_refl.
Qed.
Lemma trims_get : trims get.
Proof. intros w r w' [= <- <-]. apply trimmed_refl. Qed.
Lemma trims_set_len ino n : trims (set_len ino n).
Proof.
  apply trims_bind; [apply trims_call|intros _]. intros w r w' [= <- <-]. split; [done|]. cbn. intros i f'.
  rewrite lookup_alter_Some. intros [(-> & f & Hf & ->)|[_ Hf]]; [by exists f, n|]. exists f', (lenN (contents f')). by rewrite takeN_ge.
Qed.
#[local] Hint Resolve trims_ret trims_fail trims_panic trims_call trims_get trims_set_len : settled.
Ltac trims := repeat first [ progress auto with settled | apply trims_bind; [|intros ?] | case_match ].
Lemma trims_file_of ino : trims (file_of ino).
Proof. unfold file_of. trims. Qed.
#[local] Hint Resolve trims_file_of : settled.
Lemma trims_read_exact ino a b : trims (read_exact ino a b).
Proof. unfold read_exact. trims. Qed.
#[local] Hint Resolve trims_read_exact : settled.
Lemma trims_read_records fuel l ino len hour : forall offset acc, trims (read_records fuel l ino len hour offset acc).
Proof. induction fuel as [|fuel IH]; intros offset acc; cbn [read_records]; trims. Qed.
#[local] Hint Resolve trims_read_records : settled.
Lemma trims_read_segment path l : trims (read_segment path l).
Proof. unfold read_segment, verify_private_file, symlink_metadata, open_existing, file_len. trims. Qed.

(** The name of each segment says the hour that its header says. *)
Definition well_named (s : Storage) (d : Disk) : Prop :=
  forall name hour sequence ino f h rest, parse_segment_name name = Some (hour, sequence) ->
    names d !! Daemon.join (dir s) name = Some ino -> inodes d !! ino = Some f -> contents f = encode_segment_header h ++ rest ->
    is_u64 (hour_start_ms h) -> hour_start_ms h = hour.

Lemma well_named_trimmed s d d' : well_named s d -> trimmed d d' -> well_named s d'.
Proof.
  intros Hw [Hn Ht] name hour sq ino f' h rest Hp Hname (f & n & Hf & Hc')%Ht Hc Hu. rewrite Hn in Hname. rewrite Hc in Hc'.
  eapply (Hw name hour sq ino f h (rest ++ dropN n (contents f)) Hp Hname Hf); [|done].
  by rewrite app_assoc, Hc', takeN_dropN.
Qed.

Lemma resume_inv s hour at_ size : forall paths d r d', well_named s d -> goes (resume_from s hour at_ size paths) d r d' ->
  match r with
  | None => True
  | Some (c, last_timestamp) => c_hour_ms c = hour /\ exists h rs, is_current s d' c h rs
  end.
Proof.
  induction paths as [|path paths IH]; intros d r d' Hw Hg; cbn [resume_from] in Hg; [by apply goes_ret_inv in Hg as [-> _]|].
  case_bool_decide as Hp; cbn [negb] in Hg; [|by eapply IH].
  apply goes_inv in Hg as (x & d1 & Hg1 & Hg); [|apply settled_attempt, settled_read_segment].
  assert (Hw1 : well_named s d1).
  { eapply well_named_trimmed; [done|]. revert Hg1. unfold goes, attempt. destruct (read_segment _ _ _) as [[y w]|] eqn:E; [|done].
    apply trims_read_segment in E. by intros [= _ ->]. }
  apply attempt_inv in Hg1; [|apply settled_read_segment]. destruct x as [[rs rep]|]; [|by eapply IH].
  destruct (match _ with Some t => _ | None => _ end); [by apply goes_ret_inv in Hg as [-> _]|].
  apply goes_inv in Hg as (len & d2 & Hg2 & Hg); [|apply settled_path_len].
  assert (d2 = d1) as ->.
  { revert Hg2. unfold goes, path_len, mbind, M_bind. rewrite call_fine. cbn. destruct (lookup_file d1 _); [|done]. by intros [= _ <-]. }
  destruct (_ <? _); [by apply goes_ret_inv in Hg as [-> _]|].
  apply goes_inv in Hg as (ino & ? & Hg3 & Hg); [|apply settled_open]. apply open_inv in Hg3 as (-> & Hn).
  apply goes_ret_inv in Hg as [-> ->]. apply read_segment_inv in Hg1 as (ino' & h & Hh & _). split; [done|].
  exists h, rs. unfold is_current. cbn [c_hour_ms c_path c_file]. pose proof Hh as (Hn' & Hu & _ & _ & f & fs & Hf & _ & _ & Hc).
  rewrite Hn in Hn'. injection Hn' as <-. split; [|done]. destruct (parse_segment_name path) as [[ho sq]|] eqn:E; [|done].
  injection Hp as ->. symmetry. by eapply (Hw1 path hour sq ino f h (concat fs)).
Qed.

Lemma next_sequence_u32 paths hour : is_u32 (next_sequence paths hour).
Proof.
  unfold next_sequence, is_u32. destruct (List.filter _ _) as [|x l]; [done|]. change (2 ^ 32) with 4294967296. unfold u32_max. lia.
Qed.

Lemma settled_open_new path m : settled (open_new path m).
Proof. unfold open_new. settled. Qed.
Lemma settled_write_all ino bs : settled (write_all ino bs).
Proof.
  intros d r w. unfold write_all, ask_kernel, mbind, M_bind. cbn. by intros [= <- <-].
Qed.
Lemma settled_remove path : settled (remove_file path).
Proof. unfold remove_file. settled. Qed.
#[local] Hint Resolve settled_open_new settled_write_all settled_remove : settled.

Definition appended (ino : N) (bs : bytes) (d : Disk) : Disk :=
  set_inodes (alter (fun f => mkInode (kind f) (uid f) (mode f) (contents f ++ bs)) ino) d.
Lemma write_inv ino bs d u d' : goes (write_all ino bs) d u d' -> d' = appended ino bs d.
Proof. by intros [= _ <-]. Qed.

Lemma create_inv s hour d c d' : is_u64 hour -> goes (create_segment s hour) d c d' ->
  c_hour_ms c = hour /\ exists sq, is_current s d' c (mkHeader hour sq) [].
Proof.
  intros Hu Hg. unfold create_segment in Hg. apply goes_inv in Hg as (l & ? & Hg1 & Hg); [|apply settled_read_dir].
  assert (x = d) as -> by (by injection Hg1 as _ <-). destruct (_ <=? _); [done|].
  apply goes_inv in Hg as (paths & ? & Hg2 & Hg); [|apply settled_segment_paths]. apply segment_paths_inv in Hg2 as [-> ->].
  set (sq := next_sequence _ hour) in *. apply goes_inv in Hg as (ino & d1 & Hg3 & Hg); [|apply settled_open_new].
  set (path := Daemon.join (dir s) (segment_name hour sq)) in *.
  assert (ino = next d /\ d1 = create path 384 d) as [-> ->].
  { revert Hg3. unfold goes, open_new, mbind, M_bind. rewrite call_fine. cbn. destruct (names d !! path); [done|]. by intros [= <- <-]. }
  apply goes_inv in Hg as (? & d2 & Hg4 & Hg); [|apply settled_write_all]. apply write_inv in Hg4 as ->.
  apply goes_inv in Hg as (? & d3 & Hg5 & Hg); [|apply settled_verify]. apply verify_inv in Hg5 as (-> & f & Hf & Hp).
  apply goes_ret_inv in Hg as [-> ->]. split; [done|]. exists sq. split; [done|].
  cbn [c_path c_file]. fold path. split_and!; [cbn; by rewrite lookup_insert_eq|done|apply next_sequence_u32|done|].
  revert Hf. unfold lookup_file. cbn. rewrite lookup_insert_eq. cbn. rewrite lookup_alter_eq, lookup_insert_eq. cbn. intros [= <-].
  eexists _, []. split_and!; [done|exact Hp|constructor|]. cbn [contents]. unfold segment_bytes. cbn [concat]. by rewrite app_nil_r.
Qed.

Lemma holds_append l d path ino h rs r fr : holds l d path ino h rs -> framed (max_record_bytes l) r fr -> of_hour (hour_start_ms h) r ->
  holds l (appended ino fr d) path ino h (rs ++ [r]).
Proof.
  intros (Hn & Hh & Hs & Hok & f & fs & Hf & Hp & HF & Hc) Hfr Hr. split_and!; [done..|by apply Forall_app_2; [|constructor]|].
  eexists _, (fs ++ [fr]). split_and!; [cbn; by rewrite lookup_alter_eq, Hf|exact Hp|by apply Forall2_app; [|constructor]|].
  cbn [contents]. rewrite Hc. unfold segment_bytes. by rewrite concat_app, <- app_assoc; cbn [concat]; rewrite app_nil_r.
Qed.

(** The size of the segments of a directory. *)
Definition size_of (d : Disk) (path : str) : N := match lookup_file d path with Some f => lenN (contents f) | None => 0 end.
Definition segments_size (dir : str) (d : Disk) : N :=
  foldr (fun name n => size_of d (Daemon.join dir name) + n) 0 (segment_names dir d).

Lemma settled_total_size p : forall paths sum, settled (total_size p paths sum).
Proof. induction paths as [|path paths IH]; intros sum; cbn [total_size]; settled. Qed.
#[local] Hint Resolve settled_total_size : settled.

Lemma total_size_inv p d : forall paths sum n d', goes (total_size p paths sum) d n d' -> n < u64_max ->
  d' = d /\ n = sum + foldr (fun name n => size_of d (Daemon.join p name) + n) 0 paths.
Proof.
  induction paths as [|path paths IH]; intros sum n d' Hg Hn; cbn [total_size foldr] in *; [apply goes_ret_inv in Hg as [-> ->]; split; [done|lia]|].
  apply goes_inv in Hg as (? & d1 & Hg1 & Hg); [|apply settled_verify]. apply verify_inv in Hg1 as (-> & f & Hf & _).
  apply goes_inv in Hg as (len & d2 & Hg1 & Hg); [|apply settled_path_len].
  assert (d2 = d /\ len = size_of d (Daemon.join p path)) as [-> ->].
  { revert Hg1. unfold goes, path_len, mbind, M_bind, size_of. rewrite call_fine. cbn. rewrite Hf. by intros [= <- <-]. }
  apply IH in Hg as [-> ->]; [|done]. split; [done|]. unfold saturating_add_u64 in *. lia.
Qed.

Lemma join_inj p : Inj eq eq (Daemon.join p).
Proof.
  intros a b. unfold Daemon.join. destruct (last p) as [c|]; [|done]. case_bool_decide; intros E%app_inv_head; [done|]. by injection E.
Qed.

(** [rotate] ends within the limits and keeps the open segment. *)
Lemma rotate_inv s c h rs : current s = Some c -> max_total_bytes (limits s) < u64_max ->
  forall fuel d u d', goes (rotate_loop fuel s) d u d' -> is_current s d c h rs ->
  is_current s d' c h rs /\ lenN (segment_names (dir s) d') <= max_segments (limits s) /\
  segments_size (dir s) d' <= max_total_bytes (limits s).
Proof.
  intros Hc Hmax. induction fuel as [|fuel IH]; intros d u d' Hg Hcur; [done|]. cbn [rotate_loop] in Hg.
  apply goes_inv in Hg as (paths & ? & Hg1 & Hg); [|apply settled_segment_paths]. apply segment_paths_inv in Hg1 as [-> ->].
  apply goes_inv in Hg as (total & d1 & Hg1 & Hg); [|apply settled_total_size].
  destruct (_ && _) eqn:E.
  - apply andb_true_iff in E as [E1%N.leb_le E2%N.leb_le]. apply goes_ret_inv in Hg as [_ ->].
    apply total_size_inv in Hg1 as [-> Ht]; [|lia]. split_and!; [done|done|]. unfold segments_size. lia.
  - assert (d1 = d) as ->.
    { clear -Hg1. revert Hg1. generalize 0. induction (segment_names (dir s) d) as [|path paths IH]; intros n Hg; cbn [total_size] in Hg.
      - by apply goes_ret_inv in Hg as [_ ->].
      - apply goes_inv in Hg as (? & d2 & Hg1 & Hg); [|apply settled_verify]. apply verify_inv in Hg1 as (-> & f & Hf & _).
        apply goes_inv in Hg as (len & d2 & Hg1 & Hg); [|apply settled_path_len].
        assert (d2 = d) as -> by (revert Hg1; unfold goes, path_len, mbind, M_bind; rewrite call_fine; cbn; rewrite Hf; by intros [= _ <-]).
        by eapply IH. }
    destruct (List.find _ _) as [oldest|] eqn:Ef; [|done]. apply List.find_some in Ef as [_ Hne].
    rewrite negb_true_iff, bool_decide_eq_false, Hc in Hne. cbn in Hne.
    apply goes_inv in Hg as (? & d2 & Hg2 & Hg); [|apply settled_remove]. eapply IH; [exact Hg|].
    assert (d2 = set_names (delete (Daemon.join (dir s) oldest)) d) as ->.
    { revert Hg2. unfold goes, remove_file, mbind, M_bind. rewrite call_fine. cbn.
      destruct (kind <$> _) as [[]|]; try done; by intros [= _ <-]. }
    destruct Hcur as (Hh & Hn & Hrest). split; [done|]. split; [|done]. cbn. rewrite lookup_delete_ne; [done|].
    intros Heq%join_inj. by apply Hne; rewrite Heq.
Qed.

Lemma io_inv {A B} (m : IO A) (k : A -> SIO B) s d b st : settled m ->
  (io m ≫= k) (mkState s (mkWorld d [])) = Some (Ok b, st) ->
  exists a d', goes m d a d' /\ k a (mkState s (mkWorld d' [])) = Some (Ok b, st).
Proof.
  intros Hq. unfold mbind, M_bind, io, zoom, goes. cbn [world]. destruct (m _) as [[[a|e] [d' l]]|] eqn:E; [|done..].
  pose proof (Hq _ _ _ E) as Hl. cbn in Hl. subst l. intros Hk. by exists a, d'.
Qed.
Lemma settled_resume s hour at_ size : forall paths, settled (resume_from s hour at_ size paths).
Proof. induction paths as [|path paths IH]; cbn [resume_from]; [apply settled_ret|]. settled. Qed.
Lemma settled_create s hour : settled (create_segment s hour).
Proof. unfold create_segment. settled. Qed.
Lemma settled_rotate_loop s : forall fuel, settled (rotate_loop fuel s).
Proof. induction fuel as [|fuel IH]; cbn [rotate_loop]; settled. Qed.
#[local] Hint Resolve settled_resume settled_create settled_rotate_loop : settled.

(** The first part of [append]: the segment that is open already or taken up again. *)
Definition resumed (s s1 : Storage) (d d1 : Disk) : Prop :=
  dir s1 = dir s /\ limits s1 = limits s /\ (forall c, current s1 = Some c -> exists h rs, is_current s1 d1 c h rs) /\
  (is_Some (current s) -> s1 = s /\ d1 = d).

(** The second: the segment to write to. *)
Definition opened (s1 s2 : Storage) (d1 d2 : Disk) (at_ size : N) : Prop :=
  dir s2 = dir s1 /\ limits s2 = limits s1 /\
  (exists c h rs, current s2 = Some c /\ is_current s2 d2 c h rs /\ hour_start_ms h = hour_of at_) /\
  (needs_new s1 at_ size = false -> s2 = s1 /\ d2 = d1).

Lemma open_step s1 d1 at_ size (k : unit -> SIO unit) st : is_u64 at_ ->
  (forall c, current s1 = Some c -> exists h rs, is_current s1 d1 c h rs) ->
  ((if needs_new s1 at_ size then c ← io (create_segment s1 (hour_of at_)); modify (set_storage (set_current (Some c))) else mret tt) ≫= k)
    (mkState s1 (mkWorld d1 [])) = Some (Ok tt, st) ->
  exists s2 d2, opened s1 s2 d1 d2 at_ size /\ k tt (mkState s2 (mkWorld d2 [])) = Some (Ok tt, st).
Proof.
  intros Hu Hcur. destruct (needs_new s1 at_ size) eqn:En.
  - intros Hk. assert (Hk' : (io (create_segment s1 (hour_of at_)) ≫= fun c => modify (set_storage (set_current (Some c))) ≫= k)
      (mkState s1 (mkWorld d1 [])) = Some (Ok tt, st)).
    { revert Hk. unfold mbind, M_bind. by destruct (io _ _) as [[[]]|]. }
    apply io_inv in Hk' as (c & d2 & Hg & Hk'); [|auto with settled]. apply create_inv in Hg as (Hh & sq & Hc).
    + exists (set_current (Some c) s1), d2. split; [|exact Hk']. split_and!; [done|done| |by rewrite En].
      exists c, (mkHeader (hour_of at_) sq), []. done.
    + unfold is_u64, hour_of in *. eapply N.le_lt_trans; [|exact Hu]. rewrite N.mul_comm. apply N.Div0.mul_div_le.
  - intros Hk. exists s1, d1. split; [|exact Hk]. split_and!; [done|done| |done]. unfold needs_new in En.
    destruct (current s1) as [c|] eqn:Ec; [|done]. rewrite !orb_false_iff, negb_false_iff, N.eqb_eq in En. destruct En as [[En _] _].
    destruct (Hcur c eq_refl) as (h & rs & Hc). exists c, h, rs. split_and!; [done|done|]. destruct Hc as [<- _]. done.
Qed.

Lemma resume_step s d r (k : unit -> SIO unit) size st : well_named s d ->
  (forall c, current s = Some c -> exists h rs, is_current s d c h rs) ->
  (match current s with
   | Some _ => mret tt
   | None =>
       x ← io (resume_segment s (hour_of (record_ms r)) (record_ms r) size);
       match x with Some (c, last) => modify (set_storage (fun s => set_last last (set_current (Some c) s))) | None => mret tt end
   end ≫= k) (mkState s (mkWorld d [])) = Some (Ok tt, st) ->
  exists s1 d1, resumed s s1 d d1 /\ k tt (mkState s1 (mkWorld d1 [])) = Some (Ok tt, st).
Proof.
  intros Hw Hcur. destruct (current s) as [c|] eqn:Ec; [intros Hk; exists s, d; split; [|exact Hk]|].
  { split_and!; [done..| |done]. intros c' Hc'. rewrite Ec in Hc'. injection Hc' as <-. by apply Hcur. }
  intros Hk. set (rest := fun x : option (CurrentSegment * option N) => match x with Some (c, last) => _ | None => _ end) in Hk.
  assert (Hk' : (io (resume_segment s (hour_of (record_ms r)) (record_ms r) size) ≫= fun x => rest x ≫= k)
    (mkState s (mkWorld d [])) = Some (Ok tt, st)).
  { revert Hk. unfold mbind, M_bind. by destruct (io _ _) as [[[]]|]. }
  clear Hk. assert (Hq : settled (resume_segment s (hour_of (record_ms r)) (record_ms r) size)) by (unfold resume_segment; settled).
  apply io_inv in Hk' as (x & d1 & Hg & Hk); [|done]. unfold resume_segment in Hg.
  apply goes_inv in Hg as (paths & ? & Hg1 & Hg); [|apply settled_segment_paths]. apply segment_paths_inv in Hg1 as [-> ->].
  apply resume_inv in Hg; [|done]. destruct x as [[c last_]|].
  - destruct Hg as (_ & h & rs & Hc). exists (set_last last_ (set_current (Some c) s)), d1. split; [|exact Hk].
    split_and!; [done|done| |by rewrite Ec; intros []]. intros c' [= <-]. by exists h, rs.
  - exists s, d1. split; [|exact Hk]. split_and!; [done|done|by rewrite Ec|by rewrite Ec; intros []].
Qed.

(** C32: While no call of the kernel fails, and the segment that is open, if there
    is one, holds whole records: a minute that was appended without an error is
    the last record of the segment that is open, after the records that this
    segment held; and the directory is within its limits, in number and in total
    size.  ([failed_append_loses_hour]: behind the fragment of a write that
    failed, a minute that was appended without an error is no readable record.) *)
Theorem append_stored s d r st :
  max_total_bytes (limits s) < u64_max -> minute_ok r -> well_named s d ->
  (forall c, current s = Some c -> exists h rs, is_current s d c h rs) ->
  append r (mkState s (mkWorld d [])) = Some (Ok tt, st) ->
  let s' := storage st in let d' := disk (world st) in
  dir s' = dir s /\ limits s' = limits s /\ last_timestamp_ms s' = Some (record_ms r) /\
  (exists fr c h rs, framed (max_record_bytes (limits s)) r fr /\ current s' = Some c /\ is_current s' d' c h (rs ++ [r]) /\
    (forall c0, current s = Some c0 -> needs_new s (record_ms r) (lenN fr) = false -> is_current s d c0 h rs)) /\
  lenN (segment_names (dir s) d') <= max_segments (limits s) /\ segments_size (dir s) d' <= max_total_bytes (limits s).
Proof.
  intros Hmax Hr Hw Hcur Ha. unfold append in Ha. unfold mbind at 1, M_bind at 1, get in Ha. cbn [storage] in Ha.
  unfold mbind at 1, M_bind at 1, lift in Ha. destruct (frame_record r _) as [fr|] eqn:Ef; [|done]. cbn [MetricFormat.map_err] in Ha.
  destruct (_ || _) in Ha; [done|]. apply resume_step in Ha as (s1 & d1 & (Hd1 & Hl1 & Hc1 & Hs1) & Ha); [|done..].
  unfold mbind at 1, M_bind at 1, get in Ha. cbn [storage] in Ha.
  apply open_step in Ha as (s2 & d2 & (Hd2 & Hl2 & (c & h & rs & Hc2 & Hc & Hh) & Hs2) & Ha); [|apply Hr|done].
  unfold mbind at 1, M_bind at 1, get in Ha. cbn [storage] in Ha.
  unfold mbind at 1, M_bind at 1, unwrap in Ha. rewrite Hc2 in Ha.
  apply io_inv in Ha as ([] & d3 & Hg & Ha); [|auto with settled]. apply write_inv in Hg as ->.
  unfold mbind at 1, M_bind at 1, modify in Ha. cbn [set_storage storage world] in Ha.
  unfold mbind at 1, M_bind at 1, get in Ha. cbn [storage] in Ha. set (c' := mkCurrent (c_hour_ms c) (c_path c) (c_file c) (c_bytes c + lenN fr)) in Ha.
  set (s3 := set_last (Some (record_ms r)) (set_current (Some c') s2)) in Ha. unfold io, zoom, rotate in Ha. unfold mbind at 1, M_bind at 1, get in Ha. cbn [world storage disk] in Ha.
  destruct (rotate_loop _ _ _) as [[[[]|e] w]|] eqn:Er; [|done..]. injection Ha as <-. cbn [storage world].
  pose proof (settled_rotate_loop s3 _ _ _ _ Er) as Hq. destruct w as [d4 l]. cbn in Hq. subst l. cbn [disk].
  assert (Hm3 : max_total_bytes (limits s3) < u64_max) by (unfold s3; cbn; by rewrite Hl2, Hl1).
  assert (Hc3 : is_current s3 (appended (c_file c) fr d2) c' h (rs ++ [r])).
  { destruct Hc as [Hh' Hc]. split; [done|]. cbn. apply holds_append; [exact Hc| |by split].
    unfold framed. by rewrite Hl2, Hl1. }
  destruct (rotate_inv s3 c' h (rs ++ [r]) eq_refl Hm3 _ _ _ _ Er Hc3) as (Hc4 & Hn & Ht).
  unfold s3 in Hn, Ht. cbn in Hn, Ht. rewrite Hd2, Hd1 in Hn, Ht. rewrite Hl2, Hl1 in Hn, Ht.
  split_and!; [unfold s3; cbn; congruence|unfold s3; cbn; congruence|done| |done|done].
  exists fr, c', h, rs. split_and!; [done|done|exact Hc4|].
  intros c0 Hc0 Hnew. destruct (Hs1 (mk_is_Some _ _ Hc0)) as [-> ->]. destruct (Hs2 Hnew) as [-> ->].
  rewrite Hc0 in Hc2. by injection Hc2 as ->.
Qed.

(** ** No answer of the kernel stops the thread *)

Lemma returns_get {St E} : returns (@get St E).
Proof. done. Qed.
Lemma returns_call : returns call.
Proof. intros w. unfold runs, call, ask_kernel, mbind, M_bind. by destruct (answers w) as [|[] ?]. Qed.
Lemma returns_write ino bs : returns (write_all ino bs).
Proof. intros w. unfold runs, write_all, ask_kernel, mbind, M_bind. by destruct (answers w) as [|[] ?]. Qed.
#[local] Hint Resolve returns_get returns_call returns_write : returns.
Ltac returns := repeat first [ progress auto with returns | apply returns_bind; [|intros ?] | case_match ].

Lemma returns_calls path ino a b : returns (verify_private_file path) /\ returns (open_existing path) /\ returns (file_len ino) /\
  returns (path_len path) /\ returns (read_exact ino a b) /\ returns (set_len ino a) /\ returns (remove_file path) /\
  returns (read_dir path) /\ returns (segment_paths path).
Proof.
  unfold verify_private_file, symlink_metadata, open_existing, file_len, path_len, read_exact, file_of, set_len, remove_file, segment_paths, read_dir.
  split_and!; returns.
Qed.
Ltac call_returns := first [ apply (returns_calls _ 0 0 0) | apply (returns_calls [] _ 0 0) | apply (returns_calls [] _ _ 0) | apply (returns_calls [] _ _ _) ].

Lemma returns_read_records l ino len hour fuel : forall offset acc, (N.to_nat (len - offset) < fuel)%nat ->
  returns (read_records fuel l ino len hour offset acc).
Proof.
  induction fuel as [|fuel IH]; intros offset acc Hf; [lia|]. cbn [read_records]. destruct (N.leb_spec len offset); [returns|].
  destruct (N.ltb_spec (len - offset) RECORD_HEADER_SIZE) as [|H8]; [apply returns_bind; [call_returns|intros ?; returns]|].
  apply returns_bind; [returns|intros _]. apply returns_bind; [call_returns|intros header].
  destruct (_ <? be_val _); [returns|]. set (n := be_val _). destruct (_ <? RECORD_HEADER_SIZE + n).
  { apply returns_bind; [call_returns|intros ?; returns]. }
  apply returns_bind; [call_returns|intros payload]. destruct (negb _); [returns|]. destruct (decode_minute payload); [|returns].
  destruct (negb _); [returns|]. apply IH. unfold RECORD_HEADER_SIZE in *. lia.
Qed.

Lemma returns_read_segment path l : returns (read_segment path l).
Proof.
  unfold read_segment. apply returns_bind; [call_returns|intros _]. apply returns_bind; [call_returns|intros ino].
  apply returns_bind; [call_returns|intros len]. destruct (_ <? len); [returns|]. apply returns_bind; [call_returns|intros header].
  destruct (decode_segment_header header); [|returns]. apply returns_read_records. lia.
Qed.

Lemma returns_resume s hour at_ size : returns (resume_segment s hour at_ size).
Proof.
  unfold resume_segment. apply returns_bind; [call_returns|intros paths]. induction (rev paths) as [|path l IH]; cbn [resume_from]; [returns|].
  destruct (negb _); [done|]. apply returns_bind; [apply returns_attempt, returns_read_segment|intros [[rs rep]|]; [|done]].
  destruct (match _ with Some t => _ | None => _ end); [returns|]. apply returns_bind; [call_returns|intros len].
  destruct (_ <? _); [returns|]. apply returns_bind; [call_returns|intros ino; returns].
Qed.
Lemma returns_create s hour : returns (create_segment s hour).
Proof.
  unfold create_segment, open_new. apply returns_bind; [call_returns|intros l]. destruct (_ <=? _); [returns|].
  apply returns_bind; [call_returns|intros paths]. apply returns_bind; [returns|intros ino].
  apply returns_bind; [returns|intros _]. apply returns_bind; [call_returns|intros _; returns].
Qed.
Lemma returns_total_size p : forall paths sum, returns (total_size p paths sum).
Proof.
  induction paths as [|path paths IH]; intros sum; cbn [total_size]; [returns|].
  apply returns_bind; [call_returns|intros _]. apply returns_bind; [call_returns|intros len; apply IH].
Qed.

Lemma remove_shrinks path w u w' : remove_file path w = Some (Ok u, w') -> (size (names (disk w')) < size (names (disk w)))%nat.
Proof.
  unfold remove_file, mbind, M_bind. destruct (call w) as [[[[]|e] w1]|] eqn:E; [|done..].
  assert (Hd : disk w1 = disk w).
  { revert E. unfold call, ask_kernel, mbind, M_bind. destruct (answers w) as [|[] ?]; try done; by intros [= <-]. }
  cbn. destruct (lookup_file (disk w1) path) as [f|] eqn:Ef; cbn; [|done]. rewrite <- Hd. apply lookup_file_name in Ef as (ino & Hn & _).
  destruct (kind f); [| done | |]; intros [= _ <-]; cbn; rewrite map_size_delete, Hn; cbn;
    (assert (size (names (disk w1)) <> 0)%nat; [intros Hz%map_size_empty_inv; by rewrite Hz in Hn|lia]).
Qed.

(** What leaves the names of the disk alone. *)
Lemma trims_segment_paths p : trims (segment_paths p).
Proof.
  unfold segment_paths. apply trims_bind; [|intros ?; apply trims_ret]. intros w r w'. unfold attempt.
  destruct (read_dir p w) as [[x w1]|] eqn:E; [|done]. intros [= _ <-]. revert E. apply (trims_bind call); [apply trims_call|]. intros _. trims.
Qed.
Lemma trims_total_size p : forall paths sum, trims (total_size p paths sum).
Proof.
  induction paths as [|path paths IH]; intros sum; cbn [total_size]; unfold verify_private_file, symlink_metadata, path_len; trims.
Qed.

Lemma returns_rotate s : returns (rotate s).
Proof.
  intros w0. unfold rotate. rewrite runs_bind, runs_get. cbn beta iota.
  enough (H : forall fuel w, (size (names (disk w)) < fuel)%nat -> runs (rotate_loop fuel s) w (fun _ _ => True)) by (apply H; lia).
  induction fuel as [|fuel IH]; intros w Hf; [lia|]. cbn [rotate_loop]. rewrite runs_bind.
  destruct (returns_calls (dir s) 0 0 0) as (_ & _ & _ & _ & _ & _ & _ & _ & Hsp). specialize (Hsp w). unfold runs in Hsp.
  unfold runs at 1. destruct (segment_paths (dir s) w) as [[[paths|e] w1]|] eqn:E1; [|done..]. apply trims_segment_paths in E1 as [N1 _].
  rewrite runs_bind. pose proof (returns_total_size (dir s) paths 0 w1) as Ht. unfold runs in Ht. unfold runs at 1.
  destruct (total_size _ _ _ w1) as [[[total|e] w2]|] eqn:E2; [|done..]. apply trims_total_size in E2 as [N2 _].
  destruct (_ && _); [done|]. destruct (List.find _ _) as [oldest|]; [|done]. rewrite runs_bind.
  destruct (returns_calls (Daemon.join (dir s) oldest) 0 0 0) as (_ & _ & _ & _ & _ & _ & Hrm & _). specialize (Hrm w2). unfold runs in Hrm.
  unfold runs at 1. destruct (remove_file _ w2) as [[[u|e] w3]|] eqn:E3; [|done..]. apply remove_shrinks in E3. apply IH.
  rewrite N2, N1 in E3. lia.
Qed.

Lemma returns_io {A} (m : IO A) : returns m -> returns (io m).
Proof. intros Hm st. unfold io. rewrite runs_zoom. specialize (Hm (world st)). unfold runs in Hm. by destruct (m _) as [[r w]|]. Qed.

Lemma runs_true {St E A} (m : M St E A) st : returns m -> runs m st (fun _ _ => True).
Proof. intros Hm. apply Hm. Qed.

Lemma append_returns r : returns (append r).
Proof.
  intros st. unfold append. rewrite runs_bind, runs_get. cbn beta iota. rewrite runs_bind, runs_lift.
  destruct (MetricFormat.map_err _ _) as [fr|]; [|done]. destruct (_ || _); [done|]. rewrite runs_bind.
  eapply runs_mono; [apply runs_true; destruct (current (storage st)); [returns|]; apply returns_bind;
    [apply returns_io, returns_resume|intros [[c t]|]; returns]|].
  intros [u|e] st1 _; [|done]. rewrite runs_bind, runs_get. cbn beta iota. rewrite runs_bind.
  eapply (runs_mono _ _ (fun x st2 => x = Ok tt -> is_Some (current (storage st2)))).
  - destruct (needs_new (storage st1) (record_ms r) (lenN fr)) eqn:En.
    + rewrite runs_bind. eapply runs_mono; [apply returns_io, returns_create|]. intros [c|e] st2 _; [|done]. by rewrite runs_modify.
    + rewrite runs_ret. intros _. unfold needs_new in En. by destruct (current (storage st1)).
  - intros [[]|e] st2 Hc; [|done]. rewrite runs_bind, runs_get. cbn beta iota. rewrite runs_bind, runs_unwrap.
    destruct (Hc eq_refl) as [c Ec]. exists c. split; [done|]. apply runs_true. apply returns_bind; [apply returns_io; returns|intros _].
    apply returns_bind; [returns|intros _]. apply returns_bind; [returns|intros s3]. apply returns_io, returns_rotate.
Qed.

Lemma load_returns : returns load.
Proof.
  unfold load. apply returns_bind; [returns|intros st]. apply returns_bind; [apply returns_io; call_returns|intros paths].
  apply returns_bind; [apply returns_io|intros report; returns]. generalize (mkReport [] 0 0).
  induction paths as [|path paths IH]; intros report; cbn [load_segments]; [returns|].
  apply returns_bind; [apply returns_attempt, returns_read_segment|intros x; apply IH].
Qed.

Lemma open_returns path l : returns (open path l).
Proof.
  unfold open. apply returns_bind; [unfold validate_limits; returns|intros _]. apply returns_bind.
  { unfold ensure_private_directory, symlink_metadata, create_dir. returns. }
  intros _. apply returns_bind; [call_returns|intros names_]. destruct (_ <? _); [returns|].
  apply returns_bind; [call_returns|intros names2]. apply returns_bind; [|intros _; returns].
  induction names2 as [|n names2 IH]; cbn [each]; [returns|]. apply returns_bind; [|intros _; apply IH].
  destruct (parse_segment_name n); [call_returns|returns].
Qed.

Lemma returns_some {St E A} (m : M St E A) st : returns m -> exists r st', m st = Some (r, st').
Proof. intros Hm. specialize (Hm st). unfold runs in Hm. destruct (m st) as [[r st']|]; [by eauto|done]. Qed.

Lemma commands_return l : forall w, is_Some (writer_commands l w).
Proof.
  induction l as [|c l IH]; intros w; [done|]. cbn [writer_commands].
  assert (Hc : is_Some (writer_command c w)).
  { destruct c as [r|]; cbn [writer_command].
    - case_bool_decide; [done|]. by destruct (returns_some (append r) (files w) (append_returns r)) as ([] & st & ->).
    - by destruct (returns_some load (files w) load_returns) as (x & st & ->). }
  destruct Hc as [w' ->]. apply IH.
Qed.

(** C33: The thread that writes the metrics always comes to its end: whatever it
    finds in the directory, whatever it is told to write and whichever of its
    system calls fail, no loop of it runs forever (removing old segments, reading
    records, taking up a segment) and nothing panics. *)
Theorem writer_comes_to_an_end path l commands w : exists w', run_writer path l commands w = Some w'.
Proof.
  unfold run_writer. destruct (returns_some (open path l) w (open_returns path l)) as (r & d & ->). cbn.
  destruct r as [s|]; [|by eexists]. destruct (returns_some load (mkState s d) load_returns) as (r & st & ->). cbn.
  destruct r as [report|]; [|by eexists]. destruct (commands_return commands
    (mkWriter st (mkStatus true (lenN (records report)) (skipped_segments report) (repaired_tails report) 0) (record_ms <$> last (records report)) []))
    as [w' ->]. cbn. assert (Hf : returns flush) by (unfold flush; apply returns_bind; [returns|intros s'];
      destruct (current (storage s')); [apply returns_io|]; returns).
  destruct (returns_some flush (files w') Hf) as (r & st' & ->). cbn. by eexists.
Qed.

(** A directory with as many entries as are allowed stays so: without a segment
    for the hour nothing can be appended any more, and nothing is removed,
    because only an append that succeeded removes old segments. *)
Lemma full_directory_refuses s d r c fr : frame_record r (max_record_bytes (limits s)) = Ok fr -> current s = Some c ->
  needs_new s (record_ms r) (lenN fr) = true -> max_directory_entries (limits s) <= lenN (entries (dir s) d) ->
  append r (mkState s (mkWorld d [])) = Some (Err IoFailed, mkState s (mkWorld d [])).
Proof.
  intros Hf Hc Hn He. unfold append. unfold mbind at 1, M_bind at 1, get. cbn [storage].
  unfold mbind at 1, M_bind at 1, lift. rewrite Hf. cbn [MetricFormat.map_err]. destruct (_ || _); [done|].
  unfold mbind at 1, M_bind at 1. rewrite Hc. unfold mret, M_ret. unfold mbind at 1, M_bind at 1, get. cbn [storage]. rewrite Hn.
  unfold mbind at 1, M_bind at 1. unfold mbind at 1, M_bind at 1, io, zoom. cbn [world].
  assert (Hcr : create_segment s (hour_of (record_ms r)) (mkWorld d []) = Some (Err IoFailed, mkWorld d [])).
  { unfold create_segment, read_dir, mbind, M_bind. rewrite call_fine. cbn. by rewrite (proj2 (N.leb_le _ _) He). }
  by rewrite Hcr.
Qed.
End MetricStorage.

(** ** On concrete files *)

Module MetricExamples.
Import MetricStorage.
Import DashboardWire(TrendPoint, mkPoint, Complete).

Definition point_at (t : N) : TrendPoint := mkPoint t 5 6 7 8 9 10 1 2 3 4 5.
Definition minute_at (t : N) : MinuteRecord := mkMinute t Complete (point_at t) [].
Definition limits_of (segments directory : N) : StorageLimits := mkLimits segments 100000 100000 1000 directory.
Definition private_dir : Disk :=
  mkDisk {[lit "/m" := 0]} {[0 := mkInode Directory 1000 448 []]} 1 1000 0.
Definition storage_in (l : StorageLimits) : State := mkState (mkStorage (lit "/m") l None None) (mkWorld private_dir []).

(** Several appends, and what the kernel answers to the calls of each. *)
Fixpoint appends (l : list (MinuteRecord * list answer)) (st : State) : list bool * State :=
  match l with
  | [] => ([], st)
  | (r, a) :: l' =>
      match append r (mkState (storage st) (mkWorld (disk (world st)) a)) with
      | Some (x, st') => let '(oks, st'') := appends l' (mkState (storage st') (mkWorld (disk (world st')) [])) in (is_ok x :: oks, st'')
      | None => ([], st)
      end
  end.
Definition loaded (st : State) : option (list N * N) :=
  match load st with Some (Ok r, _) => Some (map record_ms (records r), skipped_segments r) | _ => None end.

(** Three minutes that were appended are read back. *)
Example appends_load : let '(oks, st) := appends [(minute_at 60000, []); (minute_at 120000, []); (minute_at 180000, [])] (storage_in (limits_of 24 32)) in
  oks = [true; true; true] /\ loaded st = Some ([60000; 120000; 180000], 0).
Proof. vm_compute. split; reflexivity. Qed.

(** When the write of the second ends early (the disk is full), the third is
    written behind the fragment: all three are lost to every later start. *)
Lemma failed_append_loses_hour : let '(oks, st) := appends [(minute_at 60000, []); (minute_at 120000, [Disk.Partial 5]); (minute_at 180000, [])] (storage_in (limits_of 24 32)) in
  oks = [true; false; true] /\ loaded st = Some ([], 1).
Proof. vm_compute. split; reflexivity. Qed.

(** While the disk is full each minute leaves a segment without a header, until
    the directory has as many entries as it may have: then no append succeeds,
    in this hour or another. *)
Definition header_fails : list answer := [Fine; Fine; Fine; Fault].
Lemma full_disk_fills_directory : let '(oks, st) := appends
    [(minute_at 60000, []); (minute_at 3660000, header_fails); (minute_at 3720000, header_fails); (minute_at 3780000, []); (minute_at 7260000, [])]
    (storage_in (limits_of 2 3)) in
  oks = [true; false; false; false; false].
Proof. vm_compute. reflexivity. Qed.

Definition frame_of (r : MinuteRecord) : bytes := match frame_record r 1000 with Ok f => f | Err _ => [] end.
Definition hour0 : SegmentHeader := mkHeader 0 0.
Definition two : list MinuteRecord := [minute_at 60000; minute_at 120000].

(** A segment of two records that ends within the second. *)
Definition torn_file : Inode := mkInode Regular 1000 384 (takeN 150 (segment_bytes hour0 (map frame_of two))).
Definition torn_disk : Disk := mkDisk {[lit "/m/s" := 1]} {[1 := torn_file]} 2 1000 0.

Lemma segment_crash_safe_witness : exists k repaired d', goes (read_segment (lit "/m/s") (limits_of 24 32)) torn_disk (take k two, repaired) d' /\
  lenN (segment_bytes hour0 (take k (map frame_of two))) <= 150.
Proof.
  assert (HF : Forall2 (framed 1000) two (map frame_of two)) by (repeat constructor).
  assert (Hok : Forall (of_hour 0) two) by (repeat constructor).
  destruct (segment_crash_safe (limits_of 24 32) torn_disk (lit "/m/s") 1 torn_file hour0 two (map frame_of two) 150
    eq_refl eq_refl eq_refl eq_refl eq_refl ltac:(vm_compute; discriminate) ltac:(vm_compute; discriminate) HF Hok ltac:(vm_compute; discriminate) eq_refl)
    as (k & repaired & d' & Hg & _ & Hl & _).
  exists k, repaired, d'. split; [exact Hg|exact Hl].
Defined.

Definition after_append : State :=
  match append (minute_at 60000) (storage_in (limits_of 24 32)) with Some (_, st) => st | None => storage_in (limits_of 24 32) end.

Lemma append_stored_witness : exists c h rs, current (storage after_append) = Some c /\
  is_current (storage after_append) (disk (world after_append)) c h (rs ++ [minute_at 60000]).
Proof.
  assert (Hw : well_named (mkStorage (lit "/m") (limits_of 24 32) None None) private_dir).
  { intros name hour sq ino f h rest Hp Hn. change (names private_dir) with ({[lit "/m" := 0]} : gmap str N) in Hn.
    apply lookup_singleton_Some in Hn as [E _]. vm_compute in E. discriminate E. }
  destruct (append_stored (mkStorage (lit "/m") (limits_of 24 32) None None) private_dir (minute_at 60000) after_append
    ltac:(vm_compute; reflexivity) ltac:(by repeat split) Hw ltac:(discriminate) ltac:(vm_compute; reflexivity))
    as (_ & _ & _ & (fr & c & h & rs & _ & Hc & Hcur & _) & _).
  exists c, h, rs. split; [exact Hc|exact Hcur].
Defined.

Lemma minute_format_canonical_witness : decode_minute (dropN 8 (frame_of (minute_at 60000))) = Ok (minute_at 60000).
Proof.
  refine (proj2 (MetricFormat.minute_format_canonical (dropN 8 (frame_of (minute_at 60000))) (minute_at 60000) _) _).
  - vm_compute. discriminate.
  - split; [by repeat split|vm_compute; reflexivity].
Defined.
End MetricExamples.
