(* ===== verification/DashboardService.v ===== *)
(** * DashboardService: samples, minutes and answers of the dashboard.

    Models [crates/persistd/src/dashboard/worker.rs] (from a sample of /proc to
    the history and the record of a minute), [ipc.rs] and [ipc_disk.rs] (what is
    answered to a client) and the two dashboard requests of [handle_client] in
    [server.rs]. *)
From S2P Require Import Prelude Bytes Effects ClientFrame DashboardWire Dashboard HolderWire MetricFormat MetricStorage.
From stdpp Require Import sorting.
From Stdlib Require Import Lia.
Import String.StringSyntax.
Import DashboardWire(Completeness, Complete, Partial, Stale, Unavailable, DaemonMetrics, mkDaemonMetrics, SessionMetrics, mkSessionMetrics,
  TrendScope, ScopeDaemon, ScopeSession, TrendRange, FifteenMinutes, Hour, Day, TrendPoint, mkPoint, MAX_TREND_POINTS, MAX_SUMMARY_PAGE,
  DashboardSummaryRequest, mkSummaryRequest, DashboardSummaryResponse, mkSummary, DashboardTrendRequest, DashboardTrendResponse, mkTrend).
Import Model(DerivedSample, DerivedSession, RawSample, derive_sample).
Import History(BoundedHistory).
Import MetricFormat(MinuteRecord, mkMinute, SessionMinuteRecord, mkSessionMinute).
#[local] Existing Instances DashboardWire.CollectionStatus_eq_dec DashboardWire.Completeness_eq_dec ClientFrame.MessageType_eq_dec.
Local Open Scope N_scope.

(** ** worker.rs *)

Module Worker.

(** [point.timestamp_ms = end_ms] *)
Definition at_time (t : N) (p : TrendPoint) : TrendPoint :=
  mkPoint t (DashboardWire.cpu_avg_milli_percent p) (DashboardWire.cpu_peak_milli_percent p) (DashboardWire.rss_avg_kib p)
    (DashboardWire.rss_peak_kib p) (DashboardWire.read_bytes p) (DashboardWire.write_bytes p) (DashboardWire.process_count_peak p)
    (DashboardWire.p_session_count p) (DashboardWire.p_runtime_count p) (DashboardWire.p_active_writer_count p)
    (DashboardWire.p_readonly_client_count p).

(** The loop over the sessions of the minute: the completeness so far and the
    records so far. *)
Definition add_session (history : BoundedHistory) (start_ms end_ms : N) (st : Completeness * list SessionMinuteRecord) (id : N)
  : Completeness * list SessionMinuteRecord :=
  let '(completeness, sessions) := st in
  let series := History.minute_series history (ScopeSession id) start_ms in
  match Aggregate.points series with
  | [] => st
  | point :: _ =>
      (if bool_decide (completeness = Complete) && negb (bool_decide (Aggregate.series_completeness series = Complete)) then Partial else completeness,
       sessions ++ [mkSessionMinute id (Aggregate.series_completeness series) (at_time end_ms point)])
  end.

Definition build_minute_record (history : BoundedHistory) (start_ms : N) : option MinuteRecord :=
  let end_ms := saturating_add_u64 start_ms 60000 in
  let daemon_series := History.minute_series history ScopeDaemon start_ms in
  daemon ← head (Aggregate.points daemon_series);
  let '(completeness, sessions) :=
    fold_left (add_session history start_ms end_ms) (History.session_ids_wall history start_ms end_ms)
      (Aggregate.series_completeness daemon_series, []) in
  Some (mkMinute end_ms completeness (at_time end_ms daemon) sessions).

(** The record of the minute that ended, and the minute that goes on. *)
Definition completed_minute (history : BoundedHistory) (minute_start : option N) (current_minute : N) : option MinuteRecord * option N :=
  match minute_start with
  | None => (None, Some current_minute)
  | Some previous_minute =>
      if current_minute <=? previous_minute
      then (None, if current_minute <? previous_minute then Some current_minute else minute_start)
      else (build_minute_record history previous_minute, Some current_minute)
  end.

Record WorkerStatus : Type := mkWorkerStatus { running : bool; samples : N; dropped_triggers : N; dropped_writes : N; panicked : bool }.

(** What the thread keeps; [queue] is what it sent to the writer, whose queue
    takes a record or is full. *)
Record Worker : Type := mkWorker {
  history : BoundedHistory; previous : option RawSample; minute_start : option N; worker_status : WorkerStatus; sent : list MinuteRecord }.

Definition count_sample (s : WorkerStatus) : WorkerStatus :=
  mkWorkerStatus (running s) (saturating_add_u64 (samples s) 1) (dropped_triggers s) (dropped_writes s) (panicked s).
Definition count_drop (s : WorkerStatus) : WorkerStatus :=
  mkWorkerStatus (running s) (samples s) (dropped_triggers s) (saturating_add_u64 (dropped_writes s) 1) (panicked s).

Section worker.
Context (size_sample size_session : N).

(** [send_minute] *)
Definition send_minute (accepted : bool) (record : MinuteRecord) (w : Worker) : Worker :=
  if accepted then mkWorker (history w) (previous w) (minute_start w) (worker_status w) (sent w ++ [record])
  else mkWorker (history w) (previous w) (minute_start w) (count_drop (worker_status w)) (sent w).

(** One turn of [run_worker] with a request: [raw] is what was collected. *)
Definition handle_sample (accepted : bool) (raw : RawSample) (w : Worker) : Worker :=
  let derived := derive_sample (previous w) raw in
  let current_minute := Model.raw_sampled_at_ms raw / 60000 * 60000 in
  let h := History.push size_sample size_session derived (history w) in
  let '(record, start) := completed_minute h (minute_start w) current_minute in
  let w := mkWorker h (Some raw) start (count_sample (worker_status w)) (sent w) in
  match record with Some r => send_minute accepted r w | None => w end.
End worker.
End Worker.

(** ** ipc.rs *)

Module Service.

Inductive DashboardQueryError : Type := InvalidRequest | InvalidCursor | QueryUnavailable.

Section service.
(** The process, the status of the worker and the clock. *)
Context (process_id : N) (running : bool) (wall_time_ms : N).

Definition SAMPLE_INTERVAL_MS : N := 5000.

(** [binary_search_by_key] of a list whose keys are sorted and distinct. *)
Definition page_start (sessions : list SessionMetrics) (cursor : N) : result DashboardQueryError N :=
  if cursor =? 0 then Ok 0
  else
    match list_find (fun s => DashboardWire.session_id s = cursor) sessions with
    | Some (index, _) => Ok (N.of_nat index + 1)
    | None => Err InvalidCursor
    end.

Definition summary_completeness (sampled_at_ms : N) (completeness : Completeness) : Completeness :=
  if bool_decide (completeness = Unavailable) then completeness
  else if negb running || (SAMPLE_INTERVAL_MS * 3 <? wall_time_ms - sampled_at_ms) then Stale
  else completeness.

Definition unavailable_summary : DashboardSummaryResponse :=
  mkSummary 0 Unavailable (mkDaemonMetrics process_id false 0 0 0 0 0 0 0 0) [] None.
Definition unavailable_trend : DashboardTrendResponse := mkTrend 0 Unavailable [].

Definition id_le (a b : SessionMetrics) : Prop := DashboardWire.session_id a <= DashboardWire.session_id b.
#[export] Instance id_le_dec : RelDecision id_le.
Proof. intros a b. unfold id_le. apply _. Defined.

Definition summary (history : BoundedHistory) (request : DashboardSummaryRequest) : result DashboardQueryError DashboardSummaryResponse :=
  let limit := DashboardWire.limit request in
  if (limit =? 0) || (MAX_SUMMARY_PAGE <? limit) then Err InvalidRequest
  else
    match History.latest history with
    | None => if DashboardWire.cursor request =? 0 then Ok unavailable_summary else Err InvalidCursor
    | Some latest =>
        let sessions := merge_sort id_le (map Model.session_metrics (Model.sessions latest)) in
        start ← page_start sessions (DashboardWire.cursor request);
        let end_ := N.min (saturating_add_usize start limit) (lenN sessions) in
        let next_cursor := if end_ <? lenN sessions then DashboardWire.session_id <$> sessions !! N.to_nat (end_ - 1) else None in
        Ok (mkSummary (Model.sampled_at_ms latest) (summary_completeness (Model.sampled_at_ms latest) (Model.completeness latest))
          (Model.daemon_metrics (Model.daemon latest)) (slice sessions start end_) next_cursor)
    end.

Definition memory_trend (history : BoundedHistory) (request : DashboardTrendRequest) (window_ms : N) : DashboardTrendResponse :=
  match History.latest history with
  | None => unavailable_trend
  | Some latest =>
      let series := History.trend history (DashboardWire.scope request) (Model.monotonic_ms latest) window_ms (DashboardWire.max_points request) in
      mkTrend (Model.sampled_at_ms latest) (summary_completeness (Model.sampled_at_ms latest) (Aggregate.series_completeness series))
        (Aggregate.points series)
  end.

(** ** ipc_disk.rs *)

Definition DAY_MS : N := 24 * 60 * 60 * 1000.

Record Accumulator : Type := mkAcc {
  timestamp_ms : N; cpu_sum : N; rss_sum : N; count : N; cpu_peak : N; rss_peak : N; read_bytes : N; write_bytes : N;
  process_count_peak : N; session_count : N; runtime_count : N; active_writer_count : N; readonly_client_count : N }.
Definition empty_acc : Accumulator := mkAcc 0 0 0 0 0 0 0 0 0 0 0 0 0.

Definition add (p : TrendPoint) (a : Accumulator) : Accumulator :=
  mkAcc (DashboardWire.timestamp_ms p)
    (Aggregate.saturating_add_u128 (cpu_sum a) (DashboardWire.cpu_avg_milli_percent p))
    (Aggregate.saturating_add_u128 (rss_sum a) (DashboardWire.rss_avg_kib p)) (saturating_add_u64 (count a) 1)
    (N.max (cpu_peak a) (DashboardWire.cpu_peak_milli_percent p)) (N.max (rss_peak a) (DashboardWire.rss_peak_kib p))
    (Aggregate.saturating_add_u128 (read_bytes a) (DashboardWire.read_bytes p))
    (Aggregate.saturating_add_u128 (write_bytes a) (DashboardWire.write_bytes p))
    (N.max (process_count_peak a) (DashboardWire.process_count_peak p)) (N.max (session_count a) (DashboardWire.p_session_count p))
    (N.max (runtime_count a) (DashboardWire.p_runtime_count p)) (N.max (active_writer_count a) (DashboardWire.p_active_writer_count p))
    (N.max (readonly_client_count a) (DashboardWire.p_readonly_client_count p)).

Definition finish (a : Accumulator) : TrendPoint :=
  mkPoint (timestamp_ms a) (Aggregate.average_u32 (cpu_sum a) (count a)) (cpu_peak a) (Aggregate.average_u64 (rss_sum a) (count a))
    (rss_peak a) (Aggregate.saturating_u64 (read_bytes a)) (Aggregate.saturating_u64 (write_bytes a)) (process_count_peak a)
    (session_count a) (runtime_count a) (active_writer_count a) (readonly_client_count a).

Definition select_point (record : MinuteRecord) (scope : TrendScope) : option (TrendPoint * Completeness) :=
  match scope with
  | ScopeDaemon => Some (MetricFormat.daemon record, MetricFormat.completeness record)
  | ScopeSession id =>
      match List.find (fun s => MetricFormat.session_id s =? id) (MetricFormat.sessions record) with
      | Some s => Some (MetricFormat.point s, MetricFormat.s_completeness s)
      | None => None
      end
  end.

Section disk.
Context (scope : TrendScope) (start_ms end_ms max_points : N).

Definition disk_width : N := N.max ((DAY_MS + (max_points - 1)) / max_points) 1.
Definition disk_index (record : MinuteRecord) : N :=
  N.min ((MetricFormat.record_ms record - start_ms - 1) / disk_width) (max_points - 1).

Definition add_record (st : list (option Accumulator) * Completeness) (record : MinuteRecord) : list (option Accumulator) * Completeness :=
  let '(buckets, c) := st in
  if (start_ms <? MetricFormat.record_ms record) && (MetricFormat.record_ms record <=? end_ms) then
    match select_point record scope with
    | None => st
    | Some (point, point_completeness) =>
        let c := if negb (bool_decide (MetricFormat.completeness record = Complete)) || negb (bool_decide (point_completeness = Complete))
                 then Partial else c in
        (alter (fun b => Some (add point (default empty_acc b))) (N.to_nat (disk_index record)) buckets, c)
    end
  else st.
End disk.

Definition aggregate_disk_trend (records : list MinuteRecord) (scope : TrendScope) (now_ms max_points : N) (skipped_segments : bool)
  : DashboardTrendResponse :=
  let end_ms := match last records with Some r => N.max now_ms (MetricFormat.record_ms r) | None => now_ms end in
  let start_ms := end_ms - DAY_MS in
  let '(buckets, c) := fold_left (add_record scope start_ms end_ms max_points) records
    (replicate (N.to_nat max_points) None, if skipped_segments then Partial else Complete) in
  let points := map finish (omap id buckets) in
  mkTrend (match last records with Some r => MetricFormat.record_ms r | None => 0 end)
    (match points with [] => Unavailable | _ => c end) points.

(** [load] is what the writer answers to [WriterCommand::Load]: nothing when its
    queue is full, it does not answer in time or could not load. *)
Definition disk_trend (load : option MetricStorage.LoadReport) (writer_status : MetricStorage.WriterStatus) (request : DashboardTrendRequest)
  : result DashboardQueryError DashboardTrendResponse :=
  report ← ok_or load QueryUnavailable;
  let writer_degraded := negb (MetricStorage.available writer_status) || (0 <? MetricStorage.write_failures writer_status) in
  Ok (aggregate_disk_trend (MetricStorage.records report) (DashboardWire.scope request) wall_time_ms (DashboardWire.max_points request)
        ((0 <? MetricStorage.skipped_segments report) || writer_degraded)).

Definition trend (history : BoundedHistory) (load : option MetricStorage.LoadReport) (writer_status : MetricStorage.WriterStatus)
    (request : DashboardTrendRequest) : result DashboardQueryError DashboardTrendResponse :=
  if (DashboardWire.max_points request =? 0) || (MAX_TREND_POINTS <? DashboardWire.max_points request) then Err InvalidRequest
  else
    match DashboardWire.range request with
    | FifteenMinutes => Ok (memory_trend history request (15 * 60 * 1000))
    | Hour => Ok (memory_trend history request (60 * 60 * 1000))
    | Day => disk_trend load writer_status request
    end.

(** ** handle_client in server.rs *)

(** What follows a decoded request is an answer or its stand-in. *)
Definition handle_dashboard_summary (history : BoundedHistory) (frame : ClientFrame.Frame) : ClientFrame.Frame :=
  let response := match DashboardWire.decode_summary_request (ClientFrame.payload frame) with
                  | Some request => match summary history request with Ok r => r | Err _ => unavailable_summary end
                  | None => unavailable_summary
                  end in
  ClientFrame.mkFrame ClientFrame.DashboardSummaryResp 0 (ClientFrame.request_id frame) (DashboardWire.encode_summary_response response).

Definition handle_dashboard_trend (history : BoundedHistory) (load : option MetricStorage.LoadReport)
    (writer_status : MetricStorage.WriterStatus) (frame : ClientFrame.Frame) : ClientFrame.Frame :=
  let response := match DashboardWire.decode_trend_request (ClientFrame.payload frame) with
                  | Some request => match trend history load writer_status request with Ok r => r | Err _ => unavailable_trend end
                  | None => unavailable_trend
                  end in
  ClientFrame.mkFrame ClientFrame.DashboardTrendResp 0 (ClientFrame.request_id frame) (DashboardWire.encode_trend_response response).
End service.
End Service.
