(* ===== verification/DashboardClient.v ===== *)
(** * DashboardClient: the client of the dashboard.

    Models [crates/persist-cli/src/dashboard.rs]: the sessions of the daemon,
    asked for page by page, and trends.  The theorems join it with
    [handle_client] of the daemon (DashboardService.v) over the wire of
    DashboardWire.v. *)
From S2P Require Import Prelude Bytes Effects ClientFrame DashboardWire Dashboard HolderWire MetricFormat MetricStorage DashboardService.
From stdpp Require Import sorting.
From Stdlib Require Import Lia.
Import String.StringSyntax.
Import DashboardWire(Completeness, Complete, Partial, Stale, Unavailable, DaemonMetrics, mkDaemonMetrics, SessionMetrics, mkSessionMetrics,
  TrendScope, ScopeDaemon, ScopeSession, TrendRange, FifteenMinutes, Hour, Day, TrendPoint, mkPoint, MAX_TREND_POINTS, MAX_SUMMARY_PAGE,
  DashboardSummaryRequest, mkSummaryRequest, DashboardSummaryResponse, mkSummary, DashboardTrendRequest, DashboardTrendResponse, mkTrend).
Import Model(DerivedSample, DerivedSession, RawSample, derive_sample).
Import History(BoundedHistory).
Import MetricFormat(MinuteRecord, mkMinute, SessionMinuteRecord, mkSessionMinute).
#[local] Existing Instances DashboardWire.CollectionStatus_eq_dec DashboardWire.Completeness_eq_dec ClientFrame.MessageType_eq_dec.
Local Open Scope N_scope.

(** ** The client: persist-cli/src/dashboard.rs *)

Module DashboardClient.

Definition MAX_SUMMARY_SESSIONS : N := 262144.

Record DashboardSnapshot : Type := mkSnapshot {
  sampled_at_ms : N; completeness : Completeness; daemon : DaemonMetrics; sessions : list SessionMetrics }.

(** Times in milliseconds. *)
Record RefreshPolicy : Type := mkPolicy { failures : N; next_delay : N }.
Definition REFRESH_INTERVAL : N := 5000.
Definition MIN_RECONNECT_DELAY : N := 250.
Definition MAX_RECONNECT_DELAY : N := 5000.

Definition record_result (success : bool) (p : RefreshPolicy) : RefreshPolicy :=
  if success then mkPolicy 0 REFRESH_INTERVAL
  else
    let failures := N.min (failures p + 1) u8_max in
    let multiplier := N.shiftl 1 (N.min (failures - 1) 5) in
    mkPolicy failures (N.min (MIN_RECONNECT_DELAY * multiplier) MAX_RECONNECT_DELAY).

Definition merge_completeness (left right : Completeness) : Completeness :=
  match left, right with
  | Unavailable, _ | _, Unavailable => Unavailable
  | Stale, _ | _, Stale => Stale
  | Partial, _ | _, Partial => Partial
  | _, _ => Complete
  end.

Definition protocol_error {A} (message : String.string) : result persist_error A := invalid_argument message.
Arguments protocol_error {A} message%_string.

(** The loop over the sessions of a page. *)
Fixpoint take_page (cursor : N) (page : list SessionMetrics) (last_id : option N) (seen : gset N) (sessions : list SessionMetrics)
  : result persist_error (option N * gset N * list SessionMetrics) :=
  match page with
  | [] => Ok (last_id, seen, sessions)
  | s :: page' =>
      let id := DashboardWire.session_id s in
      if (id <=? cursor) || match last_id with Some previous => id <=? previous | None => false end || bool_decide (id ∈ seen)
      then protocol_error "invalid dashboard summary pagination"
      else if MAX_SUMMARY_SESSIONS <? lenN (sessions ++ [s]) then protocol_error "dashboard summary exceeds client limit"
      else take_page cursor page' (Some id) ({[id]} ∪ seen) (sessions ++ [s])
  end.

Section pages.
Context {W : Type} (fetch : DashboardSummaryRequest -> M W persist_error DashboardSummaryResponse).

(** The loop over the pages.  Every page but the last one has a session, so that
    the bound on their number is enough fuel. *)
Fixpoint pages (fuel : nat) (cursor : N) (seen : gset N) (sessions : list SessionMetrics) (completeness : Completeness)
    (response : DashboardSummaryResponse) : M W persist_error DashboardSnapshot :=
  match fuel with
  | O => panic
  | S fuel =>
      let completeness := merge_completeness completeness (DashboardWire.completeness response) in
      '(last_id, seen, sessions) ← lift (take_page cursor (DashboardWire.sessions response) None seen sessions);
      match DashboardWire.next_cursor response with
      | Some next =>
          if bool_decide (Some next = last_id) && (cursor <? next) then
            response ← fetch (mkSummaryRequest next MAX_SUMMARY_PAGE);
            pages fuel next seen sessions completeness response
          else lift (protocol_error "invalid dashboard summary cursor")
      | None => mret (mkSnapshot (DashboardWire.sampled_at_ms response) completeness (DashboardWire.daemon response) sessions)
      end
  end.

Definition collect_summary_pages : M W persist_error DashboardSnapshot :=
  response ← fetch (mkSummaryRequest 0 MAX_SUMMARY_PAGE);
  pages (S (S (N.to_nat MAX_SUMMARY_SESSIONS))) 0 ∅ [] (DashboardWire.completeness response) response.
End pages.

Definition parse_summary_frame (response : ClientFrame.Frame) (request_id : N) : result persist_error DashboardSummaryResponse :=
  if negb (bool_decide (ClientFrame.msg_type response = ClientFrame.DashboardSummaryResp)) || negb (ClientFrame.request_id response =? request_id)
  then protocol_error "unexpected dashboard summary response"
  else ok_or (DashboardWire.decode_summary_response (ClientFrame.payload response)) (InvalidArgument "invalid dashboard summary payload").

Definition parse_trend_frame (response : ClientFrame.Frame) (request_id : N) : result persist_error DashboardTrendResponse :=
  if negb (bool_decide (ClientFrame.msg_type response = ClientFrame.DashboardTrendResp)) || negb (ClientFrame.request_id response =? request_id)
  then protocol_error "unexpected dashboard trend response"
  else ok_or (DashboardWire.decode_trend_response (ClientFrame.payload response)) (InvalidArgument "invalid dashboard trend payload").

(** The client's counter of requests; [exchange] writes a frame to the daemon
    and reads one. *)
Record Client : Type := mkClient { next_request_id : N; timing : RefreshPolicy }.
Definition request_id (c : Client) : N * Client :=
  (next_request_id c, mkClient (N.max ((next_request_id c + 1) mod 2 ^ 32) 1) (timing c)).

Section client.
Context (exchange : ClientFrame.Frame -> result persist_error ClientFrame.Frame).
Abbreviation IOC := (M Client persist_error).

Definition fresh_id : IOC N := c ← get; _ ← modify (fun c => snd (request_id c)); mret (fst (request_id c)).

Definition fetch_page (request : DashboardSummaryRequest) : IOC DashboardSummaryResponse :=
  id ← fresh_id;
  response ← lift (exchange (ClientFrame.mkFrame ClientFrame.DashboardSummary 0 id (DashboardWire.encode_summary_request request)));
  lift (parse_summary_frame response id).

Definition timed {A} (m : IOC A) : IOC A :=
  r ← attempt m;
  _ ← modify (fun c => mkClient (next_request_id c) (record_result (is_ok r) (timing c)));
  lift r.

Definition summary : IOC DashboardSnapshot := timed (collect_summary_pages fetch_page).

Definition trend (request : DashboardTrendRequest) : IOC DashboardTrendResponse :=
  timed (
    id ← fresh_id;
    match DashboardWire.encode_trend_request request with
    | [] => lift (protocol_error "invalid dashboard trend request")
    | payload =>
        response ← lift (exchange (ClientFrame.mkFrame ClientFrame.DashboardTrend 0 id payload));
        lift (parse_trend_frame response id)
    end).
End client.
End DashboardClient.

(** ** The pages of a summary *)

Module Pages.
Import DashboardClient.
Abbreviation ids := (map DashboardWire.session_id).

(** What a page that is accepted adds. *)
Lemma take_page_Ok cursor page : forall last_id seen sessions last_id' seen' sessions',
  take_page cursor page last_id seen sessions = Ok (last_id', seen', sessions') ->
  sessions' = sessions ++ page /\ (page <> [] -> lenN sessions' <= MAX_SUMMARY_SESSIONS) /\
  StronglySorted N.lt (ids page) /\ Forall (fun id => cursor < id /\ forall p, last_id = Some p -> p < id) (ids page) /\
  last_id' = match last (ids page) with Some id => Some id | None => last_id end.
Proof.
  induction page as [|s page IH]; intros last_id seen sessions last_id' seen' sessions' H; cbn [take_page] in H.
  { injection H as <- <- <-. rewrite app_nil_r. split_and!; done || constructor. }
  destruct ((_ || _) || _) eqn:E in H; [done|]. rewrite !orb_false_iff in E. destruct E as [[E1%N.leb_gt E2] _].
  destruct (N.ltb_spec MAX_SUMMARY_SESSIONS (lenN (sessions ++ [s]))) as [|Hm]; [done|].
  apply IH in H as (-> & Hl & Hs & HF & ->). rewrite <- app_assoc in *. cbn [app map] in *.
  assert (HF' : Forall (N.lt (DashboardWire.session_id s)) (ids page)).
  { eapply Forall_impl; [exact HF|]. intros id [_ Hid]. by apply Hid. }
  split_and!; [done| |by constructor| |].
  - intros _. destruct page as [|s' page]; [done|]. by apply Hl.
  - constructor.
    + split; [lia|]. intros p ->. by apply N.leb_gt in E2.
    + apply Forall_forall. intros id Hid. rewrite Forall_forall in HF, HF'. split; [exact (proj1 (HF id Hid))|]. intros p ->.
      apply N.leb_gt in E2. specialize (HF' id Hid). lia.
  - change (DashboardWire.session_id s :: ids page) with ([DashboardWire.session_id s] ++ ids page).
    destruct (ids page) as [|x l] using rev_ind; [done|]. rewrite app_assoc, !last_snoc. done.
Qed.

(** The sessions of a snapshot: strictly ascending, and not too many. *)
Definition in_order (cursor : N) (l : list SessionMetrics) : Prop :=
  StronglySorted N.lt (ids l) /\ Forall (fun id => 0 < id <= cursor) (ids l) /\ lenN l <= MAX_SUMMARY_SESSIONS.

Lemma sorted_app (l1 l2 : list N) c : StronglySorted N.lt l1 -> StronglySorted N.lt l2 -> Forall (fun x => x <= c) l1 ->
  Forall (fun x => c < x) l2 -> StronglySorted N.lt (l1 ++ l2).
Proof.
  intros H1 H2 F1 F2. apply StronglySorted_app. split_and!; [|done..]. intros x y Hx Hy. rewrite Forall_forall in F1, F2.
  specialize (F1 x Hx). specialize (F2 y Hy). lia.
Qed.

Lemma in_order_page cursor sessions page last_id seen seen' sessions' :
  in_order cursor sessions -> take_page cursor page None seen sessions = Ok (last_id, seen', sessions') ->
  sessions' = sessions ++ page /\ (StronglySorted N.lt (ids sessions') /\ Forall (fun id => 0 < id) (ids sessions') /\
    lenN sessions' <= MAX_SUMMARY_SESSIONS) /\ (forall next, last_id = Some next -> in_order next sessions' /\ page <> []).
Proof.
  intros (Hs & HF & Hl) Ht. apply take_page_Ok in Ht as (-> & Hl' & Hp & HFp & ->).
  assert (Hsorted : StronglySorted N.lt (ids (sessions ++ page))).
  { rewrite map_app. apply (sorted_app _ _ cursor); [done..| |].
    - eapply Forall_impl; [exact HF|]. cbn. lia.
    - eapply Forall_impl; [exact HFp|]. cbn. tauto. }
  assert (Hpos : Forall (fun id => 0 < id) (ids (sessions ++ page))).
  { rewrite map_app. apply Forall_app_2; [eapply Forall_impl; [exact HF|]; cbn; lia|eapply Forall_impl; [exact HFp|]; cbn; lia]. }
  assert (Hlen : lenN (sessions ++ page) <= MAX_SUMMARY_SESSIONS).
  { destruct page; [by rewrite app_nil_r|]. by apply Hl'. }
  split_and!; [done..|]. intros next Hn. destruct (ids page) as [|x l _] eqn:E using rev_ind; [done|].
  rewrite last_snoc in Hn. injection Hn as ->. split; [|by destruct page; [destruct l|]]. split_and!; [done| |done].
  apply Forall_forall. intros id Hid. rewrite Forall_forall in Hpos. split; [by apply Hpos|].
  rewrite map_app, E, app_assoc in Hsorted, Hid. apply elem_of_app in Hid as [Hid|Hid].
  - apply StronglySorted_app in Hsorted as (Hlt & _). specialize (Hlt id next Hid ltac:(set_solver)). lia.
  - set_solver.
Qed.

(** A page in order that goes on where the client is. *)
Lemma take_page_accepts cursor page : forall last_id seen sessions,
  Forall (fun id => cursor < id /\ forall p, last_id = Some p -> p < id) (ids page) -> StronglySorted N.lt (ids page) ->
  (forall x, x ∈ seen -> Forall (N.lt x) (ids page)) -> lenN (sessions ++ page) <= MAX_SUMMARY_SESSIONS ->
  exists seen', take_page cursor page last_id seen sessions =
    Ok (match last (ids page) with Some id => Some id | None => last_id end, seen', sessions ++ page) /\
    forall x, x ∈ seen' -> x ∈ seen \/ x ∈ ids page.
Proof.
  induction page as [|s page IH]; intros last_id seen sessions HF Hs Hseen Hl; cbn [take_page].
  { exists seen. rewrite app_nil_r. split; [done|]. by left. }
  change (ids (s :: page)) with (DashboardWire.session_id s :: ids page) in *.
  apply Forall_cons in HF as [[Hc Hp] HF]. apply StronglySorted_inv in Hs as [Hs Hlt].
  rewrite (proj2 (N.leb_gt _ _) Hc). assert (E : match last_id with Some p => DashboardWire.session_id s <=? p | None => false end = false).
  { destruct last_id as [p|]; [|done]. by apply N.leb_gt, Hp. }
  rewrite E, bool_decide_false by (intros Hin; specialize (Hseen _ Hin); apply Forall_cons in Hseen as [Hlt' _]; lia). cbn [orb].
  change (s :: page) with ([s] ++ page) in Hl. rewrite app_assoc in Hl.
  assert (Hm : lenN (sessions ++ [s]) <= MAX_SUMMARY_SESSIONS) by (rewrite lenN_app in Hl; lia). rewrite (proj2 (N.ltb_ge _ _) Hm).
  destruct (IH (Some (DashboardWire.session_id s)) ({[DashboardWire.session_id s]} ∪ seen) (sessions ++ [s])) as (seen' & -> & Hs'); [|done| |done|].
  - rewrite Forall_forall in HF, Hlt. apply Forall_forall. intros id Hid. split; [exact (proj1 (HF id Hid))|]. intros p [= <-]. by apply Hlt.
  - intros x [->%elem_of_singleton|Hx]%elem_of_union; [done|]. apply Hseen, Forall_cons in Hx. apply Hx.
  - exists seen'. rewrite <- app_assoc. split.
    { destruct (ids page) as [|n l]; [done|]. cbn. by destruct (last (n :: l)) eqn:El; [|apply last_None in El]. }
    intros x Hx. rewrite elem_of_cons.
    apply Hs' in Hx as [[->%elem_of_singleton|Hx]%elem_of_union|Hx]; auto.
Qed.

Section any_daemon.
Context {W : Type} (fetch : DashboardSummaryRequest -> M W persist_error DashboardSummaryResponse).
Context (fetch_returns : forall request, returns (fetch request)).

Lemma pages_returns : forall fuel cursor seen sessions c response w, in_order cursor sessions ->
  (N.to_nat (MAX_SUMMARY_SESSIONS - lenN sessions) < fuel)%nat ->
  runs (pages fetch fuel cursor seen sessions c response) w (fun r _ => forall snap, r = Ok snap ->
    StronglySorted N.lt (ids (DashboardClient.sessions snap)) /\ Forall (fun id => 0 < id) (ids (DashboardClient.sessions snap)) /\
    lenN (DashboardClient.sessions snap) <= MAX_SUMMARY_SESSIONS).
Proof.
  induction fuel as [|fuel IH]; intros cursor seen sessions c response w Ho Hf; [lia|]. cbn [pages]. rewrite runs_bind, runs_lift.
  destruct (take_page _ _ _ _ _) as [[[last_id seen'] sessions']|] eqn:E; [|done]. pose proof Ho as (_ & _ & Hl).
  apply (in_order_page _ _ _ _ _ _ _ Ho) in E as (-> & Hfinal & Hnext).
  destruct (DashboardWire.next_cursor response) as [next|]; [|rewrite runs_ret; by intros snap [= <-]].
  case_bool_decide as Hn; cbn [andb]; [|done]. destruct (cursor <? next); [|done]. destruct (Hnext next (eq_sym Hn)) as [Ho' Hne].
  rewrite runs_bind. eapply runs_mono; [apply fetch_returns|]. intros [response'|e] w' _; [|done]. apply IH; [done|].
  destruct Hfinal as (_ & _ & Hl'). rewrite lenN_app in *. destruct (DashboardWire.sessions response) as [|s page]; [done|].
  rewrite lenN_cons in *. lia.
Qed.

(** A client that asks any daemon for its sessions, page after page, comes to
    an end, whatever the pages say; and the sessions it accepts are in strictly
    ascending order, none twice, and no more than its limit. *)
Theorem summary_terminates w :
  runs (collect_summary_pages fetch) w (fun r _ => forall snap, r = Ok snap ->
    StronglySorted N.lt (ids (DashboardClient.sessions snap)) /\ Forall (fun id => 0 < id) (ids (DashboardClient.sessions snap)) /\
    lenN (DashboardClient.sessions snap) <= MAX_SUMMARY_SESSIONS).
Proof.
  unfold collect_summary_pages. rewrite runs_bind. eapply runs_mono; [apply fetch_returns|]. intros [response|e] w' _; [|done].
  apply pages_returns; [|rewrite lenN_nil; lia]. split_and!; [constructor|constructor|done].
Qed.
End any_daemon.
End Pages.

(** ** The client and a daemon whose sample stays *)

Module Answers.
Import DashboardClient Pages.
Import DashboardWire(daemon_ok, session_ok, summary_ok, NO_VALUE).

(** A sample that can be told to a client. *)
Record answerable (s : DerivedSample) : Prop := {
  a_time : is_u64 (Model.sampled_at_ms s);
  a_daemon : daemon_ok (Model.daemon_metrics (Model.daemon s));
  a_sessions : Forall (fun m => session_ok m /\ DashboardWire.session_id m <> 0 /\ DashboardWire.session_id m < NO_VALUE /\
    DashboardWire.foreground_pid m <> Some 0) (map Model.session_metrics (Model.sessions s));
  a_nodup : NoDup (ids (map Model.session_metrics (Model.sessions s)));
  a_count : lenN (Model.sessions s) <= MAX_SUMMARY_SESSIONS }.

#[local] Existing Instance Service.id_le_dec.
Definition sorted_sessions (s : DerivedSample) : list SessionMetrics := merge_sort Service.id_le (map Model.session_metrics (Model.sessions s)).

#[local] Instance id_le_total : Total Service.id_le.
Proof. intros a b. unfold Service.id_le. lia. Qed.
#[local] Instance id_le_trans : Transitive Service.id_le.
Proof. intros a b c. unfold Service.id_le. lia. Qed.

Lemma strictly_sorted (l : list SessionMetrics) : StronglySorted Service.id_le l -> NoDup (ids l) -> StronglySorted N.lt (ids l).
Proof.
  induction 1 as [|a l Hl IH Ha]; [constructor|]. cbn. rewrite NoDup_cons. intros [Hni Hnd]. constructor; [by apply IH|].
  apply Forall_forall. intros id Hid. apply list_elem_of_fmap in Hid as (m & -> & Hm). rewrite Forall_forall in Ha. specialize (Ha m Hm).
  unfold Service.id_le in Ha. assert (DashboardWire.session_id m <> DashboardWire.session_id a); [|lia].
  intros E. apply Hni. rewrite <- E. by apply list_elem_of_fmap_2.
Qed.

Lemma sorted_ids s : answerable s -> StronglySorted N.lt (ids (sorted_sessions s)).
Proof.
  intros Ha. apply (strictly_sorted (sorted_sessions s)).
  { unfold sorted_sessions. apply StronglySorted_merge_sort; apply _. }
  assert (Hp : ids (sorted_sessions s) ≡ₚ ids (map Model.session_metrics (Model.sessions s))).
  { apply Permutation_map. unfold sorted_sessions. exact (merge_sort_Permutation _ _). }
  rewrite Hp. apply (a_nodup s Ha).
Qed.
Lemma sorted_length s : lenN (sorted_sessions s) = lenN (Model.sessions s).
Proof. unfold sorted_sessions, lenN. rewrite (merge_sort_Permutation Service.id_le (map _ _)), length_map. done. Qed.
Lemma sorted_ok s : answerable s -> Forall (fun m => session_ok m /\ DashboardWire.session_id m <> 0 /\
  DashboardWire.session_id m < NO_VALUE /\ DashboardWire.foreground_pid m <> Some 0) (sorted_sessions s).
Proof. intros Ha. unfold sorted_sessions. rewrite (merge_sort_Permutation Service.id_le (map _ _)). apply Ha. Qed.

Section daemon.
Context (process_id : N) (running : bool) (wall_time_ms : N) (h : BoundedHistory) (latest : DerivedSample).
Context (Hlatest : History.latest h = Some latest) (Hok : answerable latest).
Let L := sorted_sessions latest.

(** The daemon as the client meets it. *)
Definition exchange (frame : ClientFrame.Frame) : result persist_error ClientFrame.Frame :=
  Ok (Service.handle_dashboard_summary process_id running wall_time_ms h frame).

Definition page_end (k : nat) : nat := Nat.min (k + 128) (length L).
Definition answer (k : nat) : DashboardSummaryResponse :=
  mkSummary (Model.sampled_at_ms latest)
    (Service.summary_completeness running wall_time_ms (Model.sampled_at_ms latest) (Model.completeness latest))
    (Model.daemon_metrics (Model.daemon latest)) (take (page_end k - k) (drop k L))
    (if bool_decide (page_end k < length L)%nat then DashboardWire.session_id <$> L !! (page_end k - 1)%nat else None).

(** The cursor that asks for the page from the [k]th session on. *)
Definition cursor_at (k : nat) (cursor : N) : Prop :=
  (k = 0%nat /\ cursor = 0) \/ (exists m k', k = S k' /\ L !! k' = Some m /\ cursor = DashboardWire.session_id m).

Lemma L_small : lenN L <= MAX_SUMMARY_SESSIONS.
Proof. unfold L. rewrite sorted_length. apply (a_count _ Hok). Qed.

Lemma L_elem k m : L !! k = Some m -> session_ok m /\ DashboardWire.session_id m <> 0 /\ DashboardWire.session_id m < NO_VALUE /\
  DashboardWire.foreground_pid m <> Some 0.
Proof. intros Hm. pose proof (sorted_ok latest Hok) as HF. rewrite Forall_lookup in HF. by eapply HF. Qed.

Lemma L_lt i j a b : L !! i = Some a -> L !! j = Some b -> (i < j)%nat -> DashboardWire.session_id a < DashboardWire.session_id b.
Proof.
  intros Ha Hb Hij. pose proof (sorted_ids latest Hok) as Hs. fold L in Hs.
  assert (Hspl : ids L = take (S i) (ids L) ++ drop (S i) (ids L)) by (by rewrite take_drop). rewrite Hspl in Hs.
  apply StronglySorted_app in Hs as (Hlt & _). apply Hlt.
  - apply list_elem_of_lookup. exists i. rewrite lookup_take_lt by lia. rewrite list_lookup_fmap, Ha. done.
  - apply list_elem_of_lookup. exists (j - S i)%nat. rewrite lookup_drop. replace (S i + (j - S i))%nat with j by lia.
    rewrite list_lookup_fmap, Hb. done.
Qed.

Lemma page_start_at k cursor : cursor_at k cursor -> Service.page_start L cursor = Ok (N.of_nat k).
Proof.
  unfold Service.page_start. intros [[-> ->]|(m & k' & -> & Hm & ->)]; [done|]. destruct (L_elem _ _ Hm) as (_ & Hne & _).
  rewrite (proj2 (N.eqb_neq _ _) Hne).
  rewrite (proj2 (list_find_Some _ L k' m)); [f_equal; lia|]. split_and!; [done|done|].
  intros j y Hy Hj E. pose proof (L_lt j k' y m Hy Hm Hj). lia.
Qed.

Lemma cursor_bounds k cursor : cursor_at k cursor -> is_u32 cursor /\ cursor <> NO_VALUE /\ (k <= length L)%nat.
Proof.
  intros [[-> ->]|(m & k' & -> & Hm & ->)]; [split_and!; [done|done|lia]|]. destruct (L_elem _ _ Hm) as ((Hid & _) & _ & Hlt & _).
  split_and!; [exact Hid|lia|]. by apply lookup_lt_Some in Hm.
Qed.

(** What the daemon answers to a page's request, before and after the wire. *)
Lemma summary_at k cursor : cursor_at k cursor ->
  Service.summary process_id running wall_time_ms h (mkSummaryRequest cursor MAX_SUMMARY_PAGE) = Ok (answer k).
Proof.
  intros Hc. pose proof (cursor_bounds _ _ Hc) as (_ & _ & Hk). pose proof L_small as Hs. unfold Service.summary. cbn [DashboardWire.limit DashboardWire.cursor].
  change ((MAX_SUMMARY_PAGE =? 0) || (MAX_SUMMARY_PAGE <? MAX_SUMMARY_PAGE)) with false. cbn iota. rewrite Hlatest. cbv zeta.
  fold (sorted_sessions latest). fold L. rewrite (page_start_at _ _ Hc). cbn [mbind result_bind].
  assert (He : N.min (saturating_add_usize (N.of_nat k) MAX_SUMMARY_PAGE) (lenN L) = N.of_nat (page_end k)).
  { unfold page_end, saturating_add_usize, usize_max, u64_max, lenN, MAX_SUMMARY_SESSIONS, MAX_SUMMARY_PAGE in *. lia. }
  rewrite He. unfold answer. f_equal. f_equal.
  - unfold slice, takeN, dropN. rewrite Nat2N.id. do 2 f_equal. lia.
  - rewrite (bool_decide_ext _ (N.of_nat (page_end k) < lenN L)) by (unfold lenN; lia). rewrite bool_decide_decide.
    destruct (N.ltb_spec (N.of_nat (page_end k)) (lenN L)); destruct (decide _); try lia; [|done]. do 2 f_equal. lia.
Qed.

Lemma page_ids k : ids (take (page_end k - k) (drop k L)) = take (page_end k - k) (drop k (ids L)).
Proof. rewrite <- firstn_map, <- skipn_map. done. Qed.

Lemma answer_ok k : (k <= length L)%nat -> DashboardWire.summary_ok (answer k).
Proof.
  intros Hk. pose proof (sorted_ok latest Hok) as Hs. fold L in Hs. unfold DashboardWire.summary_ok, answer.
  cbn [DashboardWire.sampled_at_ms DashboardWire.daemon DashboardWire.sessions DashboardWire.next_cursor].
  assert (Hnext : forall m, DashboardWire.session_id <$> L !! (page_end k - 1)%nat = Some m -> is_u32 m /\ m <> NO_VALUE).
  { intros m Hm. apply fmap_Some in Hm as (x & Hx & ->). destruct (L_elem _ _ Hx) as ((Hid & _) & _ & Hlt & _). split; [exact Hid|lia]. }
  split_and!; [apply Hok|apply Hok| | | |].
  - unfold lenN. rewrite length_take, length_drop. unfold page_end, MAX_SUMMARY_PAGE. lia.
  - apply Forall_take, Forall_drop. eapply Forall_impl; [exact Hs|]. cbn. tauto.
  - case_bool_decide; [|done]. destruct (_ <$> _) as [m|] eqn:E; [|done]. apply (Hnext m eq_refl).
  - case_bool_decide; [|done]. intros E. by apply (Hnext _ E).
Qed.

Lemma fetch_page_at k cursor c : cursor_at k cursor ->
  runs (fetch_page exchange (mkSummaryRequest cursor MAX_SUMMARY_PAGE)) c (fun r _ => r = Ok (answer k)).
Proof.
  intros Hc. pose proof (cursor_bounds _ _ Hc) as (Hu & Hn & Hk). unfold fetch_page, fresh_id.
  rewrite !runs_bind, runs_get, runs_bind, runs_modify, runs_ret, runs_bind, runs_lift. unfold exchange, Service.handle_dashboard_summary.
  cbn [ClientFrame.payload ClientFrame.request_id]. rewrite DashboardWire.summary_request_roundtrip.
  - rewrite (summary_at _ _ Hc), runs_lift. unfold parse_summary_frame. cbn [ClientFrame.msg_type ClientFrame.request_id ClientFrame.payload].
    rewrite bool_decide_true, N.eqb_refl by done. cbn [negb orb]. by rewrite (DashboardWire.summary_roundtrip _ (answer_ok _ Hk)).
  - exact Hu.
  - unfold DashboardWire.summary_request_ok. cbn [DashboardWire.cursor DashboardWire.limit]. by rewrite (proj2 (N.eqb_neq _ _) Hn).
Qed.

(** What the client ends with. *)
Definition snapshot : DashboardSnapshot :=
  mkSnapshot (Model.sampled_at_ms latest)
    (Service.summary_completeness running wall_time_ms (Model.sampled_at_ms latest) (Model.completeness latest))
    (Model.daemon_metrics (Model.daemon latest)) L.

Lemma take_answer k cursor seen : cursor_at k cursor -> (forall x, x ∈ seen -> x ∈ ids (take k L)) ->
  exists last_id seen', take_page cursor (DashboardWire.sessions (answer k)) None seen (take k L) = Ok (last_id, seen', take (page_end k) L) /\
    (forall x, x ∈ seen' -> x ∈ ids (take (page_end k) L)) /\
    ((page_end k < length L)%nat -> exists m, L !! (page_end k - 1)%nat = Some m /\ last_id = Some (DashboardWire.session_id m)).
Proof.
  intros Hc Hseen. pose proof (cursor_bounds _ _ Hc) as (_ & _ & Hk). pose proof (sorted_ids latest Hok) as Hs. fold L in Hs.
  assert (Hcut : take k L ++ take (page_end k - k) (drop k L) = take (page_end k) L).
  { rewrite take_take_drop. f_equal. unfold page_end. lia. }
  set (page := take (page_end k - k) (drop k L)) in *.
  assert (Hids : ids L = ids (take k L) ++ ids page ++ ids (drop (page_end k) L)) by (rewrite app_assoc, <- !map_app, Hcut; by rewrite take_drop).
  rewrite Hids in Hs. apply StronglySorted_app in Hs as (Hlt & _ & Hs). apply StronglySorted_app in Hs as (_ & Hs & _).
  destruct (take_page_accepts cursor page None seen (take k L)) as (seen' & E & Hs'); [|done| | |].
  - apply Forall_forall. intros id Hid. split; [|done]. destruct Hc as [[-> ->]|(m & k' & -> & Hm & ->)].
    + apply list_elem_of_fmap in Hid as (m & -> & Hm). apply elem_of_take in Hm as (j & Hm & _).
      rewrite lookup_drop in Hm. destruct (L_elem _ _ Hm) as (_ & Hne & _). lia.
    + apply Hlt; [|set_solver]. apply list_elem_of_fmap_2. apply elem_of_take. exists k'. auto with lia.
  - intros x Hx. apply Forall_forall. intros y Hy. apply Hlt; [by apply Hseen|set_solver].
  - rewrite Hcut. pose proof L_small. unfold lenN in *. rewrite length_take. lia.
  - rewrite Hcut in E. eexists _, seen'. split; [exact E|]. split.
    + intros x Hx. apply Hs' in Hx. rewrite <- Hcut, map_app. set_solver.
    + intros Hend. destruct (L !! (page_end k - 1)%nat) as [m|] eqn:Em; [|apply lookup_ge_None in Em; unfold page_end in *; lia].
      exists m. split; [done|]. assert (Hlast : last (ids page) = Some (DashboardWire.session_id m)); [|by rewrite Hlast].
      rewrite last_lookup, length_map, list_lookup_fmap. unfold page. rewrite length_take, length_drop, lookup_take_lt by (unfold page_end in *; lia).
      rewrite lookup_drop. replace (k + _)%nat with (page_end k - 1)%nat by (unfold page_end in *; lia). by rewrite Em.
Qed.

Lemma pages_at fuel : forall k cursor seen c, cursor_at k cursor -> (length L - k < fuel)%nat -> (forall x, x ∈ seen -> x ∈ ids (take k L)) ->
  runs (pages (fetch_page exchange) fuel cursor seen (take k L) (completeness snapshot) (answer k)) c (fun r _ => r = Ok snapshot).
Proof.
  induction fuel as [|fuel IH]; intros k cursor seen c Hc Hf Hseen; [lia|]. pose proof (cursor_bounds _ _ Hc) as (_ & _ & Hk). cbn [pages].
  rewrite runs_bind, runs_lift. destruct (take_answer k cursor seen Hc Hseen) as (last_id & seen' & -> & Hs' & Hlast).
  replace (merge_completeness _ _) with (completeness snapshot) by (cbn; by destruct (Service.summary_completeness _ _ _ _)).
  cbn [DashboardWire.next_cursor answer]. case_bool_decide as Hend.
  - destruct (Hlast Hend) as (m & Hm & ->). rewrite Hm. change (DashboardWire.session_id <$> Some m) with (Some (DashboardWire.session_id m)).
    cbn iota. rewrite bool_decide_true by done. assert (Hlt : cursor < DashboardWire.session_id m).
    { destruct Hc as [[_ ->]|(m' & k' & -> & Hm' & ->)]; [destruct (L_elem _ _ Hm) as (_ & ? & _); lia|].
      apply (L_lt k' (page_end (S k') - 1)); [done..|]. unfold page_end in *. lia. }
    rewrite (proj2 (N.ltb_lt _ _) Hlt). cbn [andb].
    assert (Hc' : cursor_at (page_end k) (DashboardWire.session_id m)).
    { right. exists m, (page_end k - 1)%nat. split_and!; [unfold page_end in *; lia|done..]. }
    rewrite runs_bind. eapply runs_mono; [by apply fetch_page_at|]. intros r c' ->. apply IH; [done|unfold page_end in *; lia|done].
  - cbn iota. rewrite runs_ret. unfold snapshot. do 2 f_equal. apply take_ge. unfold page_end in *. lia.
Qed.

(** C34: While the daemon keeps one sample, whatever the number of its sessions,
    up to the client's limit, the client's summary is the whole sample: every
    session once, in ascending order of their ids, gathered over pages that pass
    the wire in both directions; and the timing goes back to the usual interval. *)
Theorem summary_complete c :
  runs (summary exchange) c (fun r c' => r = Ok snapshot /\ timing c' = mkPolicy 0 REFRESH_INTERVAL /\
    sessions snapshot ≡ₚ map Model.session_metrics (Model.sessions latest) /\ StronglySorted N.lt (ids (sessions snapshot))).
Proof.
  unfold summary, timed. rewrite runs_bind, runs_attempt. unfold collect_summary_pages. rewrite runs_bind.
  eapply runs_mono; [apply (fetch_page_at 0 0); by left|]. intros r c' ->. eapply runs_mono.
  - apply (pages_at _ 0 0 ∅ c'); [by left| |set_solver]. pose proof L_small. unfold lenN in *. lia.
  - intros r c'' ->. rewrite runs_bind, runs_modify, runs_lift. split_and!; [done|done| |by apply sorted_ids].
    cbn [sessions snapshot]. unfold L, sorted_sessions. apply merge_sort_Permutation.
Qed.
End daemon.
End Answers.

(** ** Examples *)

Module DashboardExamples.
Import DashboardClient.

(** A daemon that says there is always a next page, and never has one. *)
Definition empty_page (request : DashboardSummaryRequest) : M unit persist_error DashboardSummaryResponse :=
  mret (mkSummary 0 Complete (mkDaemonMetrics 1 false 0 0 0 0 0 0 0 0) [] (Some (DashboardWire.cursor request + 1))).
Lemma summary_terminates_witness :
  (forall request, returns (empty_page request)) /\
  runs (collect_summary_pages empty_page) tt (fun r _ => forall snap, r = Ok snap ->
    StronglySorted N.lt (map DashboardWire.session_id (sessions snap)) /\
    Forall (fun id => 0 < id) (map DashboardWire.session_id (sessions snap)) /\ lenN (sessions snap) <= MAX_SUMMARY_SESSIONS).
Proof.
  assert (H : forall request, returns (empty_page request)) by (intros request; apply returns_ret).
  split; [exact H|]. exact (Pages.summary_terminates empty_page H tt).
Defined.

(** A sample of three hundred sessions, in the order opposite to that of their ids. *)
Definition a_session (id : N) : DerivedSession :=
  Model.mkDerivedSession (mkSessionMetrics id 1 true 50 1024 0 0 None false DashboardWire.CollectionComplete) 0 0.
Definition a_sample : DerivedSample :=
  Model.mkDerived 1000 1000 Complete (Model.mkDerivedDaemon (mkDaemonMetrics 1 true 10 2048 0 0 300 300 0 0) 1 0 0)
    (map a_session (reverse (N.of_nat <$> seq 1 300))).
Definition a_history : BoundedHistory := History.mkHistory [a_sample] 0 0 1 1 1.
Definition a_client : Client := mkClient 7 (mkPolicy 3 1000).

Lemma a_sample_answerable : Answers.answerable a_sample.
Proof.
  constructor.
  - done.
  - by cbv.
  - cbn [a_sample Model.sessions]. rewrite map_map. apply Forall_fmap, Forall_forall. intros id Hid.
    rewrite elem_of_reverse in Hid. apply list_elem_of_fmap in Hid as (n & -> & Hn%elem_of_seq). cbn. unfold DashboardWire.session_ok, is_u32, is_u64. cbn.
    change DashboardWire.NO_VALUE with 4294967295. split_and!; done || lia.
  - cbn [a_sample Model.sessions]. rewrite !map_map.
    change (NoDup (map (fun id : N => id) (reverse (N.of_nat <$> seq 1 300)))). rewrite map_id, reverse_Permutation. apply (NoDup_fmap_2 _), NoDup_seq.
  - by vm_compute.
Qed.

Lemma summary_complete_witness :
  History.latest a_history = Some a_sample /\ Answers.answerable a_sample /\
  lenN (sessions (Answers.snapshot true 1000 a_sample)) = 300 /\
  runs (summary (Answers.exchange 1 true 1000 a_history)) a_client (fun r c' => r = Ok (Answers.snapshot true 1000 a_sample) /\
    timing c' = mkPolicy 0 REFRESH_INTERVAL /\
    sessions (Answers.snapshot true 1000 a_sample) ≡ₚ map Model.session_metrics (Model.sessions a_sample) /\
    StronglySorted N.lt (map DashboardWire.session_id (sessions (Answers.snapshot true 1000 a_sample)))).
Proof.
  split; [reflexivity|]. split; [exact a_sample_answerable|]. split; [vm_compute; reflexivity|].
  exact (Answers.summary_complete 1 true 1000 a_history a_sample eq_refl a_sample_answerable a_client).
Defined.
End DashboardExamples.
