(* ===== verification/ClientAttach.v ===== *)
(** * ClientAttach: the terminal of an attached client.

    Models [crates/persist-cli/src/attach.rs]: the requests that attach, the
    loops that pass keys to the daemon and the session's output to the
    terminal, and what follows them.  Standard output is the buffer that
    [std::io::stdout] puts before the terminal: the source never flushes it.

    [rounds] are what [poll], [read] and the signal of the window tell in the
    turns of a loop; [kernel] is what the kernel answers to successive writes
    to the socket and [screen] to successive writes to the terminal, after
    which every write is taken whole.  [got], [asked] and [heard] record the
    bytes read from the daemon, the frames written (and whether in whole) and
    the frames taken out. *)
From S2P Require Import Prelude Bytes Utf8 Effects Environment HolderWire HolderFrame ByteQueue ClientFrame ClientMessages ShellState PublicAttach.
From Stdlib Require Import Lia.
Import String.StringSyntax.
Import Environment(SnapshotJson).
Import ClientFrame(Frame, FrameAccumulator, MessageType).
Import ByteQueue(write_result, Wrote, WouldBlock, WriteFailed).
Import PublicAttach(read_result, Chunk, Eof, Again, ReadFailed).
#[local] Existing Instances ClientFrame.MessageType_eq_dec HolderFrame.HolderMessageType_eq_dec.
Local Open Scope N_scope.

Module ClientAttach.

Record Client : Type := mkClient {
  frames : FrameAccumulator;
  shown : bytes;
  line_buffer : bytes;
  notes : bytes;
  sent : bytes;
  kernel : list write_result;
  screen : list (option N);
  got : bytes;
  asked : list (Frame * bool);
  heard : list Frame }.

Definition set_frames f c := mkClient f (shown c) (line_buffer c) (notes c) (sent c) (kernel c) (screen c) (got c) (asked c) (heard c).
Definition set_screen bs buffer answers c := mkClient (frames c) bs buffer (notes c) (sent c) (kernel c) answers (got c) (asked c) (heard c).
Definition add_note bs c := mkClient (frames c) (shown c) (line_buffer c) (notes c ++ bs) (sent c) (kernel c) (screen c) (got c) (asked c) (heard c).
Definition set_socket bs answers c := mkClient (frames c) (shown c) (line_buffer c) (notes c) (sent c ++ bs) answers (screen c) (got c) (asked c) (heard c).
Definition add_got bs c := mkClient (frames c) (shown c) (line_buffer c) (notes c) (sent c) (kernel c) (screen c) (got c ++ bs) (asked c) (heard c).
Definition add_asked x c := mkClient (frames c) (shown c) (line_buffer c) (notes c) (sent c) (kernel c) (screen c) (got c) (asked c ++ [x]) (heard c).
Definition add_heard f c := mkClient (frames c) (shown c) (line_buffer c) (notes c) (sent c) (kernel c) (screen c) (got c) (asked c) (heard c ++ [f]).

(** A step that fails ends the loop. *)
Abbreviation C := (M Client unit).
Abbreviation stop := (fail tt).

(** ** Standard output *)

(** A [write_all] to the terminal: it takes everything, or fails after some
    bytes. *)
Definition raw_write (bs : bytes) : C unit :=
  c ← get;
  match screen c with
  | [] => modify (set_screen (shown c ++ bs) (line_buffer c) [])
  | None :: rest => modify (set_screen (shown c ++ bs) (line_buffer c) rest)
  | Some n :: rest => _ ← modify (set_screen (shown c ++ takeN n bs) (line_buffer c) rest); stop
  end.

(** [BufWriter::flush_buf]: what was taken leaves the buffer, also when the
    terminal fails. *)
Definition flush_buf : C unit :=
  c ← get;
  match line_buffer c with
  | [] => mret tt
  | bs =>
      r ← attempt (raw_write bs);
      c' ← get;
      _ ← modify (set_screen (shown c') (dropN (lenN (shown c') - lenN (shown c)) bs) (screen c'));
      lift r
  end.

Definition LINE_CAPACITY : N := 1024.

(** [BufWriter::write_all] *)
Definition buffer_write (bs : bytes) : C unit :=
  c ← get;
  _ ← (if LINE_CAPACITY - lenN (line_buffer c) <? lenN bs then flush_buf else mret tt);
  if LINE_CAPACITY <=? lenN bs then raw_write bs
  else modify (fun c => set_screen (shown c) (line_buffer c ++ bs) (screen c) c).

Definition is_newline (b : byte) : bool := byte_val b =? 10.

(** The bytes up to the last newline, if there is one, and the rest. *)
Fixpoint split_lines (bs : bytes) : bytes * bytes :=
  match bs with
  | [] => ([], [])
  | b :: bs' =>
      let '(lines, tail) := split_lines bs' in
      match lines with
      | [] => if is_newline b then ([b], tail) else ([], b :: tail)
      | _ => (b :: lines, tail)
      end
  end.

(** [LineWriter::write_all], the writer behind [io::stdout]. *)
Definition stdout_write_all (bs : bytes) : C unit :=
  c ← get;
  let '(lines, tail) := split_lines bs in
  match lines with
  | [] =>
      _ ← (match last (line_buffer c) with Some b => if is_newline b then flush_buf else mret tt | None => mret tt end);
      buffer_write tail
  | _ =>
      _ ← match line_buffer c with
          | [] => raw_write lines
          | _ => _ ← buffer_write lines; flush_buf
          end;
      buffer_write tail
  end.

(** [emit_stdout] *)
Definition emit_stdout (bs : bytes) : C bool := r ← attempt (stdout_write_all bs); mret (is_ok r).
(** [emit_stderr]; standard error has no buffer. *)
Definition emit_stderr (bs : bytes) : C unit := modify (add_note bs).

(** [b"\r\n[..]\n"] *)
Definition bracketed (message : String.string) : bytes := [byte_of 13; byte_of 10] ++ lit message ++ [byte_of 10].
Arguments bracketed message%_string.

(** ** The socket *)

(** [write_all]: what was taken, and whether it is everything. *)
Fixpoint write_all (answers : list write_result) (bs : bytes) : bool * bytes * list write_result :=
  match bs, answers with
  | [], _ => (true, [], answers)
  | _, [] => (true, bs, [])
  | _, Wrote n :: rest =>
      let n := N.min n (lenN bs) in
      if n =? 0 then (false, [], rest)
      else let '(ok, more, rest) := write_all rest (dropN n bs) in (ok, takeN n bs ++ more, rest)
  | _, (WouldBlock | WriteFailed) :: rest => (false, [], rest)
  end.

(** [write_frame]: the header, then the payload. *)
Definition write_frame (f : Frame) : C unit :=
  c ← get;
  let bs := ClientFrame.write_frame f in
  let '(ok, head, rest) := write_all (kernel c) (takeN ClientFrame.HEADER_SIZE bs) in
  let '(ok, tail, rest) := if ok : bool then write_all rest (dropN ClientFrame.HEADER_SIZE bs) else (false, [], rest) in
  _ ← modify (fun c => add_asked (f, ok) (set_socket (head ++ tail) rest c));
  if ok then mret tt else stop.

Definition frame_of (kind : MessageType) (payload : bytes) : Frame := ClientFrame.mkFrame kind 0 0 payload.

Definition terminal_resize_payload (rows cols : N) : option bytes :=
  if (0 <? rows) && (0 <? cols) then Some (ClientMessages.encode_resize rows cols) else None.

(** [None]: the terminal does not say its size. *)
Definition send_resize (size : option (N * N)) : C unit :=
  match size with
  | None => mret tt
  | Some (rows, cols) =>
      match terminal_resize_payload rows cols with
      | None => mret tt
      | Some payload => write_frame (frame_of ClientFrame.Resize payload)
      end
  end.

(** ** The loops *)

(** What a frame of the daemon does; [readonly] is the loop without keys. *)
Definition daemon_frame (readonly : bool) (f : Frame) : C unit :=
  _ ← modify (add_heard f);
  match ClientFrame.msg_type f with
  | ClientFrame.Stdout => ok ← emit_stdout (ClientFrame.payload f); if ok : bool then mret tt else stop
  | ClientFrame.SessionExited => stop
  | ClientFrame.WriteRequest => if readonly then mret tt else emit_stderr (bracketed "[another client requested write access]")
  | ClientFrame.WriteGranted => if readonly then mret tt else emit_stderr (bracketed "[write access granted]")
  | ClientFrame.WriteRevoked =>
      if readonly then mret tt else _ ← emit_stderr (bracketed "[write access moved to another client]"); stop
  | ClientFrame.Detach | ClientFrame.Close => stop
  | _ => mret tt
  end.

(** The loop over [try_read]: a frame has at least 12 bytes. *)
Fixpoint daemon_frames (fuel : nat) (readonly : bool) : C unit :=
  match fuel with
  | O => panic
  | S fuel =>
      c ← get;
      match ClientFrame.try_read (frames c) with
      | Ok (Some f, acc) => _ ← modify (set_frames acc); _ ← daemon_frame readonly f; daemon_frames fuel readonly
      | Ok (None, _) => mret tt
      | Err _ => stop
      end
  end.

(** [nix_read] of the socket and what was read. *)
Definition read_socket (readonly : bool) (r : read_result) : C unit :=
  match r with
  | Again => mret tt
  | Eof | ReadFailed => stop
  | Chunk bs =>
      _ ← modify (fun c => add_got bs (set_frames (ClientFrame.feed (frames c) bs) c));
      c ← get;
      daemon_frames (S (length (ClientFrame.buf (frames c)))) readonly
  end.

Definition read_keys (r : read_result) : C unit :=
  match r with
  | Again => mret tt
  | Eof | ReadFailed => stop
  | Chunk bs => write_frame (frame_of ClientFrame.Stdin bs)
  end.

(** A turn: [resized] is the size to tell when the window's signal came, and
    [gone] and [closed] are the failure bits of the socket and the keyboard. *)
Inductive Round : Type :=
| PollFailed
| Interrupted (resized : option (option (N * N)))
| Polled (resized : option (option (N * N))) (socket : option read_result) (gone : bool) (keys : option read_result) (closed : bool).

Definition resize_if (resized : option (option (N * N))) : C unit :=
  match resized with Some size => _ ← attempt (send_resize size); mret tt | None => mret tt end.

(** The body of [io_loop]. *)
Definition round (r : Round) : C unit :=
  match r with
  | PollFailed => stop
  | Interrupted resized => resize_if resized
  | Polled resized socket gone keys closed =>
      _ ← resize_if resized;
      _ ← match socket with Some r => read_socket false r | None => mret tt end;
      _ ← match keys with Some r => read_keys r | None => mret tt end;
      if closed || gone then stop else mret tt
  end.

(** The body of [io_loop_readonly]. *)
Definition round_readonly (r : Round) : C unit :=
  match r with
  | PollFailed => stop
  | Interrupted _ => mret tt
  | Polled _ socket gone _ _ =>
      _ ← match socket with Some r => read_socket true r | None => mret tt end;
      if gone then stop else mret tt
  end.

(** The loop, until a turn ends it or as far as [rounds] go. *)
Definition io_loop (readonly : bool) (rounds : list Round) : C unit :=
  each (if readonly then round_readonly else round) rounds.

(** ** Attaching *)

Definition encode_attach_for_server (session_id server_minor : N) (context : AttachContext.ConnectionEnvironment) : bytes :=
  if ClientFrame.ATTACH_CONTEXT_PROTOCOL_MINOR <=? server_minor then AttachContext.encode_attach_with_context session_id context
  else AttachContext.encode_attach session_id.

Section attach.
(** What [symlink_metadata] tells: whether it is a socket, and whose. *)
Context (metadata : str -> option (bool * N)).

Definition valid_agent_socket (value : str) (uid : N) : bool :=
  if negb (Path.is_absolute value) then false
  else match metadata value with Some (is_socket, owner) => is_socket && (owner =? uid) | None => false end.

Definition accepted_variable (uid : N) (v : bytes * bytes) : option (str * str) :=
  name ← from_utf8 v.1;
  value ← from_utf8 v.2;
  if bool_decide (name = lit "SSH_AUTH_SOCK") && negb (valid_agent_socket value uid) then None
  else match AttachContext.from_pairs [(name, value)] with Some _ => Some (name, value) | None => None end.

Definition connection_environment_from_vars (variables : list (bytes * bytes)) (uid : N) : AttachContext.ConnectionEnvironment :=
  default (AttachContext.mkEnvironment ∅) (AttachContext.from_pairs (omap (accepted_variable uid) variables)).

Abbreviation A := (M Client persist_error).

Definition send (f : Frame) : A unit := fun c =>
  match write_frame f c with
  | Some (Ok u, c) => Some (Ok u, c)
  | Some (Err _, c) => Some (Err (IoError "write frame"), c)
  | None => None
  end.

(** A loop has no error of its own. *)
Definition run_loop (readonly : bool) (rounds : list Round) : A unit := fun c =>
  match io_loop readonly rounds c with Some (_, c) => Some (Ok tt, c) | None => None end.
Definition emit (bs : bytes) : A unit := fun c =>
  match emit_stdout bs c with Some (_, c) => Some (Ok tt, c) | None => None end.

(** [send_resize(stream).ok()] *)
Definition initial_size (size : option (N * N)) : A unit := fun c =>
  match send_resize size c with Some (_, c) => Some (Ok tt, c) | None => None end.

(** [incoming] is what the socket brings before the loop; [minor] is what
    connecting and the hello answer, [raw] and [nonblocking] whether the modes
    of the terminal and the socket can be set. *)
Definition new_session (incoming : list bytes) : A (N * list bytes) :=
  _ ← send (frame_of ClientFrame.NewSession []);
  '(resp, incoming) ← lift (ClientFrame.read_frame incoming);
  if negb (bool_decide (ClientFrame.msg_type resp = ClientFrame.NewSessionResp)) then lift (invalid_argument "expected NEW_SESSION_RESP")
  else
    '(id, _) ← lift (ok_or (ClientMessages.decode_new_session_resp (ClientFrame.payload resp)) (InvalidArgument "invalid NEW_SESSION_RESP"));
    mret (id, incoming).

Definition request_attach (session_id minor uid : N) (readonly : bool) (variables : list (bytes * bytes)) (incoming : list bytes) : A unit :=
  let context := connection_environment_from_vars variables uid in
  _ ← send (frame_of (if readonly then ClientFrame.AttachReadOnly else ClientFrame.Attach) (encode_attach_for_server session_id minor context));
  '(resp, _) ← lift (ClientFrame.read_frame incoming);
  if negb (bool_decide (ClientFrame.msg_type resp = ClientFrame.AttachResp)) then lift (invalid_argument "expected ATTACH_RESP")
  else
    '(ok, _) ← lift (ok_or (ClientMessages.decode_attach_resp (ClientFrame.payload resp)) (InvalidArgument "invalid ATTACH_RESP"));
    if negb ok then lift (invalid_argument "attach failed: {error_msg}") else mret tt.

Definition attach (minor : result persist_error N) (session_id : option N) (readonly : bool) (uid : N) (variables : list (bytes * bytes))
    (incoming : list bytes) (raw nonblocking : bool) (size : option (N * N)) (rounds : list Round) : A unit :=
  minor ← lift minor;
  '(id, incoming) ← match session_id with Some id => mret (id, incoming) | None => new_session incoming end;
  _ ← request_attach id minor uid readonly variables incoming;
  _ ← (if readonly then mret tt
       else if raw then initial_size size else lift (Err (IoError "tcgetattr")));
  _ ← (if nonblocking then run_loop readonly rounds else lift (Err (IoError "fcntl F_SETFL O_NONBLOCK")));
  detached ← attempt (send (frame_of ClientFrame.Detach (ClientMessages.encode_detach id)));
  if is_ok detached then emit (bracketed "[detached]")
  else fun c => Some (Ok tt, add_note (bracketed "[daemon disconnected - session preserved]") c).
End attach.

(** ** The terminal *)

(** What was written, shown or not. *)
Definition total (c : Client) : bytes := shown c ++ line_buffer c.

Definition others (c c' : Client) : Prop :=
  frames c' = frames c /\ sent c' = sent c /\ kernel c' = kernel c /\ got c' = got c /\ asked c' = asked c /\ heard c' = heard c.

Lemma others_trans c1 c2 c3 : others c1 c2 -> others c2 c3 -> others c1 c3.
Proof. intros (E1 & E2 & E3 & E4 & E5 & E6) (F1 & F2 & F3 & F4 & F5 & F6). split_and!; congruence. Qed.

(** [bs] is written, or a part of it before a failure. *)
Record wrote (bs : bytes) (c : Client) (r : result unit unit) (c' : Client) : Prop := {
  wrote_others : others c c';
  wrote_part : total c' `prefix_of` total c ++ bs;
  wrote_all : r = Ok tt -> total c' = total c ++ bs;
  wrote_grows : shown c `prefix_of` shown c';
  wrote_plain : screen c = [] -> r = Ok tt /\ screen c' = [] }.

Lemma wrote_nil c : wrote [] c (Ok tt) c.
Proof. split; [done| |by rewrite app_nil_r|done|done]. by rewrite app_nil_r. Qed.

(** One write after the other; the second only when the first was whole. *)
Lemma wrote_bind bs1 bs2 c (m : C unit) (k : unit -> C unit) Q : runs m c (fun r c' => wrote bs1 c r c' /\ Q c r c') ->
  (forall c', wrote bs1 c (Ok tt) c' -> Q c (Ok tt) c' -> runs (k tt) c' (wrote bs2 c')) ->
  runs (m ≫= k) c (wrote (bs1 ++ bs2) c).
Proof.
  intros Hm Hk. rewrite runs_bind. eapply runs_mono; [exact Hm|]. intros [[]|[]] c' [Hw HQ].
  - eapply runs_mono; [by apply Hk|]. intros r c'' Hw'. pose proof (wrote_all _ _ _ _ Hw eq_refl) as Ht. split.
    + eapply others_trans; [apply Hw|apply Hw'].
    + rewrite app_assoc, <- Ht. apply Hw'.
    + intros Hr. rewrite app_assoc, <- Ht. by apply Hw'.
    + etransitivity; [apply Hw|apply Hw'].
    + intros Hs. apply Hw'. by apply Hw.
  - split; [apply Hw| |done|apply Hw|intros Hs; by apply Hw in Hs as [? _]].
    etransitivity; [apply Hw|]. rewrite app_assoc. apply prefix_app_r. done.
Qed.

Lemma raw_write_wrote bs c : line_buffer c = [] -> runs (raw_write bs) c (fun r c' => wrote bs c r c' /\ line_buffer c' = []).
Proof.
  intros Hb. unfold raw_write. rewrite runs_bind, runs_get. unfold total. destruct (screen c) as [|[n|] rest] eqn:Es.
  - rewrite runs_modify. split; [|exact Hb]. split; unfold total; cbn; rewrite ?Hb, ?app_nil_r; try done. by apply prefix_app_r.
  - rewrite runs_bind, runs_modify, runs_fail. split; [|exact Hb]. split; unfold total; cbn; rewrite ?Hb, ?app_nil_r; try done.
    + apply prefix_app. exists (dropN n bs). by rewrite takeN_dropN.
    + by apply prefix_app_r.
    + congruence.
  - rewrite runs_modify. split; [|exact Hb]. split; unfold total; cbn; rewrite ?Hb, ?app_nil_r; try done; [by apply prefix_app_r|congruence].
Qed.

Lemma flush_buf_wrote c : runs flush_buf c (fun r c' => wrote [] c r c' /\ (r = Ok tt -> line_buffer c' = [])).
Proof.
  unfold flush_buf. rewrite runs_bind, runs_get. destruct (line_buffer c) as [|b bs] eqn:Eb.
  { rewrite runs_ret. split; [apply wrote_nil|done]. }
  set (buffer := b :: bs) in *. rewrite runs_bind, runs_attempt. unfold raw_write. rewrite runs_bind, runs_get.
  assert (Hlen : forall l : bytes, lenN (shown c ++ l) - lenN (shown c) = lenN l) by (intros l; rewrite lenN_app; lia).
  destruct (screen c) as [|[n|] rest] eqn:Es.
  - rewrite runs_modify, runs_bind, runs_get, runs_bind, runs_modify, runs_lift. cbn [shown set_screen screen].
    rewrite Hlen, dropN_ge by lia. split; [|done].
    split; unfold total; cbn; rewrite ?Eb, ?app_nil_r; try done. by apply prefix_app_r.
  - rewrite runs_bind, runs_modify, runs_fail, runs_bind, runs_get, runs_bind, runs_modify, runs_lift. cbn [shown set_screen screen].
    rewrite Hlen. split; [|done].
    assert (Ht : (shown c ++ takeN n buffer) ++ dropN (lenN (takeN n buffer)) buffer = shown c ++ buffer).
    { rewrite <- app_assoc. f_equal. rewrite lenN_takeN. destruct (N.le_gt_cases n (lenN buffer)).
      - rewrite N.min_l by done. by rewrite takeN_dropN.
      - rewrite N.min_r, dropN_ge, app_nil_r by lia. apply takeN_ge. lia. }
    split; unfold total; cbn -[buffer]; rewrite ?Eb, ?app_nil_r; try done; [by rewrite Ht|by apply prefix_app_r|congruence].
  - rewrite runs_modify, runs_bind, runs_get, runs_bind, runs_modify, runs_lift. cbn [shown set_screen screen].
    rewrite Hlen, dropN_ge by lia. split; [|done].
    split; unfold total; cbn; rewrite ?Eb, ?app_nil_r; try done; [by apply prefix_app_r|congruence].
Qed.

(** Where bytes without a newline go. *)
Definition kept_back (bs : bytes) (c : Client) (r : result unit unit) (c' : Client) : Prop :=
  lenN (line_buffer c) + lenN bs < LINE_CAPACITY -> r = Ok tt /\ shown c' = shown c.

Lemma buffer_write_wrote bs c : runs (buffer_write bs) c (fun r c' => wrote bs c r c' /\
  (r = Ok tt -> line_buffer c' = line_buffer c ++ bs \/ line_buffer c' = bs \/ line_buffer c' = []) /\ kept_back bs c r c').
Proof.
  unfold buffer_write. rewrite runs_bind, runs_get.
  set (post := fun r c' => _ /\ _ /\ _).
  set (rest := if LINE_CAPACITY <=? lenN bs then _ else _).
  assert (Hrest : forall c0, wrote [] c (Ok tt) c0 -> line_buffer c0 = line_buffer c \/ line_buffer c0 = [] ->
    (LINE_CAPACITY <= lenN bs -> line_buffer c0 = []) ->
    (lenN (line_buffer c) + lenN bs < LINE_CAPACITY -> c0 = c) -> runs rest c0 post).
  { intros c0 Hw Hb Hbig Hsmall. pose proof (wrote_all _ _ _ _ Hw eq_refl) as Ht. rewrite app_nil_r in Ht.
    assert (Hext : forall r c', wrote bs c0 r c' -> wrote bs c r c').
    { intros r c' Hw'. split; [eapply others_trans; [apply Hw|apply Hw']|rewrite <- Ht; apply Hw'|intros Hr; rewrite <- Ht; by apply Hw'| |].
      - etransitivity; [apply Hw|apply Hw'].
      - intros Hs. apply Hw'. by apply Hw. }
    unfold rest. destruct (N.leb_spec LINE_CAPACITY (lenN bs)) as [Hl|Hl].
    - eapply runs_mono; [apply raw_write_wrote; auto|]. intros r c' [Hw' Hb']. split_and!; [by apply Hext|by auto|].
      unfold kept_back. lia.
    - rewrite runs_modify. split_and!; [apply Hext| |].
      + split; unfold total; cbn; [done|by rewrite app_assoc|by rewrite app_assoc|done|done].
      + intros _. cbn. destruct Hb as [-> | ->]; auto.
      + intros Hk. rewrite (Hsmall Hk). done. }
  rewrite runs_bind. destruct (N.ltb_spec (LINE_CAPACITY - lenN (line_buffer c)) (lenN bs)) as [Hl|Hl].
  - eapply runs_mono; [apply flush_buf_wrote|]. intros [[]|[]] c0 [Hw Hb].
    + apply Hrest; [done|right; by apply Hb|intros _; by apply Hb|lia].
    + split_and!; [|done|unfold kept_back; lia].
      split; [apply Hw| |done|apply Hw|intros Hs; by apply Hw in Hs as [? _]].
      etransitivity; [apply Hw|]. rewrite app_nil_r. by apply prefix_app_r.
  - rewrite runs_ret. apply Hrest; [apply wrote_nil|by left| |done].
    intros Hbig. apply lenN_0_inv. unfold LINE_CAPACITY in *. lia.
Qed.

Definition plain (bs : bytes) : Prop := Forall (fun b => is_newline b = false) bs.

Lemma split_lines_spec bs : let '(lines, tail) := split_lines bs in bs = lines ++ tail /\ plain tail /\ (plain bs -> lines = []).
Proof.
  induction bs as [|b bs IH]; [by split_and!; [|constructor|]|]. cbn [split_lines]. destruct (split_lines bs) as [lines tail]. destruct IH as (-> & Ht & Hp).
  destruct lines as [|l lines].
  - destruct (is_newline b) eqn:Eb.
    + split_and!; [done|done|]. intros H. apply Forall_cons in H as [H _]. congruence.
    + split_and!; [done|by constructor|done].
  - split_and!; [done|done|]. intros H. apply Forall_cons in H as [_ H]. by apply Hp in H.
Qed.

Lemma last_plain l b : plain l -> last l = Some b -> is_newline b = false.
Proof. intros Hp Hl. apply last_Some_elem_of in Hl. unfold plain in Hp. rewrite Forall_forall in Hp. by apply Hp. Qed.

Lemma stdout_wrote bs c : plain (line_buffer c) -> runs (stdout_write_all bs) c (fun r c' => wrote bs c r c' /\
  (r = Ok tt -> plain (line_buffer c')) /\ (plain bs -> kept_back bs c r c')).
Proof.
  intros Hp. unfold stdout_write_all. rewrite runs_bind, runs_get. pose proof (split_lines_spec bs) as Hs.
  destruct (split_lines bs) as [lines tail]. destruct Hs as (-> & Ht & Hl). destruct lines as [|l lines].
  - rewrite runs_bind. assert (Hskip : forall Q : result unit unit -> Client -> Prop, Q (Ok tt) c ->
      runs (match last (line_buffer c) with Some b => if is_newline b then flush_buf else mret tt | None => mret tt end) c Q).
    { intros Q HQ. destruct (last (line_buffer c)) as [b|] eqn:El; [|done]. by rewrite (last_plain _ _ Hp El). }
    apply Hskip. eapply runs_mono; [apply buffer_write_wrote|]. intros r c' (Hw & Hb & Hk). split_and!; [done| |done].
    intros Hr. destruct (Hb Hr) as [-> | [-> | ->]]; [by apply Forall_app_2|done|constructor].
  - set (head := l :: lines) in *. set (m := match line_buffer c with [] => _ | _ => _ end).
    assert (Hm : runs m c (fun r c' => wrote head c r c' /\ (r = Ok tt -> line_buffer c' = []))).
    { unfold m. destruct (line_buffer c) eqn:Eb; [eapply runs_mono; [by apply raw_write_wrote|]; by intros r c' [Hw ->]|].
      apply runs_and.
      - eapply runs_mono; [eapply (wrote_bind head [] c _ _ (fun _ _ _ => True))|intros r c' Hw; by rewrite app_nil_r in Hw].
        + eapply runs_mono; [apply buffer_write_wrote|]. by intros r c' (Hw & _).
        + intros c' _ _. eapply runs_mono; [apply flush_buf_wrote|]. by intros r c'' [Hw _].
      - rewrite runs_bind. eapply runs_mono; [apply buffer_write_wrote|]. intros [[]|[]] c' _; [|done].
        eapply runs_mono; [apply flush_buf_wrote|]. by intros r c'' [_ Hb]. }
    apply (runs_mono _ _ (fun r c' => wrote (head ++ tail) c r c' /\ (r = Ok tt -> plain (line_buffer c')))).
    2: { intros r c' [Hw Hb]. split_and!; [done|done|]. intros Hpl. by apply Hl in Hpl. }
    apply runs_and.
    + apply (wrote_bind head tail c m _ (fun _ r c' => r = Ok tt -> line_buffer c' = [])); [exact Hm|]. intros c' _ _.
      eapply runs_mono; [apply buffer_write_wrote|]. by intros r c'' (Hw & _).
    + rewrite runs_bind. eapply runs_mono; [exact Hm|]. intros [[]|[]] c' [_ Hb]; [|done].
      eapply runs_mono; [apply buffer_write_wrote|]. intros r c'' (_ & Hb' & _) Hr. rewrite (Hb eq_refl) in Hb'.
      destruct (Hb' Hr) as [-> | [-> | ->]]; [done|done|constructor].
Qed.

(** ** What a run of the loop keeps *)

Definition out_of (f : Frame) : bytes := if bool_decide (ClientFrame.msg_type f = ClientFrame.Stdout) then ClientFrame.payload f else [].
(** The output that the daemon sent. *)
Definition printed (c : Client) : bytes := concat (map out_of (heard c)).

Definition encoding (fs : list Frame) : bytes := concat (map ClientFrame.write_frame fs).

Section kept.
(** What was heard are the frames of the bytes that were read. *)
Definition in_step (c : Client) : Prop := forall fs future, Forall ClientFrame.frame_ok fs -> got c ++ future = encoding fs ->
  exists fs2, fs = heard c ++ fs2 /\ ClientFrame.buf (frames c) ++ future = encoding fs2.

(** What the socket took of a frame. *)
Definition part (x : Frame * bool) (p : bytes) : Prop :=
  if x.2 then p = ClientFrame.write_frame x.1 else p `prefix_of` ClientFrame.write_frame x.1.

(** Whether the terminal never fails. *)
Context (faultless : Prop).

Record traced (c : Client) : Prop := {
  t_frames : in_step c;
  t_sent : exists parts, sent c = concat parts /\ Forall2 part (asked c) parts;
  t_asked : Forall (fun x => ClientFrame.frame_ok x.1) (asked c);
  t_screen : total c `prefix_of` printed c;
  t_withheld : faultless -> screen c = [] /\ (plain (printed c) -> lenN (printed c) < LINE_CAPACITY -> shown c = []) }.

Record going (c : Client) : Prop := {
  g_traced : traced c;
  g_screen : total c = printed c;
  g_plain : plain (line_buffer c) }.

(** No complete frame is left in the buffer. *)
Definition drained (c : Client) : Prop := forall f acc, ClientFrame.try_read (frames c) <> Ok (Some f, acc).

Lemma write_all_spec answers : forall bs, let '(ok, took, _) := write_all answers bs in took `prefix_of` bs /\ (ok = true -> took = bs).
Proof.
  induction answers as [|a answers IH]; intros bs; destruct bs as [|b bs]; cbn [write_all]; [done..| |].
  { by destruct a. }
  set (all := b :: bs) in *. destruct a as [n| |]; [|by split; [apply prefix_nil|]..]. cbv zeta.
  destruct (N.min n (lenN all) =? 0); [by split; [apply prefix_nil|]|].
  specialize (IH (dropN (N.min n (lenN all)) all)). destruct (write_all answers _) as [[ok took] rest]. destruct IH as [Hp Ht].
  split; [etransitivity; [by apply prefix_app|by rewrite takeN_dropN]|]. intros Hok. by rewrite (Ht Hok), takeN_dropN.
Qed.

Lemma write_frame_runs f c : runs (write_frame f) c (fun r c' => exists ok p, c' = add_asked (f, ok) (set_socket p (kernel c') c) /\
  part (f, ok) p /\ (r = Ok tt -> ok = true)).
Proof.
  unfold write_frame. rewrite runs_bind, runs_get. cbv zeta. set (bs := ClientFrame.write_frame f).
  pose proof (write_all_spec (kernel c) (takeN ClientFrame.HEADER_SIZE bs)) as H1.
  destruct (write_all (kernel c) _) as [[ok head] rest]. destruct H1 as [Hp Ht].
  assert (H2 : exists ok' tail rest', (if ok then write_all rest (dropN ClientFrame.HEADER_SIZE bs) else (false, [], rest)) = (ok', tail, rest') /\
    part (f, ok') (head ++ tail)).
  { unfold part. cbn [fst snd]. fold bs. set (h := takeN ClientFrame.HEADER_SIZE bs) in *. set (t := dropN ClientFrame.HEADER_SIZE bs) in *.
    assert (Hs : bs = h ++ t) by (symmetry; apply takeN_dropN). rewrite Hs. destruct ok.
    - pose proof (write_all_spec rest t) as H2.
      destruct (write_all rest _) as [[ok' tail] rest']. destruct H2 as [Hp' Ht']. exists ok', tail, rest'. split; [done|].
      rewrite (Ht eq_refl). destruct ok'; [by rewrite (Ht' eq_refl)|by apply prefix_app].
    - exists false, [], rest. split; [done|]. rewrite app_nil_r. by apply prefix_app_r. }
  destruct H2 as (ok' & tail & rest' & -> & H2). rewrite runs_bind, runs_modify. destruct ok'.
  - rewrite runs_ret. exists true, (head ++ tail). done.
  - rewrite runs_fail. exists false, (head ++ tail). done.
Qed.

(** A frame more for the socket. *)
Lemma going_asked c f ok p answers : going c -> ClientFrame.frame_ok f -> part (f, ok) p ->
  going (add_asked (f, ok) (set_socket p answers c)).
Proof.
  intros [[T1 (parts & T2 & T2') T3 T4 T5] G1 G2] Hf Hp. split; [|done|done]. split; [done| | |done|done].
  - exists (parts ++ [p]). cbn. rewrite T2, concat_app. cbn. rewrite app_nil_r. split; [done|]. apply Forall2_app; [done|by constructor].
  - apply Forall_app_2; [done|by constructor].
Qed.

(** What one step adds to the frames written. *)
Definition wrote_frames (c c' : Client) (fs : list Frame) : Prop := map fst (asked c') = map fst (asked c) ++ fs.

Lemma ask_going f c : going c -> ClientFrame.frame_ok f ->
  runs (write_frame f) c (fun _ c' => going c' /\ frames c' = frames c /\ wrote_frames c c' [f]).
Proof.
  intros Hg Hf. eapply runs_mono; [apply write_frame_runs|]. intros r c' (ok & p & -> & Hp & _).
  split_and!; [by apply going_asked|done|]. unfold wrote_frames. cbn. by rewrite map_app.
Qed.

Lemma frame_of_ok kind payload : lenN payload <= ClientFrame.limit kind -> ClientFrame.frame_ok (frame_of kind payload).
Proof. by intros. Qed.

Lemma resize_going resized c : going c -> runs (resize_if resized) c (fun r c' => r = Ok tt /\ going c' /\ frames c' = frames c /\
  exists fs, wrote_frames c c' fs /\ Forall (fun f => ClientFrame.msg_type f = ClientFrame.Resize) fs).
Proof.
  intros Hg. assert (Hnone : going c /\ frames c = frames c /\ exists fs, wrote_frames c c fs /\
    Forall (fun f => ClientFrame.msg_type f = ClientFrame.Resize) fs).
  { split_and!; [done|done|]. exists []. unfold wrote_frames. by rewrite app_nil_r. }
  unfold resize_if, send_resize, terminal_resize_payload. destruct resized as [[[rows cols]|]|]; [|by split..].
  destruct (_ && _); [|by split]. rewrite runs_bind, runs_attempt.
  eapply runs_mono; [apply ask_going; [done|by apply frame_of_ok]|]. intros r c' (Hg' & Hf & Hw). rewrite runs_ret.
  split_and!; [done..|]. eexists. split; [exact Hw|by constructor].
Qed.

(** The frame that is next, and what it prints. *)
Lemma hear_step c f acc : going c -> ClientFrame.try_read (frames c) = Ok (Some f, acc) ->
  let c' := add_heard f (set_frames acc c) in in_step c' /\ printed c' = total c ++ out_of f.
Proof.
  intros [T G _] Ht. split.
  - intros fs future Hok Hgot. destruct (t_frames _ T fs future Hok Hgot) as (fs2 & -> & Hb).
    apply Forall_app in Hok as [_ Hok]. destruct (ClientFrame.try_read_stream _ _ _ _ _ Hok Hb Ht) as (fs3 & -> & Hb').
    exists fs3. cbn. by rewrite <- app_assoc.
  - rewrite G. unfold printed. cbn. rewrite map_app, concat_app. cbn. by rewrite app_nil_r.
Qed.

Lemma silent_going c f acc : going c -> ClientFrame.try_read (frames c) = Ok (Some f, acc) -> out_of f = [] ->
  going (add_heard f (set_frames acc c)).
Proof.
  intros Hg Ht Ho. destruct (hear_step c f acc Hg Ht) as [Hs Hp]. destruct Hg as [[T1 T2 T3 T4 T5] G1 G2].
  rewrite Ho, app_nil_r, G1 in Hp. split; [split; rewrite ?Hp|rewrite Hp; exact G1|exact G2].
  - exact Hs.
  - exact T2.
  - exact T3.
  - exact T4.
  - exact T5.
Qed.

Lemma emit_going c f acc : going c -> ClientFrame.try_read (frames c) = Ok (Some f, acc) -> ClientFrame.msg_type f = ClientFrame.Stdout ->
  runs (emit_stdout (ClientFrame.payload f)) (add_heard f (set_frames acc c)) (fun r c' => exists ok, r = Ok ok /\
    traced c' /\ (ok = true -> going c') /\ frames c' = acc /\ asked c' = asked c).
Proof.
  intros Hg Ht Hk. destruct (hear_step c f acc Hg Ht) as [Hs Hp]. destruct Hg as [[T1 T2 T3 T4 T5] G1 G2].
  unfold out_of in Hp. rewrite bool_decide_true in Hp by done. set (c1 := add_heard f (set_frames acc c)) in *.
  unfold emit_stdout. rewrite runs_bind, runs_attempt. eapply runs_mono; [by apply (stdout_wrote _ c1)|].
  intros r c' ([(E1 & E2 & E3 & E4 & E5 & E6) Hpart Hall Hgrows Hscreen] & Hplain & Hkept). rewrite runs_ret.
  assert (Hp' : printed c' = total c ++ ClientFrame.payload f) by (unfold printed; by rewrite E6).
  assert (HT : traced c').
  { split.
    - unfold in_step in *. by rewrite E4, E6, E1.
    - by rewrite E2, E5.
    - by rewrite E5.
    - by rewrite Hp'.
    - intros Hless. destruct (T5 Hless) as [Hs0 Hw]. destruct (Hscreen Hs0) as [-> Hs']. split; [done|].
      rewrite Hp', G1. intros Hpl Hl. apply Forall_app in Hpl as [Hpl1 Hpl2]. rewrite lenN_app in Hl.
      specialize (Hw Hpl1 ltac:(lia)). destruct (Hkept Hpl2) as [_ ->]; [|exact Hw].
      cbn. rewrite <- G1 in Hl. unfold total in Hl. rewrite Hw in Hl. exact Hl. }
  exists (is_ok r). split_and!; [done|done| |by rewrite E1|by rewrite E5].
  intros Hr. destruct r as [[]|]; [|done]. split; [done|rewrite Hp'; by apply Hall|by apply Hplain].
Qed.

Lemma going_note bs c : going c -> going (add_note bs c).
Proof. intros [[T1 T2 T3 T4 T5] G1 G2]. by split; [split|..]. Qed.

Lemma try_read_shrinks acc f acc' : ClientFrame.try_read acc = Ok (Some f, acc') ->
  (length (ClientFrame.buf acc') < length (ClientFrame.buf acc))%nat.
Proof.
  unfold ClientFrame.try_read. destruct (lenN _ <? ClientFrame.HEADER_SIZE) eqn:E1; [done|]. cbv zeta.
  destruct (lenN _ <? ClientFrame.HEADER_SIZE + _); [done|]. intros H. apply bind_Ok_inv in H as (t & _ & H). destruct (ClientFrame.limit t <? _); [done|]. injection H as _ <-. cbn [ClientFrame.buf].
  apply N.ltb_ge in E1. unfold dropN, lenN, ClientFrame.HEADER_SIZE in *. rewrite length_drop. lia.
Qed.

(** A frame of the daemon. *)
Lemma daemon_frame_going readonly c f acc : going c -> ClientFrame.try_read (frames c) = Ok (Some f, acc) ->
  runs (daemon_frame readonly f) (set_frames acc c) (fun r c' => traced c' /\ (r = Ok tt -> going c') /\ frames c' = acc /\ asked c' = asked c).
Proof.
  intros Hg Ht. unfold daemon_frame. rewrite runs_bind, runs_modify.
  assert (Hsilent : ClientFrame.msg_type f <> ClientFrame.Stdout -> going (add_heard f (set_frames acc c))).
  { intros Hk. apply silent_going; [done..|]. unfold out_of. by rewrite bool_decide_false. }
  destruct (ClientFrame.msg_type f) eqn:Hk; try (specialize (Hsilent ltac:(done)); pose proof (fun bs => going_note bs _ Hsilent) as Hnote).
  all: try solve [unfold emit_stderr; try destruct readonly; rewrite ?runs_bind, ?runs_modify; split_and!; done || apply Hsilent || apply Hnote].
  - rewrite runs_bind. eapply runs_mono; [by apply (emit_going c)|]. intros r c' (ok & -> & HT & HG & Hf & Ha).
    destruct ok; split_and!; try done. intros _. by apply HG.
Qed.

Lemma daemon_frames_going readonly fuel : forall c, going c -> (length (ClientFrame.buf (frames c)) < fuel)%nat ->
  runs (daemon_frames fuel readonly) c (fun r c' => traced c' /\ (r = Ok tt -> going c' /\ drained c') /\ asked c' = asked c).
Proof.
  induction fuel as [|fuel IH]; intros c Hg Hf; [lia|]. cbn [daemon_frames]. rewrite runs_bind, runs_get.
  destruct (ClientFrame.try_read (frames c)) as [[[f|] acc]|e] eqn:Et.
  - rewrite runs_bind, runs_modify, runs_bind. eapply runs_mono; [by apply daemon_frame_going|].
    intros [[]|[]] c' (HT & HG & Hfr & Ha); [|done]. specialize (HG eq_refl).
    eapply runs_mono; [apply IH; [done|]|].
    + rewrite Hfr. pose proof (try_read_shrinks _ _ _ Et). lia.
    + intros r c'' (HT' & HG' & Ha'). by rewrite Ha', Ha.
  - rewrite runs_ret. split_and!; [apply Hg| |done]. intros _. split; [done|]. intros f acc'. by rewrite Et.
  - rewrite runs_fail. split_and!; [apply Hg|done|done].
Qed.

(** What the keyboard gives in a turn, and what the frames carry of it. *)
Definition key_bytes (r : Round) : bytes := match r with Polled _ _ _ (Some (Chunk bs)) _ => bs | _ => [] end.
Definition pressed (readonly : bool) (rounds : list Round) : bytes := if readonly then [] else concat (map key_bytes rounds).
Definition in_of (f : Frame) : bytes := if bool_decide (ClientFrame.msg_type f = ClientFrame.Stdin) then ClientFrame.payload f else [].
Definition keys (fs : list Frame) : bytes := concat (map in_of fs).

(** [read] of the keyboard gives at most 4096 bytes. *)
Definition short_keys (r : Round) : Prop := lenN (key_bytes r) <= 4096.

Lemma keys_app fs gs : keys (fs ++ gs) = keys fs ++ keys gs.
Proof. unfold keys. by rewrite map_app, concat_app. Qed.
Lemma no_keys fs : Forall (fun f => ClientFrame.msg_type f = ClientFrame.Resize) fs -> keys fs = [].
Proof. induction 1 as [|f fs Hf _ IH]; [done|]. unfold keys in *. cbn. rewrite IH. unfold in_of. by rewrite Hf. Qed.

Definition kept (c : Client) (bs : bytes) (r : result unit unit) (c' : Client) : Prop :=
  traced c' /\ (r = Ok tt -> going c' /\ drained c') /\
  exists fs, wrote_frames c c' fs /\ (keys fs = [] \/ keys fs = bs) /\ (r = Ok tt -> keys fs = bs).

Lemma kept_none c : going c -> drained c -> kept c [] (Ok tt) c.
Proof. intros Hg Hd. split_and!; [apply Hg|done|]. exists []. unfold wrote_frames. rewrite app_nil_r. auto. Qed.
Lemma kept_stop c bs : traced c -> kept c bs (Err tt) c.
Proof. intros Ht. split_and!; [done|done|]. exists []. unfold wrote_frames. rewrite app_nil_r. split_and!; [done|by left|done]. Qed.

(** A step without keys before another one. *)
Lemma kept_first c bs r c1 c2 : kept c [] (Ok tt) c1 -> kept c1 bs r c2 -> kept c bs r c2.
Proof.
  intros (_ & _ & fs & Hw & _ & Hk) (HT & HG & gs & Hw' & Hk' & Hr). split_and!; [done..|]. exists (fs ++ gs).
  unfold wrote_frames in *. rewrite Hw', Hw, <- app_assoc, keys_app, (Hk eq_refl). auto.
Qed.
(** A step without keys after another one. *)
Lemma kept_last c bs r c1 c2 : kept c bs (Ok tt) c1 -> kept c1 [] r c2 -> kept c bs r c2.
Proof.
  intros (_ & _ & fs & Hw & _ & Hk) (HT & HG & gs & Hw' & Hk' & Hr). split_and!; [done..|]. exists (fs ++ gs).
  unfold wrote_frames in *. rewrite Hw', Hw, <- app_assoc, keys_app, (Hk eq_refl).
  assert (keys gs = []) as -> by (by destruct Hk'). rewrite app_nil_r. auto.
Qed.

Lemma kept_resize resized c : going c -> drained c -> runs (resize_if resized) c (fun r c' => r = Ok tt /\ kept c [] (Ok tt) c').
Proof.
  intros Hg Hd. eapply runs_mono; [by apply resize_going|]. intros r c' (-> & Hg' & Hf & fs & Hw & Hk). split; [done|].
  split_and!; [apply Hg'|split; [done|]; unfold drained in *; by rewrite Hf|]. exists fs. rewrite (no_keys _ Hk). auto.
Qed.

Lemma kept_socket readonly o c : going c -> drained c ->
  runs (match o with Some r => read_socket readonly r | None => mret tt end) c (kept c []).
Proof.
  intros Hg Hd. destruct o as [[bs| | |]|]; cbn [read_socket];
    [|rewrite runs_fail; by apply kept_stop, Hg|by apply kept_none|rewrite runs_fail; by apply kept_stop, Hg|by apply kept_none].
  rewrite runs_bind, runs_modify, runs_bind, runs_get.
  set (c1 := add_got bs _). assert (H1 : going c1).
  { destruct Hg as [[T1 T2 T3 T4 T5] G1 G2]. split; [split|..]; try done. intros fs future Hok Hgot. cbn in Hgot. rewrite <- app_assoc in Hgot.
    destruct (T1 fs _ Hok Hgot) as (fs2 & -> & Hb). exists fs2. cbn. by rewrite <- app_assoc. }
  eapply runs_mono; [by apply daemon_frames_going; [|lia]|]. intros r c' (HT & HG & Ha). split_and!; [done..|].
  exists []. unfold wrote_frames. rewrite Ha, app_nil_r. auto.
Qed.

Lemma kept_keys o c : going c -> drained c -> lenN (match o with Some (Chunk bs) => bs | _ => [] end) <= 4096 ->
  runs (match o with Some r => read_keys r | None => mret tt end) c (kept c (match o with Some (Chunk bs) => bs | _ => [] end)).
Proof.
  intros Hg Hd Hl. destruct o as [[bs| | |]|]; cbn [read_keys];
    [|rewrite runs_fail; by apply kept_stop, Hg|by apply kept_none|rewrite runs_fail; by apply kept_stop, Hg|by apply kept_none].
  eapply runs_mono; [apply ask_going; [done|apply frame_of_ok]|].
  { change (ClientFrame.limit ClientFrame.Stdin) with 65536. lia. }
  intros r c' (Hg' & Hf & Hw). split_and!; [apply Hg'|split; [done|]; unfold drained in *; by rewrite Hf|].
  eexists. split; [exact Hw|]. unfold keys, in_of. cbn. rewrite app_nil_r. auto.
Qed.

Lemma round_kept (readonly : bool) r c : going c -> drained c -> short_keys r ->
  runs ((if readonly then round_readonly else round) r) c (kept c (if readonly then [] else key_bytes r)).
Proof.
  intros Hg Hd Hl. destruct r as [|resized|resized socket gone ks closed].
  - destruct readonly; apply kept_stop, Hg.
  - destruct readonly; cbn [round round_readonly]; [by apply kept_none|].
    eapply runs_mono; [by apply kept_resize|]. by intros r c' [-> Hk].
  - destruct readonly; cbn [round round_readonly key_bytes].
    + rewrite runs_bind. eapply runs_mono; [by apply kept_socket|]. intros [[]|[]] c' Hk; [|done]. pose proof Hk as (_ & HG & _).
      destruct (HG eq_refl) as [Hg' _]. destruct gone; [|by rewrite runs_ret].
      rewrite runs_fail. eapply kept_first; [exact Hk|by apply kept_stop, Hg'].
    + rewrite runs_bind. eapply runs_mono; [by apply kept_resize|]. intros r c1 [-> Hk1]. pose proof Hk1 as (_ & HG & _).
      destruct (HG eq_refl) as [Hg1 Hd1]. rewrite runs_bind. eapply runs_mono; [by apply (kept_socket false socket c1)|].
      intros [[]|[]] c2 Hk2; [|]. 
      2: { eapply kept_first; [exact Hk1|]. destruct Hk2 as (HT & _ & fs & Hw & Hks & _). split_and!; [done..|]. exists fs.
           split_and!; [done| |done]. left. by destruct Hks. }
      pose proof (kept_first _ _ _ _ _ Hk1 Hk2) as Hk. clear Hk1 Hk2 HG Hg1 Hd1 c1. pose proof Hk as (_ & HG & _).
      destruct (HG eq_refl) as [Hg2 Hd2]. rewrite runs_bind. eapply runs_mono; [by apply (kept_keys ks c2)|].
      intros [[]|[]] c3 Hk3; [|by eapply kept_first]. pose proof (kept_first _ _ _ _ _ Hk Hk3) as Hk'. pose proof Hk' as (_ & HG' & _).
      destruct (HG' eq_refl) as [Hg3 Hd3].
      destruct (closed || gone); [rewrite runs_fail|rewrite runs_ret]; [|done]. eapply kept_last; [exact Hk'|]. by apply kept_stop, Hg3.
Qed.

Lemma io_loop_kept readonly rounds : Forall short_keys rounds -> forall c, going c -> drained c ->
  runs (io_loop readonly rounds) c (fun r c' => traced c' /\ (r = Ok tt -> going c' /\ drained c') /\
    exists n fs, wrote_frames c c' fs /\ keys fs = pressed readonly (take n rounds) /\ (r = Ok tt -> take n rounds = rounds)).
Proof.
  unfold io_loop, pressed. induction 1 as [|r rounds Hr Hrs IH]; intros c Hg Hd; cbn [each].
  { split_and!; [apply Hg|done|]. exists 0%nat, []. unfold wrote_frames. rewrite app_nil_r. by destruct readonly. }
  rewrite runs_bind. eapply runs_mono; [by apply round_kept|]. intros [[]|[]] c' (HT & HG & fs & Hw & Hk & Hok).
  - destruct (HG eq_refl) as [Hg' Hd']. eapply runs_mono; [by apply IH|].
    intros r' c'' (HT' & HG' & n & gs & Hw' & Hk' & Hn). split_and!; [done..|]. exists (S n), (fs ++ gs).
    unfold wrote_frames in *. rewrite Hw', Hw, <- app_assoc, keys_app, (Hok eq_refl), Hk'. cbn [take map concat].
    split_and!; [done|by destruct readonly|]. intros E. by rewrite (Hn E).
  - split_and!; [done..|]. destruct Hk as [Hk|Hk]; [exists 0%nat, fs|exists 1%nat, fs]; rewrite Hk; split_and!; try done.
    + by destruct readonly.
    + destruct readonly; [done|]. cbn. by rewrite app_nil_r.
Qed.
End kept.

(** ** The client, the proxy and the session *)

Definition start (kernel : list write_result) (screen : list (option N)) : Client :=
  mkClient ClientFrame.new [] [] [] [] kernel screen [] [] [].

Lemma start_going faultless kernel screen : (faultless -> screen = []) -> going faultless (start kernel screen).
Proof.
  intros Hf. split; [split|done|constructor].
  - intros fs future _ Hgot. by exists fs.
  - by exists [].
  - constructor.
  - done.
  - intros Hless. by split; [apply Hf|].
Qed.

Lemma io_loop_start faultless (readonly : bool) rounds kernel screen : (faultless -> screen = []) -> Forall short_keys rounds ->
  runs (io_loop readonly rounds) (start kernel screen) (fun r c' => traced faultless c' /\ (r = Ok tt -> going faultless c' /\ drained c') /\
    keys (map fst (asked c')) `prefix_of` pressed readonly rounds).
Proof.
  intros Hf Hk. eapply runs_mono; [apply (io_loop_kept faultless); [done|by apply start_going|done]|].
  intros r c' (HT & HG & n & fs & Hw & Hfs & _). split_and!; [done..|]. unfold wrote_frames in Hw. cbn in Hw. rewrite Hw, Hfs.
  unfold pressed. destruct readonly; [done|]. rewrite <- (take_drop n rounds) at 2. rewrite map_app, concat_app. by apply prefix_app_r.
Qed.

Lemma printed_prefix l fs : l `prefix_of` fs -> concat (map out_of l) `prefix_of` concat (map out_of fs).
Proof. intros [k ->]. rewrite map_app, concat_app. by apply prefix_app_r. Qed.

(** A client and the bytes of a stream. *)
Lemma traced_stream faultless c fs : traced faultless c -> Forall ClientFrame.frame_ok fs -> got c `prefix_of` encoding fs ->
  total c `prefix_of` concat (map out_of fs).
Proof.
  intros HT Hok [future Hgot]. destruct (t_frames _ _ HT fs future Hok (eq_sym Hgot)) as (fs2 & -> & _).
  etransitivity; [apply HT|]. unfold printed. apply printed_prefix. by apply prefix_app_r.
Qed.

Lemma drained_stream faultless c fs : going faultless c -> drained c -> Forall ClientFrame.frame_ok fs -> got c = encoding fs ->
  total c = concat (map out_of fs).
Proof.
  intros Hg Hd Hok Hgot. destruct (t_frames _ _ (g_traced _ _ Hg) fs [] Hok) as (fs2 & Hfs & Hb); [by rewrite app_nil_r|].
  rewrite (g_screen _ _ Hg). unfold printed. do 2 f_equal. rewrite Hfs. destruct fs2 as [|f fs2]; [by rewrite app_nil_r|]. exfalso.
  rewrite Hfs in Hok. apply Forall_app in Hok as [_ Hok]. apply Forall_cons in Hok as [Hf _]. rewrite app_nil_r in Hb.
  apply (Hd f (ClientFrame.mkAccumulator (encoding fs2))). destruct (frames c) as [b]. cbn in Hb. subst b.
  by apply ClientFrame.client_try_read_frame.
Qed.

Section session.
Context `{SnapshotJson} (session_id holder_minor : N) (h0 : bytes) (read_write armed : bool).
Abbreviation to_client := (PublicAttach.to_client session_id holder_minor).

Definition output_of (f : HolderFrame.HolderFrame) : bytes :=
  if bool_decide (HolderFrame.message_type f = HolderFrame.Output) then HolderFrame.payload f else [].
(** What the session has to show: the saved output, as far as it was taken, and
    the output that the holder sent. *)
Definition to_show (s : PublicAttach.Proxy) : bytes :=
  takeN (PublicAttach.h_offset (PublicAttach.history s)) h0 ++ concat (map output_of (PublicAttach.heard s)).

Definition as_frame (x : MessageType * bytes) : Frame := frame_of x.1 x.2.
Definition outs (fs : list (MessageType * bytes)) : bytes := concat (map out_of (map as_frame fs)).

Lemma outs_cons x fs : outs (x :: fs) = out_of (as_frame x) ++ outs fs.
Proof. done. Qed.
Lemma outs_app fs gs : outs (fs ++ gs) = outs fs ++ outs gs.
Proof. unfold outs. by rewrite !map_app, concat_app. Qed.

Lemma outs_unreplied fs : outs (PublicAttach.unreplied fs) = outs fs.
Proof.
  induction fs as [|[kind payload] fs IH]; [done|]. unfold PublicAttach.unreplied in *. rewrite filter_cons. cbn [fst].
  destruct (decide _) as [E|E]; rewrite !outs_cons, IH; [done|]. by destruct kind.
Qed.

Lemma outs_history fs : Forall (fun x => x.1 = ClientFrame.Stdout) fs -> outs fs = concat (map snd fs).
Proof. induction 1 as [|[kind payload] fs Hk _ IH]; [done|]. cbn in Hk. subst. by rewrite outs_cons, IH. Qed.

Lemma outs_heard l : outs (omap to_client l) = concat (map output_of l).
Proof.
  induction l as [|f l IH]; [done|]. cbn [omap list_omap map concat]. rewrite <- IH. unfold PublicAttach.to_client at 1, output_of.
  destruct (HolderFrame.message_type f); try done. by destruct (PublicAttach.exited_event _ _).
Qed.

Lemma relays_outs s fs : PublicAttach.shows session_id holder_minor h0 s fs -> outs fs = to_show s.
Proof.
  intros (_ & hist & Hf & Hall & Hcat & _). rewrite <- outs_unreplied, Hf, outs_app, outs_history, Hcat, outs_heard by done. done.
Qed.

Lemma encoded_encoding fs : PublicAttach.encoded fs = encoding (map as_frame fs).
Proof. unfold PublicAttach.encoded, encoding. rewrite map_map. done. Qed.

Lemma run_relays l t : PublicAttach.run session_id holder_minor h0 read_write armed l = inl t ->
  PublicAttach.relays session_id holder_minor h0 read_write (PublicAttach.state_of t) /\ PublicAttach.follows (PublicAttach.state_of t).
Proof.
  unfold PublicAttach.run. destruct (PublicAttach.start_relays session_id holder_minor h0 read_write) as (s & Hs & R). rewrite Hs.
  destruct armed; [|done]. intros [= <-]. pose proof (PublicAttach.rounds_after session_id holder_minor h0 read_write l s R) as Ha.
  split; [|by apply PublicAttach.rounds_follows, (PublicAttach.start_follows h0 read_write)].
  by destruct (PublicAttach.rounds _ _ _ _) as [s'|o s']; [|destruct Ha].
Qed.

(** C8: What is on the terminal of an attached client, with what standard output
    still holds back, is at every moment a beginning of the saved output
    followed by the output of the session, with nothing lost, added or
    reordered, whatever the kernel, the daemon's proxy and the terminal answer;
    and it is all of it when every byte that the proxy sent arrived and the
    client goes on. *)
Theorem screen_shows_session l t (readonly : bool) rounds kernel screen : 
  PublicAttach.run session_id holder_minor h0 read_write armed l = inl t -> Forall short_keys rounds ->
  let s := PublicAttach.state_of t in
  runs (io_loop readonly rounds) (start kernel screen) (fun r c =>
    (got c `prefix_of` PublicAttach.sent_public s -> total c `prefix_of` to_show s) /\
    (r = Ok tt -> got c = PublicAttach.public_stream s -> total c = to_show s)).
Proof.
  intros Hrun Hk s. apply run_relays in Hrun as [R _]. destruct (PublicAttach.relays_public _ _ _ _ _ R) as (fs & Hfs & Hsh).
  assert (Hok : Forall ClientFrame.frame_ok (map as_frame fs)).
  { apply Forall_fmap. eapply Forall_impl; [apply Hsh|]. intros [kind payload] Hx. by apply frame_of_ok. }
  rewrite encoded_encoding in Hfs. apply relays_outs in Hsh as Ho. fold s in Hfs, Ho. unfold outs in Ho.
  eapply runs_mono; [by apply (io_loop_start False)|]. intros r c (HT & HG & _). rewrite <- Ho. split.
  - intros Hp. eapply traced_stream; [exact HT|done|]. rewrite <- Hfs. etransitivity; [exact Hp|]. by apply prefix_app_r.
  - intros Hr Hgot. destruct (HG Hr) as [Hg Hd]. eapply drained_stream; [done..|]. by rewrite Hgot.
Qed.

Definition input_of (x : HolderFrame.HolderMessageType * bytes) : bytes :=
  if bool_decide (x.1 = HolderFrame.Input) then x.2 else [].

Lemma inputs_typed l : Forall (fun x => x.1 = true) l -> concat (map input_of (omap PublicAttach.to_session l)) = keys (map snd l).
Proof.
  induction 1 as [|[w f] l Hw _ IH]; [done|]. cbn in Hw. subst w. cbn [omap list_omap map]. unfold keys in *. cbn [map concat]. rewrite <- IH.
  unfold PublicAttach.to_session at 1, in_of. cbn [fst snd].
  destruct (ClientFrame.msg_type f); try done.
  - by destruct (ClientMessages.decode_signal _) as [[id signal]|].
  - destruct (ClientMessages.decode_resize _) as [[rows cols]|]; [|done]. cbn. by destruct (PublicAttach.holder_resize_payload rows cols).
Qed.

Lemma parts_whole asked parts : Forall (fun x => x.2 = true) asked -> Forall2 part asked parts -> concat parts = encoding (map fst asked).
Proof.
  intros Hall HF. induction HF as [|[f ok] p asked parts Hp HF IH]; [done|]. apply Forall_cons in Hall as [Hok Hall]. cbn in Hok. subst ok.
  unfold encoding in *. cbn. rewrite (IH Hall), Hp. done.
Qed.

(** C9: While every write of the client to the daemon is taken whole, the frames
    that the proxy takes from it are the first of those that the client wrote;
    and while the client holds the write seat, the input that the proxy sends
    to the holder is, byte for byte, a beginning of what was typed. *)
Theorem keyboard_reaches_session l t rounds kernel screen :
  PublicAttach.run session_id holder_minor h0 read_write armed l = inl t -> Forall short_keys rounds ->
  let s := PublicAttach.state_of t in
  runs (io_loop false rounds) (start kernel screen) (fun _ c =>
    Forall (fun x => x.2 = true) (asked c) -> PublicAttach.arrived s `prefix_of` sent c ->
    map snd (PublicAttach.typed s) `prefix_of` map fst (asked c) /\
    (Forall (fun x => x.1 = true) (PublicAttach.typed s) -> exists encs, PublicAttach.holder_stream s = concat encs /\
      Forall2 (fun x enc => PublicAttach.holder_bytes x.1 x.2 holder_minor = Ok enc) (omap PublicAttach.to_session (PublicAttach.typed s)) encs /\
      concat (map input_of (omap PublicAttach.to_session (PublicAttach.typed s))) `prefix_of` pressed false rounds)).
Proof.
  intros Hrun Hk s. apply run_relays in Hrun as [R HF]. eapply runs_mono; [by apply (io_loop_start False)|].
  intros r c (HT & _ & Hpressed) Hwhole [future Harr]. destruct (t_sent _ _ HT) as (parts & Hs & Hp).
  rewrite Hs, (parts_whole _ _ Hwhole Hp) in Harr.
  destruct (HF (map fst (asked c)) future) as (fs2 & Hfs & _); [by apply Forall_fmap, HT|by symmetry|].
  split; [rewrite Hfs; by apply prefix_app_r|]. intros Hw. destruct (PublicAttach.relays_holder _ _ _ _ _ R) as (encs & He & Hall).
  exists encs. split_and!; [done..|]. rewrite inputs_typed by done. etransitivity; [|exact Hpressed].
  rewrite Hfs, keys_app. by apply prefix_app_r.
Qed.
End session.

(** Standard output is never flushed: as long as what the daemon sent has no
    newline and is shorter than the buffer, nothing of it is on the terminal,
    a prompt for instance, and the echo of what is typed after it. *)
Theorem prompt_withheld (readonly : bool) rounds kernel : Forall short_keys rounds ->
  runs (io_loop readonly rounds) (start kernel []) (fun _ c => plain (printed c) -> lenN (printed c) < LINE_CAPACITY -> shown c = []).
Proof.
  intros Hk. eapply runs_mono; [by apply (io_loop_start True)|]. intros r c (HT & _). by apply HT.
Qed.
End ClientAttach.

(** ** Examples *)

Module AttachExamples.
Import ClientAttach.
#[local] Existing Instance Environment.bits_json.

Definition reads (bs : bytes) : Round := Polled None (Some (Chunk bs)) false None false.
Definition types (bs : bytes) : Round := Polled None None false (Some (Chunk bs)) false.

(** The run of the proxy of [PublicAttach.sample_run], up to the output. *)
Definition proxy_run : PublicAttach.turn + persist_error :=
  PublicAttach.run 7 HolderFrame.HOLDER_PROTOCOL_MINOR (lit "old") true true (take 5 PublicAttach.sample_rounds).
(** What it sent, in two reads. *)
Definition from_proxy : bytes := match proxy_run with inl t => PublicAttach.sent_public (PublicAttach.state_of t) | inr _ => [] end.
Definition client_rounds : list Round := [types (lit "ls"); reads (takeN 20 from_proxy); reads (dropN 20 from_proxy)].

Lemma client_short : Forall short_keys client_rounds.
Proof. repeat constructor; by vm_compute. Qed.

(** The saved output and the output of the session arrived, and none of it is on
    the terminal. *)
Example client_run :
  match io_loop false client_rounds (start [] []) with
  | Some (r, c) => r = Ok tt /\ got c = from_proxy /\ total c = lit "olda" /\ shown c = [] /\
      sent c = PublicAttach.public_bytes ClientFrame.Stdin (lit "ls")
  | None => False
  end.
Proof. by vm_compute. Qed.

Lemma screen_shows_session_witness : exists t, proxy_run = inl t /\ Forall short_keys client_rounds /\
  let s := PublicAttach.state_of t in
  runs (io_loop false client_rounds) (start [] []) (fun r c =>
    (got c `prefix_of` PublicAttach.sent_public s -> total c `prefix_of` to_show (lit "old") s) /\
    (r = Ok tt -> got c = PublicAttach.public_stream s -> total c = to_show (lit "old") s)).
Proof.
  eexists. split; [vm_compute; reflexivity|]. split; [exact client_short|].
  apply (screen_shows_session 7 HolderFrame.HOLDER_PROTOCOL_MINOR (lit "old") true true (take 5 PublicAttach.sample_rounds));
    [vm_compute; reflexivity|exact client_short].
Defined.

Lemma keyboard_reaches_session_witness : exists t, proxy_run = inl t /\ Forall short_keys client_rounds /\
  let s := PublicAttach.state_of t in
  runs (io_loop false client_rounds) (start [] []) (fun _ c =>
    Forall (fun x => x.2 = true) (asked c) -> PublicAttach.arrived s `prefix_of` sent c ->
    map snd (PublicAttach.typed s) `prefix_of` map fst (asked c) /\
    (Forall (fun x => x.1 = true) (PublicAttach.typed s) -> exists encs, PublicAttach.holder_stream s = concat encs /\
      Forall2 (fun x enc => PublicAttach.holder_bytes x.1 x.2 HolderFrame.HOLDER_PROTOCOL_MINOR = Ok enc)
        (omap PublicAttach.to_session (PublicAttach.typed s)) encs /\
      concat (map input_of (omap PublicAttach.to_session (PublicAttach.typed s))) `prefix_of` pressed false client_rounds)).
Proof.
  eexists. split; [vm_compute; reflexivity|]. split; [exact client_short|].
  apply (keyboard_reaches_session 7 HolderFrame.HOLDER_PROTOCOL_MINOR (lit "old") true true (take 5 PublicAttach.sample_rounds));
    [vm_compute; reflexivity|exact client_short].
Defined.

Lemma prompt_withheld_witness : Forall short_keys client_rounds /\
  runs (io_loop false client_rounds) (start [] []) (fun _ c => plain (printed c) -> lenN (printed c) < LINE_CAPACITY -> shown c = []).
Proof. split; [exact client_short|]. exact (prompt_withheld false client_rounds [] client_short). Defined.

(** The socket takes the header of a frame of three keys and is full: the loop
    ends, and the frame that detaches completes the frame of the keys, so that
    the session is given three bytes that nobody typed. *)
Definition attach_answer : bytes :=
  ClientFrame.write_frame (frame_of ClientFrame.AttachResp (ClientMessages.encode_attach_resp true [])).
Definition torn_attach : option (result persist_error unit * Client) :=
  attach (fun _ => None) (Ok 1) (Some 7) false 1000 [] [attach_answer] true true None [types (lit "abc")]
    (start [Wrote 100; Wrote 100; Wrote 100; WouldBlock] []).
Example torn_keys_replaced :
  match torn_attach with
  | Some (Ok _, c) =>
      let attached := lenN (ClientFrame.write_frame (frame_of ClientFrame.Attach (AttachContext.encode_attach 7))) in
      match PublicAttach.run 7 HolderFrame.HOLDER_PROTOCOL_MINOR [] true true
        [PublicAttach.Polled (PublicAttach.mkReady true (Chunk (dropN attached (sent c))) false [] false) PublicAttach.idle None] with
      | inl t => map snd (PublicAttach.typed (PublicAttach.state_of t)) = [frame_of ClientFrame.Stdin (u16_be 0 ++ [byte_of 0])]
      | inr _ => False
      end
  | _ => False
  end.
Proof. by vm_compute. Qed.
End AttachExamples.
