(* ===== verification/ProcFs.v ===== *)
(** * ProcFs: what the daemon reads of /proc.

    Models [crates/persistd/src/dashboard/procfs.rs] and [proc_source.rs] (a
    sample of all processes, each counted for the session that started it),
    [process_identity], [process_tree_pid] and [process_stats_pid] of
    [server.rs], and [dashboard_sample_request], which names the roots.

    The contents of the files are arguments: the file of a process at the turn
    of the loop in which it is read, or nothing when it cannot be read.  The
    order in which a [HashMap] is walked is an argument, too. *)
From S2P Require Import Prelude Bytes Utf8 ClientMessages HolderMessages Daemon Text DashboardWire Dashboard.
From stdpp Require Import sorting.
From Stdlib Require Import Lia.
Import String.StringSyntax.
Import Model(RawCounters, mkCounters, RawSessionSample, mkRawSession).
Import DashboardWire(Completeness, Complete, Partial, Unavailable, CollectionStatus, CollectionComplete, CollectionPartial, CollectionUnavailable).
#[local] Existing Instances DashboardWire.CollectionStatus_eq_dec DashboardWire.Completeness_eq_dec.
Local Open Scope N_scope.

(** ** Text *)

Module ProcText.

Definition strip_prefix (p s : str) : option str := if starts_with p s then Some (dropN (lenN p) s) else None.

(** [split_once] and [rsplit_once] of a text that is not empty. *)
Fixpoint split_once (sep s : str) : option (str * str) :=
  match strip_prefix sep s with
  | Some rest => Some ([], rest)
  | None => match s with [] => None | b :: s' => '(l, r) ← split_once sep s'; Some (b :: l, r) end
  end.
Fixpoint rsplit_once (sep s : str) : option (str * str) :=
  match s with
  | [] => None
  | b :: s' =>
      match rsplit_once sep s' with
      | Some (l, r) => Some (b :: l, r)
      | None => rest ← strip_prefix sep s; Some ([], rest)
      end
  end.

(** The value of the first line with this key. *)
Definition field (key : String.string) (s : str) : option N :=
  match omap (strip_prefix (lit key)) (Text.lines s) with
  | value :: _ => Text.parse_unsigned u64_max (Text.trim value)
  | [] => None
  end.
Arguments field key%_string s.
End ProcText.

(** ** The dashboard: procfs.rs and proc_source.rs *)

Module ProcFs.
Import ProcText.

Definition MAX_PROC_ENTRIES : N := 262144.
Definition MAX_PROC_FILE_BYTES : N := 4 * 1024.

Record SessionRoot : Type := mkRoot { session_id : N; root_pid : N; foreground_pid : option N; writer_active : bool }.
Record ProcSnapshot : Type := mkSnapshot {
  completeness : Completeness; daemon : option RawCounters; sessions : list RawSessionSample; truncated : bool }.
Record ParsedProcess : Type := mkProcess { pid : N; ppid : N; counters : RawCounters }.
Record ProcessRecord : Type := mkRecord { process : ParsedProcess; io_complete : bool }.

Definition parse_stat (value : str) (page_size : N) : option ParsedProcess :=
  if page_size =? 0 then None
  else
    '(pid, fields) ← split_once (lit " (") value;
    '(_, fields) ← rsplit_once (lit ") ") fields;
    let values := Text.split_whitespace fields in
    if lenN values <? 22 then None
    else
      rss ← values !! 21%nat; rss_pages ← Text.parse_unsigned u64_max rss;
      let rss_kib := N.min (rss_pages * page_size / 1024) u64_max in
      pid ← Text.parse_unsigned u32_max pid;
      parent ← values !! 1%nat; ppid ← Text.parse_unsigned u32_max parent;
      user ← values !! 11%nat; user_ticks ← Text.parse_unsigned u64_max user;
      system ← values !! 12%nat; system_ticks ← Text.parse_unsigned u64_max system;
      Some (mkProcess pid ppid (mkCounters user_ticks system_ticks rss_kib 0 0 1)).

Definition parse_io (value : str) : option (N * N) :=
  read ← field "read_bytes:" value; write ← field "write_bytes:" value; Some (read, write).

(** [read_limited] of what a file holds. *)
Definition read_limited (contents : option bytes) : option str :=
  contents ← contents;
  let bytes := takeN (MAX_PROC_FILE_BYTES + 1) contents in
  if MAX_PROC_FILE_BYTES <? lenN bytes then None else from_utf8 bytes.

(** [list_pids]: [None] is an error, of [read_dir] or of an entry. *)
Fixpoint take_pids (entries : list (option bytes)) (limit : nat) : option (list N) :=
  match limit, entries with
  | O, _ | _, [] => Some []
  | S limit', entry :: entries' =>
      name ← entry;
      match text ← from_utf8 name; Text.parse_unsigned u32_max text with
      | Some pid => pids ← take_pids entries' limit'; Some (pid :: pids)
      | None => take_pids entries' limit
      end
  end.
Definition list_pids (entries : option (list (option bytes))) (max_entries : N) : option (list N * bool) :=
  entries ← entries;
  pids ← take_pids entries (N.to_nat (saturating_add_usize max_entries 1));
  Some (merge_sort N.le (takeN max_entries pids), max_entries <? lenN pids).

Record Source : Type := mkSource { stat : nat -> N -> option str; io : nat -> N -> option str; expired : nat -> bool }.

(** One process of the first loop: its record, if its state could be read. *)
Definition read_process (source : Source) (page_size : N) (turn : nat) (id : N) : option ProcessRecord :=
  value ← stat source turn id;
  p ← parse_stat value page_size;
  if negb (pid p =? id) then None
  else
    let c := counters p in
    match text ← io source turn id; parse_io text with
    | Some (read, write) =>
        Some (mkRecord (mkProcess (pid p) (ppid p)
          (mkCounters (Model.user_ticks c) (Model.system_ticks c) (Model.rss_kib c) read write (Model.process_count c))) true)
    | None => Some (mkRecord p false)
    end.

(** The first loop: the records, and whether a state was missing and whether
    the time was up. *)
Fixpoint read_processes (source : Source) (page_size : N) (turn : nat) (pids : list N) (records : gmap N ProcessRecord) (incomplete : bool)
  : gmap N ProcessRecord * bool * bool :=
  match pids with
  | [] => (records, incomplete, false)
  | id :: pids' =>
      if expired source turn then (records, incomplete, true)
      else
        match read_process source page_size turn id with
        | Some record => read_processes source page_size (S turn) pids' (<[id := record]> records) incomplete
        | None => read_processes source page_size (S turn) pids' records true
        end
  end.

(** The second loop: the owners of the roots and the indices of those that are
    not roots of their own. *)
Fixpoint root_owners (index : nat) (roots : list SessionRoot) (owners : gmap N nat) (duplicates : gset nat) : gmap N nat * gset nat :=
  match roots with
  | [] => (owners, duplicates)
  | root :: roots' =>
      if (root_pid root =? 0) || bool_decide (is_Some (owners !! root_pid root))
      then root_owners (S index) roots' owners ({[index]} ∪ duplicates)
      else root_owners (S index) roots' (<[root_pid root := index]> owners) duplicates
  end.

(** The loop of [find_owner]: every turn visits another process, so that one
    turn more than there are records is enough. *)
Fixpoint find_loop (fuel : nat) (current : N) (visited : gset N) (records : gmap N ProcessRecord) (owners : gmap N nat) : option nat :=
  match fuel with
  | O => None
  | S fuel =>
      if (current =? 0) || bool_decide (current ∈ visited) then None
      else
        match owners !! current with
        | Some owner => Some owner
        | None =>
            record ← records !! current;
            if ppid (process record) =? current then None
            else find_loop fuel (ppid (process record)) ({[current]} ∪ visited) records owners
        end
  end.
Definition find_owner (id : N) (records : gmap N ProcessRecord) (owners : gmap N nat) : option nat :=
  find_loop (S (size records)) id ∅ records owners.

Definition no_counters : RawCounters := mkCounters 0 0 0 0 0 0.
Definition saturating_add_u32 (a b : N) : N := N.min (a + b) u32_max.
Definition add_counters (value total : RawCounters) : RawCounters :=
  mkCounters (saturating_add_u64 (Model.user_ticks total) (Model.user_ticks value))
    (saturating_add_u64 (Model.system_ticks total) (Model.system_ticks value))
    (saturating_add_u64 (Model.rss_kib total) (Model.rss_kib value))
    (saturating_add_u64 (Model.read_bytes total) (Model.read_bytes value))
    (saturating_add_u64 (Model.write_bytes total) (Model.write_bytes value))
    (saturating_add_u32 (Model.process_count total) 1).

(** One record of the third loop. *)
Definition add_process (records : gmap N ProcessRecord) (owners : gmap N nat) (st : list RawCounters * list CollectionStatus)
    (record : ProcessRecord) : list RawCounters * list CollectionStatus :=
  let '(aggregates, statuses) := st in
  match find_owner (pid (process record)) records owners with
  | None => st
  | Some owner =>
      if bool_decide (statuses !! owner = Some CollectionUnavailable) then st
      else
        (alter (add_counters (counters (process record))) owner aggregates,
         if negb (io_complete record) then <[owner := CollectionPartial]> statuses else statuses)
  end.

(** The last loop, on one root. *)
Definition final_status (records : gmap N ProcessRecord) (global_partial : bool) (root : SessionRoot) (status : CollectionStatus) : CollectionStatus :=
  match records !! root_pid root with
  | None => CollectionUnavailable
  | Some _ => if global_partial && bool_decide (status = CollectionComplete) then CollectionPartial else status
  end.

Definition sample_of (root : SessionRoot) (c : RawCounters) (status : CollectionStatus) : RawSessionSample :=
  mkRawSession (session_id root) c (foreground_pid root) (writer_active root) status.

Definition unavailable_snapshot (roots : list SessionRoot) : ProcSnapshot :=
  mkSnapshot Unavailable None (map (fun root => sample_of root no_counters CollectionUnavailable) roots) false.

(** What follows the reading; [walk] is the order of the records. *)
Definition summarize (walk : list ProcessRecord -> list ProcessRecord) (daemon_pid : N) (roots : list SessionRoot)
    (records : gmap N ProcessRecord) (global_partial was_truncated : bool) : ProcSnapshot :=
  let '(owners, duplicates) := root_owners 0 roots ∅ ∅ in
  let statuses := imap (fun index _ => if bool_decide (index ∈ duplicates) then CollectionUnavailable else CollectionComplete) roots in
  let '(aggregates, statuses) :=
    fold_left (add_process records owners) (walk (map snd (map_to_list records))) (map (fun _ => no_counters) roots, statuses) in
  let statuses := zip_with (final_status records global_partial) roots statuses in
  let sessions := zip_with (fun root x => sample_of root x.1 x.2) roots (zip aggregates statuses) in
  let daemon_record := records !! daemon_pid in
  let daemon := (fun record => counters (process record)) <$> daemon_record in
  let daemon_complete := match daemon_record with Some record => io_complete record | None => false end in
  let completeness :=
    if negb (bool_decide (is_Some daemon)) && forallb (fun s => bool_decide (Model.collection_status s = CollectionUnavailable)) sessions
    then Unavailable
    else if global_partial || negb daemon_complete || existsb (fun s => negb (bool_decide (Model.collection_status s = CollectionComplete))) sessions
    then Partial else Complete in
  mkSnapshot completeness daemon sessions was_truncated.

Definition collect_procfs_until (source : Source) (pids : option (list N * bool)) (walk : list ProcessRecord -> list ProcessRecord)
    (daemon_pid : N) (roots : list SessionRoot) (page_size : N) : ProcSnapshot :=
  match pids with
  | None => unavailable_snapshot roots
  | Some (pids, truncated) =>
      let '(records, stat_incomplete, timed_out) := read_processes source page_size 0 pids ∅ false in
      summarize walk daemon_pid roots records (stat_incomplete || truncated || timed_out) (truncated || timed_out)
  end.
End ProcFs.

(** ** The questions of a client: server.rs *)

Module ProcessInfo.
Import ProcText ClientMessages.

(** What the files of a process hold. *)
Record Files : Type := mkFiles { comm : option bytes; cmdline : option bytes; children : option bytes }.

Definition read_to_string (contents : option bytes) : option str := contents ← contents; from_utf8 contents.
Definition space : byte := byte_of 32.
(** [replace('\0', " ")] and [trim] *)
Definition command_text (raw : bytes) : str :=
  Text.trim (map (fun b => if byte_val b =? 0 then space else b) (from_utf8_lossy raw)).

(** What is left of [cmdline] when its name can be read; after the last
    character of a [String] there is always a boundary. *)
Definition process_identity (files : Files) : str * str :=
  match read_to_string (comm files) with
  | None => ([], [])
  | Some name =>
      let raw := takeN 161 (default [] (cmdline files)) in
      let command := command_text (takeN 160 raw) in
      (Text.trim name, if 160 <? lenN raw then command ++ lit "..." else command)
  end.

Definition MAX_NODES : nat := 64.
Definition MAX_DEPTH : N := 8.

Definition child_pids (contents : option bytes) : list N :=
  match read_to_string contents with Some text => omap (Text.parse_unsigned u32_max) (Text.split_whitespace text) | None => [] end.

Definition node_at (id parent depth : N) (name : str) (files : Files) : ProcessTreeNode :=
  mkNode id parent depth (Text.trim name) (command_text (takeN 160 (default [] (cmdline files)))).

Section tree.
(** The files of a process when [turn] processes were looked at. *)
Context (proc : nat -> N -> Files).

(** The loop over the queue: a turn takes a process from it, and either adds a
    node, of which at most [room] more are allowed, or drops the process. *)
Fixpoint tree_loop (room : nat) : nat -> list (N * N * N) -> list ProcessTreeNode -> list ProcessTreeNode :=
  fix drop_loop (turn : nat) (queue : list (N * N * N)) (nodes : list ProcessTreeNode) {struct queue} :=
    match queue with
    | [] => nodes
    | (id, parent, depth) :: queue' =>
        match room with
        | O => nodes
        | S room' =>
            if MAX_DEPTH <? depth then nodes
            else
              match read_to_string (comm (proc turn id)) with
              | None => drop_loop (S turn) queue' nodes
              | Some name =>
                  let nodes := nodes ++ [node_at id parent depth name (proc turn id)] in
                  if depth =? MAX_DEPTH then tree_loop room' (S turn) queue' nodes
                  else
                    tree_loop room' (S turn) (queue' ++ map (fun child => (child, id, depth + 1)) (child_pids (children (proc turn id)))) nodes
              end
        end
    end.

Definition process_tree_pid (root_pid : N) : list ProcessTreeNode := tree_loop MAX_NODES 0 [(root_pid, 0, 0)] [].
End tree.

Definition empty_process_stats : ProcessStatsRespPayload := mkStats None 0 0 0 0 0.

Definition process_stats_pid (stat io : option bytes) (page_size id : N) : ProcessStatsRespPayload :=
  match
    stat ← read_to_string stat;
    '(_, values) ← rsplit_once (lit ") ") stat;
    let values := Text.split_whitespace values in
    if lenN values <? 22 then None
    else
      user ← values !! 11%nat; user_ticks ← Text.parse_unsigned u64_max user;
      system ← values !! 12%nat; system_ticks ← Text.parse_unsigned u64_max system;
      rss ← values !! 21%nat; rss_pages ← Text.parse_unsigned u64_max rss;
      Some (user_ticks, system_ticks, rss_pages)
  with
  | None => empty_process_stats
  | Some (user_ticks, system_ticks, rss_pages) =>
      let io := default [] (read_to_string io) in
      mkStats (Some id) user_ticks system_ticks (N.min (rss_pages * page_size) u64_max / 1024)
        (default 0 (field "read_bytes:" io)) (default 0 (field "write_bytes:" io))
  end.

(** ** The roots of a sample *)

Record SampleRequest : Type := mkRequest {
  roots : list ProcFs.SessionRoot; session_count : N; runtime_count : N; active_writer_count : N; readonly_client_count : N }.

Definition saturating_u32 (value : N) : N := N.min value u32_max.

Definition root_of (s : Daemon.SessionManager) (e : Inventory.HolderSessionEntry) : ProcFs.SessionRoot :=
  ProcFs.mkRoot (Inventory.session_id e) (Inventory.shell_pid e) (Some (Inventory.shell_pid e))
    (Inventory.writer_active e || bool_decide (is_Some (Daemon.attached_sessions s !! Inventory.session_id e))).

Definition dashboard_sample_request (cached : list Inventory.HolderSessionEntry) (s : Daemon.SessionManager) : SampleRequest :=
  mkRequest (map (root_of s) (filter (fun e => Daemon.is_orphaned (Inventory.session_id e) s = false) cached))
    (saturating_u32 (N.of_nat (size (Daemon.session_info s))))
    (saturating_u32 (lenN (Daemon.runtime_ids cached s)))
    (saturating_u32 (Daemon.active_writer_count cached s))
    (saturating_u32 (sumN lenN (map snd (map_to_list (Daemon.ro_attached s))))).
End ProcessInfo.

(** ** A line of [stat] *)

Module StatLine.
Import ProcText ProcFs.
Import Text(newline).

Lemma strip_prefix_app p s : strip_prefix p (p ++ s) = Some s.
Proof.
  unfold strip_prefix. rewrite (proj2 (starts_with_app p (p ++ s))) by by exists s. by rewrite dropN_app.
Qed.
Lemma strip_prefix_head c p s b s' : b <> c -> s = b :: s' -> strip_prefix (c :: p) s = None.
Proof. intros Hne ->. unfold strip_prefix. cbn. by rewrite bool_decide_false. Qed.

Lemma split_once_first c sep l r : c ∉ l -> split_once (c :: sep) (l ++ c :: sep ++ r) = Some (l, r).
Proof.
  induction l as [|b l IH]; cbn [app]; intros Hc.
  - change (c :: sep ++ r) with ((c :: sep) ++ r). cbn [app]. unfold split_once.
    change (strip_prefix (c :: sep) (c :: sep ++ r)) with (strip_prefix (c :: sep) ((c :: sep) ++ r)). by rewrite strip_prefix_app.
  - apply not_elem_of_cons in Hc as [Hb Hc]. cbn [split_once]. rewrite (strip_prefix_head c sep _ b (l ++ c :: sep ++ r)) by done.
    by rewrite IH.
Qed.

Lemma rsplit_once_none c sep r : c ∉ r -> rsplit_once (c :: sep) r = None.
Proof.
  induction r as [|b r IH]; [done|]. intros [Hb Hc]%not_elem_of_cons. cbn [rsplit_once]. rewrite IH by done.
  by rewrite (strip_prefix_head c sep _ b r).
Qed.

Lemma rsplit_once_last l r : byte_of 41 ∉ r -> rsplit_once (lit ") ") (l ++ lit ") " ++ r) = Some (l, r).
Proof.
  intros Hr. induction l as [|b l IH]; [|cbn [app rsplit_once]; by rewrite IH].
  change (lit ") ") with [byte_of 41; byte_of 32]. cbn [app].
  assert (Hs : rsplit_once [byte_of 41; byte_of 32] (byte_of 32 :: r) = None).
  { apply rsplit_once_none. intros [E|Hin]%elem_of_cons; [discriminate E|done]. }
  cbn [rsplit_once] in *. rewrite Hs. change (byte_of 41 :: byte_of 32 :: r) with ([byte_of 41; byte_of 32] ++ r). by rewrite strip_prefix_app.
Qed.

(** A number or a letter of the line. *)
Definition is_graphic (b : byte) : bool := is_ascii_alphanumeric b || (byte_val b =? 45).
Definition token (w : str) : Prop := w <> [] /\ forallb is_graphic w = true.

Fixpoint unwords (l : list str) : str :=
  match l with [] => [] | [w] => w | w :: l' => w ++ byte_of 32 :: unwords l' end.

Lemma graphic_plain b : is_graphic b = true -> is_ascii_byte b = true /\ Text.char_is_whitespace [b] = false /\ b <> byte_of 41 /\ b <> byte_of 32.
Proof. by destruct b. Qed.

Lemma unwords_ascii l : Forall token l -> forallb is_ascii_byte (unwords l) = true /\ byte_of 41 ∉ unwords l.
Proof.
  assert (Hw : forall w, token w -> forallb is_ascii_byte w = true /\ byte_of 41 ∉ w).
  { intros w [_ Hg]. rewrite forallb_forall in Hg. split.
    - apply forallb_forall. intros b Hb. by apply graphic_plain, Hg.
    - intros Hin. apply list_elem_of_In, Hg, graphic_plain in Hin as (_ & _ & Hne & _). done. }
  induction 1 as [|w l Hw' Hl IH]; [split; [done|by apply not_elem_of_nil]|]. destruct (Hw w Hw') as [H1 H2]. destruct IH as [H3 H4].
  destruct l as [|w' l]; [done|]. change (unwords (w :: w' :: l)) with (w ++ byte_of 32 :: unwords (w' :: l)).
  rewrite forallb_app. cbn [forallb]. rewrite H1, H3. split; [done|]. rewrite elem_of_app, elem_of_cons. intros [?|[E|?]]; [done|discriminate E|done].
Qed.

Lemma words_token w cs : forallb is_graphic w = true -> forall word, Text.words (map (fun b => [b]) w ++ cs) word = Text.words cs (word ++ w).
Proof.
  induction w as [|b w IH]; cbn [map app forallb]; [intros _ word; by rewrite app_nil_r|]. intros [Hb Hw]%andb_true_iff word.
  apply graphic_plain in Hb as (_ & Hb & _). cbn [Text.words]. rewrite Hb, IH by done. by rewrite <- app_assoc.
Qed.

(** The words of a line. *)
Lemma split_unwords l : Forall token l -> Text.split_whitespace (unwords l ++ [newline]) = l.
Proof.
  intros Hl. unfold Text.split_whitespace. rewrite Text.chars_ascii by (rewrite forallb_app; by rewrite (proj1 (unwords_ascii l Hl))).
  induction Hl as [|w l [Hne Hg] Hl IH]; [done|]. destruct l as [|w' l].
  - cbn [unwords]. rewrite map_app, words_token by done. by destruct w.
  - change (unwords (w :: w' :: l)) with (w ++ byte_of 32 :: unwords (w' :: l)). rewrite <- app_assoc. cbn [app].
    rewrite map_app, words_token by done. cbn [map Text.words app]. change (Text.char_is_whitespace [byte_of 32]) with true. cbn iota.
    rewrite IH. by destruct w.
Qed.

(** [/proc/pid/stat] as the kernel writes it: the fields follow the name, which
    may hold any bytes. *)
Definition stat_line (id : N) (name : str) (fields : list str) : str :=
  Daemon.decimal id ++ lit " (" ++ name ++ lit ") " ++ unwords fields ++ [newline].

Lemma decimal_free_of b id : is_ascii_digit b = false -> b ∉ Daemon.decimal id.
Proof. apply Text.decimal_free. Qed.

Lemma parse_unsigned_decimal max n : n <= max -> Text.parse_unsigned max (Daemon.decimal n) = Some n.
Proof.
  intros Hn. pose proof (Text.parse_decimal max n Hn) as Hp. pose proof (Text.decimal_is_digits n) as Hd.
  unfold Text.parse_unsigned. destruct (Daemon.decimal n) as [|b l] eqn:E; [by apply Text.decimal_nonempty in E|].
  cbn in Hd. apply andb_true_iff in Hd as [Hb _]. destruct (N.eqb_spec (byte_val b) 43) as [Hv|]; [|done]. exfalso. revert Hb Hv. by destruct b.
Qed.

(** A line of [/proc/pid/stat] is read as it was written, whatever bytes the
    process chose for its name, parentheses and spaces included. *)
Theorem parse_stat_line page_size id name fields parent user system pages :
  0 < page_size -> id <= u32_max -> Forall token fields -> 22 <= lenN fields ->
  fields !! 1%nat = Some (Daemon.decimal parent) -> fields !! 11%nat = Some (Daemon.decimal user) ->
  fields !! 12%nat = Some (Daemon.decimal system) -> fields !! 21%nat = Some (Daemon.decimal pages) ->
  parent <= u32_max -> user <= u64_max -> system <= u64_max -> pages <= u64_max ->
  parse_stat (stat_line id name fields) page_size =
    Some (mkProcess id parent (mkCounters user system (N.min (pages * page_size / 1024) u64_max) 0 0 1)).
Proof.
  intros Hp Hid Hf Hl E1 E11 E12 E21 H1 H11 H12 H21. unfold parse_stat. rewrite (proj2 (N.eqb_neq _ _)) by lia.
  unfold stat_line. change (lit " (") with [byte_of 32; byte_of 40] at 2. cbn [app].
  change (lit " (") with (byte_of 32 :: [byte_of 40]).
  change (byte_of 32 :: byte_of 40 :: ?x) with (byte_of 32 :: [byte_of 40] ++ x).
  rewrite split_once_first by (by apply decimal_free_of). cbn [mbind option_bind].
  rewrite rsplit_once_last.
  2: { rewrite elem_of_app, list_elem_of_singleton. intros [Hin|E]; [by apply unwords_ascii in Hin|discriminate E]. }
  cbn [mbind option_bind]. rewrite split_unwords by done. rewrite (proj2 (N.ltb_ge _ _) Hl), E21. cbn [mbind option_bind].
  rewrite parse_unsigned_decimal by done. cbn [mbind option_bind]. rewrite parse_unsigned_decimal by done. cbn [mbind option_bind].
  rewrite E1. cbn [mbind option_bind]. rewrite parse_unsigned_decimal by done. cbn [mbind option_bind].
  rewrite E11. cbn [mbind option_bind]. rewrite parse_unsigned_decimal by done. cbn [mbind option_bind].
  rewrite E12. cbn [mbind option_bind]. rewrite parse_unsigned_decimal by done. done.
Qed.
End StatLine.

(** ** The owner of a process *)

Module Owners.
Import ProcFs.

(** The session of the nearest ancestor that is the root of one; a process is
    an ancestor of itself. *)
Inductive nearest (records : gmap N ProcessRecord) (owners : gmap N nat) : nat -> N -> nat -> Prop :=
| nearest_root id o : id <> 0 -> owners !! id = Some o -> nearest records owners 0 id o
| nearest_parent n id r o : id <> 0 -> owners !! id = None -> records !! id = Some r ->
    nearest records owners n (ppid (process r)) o -> nearest records owners (S n) id o.
Definition descends (records : gmap N ProcessRecord) (owners : gmap N nat) (id : N) (o : nat) : Prop :=
  exists n, nearest records owners n id o.

Section owners.
Context (records : gmap N ProcessRecord) (owners : gmap N nat).

Lemma nearest_unique n id o m o' : nearest records owners n id o -> nearest records owners m id o' -> n = m /\ o = o'.
Proof.
  intros H. revert m o'. induction H as [id o H0 Ho|k id r o H0 Ho Hr H IH]; intros m o' H'; inversion H'; simplify_eq; [done|].
  edestruct IH; [eassumption|]. by subst.
Qed.

Lemma find_loop_sound fuel current visited o :
  find_loop fuel current visited records owners = Some o -> descends records owners current o.
Proof.
  revert current visited. induction fuel as [|fuel IH]; intros current visited; [done|]. cbn [find_loop].
  destruct (N.eqb_spec current 0); [done|]. case_bool_decide; [done|]. cbn [orb].
  destruct (owners !! current) eqn:Ho; [intros [= ->]; exists O; by constructor|].
  destruct (records !! current) eqn:Hr; [|done]. cbn. destruct (ppid _ =? current); [done|].
  intros [k Hk]%IH. exists (S k). by econstructor.
Qed.

Lemma find_loop_complete n current o visited fuel :
  nearest records owners n current o ->
  (forall v m o', v ∈ visited -> nearest records owners m v o' -> (n < m)%nat) ->
  visited ⊆ dom records -> (size records < size visited + fuel)%nat ->
  find_loop fuel current visited records owners = Some o.
Proof.
  intros H. revert visited fuel. induction H as [id o H0 Ho|k id r o H0 Ho Hr H IH]; intros visited fuel Hv Hs Hf;
    pose proof (subseteq_size _ _ Hs) as Hsize; rewrite size_dom in Hsize; (destruct fuel as [|fuel]; [lia|]); cbn [find_loop];
    rewrite (proj2 (N.eqb_neq _ _) H0); cbn [orb].
  - rewrite bool_decide_false; [by rewrite Ho|]. intros Hin. eapply (Hv _ 0%nat) in Hin; [lia|by constructor].
  - assert (Hout : id ∉ visited). { intros Hin. eapply (Hv _ (S k)) in Hin; [lia|by econstructor]. }
    rewrite bool_decide_false, Ho, Hr by done. cbn.
    destruct (N.eqb_spec (ppid (process r)) id) as [E|Hne].
    { exfalso. assert (Hself : nearest records owners (S k) id o) by by econstructor. rewrite E in H.
      destruct (nearest_unique _ _ _ _ _ H Hself). lia. }
    apply IH.
    + intros v m o' [->%elem_of_singleton|Hin]%elem_of_union Hm.
      * assert (Hself : nearest records owners (S k) id o) by by econstructor. destruct (nearest_unique _ _ _ _ _ Hm Hself). lia.
      * specialize (Hv v m o' Hin Hm). lia.
    + apply union_least; [|done]. apply singleton_subseteq_l, elem_of_dom. by eexists.
    + rewrite size_union by set_solver. rewrite size_singleton. lia.
Qed.

(** A process is counted for the session of its nearest ancestor that is a
    session's root, and for no session when there is none: cycles in what was
    read, parents that are missing and the bound of the loop change nothing. *)
Theorem find_owner_nearest id o : find_owner id records owners = Some o <-> descends records owners id o.
Proof.
  split; [apply find_loop_sound|]. intros [n Hn]. eapply find_loop_complete; [done| | |].
  - intros v m o' []%elem_of_empty.
  - apply empty_subseteq.
  - rewrite size_empty. lia.
Qed.
End owners.
End Owners.

(** ** The counters and the status of a session *)

Module Totals.
Import ProcFs.

(** The root with this pid: the first one counts. *)
Definition owner_of (roots : list SessionRoot) (id : N) : option nat :=
  if id =? 0 then None else fst <$> list_find (fun root => root_pid root = id) roots.

(** The sum of what was read, at the width of each counter. *)
Definition total (l : list RawCounters) : RawCounters :=
  mkCounters (N.min (sumN Model.user_ticks l) u64_max) (N.min (sumN Model.system_ticks l) u64_max) (N.min (sumN Model.rss_kib l) u64_max)
    (N.min (sumN Model.read_bytes l) u64_max) (N.min (sumN Model.write_bytes l) u64_max) (N.min (lenN l) u32_max).

Section snapshot.
Context (roots : list SessionRoot) (records : gmap N ProcessRecord).

(** A process belongs to the session whose root it is, and every other process
    to the session of its parent, if that was read. *)
Inductive belongs : N -> nat -> Prop :=
| belongs_root id i : owner_of roots id = Some i -> belongs id i
| belongs_child id r i : id <> 0 -> owner_of roots id = None -> records !! id = Some r ->
    belongs (ppid (process r)) i -> belongs id i.

Definition all_records : list ProcessRecord := map snd (map_to_list records).

(** [counted]: the processes of the root with an index. *)
Context (counted : nat -> ProcessRecord -> bool).

Definition is_owner (i : nat) (root : SessionRoot) : bool := bool_decide (owner_of roots (root_pid root) = Some i).

Definition status_of (global_partial : bool) (i : nat) (root : SessionRoot) : CollectionStatus :=
  if negb (is_owner i root) || bool_decide (records !! root_pid root = None) then CollectionUnavailable
  else if global_partial || existsb (fun r => counted i r && negb (io_complete r)) all_records then CollectionPartial
  else CollectionComplete.

(** The session at an index of the answer. *)
Definition session_of (global_partial : bool) (i : nat) (root : SessionRoot) : RawSessionSample :=
  sample_of root
    (total (if is_owner i root then map (fun r => counters (process r)) (List.filter (counted i) all_records) else []))
    (status_of global_partial i root).
End snapshot.

(** The processes that the loop counts for the root with this index. *)
Definition of_session (records : gmap N ProcessRecord) (owners : gmap N nat) (i : nat) (r : ProcessRecord) : bool :=
  bool_decide (find_owner (pid (process r)) records owners = Some i).

(** *** The owners *)

Lemma owner_of_snoc l root id :
  owner_of (l ++ [root]) id =
    match owner_of l id with Some i => Some i | None => if (root_pid root =? id) && negb (id =? 0) then Some (length l) else None end.
Proof.
  unfold owner_of. destruct (id =? 0); [by rewrite andb_false_r|]. rewrite andb_true_r. destruct (list_find _ l) as [[i r]|] eqn:E; [by rewrite (list_find_app_l _ _ _ _ _ E)|].
  rewrite list_find_app_r by done. cbn. case_decide as H; [by rewrite (proj2 (N.eqb_eq _ _) H)|by rewrite (proj2 (N.eqb_neq _ _) H)].
Qed.

Lemma owner_of_lookup l i root : l !! i = Some root -> root_pid root <> 0 -> is_Some (owner_of l (root_pid root)).
Proof.
  intros Hi H0. unfold owner_of. rewrite (proj2 (N.eqb_neq _ _) H0). apply fmap_is_Some.
  by eapply list_find_elem_of; [eapply list_elem_of_lookup_2|].
Qed.

Lemma root_owners_from rest : forall before owners duplicates,
  (forall id, owners !! id = owner_of before id) ->
  (forall i, i ∈ duplicates <-> exists root, before !! i = Some root /\ owner_of before (root_pid root) <> Some i) ->
  forall owners' duplicates', root_owners (length before) rest owners duplicates = (owners', duplicates') ->
    (forall id, owners' !! id = owner_of (before ++ rest) id) /\
    (forall i, i ∈ duplicates' <-> exists root, (before ++ rest) !! i = Some root /\ owner_of (before ++ rest) (root_pid root) <> Some i).
Proof.
  induction rest as [|root rest IH]; intros before owners duplicates Ho Hd owners' duplicates'.
  { rewrite app_nil_r. cbn. intros [= <- <-]. done. }
  cbn [root_owners].
  assert (Hstep : forall owners1 duplicates1,
    (forall id, owners1 !! id = owner_of (before ++ [root]) id) ->
    (forall i, i ∈ duplicates1 <-> i ∈ duplicates \/ i = length before /\ owner_of (before ++ [root]) (root_pid root) <> Some (length before)) ->
    root_owners (S (length before)) rest owners1 duplicates1 = (owners', duplicates') ->
    (forall id, owners' !! id = owner_of (before ++ root :: rest) id) /\
    (forall i, i ∈ duplicates' <-> exists root0, (before ++ root :: rest) !! i = Some root0 /\ owner_of (before ++ root :: rest) (root_pid root0) <> Some i)).
  { intros owners1 duplicates1 Ho1 Hd1 E. rewrite cons_middle, app_assoc. eapply IH; [exact Ho1| |by rewrite length_app, Nat.add_1_r].
    intros i. rewrite Hd1, Hd. split.
    - intros [(r & Hr & Hne)|[-> Hne]].
      + exists r. split; [by apply lookup_app_l_Some|]. rewrite owner_of_snoc. destruct (owner_of before (root_pid r)) eqn:Er; [done|].
        destruct (_ && _); [|done]. apply lookup_lt_Some in Hr. intros [= <-]. lia.
      + exists root. by rewrite lookup_app_r, Nat.sub_diag by lia.
    - intros (r & [Hr|[Hi Hr]]%lookup_app_Some & Hne).
      + left. exists r. split; [done|]. rewrite owner_of_snoc in Hne. intros E'. by rewrite E' in Hne.
      + right. apply list_lookup_singleton_Some in Hr as [Hi' <-]. by replace i with (length before) in * by lia. }
  destruct (N.eqb_spec (root_pid root) 0) as [H0|H0]; cbn [orb].
  - apply Hstep.
    + intros id. rewrite owner_of_snoc, Ho. destruct (owner_of before id); [done|]. rewrite H0. by destruct (N.eqb_spec 0 id); [subst|].
    + intros i. rewrite elem_of_union, elem_of_singleton. unfold owner_of. rewrite H0. cbn. naive_solver.
  - rewrite (Ho (root_pid root)). case_bool_decide as Hs.
    + destruct Hs as [j Hj]. apply Hstep.
      * intros id. rewrite owner_of_snoc, Ho. destruct (owner_of before id) eqn:E; [done|].
        destruct (N.eqb_spec (root_pid root) id); [congruence|done].
      * intros i. rewrite elem_of_union, elem_of_singleton, owner_of_snoc, Hj.
        assert (j <> length before). { intros ->. unfold owner_of in Hj. rewrite (proj2 (N.eqb_neq _ _) H0) in Hj.
          apply fmap_Some in Hj as ([k r] & Hk & Hkl). cbn in Hkl. subst k. apply list_find_Some in Hk as [Hk _]. apply lookup_lt_Some in Hk. lia. }
        naive_solver.
    + assert (Hn : owner_of before (root_pid root) = None) by by apply eq_None_not_Some. apply Hstep.
      * intros id. rewrite owner_of_snoc. destruct (N.eqb_spec (root_pid root) id) as [<-|Hne].
        -- by rewrite lookup_insert_eq, Hn, (proj2 (N.eqb_neq _ _) H0).
        -- rewrite lookup_insert_ne, Ho by done. by destruct (owner_of before id).
      * intros i. rewrite owner_of_snoc, Hn, N.eqb_refl, (proj2 (N.eqb_neq _ _) H0). cbn. naive_solver.
Qed.

Lemma root_owners_spec roots owners duplicates : root_owners 0 roots ∅ ∅ = (owners, duplicates) ->
  (forall id, owners !! id = owner_of roots id) /\
  (forall i root, roots !! i = Some root -> i ∈ duplicates <-> owner_of roots (root_pid root) <> Some i).
Proof.
  intros E. assert (H1 : forall id, (∅ : gmap N nat) !! id = owner_of [] id).
  { intros id. rewrite lookup_empty. unfold owner_of. by destruct (id =? 0). }
  assert (H2 : forall i, i ∈ (∅ : gset nat) <-> exists root, [] !! i = Some root /\ owner_of [] (root_pid root) <> Some i).
  { intros i. split; [intros []%elem_of_empty|intros (r & Hr & _); done]. }
  destruct (root_owners_from roots [] ∅ ∅ H1 H2 _ _ E) as [Ho Hd].
  split; [done|]. intros i root Hi. rewrite Hd. cbn [app]. naive_solver.
Qed.

(** What [find_owner] finds. *)
Lemma descends_belongs roots records owners id i : (forall id, owners !! id = owner_of roots id) ->
  Owners.descends records owners id i <-> belongs roots records id i.
Proof.
  intros Ho. split.
  - intros [n Hn]. induction Hn as [id o H0 Hi|n id r o H0 Hi Hr _ IH]; rewrite Ho in Hi; [by constructor|by eapply belongs_child].
  - induction 1 as [id i Hi|id r i H0 Hi Hr _ [n IH]].
    + exists O. constructor; [|by rewrite Ho]. intros ->. done.
    + exists (S n). econstructor; [done|by rewrite Ho|done|done].
Qed.

(** *** The sums *)

Lemma sumN_nil {A} (g : A -> N) : sumN g [] = 0.
Proof. done. Qed.
Lemma sumN_app {A} (g : A -> N) l l' : sumN g (l ++ l') = sumN g l + sumN g l'.
Proof. induction l as [|x l IH]; [done|]. cbn [app]. rewrite !sumN_cons, IH. lia. Qed.
#[local] Instance sumN_proper {A} (g : A -> N) : Proper ((≡ₚ) ==> eq) (sumN g).
Proof. intros l l'. induction 1; rewrite ?sumN_cons; [done|congruence|lia|congruence]. Qed.
#[local] Instance total_proper : Proper ((≡ₚ) ==> eq) total.
Proof. intros l l' H. unfold total, lenN. by rewrite !(sumN_proper _ _ _ H), (Permutation_length H). Qed.

Lemma add_total l v : add_counters v (total l) = total (l ++ [v]).
Proof.
  unfold add_counters, total, saturating_add_u64, saturating_add_u32. cbn [Model.user_ticks Model.system_ticks Model.rss_kib Model.read_bytes Model.write_bytes Model.process_count].
  rewrite !sumN_app, lenN_app, !sumN_cons. change (lenN [v]) with 1. f_equal; (rewrite ?sumN_nil; lia).
Qed.
Lemma fold_total l before : fold_left (fun c v => add_counters v c) l (total before) = total (before ++ l).
Proof.
  revert before. induction l as [|v l IH]; intros before; [by rewrite app_nil_r|]. cbn [fold_left]. by rewrite add_total, IH, <- app_assoc.
Qed.

(** *** The third loop *)

Section fold.
Context (records : gmap N ProcessRecord) (owners : gmap N nat).
#[local] Abbreviation of_session := (of_session records owners).

Lemma of_session_spec i r : of_session i r = true <-> find_owner (pid (process r)) records owners = Some i.
Proof. apply bool_decide_eq_true. Qed.

Lemma add_process_lookup aggregates statuses r i :
  (forall o, find_owner (pid (process r)) records owners = Some o -> statuses !! o <> Some CollectionUnavailable) ->
  let st := add_process records owners (aggregates, statuses) r in
  st.1 !! i = (fun c => if of_session i r then add_counters (counters (process r)) c else c) <$> aggregates !! i /\
  st.2 !! i = (fun status => if of_session i r && negb (io_complete r) then CollectionPartial else status) <$> statuses !! i.
Proof.
  intros Hs. unfold add_process. destruct (find_owner _ records owners) as [o|] eqn:E.
  - rewrite bool_decide_false by eauto. cbn [fst snd]. destruct (decide (o = i)) as [->|Hne].
    + rewrite (proj2 (of_session_spec i r) E), list_lookup_alter_eq. split; [done|]. cbn [andb].
      destruct (negb (io_complete r)); [|by rewrite option_fmap_id].
      destruct (statuses !! i) eqn:Ei; cbn; [|by rewrite list_insert_ge by by apply lookup_ge_None].
      by rewrite list_lookup_insert_eq by by eapply lookup_lt_Some.
    + assert (Hf : of_session i r = false). { apply not_true_iff_false. rewrite of_session_spec. congruence. }
      rewrite Hf, list_lookup_alter_ne, option_fmap_id by done. cbn [andb]. rewrite option_fmap_id. split; [done|].
      destruct (negb (io_complete r)); [|done]. by rewrite list_lookup_insert_ne.
  - assert (Hf : of_session i r = false). { apply not_true_iff_false. rewrite of_session_spec. congruence. }
    rewrite Hf. cbn. by rewrite !option_fmap_id.
Qed.

Lemma fold_process_lookup l : forall aggregates statuses i,
  (forall id o, find_owner id records owners = Some o -> statuses !! o <> Some CollectionUnavailable) ->
  let st := fold_left (add_process records owners) l (aggregates, statuses) in
  st.1 !! i = (fun c => fold_left (fun c v => add_counters v c) (map (fun r => counters (process r)) (List.filter (of_session i) l)) c) <$> aggregates !! i /\
  st.2 !! i = (fun status => if existsb (fun r => of_session i r && negb (io_complete r)) l then CollectionPartial else status) <$> statuses !! i.
Proof.
  induction l as [|r l IH]; intros aggregates statuses i Hs; [cbn; by rewrite !option_fmap_id|].
  cbn [fold_left]. destruct (add_process _ _ _ r) as [aggregates1 statuses1] eqn:E.
  assert (Hl : forall j, aggregates1 !! j = (fun c => if of_session j r then add_counters (counters (process r)) c else c) <$> aggregates !! j /\
    statuses1 !! j = (fun status => if of_session j r && negb (io_complete r) then CollectionPartial else status) <$> statuses !! j).
  { intros j. pose proof (add_process_lookup aggregates statuses r j) as Hr. rewrite E in Hr. apply Hr. eauto. }
  destruct (IH aggregates1 statuses1 i) as [H1 H2].
  { intros id o Ho. rewrite (proj2 (Hl o)). specialize (Hs id o Ho). destruct (statuses !! o); [|done]. cbn. by destruct (_ && _). }
  rewrite H1, H2. destruct (Hl i) as [-> ->]. rewrite <- !option_fmap_compose. cbn [List.filter existsb]. split.
  - destruct (aggregates !! i); [|done]. cbn. by destruct (of_session i r).
  - destruct (statuses !! i); [|done]. cbn. destruct (of_session i r && _), (existsb _ l); done.
Qed.
End fold.

Lemma existsb_perm {A} (f : A -> bool) l l' : l ≡ₚ l' -> existsb f l = existsb f l'.
Proof. induction 1 as [|x l l' _ IH|x y l|]; cbn; [done|by rewrite IH|by destruct (f x), (f y)|congruence]. Qed.
Lemma filter_none {A} (f : A -> bool) l : (forall x, x ∈ l -> f x = false) -> List.filter f l = [].
Proof.
  induction l as [|x l IH]; [done|]. intros H. cbn. rewrite H by (by constructor). apply IH. intros y Hy. apply H. by constructor.
Qed.
Lemma filter_perm {A} (f : A -> bool) l l' : l ≡ₚ l' -> List.filter f l ≡ₚ List.filter f l'.
Proof.
  induction 1 as [|x l l' _ IH|x y l|]; cbn; [done| | |by etrans].
  - destruct (f x); [by constructor|done].
  - destruct (f x), (f y); (done || constructor).
Qed.

(** C35: A sample is exact: whatever order the records are walked in, each
    session has the counters of the processes that belong to it ([belongs]: its
    root, and every process, however far down, whose nearest ancestor that is a
    root is that one), added up at the width of each counter; it is unavailable
    when its root was not read or belongs to an earlier session, partial when
    something was not read, and complete otherwise. *)
Theorem summarize_exact walk daemon_pid roots records global_partial was_truncated : (forall l, walk l ≡ₚ l) ->
  exists counted, (forall i r, counted i r = true <-> belongs roots records (pid (process r)) i) /\
    sessions (summarize walk daemon_pid roots records global_partial was_truncated)
      = imap (session_of roots records counted global_partial) roots.
Proof.
  intros Hw. destruct (root_owners 0 roots ∅ ∅) as [owners duplicates] eqn:Ho.
  pose proof (root_owners_spec roots owners duplicates Ho) as [Howner Hdup]. exists (of_session records owners). split.
  { intros i r. rewrite of_session_spec, Owners.find_owner_nearest. by apply descends_belongs. }
  unfold summarize. rewrite Ho.
  set (statuses := imap _ roots). set (aggregates := map (fun _ => no_counters) roots).
  assert (Hst : forall i, statuses !! i = (fun root => if is_owner roots i root then CollectionComplete else CollectionUnavailable) <$> roots !! i).
  { intros i. unfold statuses. rewrite list_lookup_imap. destruct (roots !! i) as [root|] eqn:Ei; [|done]. cbn. f_equal.
    unfold is_owner. specialize (Hdup i root Ei). repeat case_bool_decide; tauto. }
  assert (Hfirst : forall id o, find_owner id records owners = Some o -> statuses !! o <> Some CollectionUnavailable).
  { intros id o [n Hn]%Owners.find_loop_sound. rewrite Hst. intros (root & Er & Hs)%fmap_Some_1. revert Hs.
    assert (He : exists p, owners !! p = Some o) by (clear - Hn; induction Hn; eauto). destruct He as [p Hp]. rewrite Howner in Hp.
    unfold is_owner. rewrite bool_decide_true; [done|]. pose proof Hp as Hp'. unfold owner_of in Hp. destruct (p =? 0); [done|].
    apply fmap_Some in Hp as ([k r] & Hf & Hk). cbn in Hk. subst k. apply list_find_Some in Hf as (Hf & Hr & _).
    rewrite Er in Hf. injection Hf as <-. by rewrite Hr. }
  destruct (fold_left _ _ (aggregates, statuses)) as [aggregates1 statuses1] eqn:E. cbn [sessions].
  apply list_eq. intros i. pose proof (fold_process_lookup records owners (walk (all_records records)) aggregates statuses i Hfirst) as Hl.
  unfold all_records in Hl. rewrite E in Hl. destruct Hl as [H1 H2]. cbn [fst snd] in H1, H2.
  rewrite lookup_zip_with, lookup_zip_with, list_lookup_imap, lookup_zip_with, H1, H2, Hst. unfold aggregates.
  rewrite list_lookup_fmap.
  destruct (roots !! i) as [root|] eqn:Ei; [|done]. cbn. unfold session_of, final_status, status_of. f_equal. f_equal.
  - change no_counters with (total []). rewrite fold_total. cbn [app].
    destruct (is_owner roots i root) eqn:Eo.
    + apply total_proper. by rewrite (filter_perm _ _ _ (Hw (map snd (map_to_list records)))).
    + rewrite filter_none; [done|]. intros r Hr. apply not_true_iff_false. intros Hs%of_session_spec. apply Hfirst in Hs.
      rewrite Hst, Ei in Hs. cbn in Hs. by rewrite Eo in Hs.
  - rewrite (existsb_perm _ _ _ (Hw (map snd (map_to_list records)))). change (map snd (map_to_list records)) with (all_records records).
    set (some := existsb _ (all_records records)).
    destruct (records !! root_pid root) eqn:Er; [|by rewrite orb_true_r]. rewrite orb_false_r.
    destruct (is_owner roots i root) eqn:Eo; cbn [negb].
    + destruct some, global_partial; cbn; repeat case_bool_decide; done.
    + destruct some eqn:Ex; unfold some in Ex.
      * apply existsb_exists in Ex as (r & _ & [Hs%of_session_spec _]%andb_true_iff). apply Hfirst in Hs.
        rewrite Hst, Ei in Hs. cbn in Hs. by rewrite Eo in Hs.
      * case_bool_decide; [done|]. by rewrite andb_false_r.
Qed.
End Totals.

(** ** The process tree *)

Module Tree.
Import ClientMessages ProcessInfo.

(** The root, or a child of a process that is shown before it. *)
Definition rooted (root_pid : N) (nodes : list ProcessTreeNode) (i : nat) (n : ProcessTreeNode) : Prop :=
  (i = 0%nat /\ node_pid n = root_pid /\ parent_pid n = 0 /\ depth n = 0) \/
  exists j m, (j < i)%nat /\ nodes !! j = Some m /\ parent_pid n = node_pid m /\ depth n = depth m + 1.

Definition tree_ok (root_pid : N) (nodes : list ProcessTreeNode) : Prop :=
  forall i n, nodes !! i = Some n -> depth n <= MAX_DEPTH /\ rooted root_pid nodes i n.

(** A place in the queue: a child of a node, or the root, before any node. *)
Definition queued (root_pid : N) (nodes : list ProcessTreeNode) (q : N * N * N) : Prop :=
  q.2 <= MAX_DEPTH /\
  ((nodes = [] /\ q = (root_pid, 0, 0)) \/ exists j m, nodes !! j = Some m /\ q.1.2 = node_pid m /\ q.2 = depth m + 1).

Section tree.
Context (proc : nat -> N -> Files) (root_pid : N).

Lemma queued_snoc nodes n q : nodes <> [] -> queued root_pid nodes q -> queued root_pid (nodes ++ [n]) q.
Proof.
  intros Hne (Hd & [[-> _]|(j & m & Hj & H1 & H2)]); [done|]. split; [done|]. right. exists j, m. split_and!; [|done|done]. by apply lookup_app_l_Some.
Qed.
Lemma queued_node nodes q files id name : tree_ok root_pid nodes -> queued root_pid nodes q -> q.1.1 = id ->
  tree_ok root_pid (nodes ++ [node_at id q.1.2 q.2 name files]).
Proof.
  intros Ht (Hd & Hq) <- i n [Hi|[Hi Hn]]%lookup_app_Some.
  - destruct (Ht i n Hi) as [Hn Hr]. split; [done|]. destruct Hr as [Hr|(j & m & Hj & Hm & H1 & H2)]; [by left|].
    right. exists j, m. split_and!; try done. by apply lookup_app_l_Some.
  - apply list_lookup_singleton_Some in Hn as [Hi' <-]. cbn. split; [done|]. destruct Hq as [[-> ->]|(j & m & Hm & H1 & H2)].
    + left. cbn in *. split_and!; [lia|done..].
    + right. exists j, m. split_and!; [|by apply lookup_app_l_Some|done|done]. apply lookup_lt_Some in Hm. lia.
Qed.

Lemma tree_loop_ok room : forall turn queue nodes,
  Forall (queued root_pid nodes) queue -> (nodes = [] -> (length queue <= 1)%nat) -> tree_ok root_pid nodes ->
  tree_ok root_pid (tree_loop proc room turn queue nodes) /\ (length (tree_loop proc room turn queue nodes) <= length nodes + room)%nat.
Proof.
  induction room as [|room IH]; intros turn queue nodes Hq Hl Ht; [destruct queue as [|[[id parent] d] queue]; cbn; split; done || lia|].
  revert turn Hq Hl. induction queue as [|[[id parent] d] queue IHq]; intros turn Hq Hl; [cbn; split; [done|lia]|].
  cbn [tree_loop]. apply Forall_cons in Hq as [Hd Hq]. destruct (N.ltb_spec MAX_DEPTH d) as [Hlt|Hge]; [split; [done|lia]|].
  destruct (read_to_string _) as [name|].
  2: { apply IHq; [done|]. intros E. specialize (Hl E). cbn in Hl. lia. }
  set (node := node_at id parent d name (proc turn id)).
  assert (Hqueue : Forall (queued root_pid (nodes ++ [node])) queue).
  { destruct nodes as [|n nodes]; [specialize (Hl eq_refl); destruct queue; [done|cbn in Hl; lia]|].
    eapply Forall_impl; [exact Hq|]. intros q. by apply queued_snoc. }
  assert (Hnode : tree_ok root_pid (nodes ++ [node])) by exact (queued_node nodes (id, parent, d) _ _ _ Ht Hd eq_refl).
  assert (Hnext : forall queue', Forall (queued root_pid (nodes ++ [node])) queue' ->
    tree_ok root_pid (tree_loop proc room (S turn) queue' (nodes ++ [node])) /\
    (length (tree_loop proc room (S turn) queue' (nodes ++ [node])) <= length nodes + S room)%nat).
  { intros queue' Hq'. destruct (IH (S turn) queue' (nodes ++ [node])) as [H1 H2]; [done|by destruct nodes|done|].
    split; [done|]. rewrite length_app in H2. cbn in H2. lia. }
  destruct (N.eqb_spec d MAX_DEPTH); [by apply Hnext|]. apply Hnext, Forall_app. split; [done|].
  apply Forall_map, Forall_forall. intros child _. cbn. split; [cbn; unfold MAX_DEPTH in *; lia|]. right.
  exists (length nodes), node. split_and!; [|done|done]. by apply list_lookup_middle.
Qed.
End tree.

(** The process tree that a client is shown has at most 64 nodes, none of
    them deeper than 8; the first is the process that was asked for, and every
    other one follows its parent, one level deeper. *)
Theorem process_tree_rooted proc root_pid :
  (length (process_tree_pid proc root_pid) <= MAX_NODES)%nat /\ tree_ok root_pid (process_tree_pid proc root_pid).
Proof.
  unfold process_tree_pid. destruct (tree_loop_ok proc root_pid MAX_NODES 0 [(root_pid, 0, 0)] []) as [H1 H2].
  - apply Forall_singleton. split; [done|]. by left.
  - intros _. cbn. lia.
  - intros i n Hi. done.
  - cbn [length Nat.add] in H2. done.
Qed.
End Tree.

(** ** Examples *)

Module ProcExamples.
Import ProcText ProcFs.
Import Text(newline).

Definition fields_of (parent user system pages : N) : list str :=
  [lit "S"; Daemon.decimal parent] ++ repeat (lit "-1") 9 ++ [Daemon.decimal user; Daemon.decimal system] ++ repeat (lit "0") 8 ++ [Daemon.decimal pages; lit "7"].

Lemma parse_stat_line_witness :
  parse_stat (StatLine.stat_line 42 (lit "sh) (x) S 1") (fields_of 7 10 20 3)) 4096 = Some (mkProcess 42 7 (mkCounters 10 20 12 0 0 1)).
Proof.
  apply (StatLine.parse_stat_line 4096 42 (lit "sh) (x) S 1") (fields_of 7 10 20 3) 7 10 20 3); try (vm_compute; reflexivity || discriminate).
  repeat constructor; (vm_compute; reflexivity || discriminate).
Defined.

(** A shell (10) with two children, one of which could not be asked for its
    I/O; a process of nobody (20); a cycle (30, 31); and two sessions that
    name the same root. *)
Definition stat_of (id parent : N) : str := StatLine.stat_line id (lit "name") (fields_of parent id 1 1).
Definition parents : gmap N N := list_to_map [(1, 0); (10, 1); (11, 10); (12, 11); (20, 1); (30, 31); (31, 30)].
Definition sample_io : str := lit "rchar: 1
read_bytes: 5
write_bytes: 6
cancelled_write_bytes: 0".
Definition sample_source : Source :=
  mkSource (fun _ id => stat_of id <$> parents !! id) (fun _ id => if id =? 12 then None else Some sample_io) (fun _ => false).
Definition sample_roots : list SessionRoot := [mkRoot 1 10 (Some 10) true; mkRoot 2 30 None false; mkRoot 3 10 None false; mkRoot 4 99 None false].
Definition sample_snapshot (walk : list ProcessRecord -> list ProcessRecord) : ProcSnapshot :=
  collect_procfs_until sample_source (list_pids (Some (map (fun id => Some (Daemon.decimal id)) [31; 1; 12; 30; 20; 11; 10] ++ [Some (lit "self")])) 100)
    walk 20 sample_roots 4096.

Example sample_collected : sample_snapshot reverse = mkSnapshot Partial (Some (mkCounters 20 1 4 5 6 1))
  [mkRawSession 1 (mkCounters 33 3 12 10 12 3) (Some 10) true CollectionPartial;
   mkRawSession 2 (mkCounters 61 2 8 10 12 2) None false CollectionComplete;
   mkRawSession 3 no_counters None false CollectionUnavailable; mkRawSession 4 no_counters None false CollectionUnavailable] false.
Proof. vm_compute. reflexivity. Qed.

Definition sample_records : gmap N ProcessRecord := (read_processes sample_source 4096 0 [1; 10; 11; 12; 20; 30; 31] ∅ false).1.1.
Lemma summarize_exact_witness : exists counted,
  (forall i r, counted i r = true <-> Totals.belongs sample_roots sample_records (pid (process r)) i) /\
  sessions (summarize reverse 20 sample_roots sample_records false false)
    = imap (Totals.session_of sample_roots sample_records counted false) sample_roots.
Proof.
  apply (Totals.summarize_exact reverse 20 sample_roots sample_records false false). intros l. apply reverse_Permutation.
Defined.

Definition sample_proc (turn : nat) (id : N) : ProcessInfo.Files :=
  if 200 <? id then ProcessInfo.mkFiles None None None
  else ProcessInfo.mkFiles (Some (lit "p" ++ [newline])) (Some (lit "run" ++ [byte_of 0] ++ lit "x" ++ [byte_of 0]))
    (Some (Daemon.decimal (2 * id) ++ lit " " ++ Daemon.decimal (2 * id + 1))).
Example sample_tree : map (fun n => (ClientMessages.node_pid n, ClientMessages.parent_pid n, ClientMessages.depth n, ClientMessages.command n))
    (takeN 4 (ProcessInfo.process_tree_pid sample_proc 1))
  = [(1, 0, 0, lit "run x"); (2, 1, 1, lit "run x"); (3, 1, 1, lit "run x"); (4, 2, 2, lit "run x")]
  /\ length (ProcessInfo.process_tree_pid sample_proc 1) = 64%nat.
Proof. vm_compute. split; reflexivity. Qed.
End ProcExamples.
