(* ===== verification/CommandLine.v ===== *)
(** * CommandLine: what the user types, and what a failure tells him.

    Models [crates/persist-core/src/error.rs] (codes, kinds, exit codes and the
    text of an error), [crates/persist-cli/src/command.rs] (the commands and the
    parser of the arguments) and the parts of [cli.rs] that choose what a command
    needs.  The text of a floating-point number stands for its value: no
    command uses it. *)
From S2P Require Import Prelude Bytes Utf8 Daemon Text.
From Stdlib Require Import Lia.
Import String.StringSyntax.
Local Open Scope N_scope.

(** ** Errors: persist-core/src/error.rs *)

Module Errors.

Inductive ErrorCode : Type :=
| CodeInvalidArgument | CodeUnknownCommand | CodeConfigParse | CodeConfigRead | CodeConfigInvalid | CodeMissingEnvironment
| CodeUnsupportedEnvironment | CodeDaemonNotRunning | CodeDaemonAlreadyRunning | CodeSocketPermission | CodeSocketMissing
| CodeSessionNotFound | CodeSessionBusy | CodePtyOpenFailed | CodeForkFailed | CodeExecFailed | CodeIoctlFailed
| CodeMetadataOpenFailed | CodeMetadataCorrupt | CodeProtocolVersion | CodeInvalidFrame | CodeRequestTimeout | CodeLogConfig
| CodeLogInit | CodeLoggerState | CodeLogWrite | CodeInternal | CodeNotImplemented | CodeIo.
#[export] Instance ErrorCode_eq_dec : EqDecision ErrorCode. Proof. solve_decision. Defined.

Definition code_str (c : ErrorCode) : str := lit
  match c with
  | CodeInvalidArgument => "E_INVALID_ARGUMENT"
  | CodeUnknownCommand => "E_UNKNOWN_COMMAND"
  | CodeConfigParse => "E_CONFIG_PARSE"
  | CodeConfigRead => "E_CONFIG_READ"
  | CodeConfigInvalid => "E_CONFIG_INVALID"
  | CodeMissingEnvironment => "E_MISSING_ENVIRONMENT"
  | CodeUnsupportedEnvironment => "E_UNSUPPORTED_ENVIRONMENT"
  | CodeDaemonNotRunning => "E_DAEMON_NOT_RUNNING"
  | CodeDaemonAlreadyRunning => "E_DAEMON_ALREADY_RUNNING"
  | CodeSocketPermission => "E_SOCKET_PERMISSION"
  | CodeSocketMissing => "E_SOCKET_MISSING"
  | CodeSessionNotFound => "E_SESSION_NOT_FOUND"
  | CodeSessionBusy => "E_SESSION_BUSY"
  | CodePtyOpenFailed => "E_PTY_OPEN_FAILED"
  | CodeForkFailed => "E_FORK_FAILED"
  | CodeExecFailed => "E_EXEC_FAILED"
  | CodeIoctlFailed => "E_IOCTL_FAILED"
  | CodeMetadataOpenFailed => "E_METADATA_OPEN_FAILED"
  | CodeMetadataCorrupt => "E_METADATA_CORRUPT"
  | CodeProtocolVersion => "E_PROTOCOL_VERSION"
  | CodeInvalidFrame => "E_INVALID_FRAME"
  | CodeRequestTimeout => "E_REQUEST_TIMEOUT"
  | CodeLogConfig => "E_LOG_CONFIG"
  | CodeLogInit => "E_LOG_INIT"
  | CodeLoggerState => "E_LOGGER_STATE"
  | CodeLogWrite => "E_LOG_WRITE"
  | CodeInternal => "E_INTERNAL"
  | CodeNotImplemented => "E_NOT_IMPLEMENTED"
  | CodeIo => "E_IO"
  end.

Definition description (c : ErrorCode) : str := lit
  match c with
  | CodeInvalidArgument => "invalid command-line argument or input"
  | CodeUnknownCommand => "unrecognized persist command"
  | CodeConfigParse => "failed to parse configuration file"
  | CodeConfigRead => "failed to read configuration file"
  | CodeConfigInvalid => "configuration validation failed"
  | CodeMissingEnvironment => "required environment variable is not set"
  | CodeUnsupportedEnvironment => "unsupported operating environment"
  | CodeDaemonNotRunning => "PersistShell daemon is not running"
  | CodeDaemonAlreadyRunning => "PersistShell daemon is already running"
  | CodeSocketPermission => "Unix socket permission denied"
  | CodeSocketMissing => "Unix socket does not exist"
  | CodeSessionNotFound => "specified session was not found"
  | CodeSessionBusy => "session is currently busy"
  | CodePtyOpenFailed => "failed to open pseudo-terminal"
  | CodeForkFailed => "process fork failed"
  | CodeExecFailed => "failed to execute shell process"
  | CodeIoctlFailed => "terminal ioctl operation failed"
  | CodeMetadataOpenFailed => "failed to open metadata store"
  | CodeMetadataCorrupt => "metadata store is corrupted"
  | CodeProtocolVersion => "protocol version mismatch between client and daemon"
  | CodeInvalidFrame => "received an invalid protocol frame"
  | CodeRequestTimeout => "request timed out"
  | CodeLogConfig => "logging configuration error"
  | CodeLogInit => "failed to initialize log file"
  | CodeLoggerState => "internal logger state is unavailable"
  | CodeLogWrite => "failed to write to log file"
  | CodeInternal => "internal error, please report this as a bug"
  | CodeNotImplemented => "feature is not yet implemented"
  | CodeIo => "input/output operation failed"
  end.

Inductive ErrorKind : Type := UserError | EnvironmentError | SyscallError | ProtocolError | KindInternalError.
#[export] Instance ErrorKind_eq_dec : EqDecision ErrorKind. Proof. solve_decision. Defined.

Definition kind_exit_code (k : ErrorKind) : N :=
  match k with UserError => 1 | EnvironmentError => 2 | SyscallError => 3 | ProtocolError => 4 | KindInternalError => 5 end.

(** [source] is the text of the error of the system. *)
Inductive PersistError : Type :=
| ConfigParse (path message : str)
| ConfigRead (path source : str)
| ConfigValidation (message : str)
| InvalidArgument (message : str)
| LogConfig (message : str)
| LogInit (path source : str)
| LoggerState (message : str)
| LogWrite (path source : str)
| MissingEnvironment (name : str)
| NotImplemented (feature : str)
| DaemonNotRunning
| DaemonAlreadyRunning
| MetadataOpen (path message : str)
| MetadataOperation (operation message : str)
| Internal (message : str)
| Io (operation source : str).

Definition code (e : PersistError) : ErrorCode :=
  match e with
  | ConfigParse _ _ => CodeConfigParse
  | ConfigRead _ _ => CodeConfigRead
  | ConfigValidation _ => CodeConfigInvalid
  | InvalidArgument _ => CodeInvalidArgument
  | LogConfig _ => CodeLogConfig
  | LogInit _ _ => CodeLogInit
  | LoggerState _ => CodeLoggerState
  | LogWrite _ _ => CodeLogWrite
  | MissingEnvironment _ => CodeMissingEnvironment
  | NotImplemented _ => CodeNotImplemented
  | DaemonNotRunning => CodeDaemonNotRunning
  | DaemonAlreadyRunning => CodeDaemonAlreadyRunning
  | MetadataOpen _ _ => CodeMetadataOpenFailed
  | MetadataOperation _ _ => CodeIo
  | Internal _ => CodeInternal
  | Io _ _ => CodeIo
  end.

Definition kind (e : PersistError) : ErrorKind :=
  match e with
  | InvalidArgument _ | ConfigValidation _ => UserError
  | MissingEnvironment _ | ConfigParse _ _ | ConfigRead _ _ => EnvironmentError
  | Io _ _ | MetadataOperation _ _ => SyscallError
  | MetadataOpen _ _ => EnvironmentError
  | LogInit _ _ | LogWrite _ _ => EnvironmentError
  | LogConfig _ | LoggerState _ => KindInternalError
  | DaemonNotRunning => EnvironmentError
  | DaemonAlreadyRunning => EnvironmentError
  | NotImplemented _ => KindInternalError
  | Internal _ => KindInternalError
  end.

Definition exit_code (e : PersistError) : N := kind_exit_code (kind e).

Definition suggestion (e : PersistError) : option str :=
  match e with
  | ConfigParse _ _ | ConfigValidation _ => Some (lit "请检查配置文件格式，或执行 persist doctor 诊断")
  | ConfigRead _ _ => Some (lit "请检查配置文件的读取权限，或执行 persist doctor 诊断")
  | InvalidArgument _ => Some (lit "执行 persist help 查看命令用法")
  | MissingEnvironment _ => Some (lit "请确保所需环境变量已正确设置，或执行 persist doctor 诊断")
  | Io _ _ | LogInit _ _ | LogWrite _ _ => Some (lit "请检查文件系统和权限，或执行 persist doctor 诊断")
  | DaemonNotRunning => Some (lit "执行 persist daemon start 启动 daemon")
  | DaemonAlreadyRunning => Some (lit "daemon 已在运行中")
  | LogConfig _ | LoggerState _ | Internal _ | MetadataOpen _ _ | MetadataOperation _ _ => None
  | NotImplemented _ => Some (lit "该功能将在后续版本中实现")
  end.

(** [Display] *)
Definition to_string (e : PersistError) : str :=
  match e with
  | ConfigParse path message => lit "config parse error in " ++ path ++ lit ": " ++ message
  | ConfigRead path source => lit "failed to read config file " ++ path ++ lit ": " ++ source
  | ConfigValidation message => lit "config validation error: " ++ message
  | InvalidArgument message => lit "invalid argument: " ++ message
  | LogConfig message => lit "logging configuration error: " ++ message
  | LogInit path source => lit "failed to initialize log file " ++ path ++ lit ": " ++ source
  | LoggerState message => lit "logger state error: " ++ message
  | LogWrite path source => lit "failed to write log file " ++ path ++ lit ": " ++ source
  | MissingEnvironment name => lit "required environment variable is not set: " ++ name
  | NotImplemented feature => feature ++ lit " is not implemented in this milestone"
  | DaemonNotRunning => lit "daemon is not running"
  | DaemonAlreadyRunning => lit "daemon is already running"
  | Internal message => lit "internal error: " ++ message
  | Io operation source => operation ++ lit " failed: " ++ source
  | MetadataOpen path message => lit "failed to open metadata store at " ++ path ++ lit ": " ++ message
  | MetadataOperation operation message => operation ++ lit " failed: " ++ message
  end.

Definition newline : byte := byte_of 10.

Definition user_facing (app : str) (e : PersistError) : str :=
  app ++ lit ": " ++ code_str (code e) ++ lit " [" ++ to_string e ++ lit "]" ++
  match suggestion e with Some s => newline :: lit "建议: " ++ s | None => [] end ++
  (if bool_decide (kind e = KindInternalError)
   then newline :: lit "请报告此问题: https://github.com/SuPerCxyz/persistshell/issues" else []).

(** *** What an error shows *)

Definition all_codes : list ErrorCode :=
  [CodeInvalidArgument; CodeUnknownCommand; CodeConfigParse; CodeConfigRead; CodeConfigInvalid; CodeMissingEnvironment;
   CodeUnsupportedEnvironment; CodeDaemonNotRunning; CodeDaemonAlreadyRunning; CodeSocketPermission; CodeSocketMissing;
   CodeSessionNotFound; CodeSessionBusy; CodePtyOpenFailed; CodeForkFailed; CodeExecFailed; CodeIoctlFailed;
   CodeMetadataOpenFailed; CodeMetadataCorrupt; CodeProtocolVersion; CodeInvalidFrame; CodeRequestTimeout; CodeLogConfig;
   CodeLogInit; CodeLoggerState; CodeLogWrite; CodeInternal; CodeNotImplemented; CodeIo].

Lemma code_str_inj c c' : code_str c = code_str c' -> c = c'.
Proof.
  assert (Hd : forall c, list_find (fun c' => code_str c' = code_str c) all_codes = Some (default O (fst <$> list_find (eq c) all_codes), c))
    by (intros []; reflexivity).
  intros E. pose proof (Hd c) as H. rewrite E, Hd in H. by injection H.
Qed.

Definition space : byte := byte_of 32.
Lemma code_str_no_space c : space ∉ code_str c.
Proof. destruct c; by apply (bool_decide_unpack _). Qed.

Lemma until_space l r l' r' : space ∉ l -> space ∉ l' -> l ++ space :: r = l' ++ space :: r' -> l = l'.
Proof.
  revert l'. induction l as [|b l IH]; intros [|b' l'] H H'; cbn [app]; [done| | |]; intros E; injection E.
  - intros _ Hb. destruct H'. rewrite <- Hb. constructor.
  - intros _ Hb. destruct H. rewrite Hb. constructor.
  - intros E' ->. f_equal. apply (IH l'); [..|done]; intros Hin; [destruct H|destruct H']; by constructor.
Qed.

(** The text of a failure identifies it: two errors that are shown alike
    have the same code, and the process ends with the same exit code. *)
Theorem user_facing_identifies program e e' : user_facing program e = user_facing program e' -> code e = code e' /\ exit_code e = exit_code e'.
Proof.
  unfold user_facing. intros E%app_inv_head%app_inv_head. change (lit " [") with (space :: lit "[") in E. cbn [app] in E.
  apply until_space in E; [|apply code_str_no_space..]. apply code_str_inj in E. split; [done|].
  destruct e, e'; (discriminate E || reflexivity).
Qed.
End Errors.

(** ** Commands: persist-cli/src/command.rs *)

Module Command.
Import Errors.

Inductive Command : Type :=
| Help
| Version
| Doctor
| Config
| Daemon (action : option str)
| Attach (session_id : option N) (readonly : bool)
| New
| List (session_id : option N) (tag_filter : option str) (plain : bool)
| HistoryAppend (session_id : N) (shell : str)
| ShellStateCommit
| BenchmarkAttach (session_id : N)
| ProcessTree (session_id : N)
| ProcessStats (session_id : N)
| Snapshot (session_id : N)
| Metrics
| Top
| Close (session_id : N)
| Kill (session_id : N)
| Log (session_id : N)
| LogSearch (keyword : str) (session_id : option N) (case_insensitive : bool)
| LogExport (session_id : N) (output_path : option str)
| Rename (session_id : N) (name : str)
| Note (session_id : N) (text : option str)
| Tag (session_id : N) (action : str) (tag : option str)
| Detach (session_id : N)
| Install
| Uninstall (purge : bool)
| Pin (session_id : N) (pinned : bool)
| Lock (session_id : N) (locked : bool)
| Replay (session_id : N) (tail head : option N) (speed : option str) (follow : bool).

Definition invalid {A} (message : str) : result PersistError A := Err (InvalidArgument message).
Definition usage {A} (s : String.string) : result PersistError A := invalid (lit s).
Arguments usage {A} s%_string.

(** The argument is one of these words. *)
Definition is_word (arg : str) (words : list String.string) : bool := existsb (fun w => bool_decide (arg = lit w)) words.
Arguments is_word arg words%_string.

Definition parse_id (arg : str) : option N := Text.parse_unsigned u32_max arg.
Definition parse_size (arg : str) : option N := Text.parse_unsigned u64_max arg.

(** [args.get(1).and_then(|s| s.parse().ok()).ok_or_else(|| ..)] *)
Definition required_id {A} (message : String.string) (args : list str) (k : N -> result PersistError A) : result PersistError A :=
  match args with
  | arg :: _ => match parse_id arg with Some id => k id | None => usage message end
  | [] => usage message
  end.
Arguments required_id {A} message%_string args k.

(** *** Floating-point numbers

    [str::parse::<f64>]: an optional sign, then [inf], [infinity] or [nan] in
    any case, or digits with at most one point and an optional exponent. *)

Fixpoint skip_digits (s : str) : str :=
  match s with b :: s' => if is_ascii_digit b then skip_digits s' else s | [] => [] end.
Definition skip_sign (s : str) : str :=
  match s with b :: s' => if (byte_val b =? 43) || (byte_val b =? 45) then s' else s | [] => [] end.

Definition is_exponent (s : str) : bool :=
  match s with
  | [] => true
  | b :: s' =>
      ((byte_val b =? 101) || (byte_val b =? 69)) &&
      (let digits := skip_sign s' in negb (bool_decide (digits = [])) && bool_decide (skip_digits digits = []))
  end.

Definition is_number (s : str) : bool :=
  let rest := skip_digits s in
  let whole := negb (bool_decide (rest = s)) in
  match rest with
  | b :: rest' =>
      if byte_val b =? 46
      then let rest'' := skip_digits rest' in (whole || negb (bool_decide (rest'' = rest'))) && is_exponent rest''
      else whole && is_exponent rest
  | [] => whole
  end.

Definition is_f64 (s : str) : bool :=
  let unsigned := skip_sign s in
  is_word (Text.to_ascii_lowercase unsigned) ["inf"; "infinity"; "nan"] || is_number unsigned.

Definition parse_f64 (s : str) : option str := if is_f64 s then Some s else None.

(** *** The arguments of each command *)

Fixpoint parse_attach (args : list str) (id : option N) (readonly : bool) : result PersistError Command :=
  match args with
  | [] => Ok (Attach id readonly)
  | arg :: args' =>
      if is_word arg ["-r"; "--readonly"] then parse_attach args' id true
      else
        match id with
        | None => parse_attach args' (parse_id arg) readonly
        | Some _ => invalid (lit "unexpected argument for attach: " ++ arg)
        end
  end.

Fixpoint parse_list (args : list str) (session_id : option N) (tag_filter : option str) (plain : bool) : result PersistError Command :=
  match args with
  | [] =>
      if bool_decide (is_Some session_id) && (bool_decide (is_Some tag_filter) || plain)
      then usage "persist ls <id> cannot be combined with --tag or --plain"
      else Ok (List session_id tag_filter plain)
  | arg :: args' =>
      if is_word arg ["--plain"] then parse_list args' session_id tag_filter true
      else if is_word arg ["--tag"; "-t"] then
        match args' with
        | tag :: args'' => parse_list args'' session_id (Some tag) plain
        | [] => usage "--tag requires a value"
        end
      else
        match session_id with
        | None =>
            match parse_id arg with
            | Some id => parse_list args' (Some id) tag_filter plain
            | None => invalid (lit "invalid session_id: " ++ arg)
            end
        | Some _ => invalid (lit "unexpected argument for ls: " ++ arg)
        end
  end.
Definition parse_list_command (args : list str) : result PersistError Command := parse_list args None None false.

Definition parse_config_command (args : list str) : result PersistError Command :=
  match args with
  | [] => Ok Config
  | action :: rest =>
      if is_word action ["show"] then
        match rest with [] => Ok Config | extra :: _ => invalid (lit "unexpected argument for persist config show: " ++ extra) end
      else invalid (lit "unknown persist config command: " ++ action)
  end.

Fixpoint parse_search (args : list str) (keyword : str) (session_id : option N) (case_insensitive : bool) : result PersistError Command :=
  match args with
  | [] => Ok (LogSearch keyword session_id case_insensitive)
  | arg :: args' =>
      if is_word arg ["--session"; "-s"] then
        match args' with
        | [] => usage "--session requires a value"
        | val :: args'' =>
            match parse_id val with
            | Some id => parse_search args'' keyword (Some id) case_insensitive
            | None => invalid (lit "invalid session_id: " ++ val)
            end
        end
      else if is_word arg ["-i"; "--ignore-case"] then parse_search args' keyword session_id true
      else invalid (lit "unexpected argument for log search: " ++ arg)
  end.

Definition parse_export (args : list str) : result PersistError Command :=
  required_id "usage: persist log export <session_id> [--output <path>]" args (fun id =>
    match tail args with
    | [] => Ok (LogExport id None)
    | other :: rest =>
        match rest with
        | [path] => if is_word other ["--output"; "-o"] then Ok (LogExport id (Some path))
                    else invalid (lit "unexpected argument for log export: " ++ other)
        | _ => invalid (lit "unexpected argument for log export: " ++ other)
        end
    end).

Definition parse_log (args : list str) : result PersistError Command :=
  match args with
  | arg :: args' =>
      if is_word arg ["export"] then parse_export args'
      else if is_word arg ["search"] then
        match args' with
        | keyword :: args'' => parse_search args'' keyword None false
        | [] => usage "usage: persist log search <keyword> [--session <id>] [-i]"
        end
      else required_id "usage: persist log <session_id>" args (fun id => Ok (Log id))
  | [] => usage "usage: persist log <session_id>"
  end.

Fixpoint parse_replay (args : list str) (id : N) (tail head : option N) (speed : option str) (follow : bool) : result PersistError Command :=
  match args with
  | [] => Ok (Replay id tail head speed follow)
  | arg :: args' =>
      if is_word arg ["--tail"; "-t"] then
        match args' with
        | [] => usage "--tail requires a number"
        | val :: args'' =>
            match parse_size val with
            | Some n => parse_replay args'' id (Some n) head speed follow
            | None => invalid (lit "invalid number: " ++ val)
            end
        end
      else if is_word arg ["--head"; "-h"] then
        match args' with
        | [] => usage "--head requires a number"
        | val :: args'' =>
            match parse_size val with
            | Some n => parse_replay args'' id tail (Some n) speed follow
            | None => invalid (lit "invalid number: " ++ val)
            end
        end
      else if is_word arg ["--speed"; "-s"] then
        match args' with
        | [] => usage "--speed requires a factor"
        | val :: args'' =>
            match parse_f64 val with
            | Some f => parse_replay args'' id tail head (Some f) follow
            | None => invalid (lit "invalid speed factor: " ++ val)
            end
        end
      else if is_word arg ["--follow"; "-f"] then parse_replay args' id tail head speed true
      else invalid (lit "unexpected argument for replay: " ++ arg)
  end.

Definition replay_usage : String.string :=
  "usage: persist replay <session_id> [--tail <n>] [--head <n>] [--speed <f>] [--follow]".

Definition parse_rename (args : list str) : result PersistError Command :=
  match args with
  | id :: name :: _ =>
      match parse_id id with Some id => Ok (Rename id name) | None => invalid (lit "invalid session_id: " ++ id) end
  | _ => usage "usage: persist rename <session_id> <name>"
  end.

Definition parse_history_append (args : list str) : result PersistError Command :=
  required_id "usage: persist __history-append <session_id> <shell>" args (fun id =>
    match tail args with
    | [] => usage "usage: persist __history-append <session_id> <shell>"
    | [shell] => if is_word shell ["bash"; "zsh"; "fish"] then Ok (HistoryAppend id shell)
                 else usage "usage: persist __history-append <session_id> <bash|zsh|fish>"
    | _ => usage "usage: persist __history-append <session_id> <bash|zsh|fish>"
    end).

Definition parse_tag (args : list str) : result PersistError Command :=
  required_id "usage: persist tag <session_id> <add|remove|list> [<tag>]" args (fun id =>
    match tail args with
    | [] => usage "usage: persist tag <session_id> <add|remove|list> [<tag>]"
    | action :: rest =>
        if is_word action ["add"; "remove"] then
          match rest with
          | [] => invalid (lit "usage: persist tag <session_id> " ++ action ++ lit " <tag>")
          | tag :: _ => Ok (Tag id action (Some tag))
          end
        else if is_word action ["list"] then Ok (Tag id action (head rest))
        else invalid (lit "unknown tag action: " ++ action)
    end).

(** [args] does not have the name of the program. *)
Definition parse_command (args : list str) : result PersistError Command :=
  match args with
  | [] => Ok Help
  | name :: rest =>
      let only word command := match rest with [] => Ok command | _ => usage word end in
      if is_word name ["-h"; "--help"; "help"] then Ok Help
      else if is_word name ["-V"; "--version"; "version"] then Ok Version
      else if is_word name ["doctor"] then Ok Doctor
      else if is_word name ["config"] then parse_config_command rest
      else if is_word name ["daemon"] then Ok (Daemon (head rest))
      else if is_word name ["new"] then Ok New
      else if is_word name ["__history-append"] then parse_history_append rest
      else if is_word name ["__state-commit"] then only "usage: persist __state-commit"%string ShellStateCommit
      else if is_word name ["__benchmark-attach"] then
        match rest with
        | [_] => required_id "usage: persist __benchmark-attach <session_id>" rest (fun id => Ok (BenchmarkAttach id))
        | _ => usage "usage: persist __benchmark-attach <session_id>"
        end
      else if is_word name ["ls"] then parse_list_command rest
      else if is_word name ["ps"] then required_id "usage: persist ps <session_id>" rest (fun id => Ok (ProcessTree id))
      else if is_word name ["stats"] then required_id "usage: persist stats <session_id>" rest (fun id => Ok (ProcessStats id))
      else if is_word name ["snapshot"] then required_id "usage: persist snapshot <session_id>" rest (fun id => Ok (Snapshot id))
      else if is_word name ["metrics"] then Ok Metrics
      else if is_word name ["top"] then only "usage: persist top"%string Top
      else if is_word name ["attach"] then parse_attach rest None false
      else if is_word name ["close"] then required_id "usage: persist close <session_id>" rest (fun id => Ok (Close id))
      else if is_word name ["kill"] then required_id "usage: persist kill <session_id>" rest (fun id => Ok (Kill id))
      else if is_word name ["log"] then parse_log rest
      else if is_word name ["replay"] then required_id replay_usage rest (fun id => parse_replay (tail rest) id None None None false)
      else if is_word name ["rename"] then parse_rename rest
      else if is_word name ["install"] then Ok Install
      else if is_word name ["uninstall"] then Ok (Uninstall (match rest with arg :: _ => is_word arg ["--purge"] | [] => false end))
      else if is_word name ["detach"] then required_id "usage: persist detach <session_id>" rest (fun id => Ok (Detach id))
      else if is_word name ["pin"] then required_id "usage: persist pin <session_id>" rest (fun id => Ok (Pin id true))
      else if is_word name ["unpin"] then required_id "usage: persist unpin <session_id>" rest (fun id => Ok (Pin id false))
      else if is_word name ["lock"; "unlock"] then
        required_id "usage: persist lock|unlock <session_id>" rest (fun id => Ok (Lock id (is_word name ["lock"])))
      else if is_word name ["note"] then
        required_id "usage: persist note <session_id> [<text>]" rest (fun id => Ok (Note id (head (tail rest))))
      else if is_word name ["tag"] then parse_tag rest
      else invalid (lit "unknown persist command: " ++ name)
  end.

(** *** What a command needs: cli.rs *)

Definition command_uses_config (c : Command) : bool :=
  match c with Help | Version | ShellStateCommit => false | _ => true end.

Definition command_log_message (c : Command) : str := lit
  match c with
  | Help => "command=help started"
  | Version => "command=version started"
  | Doctor => "command=doctor started"
  | Config => "command=config started"
  | Daemon _ => "command=daemon started"
  | Attach _ _ => "command=attach started"
  | New => "command=new started"
  | List _ _ _ => "command=ls started"
  | HistoryAppend _ _ => "command=history_append started"
  | ShellStateCommit => "command=shell_state_commit started"
  | BenchmarkAttach _ => "command=benchmark_attach started"
  | ProcessTree _ => "command=ps started"
  | ProcessStats _ => "command=stats started"
  | Snapshot _ => "command=snapshot started"
  | Metrics => "command=metrics started"
  | Top => "command=top started"
  | Close _ => "command=close started"
  | Kill _ => "command=kill started"
  | Log _ => "command=log started"
  | LogSearch _ _ _ => "command=log_search started"
  | Install => "command=install started"
  | Uninstall _ => "command=uninstall started"
  | Rename _ _ => "command=rename started"
  | Detach _ => "command=detach started"
  | Note _ _ => "command=note started"
  | Tag _ _ _ => "command=tag started"
  | Pin _ _ => "command=pin started"
  | Lock _ _ => "command=lock started"
  | LogExport _ _ => "command=log_export started"
  | Replay _ _ _ _ _ => "command=replay started"
  end.

(** ** Canonical forms *)

Definition flag (name : String.string) (b : bool) : list str := if b then [lit name] else [].
Definition valued (name : String.string) (o : option str) : list str := match o with Some v => [lit name; v] | None => [] end.
Definition given (o : option str) : list str := match o with Some v => [v] | None => [] end.
Arguments flag name%_string b.
Arguments valued name%_string o.
Definition number (n : N) : str := Daemon.decimal n.

(** One way to type a command. *)
Definition command_line (c : Command) : list str :=
  match c with
  | Help => [lit "help"]
  | Version => [lit "version"]
  | Doctor => [lit "doctor"]
  | Config => [lit "config"]
  | Daemon action => lit "daemon" :: given action
  | Attach id readonly => lit "attach" :: given (number <$> id) ++ flag "--readonly" readonly
  | New => [lit "new"]
  | List id tag plain => lit "ls" :: given (number <$> id) ++ valued "--tag" tag ++ flag "--plain" plain
  | HistoryAppend id shell => [lit "__history-append"; number id; shell]
  | ShellStateCommit => [lit "__state-commit"]
  | BenchmarkAttach id => [lit "__benchmark-attach"; number id]
  | ProcessTree id => [lit "ps"; number id]
  | ProcessStats id => [lit "stats"; number id]
  | Snapshot id => [lit "snapshot"; number id]
  | Metrics => [lit "metrics"]
  | Top => [lit "top"]
  | Close id => [lit "close"; number id]
  | Kill id => [lit "kill"; number id]
  | Log id => [lit "log"; number id]
  | LogSearch keyword id i => [lit "log"; lit "search"; keyword] ++ valued "--session" (number <$> id) ++ flag "--ignore-case" i
  | LogExport id path => [lit "log"; lit "export"; number id] ++ valued "--output" path
  | Rename id name => [lit "rename"; number id; name]
  | Note id text => [lit "note"; number id] ++ given text
  | Tag id action tag => [lit "tag"; number id; action] ++ given tag
  | Detach id => [lit "detach"; number id]
  | Install => [lit "install"]
  | Uninstall purge => lit "uninstall" :: flag "--purge" purge
  | Pin id pinned => [if pinned then lit "pin" else lit "unpin"; number id]
  | Lock id locked => [if locked then lit "lock" else lit "unlock"; number id]
  | Replay id tail head speed follow =>
      [lit "replay"; number id] ++ valued "--tail" (number <$> tail) ++ valued "--head" (number <$> head) ++
      valued "--speed" speed ++ flag "--follow" follow
  end.

Definition id_ok (id : N) : bool := id <=? u32_max.
Definition optional {A} (f : A -> bool) (o : option A) : bool := match o with Some a => f a | None => true end.

(** What every command that is executed satisfies. *)
Definition well_formed (c : Command) : bool :=
  match c with
  | Help | Version | Doctor | Config | Daemon _ | New | ShellStateCommit | Metrics | Top | Install | Uninstall _ => true
  | Attach id _ => optional id_ok id
  | List id tag plain => optional id_ok id && negb (bool_decide (is_Some id) && (bool_decide (is_Some tag) || plain))
  | HistoryAppend id shell => id_ok id && is_word shell ["bash"; "zsh"; "fish"]
  | BenchmarkAttach id | ProcessTree id | ProcessStats id | Snapshot id | Close id | Kill id | Log id | LogExport id _
  | Rename id _ | Note id _ | Detach id | Pin id _ | Lock id _ => id_ok id
  | LogSearch _ id _ => optional id_ok id
  | Tag id action tag =>
      id_ok id && (is_word action ["add"; "remove"] && bool_decide (is_Some tag) || is_word action ["list"])
  | Replay id tail head speed _ =>
      id_ok id && optional (fun n => n <=? u64_max) tail && optional (fun n => n <=? u64_max) head && optional is_f64 speed
  end.

(** *** The parser accepts well-formed commands only *)

Lemma parse_digits_le max s n : Text.parse_digits max s = Some n -> n <= max.
Proof. unfold Text.parse_digits. destruct (match s with [] => true | _ => _ end); [done|]. destruct (N.ltb_spec max (Text.value_from 0 s)); [done|]. by intros [= <-]. Qed.
Lemma parse_unsigned_le max s n : Text.parse_unsigned max s = Some n -> n <= max.
Proof. destruct s as [|b s]; [done|]. cbn [Text.parse_unsigned]. destruct (byte_val b =? 43); apply parse_digits_le. Qed.
Lemma parse_id_ok s n : parse_id s = Some n -> id_ok n = true.
Proof. intros H%parse_unsigned_le. by apply N.leb_le. Qed.
Lemma parse_size_ok s n : parse_size s = Some n -> (n <=? u64_max) = true.
Proof. intros H%parse_unsigned_le. by apply N.leb_le. Qed.
Lemma parse_f64_ok s f : parse_f64 s = Some f -> is_f64 f = true.
Proof. unfold parse_f64. destruct (is_f64 s) eqn:E; [|done]. by intros [= <-]. Qed.
#[local] Hint Resolve parse_id_ok parse_size_ok parse_f64_ok : core.

(** A result that is a well-formed command, if it is one. *)
Definition accepts (r : result PersistError Command) : Prop := match r with Ok c => well_formed c = true | Err _ => True end.

Lemma accepts_id message args k : (forall id, id_ok id = true -> accepts (k id)) -> accepts (required_id message args k).
Proof. intros Hk. destruct args as [|arg args]; [done|]. cbn. destruct (parse_id arg) eqn:E; [|done]. eauto. Qed.

Lemma accepts_attach args id readonly : optional id_ok id = true -> accepts (parse_attach args id readonly).
Proof.
  revert id readonly. induction args as [|arg args IH]; intros id readonly Hid; [done|]. cbn [parse_attach].
  destruct (is_word arg _); [by apply IH|]. destruct id; [done|]. apply IH. destruct (parse_id arg) eqn:E; [cbn; eauto|done].
Qed.

Lemma accepts_list n : forall args id tag plain, (length args <= n)%nat -> optional id_ok id = true -> accepts (parse_list args id tag plain).
Proof.
  induction n as [|n IH]; intros [|arg args] id tag plain Hn Hid; cbn in Hn; try lia.
  1,2: cbn [parse_list]; destruct (bool_decide (is_Some id) && _) eqn:E; cbn [accepts well_formed]; [done|by rewrite Hid, E].
  cbn [parse_list]. destruct (is_word arg ["--plain"]%string); [apply IH; [lia|done]|].
  destruct (is_word arg _); [destruct args; [done|]; apply IH; [cbn in Hn; lia|done]|].
  destruct id; [done|]. destruct (parse_id arg) eqn:E; [|done]. apply IH; [lia|cbn; eauto].
Qed.

Lemma accepts_search n : forall args keyword id i, (length args <= n)%nat -> optional id_ok id = true -> accepts (parse_search args keyword id i).
Proof.
  induction n as [|n IH]; intros [|arg args] keyword id i Hn Hid; cbn in Hn; try lia; [done..|].
  cbn [parse_search]. destruct (is_word arg _).
  - destruct args as [|val args]; [done|]. destruct (parse_id val) eqn:E; [|done]. apply IH; [cbn in Hn; lia|cbn; eauto].
  - destruct (is_word arg _); [|done]. apply IH; [lia|done].
Qed.

Lemma accepts_replay n : forall args id tail head speed follow, (length args <= n)%nat ->
  well_formed (Replay id tail head speed follow) = true -> accepts (parse_replay args id tail head speed follow).
Proof.
  induction n as [|n IH]; intros [|arg args] id tail head speed follow Hn Hw; cbn in Hn; try lia; [done..|].
  cbn [parse_replay].
  destruct (is_word arg ["--tail"; "-t"]%string); [|destruct (is_word arg ["--head"; "-h"]%string); [|destruct (is_word arg ["--speed"; "-s"]%string)]].
  4: { destruct (is_word arg _); [|done]. apply IH; [lia|done]. }
  all: destruct args as [|val args]; [done|]; cbn [length] in Hn.
  - destruct (parse_size val) eqn:E; [|done]. apply IH; [lia|]. apply parse_size_ok in E. revert Hw. cbn. destruct (id_ok id); [|done].
    rewrite E. by destruct tail as [t|]; cbn; [destruct (t <=? u64_max)|].
  - destruct (parse_size val) eqn:E; [|done]. apply IH; [lia|]. apply parse_size_ok in E. revert Hw. cbn.
    rewrite E. destruct (id_ok id && _); [|done]. by destruct head as [t|]; cbn; [destruct (t <=? u64_max)|].
  - destruct (parse_f64 val) eqn:E; [|done]. apply IH; [lia|]. apply parse_f64_ok in E. revert Hw. cbn. rewrite E.
    destruct (id_ok id && _ && _); [done|]. by cbn.
Qed.

Lemma accepts_tag args : accepts (parse_tag args).
Proof.
  apply accepts_id. intros id Hid. destruct (tail args) as [|action rest]; [done|].
  destruct (is_word action ["add"; "remove"]%string) eqn:E.
  - destruct rest; [done|]. cbn [accepts well_formed]. by rewrite Hid, E.
  - destruct (is_word action ["list"]%string) eqn:E'; [|done]. cbn [accepts well_formed]. by rewrite Hid, E, E'.
Qed.

Lemma accepts_rename args : accepts (parse_rename args).
Proof. destruct args as [|id [|name rest]]; [done..|]. cbn. destruct (parse_id id) eqn:E; [|done]. cbn. eauto. Qed.

Lemma accepts_history args : accepts (parse_history_append args).
Proof.
  apply accepts_id. intros id Hid. destruct (tail args) as [|shell [|]]; [done| |done].
  destruct (is_word shell _) eqn:E; [|done]. cbn [accepts well_formed]. by rewrite Hid, E.
Qed.

Lemma accepts_log args : accepts (parse_log args).
Proof.
  destruct args as [|arg args]; [done|]. cbn [parse_log]. destruct (is_word arg _).
  - apply accepts_id. intros id Hid. destruct (tail args) as [|other [|path [|]]]; [done..| |done]. by destruct (is_word other _).
  - destruct (is_word arg _); [destruct args; [done|]; by eapply accepts_search|]. by apply accepts_id.
Qed.

Lemma accepts_config args : accepts (parse_config_command args).
Proof. destruct args as [|action [|]]; cbn [parse_config_command]; [done| |]; by destruct (is_word action _). Qed.

Lemma parse_accepts args : accepts (parse_command args).
Proof.
  destruct args as [|name rest]; [done|]. cbn [parse_command].
  repeat match goal with |- accepts (if ?b then _ else _) => destruct b end;
    try done;
    try first [apply accepts_config|apply accepts_history|by eapply accepts_list|by apply accepts_attach|apply accepts_log
      |apply accepts_rename|apply accepts_tag|apply accepts_id; intros id Hid; done
      |apply accepts_id; intros id Hid; eapply accepts_replay; [done|cbn [well_formed]; by rewrite Hid]];
    destruct rest as [|arg [|]]; try done. by apply accepts_id.
Qed.

(** *** Canonical forms are read back *)

Lemma number_head n : exists b s, number n = b :: s /\ is_ascii_digit b = true.
Proof.
  unfold number. pose proof (Text.decimal_is_digits n) as Hd. pose proof (Text.decimal_nonempty n).
  destruct (Daemon.decimal n) as [|b s]; [done|]. cbn in Hd. apply andb_true_iff in Hd as [Hb _]. by exists b, s.
Qed.
Lemma parse_number max n : n <= max -> Text.parse_unsigned max (number n) = Some n.
Proof.
  intros Hn. destruct (number_head n) as (b & s & E & Hb). pose proof (Text.parse_decimal max n Hn) as Hp. unfold number in *. rewrite E in *.
  cbn [Text.parse_unsigned]. destruct (N.eqb_spec (byte_val b) 43) as [Hv|]; [|done]. exfalso. revert Hb Hv. by destruct b.
Qed.
Lemma parse_id_number n : id_ok n = true -> parse_id (number n) = Some n.
Proof. intros H%N.leb_le. by apply parse_number. Qed.
Lemma parse_size_number n : (n <=? u64_max) = true -> parse_size (number n) = Some n.
Proof. intros H%N.leb_le. by apply parse_number. Qed.

(** A number is none of the words. *)
Definition no_number (words : list String.string) : bool :=
  forallb (fun w => match lit w with b :: _ => negb (is_ascii_digit b) | [] => true end) words.
Lemma is_word_number n words : no_number words = true -> is_word (number n) words = false.
Proof.
  intros Hw. destruct (number_head n) as (b & s & -> & Hb). unfold is_word. apply not_true_iff_false. intros (w & Hin & Heq)%existsb_exists.
  apply bool_decide_eq_true in Heq. unfold no_number in Hw. rewrite forallb_forall in Hw. specialize (Hw w Hin). rewrite <- Heq in Hw.
  by rewrite Hb in Hw.
Qed.

Lemma required_number {A message id rest} {k : N -> result PersistError A} : id_ok id = true -> required_id message (number id :: rest) k = k id.
Proof. intros H. cbn [required_id]. by rewrite parse_id_number. Qed.

Lemma given_id (o : option N) : optional id_ok o = true -> forall (P : list str -> Prop),
  P [] -> (forall id, id_ok id = true -> o = Some id -> P [number id]) -> P (given (number <$> o)).
Proof. destruct o as [id|]; cbn [optional fmap option_fmap option_map given]; eauto. Qed.

Lemma attach_line id readonly : optional id_ok id = true ->
  parse_attach (given (number <$> id) ++ flag "--readonly" readonly) None false = Ok (Attach id readonly).
Proof.
  intros Hid. destruct id as [id|]; cbn [fmap option_fmap option_map given app].
  - cbn [parse_attach]. rewrite is_word_number, parse_id_number by done. by destruct readonly.
  - by destruct readonly.
Qed.
Lemma list_line id tag plain : well_formed (List id tag plain) = true ->
  parse_list_command (given (number <$> id) ++ valued "--tag" tag ++ flag "--plain" plain) = Ok (List id tag plain).
Proof.
  cbn [well_formed]. intros [Hid Hc]%andb_true_iff. destruct id as [id|]; cbn [fmap option_fmap option_map given app].
  - destruct tag as [tag|]; [done|]. destruct plain; [done|]. unfold parse_list_command. cbn [valued flag app parse_list].
    by rewrite !is_word_number, parse_id_number.
  - by destruct tag as [tag|], plain.
Qed.
Lemma search_line keyword id i : optional id_ok id = true ->
  parse_search (valued "--session" (number <$> id) ++ flag "--ignore-case" i) keyword None false = Ok (LogSearch keyword id i).
Proof.
  intros Hid. destruct id as [id|]; cbn [fmap option_fmap option_map valued app]; [|by destruct i].
  cbn [parse_search]. change (is_word (lit "--session") ["--session"; "-s"]%string) with true. cbn iota. rewrite parse_id_number by done. by destruct i.
Qed.
Lemma replay_line id tail head speed follow : well_formed (Replay id tail head speed follow) = true ->
  parse_replay (valued "--tail" (number <$> tail) ++ valued "--head" (number <$> head) ++ valued "--speed" speed ++ flag "--follow" follow)
    id None None None false = Ok (Replay id tail head speed follow).
Proof.
  cbn [well_formed]. intros [[[Hid Ht]%andb_true_iff Hh]%andb_true_iff Hs]%andb_true_iff.
  assert (Hfollow : forall t h s, parse_replay (flag "--follow" follow) id t h s false = Ok (Replay id t h s follow)) by by destruct follow.
  assert (Hspeed : forall t h, parse_replay (valued "--speed" speed ++ flag "--follow" follow) id t h None false = Ok (Replay id t h speed follow)).
  { intros t h. destruct speed as [s|]; [|apply Hfollow]. cbn [valued app parse_replay].
    change (is_word (lit "--speed") ["--tail"; "-t"]%string) with false. change (is_word (lit "--speed") ["--head"; "-h"]%string) with false.
    change (is_word (lit "--speed") ["--speed"; "-s"]%string) with true. cbn iota. unfold parse_f64. cbn in Hs. by rewrite Hs. }
  assert (Hhead : forall t, parse_replay (valued "--head" (number <$> head) ++ valued "--speed" speed ++ flag "--follow" follow) id t None None false
    = Ok (Replay id t head speed follow)).
  { intros t. destruct head as [n|]; [|apply Hspeed]. cbn [fmap option_fmap option_map valued app parse_replay].
    change (is_word (lit "--head") ["--tail"; "-t"]%string) with false. change (is_word (lit "--head") ["--head"; "-h"]%string) with true.
    cbn iota. rewrite parse_size_number by done. apply Hspeed. }
  destruct tail as [n|]; [|apply Hhead]. cbn [fmap option_fmap option_map valued app parse_replay].
  change (is_word (lit "--tail") ["--tail"; "-t"]%string) with true. cbn iota. rewrite parse_size_number by done. apply Hhead.
Qed.
Lemma tag_line id action tag : well_formed (Tag id action tag) = true -> parse_tag (number id :: action :: given tag) = Ok (Tag id action tag).
Proof.
  cbn [well_formed]. intros [Hid Ha]%andb_true_iff. unfold parse_tag. rewrite required_number by done. cbn [tail].
  apply orb_true_iff in Ha as [[-> Ht]%andb_true_iff|Ha].
  - by destruct tag.
  - destruct (is_word action ["add"; "remove"]%string) eqn:E.
    + exfalso. unfold is_word in Ha, E. cbn [existsb] in Ha, E. rewrite orb_false_r in Ha. apply bool_decide_eq_true in Ha as ->. done.
    + rewrite Ha. by destruct tag.
Qed.

Lemma canonical_line c : well_formed c = true -> parse_command (command_line c) = Ok c.
Proof.
  intros Hw.
  destruct c; try reflexivity; cbn [command_line];
    try (cbn [well_formed] in Hw; exact (required_number Hw)).
  - by destruct action.
  - by apply attach_line.
  - by apply list_line.
  - cbn [well_formed] in Hw. apply andb_true_iff in Hw as [Hid Hs].
    change (parse_history_append [number session_id; shell] = Ok (HistoryAppend session_id shell)).
    unfold parse_history_append. rewrite required_number by done. cbn [tail]. by rewrite Hs.
  - change (parse_log [number session_id] = Ok (Log session_id)). cbn [parse_log]. by rewrite !is_word_number, required_number.
  - by apply search_line.
  - change (parse_export (number session_id :: valued "--output" output_path) = Ok (LogExport session_id output_path)).
    unfold parse_export. rewrite required_number by done. by destruct output_path.
  - change (parse_rename [number session_id; name] = Ok (Rename session_id name)). cbn [parse_rename]. by rewrite parse_id_number.
  - destruct text; exact (required_number Hw).
  - by apply tag_line.
  - by destruct purge.
  - destruct pinned; exact (required_number Hw).
  - destruct locked; exact (required_number Hw).
  - assert (Hid : id_ok session_id = true) by (cbn [well_formed] in Hw; by destruct (id_ok session_id)).
    exact (eq_trans (required_number Hid) (replay_line _ _ _ _ _ Hw)).
Qed.

(** C36: Whatever is typed, a command that is accepted is well formed: its
    numbers fit, and what may not be combined is not; and its canonical form is
    read back as that command. *)
Theorem canonical_command args c : parse_command args = Ok c ->
  well_formed c = true /\ parse_command (command_line c) = Ok c.
Proof.
  intros Hp. assert (Hw : well_formed c = true) by (pose proof (parse_accepts args) as Ha; by rewrite Hp in Ha).
  split; [done|by apply canonical_line].
Qed.

Lemma canonical_command_witness :
  parse_command (map lit ["replay"; "7"; "-s"; "1.5"; "-t"; "+20"]%string) = Ok (Replay 7 (Some 20) None (Some (lit "1.5")) false) /\
  parse_command (map lit ["replay"; "7"; "--tail"; "20"; "--speed"; "1.5"]%string) = Ok (Replay 7 (Some 20) None (Some (lit "1.5")) false).
Proof.
  split; [vm_compute; reflexivity|].
  refine (proj2 (canonical_command (map lit ["replay"; "7"; "-s"; "1.5"; "-t"; "+20"]%string) (Replay 7 (Some 20) None (Some (lit "1.5")) false) _)).
  vm_compute. reflexivity.
Defined.

(** An identifier that is mistyped is no error: the session is a new one. *)
Example attach_ignores_typo : parse_command (map lit ["attach"; "l2"]%string) = Ok (Attach None false).
Proof. reflexivity. Qed.
Example attach_takes_any_number : parse_command (map lit ["attach"; "l2"; "3"]%string) = Ok (Attach (Some 3) false).
Proof. reflexivity. Qed.
Lemma user_facing_identifies_witness :
  code (InvalidArgument (lit "x")) = code (InvalidArgument (lit "x")) /\ exit_code (InvalidArgument (lit "x")) = exit_code (InvalidArgument (lit "x")).
Proof. apply (user_facing_identifies (lit "persist")). reflexivity. Defined.

Example floats : map is_f64 (map lit ["1"; ".5"; "1."; "-1e-3"; "+InF"; "NaN"; "."; "e5"; "1e"; "1.5x"; ""]%string)
  = [true; true; true; true; true; true; false; false; false; false; false].
Proof. vm_compute. reflexivity. Qed.
End Command.
