(* ===== verification/SessionCommands.v ===== *)
(** * SessionCommands: the commands that ask the daemon or read the logs.

    Models [crates/persist-cli/src/session.rs] and the part of [cli.rs] that runs
    a command and turns its failure into an exit code.  The theorems join it with
    the handlers of the daemon (DaemonServer.v) over the frames of ClientFrame.v
    and the messages of ClientMessages.v.

    What the socket brings, which of the writes fail, and the files are
    arguments; so are [to_lowercase] of Unicode and the parser of JSON. *)
From S2P Require Import Prelude Bytes Utf8 Effects ClientFrame ClientMessages Daemon Text CommandLine.
From stdpp Require Import sorting.
From Stdlib Require Import Lia.
Import String.StringSyntax.
Import Errors.
#[local] Existing Instances ClientFrame.MessageType_eq_dec.
Local Open Scope N_scope.

Module SessionCommands.

(** [incoming] is what the reads of the socket give; [printed] what was written
    to standard output, a line each; [socket] and [terminal] whether the next
    writes fail, and with which error. *)
Record Console : Type := mkConsole {
  incoming : list bytes; requests : list ClientFrame.Frame; printed : list str; socket : list (option str); terminal : list (option str) }.

Abbreviation Cli := (M Console PersistError).

Definition set_incoming l (c : Console) : Console := mkConsole l (requests c) (printed c) (socket c) (terminal c).
Definition add_request f l (c : Console) : Console := mkConsole (incoming c) (requests c ++ [f]) (printed c) l (terminal c).
Definition set_socket l (c : Console) : Console := mkConsole (incoming c) (requests c) (printed c) l (terminal c).
Definition add_line s l (c : Console) : Console := mkConsole (incoming c) (requests c) (printed c ++ [s]) (socket c) l.
Definition set_terminal l (c : Console) : Console := mkConsole (incoming c) (requests c) (printed c) (socket c) l.

Definition invalid {A} (message : str) : Cli A := Effects.fail (InvalidArgument message).

(** [println!] *)
Definition println (line : str) : Cli unit :=
  c ← get;
  match terminal c with
  | Some _ :: _ => panic
  | None :: rest => modify (add_line line rest)
  | [] => modify (add_line line [])
  end.

(** [writeln!(stdout, ..).map_err(..)] *)
Definition writeln (operation : String.string) (line : str) : Cli unit :=
  c ← get;
  match terminal c with
  | Some source :: rest => _ ← modify (set_terminal rest); fail (Io (lit operation) source)
  | None :: rest => modify (add_line line rest)
  | [] => modify (add_line line [])
  end.
Arguments writeln operation%_string line.

(** ** Requests *)

(** An error of the frame reader, with the text of the system's error. *)
Definition of_core (source : str) (e : persist_error) : PersistError :=
  match e with
  | Prelude.InvalidArgument m => InvalidArgument (lit m)
  | Prelude.InternalError m => Internal (lit m)
  | Prelude.DaemonAlreadyRunning => DaemonAlreadyRunning
  | Prelude.IoError op => Io (lit op) source
  | Prelude.MetadataOperation op => MetadataOperation (lit op) source
  end.

Section requests.
(** How connecting ends, who asks, and how resetting the timeouts ends. *)
Context (connected : result PersistError unit) (uid pid : N) (cleared : result PersistError unit) (source : str).

Definition write_frame (f : ClientFrame.Frame) : Cli unit :=
  c ← get;
  match socket c with
  | Some source :: rest => _ ← modify (set_socket rest); fail (Io (lit "write frame") source)
  | None :: rest => modify (add_request f rest)
  | [] => modify (add_request f [])
  end.

Definition read_frame : Cli ClientFrame.Frame :=
  c ← get;
  match ClientFrame.read_frame (incoming c) with
  | Ok (f, rest) => _ ← modify (set_incoming rest); mret f
  | Err e => fail (of_core source e)
  end.

Definition hello : ClientMessages.HelloPayload := ClientMessages.mkHello 0 ClientFrame.ATTACH_CONTEXT_PROTOCOL_MINOR uid pid.

Definition connect_and_hello : Cli unit :=
  _ ← lift connected;
  _ ← write_frame (ClientFrame.mkFrame ClientFrame.Hello 0 0 (ClientMessages.encode_hello hello));
  ack ← read_frame;
  if negb (bool_decide (ClientFrame.msg_type ack = ClientFrame.HelloAck)) then invalid (lit "expected HELLO_ACK")
  else lift cleared.

(** A request and the payload of its answer, whose type has this name. *)
Definition ask (kind : ClientFrame.MessageType) (payload : bytes) (expected : ClientFrame.MessageType) (name : String.string) : Cli bytes :=
  _ ← write_frame (ClientFrame.mkFrame kind 0 0 payload);
  resp ← read_frame;
  if negb (bool_decide (ClientFrame.msg_type resp = expected)) then invalid (lit "expected " ++ lit name)
  else mret (ClientFrame.payload resp).

Definition exchange (kind : ClientFrame.MessageType) (payload : bytes) (expected : ClientFrame.MessageType) (name : String.string) : Cli bytes :=
  _ ← connect_and_hello; ask kind payload expected name.

Definition payload_of {A} (name : String.string) (o : option A) : Cli A :=
  match o with Some a => mret a | None => invalid (lit "invalid " ++ lit name ++ lit " payload") end.

Definition finish_operation (op : bool * str) : Cli unit := if op.1 then println (lit "ok") else invalid op.2.

(** A request whose answer is whether it was done. *)
Definition confirm (kind : ClientFrame.MessageType) (payload : bytes) (expected : ClientFrame.MessageType) (name : String.string) : Cli unit :=
  payload ← ask kind payload expected name;
  op ← payload_of name (ClientMessages.decode_op_resp payload);
  finish_operation op.
Definition operation (kind : ClientFrame.MessageType) (payload : bytes) (expected : ClientFrame.MessageType) (name : String.string) : Cli unit :=
  _ ← connect_and_hello; confirm kind payload expected name.
Arguments ask kind payload expected name%_string.
Arguments confirm kind payload expected name%_string.
Arguments exchange kind payload expected name%_string.
Arguments payload_of {A} name%_string o.
Arguments operation kind payload expected name%_string.

Definition new_session : Cli unit :=
  payload ← exchange ClientFrame.NewSession [] ClientFrame.NewSessionResp "NEW_SESSION_RESP";
  session ← payload_of "NEW_SESSION_RESP" (ClientMessages.decode_new_session_resp payload);
  println (Daemon.decimal session.1).

Definition close_session (id : N) : Cli unit :=
  operation ClientFrame.Close (ClientMessages.encode_detach id) ClientFrame.CloseResp "CLOSE_RESP".
Definition kill_session (id : N) : Cli unit :=
  operation ClientFrame.Kill (ClientMessages.encode_detach id) ClientFrame.KillResp "KILL_RESP".
Definition rename_session (id : N) (name : str) : Cli unit :=
  operation ClientFrame.Rename (ClientMessages.encode_rename id name) ClientFrame.RenameResp "RENAME_RESP".
Definition pin_session (id : N) (pinned : bool) : Cli unit :=
  operation ClientFrame.PinSet (ClientMessages.encode_pin id pinned) ClientFrame.PinSetResp "PIN_SET_RESP".
Definition lock_session (id : N) (locked : bool) : Cli unit :=
  operation ClientFrame.LockSet (ClientMessages.encode_lock id locked) ClientFrame.LockSetResp "LOCK_SET_RESP".

Definition signal_detach (id : N) : Cli unit :=
  payload ← exchange ClientFrame.DetachSignal (ClientMessages.encode_detach id) ClientFrame.DetachSignalResp "DETACH_SIGNAL_RESP";
  '(ok, _) ← payload_of "DETACH_SIGNAL_RESP" (ClientMessages.decode_op_resp payload);
  println (if (ok : bool) then lit "ok" else lit "session is not currently attached").

Definition note_session (id : N) (text : option str) : Cli unit :=
  match text with
  | Some note => operation ClientFrame.NoteSet (ClientMessages.encode_note id note) ClientFrame.NoteSetResp "NOTE_SET_RESP"
  | None =>
      payload ← exchange ClientFrame.NoteGet (ClientMessages.encode_detach id) ClientFrame.NoteGetResp "NOTE_GET_RESP";
      note ← payload_of "NOTE_GET_RESP" (ClientMessages.decode_note_get_resp payload);
      println (if bool_decide (note = []) then lit "(no note)" else note)
  end.

(** [tag.unwrap()], and [unreachable!()] for another action. *)
Definition tag_session (id : N) (action : str) (tag : option str) : Cli unit :=
  _ ← connect_and_hello;
  if Command.is_word action ["add"] then
    tag ← unwrap tag;
    confirm ClientFrame.TagAdd (ClientMessages.encode_tag id tag) ClientFrame.TagAddResp "TAG_ADD_RESP"
  else if Command.is_word action ["remove"] then
    tag ← unwrap tag;
    confirm ClientFrame.TagRemove (ClientMessages.encode_tag id tag) ClientFrame.TagRemoveResp "TAG_REMOVE_RESP"
  else if Command.is_word action ["list"] then
    payload ← ask ClientFrame.TagList (ClientMessages.encode_detach id) ClientFrame.TagListResp "TAG_LIST_RESP";
    tags ← payload_of "TAG_LIST_RESP" (ClientMessages.decode_tag_list_resp payload);
    match tags with [] => println (lit "(no tags)") | _ => each println tags end
  else panic.

(** *** Reports *)

Definition node_line (node : ClientMessages.ProcessTreeNode) : str :=
  concat (repeat (lit "  ") (N.to_nat (ClientMessages.depth node))) ++ Daemon.decimal (ClientMessages.node_pid node) ++ lit " " ++
  (if bool_decide (ClientMessages.command node = []) then ClientMessages.node_name node else ClientMessages.command node).

Definition process_tree (id : N) : Cli unit :=
  payload ← exchange ClientFrame.ProcessTree (ClientMessages.encode_detach id) ClientFrame.ProcessTreeResp "PROCESS_TREE_RESP";
  nodes ← payload_of "PROCESS_TREE_RESP" (ClientMessages.decode_process_tree_resp payload);
  match nodes with [] => println (lit "(no foreground process)") | _ => each (fun node => println (node_line node)) nodes end.

Definition process_stats (id : N) : Cli unit :=
  payload ← exchange ClientFrame.ProcessStats (ClientMessages.encode_detach id) ClientFrame.ProcessStatsResp "PROCESS_STATS_RESP";
  stats ← payload_of "PROCESS_STATS_RESP" (ClientMessages.decode_process_stats_resp payload);
  match ClientMessages.stats_pid stats with
  | None => println (lit "(no foreground process)")
  | Some pid =>
      _ ← println (lit "pid: " ++ Daemon.decimal pid);
      _ ← println (lit "cpu_ticks: user=" ++ Daemon.decimal (ClientMessages.user_ticks stats) ++ lit " system=" ++ Daemon.decimal (ClientMessages.system_ticks stats));
      _ ← println (lit "rss_kib: " ++ Daemon.decimal (ClientMessages.rss_kib stats));
      println (lit "io_bytes: read=" ++ Daemon.decimal (ClientMessages.read_bytes stats) ++ lit " write=" ++ Daemon.decimal (ClientMessages.write_bytes stats))
  end.

(** What is no JSON, or else the text of its [error], if it has one. *)
Context (json_error : str -> option (option str)).

Definition json_report (kind : ClientFrame.MessageType) (payload : bytes) (expected : ClientFrame.MessageType) (name : String.string) : Cli unit :=
  payload ← exchange kind payload expected name;
  json ← payload_of name (ClientMessages.decode_note_get_resp payload);
  match json_error json with
  | None => invalid (lit "invalid " ++ lit name ++ lit " JSON")
  | Some (Some error) => invalid error
  | Some None => println json
  end.
Arguments json_report kind payload expected name%_string.

Definition snapshot (id : N) : Cli unit :=
  json_report ClientFrame.SessionSnapshot (ClientMessages.encode_detach id) ClientFrame.SessionSnapshotResp "SESSION_SNAPSHOT_RESP".
Definition metrics : Cli unit := json_report ClientFrame.Metrics [] ClientFrame.MetricsResp "METRICS_RESP".

(** *** The list of sessions *)

(** [{:<width}] counts characters. *)
Definition pad (width : nat) (s : str) : str := s ++ repeat (byte_of 32) (width - length (chars s)).
Definition decimal_z (z : Z) : str := if (z <? 0)%Z then lit "-" ++ Daemon.decimal (Z.to_N (- z)) else Daemon.decimal (Z.to_N z).

Definition foreground_display (cmd name : str) : str :=
  if bool_decide (cmd <> []) then cmd else if bool_decide (name <> []) then name else lit "-".

Definition columns (cells : list (nat * str)) (rest : str) : str := concat (map (fun x => pad x.1 x.2 ++ lit "  ") cells) ++ rest.

Definition list_header : str :=
  columns [(5%nat, lit "ID"); (7%nat, lit "STATUS"); (20%nat, lit "NAME"); (20%nat, lit "FOREGROUND"); (8%nat, lit "IDLE"); (10%nat, lit "EXIT");
    (4%nat, lit "NOTE"); (4%nat, lit "TAGS"); (4%nat, lit "PIN"); (4%nat, lit "LOCK")] (lit "CLOSED").

Definition entry_line (e : ClientMessages.SessionEntry) : str :=
  columns [(5%nat, Daemon.decimal (ClientMessages.session_id e)); (7%nat, ClientMessages.status e); (20%nat, ClientMessages.name e);
    (20%nat, foreground_display (ClientMessages.foreground_cmd e) (ClientMessages.foreground_name e));
    (8%nat, if bool_decide (ClientMessages.idle e = []) then lit "-" else ClientMessages.idle e);
    (10%nat, match ClientMessages.exit_code e with Some c => lit "exit=" ++ decimal_z c | None => lit "-" end);
    (4%nat, if ClientMessages.has_note e then lit "📝" else []); (4%nat, if ClientMessages.has_tags e then lit "🏷" else []);
    (4%nat, if ClientMessages.is_pinned e then lit "📌" else []); (4%nat, if ClientMessages.is_locked e then lit "🔒" else [])]
    (default (lit "-") (ClientMessages.closed_at e)).

Definition write_session_list (list : list ClientMessages.SessionEntry) : Cli unit :=
  match list with
  | [] => writeln "write session list" (lit "(no sessions)")
  | _ =>
      _ ← writeln "write session list" list_header;
      _ ← writeln "write session list" (repeat (byte_of 45) 118);
      each (fun e => writeln "write session list" (entry_line e)) list
  end.

Definition fetch_sessions (tag_filter : option str) : Cli (list ClientMessages.SessionEntry) :=
  payload ← match tag_filter with
    | Some tag => exchange ClientFrame.ListSessionsByTag (ClientMessages.encode_note_get_resp tag) ClientFrame.ListSessionsResp "LIST_SESSIONS_RESP"
    | None => exchange ClientFrame.ListSessions [] ClientFrame.ListSessionsResp "LIST_SESSIONS_RESP"
    end;
  payload_of "LIST_SESSIONS_RESP" (ClientMessages.decode_list_sessions_resp payload).

Definition list_sessions (tag_filter : option str) : Cli unit := l ← fetch_sessions tag_filter; write_session_list l.
Definition list_session (id : N) : Cli unit :=
  l ← fetch_sessions None;
  match filter (fun e => ClientMessages.session_id e = id) l with
  | [] => invalid (lit "session " ++ Daemon.decimal id ++ lit " was not found")
  | l => write_session_list l
  end.
End requests.

(** ** Logs *)

Inductive FileAnswer : Type := NotFound | Unreadable (source : str) | Contents (bs : bytes).

(** What opening a log gives: its bytes, or something that opens and cannot be
    read, as a directory. *)
Inductive LogFile : Type := Regular (contents : bytes) | NoRegular.

(** An answer of [BufRead::lines]. *)
Inductive LineAnswer : Type := EndOfFile | BadLine | Line (s : str).

Definition read_line (f : LogFile) (n : nat) : LineAnswer :=
  match f with
  | NoRegular => BadLine
  | Regular bs =>
      match Text.lines bs !! n with
      | None => EndOfFile
      | Some l => match from_utf8 l with Some s => Line s | None => BadLine end
      end
  end.

Section logs.
(** Of the configuration: whether sessions are logged, the directory of the
    data, and the number of rotated files. *)
Context (session_log : bool) (data_dir : str) (max_files : N).
Context (read_file : str -> FileAnswer) (not_utf8 : str).
Context (lowercase : str -> str).

Definition log_dir : str := Daemon.join data_dir (lit "sessions").
Definition log_path (id : N) : str := Daemon.join log_dir (Daemon.decimal id ++ lit ".log").

Definition log_content (id : N) : Cli str :=
  match read_file (log_path id) with
  | NotFound => invalid (lit "no log file for session " ++ Daemon.decimal id ++ lit ": not found at " ++ log_path id)
  | Unreadable source => fail (Io (lit "read session log") source)
  | Contents bs => match from_utf8 bs with Some s => mret s | None => fail (Io (lit "read session log") not_utf8) end
  end.

Definition read_session_log (id : N) : Cli unit :=
  if negb session_log then writeln "write session log output" (lit "session logging is disabled")
  else content ← log_content id; writeln "write session log output" content.

(** [created] is how creating the directory of the file ends, when there is
    one, and [written] how writing the file ends. *)
Definition export_session_log (id : N) (output_path : option str) (created written : result str unit) : Cli unit :=
  if negb session_log then writeln "write session log output" (lit "session logging is disabled")
  else
    content ← log_content id;
    match output_path with
    | Some path =>
        match created, written with
        | Err source, _ => fail (Io (lit "create export directory") source)
        | Ok _, Err source => fail (Io (lit "write exported log") source)
        | Ok _, Ok _ => writeln "write export confirmation" (lit "exported session " ++ Daemon.decimal id ++ lit " log to " ++ path)
        end
    | None => writeln "write session log output" content
    end.

(** The lines that [replay] shows. *)
Definition selected (head tail : option N) (lines : list str) : list str :=
  match head, tail with
  | Some h, _ => takeN (N.min h (lenN lines)) lines
  | None, Some t => dropN (lenN lines - t) lines
  | None, None => lines
  end.

Definition replay_session (id : N) (tail head : option N) : Cli unit :=
  if negb session_log then writeln "write replay output" (lit "session logging is disabled")
  else content ← log_content id; each (writeln "write replay output") (selected head tail (Text.lines content)).

(** *** Searching *)

(** [directory] is what reading the directory gives, if it exists and can be
    read; [open] a file that can be opened. *)
Context (exists_dir : bool) (directory : option (list (option bytes))) (open : str -> option LogFile).

Definition ends_with (suffix s : str) : bool := starts_with (rev suffix) (rev s).
Definition is_log_name (name : str) : bool := ends_with (lit ".log") name || contains (lit ".log.") name.

Definition file_names (session_id : option N) : list str :=
  match session_id with
  | Some id =>
      (Daemon.decimal id ++ lit ".log") ::
      map (fun i => Daemon.decimal id ++ lit ".log." ++ Daemon.decimal (N.of_nat i)) (seq 1 (N.to_nat max_files))
  | None => merge_sort str_le (List.filter is_log_name (map from_utf8_lossy (omap id (default [] directory))))
  end.

(** The number of the session that is shown. *)
Definition shown_id (file_name : str) : N :=
  default 0 (first ← head (Daemon.split_on (byte_of 46) file_name); Text.parse_unsigned u32_max first).

Definition matched (keyword : str) (case_insensitive : bool) (line : str) : bool :=
  if case_insensitive then contains (lowercase keyword) (lowercase line) else contains keyword line.

Definition match_line (sid : N) (n : nat) (line : str) : str :=
  lit "[" ++ Daemon.decimal sid ++ lit "] " ++ pad 6 (Daemon.decimal (N.of_nat (S n))) ++ lit " " ++ line.

(** The lines of a file, from the one with number [n]; [None] when [fuel]
    answers were not enough to come to its end. *)
Fixpoint search_lines (fuel : nat) (f : LogFile) (sid : N) (keyword : str) (case_insensitive : bool) (n : nat) (total : N) : Cli (option N) :=
  match fuel with
  | O => mret None
  | S fuel =>
      match read_line f n with
      | EndOfFile => mret (Some total)
      | BadLine => search_lines fuel f sid keyword case_insensitive (S n) total
      | Line line =>
          if matched keyword case_insensitive line then
            _ ← writeln "write log search output" (match_line sid n line);
            search_lines fuel f sid keyword case_insensitive (S n) (total + 1)
          else search_lines fuel f sid keyword case_insensitive (S n) total
      end
  end.

Fixpoint search_files (fuel : nat) (names : list str) (keyword : str) (case_insensitive : bool) (total : N) : Cli (option N) :=
  match names with
  | [] => mret (Some total)
  | name :: names' =>
      match open name with
      | None => search_files fuel names' keyword case_insensitive total
      | Some f =>
          found ← search_lines fuel f (shown_id name) keyword case_insensitive 0 total;
          match found with
          | None => mret None
          | Some total => search_files fuel names' keyword case_insensitive total
          end
      end
  end.

(** [None] when it has not come to its end. *)
Definition log_search (fuel : nat) (keyword : str) (session_id : option N) (case_insensitive : bool) : Cli (option unit) :=
  if negb exists_dir then _ ← writeln "write log search output" (lit "(no session logs found)"); mret (Some tt)
  else
    found ← search_files fuel (file_names session_id) keyword case_insensitive 0;
    match found with
    | None => mret None
    | Some total =>
        _ ← (if total =? 0 then writeln "write log search output" (lit "(no matches)") else mret tt);
        mret (Some tt)
    end.
End logs.

(** ** Running a command: cli.rs *)

Definition help_lines : list String.string := [
  "PersistShell command line";
  "";
  "Usage:";
  "  persist <command>";
  "";
  "Available now:";
  "  help                              Show this help";
  "  version                           Show version information";
  "  doctor                            Show local diagnostics";
  "  config [show]                     Show effective configuration";
  "  daemon <start|stop|status>        Manage the daemon";
  "  new                               Create a new session";
  "  ls [<id>] [--plain] [--tag <tag>] List or interactively select sessions";
  "  ps <id>                           Show the foreground process tree";
  "  stats <id>                        Show foreground resource counters";
  "  snapshot <id>                     Show a bounded JSON snapshot";
  "  metrics                           Show daemon and session metrics";
  "  top                               Open the performance dashboard";
  "  attach [<id>] [--readonly]        Attach to a session";
  "  detach <id>                       Detach a session";
  "  close <id>                        Close a session gracefully";
  "  kill <id>                         Force kill a session";
  "  lock <id>                         Lock a session";
  "  unlock <id>                       Unlock a session";
  "  rename <id> <name>                Rename a session";
  "  note <id> [text]                  Show or set a session note";
  "  tag <id> <add|remove|list> [tag]  Manage session tags";
  "  pin <id>                          Pin a session";
  "  unpin <id>                        Unpin a session";
  "  log <id>                          Show session output log";
  "  log search <keyword> [options]    Search session logs";
  "  log export <id> [--output <path>] Export a session log";
  "  replay <id> [options]             Replay session history";
  "  install                           Install the SSH auto-attach hook";
  "  uninstall [--purge]               Remove the hook and optional data"]%string.

(** [write_help]: the text, which ends in a newline, and another one. *)
Definition write_help : Cli unit := writeln "write help" (concat (map (fun l => lit l ++ [byte_of 10]) help_lines)).

Section execution.
Context (connected : result PersistError unit) (uid pid : N) (cleared : result PersistError unit) (source : str)
  (json_error : str -> option (option str)).
Context (session_log : bool) (data_dir : str) (max_files : N) (read_file : str -> FileAnswer) (not_utf8 : str)
  (lowercase : str -> str) (exists_dir : bool) (directory : option (list (option bytes))) (open : str -> option LogFile)
  (created written : result str unit).
(** The commands of the other files, and the text of [version]. *)
Context (other : Command.Command -> Cli unit) (version : str).

Definition with_config (loaded : bool) (m : Cli (option unit)) : Cli (option unit) :=
  if loaded then m else fail (Internal (lit "config not loaded")).
Definition finished (m : Cli unit) : Cli (option unit) := _ ← m; mret (Some tt).

(** [fuel] bounds the search in the logs, the only command that may not come to
    its end. *)
Definition execute (fuel : nat) (c : Command.Command) (loaded interactive : bool) : Cli (option unit) :=
  let session (m : result PersistError unit -> N -> N -> result PersistError unit -> str -> Cli unit) := with_config loaded (finished (m connected uid pid cleared source)) in
  match c with
  | Command.Help => finished write_help
  | Command.Version => finished (writeln "write version" version)
  | Command.Doctor | Command.Config | Command.ShellStateCommit => finished (other c)
  | Command.Daemon action =>
      with_config loaded (match action with
        | Some a => if Command.is_word a ["start"; "stop"; "status"] then finished (other c) else invalid (lit "unknown daemon action: " ++ a)
        | None => finished (other c)
        end)
  | Command.Attach _ _ | Command.HistoryAppend _ _ | Command.BenchmarkAttach _ | Command.Top | Command.Install | Command.Uninstall _ =>
      with_config loaded (finished (other c))
  | Command.New => session new_session
  | Command.List id tag plain =>
      if interactive && negb plain then with_config loaded (finished (other c))
      else match id with
        | Some id => session (fun a b c d e => list_session a b c d e id)
        | None => session (fun a b c d e => list_sessions a b c d e tag)
        end
  | Command.ProcessTree id => session (fun a b c d e => process_tree a b c d e id)
  | Command.ProcessStats id => session (fun a b c d e => process_stats a b c d e id)
  | Command.Snapshot id => session (fun a b c d e => snapshot a b c d e json_error id)
  | Command.Metrics => session (fun a b c d e => metrics a b c d e json_error)
  | Command.Close id => session (fun a b c d e => close_session a b c d e id)
  | Command.Kill id => session (fun a b c d e => kill_session a b c d e id)
  | Command.Note id text => session (fun a b c d e => note_session a b c d e id text)
  | Command.Tag id action tag => session (fun a b c d e => tag_session a b c d e id action tag)
  | Command.Rename id name => session (fun a b c d e => rename_session a b c d e id name)
  | Command.Detach id => session (fun a b c d e => signal_detach a b c d e id)
  | Command.Pin id pinned => session (fun a b c d e => pin_session a b c d e id pinned)
  | Command.Lock id locked => session (fun a b c d e => lock_session a b c d e id locked)
  | Command.Log id => with_config loaded (finished (read_session_log session_log data_dir read_file not_utf8 id))
  | Command.LogSearch keyword id i =>
      with_config loaded (log_search max_files lowercase exists_dir directory open fuel keyword id i)
  | Command.LogExport id path => with_config loaded (finished (export_session_log session_log data_dir read_file not_utf8 id path created written))
  | Command.Replay id tail head _ _ => with_config loaded (finished (replay_session session_log data_dir read_file not_utf8 id tail head))
  end.

(** [configured] is how loading the configuration and opening the log end,
    [disabled] how [init_logging] without a log ends. *)
Context (configured disabled : result PersistError unit).

Definition execute_with_optional_config (fuel : nat) (c : Command.Command) (interactive : bool) : Cli (option unit) :=
  if Command.command_uses_config c then _ ← lift configured; execute fuel c true interactive
  else _ ← lift disabled; execute fuel c false interactive.

(** The exit code, what is written to standard error, and the console; [None]
    is a panic, and no exit code a search that has not come to its end. *)
Definition run_with_io_mode (fuel : nat) (args : list str) (interactive : bool) (c : Console) : option (option N * str * Console) :=
  match
    match Command.parse_command (tail args) with
    | Ok command => execute_with_optional_config fuel command interactive c
    | Err e => Some (Err e, c)
    end
  with
  | None => None
  | Some (Ok (Some _), c) => Some (Some 0, [], c)
  | Some (Ok None, c) => Some (None, [], c)
  | Some (Err e, c) => Some (Some (exit_code e), user_facing (lit "persist") e ++ [byte_of 10], c)
  end.
End execution.

(** ** What a command gets from the daemon *)

(** A console on which nothing failed, and which brings these bytes. *)
Record ready (bs : bytes) (c : Console) : Prop := {
  ready_live : ClientFrame.live (incoming c); ready_bytes : concat (incoming c) = bs; ready_socket : socket c = []; ready_terminal : terminal c = [] }.

Section requests.
Context (connected : result PersistError unit) (uid pid : N) (cleared : result PersistError unit) (source : str).

Lemma cli_write_frame_runs f bs c : ready bs c ->
  runs (write_frame f) c (fun r c' => r = Ok tt /\ ready bs c' /\ requests c' = requests c ++ [f] /\ printed c' = printed c).
Proof. intros [H1 H2 H3 H4]. unfold runs, write_frame, get, mbind, M_bind. rewrite H3. cbn. by split_and!; [|constructor| |]. Qed.

Lemma read_frame_runs f rest c : ClientFrame.frame_ok f -> ready (ClientFrame.write_frame f ++ rest) c ->
  runs (read_frame source) c (fun r c' => r = Ok f /\ ready rest c' /\ requests c' = requests c /\ printed c' = printed c).
Proof.
  intros (Hf & Hr & Hl) [H1 H2 H3 H4]. pose proof (ClientFrame.limit_bound (ClientFrame.msg_type f)) as Hb.
  destruct (ClientFrame.read_frame_write_frame f (incoming c) rest Hf Hr ltac:(lia) H1 H2) as (stream & E & Hlive & Hc).
  unfold runs, read_frame, get, mbind, M_bind. rewrite E. cbn. by split_and!; [|constructor| |].
Qed.

Lemma println_runs line bs c : ready bs c ->
  runs (println line) c (fun r c' => r = Ok tt /\ ready bs c' /\ requests c' = requests c /\ printed c' = printed c ++ [line]).
Proof. intros [H1 H2 H3 H4]. unfold runs, println, get, mbind, M_bind. rewrite H4. cbn. by split_and!; [|constructor| |]. Qed.

Definition hello_frame : ClientFrame.Frame := ClientFrame.mkFrame ClientFrame.Hello 0 0 (ClientMessages.encode_hello (hello uid pid)).

(** The daemon says hello and gives its answer: what follows is the payload. *)
Lemma exchange_runs kind payload expected name ack reply rest c :
  connected = Ok tt -> cleared = Ok tt -> ClientFrame.frame_ok ack -> ClientFrame.msg_type ack = ClientFrame.HelloAck ->
  ClientFrame.frame_ok reply -> ClientFrame.msg_type reply = expected ->
  ready (ClientFrame.write_frame ack ++ ClientFrame.write_frame reply ++ rest) c ->
  runs (exchange connected uid pid cleared source kind payload expected name) c (fun r c' =>
    r = Ok (ClientFrame.payload reply) /\ ready rest c' /\
    requests c' = requests c ++ [hello_frame; ClientFrame.mkFrame kind 0 0 payload] /\ printed c' = printed c).
Proof.
  intros -> -> Hack Hkind Hreply Hexp Hc. unfold exchange, connect_and_hello, ask.
  rewrite runs_bind, runs_bind, runs_lift, runs_bind. eapply runs_mono; [by apply cli_write_frame_runs|]. intros r c1 (-> & Hc1 & R1 & P1).
  rewrite runs_bind. eapply runs_mono; [by apply (read_frame_runs ack)|]. intros r c2 (-> & Hc2 & R2 & P2).
  rewrite bool_decide_true by done. cbn [negb]. rewrite runs_lift, runs_bind.
  eapply runs_mono; [by apply cli_write_frame_runs|]. intros r c3 (-> & Hc3 & R3 & P3).
  rewrite runs_bind. eapply runs_mono; [by apply (read_frame_runs reply)|]. intros r c4 (-> & Hc4 & R4 & P4).
  rewrite bool_decide_true by done. cbn [negb]. rewrite runs_ret. split_and!; [done|done| |congruence].
  rewrite R4, R3, R2, R1, <- app_assoc. done.
Qed.

(** A change is reported as the daemon says. *)
Lemma operation_runs kind payload expected name ack reply rest c ok message :
  connected = Ok tt -> cleared = Ok tt -> ClientFrame.frame_ok ack -> ClientFrame.msg_type ack = ClientFrame.HelloAck ->
  ClientFrame.frame_ok reply -> ClientFrame.msg_type reply = expected ->
  ready (ClientFrame.write_frame ack ++ ClientFrame.write_frame reply ++ rest) c ->
  ClientMessages.decode_op_resp (ClientFrame.payload reply) = Some (ok, message) ->
  runs (operation connected uid pid cleared source kind payload expected name) c (fun r c' =>
    r = (if ok then Ok tt else Err (InvalidArgument message)) /\ ready rest c' /\
    requests c' = requests c ++ [hello_frame; ClientFrame.mkFrame kind 0 0 payload] /\
    printed c' = printed c ++ (if ok then [lit "ok"] else [])).
Proof.
  intros H1 H2 H3 H4 H5 H6 H7 Hop.
  assert (Hs : runs (payload ← exchange connected uid pid cleared source kind payload expected name;
      op ← payload_of name (ClientMessages.decode_op_resp payload); finish_operation op) c (fun r c' =>
    r = (if ok then Ok tt else Err (InvalidArgument message)) /\ ready rest c' /\
    requests c' = requests c ++ [hello_frame; ClientFrame.mkFrame kind 0 0 payload] /\
    printed c' = printed c ++ (if ok then [lit "ok"] else []))).
  { rewrite runs_bind. eapply runs_mono; [by apply (exchange_runs kind payload expected name ack reply rest c)|]. intros r c1 (-> & Hc1 & R1 & P1). cbv beta iota.
    rewrite Hop. cbn [payload_of]. rewrite runs_bind, runs_ret. unfold finish_operation. cbn [fst snd]. destruct ok.
    - eapply runs_mono; [by apply println_runs|]. intros r c2 (-> & Hc2 & R2 & P2). split_and!; [done|done|congruence|congruence].
    - unfold invalid. rewrite runs_fail, app_nil_r. done. }
  revert Hs. unfold operation, confirm, exchange, runs, mbind, M_bind.
  destruct (connect_and_hello _ _ _ _ _ c) as [[[u|e] c1]|]; done.
Qed.

Lemma tag_add id action tag c : Command.is_word action ["add"] = true ->
  tag_session connected uid pid cleared source id action (Some tag) c
  = operation connected uid pid cleared source ClientFrame.TagAdd (ClientMessages.encode_tag id tag) ClientFrame.TagAddResp "TAG_ADD_RESP" c.
Proof. intros E. unfold tag_session, operation. by rewrite E. Qed.
Lemma tag_remove id action tag c : Command.is_word action ["add"] = false -> Command.is_word action ["remove"] = true ->
  tag_session connected uid pid cleared source id action (Some tag) c
  = operation connected uid pid cleared source ClientFrame.TagRemove (ClientMessages.encode_tag id tag) ClientFrame.TagRemoveResp "TAG_REMOVE_RESP" c.
Proof. intros E E'. unfold tag_session, operation. by rewrite E, E'. Qed.
End requests.

(** ** Searching the logs *)

Section search.
Context (max_files : N) (lowercase : str -> str) (directory : option (list (option bytes))) (open : str -> option LogFile).
Context (keyword : str) (case_insensitive : bool).
#[local] Abbreviation found := (matched lowercase keyword case_insensitive).

(** The lines of a file that are shown, the first with number [n]. *)
Definition line_matches (sid : N) (n : nat) (l : bytes) : list str :=
  match from_utf8 l with Some line => if found line then [match_line sid n line] else [] | None => [] end.
Fixpoint matches_from (sid : N) (n : nat) (lines : list bytes) : list str :=
  match lines with [] => [] | l :: lines' => line_matches sid n l ++ matches_from sid (S n) lines' end.
Definition file_matches (name : str) : list str :=
  match open name with
  | Some (Regular bs) => matches_from (shown_id name) 0 (Text.lines bs)
  | _ => []
  end.

Lemma writeln_runs operation line c : terminal c = [] ->
  runs (writeln operation line) c (fun r c' => r = Ok tt /\ terminal c' = [] /\ printed c' = printed c ++ [line]).
Proof. intros Ht. unfold runs, writeln, get, mbind, M_bind. rewrite Ht. done. Qed.

Lemma search_lines_runs bs sid fuel n total c : terminal c = [] -> (length (Text.lines bs) - n < fuel)%nat ->
  runs (search_lines lowercase fuel (Regular bs) sid keyword case_insensitive n total) c (fun r c' =>
    let shown := matches_from sid n (drop n (Text.lines bs)) in
    r = Ok (Some (total + lenN shown)) /\ terminal c' = [] /\ printed c' = printed c ++ shown).
Proof.
  revert n total c. induction fuel as [|fuel IH]; intros n total c Ht Hf; [lia|]. cbn [search_lines read_line].
  destruct (Text.lines bs !! n) as [l|] eqn:El.
  - rewrite (drop_S _ _ _ El). cbn [matches_from]. apply lookup_lt_Some in El. unfold line_matches.
    assert (Hnext : forall total c, terminal c = [] -> runs (search_lines lowercase fuel (Regular bs) sid keyword case_insensitive (S n) total) c
      (fun r c' => let shown := matches_from sid (S n) (drop (S n) (Text.lines bs)) in
        r = Ok (Some (total + lenN shown)) /\ terminal c' = [] /\ printed c' = printed c ++ shown)) by (intros; apply IH; [done|lia]).
    destruct (from_utf8 l) as [line|]; [|by apply Hnext]. destruct (found line); [|by apply Hnext].
    rewrite runs_bind. eapply runs_mono; [by apply writeln_runs|]. intros r c1 (-> & Ht1 & P1). cbv beta iota.
    eapply runs_mono; [by apply Hnext|]. cbv zeta. intros r c2 (-> & Ht2 & P2). split_and!; [|done|].
    + do 2 f_equal. rewrite lenN_app. change (lenN [_]) with 1. lia.
    + by rewrite P2, P1, <- app_assoc.
  - rewrite drop_ge by by apply lookup_ge_None. rewrite runs_ret. cbn. rewrite N.add_0_r, app_nil_r. done.
Qed.

Lemma search_files_runs fuel names total c : terminal c = [] ->
  (forall name f, name ∈ names -> open name = Some f -> exists bs, f = Regular bs /\ (length (Text.lines bs) < fuel)%nat) ->
  runs (search_files lowercase open fuel names keyword case_insensitive total) c (fun r c' =>
    let shown := concat (map file_matches names) in
    r = Ok (Some (total + lenN shown)) /\ terminal c' = [] /\ printed c' = printed c ++ shown).
Proof.
  revert total c. induction names as [|name names IH]; intros total c Ht Hf; cbn [search_files map concat].
  { rewrite runs_ret. cbn. rewrite N.add_0_r, app_nil_r. done. }
  assert (Hrest : forall total c, terminal c = [] -> runs (search_files lowercase open fuel names keyword case_insensitive total) c (fun r c' =>
    let shown := concat (map file_matches names) in
    r = Ok (Some (total + lenN shown)) /\ terminal c' = [] /\ printed c' = printed c ++ shown)).
  { intros t c1 Ht1. apply IH; [done|]. intros name' f Hin. apply Hf. by constructor. }
  destruct (open name) as [f|] eqn:Eo.
  2: { assert (Em : file_matches name = []) by (unfold file_matches; by rewrite Eo). rewrite Em. by apply Hrest. }
  destruct (Hf name f ltac:(by constructor) Eo) as (bs & -> & Hl).
  assert (Em : file_matches name = matches_from (shown_id name) 0 (Text.lines bs)) by (unfold file_matches; by rewrite Eo). rewrite Em.
  rewrite runs_bind. eapply runs_mono; [apply search_lines_runs; [done|lia]|]. cbv zeta. intros r c1 (-> & Ht1 & P1). cbv beta iota.
  rewrite drop_0 in *. eapply runs_mono; [by apply Hrest|]. cbv zeta. intros r c2 (-> & Ht2 & P2). split_and!; [|done|].
  - do 2 f_equal. rewrite lenN_app. lia.
  - by rewrite P2, P1, <- app_assoc.
Qed.

(** C37: When every log that can be opened is a regular file, and the terminal
    takes what is printed, a search comes to its end and shows exactly the lines
    of the session's logs that match, file by file, in order, with their numbers;
    or that there are none.  Lines that are not UTF-8 are passed over; they
    count for the numbers.  ([log_search_hangs]: among anything else that can be
    opened the search never ends.) *)
Theorem log_search_exact session_id fuel c : terminal c = [] ->
  (forall name f, name ∈ file_names max_files directory session_id -> open name = Some f ->
    exists bs, f = Regular bs /\ (length (Text.lines bs) < fuel)%nat) ->
  runs (log_search max_files lowercase true directory open fuel keyword session_id case_insensitive) c (fun r c' =>
    r = Ok (Some tt) /\
    printed c' = printed c ++ match concat (map file_matches (file_names max_files directory session_id)) with [] => [lit "(no matches)"] | l => l end).
Proof.
  intros Ht Hf. unfold log_search. cbn [negb]. rewrite runs_bind. eapply runs_mono; [by apply search_files_runs|].
  cbv zeta. intros r c1 (-> & Ht1 & P1). cbv beta iota. rewrite runs_bind. destruct (concat _) as [|l ls] eqn:E.
  - cbn. eapply runs_mono; [by apply writeln_runs|]. intros r c2 (-> & Ht2 & P2). split; [done|]. by rewrite P2, P1, app_nil_r.
  - rewrite (proj2 (N.eqb_neq _ _)) by (rewrite lenN_cons; lia). rewrite !runs_ret. done.
Qed.

Lemma search_lines_ends f fuel sid n total c : terminal c = [] ->
  runs (search_lines lowercase fuel f sid keyword case_insensitive n total) c (fun r c' =>
    (exists o, r = Ok o /\ (f = NoRegular -> o = None)) /\ terminal c' = []).
Proof.
  revert n total c. induction fuel as [|fuel IH]; intros n total c Ht; [split; [by exists None|done]|]. cbn [search_lines].
  destruct (read_line f n) eqn:El; [|by apply IH|].
  - rewrite runs_ret. split; [|done]. eexists. split; [done|]. intros ->. discriminate El.
  - destruct (found s); [|by apply IH]. rewrite runs_bind. eapply runs_mono; [by apply writeln_runs|]. intros r c1 (-> & Ht1 & _). by apply IH.
Qed.

Lemma search_files_hangs fuel names name total c : terminal c = [] -> name ∈ names -> open name = Some NoRegular ->
  runs (search_files lowercase open fuel names keyword case_insensitive total) c (fun r _ => r = Ok None).
Proof.
  intros Ht Hin Ho. revert total c Ht. induction names as [|name' names IH]; [by apply not_elem_of_nil in Hin|].
  intros total c Ht. cbn [search_files]. destruct (open name') as [f|] eqn:Eo.
  - rewrite runs_bind. eapply runs_mono; [by apply search_lines_ends|]. intros r c1 [(o & -> & Hn) Ht1]. cbv beta iota.
    destruct o as [t|]; [|done]. apply elem_of_cons in Hin as [<-|Hin].
    + rewrite Ho in Eo. injection Eo as <-. by specialize (Hn eq_refl).
    + by apply IH.
  - apply elem_of_cons in Hin as [<-|Hin]; [congruence|by apply IH].
Qed.

(** When something among the logs can be opened and not be read, a directory
    with the name of a log, a search never comes to its end. *)
Theorem log_search_hangs session_id fuel c name : terminal c = [] -> name ∈ file_names max_files directory session_id -> open name = Some NoRegular ->
  runs (log_search max_files lowercase true directory open fuel keyword session_id case_insensitive) c (fun r _ => r = Ok None).
Proof.
  intros Ht Hin Ho. unfold log_search. cbn [negb]. rewrite runs_bind.
  eapply runs_mono; [by eapply search_files_hangs|]. by intros r c1 ->.
Qed.
End search.
End SessionCommands.
