(* ===== verification/CommandEffects.v ===== *)
(** * CommandEffects: a command and the daemon that answers it.

    Joins the client of SessionCommands.v with the handlers of DaemonServer.v:
    the frames that [session.rs] writes, what [handle_client] of [server.rs] does
    with them, and what the user is told. *)
From S2P Require Import Prelude OrderedMap Bytes Utf8 Environment Effects ClientFrame ClientMessages Metadata Reconcile HolderBackend Daemon DaemonThreads DaemonServer DaemonSamples Text CommandLine SessionCommands PublicAttach ClientAttach.
From Stdlib Require Import Lia.
Import String.StringSyntax.
Import Environment(SnapshotJson).
Import Metadata(SessionRecord, MetadataStore, Db, H).
Import Threads.
Import SessionCommands(Console, mkConsole, requests, printed, ready, hello_frame, run_with_io_mode, FileAnswer, LogFile).
Local Open Scope N_scope.

Module CommandEffects.

(** ** Changes *)

(** The frame of a command that changes what is stored of a session. *)
Definition request_of (c : Command.Command) : option ClientFrame.Frame :=
  match c with
  | Command.Rename id name => Some (ClientFrame.mkFrame ClientFrame.Rename 0 0 (ClientMessages.encode_rename id name))
  | Command.Note id (Some text) => Some (ClientFrame.mkFrame ClientFrame.NoteSet 0 0 (ClientMessages.encode_note id text))
  | Command.Tag id action (Some tag) =>
      if Command.is_word action ["add"] then Some (ClientFrame.mkFrame ClientFrame.TagAdd 0 0 (ClientMessages.encode_tag id tag))
      else if Command.is_word action ["remove"] then Some (ClientFrame.mkFrame ClientFrame.TagRemove 0 0 (ClientMessages.encode_tag id tag))
      else None
  | Command.Pin id pinned => Some (ClientFrame.mkFrame ClientFrame.PinSet 0 0 (ClientMessages.encode_pin id pinned))
  | Command.Lock id locked => Some (ClientFrame.mkFrame ClientFrame.LockSet 0 0 (ClientMessages.encode_lock id locked))
  | _ => None
  end.

Definition reply_of (c : Command.Command) : ClientFrame.MessageType :=
  match c with
  | Command.Rename _ _ => ClientFrame.RenameResp
  | Command.Note _ _ => ClientFrame.NoteSetResp
  | Command.Tag _ action _ => if Command.is_word action ["add"] then ClientFrame.TagAddResp else ClientFrame.TagRemoveResp
  | Command.Lock _ _ => ClientFrame.LockSetResp
  | _ => ClientFrame.PinSetResp
  end.

(** A text that fits in its message. *)
Definition text_ok (s : str) : Prop := str_ok s /\ lenN s <= u16_max.
Definition texts_ok (c : Command.Command) : Prop :=
  match c with
  | Command.Rename _ s | Command.Note _ (Some s) | Command.Tag _ _ (Some s) => text_ok s
  | _ => True
  end.

Definition row_shows (id : N) (P : SessionRecord -> Prop) (s : MetadataStore) : Prop :=
  exists r, Metadata.sessions s !! id = Some r /\ P r.

(** What is stored when the command was done, and its text came as [cut] says. *)
Definition shows (cut : str -> str) (c : Command.Command) (s : MetadataStore) : Prop :=
  match c with
  | Command.Rename id name => row_shows id (fun r => Metadata.name r = cut name) s
  | Command.Note id (Some text) =>
      row_shows id (fun r => Metadata.note r = if bool_decide (cut text = []) then None else Some (cut text)) s
  | Command.Tag id action (Some tag) =>
      if Command.is_word action ["add"] then (id, cut tag) ∈ Metadata.session_tags s
      else (id, cut tag) ∉ Metadata.session_tags s
  | Command.Pin id pinned => row_shows id (fun r => Metadata.pinned r = pinned) s
  | Command.Lock id locked => row_shows id (fun r => Metadata.locked r = locked) s
  | _ => True
  end.

(** A text that fits arrives as it was typed. *)
Lemma shows_whole c s : texts_ok c -> shows Cursor.clip c s -> shows id c s.
Proof.
  destruct c; try done; cbn [texts_ok shows]; unfold id.
  - intros [Ht Hl]. by rewrite Cursor.clip_id.
  - destruct text as [text|]; [|done]. intros [Ht Hl]. by rewrite Cursor.clip_id.
  - destruct tag as [tag|]; [|done]. intros [Ht Hl]. by rewrite Cursor.clip_id.
Qed.

(** ** The statements *)

(** A statement that was done shows [P]; one that failed changed nothing. *)
Definition all_or_none (P : MetadataStore -> Prop) (f : Db -> H unit) : Prop :=
  forall db s, runs (f db) s (fun r s' => match r with Ok _ => P s' | Err _ => s' = s end).

Lemma store_eta s : Metadata.mkStore (Metadata.sessions s) (Metadata.session_tags s) = s.
Proof. by destruct s. Qed.

Lemma update_all_or_none operation id (f : Db -> SessionRecord -> SessionRecord) (P : SessionRecord -> Prop) :
  (forall db r, P (f db r)) ->
  all_or_none (row_shows id P) (fun db => affected ← Metadata.update db operation id (f db); Effects.lift (Metadata.require_session_updated affected)).
Proof.
  intros HP db s. unfold Metadata.update. rewrite runs_bind. destruct (Metadata.answers db); [|by rewrite runs_fail].
  rewrite runs_bind, runs_get, runs_bind, runs_modify, runs_ret, runs_lift. unfold Metadata.set_sessions.
  destruct (Metadata.sessions s !! id) as [r|] eqn:E; cbn.
  - exists (f db r). cbn. by rewrite lookup_alter_eq, E.
  - rewrite alter_id by (intros r; by rewrite E). apply store_eta.
Qed.

Lemma add_tag_all_or_none foreign_keys id tag :
  all_or_none (fun s => (id, tag) ∈ Metadata.session_tags s) (fun db => Metadata.add_session_tag foreign_keys db id tag).
Proof.
  intros db s. unfold Metadata.add_session_tag. destruct (Metadata.blank tag || _); [by rewrite runs_fail|].
  rewrite runs_bind, runs_get. destruct (Metadata.answers db && _); [|by rewrite runs_fail]. rewrite runs_modify. cbn. set_solver.
Qed.
Lemma remove_tag_all_or_none id tag :
  all_or_none (fun s => (id, tag) ∉ Metadata.session_tags s) (fun db => Metadata.remove_session_tag db id tag).
Proof.
  intros db s. unfold Metadata.remove_session_tag. destruct (Metadata.answers db); [|by rewrite runs_fail].
  rewrite runs_bind, runs_get. case_bool_decide; [|by rewrite runs_fail]. rewrite runs_modify. cbn. set_solver.
Qed.

(** ** The handlers *)

(** The branch of [handle_frame] that a frame belongs to. *)
Ltac handled := unfold DaemonServer.handle_frame; cbv zeta; cbn [ClientFrame.msg_type ClientFrame.payload]; unfold DaemonServer.decoded.

Section effects.
Context `{SnapshotJson} (show : persist_error -> str) (json_text : DaemonServer.Json -> str)
  (entries_of : str -> option (list (str * str))) (holder_pid : N) (foreign_keys : bool).
Context {B : Type} `{HolderService B} (os : Os) (fd : N).

Definition op_payload (r : result persist_error unit) : bytes :=
  match r with Ok _ => ClientMessages.encode_op_resp true [] | Err e => ClientMessages.encode_op_resp false (show e) end.

(** One answer, and what it says is true of what is stored. *)
Definition truthful (kind : ClientFrame.MessageType) (P : MetadataStore -> Prop) (w : World B) (r : result persist_error unit) (w' : World B) : Prop :=
  r = Ok tt /\ exists done : result persist_error unit,
    sent w' = sent w ++ [(fd, ClientFrame.mkFrame kind 0 0 (op_payload done))] /\
    match done with Ok _ => P (metadata w') | Err _ => metadata w' = metadata w end.

Lemma op_resp_truthful kind P w w0 done :
  sent w = sent w0 -> match done with Ok _ => P (metadata w) | Err _ => metadata w = metadata w0 end ->
  runs (run os (DaemonServer.op_resp show fd kind done)) w (truthful kind P w0).
Proof.
  intros Hs Hd. unfold DaemonServer.op_resp, DaemonServer.respond. rewrite runs_send. split; [done|]. exists done. cbn. rewrite Hs. by destruct done.
Qed.

(** A change in one statement, and what follows when it was done. *)
Lemma statement_truthful kind P f (after : result persist_error unit -> Thread unit) w : all_or_none P f ->
  (forall r w1 Q, (forall w2, metadata w2 = metadata w1 -> sent w2 = sent w1 -> Q (Ok tt) w2) -> runs (run os (after r)) w1 Q) ->
  runs (run os (result ← attempt (ms f); _ ← after result; DaemonServer.op_resp show fd kind result)) w (truthful kind P w).
Proof.
  intros Hf Ha. thread. eapply runs_mono; [apply Hf|]. intros r s Hr. cbv beta.
  rewrite runs_thread_bind. apply Ha. intros w2 Hm Hs. cbv beta iota. apply op_resp_truthful; [by rewrite Hs|]. rewrite Hm. by destruct r.
Qed.

Lemma simple_truthful kind P f w : all_or_none P f ->
  runs (run os (result ← attempt (ms f); DaemonServer.op_resp show fd kind result)) w (truthful kind P w).
Proof.
  intros Hf. thread. eapply runs_mono; [apply Hf|]. intros r s Hr. cbv beta. by apply op_resp_truthful.
Qed.

Lemma rename_truthful id name w :
  runs (run os (DaemonServer.handle_rename show fd id name)) w (truthful ClientFrame.RenameResp (row_shows id (fun r => Metadata.name r = name)) w).
Proof.
  unfold DaemonServer.handle_rename. thread. destruct (Daemon.validate_session_name name) as [u|e]; [|by apply op_resp_truthful].
  thread. destruct (Daemon.session_name id (manager w)) as [known|] eqn:Ek; cbn [ok_or]; thread; [|by apply op_resp_truthful].
  eapply runs_mono.
  { apply (update_all_or_none "rename session" id (fun db r => Metadata.set_name r name (Metadata.now db)) (fun r => Metadata.name r = name)). done. }
  intros [u'|e] s Hs; cbv beta iota; [|by apply op_resp_truthful]. thread.
  unfold Daemon.rename_session, Daemon.session_name in *. cbn [manager ticked].
  destruct (Daemon.session_info (manager w) !! id); [|done]. cbn [fst snd]. by apply op_resp_truthful.
Qed.

Lemma note_read id text : is_u32 id -> ClientMessages.decode_note (ClientMessages.encode_note id text) = Some (id, Cursor.clip text).
Proof. exact (ClientMessages.rename_round id text). Qed.
Lemma tag_read id tag : is_u32 id -> ClientMessages.decode_tag (ClientMessages.encode_tag id tag) = Some (id, Cursor.clip tag).
Proof. exact (ClientMessages.rename_round id tag). Qed.

(** The handler of a change does what the command says, or nothing, and says
    which. *)
Lemma change_truthful c f w : request_of c = Some f -> Command.well_formed c = true ->
  runs (run os (DaemonServer.handle_frame show json_text entries_of holder_pid foreign_keys fd f)) w (truthful (reply_of c) (shows Cursor.clip c) w).
Proof.
  intros Hr Hw.
  assert (Hid : forall id, Command.id_ok id = true -> is_u32 id) by (intros id Hi; apply N.leb_le in Hi; unfold is_u32, u32_max in *; lia).
  assert (Hflag : forall id b, is_u32 id -> ClientMessages.decode_pin (ClientMessages.encode_pin id b) = Some (id, b) /\
    ClientMessages.decode_lock (ClientMessages.encode_lock id b) = Some (id, b)).
  { intros id b Hi. assert (Hs : ClientMessages.stats_ok (ClientMessages.mkStats None 0 0 0 0 0)) by by repeat split.
    destruct (ClientMessages.number_messages_roundtrip id b 0 0 0 0 _ Hi eq_refl eq_refl eq_refl ltac:(done) Hs) as (_ & _ & Hlock & Hpin & _). done. }
  destruct c; try discriminate Hr; cbn [request_of] in Hr; cbn [Command.well_formed] in Hw.
  - injection Hr as <-. handled. rewrite ClientMessages.rename_round by eauto. apply rename_truthful.
  - destruct text as [text|]; [|done]. injection Hr as <-. handled. rewrite note_read by eauto.
    apply simple_truthful. by apply (update_all_or_none "set session note" session_id
      (fun db r => Metadata.set_note r (if bool_decide (Cursor.clip text = []) then None else Some (Cursor.clip text)) (Metadata.now db))).
  - destruct tag as [tag|]; [|done]. apply andb_true_iff in Hw as [Hw _]. unfold shows, reply_of.
    destruct (Command.is_word action ["add"]); [|destruct (Command.is_word action ["remove"]); [|done]]; injection Hr as <-.
    + handled. rewrite tag_read by eauto. exact (simple_truthful _ _ _ w (add_tag_all_or_none foreign_keys session_id (Cursor.clip tag))).
    + handled. rewrite tag_read by eauto. exact (simple_truthful _ _ _ w (remove_tag_all_or_none session_id (Cursor.clip tag))).
  - injection Hr as <-. handled. rewrite (proj1 (Hflag session_id pinned (Hid _ Hw))).
    apply simple_truthful. by apply (update_all_or_none "set session pinned" session_id (fun db r => Metadata.set_pinned r pinned (Metadata.now db))).
  - injection Hr as <-. handled. rewrite (proj2 (Hflag session_id locked (Hid _ Hw))).
    apply (statement_truthful _ _ _ (fun r => if is_ok r then sm_update (Daemon.set_locked session_id locked) else mret tt)).
    + by apply (update_all_or_none "set session locked" session_id (fun db r => Metadata.set_locked r locked (Metadata.now db))).
    + intros r w1 Q HQ. destruct (is_ok r); thread; by apply HQ.
Qed.

(** ** The command and the daemon *)

Context (uid pid : N) (source : str) (json_error : str -> option (option str)) (session_log : bool) (data_dir : str) (max_files : N)
  (read_file : str -> FileAnswer) (not_utf8 : str) (lowercase : str -> str) (exists_dir : bool) (directory : option (list (option bytes)))
  (open : str -> option LogFile) (created written : result str unit) (other : Command.Command -> M Console Errors.PersistError unit)
  (version : str) (disabled : result Errors.PersistError unit) (fuel : nat) (interactive : bool).

(** A command while nothing of the console fails and the daemon lets it in. *)
Definition type_command (args : list str) (c : Console) : option (option N * str * Console) :=
  run_with_io_mode (Ok tt) uid pid (Ok tt) source json_error session_log data_dir max_files read_file not_utf8 lowercase exists_dir directory
    open created written other version (Ok tt) disabled fuel args interactive c.

(** How the operation of a change ends. *)
Definition told (ok : bool) (message : str) (f : ClientFrame.Frame) (c : Console) (r : result Errors.PersistError unit) (c' : Console) : Prop :=
  r = (if ok then Ok tt else Err (Errors.InvalidArgument message)) /\
  requests c' = requests c ++ [hello_frame uid pid; f] /\ printed c' = printed c ++ (if ok then [lit "ok"] else []).

Lemma tag_finished id action tag m c :
  SessionCommands.tag_session (Ok tt) uid pid (Ok tt) source id action tag c = m c ->
  SessionCommands.execute_with_optional_config (Ok tt) uid pid (Ok tt) source json_error session_log data_dir max_files read_file not_utf8
    lowercase exists_dir directory open created written other version (Ok tt) disabled fuel (Command.Tag id action tag) interactive c
  = SessionCommands.finished m c.
Proof. intros E. unfold SessionCommands.finished, mbind, M_bind. by rewrite <- E. Qed.

Lemma change_told c f ack reply rest console ok message : request_of c = Some f -> Command.well_formed c = true ->
  ClientFrame.frame_ok ack -> ClientFrame.msg_type ack = ClientFrame.HelloAck ->
  ClientFrame.frame_ok reply -> ClientFrame.msg_type reply = reply_of c ->
  ready (ClientFrame.write_frame ack ++ ClientFrame.write_frame reply ++ rest) console ->
  ClientMessages.decode_op_resp (ClientFrame.payload reply) = Some (ok, message) ->
  exists r console', told ok message f console r console' /\
    type_command (lit "persist" :: Command.command_line c) console =
      match r with Ok _ => Some (Some 0, [], console')
                 | Err e => Some (Some (Errors.exit_code e), Errors.user_facing (lit "persist") e ++ [byte_of 10], console') end.
Proof.
  intros Hr Hw G1 G2 G3 G4 G5 G6. unfold type_command, run_with_io_mode. cbn [tail]. rewrite Command.canonical_line by done.
  assert (Hop : forall kind payload expected name, reply_of c = expected -> f = ClientFrame.mkFrame kind 0 0 payload ->
    runs (SessionCommands.operation (Ok tt) uid pid (Ok tt) source kind payload expected name) console (told ok message f console)).
  { intros kind payload expected name He ->. eapply runs_mono.
    - apply (SessionCommands.operation_runs (Ok tt) uid pid (Ok tt) source kind payload expected name ack reply rest console ok message); try done. congruence.
    - intros r c' (Hres & _ & Hreq & Hpr). done. }
  assert (Hrun : forall m : M Console Errors.PersistError unit, runs m console (told ok message f console) ->
    SessionCommands.execute_with_optional_config (Ok tt) uid pid (Ok tt) source json_error session_log data_dir max_files read_file not_utf8
      lowercase exists_dir directory open created written other version (Ok tt) disabled fuel c interactive console
      = SessionCommands.finished m console ->
    exists r console', told ok message f console r console' /\
      match SessionCommands.execute_with_optional_config (Ok tt) uid pid (Ok tt) source json_error session_log data_dir max_files read_file
        not_utf8 lowercase exists_dir directory open created written other version (Ok tt) disabled fuel c interactive console with
      | None => None
      | Some (Ok (Some _), c) => Some (Some 0, [], c)
      | Some (Ok None, c) => Some (None, [], c)
      | Some (Err e, c) => Some (Some (Errors.exit_code e), Errors.user_facing (lit "persist") e ++ [byte_of 10], c)
      end = match r with Ok _ => Some (Some 0, [], console')
                 | Err e => Some (Some (Errors.exit_code e), Errors.user_facing (lit "persist") e ++ [byte_of 10], console') end).
  { intros m Hm E. unfold runs in Hm. destruct (m console) as [[r c']|] eqn:Em; [|done]. exists r, c'. split; [exact Hm|].
    rewrite E. unfold SessionCommands.finished, mbind, M_bind. rewrite Em. by destruct r. }
  destruct c; try discriminate Hr; cbn [request_of reply_of] in Hr.
  - injection Hr as <-. exact (Hrun _ (Hop ClientFrame.Rename _ ClientFrame.RenameResp "RENAME_RESP"%string eq_refl eq_refl) eq_refl).
  - destruct text as [text|]; [|done]. injection Hr as <-. exact (Hrun _ (Hop ClientFrame.NoteSet _ ClientFrame.NoteSetResp "NOTE_SET_RESP"%string eq_refl eq_refl) eq_refl).
  - destruct tag as [tag|]; [|done]. unfold reply_of in *.
    destruct (Command.is_word action ["add"]) eqn:Ea; [|destruct (Command.is_word action ["remove"]) eqn:Er; [|done]]; injection Hr as <-.
    + apply (Hrun _ (Hop ClientFrame.TagAdd _ ClientFrame.TagAddResp "TAG_ADD_RESP"%string eq_refl eq_refl)). by apply tag_finished, SessionCommands.tag_add.
    + apply (Hrun _ (Hop ClientFrame.TagRemove _ ClientFrame.TagRemoveResp "TAG_REMOVE_RESP"%string eq_refl eq_refl)). by apply tag_finished, SessionCommands.tag_remove.
  - injection Hr as <-. exact (Hrun _ (Hop ClientFrame.PinSet _ ClientFrame.PinSetResp "PIN_SET_RESP"%string eq_refl eq_refl) eq_refl).
  - injection Hr as <-. exact (Hrun _ (Hop ClientFrame.LockSet _ ClientFrame.LockSetResp "LOCK_SET_RESP"%string eq_refl eq_refl) eq_refl).
Qed.

Lemma op_payload_ok done kind : ClientFrame.is_io_message kind = false -> ClientFrame.frame_ok (ClientFrame.mkFrame kind 0 0 (op_payload done)).
Proof.
  intros Hk. split_and!; [done..|]. unfold ClientFrame.limit. cbn [ClientFrame.msg_type ClientFrame.payload]. rewrite Hk.
  assert (Hp : forall ok m, lenN (ClientMessages.encode_op_resp ok m) <= ClientFrame.MAX_CONTROL_FRAME).
  { intros ok m. unfold ClientMessages.encode_op_resp. rewrite !lenN_app, lenN_takeN. change (lenN [_]) with 1.
    change (lenN (u16_be _)) with 2. unfold Cursor.clip_len, u16_max, ClientFrame.MAX_CONTROL_FRAME. lia. }
  destruct done; apply Hp.
Qed.

Lemma request_ok c f : request_of c = Some f -> ClientFrame.frame_ok f.
Proof.
  assert (Ht : forall id s, lenN (ClientMessages.encode_rename id s) <= ClientFrame.MAX_CONTROL_FRAME).
  { intros id s. unfold ClientMessages.encode_rename. rewrite !lenN_app, lenN_takeN. change (lenN (u32_be _)) with 4.
    change (lenN (u16_be _)) with 2. unfold Cursor.clip_len, u16_max, ClientFrame.MAX_CONTROL_FRAME. lia. }
  assert (Hf : forall kind id s, ClientFrame.is_io_message kind = false ->
    ClientFrame.frame_ok (ClientFrame.mkFrame kind 0 0 (ClientMessages.encode_rename id s))).
  { intros kind id s Hk. split_and!; [done..|]. unfold ClientFrame.limit. cbn [ClientFrame.msg_type]. rewrite Hk. apply Ht. }
  destruct c; try discriminate; cbn [request_of].
  - intros [= <-]. by apply Hf.
  - destruct text; [|done]. intros [= <-]. by apply (Hf ClientFrame.NoteSet).
  - destruct tag; [|done]. destruct (Command.is_word _ _); [intros [= <-]; by apply (Hf ClientFrame.TagAdd)|].
    destruct (Command.is_word _ _); [|done]. intros [= <-]. by apply (Hf ClientFrame.TagRemove).
  - intros [= <-]. done.
  - intros [= <-]. done.
Qed.

(** C10: A command that renames a session, sets its note, adds or removes a tag,
    pins or locks it reports the truth: the daemon reads the frame that the
    command writes and answers it, and the command either ends with exit code 0
    and prints "ok", and what is stored is then as the command says, or it ends
    with exit code 1 and nothing that is stored has changed.  A text is stored as
    it was typed if it has at most 65535 bytes; of a longer one the message has,
    and the daemon stores, the first 65535 bytes. *)
Theorem change_reported c f w : request_of c = Some f -> Command.well_formed c = true ->
  ClientFrame.try_read (ClientFrame.mkAccumulator (ClientFrame.write_frame f)) = Ok (Some f, ClientFrame.new) /\
  exists w' reply, run os (DaemonServer.handle_frame show json_text entries_of holder_pid foreign_keys fd f) w = Some (Ok tt, w') /\
    sent w' = sent w ++ [(fd, reply)] /\
    forall ack rest console, ClientFrame.frame_ok ack -> ClientFrame.msg_type ack = ClientFrame.HelloAck ->
      ready (ClientFrame.write_frame ack ++ ClientFrame.write_frame reply ++ rest) console ->
      exists code err console', type_command (lit "persist" :: Command.command_line c) console = Some (Some code, err, console') /\
        requests console' = requests console ++ [hello_frame uid pid; f] /\
        (code = 0 /\ printed console' = printed console ++ [lit "ok"] /\ shows Cursor.clip c (metadata w') /\ (texts_ok c -> shows id c (metadata w')) \/
         code = 1 /\ printed console' = printed console /\ metadata w' = metadata w).
Proof.
  intros Hr Hw. split.
  { pose proof (ClientFrame.client_try_read_frame f [] (request_ok c f Hr)) as E. by rewrite app_nil_r in E. }
  pose proof (change_truthful c f w Hr Hw) as Hrun. unfold runs in Hrun.
  destruct (run os _ w) as [[r w']|] eqn:E; [|done]. destruct Hrun as (-> & done & Hsent & Hdone).
  exists w', (ClientFrame.mkFrame (reply_of c) 0 0 (op_payload done)). split_and!; [done..|].
  intros ack rest console Hack Hkind Hready.
  assert (Hop : exists message, ClientMessages.decode_op_resp (op_payload done) = Some (is_ok done, message)).
  { destruct done; cbn [op_payload is_ok]; rewrite ClientMessages.op_resp_round; eauto. }
  destruct Hop as [message Hop].
  destruct (change_told c f ack (ClientFrame.mkFrame (reply_of c) 0 0 (op_payload done)) rest console (is_ok done) message) as (r & console' & (Hres & Hreq & Hpr) & Et); try done.
  { apply op_payload_ok. destruct c; try discriminate Hr; try done. unfold reply_of. by destruct (Command.is_word _ _). }
  rewrite Et, Hres. destruct done; cbn [is_ok] in *.
  - exists 0, [], console'. split_and!; [done..|]. left. split_and!; [done..|]. intros Ht. by apply shows_whole.
  - eexists 1, _, console'. split_and!; [done..|]. right. rewrite Hpr, app_nil_r. done.
Qed.

(** ** Detaching another client *)

(** The daemon says of every session that it was detached: [persist detach]
    prints "ok" and ends with exit code 0, whether or not anybody is attached,
    and even when there is no such session. *)
Theorem detach_always_ok id w : Command.id_ok id = true ->
  exists w' reply, run os (DaemonServer.handle_frame show json_text entries_of holder_pid foreign_keys fd
      (ClientFrame.mkFrame ClientFrame.DetachSignal 0 0 (ClientMessages.encode_detach id))) w = Some (Ok tt, w') /\
    sent w' = sent w ++ [(fd, reply)] /\
    forall ack rest console, ClientFrame.frame_ok ack -> ClientFrame.msg_type ack = ClientFrame.HelloAck ->
      ready (ClientFrame.write_frame ack ++ ClientFrame.write_frame reply ++ rest) console ->
      exists console', type_command [lit "persist"; lit "detach"; Daemon.decimal id] console = Some (Some 0, [], console') /\
        printed console' = printed console ++ [lit "ok"].
Proof.
  intros Hid. assert (Hi : is_u32 id) by (apply N.leb_le in Hid; unfold is_u32, u32_max in *; lia).
  assert (Hrun : runs (run os (DaemonServer.handle_frame show json_text entries_of holder_pid foreign_keys fd
      (ClientFrame.mkFrame ClientFrame.DetachSignal 0 0 (ClientMessages.encode_detach id)))) w
    (fun r w' => r = Ok tt /\ sent w' = sent w ++ [(fd, ClientFrame.mkFrame ClientFrame.DetachSignalResp 0 0 (ClientMessages.encode_op_resp true []))])).
  { handled. assert (Hd : ClientMessages.decode_detach (ClientMessages.encode_detach id) = Some id).
    { apply ClientMessages.run_need; [done|]. by apply Cursor.run_reads_all, Cursor.reads_u32. }
    rewrite Hd. unfold DaemonServer.handle_detach_signal, DaemonServer.respond. thread.
    destruct (Daemon.attached_sessions (manager w) !! id); thread; done. }
  unfold runs in Hrun. destruct (run os _ w) as [[r w']|]; [|done]. destruct Hrun as [-> Hsent].
  exists w', (ClientFrame.mkFrame ClientFrame.DetachSignalResp 0 0 (ClientMessages.encode_op_resp true [])). split_and!; [done..|].
  intros ack rest console Hack Hkind Hready.
  pose proof (SessionCommands.exchange_runs (Ok tt) uid pid (Ok tt) source ClientFrame.DetachSignal (ClientMessages.encode_detach id)
    ClientFrame.DetachSignalResp "DETACH_SIGNAL_RESP" ack _ rest console eq_refl eq_refl Hack Hkind
    (op_payload_ok (Ok tt) ClientFrame.DetachSignalResp eq_refl) eq_refl Hready) as He.
  assert (Hs : runs (SessionCommands.signal_detach (Ok tt) uid pid (Ok tt) source id) console
    (fun r c => r = Ok tt /\ printed c = printed console ++ [lit "ok"])).
  { unfold SessionCommands.signal_detach. rewrite runs_bind. eapply runs_mono; [exact He|]. intros r c1 (-> & Hc1 & _ & P1). cbv beta iota.
    rewrite runs_bind. change (ClientFrame.payload _) with (ClientMessages.encode_op_resp true []). rewrite ClientMessages.op_resp_round.
    cbn [SessionCommands.payload_of]. rewrite runs_ret. eapply runs_mono; [by eapply SessionCommands.println_runs|].
    intros r c2 (-> & _ & _ & P2). split; [done|]. by rewrite P2, P1. }
  unfold runs in Hs. destruct (SessionCommands.signal_detach _ _ _ _ _ _ console) as [[r console']|] eqn:E; [|done]. destruct Hs as [-> Hp].
  exists console'. split; [|done]. unfold type_command, run_with_io_mode. cbn [tail].
  change [lit "detach"; Daemon.decimal id] with (Command.command_line (Command.Detach id)).
  rewrite Command.canonical_line by exact Hid.
  unfold SessionCommands.execute_with_optional_config. cbn [Command.command_uses_config]. unfold mbind, M_bind, Effects.lift.
  cbn [SessionCommands.execute SessionCommands.with_config]. unfold SessionCommands.finished, mbind, M_bind. by rewrite E.
Qed.
End effects.

(** What the client that is attached gets is a single byte of value 1 (written by
    [handle_detach_signal]) between the frames of its session. *)
Section stray.
Import ClientAttach(Client, io_loop, Round, PollFailed, Interrupted, Polled, frames, heard, total).
Import PublicAttach(Chunk, Eof, Again, ReadFailed).

Definition chunk_of (r : Round) : bytes := match r with Polled _ (Some (Chunk bs)) _ _ _ => bs | _ => [] end.

(** Bytes that begin with that byte, and are no more than a frame may have. *)
Definition stuck (b : bytes) : Prop := lenN b <= 16777216 /\ match b with [] => True | x :: _ => x = byte_of 1 end.

Lemma stuck_prefix a b : stuck (a ++ b) -> stuck a.
Proof. intros [Hl Hh]. rewrite lenN_app in Hl. split; [lia|]. by destruct a. Qed.

Lemma stuck_waits b : stuck b -> ClientFrame.try_read (ClientFrame.mkAccumulator b) = Ok (None, ClientFrame.mkAccumulator b).
Proof.
  intros [Hl Hh]. unfold ClientFrame.try_read. cbn [ClientFrame.buf]. destruct (N.ltb_spec (lenN b) ClientFrame.HEADER_SIZE) as [|Hge]; [done|].
  destruct b as [|x b]; [done|]. subst x.
  rewrite (proj2 (N.ltb_lt _ _)); [done|].
  destruct b as [|b1 [|b2 [|b3 b]]]; [exfalso; by apply Hge..|].
  assert (Hv : be_val (slice (byte_of 1 :: b1 :: b2 :: b3 :: b) 0 4) = 16777216 + 65536 * byte_val b1 + 256 * byte_val b2 + byte_val b3).
  { change (slice (byte_of 1 :: b1 :: b2 :: b3 :: b) 0 4) with [byte_of 1; b1; b2; b3]. rewrite !be_val_cons. change (be_val []) with 0.
    change (byte_val (byte_of 1)) with 1. change (lenN [b1; b2; b3]) with 3. change (lenN [b2; b3]) with 2. change (lenN [b3]) with 1.
    change (lenN (A := byte) []) with 0. lia. }
  rewrite Hv. unfold ClientFrame.HEADER_SIZE. lia.
Qed.

(** What the client takes out of its bytes, and shows, is as before. *)
Definition same (c c' : Client) : Prop := frames c' = frames c /\ heard c' = heard c /\ total c' = total c.

Lemma write_same f c : runs (ClientAttach.write_frame f) c (fun _ c' => same c c').
Proof.
  unfold ClientAttach.write_frame. rewrite runs_bind, runs_get. destruct (ClientAttach.write_all _ _) as [[ok head] rest].
  destruct (if ok then _ else _) as [[ok' tail] rest']. rewrite runs_bind, runs_modify.
  destruct ok'; [rewrite runs_ret|rewrite runs_fail]; done.
Qed.
Lemma resize_same resized c : runs (ClientAttach.resize_if resized) c (fun r c' => r = Ok tt /\ same c c').
Proof.
  destruct resized as [size|]; [|done]. unfold ClientAttach.resize_if. rewrite runs_bind, runs_attempt.
  assert (Hs : runs (ClientAttach.send_resize size) c (fun _ c' => same c c')).
  { destruct size as [[rows cols]|]; [|done]. cbn [ClientAttach.send_resize].
    destruct (ClientAttach.terminal_resize_payload rows cols); [apply write_same|done]. }
  eapply runs_mono; [exact Hs|]. intros r c' Hc. by rewrite runs_ret.
Qed.

(** A read that keeps the client stuck. *)
Definition fed (b : bytes) (c : Client) (c' : Client) : Prop :=
  ClientFrame.buf (frames c') = ClientFrame.buf (frames c) ++ b /\ heard c' = heard c /\ total c' = total c.

Lemma same_fed c c' : same c c' -> fed [] c c'.
Proof. intros (E & H). split; [|done]. by rewrite E, app_nil_r. Qed.
Lemma fed_trans b b' c1 c2 c3 : fed b c1 c2 -> fed b' c2 c3 -> fed (b ++ b') c1 c3.
Proof. intros (E1 & H1 & T1) (E2 & H2 & T2). split; [by rewrite E2, E1, app_assoc|]. split; congruence. Qed.

Lemma read_stuck readonly bs c : stuck (ClientFrame.buf (frames c) ++ bs) ->
  runs (ClientAttach.read_socket readonly (Chunk bs)) c (fun r c' => r = Ok tt /\ fed bs c c').
Proof.
  intros Hs. unfold ClientAttach.read_socket. rewrite runs_bind, runs_modify, runs_bind, runs_get. cbn [ClientAttach.daemon_frames].
  rewrite runs_bind, runs_get. unfold ClientFrame.feed. cbn [ClientAttach.frames ClientAttach.set_frames ClientAttach.add_got ClientFrame.buf].
  rewrite stuck_waits by done. by rewrite runs_ret.
Qed.

Lemma socket_stuck readonly socket c :
  stuck (ClientFrame.buf (frames c) ++ match socket with Some (Chunk bs) => bs | _ => [] end) ->
  runs (match socket with Some r => ClientAttach.read_socket readonly r | None => mret tt end) c
    (fun _ c' => fed (match socket with Some (Chunk bs) => bs | _ => [] end) c c').
Proof.
  intros Hs. destruct socket as [[bs| | |]|]; try (by apply same_fed).
  eapply runs_mono; [by apply read_stuck|]. by intros r c' [_ Hf].
Qed.

Lemma keys_fed keys c : runs (match keys with Some r => ClientAttach.read_keys r | None => mret tt end) c (fun _ c' => fed [] c c').
Proof.
  destruct keys as [[bs| | |]|]; try (by apply same_fed). eapply runs_mono; [apply write_same|]. intros r c'. apply same_fed.
Qed.

Lemma round_stuck (readonly : bool) r c : stuck (ClientFrame.buf (frames c) ++ chunk_of r) ->
  runs ((if readonly then ClientAttach.round_readonly else ClientAttach.round) r) c
    (fun res c' => heard c' = heard c /\ total c' = total c /\ (res = Ok tt -> fed (chunk_of r) c c')).
Proof.
  intros Hs. assert (Hfed : forall (res : result unit unit) b c', b = chunk_of r -> fed b c c' ->
    heard c' = heard c /\ total c' = total c /\ (res = Ok tt -> fed (chunk_of r) c c')) by (intros res b c' -> Hf; split_and!; [apply Hf..|done]).
  assert (Hquiet : forall (res : result unit unit) c', fed [] c c' -> res <> Ok tt ->
    heard c' = heard c /\ total c' = total c /\ (res = Ok tt -> fed (chunk_of r) c c')) by (intros res c' Hf Hr; split_and!; [apply Hf..|done]).
  destruct r as [|resized|resized socket gone keys closed]; destruct readonly; cbn [ClientAttach.round ClientAttach.round_readonly].
  - rewrite runs_fail. by split_and!.
  - rewrite runs_fail. by split_and!.
  - rewrite runs_ret. apply (Hfed _ []); [done|]. by apply same_fed.
  - eapply runs_mono; [apply resize_same|]. intros res c' [-> Hc]. apply (Hfed _ []); [done|]. by apply same_fed.
  - rewrite runs_bind. eapply runs_mono; [by apply socket_stuck|]. intros [u|e] c' Hc.
    + destruct gone; [rewrite runs_fail|rewrite runs_ret]; by eapply Hfed.
    + by eapply Hfed.
  - rewrite runs_bind. eapply runs_mono; [apply resize_same|]. intros res c1 [-> H1%same_fed]. cbv beta iota.
    rewrite runs_bind. eapply runs_mono.
    { apply socket_stuck. destruct H1 as (E & _). rewrite app_nil_r in E. by rewrite E. }
    intros res c2 H2. pose proof (fed_trans _ _ _ _ _ H1 H2) as H12. cbn [app] in H12. destruct res as [u|e]; [|by eapply Hfed].
    rewrite runs_bind. eapply runs_mono; [apply keys_fed|]. intros res c3 H3. pose proof (fed_trans _ _ _ _ _ H12 H3) as H13.
    rewrite app_nil_r in H13. destruct res as [u'|e]; [|by eapply Hfed]. destruct (closed || gone); [rewrite runs_fail|rewrite runs_ret]; by eapply Hfed.
Qed.

(** ** While nothing fails *)

Definition calm_read (r : option PublicAttach.read_result) : Prop :=
  match r with Some (Eof | ReadFailed) => False | _ => True end.

(** A turn in which neither the daemon nor the terminal goes away. *)
Definition calm (r : Round) : Prop :=
  match r with
  | PollFailed => False
  | Interrupted _ => True
  | Polled _ socket gone keys closed => gone = false /\ closed = false /\ calm_read socket /\ calm_read keys
  end.

Lemma write_calm f c : ClientAttach.kernel c = [] ->
  runs (ClientAttach.write_frame f) c (fun r c' => r = Ok tt /\ ClientAttach.kernel c' = []).
Proof.
  intros Hk. assert (Hw : forall bs, ClientAttach.write_all [] bs = (true, bs, [])) by by intros [].
  unfold ClientAttach.write_frame. rewrite runs_bind, runs_get, Hk, Hw, Hw, runs_bind, runs_modify, runs_ret. done.
Qed.
Lemma resize_calm resized c : ClientAttach.kernel c = [] ->
  runs (ClientAttach.resize_if resized) c (fun r c' => r = Ok tt /\ ClientAttach.kernel c' = []).
Proof.
  intros Hk. destruct resized as [size|]; [|done]. unfold ClientAttach.resize_if. rewrite runs_bind, runs_attempt.
  assert (Hs : runs (ClientAttach.send_resize size) c (fun _ c' => ClientAttach.kernel c' = [])).
  { destruct size as [[rows cols]|]; [|done]. cbn [ClientAttach.send_resize]. destruct (ClientAttach.terminal_resize_payload rows cols); [|done].
    eapply runs_mono; [by apply write_calm|]. by intros r c' []. }
  eapply runs_mono; [exact Hs|]. intros r c' Hc. by rewrite runs_ret.
Qed.
Lemma socket_calm readonly socket c : calm_read socket -> ClientAttach.kernel c = [] ->
  stuck (ClientFrame.buf (frames c) ++ match socket with Some (Chunk bs) => bs | _ => [] end) ->
  runs (match socket with Some r => ClientAttach.read_socket readonly r | None => mret tt end) c
    (fun r c' => r = Ok tt /\ ClientAttach.kernel c' = []).
Proof.
  intros Hr Hk Hs. destruct socket as [[bs| | |]|]; try done. cbn [ClientAttach.read_socket].
  rewrite runs_bind, runs_modify, runs_bind, runs_get. cbn [ClientAttach.daemon_frames].
  rewrite runs_bind, runs_get. unfold ClientFrame.feed. cbn [ClientAttach.frames ClientAttach.set_frames ClientAttach.add_got ClientFrame.buf].
  rewrite stuck_waits by done. by rewrite runs_ret.
Qed.
Lemma keys_calm keys c : calm_read keys -> ClientAttach.kernel c = [] ->
  runs (match keys with Some r => ClientAttach.read_keys r | None => mret tt end) c (fun r c' => r = Ok tt /\ ClientAttach.kernel c' = []).
Proof. intros Hr Hk. destruct keys as [[bs| | |]|]; try done. by apply write_calm. Qed.

Lemma round_calm (readonly : bool) r c : calm r -> ClientAttach.kernel c = [] -> stuck (ClientFrame.buf (frames c) ++ chunk_of r) ->
  runs ((if readonly then ClientAttach.round_readonly else ClientAttach.round) r) c (fun res c' => res = Ok tt /\ ClientAttach.kernel c' = []).
Proof.
  intros Hr Hk Hs. destruct r as [|resized|resized socket gone keys closed]; [done|destruct readonly; [done|by apply resize_calm]|].
  destruct Hr as (-> & -> & Hsock & Hkeys). destruct readonly; cbn [ClientAttach.round ClientAttach.round_readonly].
  - rewrite runs_bind. eapply runs_mono; [by apply socket_calm|]. by intros res c1 [-> H1].
  - rewrite runs_bind. eapply runs_mono; [apply runs_and; [by apply resize_calm|apply resize_same]|].
    intros res c1 [[-> H1] [_ Hsame]]. cbv beta iota. destruct Hsame as (E & _).
    rewrite runs_bind. eapply runs_mono; [apply socket_calm; [done..|]|]. { by rewrite E. }
    intros res c2 [-> H2]. cbv beta iota. rewrite runs_bind. eapply runs_mono; [by apply keys_calm|]. by intros res c3 [-> H3].
Qed.

(** The client takes nothing out; while nothing fails it goes on waiting. *)
Lemma loop_stuck (readonly : bool) rounds c : stuck (ClientFrame.buf (frames c) ++ concat (map chunk_of rounds)) ->
  runs (io_loop readonly rounds) c (fun r c' => heard c' = heard c /\ total c' = total c /\
    (Forall calm rounds -> ClientAttach.kernel c = [] ->
     r = Ok tt /\ ClientFrame.buf (frames c') = ClientFrame.buf (frames c) ++ concat (map chunk_of rounds))).
Proof.
  revert c. induction rounds as [|r rounds IH]; intros c Hs.
  { unfold io_loop. cbn [Effects.each]. rewrite runs_ret. split_and!; [done..|]. intros _ _. by rewrite app_nil_r. }
  unfold io_loop. cbn [Effects.each]. rewrite runs_bind. cbn [map concat] in Hs |- *. rewrite app_assoc in Hs |- *.
  pose proof (stuck_prefix _ _ Hs) as Hs1. pose proof (round_stuck readonly r c Hs1) as Hr.
  assert (Hcalm : runs ((if readonly then ClientAttach.round_readonly else ClientAttach.round) r) c (fun res c' =>
    calm r -> ClientAttach.kernel c = [] -> res = Ok tt /\ ClientAttach.kernel c' = [])).
  { pose proof (fun H1 H2 => round_calm readonly r c H1 H2 Hs1) as Hc. unfold runs in Hr, Hc |- *.
    destruct ((if readonly then ClientAttach.round_readonly else ClientAttach.round) r c) as [[res c']|]; [naive_solver|done]. }
  eapply runs_mono; [exact (runs_and _ _ _ _ Hr Hcalm)|]. intros res c' [(Hh & Ht & Hf) Hk]. destruct res as [[]|e].
  - destruct (Hf eq_refl) as (E & _). eapply runs_mono; [apply IH; by rewrite E|]. cbv beta. intros r2 c2 (H2 & T2 & K2).
    split_and!; [congruence..|]. intros Hall Hker. apply Forall_cons in Hall as [Hr0 Hall]. rewrite <- E. apply K2; [done|].
    by destruct (Hk Hr0 Hker).
  - split_and!; [done..|]. intros Hall Hker. apply Forall_cons in Hall as [Hr0 _]. by destruct (Hk Hr0 Hker).
Qed.
End stray.

Section frozen.
Context `{SnapshotJson} (show : persist_error -> str) (json_text : DaemonServer.Json -> str)
  (entries_of : str -> option (list (str * str))) (holder_pid : N) (foreign_keys : bool).
Context {B : Type} `{HolderService B} (os : Os) (fd : N).

(** C38: What [persist detach] does to the client that is attached: the daemon
    answers that it was detached, and puts one byte into the client's stream,
    which is no frame.  A client that gets it between two frames takes it for the
    beginning of a frame of more than 16 MiB: of everything that the session
    prints until then it takes nothing out and shows nothing.  It is not detached:
    while nothing fails, its loop goes on and keeps what arrives. *)
Theorem detach_freezes_client id writer w : is_u32 id -> Daemon.attached_sessions (manager w) !! id = Some writer -> writer <> fd ->
  exists w' message, run os (DaemonServer.handle_frame show json_text entries_of holder_pid foreign_keys fd
      (ClientFrame.mkFrame ClientFrame.DetachSignal 0 0 (ClientMessages.encode_detach id))) w = Some (Ok tt, w') /\
    sent w' = sent w ++ [(fd, ClientFrame.mkFrame ClientFrame.DetachSignalResp 0 0 (ClientMessages.encode_op_resp true message))] /\
    (0 < takes os (S (tick w)) -> forall readonly rounds c new rest,
      received writer w' = received writer w ++ new -> ClientFrame.buf (ClientAttach.frames c) = [] ->
      concat (map chunk_of rounds) = new ++ rest -> lenN rest < 16777216 ->
      runs (ClientAttach.io_loop readonly rounds) c (fun r c' =>
        ClientAttach.heard c' = ClientAttach.heard c /\ ClientAttach.total c' = ClientAttach.total c /\
        (Forall calm rounds -> ClientAttach.kernel c = [] ->
         r = Ok tt /\ ClientFrame.buf (ClientAttach.frames c') = new ++ rest))).
Proof.
  intros Hi Hw Hne. assert (Hd : ClientMessages.decode_detach (ClientMessages.encode_detach id) = Some id).
  { apply ClientMessages.run_need; [done|]. by apply Cursor.run_reads_all, Cursor.reads_u32. }
  assert (Hrun : runs (run os (DaemonServer.handle_frame show json_text entries_of holder_pid foreign_keys fd
      (ClientFrame.mkFrame ClientFrame.DetachSignal 0 0 (ClientMessages.encode_detach id)))) w
    (fun r w' => r = Ok tt /\ sent w' = sent w ++ [(fd, ClientFrame.mkFrame ClientFrame.DetachSignalResp 0 0 (ClientMessages.encode_op_resp true []))] /\
      exists bs, wire w' = wire w ++ [(writer, taken (takes os (S (tick w))) [byte_of 1]); (fd, bs)])).
  { handled. rewrite Hd. unfold DaemonServer.handle_detach_signal, DaemonServer.respond. thread. rewrite Hw. thread. cbn [sent wire ticked tick].
    split_and!; [done..|]. eexists. by rewrite <- app_assoc. }
  unfold runs in Hrun. destruct (run os _ w) as [[r w']|]; [|done]. destruct Hrun as (-> & Hs & bs & Hwire).
  exists w', []. split_and!; [done..|]. intros Htake readonly rounds c new rest Hrec Hb Hc Hl.
  assert (En : new = [byte_of 1]).
  { unfold received in Hrec. rewrite Hwire, List.filter_app, map_app, concat_app in Hrec. cbn [List.filter fst] in Hrec.
    rewrite N.eqb_refl, (proj2 (N.eqb_neq fd writer)) in Hrec by done. apply app_inv_head in Hrec. rewrite <- Hrec. cbn.
    rewrite app_nil_r. unfold taken. apply takeN_ge. change (lenN [byte_of 1]) with 1. lia. }
  subst new. eapply runs_mono; [apply loop_stuck|].
  - rewrite Hb, Hc. split; [|done]. cbn [app]. rewrite lenN_cons. lia.
  - cbv beta. intros r c' (Hh & Ht & Hk). split_and!; [done..|]. intros Hall Hker. rewrite <- Hc. destruct (Hk Hall Hker) as [-> ->].
    by rewrite Hb.
Qed.
End frozen.
End CommandEffects.

(** ** Examples *)

Module CommandExamples.
Import SessionCommands CommandEffects.
#[local] Existing Instances Samples.toy_service Samples.toy_laws Environment.bits_json.

Definition console (bs : list bytes) : Console := mkConsole bs [] [] [] [].

(** *** Searching *)

Definition sample_log : bytes := lit "make
error: one
" ++ [byte_of 255; byte_of 10] ++ lit "Error: two".
Definition sample_open (name : str) : option LogFile :=
  if Command.is_word name ["7.log"] then Some (Regular sample_log) else if Command.is_word name ["8.log.d"] then Some NoRegular else None.

Lemma log_search_exact_witness :
  runs (log_search 3 Text.to_ascii_lowercase true None sample_open 10 (lit "error") (Some 7) true) (console [])
    (fun r c' => r = Ok (Some tt) /\ printed c' = [lit "[7] 2      error: one"; lit "[7] 4      Error: two"]).
Proof.
  eapply runs_mono.
  - apply (log_search_exact 3 Text.to_ascii_lowercase None sample_open (lit "error") true (Some 7) 10 (console [])); [reflexivity|].
    intros name f Hin Ho. unfold sample_open in Ho. destruct (Command.is_word name ["7.log"]%string) eqn:E.
    + injection Ho as <-. exists sample_log. split; [reflexivity|]. apply Nat.ltb_lt. vm_compute. reflexivity.
    + exfalso. destruct (Command.is_word name ["8.log.d"]%string) eqn:E'; [|discriminate Ho]. unfold Command.is_word in E'. cbn [existsb] in E'.
      rewrite orb_false_r in E'. apply bool_decide_eq_true in E' as ->. revert Hin. apply (bool_decide_unpack _). vm_compute. exact I.
  - intros r c' [-> Hp]. split; [reflexivity|]. etransitivity; [exact Hp|]. vm_compute. reflexivity.
Defined.

Lemma log_search_hangs_witness : forall fuel,
  runs (log_search 3 Text.to_ascii_lowercase true (Some [Some (lit "8.log.d"); None]) sample_open fuel (lit "x") None false) (console [])
    (fun r _ => r = Ok None).
Proof.
  intros fuel. apply (log_search_hangs 3 Text.to_ascii_lowercase (Some [Some (lit "8.log.d"); None]) sample_open (lit "x") false None fuel
    (console []) (lit "8.log.d")); [reflexivity| |reflexivity].
  apply (bool_decide_unpack _). vm_compute. exact I.
Defined.

(** A log that is not UTF-8 is refused. *)
Example raw_log_refused : read_session_log true (lit "/data") (fun _ => Contents sample_log) (lit "invalid") 7 (console [])
  = Some (Err (Errors.Io (lit "read session log") (lit "invalid")), console []).
Proof. vm_compute. reflexivity. Qed.

(** *** Changes *)

Definition ack : ClientFrame.Frame :=
  ClientFrame.mkFrame ClientFrame.HelloAck 0 0 (ClientMessages.encode_hello_ack (ClientMessages.mkHelloAck 0 2 7 ClientMessages.Accepted)).
Definition answer_ok (kind : ClientFrame.MessageType) : ClientFrame.Frame := ClientFrame.mkFrame kind 0 0 (ClientMessages.encode_op_resp true []).
Definition sample_world : World Reconcile.HolderInventorySnapshot := Samples.world Samples.manager0 [Samples.row 7 "running" false] [].
Definition type (args : list str) (c : Console) : option (option N * str * Console) :=
  type_command 1000 42 [] (fun _ => None) true (lit "/data") 3 (fun _ => NotFound) [] Text.to_ascii_lowercase true None sample_open
    (Ok tt) (Ok tt) (fun _ => mret tt) (lit "persist 1") (Ok tt) 10 true args c.

(** [persist pin 7]: the answer of the daemon and what the user sees. *)
Lemma change_reported_witness : exists code err c',
  type (map lit ["persist"; "pin"; "7"]%string) (console [ClientFrame.write_frame ack ++ ClientFrame.write_frame (answer_ok ClientFrame.PinSetResp)])
    = Some (Some code, err, c') /\ code = 0 /\ printed c' = [lit "ok"].
Proof.
  destruct (change_reported Samples.show Samples.json_text Samples.no_entries 99 true (Samples.toy_os (Ok None)) 4
    1000 42 [] (fun _ => None) true (lit "/data") 3 (fun _ => NotFound) [] Text.to_ascii_lowercase true None sample_open
    (Ok tt) (Ok tt) (fun _ => mret tt) (lit "persist 1") (Ok tt) 10 true
    (Command.Pin 7 true) (ClientFrame.mkFrame ClientFrame.PinSet 0 0 (ClientMessages.encode_pin 7 true)) sample_world)
    as (_ & w' & reply & Hrun & Hsent & Hall); [reflexivity|reflexivity|].
  assert (Er : reply = answer_ok ClientFrame.PinSetResp /\ metadata w' <> metadata sample_world).
  { match type of Hrun with ?t = _ => let v := eval vm_compute in t in
      match v with Some (_, ?w) => assert (Hw : w' = w) by (pose proof Hrun as Hr; vm_compute in Hr; injection Hr as <-; reflexivity) end end.
    rewrite Hw in Hsent |- *. cbn [sent] in Hsent. split; [by injection Hsent as <-|]. intros Em.
    apply (f_equal (fun s => Metadata.pinned <$> Metadata.sessions s !! 7)) in Em. vm_compute in Em. discriminate Em. }
  destruct Er as [-> Hm].
  destruct (Hall ack [] (console [ClientFrame.write_frame ack ++ ClientFrame.write_frame (answer_ok ClientFrame.PinSetResp)]))
    as (code & err & c' & Hc & _ & [(Hcode & Hp & _)|(_ & _ & Hsame)]).
  - vm_compute. repeat split; discriminate.
  - reflexivity.
  - split; [repeat constructor; discriminate| |reflexivity|reflexivity]. cbn [incoming console concat]. by rewrite app_nil_r.
  - exists code, err, c'. split; [exact Hc|]. split; [exact Hcode|exact Hp].
  - destruct (Hm Hsame).
Defined.

(** *** Detaching *)

(** Nobody is attached, and there is no session 9. *)
Lemma detach_always_ok_witness : exists w' reply,
  run (Samples.toy_os (Ok None)) (Samples.handle (ClientFrame.mkFrame ClientFrame.DetachSignal 0 0 (ClientMessages.encode_detach 9))) sample_world
    = Some (Ok tt, w') /\ sent w' = sent sample_world ++ [(4, reply)].
Proof.
  destruct (detach_always_ok Samples.show Samples.json_text Samples.no_entries 99 true (Samples.toy_os (Ok None)) 4
    1000 42 [] (fun _ => None) true (lit "/data") 3 (fun _ => NotFound) [] Text.to_ascii_lowercase true None sample_open
    (Ok tt) (Ok tt) (fun _ => mret tt) (lit "persist 1") (Ok tt) 10 true 9 sample_world)
    as (w' & reply & Hrun & Hsent & _); [reflexivity|]. exists w', reply. split; [exact Hrun|exact Hsent].
Defined.

(** The byte arrives, then output of the session. *)
Definition output : bytes := ClientFrame.write_frame (ClientFrame.mkFrame ClientFrame.Stdout 0 0 (lit "hello" ++ [byte_of 10])).
Definition turn (bs : bytes) : ClientAttach.Round := ClientAttach.Polled None (Some (PublicAttach.Chunk bs)) false None false.
Definition attached_world : World Reconcile.HolderInventorySnapshot :=
  Samples.world (Daemon.mkManager (Daemon.session_info Samples.manager0) 4096 true 4096 false [] [] [] 10 {[7 := 6]} ∅ ∅ 60
      ∅ ∅ ∅ Daemon.default_recovery) [Samples.row 7 "running" false] [].
Lemma detach_freezes_client_witness : Daemon.attached_sessions (manager attached_world) !! 7 = Some 6 /\
  runs (ClientAttach.io_loop false [turn [byte_of 1]; turn output; turn output]) (ClientAttach.start [] [])
    (fun r c' => r = Ok tt /\ ClientAttach.heard c' = [] /\ ClientAttach.total c' = []).
Proof.
  split; [vm_compute; reflexivity|].
  destruct (detach_freezes_client Samples.show Samples.json_text Samples.no_entries 99 true (Samples.toy_os (Ok None)) 4 7 6 attached_world)
    as (w' & message & Hrun & _ & Hc); [reflexivity|vm_compute; reflexivity|discriminate|].
  assert (Hr : received 6 w' = received 6 attached_world ++ [byte_of 1]).
  { assert (E : received 6 ∘ snd <$> run (Samples.toy_os (Ok None)) (Samples.handle (ClientFrame.mkFrame ClientFrame.DetachSignal 0 0
      (ClientMessages.encode_detach 7))) attached_world = Some [byte_of 1]) by (vm_compute; reflexivity).
    unfold Samples.handle in E. rewrite Hrun in E. injection E as E. exact E. }
  eapply runs_mono.
  - apply (Hc ltac:(vm_compute; reflexivity) false [turn [byte_of 1]; turn output; turn output] (ClientAttach.start [] []) [byte_of 1] (output ++ output) Hr);
      vm_compute; reflexivity.
  - intros r c' (Hh & Ht & Hk). destruct Hk as [Er _]; [repeat constructor|reflexivity|]. split; [exact Er|]. split; [exact Hh|exact Ht].
Defined.
(** Without that byte the output is shown. *)
Example output_shown : runs (ClientAttach.io_loop false [turn output; turn output]) (ClientAttach.start [] [])
    (fun _ c' => ClientAttach.total c' = lit "hello" ++ [byte_of 10] ++ lit "hello" ++ [byte_of 10]).
Proof. vm_compute. reflexivity. Qed.
End CommandExamples.
